(* ===== verification/_CoqProject ===== *)
-Q . S2P
Prelude.v
Buf.v
Wire.v
Api.v
ApiMarshal.v
ApiUnmarshal.v
ApiTotal.v
ApiRoundTrip.v
ApiSkip.v
ApiRegistry.v
GoStrings.v
GrpcStatus.v
GrpcTransport.v
GrpcRpc.v
GrpcCodec.v
GrpcServer.v
GrpcLifecycle.v
Hpack.v
HpackTable.v
HpackHuffman.v
HpackBits.v
HpackHuffmanProps.v
HpackEncoder.v
HpackDecoder.v
HpackIntProps.v
HpackSync.v
HpackWrite.v
GoBytes.v
H2Errors.v
GrpcHeaders.v
GrpcHeaderProps.v
H2Frame.v
H2Write.v
H2Framer.v
H2Calls.v
H2Order.v
H2RoundTrip.v
H2Parse.v
H2ReadTotal.v
GrpcFramer.v
GrpcFramerProps.v
H2Blocks.v
GrpcAnswers.v
Threads.v
ServerState.v
ServerTransport.v
ServerLoops.v
ServerInv.v
ServerSteps.v
ServerFrames.v
ServerClose.v
ServerWrites.v
ServerReads.v
ServerSound.v
ServerDemo.v
ServerProps.v
ServerLog.v
ServerSends.v
ApiService.v
World.v
Plugin.v
PluginSpec.v
ManagerSpec.v
PluginLifecycle.v
AllocateSpec.v
ServerAnswers.v
Fsnotify.v
FsnotifySpec.v
FsnotifySound.v
Main.v
FsnotifyProps.v
Frame.v
MainSpec.v
MainProps.v
MainLive.v
ClientConn.v
ClientInv.v
ClientTear.v
ClientThreads.v
ClientProps.v
