(* ===== verification/Prelude.v ===== *)
(** * Verification of the OpenVMI Kubernetes device plugin

    The program is services/k8s-dev-plugin-service: a daemon that gives Kubernetes three kinds of device
    instances (the Android binders) through the kubelet's device plugin API.  [main] (main.go) guards
    itself with a pid file, initialises the host's devices with a script, and then brings up, for each device, a
    gRPC server on a socket of its own (server.go), registers it with the kubelet, and brings
    everything down and up again when the kubelet restarts or on SIGHUP, and down for good on other signals
    (watcher.go delivers both).  The kubelet calls [ListAndWatch] and [Allocate].  Below this are the generated
    messages and stubs of the API (api.pb.go), the gRPC server, its HTTP/2 transport, and the
    framer and the header compression of golang.org/x/net/http2, all of which are in the repository as Go
    source under services/k8s-dev-plugin-service/src.  The development models the code on the path of a
    call from the bytes on the plugin's socket to the plugin's answer and back, and the service around it.

    Source paths below are relative to services/k8s-dev-plugin-service: "api" is
    src/k8s.io/kubernetes/pkg/kubelet/apis/deviceplugin/v1beta1, "grpc" is src/google.golang.org/grpc, "http2" is
    src/golang.org/x/net/http2.

    ** The files

    Foundations.  Prelude: outcomes of Go code ([res]: a value, an error, a panic, or out of fuel), machine
    integers, slices with their index checks.  Buf: writing into a slice at a running index.  GoStrings, GoBytes:
    the functions of Go's standard library that the code uses, on strings and on bytes.  Threads: goroutines over a
    shared state, and rely-guarantee rules for them.

    The device plugin API.  Wire, Api, ApiMarshal, ApiUnmarshal: api/api.pb.go and api/constants.go, a function per
    generated function.  ApiTotal, ApiRoundTrip, ApiSkip, ApiRegistry: unmarshalling ends, when it panics, round
    trips whatever the order of maps, unknown fields.  ApiService: the service interfaces as type classes, the
    generated handlers, descriptors and client stubs.

    gRPC.  GrpcStatus: grpc/codes, grpc/status, the errors of grpc/rpc_util.go.  GrpcTransport:
    [recvBuffer], [quotaPool], [inFlow] of grpc/transport.  GrpcRpc, GrpcCodec: the framing of messages and the
    proto codec.  GrpcServer, GrpcLifecycle: grpc/server.go, its calls as code in a monad, its listeners and
    connections as a transition system.

    Header compression.  Hpack, HpackTable, HpackHuffman, HpackEncoder, HpackDecoder: http2/hpack.  HpackBits,
    HpackHuffmanProps, HpackIntProps, HpackSync, HpackWrite: the coder and the decoder are inverse, the
    tables stay in step, the decoder is total and indifferent to how a block is cut.

    HTTP/2.  H2Errors, H2Frame, H2Write, H2Framer: http2/errors.go and http2/frame.go.  H2Calls, H2Order,
    H2RoundTrip, H2Parse, H2ReadTotal, H2Blocks: what a Framer writes another reads, the order of
    frames as a grammar and an automaton, reading is total.  GrpcHeaders, GrpcFramer: grpc/transport/http_util.go.
    GrpcHeaderProps, GrpcFramerProps, GrpcAnswers: headers, the buffered framer, and the
    layers from a status to the client that reads it.

    The transport of the server.  ServerState: the fields and atomic steps of [http2Server] in
    grpc/transport/http2_server.go, with the items of control.go.  ServerTransport, ServerLoops: its methods
    and goroutines, statement by statement.  ServerInv: the invariant, what a goroutine owns and relies on.
    ServerSteps, ServerFrames, ServerClose, ServerWrites, ServerReads: every step and method respects them.
    ServerSound, ServerProps: all interleavings.  ServerDemo: runs that are written out.  ServerLog, ServerSends: what
    each goroutine writes, method by method; ServerAnswers: the plugins' handlers on the transport.

    Client connections.  ClientConn: grpc/clientconn.go, and the making and closing of a transport in http2_client.go.  ClientInv:
    the invariant, what a goroutine relies on, and a round of [resetTransport].  ClientTear: [tearDown] and [resetAddrConn].
    ClientThreads: the goroutines, and all of them together.  ClientProps: the context of [DialContext], the
    theorems, and connections that run.

    The file watcher.  Fsnotify: inotify.go, inotify_poller.go and fsnotify.go of src/github.com/fsnotify/fsnotify.
    FsnotifySpec: the format of inotify, the contract of the kernel.  FsnotifySound, FsnotifyProps: all
    interleavings, and what the main loop is told.

    The service.  World: the process and its environment.  Plugin, Main: server.go, watcher.go and main.go.
    PluginSpec, ManagerSpec, PluginLifecycle, AllocateSpec, Frame, MainSpec, MainProps, MainLive: their
    specifications and the theorems on the service as a whole.

    ** How the parts interact

    Interfaces are type classes or records of laws: [DevicePluginServer] and [RegistrationServer] (ApiService) between
    the generated code and the plugin; [CodecLaws] (GrpcRpc) between the framing of messages and the codec;
    [BufferedWriter] and [Connection] (GrpcFramer, ServerState) between the transport and what it writes to;
    [Kernel] and [KernelLaws] (Fsnotify, FsnotifySpec) between the file watcher and the system.  A
    client's theorems are proved against the interface; [proto_codec], [bufio_writer] and the plugin are
    instances.  AllocateSpec runs a call through the server, the codec and the plugin, from bytes to bytes;
    ServerAnswers takes it from the stream that the transport filled to the frames on the connection; GrpcAnswers
    runs a status through the headers, HPACK, the frames, the buffer and back; ClientProps gives the plugin's [connectGrpcServer] what Plugin takes from
    its environment; FsnotifyProps takes the main loop's test for
    a restart of the kubelet to the bytes that the kernel writes.

    ** What the theorems show

    The service (MainProps, MainLive): in every state of the loop exactly the plugins of the current manager run, it
    never panics, handles each event as it should, shuts down when it is told to and the kubelet
    accepts, and what it leaves behind.  The plugin (AllocateSpec, PluginLifecycle): answers to
    [Allocate] and [ListAndWatch], exclusiveness, advertisement, restart.  The API (ApiRegistry): encoding and
    decoding are inverse and total, and the inputs on which decoding panics.  gRPC (GrpcRpc, GrpcCodec,
    GrpcLifecycle, GrpcTransport): framing, the pooled codec, stopping, queues and accounts.  HPACK and
    HTTP/2: round trips, tables, safety on any input, order of frames.  The server's transport (ServerProps): for
    every order of the steps of its goroutines and of any number of handlers, every input and every failure of
    the connection, the streams are well formed, frames are whole and in order, data respects the window of the
    connection, GOAWAY tells the truth, and nothing panics with the default keepalive parameters; and
    three states that the transport should not reach and does; what a handler writes is on the wire in its order and
    complete (ServerAnswers).  Client connections (ClientProps): whatever the network does, nothing panics,
    [Dial] returns a connection only after an attempt that succeeded and an error only with the connection closed, and returns once
    its time-out has passed; who waits for a transport is woken; what [Close] closes.  The file watcher (FsnotifyProps): it reports what the kernel wrote, in its order, reads
    within its buffer, closes each channel once, and makes the main loop restart exactly when the kubelet's socket
    was created.  What is wrong in the code is proved as the
    theorems whose names say so ([restart_panics], [applySettings_deadlock], ...).

    ** Concurrency

    GrpcTransport and GrpcLifecycle are transition systems with their own step relations.  The service's main goroutine
    is sequential code in a monad; what other goroutines do to it is in the answers of the environment.  The
    server's transport, client connections and the file watcher are modelled by Threads: a goroutine is a program of atomic steps, the pool of goroutines
    takes steps in any order, handlers may start any operation on any stream at any time, the clock goes on
    and deadlines pass.  A step is an access to an object with a lock of its own, an operation on a channel, or a
    section under a mutex; sections that take another lock are split.  The state carries notes ([aux]) that
    no step reads: the frames written, quota granted and held, who closed, what each goroutine wrote and was told; they are what the invariant is stated with.

    ** Bounds and fuel

    Loops over input take its length, or one more, as fuel (unmarshalling, HPACK, [ReadFrame], [Write]); theorems say
    that it is enough ([Unmarshal_terminates], [Write_total], [ReadFrame_total], [server_never_panics], which
    excludes [Diverges]).  The main loop is unbounded: its theorems hold for every fuel, and MainLive computes an amount
    after which it has returned.  Slices are shorter than 2^62 bytes.  The transport's theorems assume fewer than
    2^62 bytes of input, and for the absence of panics that fewer than 2^60 header fields, none of 2 GB,
    were sent, which bounds the counters of the encoder's table.

    ** Not modelled

    Balancers and calls of client connections, and the client's transport of grpc but for how a connection makes and closes it (the
    plugin dials only to register and to wait for its own server; what a call comes to is the environment's),
    handler_server.go and the HTTP/2 client and server for net/http (not reached).  In the modelled parts: authentication, statistics, tracing and
    logging, which the service does not set up; status details; the pools and caches of read buffers; protobuf
    by reflection (registration, text, JSON); flag parsing (no flag is defined).  The signals, the file system
    and commands are answers of the environment.  A goroutine of [Serve] that runs for the first time after
    [Stop] closes its listener, which may unlink the socket of a new server; the process model starts servers
    at once and does not show this.  Generated tables and bindings (Unicode, system calls), images, charts and scripts. *)

From stdpp Require Import base list strings gmap.
From Stdlib Require Import ZArith Strings.Byte Lia.

Open Scope Z_scope.

(** ** Outcomes of Go code

    A Go function of the modelled code ends in one of four ways: it returns a
    value, it returns an error, it panics, or (for a loop that the model bounds
    by fuel) it has not finished within the fuel given.  Theorems about the
    code show that the last never happens. *)

Inductive res (E A : Type) : Type :=
| Ok (a : A)
| Err (e : E)
| Panic
| Diverge.
Arguments Ok {E A} a.
Arguments Err {E A} e.
Arguments Panic {E A}.
Arguments Diverge {E A}.

#[export] Instance res_ret {E} : MRet (res E) := fun A a => Ok a.
#[export] Instance res_bind {E} : MBind (res E) := fun A B f r =>
  match r with
  | Ok a => f a
  | Err e => Err e
  | Panic => Panic
  | Diverge => Diverge
  end.
#[export] Instance res_fmap {E} : FMap (res E) := fun A B f r =>
  match r with
  | Ok a => Ok (f a)
  | Err e => Err e
  | Panic => Panic
  | Diverge => Diverge
  end.

#[export] Instance res_eq_dec {E A} `{EqDecision E, EqDecision A} : EqDecision (res E A).
Proof. solve_decision. Defined.

(** A guard with an error: [if cond { return err }]. *)
Definition guard_err {E} (cond : bool) (e : E) : res E unit :=
  if cond then Err e else Ok tt.

(** ** Machine integers

    [int] is 64 bits wide (the service is built for linux/amd64 and
    linux/arm64). *)

Definition uint64 (z : Z) : Z := z mod 2 ^ 64.
Definition uint32 (z : Z) : Z := z mod 2 ^ 32.
Definition uint16 (z : Z) : Z := z mod 2 ^ 16.
Definition uint8 (z : Z) : Z := z mod 2 ^ 8.
Definition int64 (z : Z) : Z := (z + 2 ^ 63) mod 2 ^ 64 - 2 ^ 63.
Definition int32 (z : Z) : Z := (z + 2 ^ 31) mod 2 ^ 32 - 2 ^ 31.

Definition max_int64 : Z := 2 ^ 63 - 1.

(** ** Bytes *)

Definition byte_of_Z (z : Z) : byte :=
  match Byte.of_N (Z.to_N (uint8 z)) with
  | Some b => b
  | None => x00
  end.
Definition Z_of_byte (b : byte) : Z := Z.of_N (Byte.to_N b).

#[export] Instance byte_eq_dec : EqDecision byte := Byte.byte_eq_dec.

(** [[]byte(s)] and [string(b)]. *)
Definition bytes_of (s : string) : list byte := String.list_byte_of_string s.
Definition string_of (b : list byte) : string := String.string_of_list_byte b.

(** [len] of a slice, and of a string. *)
Definition slen {A} (s : list A) : Z := Z.of_nat (length s).
Definition strlen (s : string) : Z := slen (bytes_of s).

(** ** Slices

    [s[i]], [s[i:j]] and [s[i:]] with Go's run-time checks.  A slice is modelled
    by its elements; every slice expression of the modelled code has its upper
    bound at most the length, so the capacity plays no part. *)

Definition index {E A} (s : list A) (i : Z) : res E A :=
  if i <? 0 then Panic else
  match s !! Z.to_nat i with
  | Some x => Ok x
  | None => Panic
  end.

Definition slice {E A} (s : list A) (i j : Z) : res E (list A) :=
  if (0 <=? i) && (i <=? j) && (j <=? slen s)
  then Ok (take (Z.to_nat (j - i)) (drop (Z.to_nat i) s))
  else Panic.

Definition slice_from {E A} (s : list A) (i : Z) : res E (list A) := slice s i (slen s).

(** [s[i] = x]. *)
Definition store {E A} (s : list A) (i : Z) (x : A) : res E (list A) :=
  if (0 <=? i) && (i <? slen s) then Ok (<[Z.to_nat i := x]> s) else Panic.

(** [copy(s[i:], src)]: the number of elements copied and the array after. *)
Definition copy_at {E A} (s : list A) (i : Z) (src : list A) : res E (Z * list A) :=
  d ← slice_from s i;
  let n := Nat.min (length d) (length src) in
  Ok (Z.of_nat n,
      take (Z.to_nat i) s ++ take n src ++ drop (Z.to_nat i + n) s).

(** ** Tactics *)

(** Case analysis on the boolean comparisons of the goal. *)
Ltac zcases :=
  repeat match goal with
  | |- context [?a <=? ?b] => destruct (Z.leb_spec a b)
  | |- context [?a <? ?b] => destruct (Z.ltb_spec a b)
  | |- context [?a =? ?b] => destruct (Z.eqb_spec a b)
  end.

(** Inversion of hypotheses [Ok _ = Ok _], [Err _ = Ok _], ... *)
Ltac inv_res :=
  repeat match goal with
  | H : Ok _ = Ok _ |- _ => injection H; clear H; intros; subst
  | H : Err _ = Err _ |- _ => injection H; clear H; intros; subst
  | H : Ok _ = Err _ |- _ => discriminate H
  | H : Ok _ = Panic |- _ => discriminate H
  | H : Ok _ = Diverge |- _ => discriminate H
  | H : Err _ = Ok _ |- _ => discriminate H
  | H : Err _ = Panic |- _ => discriminate H
  | H : Err _ = Diverge |- _ => discriminate H
  | H : Panic = Ok _ |- _ => discriminate H
  | H : Panic = Err _ |- _ => discriminate H
  | H : Panic = Diverge |- _ => discriminate H
  | H : Diverge = Ok _ |- _ => discriminate H
  end.

(** ** Integers *)

Lemma uint64_small z : 0 <= z < 2 ^ 64 -> uint64 z = z.
Proof. intros. by apply Z.mod_small. Qed.

Lemma uint64_range z : 0 <= uint64 z < 2 ^ 64.
Proof. apply Z.mod_pos_bound. lia. Qed.

Lemma uint8_small z : 0 <= z < 256 -> uint8 z = z.
Proof. intros. by apply Z.mod_small. Qed.

Lemma int64_small z : - 2 ^ 63 <= z < 2 ^ 63 -> int64 z = z.
Proof. intros. unfold int64. rewrite Z.mod_small; lia. Qed.

Lemma int64_range z : - 2 ^ 63 <= int64 z < 2 ^ 63.
Proof. unfold int64. pose proof (Z.mod_pos_bound (z + 2 ^ 63) (2 ^ 64) eq_refl). lia. Qed.

Lemma int32_small z : - 2 ^ 31 <= z < 2 ^ 31 -> int32 z = z.
Proof. intros. unfold int32. rewrite Z.mod_small; lia. Qed.

(** Or-ing in bits above the ones in use is addition. *)
Lemma lor_shiftl_add a x s :
  0 <= s -> 0 <= a < 2 ^ s -> Z.lor a (Z.shiftl x s) = a + x * 2 ^ s.
Proof.
  intros Hs Ha.
  rewrite <- Z.shiftl_mul_pow2 by lia.
  rewrite Z.add_nocarry_lxor; [symmetry; apply Z.lxor_lor|].
  all: apply Z.bits_inj'; intros n Hn; rewrite Z.land_spec, Z.bits_0, Z.shiftl_spec by lia.
  all: destruct (decide (n < s)).
  all: try (rewrite (Z.testbit_neg_r x) by lia; apply andb_false_r).
  all: replace (Z.testbit a n) with false; [done|].
  all: destruct (decide (a = 0)) as [->|]; [by rewrite Z.bits_0|].
  all: rewrite Z.bits_above_log2; [done|lia|].
  all: apply Z.lt_le_trans with s; [apply Z.log2_lt_pow2; lia|lia].
Qed.

Lemma land_127 v : Z.land v 127 = v mod 128.
Proof. change 127 with (Z.ones 7). by rewrite Z.land_ones by lia. Qed.

Lemma shiftr_7 v : Z.shiftr v 7 = v / 128.
Proof. by rewrite Z.shiftr_div_pow2 by lia. Qed.

(** ** Bytes *)

Lemma Z_of_byte_range b : 0 <= Z_of_byte b < 256.
Proof. unfold Z_of_byte. pose proof (Byte.to_N_bounded b). lia. Qed.

Lemma Z_of_byte_of_Z z : Z_of_byte (byte_of_Z z) = uint8 z.
Proof.
  unfold Z_of_byte, byte_of_Z.
  assert (0 <= uint8 z < 256) as Hz by (apply Z.mod_pos_bound; lia).
  destruct (Byte.of_N (Z.to_N (uint8 z))) as [b|] eqn:Hb.
  - apply Byte.to_of_N in Hb. rewrite Hb. lia.
  - apply Byte.of_N_None_iff in Hb. lia.
Qed.

Lemma byte_of_Z_of_byte b : byte_of_Z (Z_of_byte b) = b.
Proof.
  unfold byte_of_Z. rewrite uint8_small by apply Z_of_byte_range.
  unfold Z_of_byte. by rewrite N2Z.id, Byte.of_to_N.
Qed.

Lemma bytes_of_string_of b : bytes_of (string_of b) = b.
Proof. apply String.list_byte_of_string_of_list_byte. Qed.

Lemma string_of_bytes_of s : string_of (bytes_of s) = s.
Proof. apply String.string_of_list_byte_of_string. Qed.

(** ** Slices *)

Lemma slen_nonneg {A} (s : list A) : 0 <= slen s.
Proof. unfold slen. lia. Qed.

Lemma slen_app {A} (s1 s2 : list A) : slen (s1 ++ s2) = slen s1 + slen s2.
Proof. unfold slen. rewrite length_app. lia. Qed.

Lemma slen_cons {A} (x : A) s : slen (x :: s) = 1 + slen s.
Proof. unfold slen. simpl. lia. Qed.

Lemma slen_nil {A} : slen (@nil A) = 0.
Proof. done. Qed.

Lemma slen_snoc {A} (s : list A) x : slen (s ++ [x]) = slen s + 1.
Proof. rewrite slen_app. done. Qed.

Lemma index_app {E A} (pre : list A) x post :
  index (E:=E) (pre ++ x :: post) (slen pre) = Ok x.
Proof.
  unfold index, slen. zcases; [lia|].
  by rewrite Nat2Z.id, list_lookup_middle.
Qed.

Lemma slice_app {E A} (pre s post : list A) :
  slice (E:=E) (pre ++ s ++ post) (slen pre) (slen pre + slen s) = Ok s.
Proof.
  unfold slice. rewrite !slen_app.
  pose proof (slen_nonneg pre). pose proof (slen_nonneg s). pose proof (slen_nonneg post).
  zcases; try lia. simpl. f_equal.
  unfold slen. rewrite Nat2Z.id, drop_app_length.
  replace (Z.to_nat _) with (length s) by lia. apply take_app_length.
Qed.



(** ** Weakest preconditions of outcomes

    [wp pan r Q]: [r] is not [Diverge], a value it returns satisfies [Q], and it
    panics only if [pan].  [wp True] is total correctness up to panics and
    [wp False] excludes them. *)

Definition wp {E A} (pan : Prop) (r : res E A) (Q : A -> Prop) : Prop :=
  match r with
  | Ok a => Q a
  | Err _ => True
  | Panic => pan
  | Diverge => False
  end.

Section wp.
Context {E : Type}.

Lemma wp_bind {A B} pan (r : res E A) (f : A -> res E B) P Q :
  wp pan r P -> (forall a, P a -> wp pan (f a) Q) -> wp pan (r ≫= f) Q.
Proof. destruct r; simpl; auto. Qed.

Lemma wp_mono {A} pan (r : res E A) P Q :
  wp pan r P -> (forall a, P a -> Q a) -> wp pan r Q.
Proof. destruct r; simpl; auto. Qed.

Lemma wp_not_diverge {A} pan (r : res E A) P : wp pan r P -> r <> Diverge.
Proof. by destruct r. Qed.

Lemma wp_not_panic {A} (r : res E A) P : wp False r P -> r <> Panic.
Proof. by destruct r. Qed.

Lemma wp_slice {A} (s : list A) i j :
  wp True (slice (E:=E) s i j) (fun r => 0 <= i <= j /\ j <= slen s /\ slen r = j - i).
Proof.
  unfold slice. destruct ((0 <=? i) && (i <=? j) && (j <=? slen s)) eqn:Hc; [|done].
  apply andb_true_iff in Hc as [[? ?]%andb_true_iff ?].
  unfold slen in *. simpl. rewrite length_take, length_drop. lia.
Qed.

Lemma wp_slice_from {A} (s : list A) i :
  wp True (slice_from (E:=E) s i) (fun r => 0 <= i <= slen s /\ slen r = slen s - i).
Proof. eapply wp_mono; [apply wp_slice|]. simpl. lia. Qed.
End wp.

(** Sums of indices wrap to a negative number or not at all. *)
Lemma int64_sum a b :
  0 <= a < 2 ^ 63 -> 0 <= b < 2 ^ 63 ->
  (a + b < 2 ^ 63 /\ int64 (a + b) = a + b) \/
  (2 ^ 63 <= a + b /\ int64 (a + b) = a + b - 2 ^ 64).
Proof.
  intros. destruct (Z.lt_ge_cases (a + b) (2 ^ 63)); [left|right]; (split; [done|]).
  - apply int64_small. lia.
  - unfold int64. rewrite <- (Z.mod_unique (a + b + 2 ^ 63) (2 ^ 64) 1 (a + b - 2 ^ 63)); lia.
Qed.
