(* ===== verification/Buf.v ===== *)
(** * Writing into a byte slice

    The generated marshalling code of the device plugin API writes into a slice
    [dAtA] at a running index [i]: [dAtA[i] = b; i++], [i += copy(dAtA[i:], s)],
    [n, err := msg.MarshalTo(dAtA[i:]); i += n].  This file has those three
    statements as functions on the pair of the slice and the index, with the
    run-time panics of Go, their sequencing, and the predicate [emits], which
    says that a sequence of writes leaves given bytes at the index and nothing
    else changed. *)

From stdpp Require Import base list strings.
From Stdlib Require Import ZArith Strings.Byte Lia.
From S2P Require Import Prelude.
Open Scope Z_scope.

(** A piece of code that writes at index [i] of [dAtA] and returns the index
    after the bytes it wrote. *)
Definition writer (E : Type) : Type := list byte -> Z -> res E (Z * list byte).

(** [dAtA[i] = b; i++] *)
Definition put_byte {E} (b : Z) : writer E := fun dAtA i =>
  dAtA ← store dAtA i (byte_of_Z b);
  Ok (i + 1, dAtA).

(** [i += copy(dAtA[i:], s)] *)
Definition put_copy {E} (s : list byte) : writer E := fun dAtA i =>
  '(n, dAtA) ← copy_at dAtA i s;
  Ok (i + n, dAtA).

(** [n, err := marshalTo(dAtA[i:]); if err != nil { return 0, err }; i += n]:
    the callee writes into the part of the array that [dAtA[i:]] shares. *)
Definition put_sub {E} (marshalTo : list byte -> res E (Z * list byte)) : writer E :=
  fun dAtA i =>
  sub ← slice_from dAtA i;
  '(n, sub) ← marshalTo sub;
  Ok (i + n, take (Z.to_nat i) dAtA ++ sub).

Definition put_nothing {E} : writer E := fun dAtA i => Ok (i, dAtA).

Definition put_seq {E} (w1 w2 : writer E) : writer E := fun dAtA i =>
  '(i, dAtA) ← w1 dAtA i;
  w2 dAtA i.

(** [if cond { w }] *)
Definition put_if {E} (cond : bool) (w : writer E) : writer E :=
  if cond then w else put_nothing.

(** [for _, x := range l { w(x) }] *)
Fixpoint put_range {E A} (w : A -> writer E) (l : list A) : writer E :=
  match l with
  | [] => put_nothing
  | x :: l => put_seq (w x) (put_range w l)
  end.

Declare Scope buf_scope.
Delimit Scope buf_scope with buf.
Notation "w1 >>> w2" := (put_seq w1 w2) (at level 60, right associativity) : buf_scope.

(** The array [buf] with the bytes [s] at index [i]. *)
Definition patch (buf : list byte) (i : Z) (s : list byte) : list byte :=
  take (Z.to_nat i) buf ++ s ++ drop (Z.to_nat i + length s) buf.

(** [w] writes exactly the bytes [s], wherever there is room for them. *)
Definition emits {E} (w : writer E) (s : list byte) : Prop :=
  forall buf i, 0 <= i -> i + slen s <= slen buf -> w buf i = Ok (i + slen s, patch buf i s).

(** The same for a function that writes from the start of its slice. *)
Definition marshals {E} (f : list byte -> res E (Z * list byte)) (s : list byte) : Prop :=
  forall buf, slen s <= slen buf -> f buf = Ok (slen s, s ++ drop (length s) buf).

Section patches.
Implicit Types buf s : list byte.

Lemma slen_patch buf i s :
  0 <= i -> i + slen s <= slen buf -> slen (patch buf i s) = slen buf.
Proof.
  unfold patch, slen. intros ??.
  rewrite !length_app, length_take, length_drop. lia.
Qed.

Lemma patch_nil buf i : patch buf i [] = buf.
Proof. unfold patch. simpl. rewrite Nat.add_0_r. apply take_drop. Qed.

Lemma patch_app buf i s1 s2 :
  0 <= i -> i + slen s1 + slen s2 <= slen buf ->
  patch (patch buf i s1) (i + slen s1) s2 = patch buf i (s1 ++ s2).
Proof.
  intros Hi Hle. unfold patch, slen in *.
  assert (length (take (Z.to_nat i) buf) = Z.to_nat i) as Ht
    by (rewrite length_take; lia).
  replace (Z.to_nat (i + Z.of_nat (length s1))) with (Z.to_nat i + length s1)%nat by lia.
  rewrite take_app_ge, drop_app_ge, Ht by (rewrite Ht; lia).
  replace (_ + length s1 - Z.to_nat i)%nat with (length s1) by lia.
  rewrite take_app_length, <- !app_assoc.
  f_equal. f_equal. f_equal.
  replace (Z.to_nat i + length s1 + length s2 - Z.to_nat i)%nat
    with (length s1 + length s2)%nat by lia.
  rewrite drop_app_ge, drop_drop by lia.
  f_equal. rewrite length_app. lia.
Qed.
End patches.

Section emits.
Context {E : Type}.
Implicit Types w : writer E.

Lemma emits_nothing : emits (put_nothing (E:=E)) [].
Proof. intros buf i ??. by rewrite patch_nil, slen_nil, Z.add_0_r. Qed.

Lemma emits_seq w1 w2 s1 s2 :
  emits w1 s1 -> emits w2 s2 -> emits (put_seq w1 w2) (s1 ++ s2).
Proof.
  intros H1 H2 buf i Hi Hle. rewrite slen_app in *. pose proof (slen_nonneg s2).
  unfold put_seq. rewrite H1 by lia. cbn. pose proof (slen_nonneg s1).
  rewrite H2 by (rewrite ?slen_patch; lia).
  rewrite patch_app by lia. do 2 f_equal. lia.
Qed.

(** Sequences may be regrouped (three writes in the first group). *)
Lemma emits_assoc3 w1 w2 w3 w4 s :
  emits (put_seq (put_seq w1 (put_seq w2 w3)) w4) s ->
  emits (put_seq w1 (put_seq w2 (put_seq w3 w4))) s.
Proof.
  intros Hw buf i Hi Hle. rewrite <- (Hw buf i Hi Hle).
  unfold put_seq. destruct (w1 buf i) as [[]| | |]; [|done..]. simpl.
  by destruct (w2 _ _) as [[]| | |].
Qed.

Lemma emits_byte b : emits (put_byte (E:=E) b) [byte_of_Z b].
Proof.
  intros buf i Hi Hle. unfold slen in *. cbn in *. unfold put_byte, store, slen.
  zcases; try lia. cbn. unfold patch.
  by rewrite insert_take_drop, Nat.add_1_r by lia.
Qed.

Lemma emits_copy s : emits (put_copy (E:=E) s) s.
Proof.
  intros buf i Hi Hle. pose proof (slen_nonneg s).
  unfold put_copy, copy_at, slice_from, slice. zcases; try lia. cbn.
  unfold slen in *. rewrite (take_ge (drop _ _)) by (rewrite length_drop; lia).
  rewrite length_drop. rewrite Nat.min_r by lia.
  by rewrite (take_ge s) by lia.
Qed.

Lemma emits_sub f s : marshals f s -> emits (put_sub (E:=E) f) s.
Proof.
  intros Hf buf i Hi Hle. pose proof (slen_nonneg s).
  unfold put_sub, slice_from, slice. zcases; try lia. cbn.
  assert (take (Z.to_nat (slen buf - i)) (drop (Z.to_nat i) buf) = drop (Z.to_nat i) buf) as ->
    by (apply take_ge; unfold slen in *; rewrite length_drop; lia).
  rewrite Hf by (unfold slen in *; rewrite length_drop; lia).
  cbn. unfold patch. by rewrite drop_drop.
Qed.

Lemma emits_if (c : bool) w s :
  (c = true -> emits w s) -> emits (put_if c w) (if c then s else []).
Proof. destruct c; intros H; [by apply H | apply emits_nothing]. Qed.

Lemma emits_range {A} (w : A -> writer E) (enc : A -> list byte) (l : list A) :
  (forall x, x ∈ l -> emits (w x) (enc x)) -> emits (put_range w l) (l ≫= enc).
Proof.
  induction l as [|x l IH]; intros Hl; [apply emits_nothing|].
  apply emits_seq; [apply Hl; left | apply IH; intros y Hy; apply Hl; by right].
Qed.

(** A writer run from index 0 marshals what it emits. *)
Lemma emits_marshals w s : emits w s -> marshals (fun dAtA => w dAtA 0) s.
Proof.
  intros Hw buf Hle. rewrite Hw by lia. rewrite Z.add_0_l. do 2 f_equal.
Qed.
End emits.

Create HintDb emits.
#[export] Hint Resolve emits_nothing emits_byte emits_copy emits_sub emits_seq emits_if
  emits_range emits_marshals : emits.
