(* ===== verification/Wire.v ===== *)
(** * Base-128 varints of the device plugin API

    [encodeVarintApi], [sovApi] and [sozApi] of api.pb.go, and the loop by which every
    [Unmarshal] of that file reads a varint.  The generator repeats that loop
    in line, with an accumulator of type [uint64] (tags and string lengths) or
    [int] (message lengths and booleans); it is one function here,
    parametrised by the conversion to the accumulator's type.  [encodeFixed64Api]
    and [encodeFixed32Api] write little-endian words. *)

From stdpp Require Import base list strings.
From Stdlib Require Import ZArith Strings.Byte Lia.
From S2P Require Import Prelude Buf.
Open Scope Z_scope.

(** The errors of [Unmarshal].  The three errors made with [fmt.Errorf] carry
    their arguments. *)
Inductive api_error : Type :=
| ErrInvalidLengthApi
| ErrIntOverflowApi
| ErrUnexpectedEOF
| ErrEndGroup (msg : string)
| ErrIllegalTag (msg : string) (fieldNum wire : Z)
| ErrWrongWireType (wireType : Z) (field : string)
| ErrIllegalWireType (wireType : Z).

#[export] Instance api_error_eq_dec : EqDecision api_error.
Proof. solve_decision. Defined.

(** ** Encoding *)

Fixpoint encodeVarint_loop {E} (fuel : nat) (dAtA : list byte) (offset v : Z)
  : res E (Z * list byte) :=
  match fuel with
  | O => Diverge
  | S fuel =>
      if 2 ^ 7 <=? v then
        dAtA ← store dAtA offset (byte_of_Z (Z.lor (Z.land v 127) 128));
        encodeVarint_loop fuel dAtA (offset + 1) (Z.shiftr v 7)
      else
        dAtA ← store dAtA offset (byte_of_Z v);
        Ok (offset + 1, dAtA)
  end.

(** A [uint64] takes at most ten rounds ([emits_varint]). *)
Definition varint_fuel : nat := 10.

Definition encodeVarintApi {E} (dAtA : list byte) (offset v : Z) : res E (Z * list byte) :=
  encodeVarint_loop varint_fuel dAtA offset (uint64 v).

(** [for { n++; x >>= 7; if x == 0 { break } }] *)
Fixpoint sov_loop (fuel : nat) (n x : Z) : Z :=
  match fuel with
  | O => n
  | S fuel =>
      let n := n + 1 in
      let x := Z.shiftr x 7 in
      if x =? 0 then n else sov_loop fuel n x
  end.

(** The fuel is never used up: see [sov_loop_fuel]. *)
Definition sovApi (x : Z) : Z := sov_loop varint_fuel 0 (uint64 x).

Definition sozApi (x : Z) : Z :=
  sovApi (Z.lxor (uint64 (Z.shiftl x 1)) (uint64 (Z.shiftr (int64 x) 63))).

Definition encodeFixed64Api {E} (dAtA : list byte) (offset v : Z) : res E (Z * list byte) :=
  dAtA ← store dAtA offset (byte_of_Z v);
  dAtA ← store dAtA (offset + 1) (byte_of_Z (Z.shiftr v 8));
  dAtA ← store dAtA (offset + 2) (byte_of_Z (Z.shiftr v 16));
  dAtA ← store dAtA (offset + 3) (byte_of_Z (Z.shiftr v 24));
  dAtA ← store dAtA (offset + 4) (byte_of_Z (Z.shiftr v 32));
  dAtA ← store dAtA (offset + 5) (byte_of_Z (Z.shiftr v 40));
  dAtA ← store dAtA (offset + 6) (byte_of_Z (Z.shiftr v 48));
  dAtA ← store dAtA (offset + 7) (byte_of_Z (Z.shiftr v 56));
  Ok (offset + 8, dAtA).

Definition encodeFixed32Api {E} (dAtA : list byte) (offset v : Z) : res E (Z * list byte) :=
  dAtA ← store dAtA offset (byte_of_Z v);
  dAtA ← store dAtA (offset + 1) (byte_of_Z (Z.shiftr v 8));
  dAtA ← store dAtA (offset + 2) (byte_of_Z (Z.shiftr v 16));
  dAtA ← store dAtA (offset + 3) (byte_of_Z (Z.shiftr v 24));
  Ok (offset + 4, dAtA).

(** ** Decoding *)

(** One byte: [if iNdEx >= l { return io.ErrUnexpectedEOF }; b := dAtA[iNdEx]; iNdEx++]. *)
Definition read_byte (dAtA : list byte) (iNdEx : Z) : res api_error (Z * Z) :=
  if slen dAtA <=? iNdEx then Err ErrUnexpectedEOF else
  b ← index dAtA iNdEx;
  Ok (Z_of_byte b, iNdEx + 1).

(** [for shift := uint(0); ; shift += 7 { ... acc |= (T(b) & 0x7F) << shift; ... }],
    where [conv] wraps to the type [T] of the accumulator. *)
Fixpoint varint_loop (conv : Z -> Z) (fuel : nat) (dAtA : list byte) (shift acc iNdEx : Z)
  : res api_error (Z * Z) :=
  match fuel with
  | O => Diverge
  | S fuel =>
      if 64 <=? shift then Err ErrIntOverflowApi else
      '(b, iNdEx) ← read_byte dAtA iNdEx;
      let acc := Z.lor acc (conv (Z.shiftl (Z.land b 127) shift)) in
      if b <? 128 then Ok (acc, iNdEx)
      else varint_loop conv fuel dAtA (shift + 7) acc iNdEx
  end.

(** The shift passes 64 in the eleventh round. *)
Definition read_fuel : nat := 11.

Definition read_uint64 (dAtA : list byte) (iNdEx : Z) : res api_error (Z * Z) :=
  varint_loop uint64 read_fuel dAtA 0 0 iNdEx.

Definition read_int (dAtA : list byte) (iNdEx : Z) : res api_error (Z * Z) :=
  varint_loop int64 read_fuel dAtA 0 0 iNdEx.

#[global] Arguments varint_fuel : simpl never.
#[global] Arguments read_fuel : simpl never.
#[global] Arguments read_uint64 : simpl never.
#[global] Arguments read_int : simpl never.

(** ** The encoding as a function *)

Fixpoint uvarint_bytes (fuel : nat) (v : Z) : list byte :=
  match fuel with
  | O => []
  | S fuel =>
      if v <? 128 then [byte_of_Z v]
      else byte_of_Z (v mod 128 + 128) :: uvarint_bytes fuel (v / 128)
  end.

Definition uvarint (v : Z) : list byte := uvarint_bytes varint_fuel v.

(** ** Lemmas *)

Lemma varint_bound_step fuel v :
  128 <= v < 2 ^ (7 * Z.of_nat (S fuel)) -> v / 128 < 2 ^ (7 * Z.of_nat fuel).
Proof.
  intros [? Hv]. apply Z.div_lt_upper_bound; [lia|].
  change 128 with (2 ^ 7). rewrite <- Z.pow_add_r by lia.
  replace (7 + 7 * Z.of_nat fuel) with (7 * Z.of_nat (S fuel)) by lia. done.
Qed.

Lemma continuation_byte v : Z.lor (Z.land v 127) 128 = v mod 128 + 128.
Proof.
  rewrite land_127. change 128 with (Z.shiftl 1 7) at 2.
  rewrite lor_shiftl_add; [lia|lia|]. apply Z.mod_pos_bound. lia.
Qed.

Lemma uvarint_bytes_ne_nil fuel v : uvarint_bytes (S fuel) v <> [].
Proof. simpl. by case_match. Qed.

Lemma slen_uvarint_range v : 1 <= slen (uvarint v) <= 10.
Proof.
  unfold uvarint, varint_fuel.
  assert (forall fuel v, slen (uvarint_bytes fuel v) <= Z.of_nat fuel) as Hle.
  { induction fuel as [|fuel IH]; intros w; simpl; [rewrite slen_nil; lia|].
    case_match; rewrite slen_cons; [rewrite slen_nil; lia|]. specialize (IH (w / 128)). lia. }
  split; [|apply Hle]. simpl. case_match; rewrite slen_cons;
    match goal with |- context [slen ?s] => pose proof (slen_nonneg s) end; lia.
Qed.

Section encode.
Context {E : Type}.

Lemma emits_varint_loop fuel v :
  0 <= v < 2 ^ (7 * Z.of_nat fuel) -> (0 < fuel)%nat ->
  emits (fun dAtA i => encodeVarint_loop (E:=E) fuel dAtA i v) (uvarint_bytes fuel v).
Proof.
  revert v. induction fuel as [|fuel IH]; intros v Hv Hf; [lia|].
  simpl encodeVarint_loop. simpl uvarint_bytes. change (2 ^ 7) with 128.
  rewrite Z.ltb_antisym. destruct (Z.leb_spec 128 v) as [Hge|Hlt]; cbn.
  - pose proof (varint_bound_step fuel v ltac:(lia)).
    assert (0 < fuel)%nat by (destruct fuel; [simpl in *; lia|lia]).
    assert (0 <= v / 128) by (apply Z.div_pos; lia).
    pose proof (emits_seq _ _ _ _ (emits_byte (E:=E) (v mod 128 + 128))
      (IH (v / 128) ltac:(lia) ltac:(lia))) as Hs.
    intros buf i Hi Hle. specialize (Hs buf i Hi Hle).
    unfold put_seq, put_byte in Hs. rewrite continuation_byte, shiftr_7.
    destruct (store _ _ _); exact Hs.
  - apply (emits_byte v).
Qed.

Lemma emits_varint v :
  0 <= v < 2 ^ 64 -> emits (fun dAtA i => encodeVarintApi (E:=E) dAtA i v) (uvarint v).
Proof.
  intros Hv. unfold encodeVarintApi, uvarint. rewrite uint64_small by done.
  apply emits_varint_loop; unfold varint_fuel; [|lia].
  split; [lia|]. apply Z.lt_trans with (2 ^ 64); [lia|]. reflexivity.
Qed.

End encode.
#[export] Hint Resolve emits_varint : emits.

(** Fuel that covers the bits of the argument is enough. *)
Lemma sov_loop_fuel fuel fuel' n v :
  0 <= v < 2 ^ (7 * Z.of_nat fuel) -> (0 < fuel <= fuel')%nat ->
  sov_loop fuel' n v = sov_loop fuel n v.
Proof.
  revert fuel' n v. induction fuel as [|fuel IH]; intros fuel' n v Hv Hf; [lia|].
  destruct fuel' as [|fuel']; [lia|]. simpl. rewrite shiftr_7.
  destruct (Z.eqb_spec (v / 128) 0) as [|Hne]; [done|].
  assert (128 <= v) by (destruct (Z.lt_ge_cases v 128); [|lia]; rewrite Z.div_small in Hne; lia).
  pose proof (varint_bound_step fuel v ltac:(lia)).
  assert (0 <= v / 128) by (apply Z.div_pos; lia).
  destruct fuel; [simpl in *; lia|]. apply IH; lia.
Qed.

Lemma sov_loop_correct fuel n v :
  0 <= v < 2 ^ (7 * Z.of_nat fuel) -> (0 < fuel)%nat ->
  sov_loop fuel n v = n + slen (uvarint_bytes fuel v).
Proof.
  revert n v. induction fuel as [|fuel IH]; intros n v Hv Hf; [lia|].
  simpl sov_loop. simpl uvarint_bytes. rewrite shiftr_7.
  destruct (Z.ltb_spec v 128) as [Hlt|Hge].
  - rewrite Z.div_small by lia. done.
  - pose proof (varint_bound_step fuel v ltac:(lia)).
    assert (0 < v / 128) by (apply Z.div_str_pos; lia).
    assert (0 < fuel)%nat by (destruct fuel; [simpl in *; lia|lia]).
    destruct (Z.eqb_spec (v / 128) 0); [lia|].
    rewrite IH by lia. rewrite slen_cons. lia.
Qed.

Lemma sovApi_correct v : 0 <= v < 2 ^ 64 -> sovApi v = slen (uvarint v).
Proof.
  intros Hv. unfold sovApi. rewrite uint64_small by done.
  rewrite sov_loop_correct; [done| |unfold varint_fuel; lia].
  split; [lia|]. apply Z.lt_trans with (2 ^ 64); [lia|]. reflexivity.
Qed.

Section decode.
Implicit Types pre post dAtA : list byte.

Lemma read_byte_app pre b post :
  read_byte (pre ++ b :: post) (slen pre) = Ok (Z_of_byte b, slen pre + 1).
Proof.
  unfold read_byte. rewrite slen_app, slen_cons. pose proof (slen_nonneg post).
  zcases; [lia|]. by rewrite index_app.
Qed.

Lemma read_byte_eof dAtA i : slen dAtA <= i -> read_byte dAtA i = Err ErrUnexpectedEOF.
Proof. intros. unfold read_byte. zcases; [done|lia]. Qed.

(** The loop inverts the encoder, for an accumulator type in which no bits
    of the value are lost. *)
Lemma varint_loop_correct conv bound fd fe shift acc v pre post :
  (forall x, 0 <= x < bound -> conv x = x) -> bound <= 2 ^ 64 ->
  0 <= shift < 64 -> 0 <= acc < 2 ^ shift -> 0 <= v -> v * 2 ^ shift < bound ->
  v < 2 ^ (7 * Z.of_nat fe) -> (0 < fe <= fd)%nat ->
  varint_loop conv fd (pre ++ uvarint_bytes fe v ++ post) shift acc (slen pre) =
    Ok (acc + v * 2 ^ shift, slen pre + slen (uvarint_bytes fe v)).
Proof.
  intros Hconv Hb. revert fd shift acc v pre. induction fe as [|fe IH];
    intros fd shift acc v pre Hs Hacc Hv0 Hv Hfe Hfd; [lia|].
  destruct fd as [|fd]; [lia|].
  assert (0 < 2 ^ shift) by (apply Z.pow_pos_nonneg; lia).
  simpl uvarint_bytes. simpl varint_loop.
  destruct (Z.leb_spec 64 shift); [lia|].
  destruct (Z.ltb_spec v 128) as [Hlt|Hge]; simpl app; rewrite read_byte_app; cbn.
  - rewrite Z_of_byte_of_Z, uint8_small by lia.
    destruct (Z.ltb_spec v 128); [|lia].
    rewrite land_127, Z.mod_small by lia.
    rewrite Hconv by (rewrite Z.shiftl_mul_pow2; nia).
    by rewrite lor_shiftl_add by lia.
  - pose proof (Z.mod_pos_bound v 128 ltac:(lia)).
    rewrite Z_of_byte_of_Z, uint8_small by lia.
    destruct (Z.ltb_spec (v mod 128 + 128) 128); [lia|].
    rewrite land_127. replace ((v mod 128 + 128) mod 128) with (v mod 128)
      by (apply (Z.mod_unique _ _ 1); lia).
    pose proof (Z.mod_le v 128 ltac:(lia) ltac:(lia)).
    rewrite Hconv by (rewrite Z.shiftl_mul_pow2 by lia; nia).
    rewrite lor_shiftl_add by lia.
    pose proof (varint_bound_step fe v ltac:(lia)).
    assert (0 < fe)%nat by (destruct fe; [simpl in *; lia|lia]).
    assert (0 <= v / 128) by (apply Z.div_pos; lia).
    assert (v = 128 * (v / 128) + v mod 128) as Hdiv by (apply Z.div_mod; lia).
    assert (2 ^ (shift + 7) = 128 * 2 ^ shift) as Hpow
      by (rewrite Z.pow_add_r by lia; change (2 ^ 7) with 128; lia).
    assert (shift + 7 < 64).
    { apply (Z.pow_lt_mono_r_iff 2); [lia|lia|]. rewrite Hpow. nia. }
    replace (slen pre + 1) with (slen (pre ++ [byte_of_Z (v mod 128 + 128)]))
      by (rewrite slen_app; done).
    rewrite cons_middle, (app_assoc pre).
    rewrite IH; [|lia|rewrite Hpow; nia|lia|rewrite Hpow; nia|lia|lia].
    rewrite slen_app, slen_cons, slen_cons, slen_nil. do 2 f_equal; [rewrite Hpow; nia|lia].
Qed.

Lemma read_uint64_correct v pre post :
  0 <= v < 2 ^ 64 ->
  read_uint64 (pre ++ uvarint v ++ post) (slen pre) = Ok (v, slen pre + slen (uvarint v)).
Proof.
  intros Hv. unfold read_uint64, uvarint, read_fuel, varint_fuel.
  rewrite (varint_loop_correct _ (2 ^ 64)) by (try apply uint64_small; lia).
  by rewrite Z.pow_0_r, Z.mul_1_r.
Qed.

Lemma read_int_correct v pre post :
  0 <= v < 2 ^ 63 ->
  read_int (pre ++ uvarint v ++ post) (slen pre) = Ok (v, slen pre + slen (uvarint v)).
Proof.
  intros Hv. unfold read_int, uvarint, read_fuel, varint_fuel.
  rewrite (varint_loop_correct _ (2 ^ 63)) by (try (intros; apply int64_small); lia).
  by rewrite Z.pow_0_r, Z.mul_1_r.
Qed.

(** What a read that succeeds says of the index: it was inside the slice and
    moved forward, to at most the end. *)
Lemma varint_loop_progress conv fuel dAtA shift acc i r j :
  varint_loop conv fuel dAtA shift acc i = Ok (r, j) -> 0 <= i < j /\ j <= slen dAtA.
Proof.
  revert shift acc i. induction fuel as [|fuel IH]; intros shift acc i; [done|].
  simpl. case_match; [done|]. unfold read_byte, index.
  destruct (Z.leb_spec (slen dAtA) i); [done|]. destruct (Z.ltb_spec i 0); [done|].
  destruct (dAtA !! Z.to_nat i) as [b|]; [|done]. cbn.
  destruct (Z_of_byte b <? 128); intros Hr; inv_res; [lia|].
  apply IH in Hr. lia.
Qed.

(** The loop ends within its fuel, and inside the slice it never panics. *)
Lemma varint_loop_total conv fuel dAtA shift acc i :
  64 <= shift + 7 * (Z.of_nat fuel - 1) -> (0 < fuel)%nat ->
  varint_loop conv fuel dAtA shift acc i <> Diverge /\
  (0 <= i -> varint_loop conv fuel dAtA shift acc i <> Panic).
Proof.
  revert shift acc i. induction fuel as [|fuel IH]; intros shift acc i Hf H0; [lia|].
  simpl. destruct (Z.leb_spec 64 shift); [done|]. unfold read_byte, index.
  destruct (Z.leb_spec (slen dAtA) i) as [|Hi]; [done|].
  destruct (Z.ltb_spec i 0); [split; [done|lia]|].
  destruct (lookup_lt_is_Some_2 dAtA (Z.to_nat i)) as [b Hb]; [unfold slen in *; lia|].
  rewrite Hb. cbn. destruct (Z_of_byte b <? 128); [done|].
  edestruct IH as [? Hp]; [..|split; [done|intros _; apply Hp; lia]]; lia.
Qed.
End decode.
