(* ===== verification/Api.v ===== *)
(** * Messages of the device plugin API (v1beta1)

    The message types of api.pb.go with their [Reset] value and their getters,
    and the constants of constants.go.  A [string] is a sequence of bytes, a
    [[]string] or [[]*Message] a list (no message of the service holds a nil
    element, and [Unmarshal] makes none), a [map[string]string] a finite map: the
    code reads and ranges over maps and allocates them before it writes, so the
    nil map and the empty map behave alike.  A receiver that may be nil is an
    [option]. *)

From stdpp Require Import base list strings gmap.
From Stdlib Require Import ZArith.
From S2P Require Import Prelude.
Open Scope Z_scope.

(** ** Constants *)

Definition Healthy : string := "Healthy".
Definition Unhealthy : string := "Unhealthy".
Definition Version : string := "v1beta1".
Definition DevicePluginPath : string := "/var/lib/kubelet/device-plugins/".
Definition KubeletSocket : string := DevicePluginPath +:+ "kubelet.sock".
Definition KubeletPreStartContainerRPCTimeoutInSecs : Z := 30.
Definition SupportedVersions : list string := ["v1beta1"].

(** ** Messages *)

Record DevicePluginOptions : Type := mkDevicePluginOptions {
  DevicePluginOptions_PreStartRequired : bool;
}.

Record RegisterRequest : Type := mkRegisterRequest {
  RegisterRequest_Version : string;
  RegisterRequest_Endpoint : string;
  RegisterRequest_ResourceName : string;
  RegisterRequest_Options : option DevicePluginOptions;
}.

Record Empty : Type := mkEmpty {}.

Record Device : Type := mkDevice {
  Device_ID : string;
  Device_Health : string;
}.

Record ListAndWatchResponse : Type := mkListAndWatchResponse {
  ListAndWatchResponse_Devices : list Device;
}.

Record PreStartContainerRequest : Type := mkPreStartContainerRequest {
  PreStartContainerRequest_DevicesIDs : list string;
}.

Record PreStartContainerResponse : Type := mkPreStartContainerResponse {}.

Record ContainerAllocateRequest : Type := mkContainerAllocateRequest {
  ContainerAllocateRequest_DevicesIDs : list string;
}.

Record AllocateRequest : Type := mkAllocateRequest {
  AllocateRequest_ContainerRequests : list ContainerAllocateRequest;
}.

Record Mount : Type := mkMount {
  Mount_ContainerPath : string;
  Mount_HostPath : string;
  Mount_ReadOnly : bool;
}.

Record DeviceSpec : Type := mkDeviceSpec {
  DeviceSpec_ContainerPath : string;
  DeviceSpec_HostPath : string;
  DeviceSpec_Permissions : string;
}.

Record ContainerAllocateResponse : Type := mkContainerAllocateResponse {
  ContainerAllocateResponse_Envs : gmap string string;
  ContainerAllocateResponse_Mounts : list Mount;
  ContainerAllocateResponse_Devices : list DeviceSpec;
  ContainerAllocateResponse_Annotations : gmap string string;
}.

Record AllocateResponse : Type := mkAllocateResponse {
  AllocateResponse_ContainerResponses : list ContainerAllocateResponse;
}.

(** [Reset] sets a message to its zero value. *)

Definition DevicePluginOptions_Reset : DevicePluginOptions := mkDevicePluginOptions false.
Definition RegisterRequest_Reset : RegisterRequest := mkRegisterRequest "" "" "" None.
Definition Empty_Reset : Empty := mkEmpty.
Definition Device_Reset : Device := mkDevice "" "".
Definition ListAndWatchResponse_Reset : ListAndWatchResponse := mkListAndWatchResponse [].
Definition PreStartContainerRequest_Reset : PreStartContainerRequest := mkPreStartContainerRequest [].
Definition PreStartContainerResponse_Reset : PreStartContainerResponse := mkPreStartContainerResponse.
Definition ContainerAllocateRequest_Reset : ContainerAllocateRequest := mkContainerAllocateRequest [].
Definition AllocateRequest_Reset : AllocateRequest := mkAllocateRequest [].
Definition Mount_Reset : Mount := mkMount "" "" false.
Definition DeviceSpec_Reset : DeviceSpec := mkDeviceSpec "" "" "".
Definition ContainerAllocateResponse_Reset : ContainerAllocateResponse := mkContainerAllocateResponse ∅ [] [] ∅.
Definition AllocateResponse_Reset : AllocateResponse := mkAllocateResponse [].

(** ** Getters: the field, or the zero value for a nil message *)

Definition DevicePluginOptions_GetPreStartRequired (m : option DevicePluginOptions) : bool :=
  match m with Some m => DevicePluginOptions_PreStartRequired m | None => false end.
Definition RegisterRequest_GetVersion (m : option RegisterRequest) : string :=
  match m with Some m => RegisterRequest_Version m | None => "" end.
Definition RegisterRequest_GetEndpoint (m : option RegisterRequest) : string :=
  match m with Some m => RegisterRequest_Endpoint m | None => "" end.
Definition RegisterRequest_GetResourceName (m : option RegisterRequest) : string :=
  match m with Some m => RegisterRequest_ResourceName m | None => "" end.
Definition RegisterRequest_GetOptions (m : option RegisterRequest) : option DevicePluginOptions :=
  match m with Some m => RegisterRequest_Options m | None => None end.
Definition Device_GetID (m : option Device) : string :=
  match m with Some m => Device_ID m | None => "" end.
Definition Device_GetHealth (m : option Device) : string :=
  match m with Some m => Device_Health m | None => "" end.
Definition ListAndWatchResponse_GetDevices (m : option ListAndWatchResponse) : list Device :=
  match m with Some m => ListAndWatchResponse_Devices m | None => [] end.
Definition PreStartContainerRequest_GetDevicesIDs (m : option PreStartContainerRequest) : list string :=
  match m with Some m => PreStartContainerRequest_DevicesIDs m | None => [] end.
Definition ContainerAllocateRequest_GetDevicesIDs (m : option ContainerAllocateRequest) : list string :=
  match m with Some m => ContainerAllocateRequest_DevicesIDs m | None => [] end.
Definition AllocateRequest_GetContainerRequests (m : option AllocateRequest) : list ContainerAllocateRequest :=
  match m with Some m => AllocateRequest_ContainerRequests m | None => [] end.
Definition Mount_GetContainerPath (m : option Mount) : string :=
  match m with Some m => Mount_ContainerPath m | None => "" end.
Definition Mount_GetHostPath (m : option Mount) : string :=
  match m with Some m => Mount_HostPath m | None => "" end.
Definition Mount_GetReadOnly (m : option Mount) : bool :=
  match m with Some m => Mount_ReadOnly m | None => false end.
Definition DeviceSpec_GetContainerPath (m : option DeviceSpec) : string :=
  match m with Some m => DeviceSpec_ContainerPath m | None => "" end.
Definition DeviceSpec_GetHostPath (m : option DeviceSpec) : string :=
  match m with Some m => DeviceSpec_HostPath m | None => "" end.
Definition DeviceSpec_GetPermissions (m : option DeviceSpec) : string :=
  match m with Some m => DeviceSpec_Permissions m | None => "" end.
Definition ContainerAllocateResponse_GetEnvs (m : option ContainerAllocateResponse) : gmap string string :=
  match m with Some m => ContainerAllocateResponse_Envs m | None => ∅ end.
Definition ContainerAllocateResponse_GetMounts (m : option ContainerAllocateResponse) : list Mount :=
  match m with Some m => ContainerAllocateResponse_Mounts m | None => [] end.
Definition ContainerAllocateResponse_GetDevices (m : option ContainerAllocateResponse) : list DeviceSpec :=
  match m with Some m => ContainerAllocateResponse_Devices m | None => [] end.
Definition ContainerAllocateResponse_GetAnnotations (m : option ContainerAllocateResponse) : gmap string string :=
  match m with Some m => ContainerAllocateResponse_Annotations m | None => ∅ end.
Definition AllocateResponse_GetContainerResponses (m : option AllocateResponse) : list ContainerAllocateResponse :=
  match m with Some m => AllocateResponse_ContainerResponses m | None => [] end.

(** ** Setters, for the fields that [Unmarshal] assigns *)

Definition DevicePluginOptions_set_PreStartRequired (v : bool) (m : DevicePluginOptions) : DevicePluginOptions :=
  mkDevicePluginOptions v.
Definition RegisterRequest_set_Version (v : string) (m : RegisterRequest) : RegisterRequest :=
  mkRegisterRequest v (RegisterRequest_Endpoint m) (RegisterRequest_ResourceName m) (RegisterRequest_Options m).
Definition RegisterRequest_set_Endpoint (v : string) (m : RegisterRequest) : RegisterRequest :=
  mkRegisterRequest (RegisterRequest_Version m) v (RegisterRequest_ResourceName m) (RegisterRequest_Options m).
Definition RegisterRequest_set_ResourceName (v : string) (m : RegisterRequest) : RegisterRequest :=
  mkRegisterRequest (RegisterRequest_Version m) (RegisterRequest_Endpoint m) v (RegisterRequest_Options m).
Definition RegisterRequest_set_Options (v : option DevicePluginOptions) (m : RegisterRequest) : RegisterRequest :=
  mkRegisterRequest (RegisterRequest_Version m) (RegisterRequest_Endpoint m) (RegisterRequest_ResourceName m) v.
Definition Device_set_ID (v : string) (m : Device) : Device :=
  mkDevice v (Device_Health m).
Definition Device_set_Health (v : string) (m : Device) : Device :=
  mkDevice (Device_ID m) v.
Definition ListAndWatchResponse_set_Devices (v : list Device) (m : ListAndWatchResponse) : ListAndWatchResponse :=
  mkListAndWatchResponse v.
Definition PreStartContainerRequest_set_DevicesIDs (v : list string) (m : PreStartContainerRequest) : PreStartContainerRequest :=
  mkPreStartContainerRequest v.
Definition ContainerAllocateRequest_set_DevicesIDs (v : list string) (m : ContainerAllocateRequest) : ContainerAllocateRequest :=
  mkContainerAllocateRequest v.
Definition AllocateRequest_set_ContainerRequests (v : list ContainerAllocateRequest) (m : AllocateRequest) : AllocateRequest :=
  mkAllocateRequest v.
Definition Mount_set_ContainerPath (v : string) (m : Mount) : Mount :=
  mkMount v (Mount_HostPath m) (Mount_ReadOnly m).
Definition Mount_set_HostPath (v : string) (m : Mount) : Mount :=
  mkMount (Mount_ContainerPath m) v (Mount_ReadOnly m).
Definition Mount_set_ReadOnly (v : bool) (m : Mount) : Mount :=
  mkMount (Mount_ContainerPath m) (Mount_HostPath m) v.
Definition DeviceSpec_set_ContainerPath (v : string) (m : DeviceSpec) : DeviceSpec :=
  mkDeviceSpec v (DeviceSpec_HostPath m) (DeviceSpec_Permissions m).
Definition DeviceSpec_set_HostPath (v : string) (m : DeviceSpec) : DeviceSpec :=
  mkDeviceSpec (DeviceSpec_ContainerPath m) v (DeviceSpec_Permissions m).
Definition DeviceSpec_set_Permissions (v : string) (m : DeviceSpec) : DeviceSpec :=
  mkDeviceSpec (DeviceSpec_ContainerPath m) (DeviceSpec_HostPath m) v.
Definition ContainerAllocateResponse_set_Envs (v : gmap string string) (m : ContainerAllocateResponse) : ContainerAllocateResponse :=
  mkContainerAllocateResponse v (ContainerAllocateResponse_Mounts m) (ContainerAllocateResponse_Devices m) (ContainerAllocateResponse_Annotations m).
Definition ContainerAllocateResponse_set_Mounts (v : list Mount) (m : ContainerAllocateResponse) : ContainerAllocateResponse :=
  mkContainerAllocateResponse (ContainerAllocateResponse_Envs m) v (ContainerAllocateResponse_Devices m) (ContainerAllocateResponse_Annotations m).
Definition ContainerAllocateResponse_set_Devices (v : list DeviceSpec) (m : ContainerAllocateResponse) : ContainerAllocateResponse :=
  mkContainerAllocateResponse (ContainerAllocateResponse_Envs m) (ContainerAllocateResponse_Mounts m) v (ContainerAllocateResponse_Annotations m).
Definition ContainerAllocateResponse_set_Annotations (v : gmap string string) (m : ContainerAllocateResponse) : ContainerAllocateResponse :=
  mkContainerAllocateResponse (ContainerAllocateResponse_Envs m) (ContainerAllocateResponse_Mounts m) (ContainerAllocateResponse_Devices m) v.
Definition AllocateResponse_set_ContainerResponses (v : list ContainerAllocateResponse) (m : AllocateResponse) : AllocateResponse :=
  mkAllocateResponse v.

#[export] Instance DevicePluginOptions_eq_dec : EqDecision DevicePluginOptions.
Proof. solve_decision. Defined.
#[export] Instance RegisterRequest_eq_dec : EqDecision RegisterRequest.
Proof. solve_decision. Defined.
#[export] Instance Empty_eq_dec : EqDecision Empty.
Proof. solve_decision. Defined.
#[export] Instance Device_eq_dec : EqDecision Device.
Proof. solve_decision. Defined.
#[export] Instance ListAndWatchResponse_eq_dec : EqDecision ListAndWatchResponse.
Proof. solve_decision. Defined.
#[export] Instance PreStartContainerRequest_eq_dec : EqDecision PreStartContainerRequest.
Proof. solve_decision. Defined.
#[export] Instance PreStartContainerResponse_eq_dec : EqDecision PreStartContainerResponse.
Proof. solve_decision. Defined.
#[export] Instance ContainerAllocateRequest_eq_dec : EqDecision ContainerAllocateRequest.
Proof. solve_decision. Defined.
#[export] Instance AllocateRequest_eq_dec : EqDecision AllocateRequest.
Proof. solve_decision. Defined.
#[export] Instance Mount_eq_dec : EqDecision Mount.
Proof. solve_decision. Defined.
#[export] Instance DeviceSpec_eq_dec : EqDecision DeviceSpec.
Proof. solve_decision. Defined.
#[export] Instance ContainerAllocateResponse_eq_dec : EqDecision ContainerAllocateResponse.
Proof. solve_decision. Defined.
#[export] Instance AllocateResponse_eq_dec : EqDecision AllocateResponse.
Proof. solve_decision. Defined.
