(* ===== verification/ApiMarshal.v ===== *)
(** * Marshalling the messages of the device plugin API

    [Size], [MarshalTo] and [Marshal] of every message of api.pb.go, and the proof
    that they refine the wire format: [X_enc] is the protobuf encoding of a
    message as a function, [X_Size] is its length, and [X_MarshalTo] writes it at
    the start of any slice with room for it.

    Go ranges over a map in an unspecified order, chosen anew for each [range]
    statement that runs.  The functions that range over a map take the orders
    as arguments, and the theorems hold for all of them. *)

From stdpp Require Import base list strings gmap.
From Stdlib Require Import ZArith Strings.Byte Lia.
From S2P Require Import Prelude Buf Wire Api.
Open Scope Z_scope.
Open Scope buf_scope.

(** ** The order in which a [range] statement visits a map *)

Record map_order : Type := {
  order :> gmap string string -> list (string * string);
  order_perm : forall m, order m ≡ₚ map_to_list m;
}.

(** The orders of the two [range] statements of [ContainerAllocateResponse]'s
    methods. *)
Record entry_order : Type := {
  range_Envs : map_order;
  range_Annotations : map_order;
}.

(** ** The statements that the generator emits for a field *)

Definition put_varint {E} (v : Z) : writer E := fun dAtA i => encodeVarintApi dAtA i v.

(** [if len(s) > 0 { dAtA[i] = tag; i++; i = encodeVarintApi(dAtA, i, uint64(len(s)));
    i += copy(dAtA[i:], s) }] *)
Definition put_string {E} (tag : Z) (s : string) : writer E :=
  put_if (0 <? strlen s)
    (put_byte tag >>> put_varint (strlen s) >>> put_copy (bytes_of s)).

(** The loop body for a [[]string]: the varint loop is in line, on an [int]. *)
Definition put_element {E} (tag : Z) (s : string) : writer E :=
  put_byte tag >>> (fun dAtA i => encodeVarint_loop varint_fuel dAtA i (strlen s)) >>>
  put_copy (bytes_of s).

(** [if b { dAtA[i] = tag; i++; if b { dAtA[i] = 1 } else { dAtA[i] = 0 }; i++ }] *)
Definition put_bool {E} (tag : Z) (b : bool) : writer E :=
  put_if b (put_byte tag >>> put_byte (if b then 1 else 0)).

(** [dAtA[i] = tag; i++; i = encodeVarintApi(dAtA, i, uint64(msg.Size()));
    n, err := msg.MarshalTo(dAtA[i:]); ...; i += n] *)
Definition put_message {E} (tag size : Z) (marshalTo : list byte -> res E (Z * list byte))
  : writer E :=
  put_byte tag >>> put_varint size >>> put_sub marshalTo.

Definition map_size (k v : string) : Z :=
  1 + strlen k + sovApi (strlen k) + 1 + strlen v + sovApi (strlen v).

Definition put_map_entry {E} (tag : Z) (kv : string * string) : writer E :=
  let '(k, v) := kv in
  put_byte tag >>> put_varint (map_size k v) >>>
  put_byte 0xa >>> put_varint (strlen k) >>> put_copy (bytes_of k) >>>
  put_byte 0x12 >>> put_varint (strlen v) >>> put_copy (bytes_of v).

(** [l = len(s); if l > 0 { n += 1 + l + sovApi(uint64(l)) }] *)
Definition size_string (s : string) : Z :=
  let l := strlen s in if 0 <? l then 1 + l + sovApi l else 0.

(** [n += 1 + l + sovApi(uint64(l))] *)
Definition size_delimited (l : Z) : Z := 1 + l + sovApi l.

(** [for _, e := range l { n += f(e) }] *)
Definition size_range {A} (f : A -> Z) (l : list A) : Z := foldl (fun n e => n + f e) 0 l.

Definition size_map_entry (kv : string * string) : Z :=
  let '(k, v) := kv in
  let mapEntrySize := map_size k v in
  mapEntrySize + 1 + sovApi mapEntrySize.

(** [Marshal]: [size := m.Size(); dAtA = make([]byte, size);
    n, err := m.MarshalTo(dAtA); ...; return dAtA[:n], nil] *)
Definition marshal (size : Z) (marshalTo : list byte -> res api_error (Z * list byte))
  : res api_error (list byte) :=
  '(n, dAtA) ← marshalTo (replicate (Z.to_nat size) x00);
  slice dAtA 0 n.

(** The elements of a list with their indices. *)
Definition indexed {A} (l : list A) : list (nat * A) := imap pair l.

(** ** [Size], [MarshalTo] and [Marshal] of every message *)

Definition DevicePluginOptions_Size (m : DevicePluginOptions) : Z :=
    (if DevicePluginOptions_PreStartRequired m then 2 else 0).

Definition DevicePluginOptions_MarshalTo (m : DevicePluginOptions) (dAtA : list byte)
  : res api_error (Z * list byte) :=
    (put_bool 0x8 (DevicePluginOptions_PreStartRequired m)) dAtA 0.

Definition DevicePluginOptions_Marshal (m : DevicePluginOptions) : res api_error (list byte) :=
  marshal (DevicePluginOptions_Size m) (DevicePluginOptions_MarshalTo m).

Definition RegisterRequest_Size (m : RegisterRequest) : Z :=
    size_string (RegisterRequest_Version m) +
    (size_string (RegisterRequest_Endpoint m) +
    (size_string (RegisterRequest_ResourceName m) +
    match RegisterRequest_Options m with
    | Some x => size_delimited (DevicePluginOptions_Size x)
    | None => 0
    end)).

Definition RegisterRequest_MarshalTo (m : RegisterRequest) (dAtA : list byte)
  : res api_error (Z * list byte) :=
    (put_string 0xa (RegisterRequest_Version m) >>>
     put_string 0x12 (RegisterRequest_Endpoint m) >>>
     put_string 0x1a (RegisterRequest_ResourceName m) >>>
     match RegisterRequest_Options m with
     | Some x => put_message 0x22 (DevicePluginOptions_Size x) (DevicePluginOptions_MarshalTo x)
     | None => put_nothing
     end) dAtA 0.

Definition RegisterRequest_Marshal (m : RegisterRequest) : res api_error (list byte) :=
  marshal (RegisterRequest_Size m) (RegisterRequest_MarshalTo m).

Definition Empty_Size (m : Empty) : Z := 0.

Definition Empty_MarshalTo (m : Empty) (dAtA : list byte)
  : res api_error (Z * list byte) :=
    (put_nothing) dAtA 0.

Definition Empty_Marshal (m : Empty) : res api_error (list byte) :=
  marshal (Empty_Size m) (Empty_MarshalTo m).

Definition Device_Size (m : Device) : Z :=
    size_string (Device_ID m) +
    size_string (Device_Health m).

Definition Device_MarshalTo (m : Device) (dAtA : list byte)
  : res api_error (Z * list byte) :=
    (put_string 0xa (Device_ID m) >>>
     put_string 0x12 (Device_Health m)) dAtA 0.

Definition Device_Marshal (m : Device) : res api_error (list byte) :=
  marshal (Device_Size m) (Device_MarshalTo m).

Definition ListAndWatchResponse_Size (m : ListAndWatchResponse) : Z :=
    size_range (fun e => size_delimited (Device_Size e)) (ListAndWatchResponse_Devices m).

Definition ListAndWatchResponse_MarshalTo (m : ListAndWatchResponse) (dAtA : list byte)
  : res api_error (Z * list byte) :=
    (put_range (fun msg => put_message 0xa (Device_Size msg) (Device_MarshalTo msg))
      (ListAndWatchResponse_Devices m)) dAtA 0.

Definition ListAndWatchResponse_Marshal (m : ListAndWatchResponse) : res api_error (list byte) :=
  marshal (ListAndWatchResponse_Size m) (ListAndWatchResponse_MarshalTo m).

Definition PreStartContainerRequest_Size (m : PreStartContainerRequest) : Z :=
    size_range (fun s => size_delimited (strlen s)) (PreStartContainerRequest_DevicesIDs m).

Definition PreStartContainerRequest_MarshalTo (m : PreStartContainerRequest) (dAtA : list byte)
  : res api_error (Z * list byte) :=
    (put_range (put_element 0xa) (PreStartContainerRequest_DevicesIDs m)) dAtA 0.

Definition PreStartContainerRequest_Marshal (m : PreStartContainerRequest) : res api_error (list byte) :=
  marshal (PreStartContainerRequest_Size m) (PreStartContainerRequest_MarshalTo m).

Definition PreStartContainerResponse_Size (m : PreStartContainerResponse) : Z := 0.

Definition PreStartContainerResponse_MarshalTo (m : PreStartContainerResponse) (dAtA : list byte)
  : res api_error (Z * list byte) :=
    (put_nothing) dAtA 0.

Definition PreStartContainerResponse_Marshal (m : PreStartContainerResponse) : res api_error (list byte) :=
  marshal (PreStartContainerResponse_Size m) (PreStartContainerResponse_MarshalTo m).

Definition ContainerAllocateRequest_Size (m : ContainerAllocateRequest) : Z :=
    size_range (fun s => size_delimited (strlen s)) (ContainerAllocateRequest_DevicesIDs m).

Definition ContainerAllocateRequest_MarshalTo (m : ContainerAllocateRequest) (dAtA : list byte)
  : res api_error (Z * list byte) :=
    (put_range (put_element 0xa) (ContainerAllocateRequest_DevicesIDs m)) dAtA 0.

Definition ContainerAllocateRequest_Marshal (m : ContainerAllocateRequest) : res api_error (list byte) :=
  marshal (ContainerAllocateRequest_Size m) (ContainerAllocateRequest_MarshalTo m).

Definition AllocateRequest_Size (m : AllocateRequest) : Z :=
    size_range (fun e => size_delimited (ContainerAllocateRequest_Size e)) (AllocateRequest_ContainerRequests m).

Definition AllocateRequest_MarshalTo (m : AllocateRequest) (dAtA : list byte)
  : res api_error (Z * list byte) :=
    (put_range (fun msg => put_message 0xa (ContainerAllocateRequest_Size msg) (ContainerAllocateRequest_MarshalTo msg))
      (AllocateRequest_ContainerRequests m)) dAtA 0.

Definition AllocateRequest_Marshal (m : AllocateRequest) : res api_error (list byte) :=
  marshal (AllocateRequest_Size m) (AllocateRequest_MarshalTo m).

Definition Mount_Size (m : Mount) : Z :=
    size_string (Mount_ContainerPath m) +
    (size_string (Mount_HostPath m) +
    (if Mount_ReadOnly m then 2 else 0)).

Definition Mount_MarshalTo (m : Mount) (dAtA : list byte)
  : res api_error (Z * list byte) :=
    (put_string 0xa (Mount_ContainerPath m) >>>
     put_string 0x12 (Mount_HostPath m) >>>
     put_bool 0x18 (Mount_ReadOnly m)) dAtA 0.

Definition Mount_Marshal (m : Mount) : res api_error (list byte) :=
  marshal (Mount_Size m) (Mount_MarshalTo m).

Definition DeviceSpec_Size (m : DeviceSpec) : Z :=
    size_string (DeviceSpec_ContainerPath m) +
    (size_string (DeviceSpec_HostPath m) +
    size_string (DeviceSpec_Permissions m)).

Definition DeviceSpec_MarshalTo (m : DeviceSpec) (dAtA : list byte)
  : res api_error (Z * list byte) :=
    (put_string 0xa (DeviceSpec_ContainerPath m) >>>
     put_string 0x12 (DeviceSpec_HostPath m) >>>
     put_string 0x1a (DeviceSpec_Permissions m)) dAtA 0.

Definition DeviceSpec_Marshal (m : DeviceSpec) : res api_error (list byte) :=
  marshal (DeviceSpec_Size m) (DeviceSpec_MarshalTo m).

Definition ContainerAllocateResponse_Size (o : entry_order) (m : ContainerAllocateResponse) : Z :=
    size_range size_map_entry (range_Envs o (ContainerAllocateResponse_Envs m)) +
    (size_range (fun e => size_delimited (Mount_Size e)) (ContainerAllocateResponse_Mounts m) +
    (size_range (fun e => size_delimited (DeviceSpec_Size e)) (ContainerAllocateResponse_Devices m) +
    size_range size_map_entry (range_Annotations o (ContainerAllocateResponse_Annotations m)))).

Definition ContainerAllocateResponse_MarshalTo (o : entry_order) (m : ContainerAllocateResponse) (dAtA : list byte)
  : res api_error (Z * list byte) :=
    (put_range (put_map_entry 0xa) (range_Envs o (ContainerAllocateResponse_Envs m)) >>>
     put_range (fun msg => put_message 0x12 (Mount_Size msg) (Mount_MarshalTo msg))
      (ContainerAllocateResponse_Mounts m) >>>
     put_range (fun msg => put_message 0x1a (DeviceSpec_Size msg) (DeviceSpec_MarshalTo msg))
      (ContainerAllocateResponse_Devices m) >>>
     put_range (put_map_entry 0x22) (range_Annotations o (ContainerAllocateResponse_Annotations m))) dAtA 0.

Definition ContainerAllocateResponse_Marshal (os om : entry_order) (m : ContainerAllocateResponse)
  : res api_error (list byte) :=
  marshal (ContainerAllocateResponse_Size os m) (ContainerAllocateResponse_MarshalTo om m).

Definition AllocateResponse_Size (os : nat -> entry_order) (m : AllocateResponse) : Z :=
    size_range (fun '(k, e) => size_delimited (ContainerAllocateResponse_Size (os k) e))
      (indexed (AllocateResponse_ContainerResponses m)).

Definition AllocateResponse_MarshalTo (os om : nat -> entry_order) (m : AllocateResponse) (dAtA : list byte)
  : res api_error (Z * list byte) :=
    (put_range (fun '(k, msg) => put_message 0xa (ContainerAllocateResponse_Size (os k) msg) (ContainerAllocateResponse_MarshalTo (om k) msg))
      (indexed (AllocateResponse_ContainerResponses m))) dAtA 0.

Definition AllocateResponse_Marshal (os0 os om : nat -> entry_order) (m : AllocateResponse)
  : res api_error (list byte) :=
  marshal (AllocateResponse_Size os0 m) (AllocateResponse_MarshalTo os om m).

(** ** The wire format as functions *)

Definition delimited (tag : Z) (payload : list byte) : list byte :=
  byte_of_Z tag :: uvarint (slen payload) ++ payload.

Definition string_enc (tag : Z) (s : string) : list byte :=
  if 0 <? strlen s then delimited tag (bytes_of s) else [].

Definition bool_enc (tag : Z) (b : bool) : list byte :=
  if b then [byte_of_Z tag; byte_of_Z 1] else [].

Definition map_entry_enc (tag : Z) (kv : string * string) : list byte :=
  delimited tag (delimited 0xa (bytes_of kv.1) ++ delimited 0x12 (bytes_of kv.2)).

Definition DevicePluginOptions_enc (m : DevicePluginOptions) : list byte :=
  bool_enc 0x8 (DevicePluginOptions_PreStartRequired m).

Definition RegisterRequest_enc (m : RegisterRequest) : list byte :=
  string_enc 0xa (RegisterRequest_Version m) ++
  string_enc 0x12 (RegisterRequest_Endpoint m) ++
  string_enc 0x1a (RegisterRequest_ResourceName m) ++
  match RegisterRequest_Options m with
     | Some x => delimited 0x22 (DevicePluginOptions_enc x)
     | None => []
     end.

Definition Empty_enc (m : Empty) : list byte :=
  [].

Definition Device_enc (m : Device) : list byte :=
  string_enc 0xa (Device_ID m) ++
  string_enc 0x12 (Device_Health m).

Definition ListAndWatchResponse_enc (m : ListAndWatchResponse) : list byte :=
  (ListAndWatchResponse_Devices m ≫= fun x => delimited 0xa (Device_enc x)).

Definition PreStartContainerRequest_enc (m : PreStartContainerRequest) : list byte :=
  (PreStartContainerRequest_DevicesIDs m ≫= fun s => delimited 0xa (bytes_of s)).

Definition PreStartContainerResponse_enc (m : PreStartContainerResponse) : list byte :=
  [].

Definition ContainerAllocateRequest_enc (m : ContainerAllocateRequest) : list byte :=
  (ContainerAllocateRequest_DevicesIDs m ≫= fun s => delimited 0xa (bytes_of s)).

Definition AllocateRequest_enc (m : AllocateRequest) : list byte :=
  (AllocateRequest_ContainerRequests m ≫= fun x => delimited 0xa (ContainerAllocateRequest_enc x)).

Definition Mount_enc (m : Mount) : list byte :=
  string_enc 0xa (Mount_ContainerPath m) ++
  string_enc 0x12 (Mount_HostPath m) ++
  bool_enc 0x18 (Mount_ReadOnly m).

Definition DeviceSpec_enc (m : DeviceSpec) : list byte :=
  string_enc 0xa (DeviceSpec_ContainerPath m) ++
  string_enc 0x12 (DeviceSpec_HostPath m) ++
  string_enc 0x1a (DeviceSpec_Permissions m).

Definition ContainerAllocateResponse_enc (o : entry_order) (m : ContainerAllocateResponse) : list byte :=
  (range_Envs o (ContainerAllocateResponse_Envs m) ≫= map_entry_enc 0xa) ++
  (ContainerAllocateResponse_Mounts m ≫= fun x => delimited 0x12 (Mount_enc x)) ++
  (ContainerAllocateResponse_Devices m ≫= fun x => delimited 0x1a (DeviceSpec_enc x)) ++
  (range_Annotations o (ContainerAllocateResponse_Annotations m) ≫= map_entry_enc 0x22).

Definition AllocateResponse_enc (om : nat -> entry_order) (m : AllocateResponse) : list byte :=
  (indexed (AllocateResponse_ContainerResponses m) ≫= fun '(k, x) => delimited 0xa (ContainerAllocateResponse_enc (om k) x)).

(** ** A field, a message and their encodings

    [field_ok w sz e]: the writer [w] and the size [sz] agree with the encoding [e]
    of a field, as long as lengths fit an [int]; [message_ok] is the same for a
    [MarshalTo] and a [Size]. *)

Definition field_ok {E} (w : writer E) (sz : Z) (e : list byte) : Prop :=
  slen e < 2 ^ 63 -> emits w e /\ sz = slen e.

Definition message_ok {E} (marshalTo : list byte -> res E (Z * list byte)) (size : Z)
  (e : list byte) : Prop :=
  slen e < 2 ^ 63 -> marshals marshalTo e /\ size = slen e.

Lemma slen_delimited tag payload :
  slen (delimited tag payload) = 1 + slen (uvarint (slen payload)) + slen payload.
Proof. unfold delimited. rewrite slen_cons, slen_app. lia. Qed.

Lemma slen_delimited_gt tag payload : slen payload < slen (delimited tag payload).
Proof. rewrite slen_delimited. pose proof (slen_uvarint_range (slen payload)). lia. Qed.

Lemma size_delimited_ok tag payload :
  slen payload < 2 ^ 63 -> size_delimited (slen payload) = slen (delimited tag payload).
Proof.
  intros. rewrite slen_delimited. unfold size_delimited. pose proof (slen_nonneg payload).
  rewrite sovApi_correct by lia. lia.
Qed.

Lemma slen_bind_elem {A} (f : A -> list byte) l x :
  x ∈ l -> slen (f x) <= slen (l ≫= f).
Proof.
  intros (l1 & l2 & ->)%list_elem_of_split. rewrite bind_app, bind_cons.
  rewrite !slen_app. pose proof (slen_nonneg (l1 ≫= f)). pose proof (slen_nonneg (l2 ≫= f)). lia.
Qed.

Lemma size_range_acc {A} (f : A -> Z) l n : foldl (fun n e => n + f e) n l = n + size_range f l.
Proof.
  unfold size_range. revert n. induction l as [|x l IH]; intros n; [simpl; lia|].
  cbn [foldl]. rewrite IH, (IH (0 + f x)). lia.
Qed.

Lemma size_range_cons {A} (f : A -> Z) x l : size_range f (x :: l) = f x + size_range f l.
Proof. unfold size_range at 1. cbn [foldl]. rewrite size_range_acc. lia. Qed.

Lemma size_range_ok {A} (f : A -> Z) (enc : A -> list byte) l :
  (forall x, x ∈ l -> f x = slen (enc x)) -> size_range f l = slen (l ≫= enc).
Proof.
  induction l as [|x l IH]; intros Hl; [done|].
  rewrite bind_cons, slen_app, size_range_cons.
  rewrite IH by (intros; apply Hl; by right). rewrite Hl by left. lia.
Qed.

Lemma slen_bind_Permutation {A} (f : A -> list byte) l1 l2 :
  l1 ≡ₚ l2 -> slen (l1 ≫= f) = slen (l2 ≫= f).
Proof.
  induction 1; rewrite ?bind_cons, ?slen_app; lia.
Qed.

Section fields.
Context {E : Type}.
Implicit Types w : writer E.

Lemma emits_delimited tag payload w :
  slen payload < 2 ^ 63 -> emits w payload ->
  emits (put_byte tag >>> put_varint (slen payload) >>> w) (delimited tag payload).
Proof.
  intros Hlen Hw. unfold delimited. pose proof (slen_nonneg payload).
  apply (emits_seq _ _ [_]); [apply emits_byte|].
  apply emits_seq; [|done]. apply emits_varint. lia.
Qed.

Lemma field_nothing : field_ok (put_nothing (E:=E)) 0 [].
Proof. intros _. split; [apply emits_nothing|done]. Qed.

Lemma field_seq w1 w2 s1 s2 e1 e2 :
  field_ok w1 s1 e1 -> field_ok w2 s2 e2 -> field_ok (w1 >>> w2) (s1 + s2) (e1 ++ e2).
Proof.
  intros H1 H2 Hlen. rewrite slen_app in *.
  pose proof (slen_nonneg e1). pose proof (slen_nonneg e2).
  destruct H1 as [??]; [lia|]. destruct H2 as [??]; [lia|].
  split; [by apply emits_seq|lia].
Qed.

Lemma field_string tag s : field_ok (put_string (E:=E) tag s) (size_string s) (string_enc tag s).
Proof.
  unfold put_string, size_string, string_enc, put_if, strlen.
  destruct (0 <? slen (bytes_of s)); [|apply field_nothing].
  intros Hlen. pose proof (slen_delimited_gt tag (bytes_of s)). split.
  - apply emits_delimited; [lia|apply emits_copy].
  - rewrite <- (size_delimited_ok tag) by lia. done.
Qed.

Lemma field_bool tag b :
  field_ok (put_bool (E:=E) tag b) (if b then 2 else 0) (bool_enc tag b).
Proof.
  unfold put_bool, bool_enc, put_if. destruct b; [|apply field_nothing].
  intros _. split; [|done]. apply (emits_seq _ _ [_] [_]); apply emits_byte.
Qed.

Lemma field_range {A} (w : A -> writer E) (f : A -> Z) (enc : A -> list byte) l :
  (forall x, field_ok (w x) (f x) (enc x)) ->
  field_ok (put_range w l) (size_range f l) (l ≫= enc).
Proof.
  intros Hx Hlen. split.
  - apply emits_range. intros x Hin. apply Hx. pose proof (slen_bind_elem enc l x Hin). lia.
  - apply size_range_ok. intros x Hin. apply Hx. pose proof (slen_bind_elem enc l x Hin). lia.
Qed.

Lemma field_element tag s :
  field_ok (put_element (E:=E) tag s) (size_delimited (strlen s)) (delimited tag (bytes_of s)).
Proof.
  intros Hlen. pose proof (slen_delimited_gt tag (bytes_of s)).
  pose proof (slen_nonneg (bytes_of s)). split.
  - unfold put_element, delimited, uvarint. apply (emits_seq _ _ [_]); [apply emits_byte|].
    apply emits_seq; [|apply emits_copy]. unfold strlen.
    apply emits_varint_loop; unfold varint_fuel; lia.
  - apply size_delimited_ok. lia.
Qed.

(** The two sizes may differ in the orders of their [range] statements. *)
Lemma field_message tag size size' mt e :
  message_ok mt size e -> message_ok mt size' e ->
  field_ok (put_message (E:=E) tag size mt) (size_delimited size') (delimited tag e).
Proof.
  intros Hm Hm' Hlen. pose proof (slen_delimited_gt tag e).
  destruct Hm as [Hmt ->]; [lia|]. destruct Hm' as [_ ->]; [lia|]. split.
  - apply emits_delimited; [lia|by apply emits_sub].
  - apply size_delimited_ok. lia.
Qed.

Lemma field_option {A} tag (o : option A) size mt enc :
  (forall x, message_ok (mt x) (size x) (enc x)) ->
  field_ok (match o with Some x => put_message (E:=E) tag (size x) (mt x) | None => put_nothing end)
    (match o with Some x => size_delimited (size x) | None => 0 end)
    (match o with Some x => delimited tag (enc x) | None => [] end).
Proof. intros Hx. destruct o; [apply field_message; apply Hx|apply field_nothing]. Qed.

Lemma map_size_ok k v :
  slen (bytes_of k) < 2 ^ 63 -> slen (bytes_of v) < 2 ^ 63 ->
  map_size k v = slen (delimited 0xa (bytes_of k) ++ delimited 0x12 (bytes_of v)).
Proof.
  intros. rewrite slen_app, !slen_delimited. unfold map_size, strlen.
  pose proof (slen_nonneg (bytes_of k)). pose proof (slen_nonneg (bytes_of v)).
  rewrite !sovApi_correct by lia. lia.
Qed.

Lemma field_map_entry tag kv :
  field_ok (put_map_entry (E:=E) tag kv) (size_map_entry kv) (map_entry_enc tag kv).
Proof.
  destruct kv as [k v]. unfold field_ok, map_entry_enc, put_map_entry, size_map_entry.
  cbn [fst snd]. cbv zeta. intros Hlen.
  pose proof (slen_delimited_gt tag (delimited 0xa (bytes_of k) ++ delimited 0x12 (bytes_of v))).
  assert (slen (bytes_of k) < 2 ^ 63 /\ slen (bytes_of v) < 2 ^ 63) as [Hk Hv].
  { rewrite (slen_app (delimited 0xa _)) in H.
    pose proof (slen_delimited_gt 0xa (bytes_of k)). pose proof (slen_nonneg (bytes_of k)).
    pose proof (slen_delimited_gt 0x12 (bytes_of v)). pose proof (slen_nonneg (bytes_of v)).
    lia. }
  rewrite map_size_ok by done. split.
  - apply emits_delimited; [lia|].
    pose proof (emits_seq _ _ _ _ (emits_delimited 0xa _ _ Hk (emits_copy (E:=E) _))
      (emits_delimited 0x12 _ _ Hv (emits_copy _))) as Hkv.
    by apply emits_assoc3.
  - rewrite <- (size_delimited_ok tag) by lia. unfold size_delimited. lia.
Qed.

Lemma field_map tag (os om : map_order) m :
  field_ok (put_range (put_map_entry (E:=E) tag) (om m)) (size_range size_map_entry (os m))
    (om m ≫= map_entry_enc tag).
Proof.
  intros Hlen. split.
  - by apply (field_range _ size_map_entry); [intros; apply field_map_entry|].
  - assert (om m ≡ₚ os m) as Hp by (by rewrite !order_perm).
    rewrite (slen_bind_Permutation _ _ _ Hp) in *.
    by apply (field_range (put_map_entry (E:=E) tag)); [intros; apply field_map_entry|].
Qed.

Lemma message_field w size e : field_ok w size e -> message_ok (fun dAtA => w dAtA 0) size e.
Proof. intros Hw Hlen. destruct (Hw Hlen). split; [by apply emits_marshals|done]. Qed.
End fields.

(** [message] proves [message_ok] field by field; the database [messages] holds
    the messages done so far. *)
Create HintDb messages.

Ltac field :=
  first
  [ apply field_seq
  | apply field_nothing
  | apply field_string
  | apply field_bool
  | apply field_element
  | apply field_map
  | apply field_message; solve [auto with messages]
  | apply field_option; solve [auto with messages]
  | apply field_range; intros; try match goal with x : _ * _ |- _ => destruct x end; cbv beta iota ].

Ltac message := intros; apply message_field; repeat field.

(** ** Every message writes its encoding *)

Lemma DevicePluginOptions_ok m : message_ok (DevicePluginOptions_MarshalTo m) (DevicePluginOptions_Size m) (DevicePluginOptions_enc m).
Proof. message. Qed.
#[export] Hint Resolve DevicePluginOptions_ok : messages.
Lemma RegisterRequest_ok m : message_ok (RegisterRequest_MarshalTo m) (RegisterRequest_Size m) (RegisterRequest_enc m).
Proof. message. Qed.
#[export] Hint Resolve RegisterRequest_ok : messages.
Lemma Empty_ok m : message_ok (Empty_MarshalTo m) (Empty_Size m) (Empty_enc m).
Proof. message. Qed.
#[export] Hint Resolve Empty_ok : messages.
Lemma Device_ok m : message_ok (Device_MarshalTo m) (Device_Size m) (Device_enc m).
Proof. message. Qed.
#[export] Hint Resolve Device_ok : messages.
Lemma ListAndWatchResponse_ok m : message_ok (ListAndWatchResponse_MarshalTo m) (ListAndWatchResponse_Size m) (ListAndWatchResponse_enc m).
Proof. message. Qed.
#[export] Hint Resolve ListAndWatchResponse_ok : messages.
Lemma PreStartContainerRequest_ok m : message_ok (PreStartContainerRequest_MarshalTo m) (PreStartContainerRequest_Size m) (PreStartContainerRequest_enc m).
Proof. message. Qed.
#[export] Hint Resolve PreStartContainerRequest_ok : messages.
Lemma PreStartContainerResponse_ok m : message_ok (PreStartContainerResponse_MarshalTo m) (PreStartContainerResponse_Size m) (PreStartContainerResponse_enc m).
Proof. message. Qed.
#[export] Hint Resolve PreStartContainerResponse_ok : messages.
Lemma ContainerAllocateRequest_ok m : message_ok (ContainerAllocateRequest_MarshalTo m) (ContainerAllocateRequest_Size m) (ContainerAllocateRequest_enc m).
Proof. message. Qed.
#[export] Hint Resolve ContainerAllocateRequest_ok : messages.
Lemma AllocateRequest_ok m : message_ok (AllocateRequest_MarshalTo m) (AllocateRequest_Size m) (AllocateRequest_enc m).
Proof. message. Qed.
#[export] Hint Resolve AllocateRequest_ok : messages.
Lemma Mount_ok m : message_ok (Mount_MarshalTo m) (Mount_Size m) (Mount_enc m).
Proof. message. Qed.
#[export] Hint Resolve Mount_ok : messages.
Lemma DeviceSpec_ok m : message_ok (DeviceSpec_MarshalTo m) (DeviceSpec_Size m) (DeviceSpec_enc m).
Proof. message. Qed.
#[export] Hint Resolve DeviceSpec_ok : messages.
Lemma ContainerAllocateResponse_ok os om m :
  message_ok (ContainerAllocateResponse_MarshalTo om m) (ContainerAllocateResponse_Size os m) (ContainerAllocateResponse_enc om m).
Proof. message. Qed.
#[export] Hint Resolve ContainerAllocateResponse_ok : messages.
Lemma AllocateResponse_ok os0 os om m :
  message_ok (AllocateResponse_MarshalTo os om m) (AllocateResponse_Size os0 m) (AllocateResponse_enc om m).
Proof. message. Qed.
#[export] Hint Resolve AllocateResponse_ok : messages.

(** ** [Marshal] *)

Lemma marshal_ok size mt e :
  message_ok mt size e -> slen e < 2 ^ 63 -> marshal size mt = Ok e.
Proof.
  intros Hm Hlen. destruct (Hm Hlen) as [Hmt ->]. unfold marshal.
  pose proof (slen_nonneg e).
  assert (slen (replicate (Z.to_nat (slen e)) x00) = slen e) as Hrep
    by (unfold slen; rewrite length_replicate; lia).
  rewrite Hmt by lia. cbn.
  rewrite drop_ge by (rewrite length_replicate; unfold slen; lia).
  pose proof (slice_app (E:=api_error) [] e []) as Hs. by rewrite app_nil_r in *.
Qed.
