(* ===== verification/ApiUnmarshal.v ===== *)
(** * Unmarshalling the messages of the device plugin API

    [skipApi] and the [Unmarshal] method of every message of api.pb.go.

    [Unmarshal] is one loop over the fields of the slice, the same for every
    message but for the [switch] on the field number; the loop is
    [unmarshal_loop], and [X_field] is the [switch] of message [X], with [None] for
    its default case.  An [Unmarshal] that returns an error leaves its receiver
    half-assigned; no caller reads it then, and the model drops it.

    Index arithmetic is done at 64 bits: the additions that the code does not
    guard against overflow wrap here as they do there. *)

From stdpp Require Import base list strings gmap.
From Stdlib Require Import ZArith Strings.Byte Lia.
From S2P Require Import Prelude Wire Api.
Open Scope Z_scope.

(** ** [skipApi]: the length of the field at the start of a slice *)

(** Case 3, a group: fields up to the end-group tag, each skipped by [skip]. *)
Fixpoint skip_group (skip : list byte -> res api_error Z) (fuel : nat) (dAtA : list byte)
  (iNdEx : Z) : res api_error Z :=
  match fuel with
  | O => Diverge
  | S fuel =>
      let start := iNdEx in
      '(innerWire, iNdEx) ← read_uint64 dAtA iNdEx;
      let innerWireType := Z.land innerWire 7 in
      if innerWireType =? 4 then Ok iNdEx else
      sub ← slice_from dAtA start;
      next ← skip sub;
      skip_group skip fuel dAtA (int64 (start + next))
  end.

Fixpoint skip_loop (fuel : nat) (dAtA : list byte) : res api_error Z :=
  match fuel with
  | O => Diverge
  | S fuel =>
      if slen dAtA <=? 0 then Panic (* panic("unreachable") *) else
      '(wire, iNdEx) ← read_uint64 dAtA 0;
      let wireType := Z.land wire 7 in
      match wireType with
      | 0 => '(_, iNdEx) ← read_uint64 dAtA iNdEx; Ok iNdEx
      | 1 => Ok (iNdEx + 8)
      | 2 =>
          '(length, iNdEx) ← read_int dAtA iNdEx;
          let iNdEx := int64 (iNdEx + length) in
          if length <? 0 then Err ErrInvalidLengthApi else Ok iNdEx
      | 3 => skip_group (skip_loop fuel) (S (length dAtA)) dAtA iNdEx
      | 4 => Ok iNdEx
      | 5 => Ok (iNdEx + 4)
      | _ => Err (ErrIllegalWireType wireType)
      end
  end.

(** Every nested group is shorter than the slice around it. *)
Definition skipApi (dAtA : list byte) : res api_error Z := skip_loop (S (length dAtA)) dAtA.

(** ** The loop over the fields *)

(** The default case of the [switch]. *)
Definition skip_field (dAtA : list byte) (preIndex : Z) : res api_error Z :=
  sub ← slice_from dAtA preIndex;
  skippy ← skipApi sub;
  if skippy <? 0 then Err ErrInvalidLengthApi else
  if slen dAtA <? int64 (preIndex + skippy) then Err ErrUnexpectedEOF else
  Ok (int64 (preIndex + skippy)).

(** The [switch fieldNum] of a message, given the message so far, the slice, the field
    number, the wire type and the index after the tag. *)
Definition field_switch (M : Type) : Type :=
  M -> list byte -> Z -> Z -> Z -> option (res api_error (M * Z)).

Fixpoint unmarshal_loop {M} (name : string) (field : field_switch M) (fuel : nat) (m : M)
  (dAtA : list byte) (iNdEx : Z) : res api_error M :=
  match fuel with
  | O => Diverge
  | S fuel =>
      if iNdEx <? slen dAtA then
        let preIndex := iNdEx in
        '(wire, iNdEx) ← read_uint64 dAtA iNdEx;
        let fieldNum := int32 (Z.shiftr wire 3) in
        let wireType := Z.land wire 7 in
        if wireType =? 4 then Err (ErrEndGroup name) else
        if fieldNum <=? 0 then Err (ErrIllegalTag name fieldNum wire) else
        '(m, iNdEx) ←
          match field m dAtA fieldNum wireType iNdEx with
          | Some r => r
          | None => iNdEx ← skip_field dAtA preIndex; Ok (m, iNdEx)
          end;
        unmarshal_loop name field fuel m dAtA iNdEx
      else if slen dAtA <? iNdEx then Err ErrUnexpectedEOF else Ok m
  end.

(** Every round moves the index forward (or makes it negative, and the next
    round panics): [unmarshal_total]. *)
Definition unmarshal {M} (name : string) (field : field_switch M) (m : M) (dAtA : list byte)
  : res api_error M :=
  unmarshal_loop name field (S (S (length dAtA))) m dAtA 0.

(** ** The cases that the generator emits for a field *)

Definition check_wire (wireType want : Z) (field : string) : res api_error unit :=
  guard_err (negb (wireType =? want)) (ErrWrongWireType wireType field).

(** [intStringLen := int(stringLen); if intStringLen < 0 { ... }; postIndex := iNdEx +
    intStringLen; if postIndex > l { ... }; string(dAtA[iNdEx:postIndex])] *)
Definition read_string (dAtA : list byte) (iNdEx : Z) : res api_error (string * Z) :=
  '(stringLen, iNdEx) ← read_uint64 dAtA iNdEx;
  let intStringLen := int64 stringLen in
  if intStringLen <? 0 then Err ErrInvalidLengthApi else
  let postIndex := int64 (iNdEx + intStringLen) in
  if slen dAtA <? postIndex then Err ErrUnexpectedEOF else
  s ← slice dAtA iNdEx postIndex;
  Ok (string_of s, postIndex).

Definition case_string (field : string) (dAtA : list byte) (wireType iNdEx : Z)
  : res api_error (string * Z) :=
  check_wire wireType 2 field ≫= fun _ => read_string dAtA iNdEx.

(** [var v int; ...; m.F = bool(v != 0)] *)
Definition case_bool (field : string) (dAtA : list byte) (wireType iNdEx : Z)
  : res api_error (bool * Z) :=
  check_wire wireType 0 field ≫= fun _ =>
  '(v, iNdEx) ← read_int dAtA iNdEx;
  Ok (negb (v =? 0), iNdEx).

(** [var msglen int; ...; postIndex := iNdEx + msglen; if postIndex > l { ... }]:
    the start and the end of an embedded message. *)
Definition read_msglen (dAtA : list byte) (iNdEx : Z) : res api_error (Z * Z) :=
  '(msglen, iNdEx) ← read_int dAtA iNdEx;
  if msglen <? 0 then Err ErrInvalidLengthApi else
  let postIndex := int64 (iNdEx + msglen) in
  if slen dAtA <? postIndex then Err ErrUnexpectedEOF else
  Ok (iNdEx, postIndex).

Definition case_message {A} (field : string) (unmarshal : list byte -> res api_error A)
  (dAtA : list byte) (wireType iNdEx : Z) : res api_error (A * Z) :=
  check_wire wireType 2 field ≫= fun _ =>
  '(iNdEx, postIndex) ← read_msglen dAtA iNdEx;
  sub ← slice dAtA iNdEx postIndex;
  x ← unmarshal sub;
  Ok (x, postIndex).

(** A map entry: the key is read first whatever its tag says, the value second
    if the entry is not over, and both up to the end of the whole slice. *)
Definition case_map_entry (field : string) (dAtA : list byte) (wireType iNdEx : Z)
  (mp : gmap string string) : res api_error (gmap string string * Z) :=
  check_wire wireType 2 field ≫= fun _ =>
  '(iNdEx, postIndex) ← read_msglen dAtA iNdEx;
  '(keykey, iNdEx) ← read_uint64 dAtA iNdEx;
  '(mapkey, iNdEx) ← read_string dAtA iNdEx;
  if iNdEx <? postIndex then
    '(valuekey, iNdEx) ← read_uint64 dAtA iNdEx;
    '(mapvalue, iNdEx) ← read_string dAtA iNdEx;
    Ok (<[mapkey := mapvalue]> mp, postIndex)
  else
    Ok (<[mapkey := ""%string]> mp, postIndex).

(** ** The [switch] and [Unmarshal] of every message *)

Definition DevicePluginOptions_field : field_switch DevicePluginOptions := fun m dAtA fieldNum wireType iNdEx =>
  match fieldNum with
  | 1 => Some (
      '(v, iNdEx) ← case_bool "PreStartRequired" dAtA wireType iNdEx;
      Ok (DevicePluginOptions_set_PreStartRequired v m, iNdEx))
  | _ => None
  end.

Definition DevicePluginOptions_Unmarshal (m : DevicePluginOptions) (dAtA : list byte) : res api_error DevicePluginOptions :=
  unmarshal "DevicePluginOptions" DevicePluginOptions_field m dAtA.

Definition RegisterRequest_field : field_switch RegisterRequest := fun m dAtA fieldNum wireType iNdEx =>
  match fieldNum with
  | 1 => Some (
      '(v, iNdEx) ← case_string "Version" dAtA wireType iNdEx;
      Ok (RegisterRequest_set_Version v m, iNdEx))
  | 2 => Some (
      '(v, iNdEx) ← case_string "Endpoint" dAtA wireType iNdEx;
      Ok (RegisterRequest_set_Endpoint v m, iNdEx))
  | 3 => Some (
      '(v, iNdEx) ← case_string "ResourceName" dAtA wireType iNdEx;
      Ok (RegisterRequest_set_ResourceName v m, iNdEx))
  | 4 => Some (
      '(v, iNdEx) ← case_message "Options"
        (DevicePluginOptions_Unmarshal (default DevicePluginOptions_Reset (RegisterRequest_Options m))) dAtA wireType iNdEx;
      Ok (RegisterRequest_set_Options (Some v) m, iNdEx))
  | _ => None
  end.

Definition RegisterRequest_Unmarshal (m : RegisterRequest) (dAtA : list byte) : res api_error RegisterRequest :=
  unmarshal "RegisterRequest" RegisterRequest_field m dAtA.

Definition Empty_field : field_switch Empty := fun m dAtA fieldNum wireType iNdEx =>
  None.

Definition Empty_Unmarshal (m : Empty) (dAtA : list byte) : res api_error Empty :=
  unmarshal "Empty" Empty_field m dAtA.

Definition Device_field : field_switch Device := fun m dAtA fieldNum wireType iNdEx =>
  match fieldNum with
  | 1 => Some (
      '(v, iNdEx) ← case_string "ID" dAtA wireType iNdEx;
      Ok (Device_set_ID v m, iNdEx))
  | 2 => Some (
      '(v, iNdEx) ← case_string "Health" dAtA wireType iNdEx;
      Ok (Device_set_Health v m, iNdEx))
  | _ => None
  end.

Definition Device_Unmarshal (m : Device) (dAtA : list byte) : res api_error Device :=
  unmarshal "Device" Device_field m dAtA.

Definition ListAndWatchResponse_field : field_switch ListAndWatchResponse := fun m dAtA fieldNum wireType iNdEx =>
  match fieldNum with
  | 1 => Some (
      '(v, iNdEx) ← case_message "Devices" (Device_Unmarshal Device_Reset)
        dAtA wireType iNdEx;
      Ok (ListAndWatchResponse_set_Devices (ListAndWatchResponse_Devices m ++ [v]) m, iNdEx))
  | _ => None
  end.

Definition ListAndWatchResponse_Unmarshal (m : ListAndWatchResponse) (dAtA : list byte) : res api_error ListAndWatchResponse :=
  unmarshal "ListAndWatchResponse" ListAndWatchResponse_field m dAtA.

Definition PreStartContainerRequest_field : field_switch PreStartContainerRequest := fun m dAtA fieldNum wireType iNdEx =>
  match fieldNum with
  | 1 => Some (
      '(v, iNdEx) ← case_string "DevicesIDs" dAtA wireType iNdEx;
      Ok (PreStartContainerRequest_set_DevicesIDs (PreStartContainerRequest_DevicesIDs m ++ [v]) m, iNdEx))
  | _ => None
  end.

Definition PreStartContainerRequest_Unmarshal (m : PreStartContainerRequest) (dAtA : list byte) : res api_error PreStartContainerRequest :=
  unmarshal "PreStartContainerRequest" PreStartContainerRequest_field m dAtA.

Definition PreStartContainerResponse_field : field_switch PreStartContainerResponse := fun m dAtA fieldNum wireType iNdEx =>
  None.

Definition PreStartContainerResponse_Unmarshal (m : PreStartContainerResponse) (dAtA : list byte) : res api_error PreStartContainerResponse :=
  unmarshal "PreStartContainerResponse" PreStartContainerResponse_field m dAtA.

Definition ContainerAllocateRequest_field : field_switch ContainerAllocateRequest := fun m dAtA fieldNum wireType iNdEx =>
  match fieldNum with
  | 1 => Some (
      '(v, iNdEx) ← case_string "DevicesIDs" dAtA wireType iNdEx;
      Ok (ContainerAllocateRequest_set_DevicesIDs (ContainerAllocateRequest_DevicesIDs m ++ [v]) m, iNdEx))
  | _ => None
  end.

Definition ContainerAllocateRequest_Unmarshal (m : ContainerAllocateRequest) (dAtA : list byte) : res api_error ContainerAllocateRequest :=
  unmarshal "ContainerAllocateRequest" ContainerAllocateRequest_field m dAtA.

Definition AllocateRequest_field : field_switch AllocateRequest := fun m dAtA fieldNum wireType iNdEx =>
  match fieldNum with
  | 1 => Some (
      '(v, iNdEx) ← case_message "ContainerRequests" (ContainerAllocateRequest_Unmarshal ContainerAllocateRequest_Reset)
        dAtA wireType iNdEx;
      Ok (AllocateRequest_set_ContainerRequests (AllocateRequest_ContainerRequests m ++ [v]) m, iNdEx))
  | _ => None
  end.

Definition AllocateRequest_Unmarshal (m : AllocateRequest) (dAtA : list byte) : res api_error AllocateRequest :=
  unmarshal "AllocateRequest" AllocateRequest_field m dAtA.

Definition Mount_field : field_switch Mount := fun m dAtA fieldNum wireType iNdEx =>
  match fieldNum with
  | 1 => Some (
      '(v, iNdEx) ← case_string "ContainerPath" dAtA wireType iNdEx;
      Ok (Mount_set_ContainerPath v m, iNdEx))
  | 2 => Some (
      '(v, iNdEx) ← case_string "HostPath" dAtA wireType iNdEx;
      Ok (Mount_set_HostPath v m, iNdEx))
  | 3 => Some (
      '(v, iNdEx) ← case_bool "ReadOnly" dAtA wireType iNdEx;
      Ok (Mount_set_ReadOnly v m, iNdEx))
  | _ => None
  end.

Definition Mount_Unmarshal (m : Mount) (dAtA : list byte) : res api_error Mount :=
  unmarshal "Mount" Mount_field m dAtA.

Definition DeviceSpec_field : field_switch DeviceSpec := fun m dAtA fieldNum wireType iNdEx =>
  match fieldNum with
  | 1 => Some (
      '(v, iNdEx) ← case_string "ContainerPath" dAtA wireType iNdEx;
      Ok (DeviceSpec_set_ContainerPath v m, iNdEx))
  | 2 => Some (
      '(v, iNdEx) ← case_string "HostPath" dAtA wireType iNdEx;
      Ok (DeviceSpec_set_HostPath v m, iNdEx))
  | 3 => Some (
      '(v, iNdEx) ← case_string "Permissions" dAtA wireType iNdEx;
      Ok (DeviceSpec_set_Permissions v m, iNdEx))
  | _ => None
  end.

Definition DeviceSpec_Unmarshal (m : DeviceSpec) (dAtA : list byte) : res api_error DeviceSpec :=
  unmarshal "DeviceSpec" DeviceSpec_field m dAtA.

Definition ContainerAllocateResponse_field : field_switch ContainerAllocateResponse := fun m dAtA fieldNum wireType iNdEx =>
  match fieldNum with
  | 1 => Some (
      '(v, iNdEx) ← case_map_entry "Envs" dAtA wireType iNdEx (ContainerAllocateResponse_Envs m);
      Ok (ContainerAllocateResponse_set_Envs v m, iNdEx))
  | 2 => Some (
      '(v, iNdEx) ← case_message "Mounts" (Mount_Unmarshal Mount_Reset)
        dAtA wireType iNdEx;
      Ok (ContainerAllocateResponse_set_Mounts (ContainerAllocateResponse_Mounts m ++ [v]) m, iNdEx))
  | 3 => Some (
      '(v, iNdEx) ← case_message "Devices" (DeviceSpec_Unmarshal DeviceSpec_Reset)
        dAtA wireType iNdEx;
      Ok (ContainerAllocateResponse_set_Devices (ContainerAllocateResponse_Devices m ++ [v]) m, iNdEx))
  | 4 => Some (
      '(v, iNdEx) ← case_map_entry "Annotations" dAtA wireType iNdEx (ContainerAllocateResponse_Annotations m);
      Ok (ContainerAllocateResponse_set_Annotations v m, iNdEx))
  | _ => None
  end.

Definition ContainerAllocateResponse_Unmarshal (m : ContainerAllocateResponse) (dAtA : list byte) : res api_error ContainerAllocateResponse :=
  unmarshal "ContainerAllocateResponse" ContainerAllocateResponse_field m dAtA.

Definition AllocateResponse_field : field_switch AllocateResponse := fun m dAtA fieldNum wireType iNdEx =>
  match fieldNum with
  | 1 => Some (
      '(v, iNdEx) ← case_message "ContainerResponses" (ContainerAllocateResponse_Unmarshal ContainerAllocateResponse_Reset)
        dAtA wireType iNdEx;
      Ok (AllocateResponse_set_ContainerResponses (AllocateResponse_ContainerResponses m ++ [v]) m, iNdEx))
  | _ => None
  end.

Definition AllocateResponse_Unmarshal (m : AllocateResponse) (dAtA : list byte) : res api_error AllocateResponse :=
  unmarshal "AllocateResponse" AllocateResponse_field m dAtA.

