(* ===== verification/ApiTotal.v ===== *)
(** * Unmarshalling ends

    [Unmarshal] of every message returns or panics, whatever bytes it is given:
    the loops of [skipApi] and of the field loop end within their fuel.  The
    only assumption is that the slice is shorter than 2^62 bytes.  A second
    group says when [Unmarshal] panics: exactly the index additions that the
    generated code does not guard against overflow. *)

From stdpp Require Import base list strings gmap.
From Stdlib Require Import ZArith Strings.Byte Lia.
From S2P Require Import Prelude Buf Wire Api ApiUnmarshal.
Open Scope Z_scope.

(** Slices shorter than this leave room below 2^63 for one more index. *)
Definition max_slice : Z := 2 ^ 62.

Lemma wp_varint pan conv dAtA i :
  (0 <= i \/ pan) ->
  wp pan (varint_loop conv read_fuel dAtA 0 0 i) (fun '(_, j) => 0 <= i < j /\ j <= slen dAtA).
Proof.
  intros Hi. destruct (varint_loop_total conv read_fuel dAtA 0 0 i) as [Hd Hp];
    [unfold read_fuel; lia..|].
  destruct (varint_loop conv read_fuel dAtA 0 0 i) as [[r j]| | |] eqn:Hr; cbn [wp]; try done.
  - by apply varint_loop_progress in Hr.
  - destruct Hi; [by destruct Hp|done].
Qed.

Lemma varint_int64_range fuel dAtA shift acc i r j :
  - 2 ^ 63 <= acc < 2 ^ 63 ->
  varint_loop int64 fuel dAtA shift acc i = Ok (r, j) -> - 2 ^ 63 <= r < 2 ^ 63.
Proof.
  assert (forall a b, - 2 ^ 63 <= a < 2 ^ 63 -> - 2 ^ 63 <= b < 2 ^ 63 ->
            - 2 ^ 63 <= Z.lor a b < 2 ^ 63) as Hlor.
  { assert (forall a, - 2 ^ 63 <= a < 2 ^ 63 <-> Z.shiftr a 63 = 0 \/ Z.shiftr a 63 = -1) as Hs.
    { intros a. rewrite Z.shiftr_div_pow2 by lia. split; intros Ha.
      - pose proof (Z.div_lt_upper_bound a (2 ^ 63) 1 ltac:(lia) ltac:(lia)).
        pose proof (Z.div_le_lower_bound a (2 ^ 63) (-1) ltac:(lia) ltac:(lia)). lia.
      - pose proof (Z.div_mod a (2 ^ 63) ltac:(lia)).
        pose proof (Z.mod_pos_bound a (2 ^ 63) ltac:(lia)). lia. }
    intros a b Ha%Hs Hb%Hs. apply Hs. rewrite Z.shiftr_lor.
    destruct Ha as [-> | ->], Hb as [-> | ->]; simpl; auto. }
  revert shift acc i. induction fuel as [|fuel IH]; intros shift acc i Hacc; [done|].
  simpl. case_match; [done|]. destruct (read_byte dAtA i) as [[b i']| | |]; [|done..]. simpl.
  pose proof (int64_range (Z.shiftl (Z.land b 127) shift)).
  case_match; intros Hr; inv_res; [by apply Hlor|].
  apply IH in Hr; [done|]. by apply Hlor.
Qed.

Lemma wp_read_int pan dAtA i :
  (0 <= i \/ pan) ->
  wp pan (read_int dAtA i) (fun '(r, j) => 0 <= i < j /\ j <= slen dAtA /\ - 2 ^ 63 <= r < 2 ^ 63).
Proof.
  intros Hi. pose proof (wp_varint pan int64 dAtA i Hi) as Hw. unfold read_int.
  destruct (varint_loop _ _ _ _ _ _) as [[r j]| | |] eqn:Hr; cbn [wp] in *; try done.
  apply varint_int64_range in Hr; lia.
Qed.

Lemma wp_read_uint64 pan dAtA i :
  (0 <= i \/ pan) ->
  wp pan (read_uint64 dAtA i) (fun '(_, j) => 0 <= i < j /\ j <= slen dAtA).
Proof. apply wp_varint. Qed.

(** A step of a [wp] proof through a read. *)
Ltac wp_read :=
  lazymatch goal with
  | |- wp _ (read_int _ _ ≫= _) _ => eapply wp_bind; [apply wp_read_int; auto|]
  | |- wp _ (read_uint64 _ _ ≫= _) _ => eapply wp_bind; [apply wp_read_uint64; auto|]
  end; cbv beta; intros [? ?].

(** ** [skipApi] *)

(** What the length of a field can be: positive, or the result of an overflow. *)
Definition skipped (n : Z) : Prop := 0 < n < 2 ^ 63 \/ - 2 ^ 63 <= n < - max_slice.

Lemma skip_group_total skip fuel dAtA i :
  slen dAtA < max_slice ->
  (forall s, slen s < slen dAtA -> wp True (skip s) skipped) ->
  (0 < fuel)%nat -> (i < 0 \/ 0 < i /\ slen dAtA - i < Z.of_nat fuel) ->
  wp True (skip_group skip fuel dAtA i) skipped.
Proof.
  unfold skipped, max_slice. intros Hlen Hskip. revert i.
  induction fuel as [|fuel IH]; intros i Hf Hi; [lia|].
  simpl. wp_read. intros [Hij Hj]. case_match; [left; simpl; lia|].
  eapply wp_bind; [apply wp_slice_from|]. intros sub [Hs1 Hs2].
  eapply wp_bind; [apply Hskip; lia|]. intros next [Hnext|Hnext].
  - destruct (int64_sum i next) as [[? ->]|[? ->]]; [lia|lia| |]; apply IH; lia.
  - rewrite int64_small by lia. apply IH; lia.
Qed.

Lemma skip_loop_total fuel dAtA :
  slen dAtA < max_slice -> (length dAtA < fuel)%nat -> wp True (skip_loop fuel dAtA) skipped.
Proof.
  unfold max_slice. revert dAtA. induction fuel as [|fuel IH]; intros dAtA Hlen Hf; [lia|].
  cbn [skip_loop]. case_match; [done|]. wp_read. intros [Hij Hj].
  unfold skipped, max_slice in *.
  destruct (Z.land _ 7) as [|p|]; [|repeat (match goal with p : positive |- _ => destruct p; try done end)|done];
    try (simpl; lia).
  - wp_read. intros [? ?]. simpl. lia.
  - apply skip_group_total; [done| |lia|right; unfold slen in *; lia].
    intros s Hs. apply IH; unfold slen in *; lia.
  - wp_read. intros (? & ? & ?). case_match; [done|]. simpl.
    match goal with |- context [int64 (?a + ?b)] => destruct (int64_sum a b) as [[? ->]|[? ->]] end; lia.
Qed.

Lemma skipApi_total dAtA : slen dAtA < max_slice -> wp True (skipApi dAtA) skipped.
Proof. intros. apply skip_loop_total; [done|lia]. Qed.

Lemma skip_field_total dAtA i :
  slen dAtA < max_slice -> 0 <= i < slen dAtA ->
  wp True (skip_field dAtA i) (fun j => i < j \/ j < 0).
Proof.
  unfold max_slice. intros Hlen Hi. unfold skip_field.
  eapply wp_bind; [apply wp_slice_from|]. intros sub [? ?].
  eapply wp_bind; [apply skipApi_total; unfold max_slice; lia|]. intros n Hn.
  unfold skipped, max_slice in Hn. case_match; [done|]. case_match; [done|]. simpl.
  destruct (int64_sum i n) as [[? ->]|[? ->]]; lia.
Qed.

(** ** The field loop *)

(** A case of the [switch] ends, and moves the index forward or makes it negative. *)
Definition field_total {M} (field : field_switch M) : Prop :=
  forall m dAtA fieldNum wireType i r,
    slen dAtA < max_slice -> 0 < i <= slen dAtA ->
    field m dAtA fieldNum wireType i = Some r ->
    wp True r (fun '(_, j) => i < j \/ j < 0).

Lemma unmarshal_loop_total {M} name (field : field_switch M) fuel m dAtA i :
  field_total field -> slen dAtA < max_slice ->
  (0 < fuel)%nat -> (i < 0 \/ 0 <= i /\ slen dAtA - i < Z.of_nat fuel) ->
  wp True (unmarshal_loop name field fuel m dAtA i) (fun _ => True).
Proof.
  intros Hfield Hlen. revert m i. induction fuel as [|fuel IH]; intros m i Hf Hi; [lia|].
  cbn [unmarshal_loop]. destruct (Z.ltb_spec i (slen dAtA)); [|by destruct (slen dAtA <? i)].
  wp_read. intros [Hij Hj]. case_match; [done|]. case_match; [done|].
  eapply (wp_bind _ _ _ (fun '(_, j) => i < j \/ j < 0)).
  - destruct (field m dAtA _ _ _) as [r|] eqn:Hr.
    + eapply wp_mono; [eapply Hfield; [done| |exact Hr]; lia|]. intros []; lia.
    + eapply wp_bind; [apply skip_field_total; lia|]. done.
  - intros [m' j] Hj'. apply IH; lia.
Qed.

Lemma unmarshal_total {M} name (field : field_switch M) m dAtA :
  field_total field -> slen dAtA < max_slice -> unmarshal name field m dAtA <> Diverge.
Proof.
  intros. eapply wp_not_diverge. apply unmarshal_loop_total; [done..|lia|].
  pose proof (slen_nonneg dAtA). unfold slen in *. lia.
Qed.

(** ** The cases *)

Lemma wp_check_wire {A} wireType want f (r : res api_error A) Q :
  wp True r Q -> wp True (check_wire wireType want f ≫= fun _ => r) Q.
Proof. unfold check_wire, guard_err. by destruct (negb _). Qed.

Lemma wp_read_string dAtA i :
  slen dAtA < max_slice -> wp True (read_string dAtA i) (fun '(_, j) => i < j <= slen dAtA).
Proof.
  intros Hlen. unfold read_string. wp_read. intros [? ?]. case_match; [done|]. case_match; [done|].
  eapply wp_bind; [apply wp_slice|]. intros s (? & ? & ?). simpl. lia.
Qed.

Lemma wp_read_msglen dAtA i :
  slen dAtA < max_slice ->
  wp True (read_msglen dAtA i) (fun '(j, post) => i < j /\ (j <= post \/ post < 0)).
Proof.
  unfold max_slice. intros Hlen. unfold read_msglen. wp_read. intros (? & ? & ?).
  case_match; [done|]. case_match; [done|]. simpl.
  match goal with |- context [int64 (?a + ?b)] => destruct (int64_sum a b) as [[? ->]|[? ->]] end; lia.
Qed.

Section cases.
Context (dAtA : list byte) (wireType i : Z) (Hlen : slen dAtA < max_slice).

Lemma case_string_total f :
  wp True (case_string f dAtA wireType i) (fun '(_, j) => i < j).
Proof.
  apply wp_check_wire. eapply wp_mono; [by apply wp_read_string|]. intros []; lia.
Qed.

Lemma case_bool_total f :
  wp True (case_bool f dAtA wireType i) (fun '(_, j) => i < j).
Proof. apply wp_check_wire. wp_read. intros (? & ? & ?). simpl. lia. Qed.

Lemma case_message_total {A} f (u : list byte -> res api_error A) :
  (forall s, slen s < max_slice -> u s <> Diverge) ->
  wp True (case_message f u dAtA wireType i) (fun '(_, j) => i < j).
Proof.
  intros Hu. apply wp_check_wire.
  eapply wp_bind; [by apply wp_read_msglen|]. intros [j post] Hj.
  eapply wp_bind; [apply wp_slice|]. intros s (? & ? & ?).
  eapply (wp_bind _ _ _ (fun _ => True)); [|intros; simpl; lia].
  specialize (Hu s ltac:(lia)). by destruct (u s).
Qed.

Lemma case_map_entry_total f mp :
  wp True (case_map_entry f dAtA wireType i mp) (fun '(_, j) => i < j \/ j < 0).
Proof.
  apply wp_check_wire. eapply wp_bind; [by apply wp_read_msglen|]. intros [j post] Hj.
  wp_read. intros [? ?]. eapply wp_bind; [by apply wp_read_string|]. intros [k j'] ?.
  case_match; [|simpl; lia]. wp_read. intros [? ?].
  eapply wp_bind; [by apply wp_read_string|]. intros [v j''] ?. simpl. lia.
Qed.
End cases.

(** ** The messages *)

Create HintDb totals.
#[export] Hint Resolve case_string_total case_bool_total case_message_total case_map_entry_total
  : totals.

Ltac field_cases fieldNum := destruct fieldNum as [|p|p]; intros Hr; try done;
  repeat (try done; match goal with p : positive |- _ => destruct p end);
  injection Hr as <-.

(** Each case of a [switch] is one of the four above followed by an assignment. *)
Ltac field_total :=
  intros m dAtA fieldNum wireType i r Hlen Hi; field_cases fieldNum;
  (eapply wp_bind; [eauto with totals|]; intros []; simpl; lia).

Lemma DevicePluginOptions_field_total : field_total DevicePluginOptions_field.
Proof. field_total. Qed.
Lemma DevicePluginOptions_Unmarshal_total m dAtA :
  slen dAtA < max_slice -> DevicePluginOptions_Unmarshal m dAtA <> Diverge.
Proof. apply unmarshal_total, DevicePluginOptions_field_total. Qed.
#[export] Hint Resolve DevicePluginOptions_Unmarshal_total : totals.

Lemma RegisterRequest_field_total : field_total RegisterRequest_field.
Proof. field_total. Qed.
Lemma RegisterRequest_Unmarshal_total m dAtA :
  slen dAtA < max_slice -> RegisterRequest_Unmarshal m dAtA <> Diverge.
Proof. apply unmarshal_total, RegisterRequest_field_total. Qed.
#[export] Hint Resolve RegisterRequest_Unmarshal_total : totals.

Lemma Empty_field_total : field_total Empty_field.
Proof. field_total. Qed.
Lemma Empty_Unmarshal_total m dAtA :
  slen dAtA < max_slice -> Empty_Unmarshal m dAtA <> Diverge.
Proof. apply unmarshal_total, Empty_field_total. Qed.
#[export] Hint Resolve Empty_Unmarshal_total : totals.

Lemma Device_field_total : field_total Device_field.
Proof. field_total. Qed.
Lemma Device_Unmarshal_total m dAtA :
  slen dAtA < max_slice -> Device_Unmarshal m dAtA <> Diverge.
Proof. apply unmarshal_total, Device_field_total. Qed.
#[export] Hint Resolve Device_Unmarshal_total : totals.

Lemma ListAndWatchResponse_field_total : field_total ListAndWatchResponse_field.
Proof. field_total. Qed.
Lemma ListAndWatchResponse_Unmarshal_total m dAtA :
  slen dAtA < max_slice -> ListAndWatchResponse_Unmarshal m dAtA <> Diverge.
Proof. apply unmarshal_total, ListAndWatchResponse_field_total. Qed.
#[export] Hint Resolve ListAndWatchResponse_Unmarshal_total : totals.

Lemma PreStartContainerRequest_field_total : field_total PreStartContainerRequest_field.
Proof. field_total. Qed.
Lemma PreStartContainerRequest_Unmarshal_total m dAtA :
  slen dAtA < max_slice -> PreStartContainerRequest_Unmarshal m dAtA <> Diverge.
Proof. apply unmarshal_total, PreStartContainerRequest_field_total. Qed.
#[export] Hint Resolve PreStartContainerRequest_Unmarshal_total : totals.

Lemma PreStartContainerResponse_field_total : field_total PreStartContainerResponse_field.
Proof. field_total. Qed.
Lemma PreStartContainerResponse_Unmarshal_total m dAtA :
  slen dAtA < max_slice -> PreStartContainerResponse_Unmarshal m dAtA <> Diverge.
Proof. apply unmarshal_total, PreStartContainerResponse_field_total. Qed.
#[export] Hint Resolve PreStartContainerResponse_Unmarshal_total : totals.

Lemma ContainerAllocateRequest_field_total : field_total ContainerAllocateRequest_field.
Proof. field_total. Qed.
Lemma ContainerAllocateRequest_Unmarshal_total m dAtA :
  slen dAtA < max_slice -> ContainerAllocateRequest_Unmarshal m dAtA <> Diverge.
Proof. apply unmarshal_total, ContainerAllocateRequest_field_total. Qed.
#[export] Hint Resolve ContainerAllocateRequest_Unmarshal_total : totals.

Lemma AllocateRequest_field_total : field_total AllocateRequest_field.
Proof. field_total. Qed.
Lemma AllocateRequest_Unmarshal_total m dAtA :
  slen dAtA < max_slice -> AllocateRequest_Unmarshal m dAtA <> Diverge.
Proof. apply unmarshal_total, AllocateRequest_field_total. Qed.
#[export] Hint Resolve AllocateRequest_Unmarshal_total : totals.

Lemma Mount_field_total : field_total Mount_field.
Proof. field_total. Qed.
Lemma Mount_Unmarshal_total m dAtA :
  slen dAtA < max_slice -> Mount_Unmarshal m dAtA <> Diverge.
Proof. apply unmarshal_total, Mount_field_total. Qed.
#[export] Hint Resolve Mount_Unmarshal_total : totals.

Lemma DeviceSpec_field_total : field_total DeviceSpec_field.
Proof. field_total. Qed.
Lemma DeviceSpec_Unmarshal_total m dAtA :
  slen dAtA < max_slice -> DeviceSpec_Unmarshal m dAtA <> Diverge.
Proof. apply unmarshal_total, DeviceSpec_field_total. Qed.
#[export] Hint Resolve DeviceSpec_Unmarshal_total : totals.

Lemma ContainerAllocateResponse_field_total : field_total ContainerAllocateResponse_field.
Proof. field_total. Qed.
Lemma ContainerAllocateResponse_Unmarshal_total m dAtA :
  slen dAtA < max_slice -> ContainerAllocateResponse_Unmarshal m dAtA <> Diverge.
Proof. apply unmarshal_total, ContainerAllocateResponse_field_total. Qed.
#[export] Hint Resolve ContainerAllocateResponse_Unmarshal_total : totals.

Lemma AllocateResponse_field_total : field_total AllocateResponse_field.
Proof. field_total. Qed.
Lemma AllocateResponse_Unmarshal_total m dAtA :
  slen dAtA < max_slice -> AllocateResponse_Unmarshal m dAtA <> Diverge.
Proof. apply unmarshal_total, AllocateResponse_field_total. Qed.
#[export] Hint Resolve AllocateResponse_Unmarshal_total : totals.

