(* ===== verification/ApiRoundTrip.v ===== *)
(** * Marshalling and unmarshalling are inverse

    The field loop reads back the encodings of ApiMarshal field by field.
    [consumes field e m m'] says that the loop, at the start of the bytes [e]
    anywhere in a slice and holding the message [m], comes to their end holding
    [m'].  The lemmas on the fields compose to [Unmarshal (Marshal m) = m] for every
    message, and, more generally, to the merge that [Unmarshal] does when the receiver
    already has fields set. *)

From stdpp Require Import base list strings gmap.
From Stdlib Require Import ZArith Strings.Byte Lia.
From S2P Require Import Prelude Buf Wire Api ApiMarshal ApiUnmarshal ApiTotal.
Open Scope Z_scope.

Section loop.
Context {M : Type} (name : string) (field : field_switch M).

(** The loop goes from [(m, i)] to [(m', j)] in some number of rounds. *)
Definition reads (dAtA : list byte) (m : M) (i : Z) (m' : M) (j : Z) : Prop :=
  exists n : nat, forall fuel,
    unmarshal_loop name field (n + fuel) m dAtA i = unmarshal_loop name field fuel m' dAtA j.

Definition consumes (e : list byte) (m m' : M) : Prop :=
  forall pre post, slen (pre ++ e ++ post) < max_slice ->
    reads (pre ++ e ++ post) m (slen pre) m' (slen pre + slen e).

Lemma reads_refl dAtA m i : reads dAtA m i m i.
Proof. by exists 0%nat. Qed.

Lemma reads_trans dAtA m1 i1 m2 i2 m3 i3 :
  reads dAtA m1 i1 m2 i2 -> reads dAtA m2 i2 m3 i3 -> reads dAtA m1 i1 m3 i3.
Proof.
  intros [n1 H1] [n2 H2]. exists (n1 + n2)%nat. intros fuel.
  rewrite <- Nat.add_assoc. by rewrite H1.
Qed.

Lemma consumes_nil m : consumes [] m m.
Proof. intros pre post _. rewrite slen_nil, Z.add_0_r. apply reads_refl. Qed.

Lemma consumes_app e1 e2 m1 m2 m3 :
  consumes e1 m1 m2 -> consumes e2 m2 m3 -> consumes (e1 ++ e2) m1 m3.
Proof.
  intros H1 H2 pre post Hlen. rewrite <- (app_assoc e1) in *. eapply reads_trans.
  - by apply H1.
  - specialize (H2 (pre ++ e1) post). rewrite <- app_assoc, (slen_app pre e1) in H2.
    rewrite (slen_app e1 e2), Z.add_assoc. by apply H2.
Qed.

(** Repeated fields: one element after the other. *)
Lemma consumes_bind {A} (enc : A -> list byte) (add : A -> M -> M) l m :
  (forall x m, x ∈ l -> consumes (enc x) m (add x m)) ->
  consumes (l ≫= enc) m (foldl (fun m x => add x m) m l).
Proof.
  revert m. induction l as [|x l IH]; intros m Hl; [apply consumes_nil|].
  rewrite bind_cons. simpl. eapply consumes_app; [apply Hl; left|].
  apply IH. intros y m' Hy. apply Hl. by right.
Qed.

Lemma loop_more_fuel n fuel m dAtA i :
  unmarshal_loop name field fuel m dAtA i <> Diverge ->
  unmarshal_loop name field (fuel + n) m dAtA i = unmarshal_loop name field fuel m dAtA i.
Proof.
  revert m i. induction fuel as [|fuel IH]; intros m i Hd; [done|].
  cbn [unmarshal_loop Nat.add] in *. case_match; [|done].
  destruct (read_uint64 dAtA i) as [[wire j]| | |]; [|done..]. cbn in *.
  case_match; [done|]. case_match; [done|].
  match goal with |- (?r ≫= _) = _ => destruct r as [[m' j']| | |] end; [|done..].
  cbn in *. by apply IH.
Qed.

(** A message whose whole slice is consumed is unmarshalled. *)
Lemma consumes_unmarshal e m m' :
  field_total field -> slen e < max_slice -> consumes e m m' -> unmarshal name field m e = Ok m'.
Proof.
  intros Ht Hlen Hc. destruct (Hc [] []) as [n Hn]; simpl; rewrite ?app_nil_r; [done|].
  simpl in Hn. rewrite app_nil_r, slen_nil, Z.add_0_l in Hn.
  pose proof (unmarshal_total name field m e Ht Hlen) as Hd. unfold unmarshal in *.
  rewrite <- (loop_more_fuel (n + 1) _ _ _ _ Hd).
  replace (S (S (length e)) + (n + 1))%nat with (n + (1 + S (S (length e))))%nat by lia.
  rewrite Hn. simpl. by rewrite Z.ltb_irrefl.
Qed.

(** One round, for a one-byte tag. *)
Lemma consumes_field tag fieldNum wireType payload m m' :
  0 <= tag < 128 -> int32 (Z.shiftr tag 3) = fieldNum -> Z.land tag 7 = wireType ->
  wireType <> 4 -> 0 < fieldNum ->
  (forall pre post, slen (pre ++ payload ++ post) < max_slice ->
     field m (pre ++ payload ++ post) fieldNum wireType (slen pre) =
       Some (Ok (m', slen pre + slen payload))) ->
  consumes (byte_of_Z tag :: payload) m m'.
Proof.
  intros Htag Hfn Hwt Hw4 Hpos Hf pre post Hlen. exists 1%nat. intros fuel. cbn [unmarshal_loop Nat.add].
  pose proof (slen_nonneg payload). pose proof (slen_nonneg post).
  destruct (Z.ltb_spec (slen pre) (slen (pre ++ (byte_of_Z tag :: payload) ++ post))) as [_|Hge].
  2: { rewrite !slen_app, slen_cons in Hge. lia. }
  assert (uvarint tag = [byte_of_Z tag]) as Huv.
  { unfold uvarint, varint_fuel. cbn [uvarint_bytes]. destruct (Z.ltb_spec tag 128); [done|lia]. }
  pose proof (read_uint64_correct tag pre (payload ++ post) ltac:(lia)) as Hr.
  rewrite Huv in Hr. cbn [app] in *. rewrite Hr. cbn [mbind res_bind]. rewrite Hfn, Hwt.
  destruct (Z.eqb_spec wireType 4); [done|]. destruct (Z.leb_spec fieldNum 0); [lia|].
  specialize (Hf (pre ++ [byte_of_Z tag]) post).
  rewrite <- !app_assoc, (slen_app pre [_]) in Hf. cbn [app] in Hf.
  change (slen [byte_of_Z tag]) with 1 in *. rewrite Hf by done. cbn.
  f_equal. rewrite slen_cons. lia.
Qed.
End loop.

(** ** The cases of the [switch] on the encodings of their fields *)

Section cases.
Implicit Types pre post s e : list byte.

(** The index arithmetic inside a slice does not wrap. *)
Lemma index_in_slice pre u s post :
  slen (pre ++ u ++ s ++ post) < max_slice ->
  int64 (slen pre + slen u + slen s) = slen pre + slen (u ++ s) /\
  slen pre + slen (u ++ s) <= slen (pre ++ u ++ s ++ post).
Proof.
  unfold max_slice. rewrite !slen_app. intros.
  pose proof (slen_nonneg pre). pose proof (slen_nonneg u). pose proof (slen_nonneg s).
  pose proof (slen_nonneg post). rewrite int64_small; lia.
Qed.

Lemma slice_inside {E} pre u s post :
  slice (E:=E) (pre ++ u ++ s ++ post) (slen pre + slen u) (slen pre + slen (u ++ s)) = Ok s.
Proof.
  rewrite (slen_app u s), Z.add_assoc, <- (slen_app pre u), (app_assoc pre). apply slice_app.
Qed.

Lemma slen_part pre u s post :
  slen (pre ++ u ++ s ++ post) < max_slice -> 0 <= slen s < 2 ^ 62.
Proof.
  unfold max_slice. rewrite !slen_app. pose proof (slen_nonneg pre). pose proof (slen_nonneg u).
  pose proof (slen_nonneg s). pose proof (slen_nonneg post). lia.
Qed.

Lemma read_string_correct pre s post :
  slen (pre ++ uvarint (slen s) ++ s ++ post) < max_slice ->
  read_string (pre ++ uvarint (slen s) ++ s ++ post) (slen pre) =
    Ok (string_of s, slen pre + slen (uvarint (slen s) ++ s)).
Proof.
  intros Hlen. unfold read_string. pose proof (slen_part _ _ _ _ Hlen).
  rewrite read_uint64_correct by lia. cbn [mbind res_bind].
  rewrite (int64_small (slen s)) by lia.
  destruct (index_in_slice _ _ _ _ Hlen) as [-> Hle].
  destruct (Z.ltb_spec (slen s) 0); [lia|].
  destruct (Z.ltb_spec (slen (pre ++ uvarint (slen s) ++ s ++ post))
                       (slen pre + slen (uvarint (slen s) ++ s))); [lia|].
  by rewrite slice_inside.
Qed.

Lemma read_msglen_correct pre s post :
  slen (pre ++ uvarint (slen s) ++ s ++ post) < max_slice ->
  read_msglen (pre ++ uvarint (slen s) ++ s ++ post) (slen pre) =
    Ok (slen pre + slen (uvarint (slen s)), slen pre + slen (uvarint (slen s) ++ s)).
Proof.
  intros Hlen. unfold read_msglen. pose proof (slen_part _ _ _ _ Hlen).
  rewrite read_int_correct by lia. cbn [mbind res_bind].
  destruct (index_in_slice _ _ _ _ Hlen) as [-> Hle].
  destruct (Z.ltb_spec (slen s) 0); [lia|].
  by destruct (Z.ltb_spec (slen (pre ++ uvarint (slen s) ++ s ++ post))
                       (slen pre + slen (uvarint (slen s) ++ s))); [lia|].
Qed.

Lemma case_string_correct f pre s post :
  slen (pre ++ uvarint (slen s) ++ s ++ post) < max_slice ->
  case_string f (pre ++ uvarint (slen s) ++ s ++ post) 2 (slen pre) =
    Ok (string_of s, slen pre + slen (uvarint (slen s) ++ s)).
Proof. apply read_string_correct. Qed.

Lemma case_message_correct {A} f (u : list byte -> res api_error A) x pre s post :
  u s = Ok x -> slen (pre ++ uvarint (slen s) ++ s ++ post) < max_slice ->
  case_message f u (pre ++ uvarint (slen s) ++ s ++ post) 2 (slen pre) =
    Ok (x, slen pre + slen (uvarint (slen s) ++ s)).
Proof.
  intros Hu Hlen. unfold case_message. cbn. rewrite read_msglen_correct by done. cbn.
  rewrite slice_inside. cbn. by rewrite Hu.
Qed.

Lemma case_bool_correct f pre post :
  slen (pre ++ [byte_of_Z 1] ++ post) < max_slice ->
  case_bool f (pre ++ [byte_of_Z 1] ++ post) 0 (slen pre) = Ok (true, slen pre + 1).
Proof.
  intros _. pose proof (read_int_correct 1 pre post ltac:(lia)) as Hr.
  change (uvarint 1) with [byte_of_Z 1] in Hr. unfold case_bool.
  change (check_wire 0 0 f) with (Ok (E:=api_error) tt). cbn [mbind res_bind]. by rewrite Hr.
Qed.

(** The reads again, for a slice and an index that equal the expected ones. *)
Lemma read_uint64_at v pre post d i :
  0 <= v < 2 ^ 64 -> d = pre ++ uvarint v ++ post -> i = slen pre ->
  read_uint64 d i = Ok (v, i + slen (uvarint v)).
Proof. intros Hv -> ->. by apply read_uint64_correct. Qed.

Lemma read_string_at pre s post d i :
  slen d < max_slice -> d = pre ++ (uvarint (slen s) ++ s) ++ post -> i = slen pre ->
  read_string d i = Ok (string_of s, i + slen (uvarint (slen s) ++ s)).
Proof. intros Hlen -> ->. rewrite <- app_assoc in *. by apply read_string_correct. Qed.

Definition map_entry_payload (k v : list byte) : list byte :=
  delimited 0xa k ++ delimited 0x12 v.

(** Equality of slices up to associativity. *)
Ltac app_eq :=
  repeat match goal with x := _ : list byte |- _ => subst x end;
  change (uvarint 0xa) with [byte_of_Z 0xa]; change (uvarint 0x12) with [byte_of_Z 0x12];
  unfold map_entry_payload, delimited; do 3 (rewrite <- ?app_assoc; cbn [app]); reflexivity.

Lemma case_map_entry_correct f pre k v post mp :
  let s := map_entry_payload k v in
  slen (pre ++ uvarint (slen s) ++ s ++ post) < max_slice ->
  case_map_entry f (pre ++ uvarint (slen s) ++ s ++ post) 2 (slen pre) mp =
    Ok (<[string_of k := string_of v]> mp, slen pre + slen (uvarint (slen s) ++ s)).
Proof.
  intros s Hlen. unfold case_map_entry.
  change (check_wire 2 2 f) with (Ok (E:=api_error) tt). cbn [mbind res_bind].
  rewrite read_msglen_correct by done. cbn [mbind res_bind].
  set (u := uvarint (slen s)) in *. set (d := pre ++ u ++ s ++ post) in *.
  set (uk := uvarint (slen k)). set (uv := uvarint (slen v)).
  assert (slen (u ++ s) = slen u + (1 + slen (uk ++ k)) + (1 + slen (uv ++ v))) as Hs.
  { unfold s, map_entry_payload, delimited, uk, uv. rewrite !slen_app, !slen_cons, !slen_app. lia. }
  pose proof (slen_nonneg (uv ++ v)).
  rewrite (read_uint64_at 0xa (pre ++ u) ((uk ++ k) ++ [byte_of_Z 0x12] ++ (uv ++ v) ++ post));
    [|lia|app_eq|by rewrite slen_app].
  change (slen (uvarint 0xa)) with 1. cbn [mbind res_bind].
  rewrite (read_string_at (pre ++ u ++ [byte_of_Z 0xa]) k ([byte_of_Z 0x12] ++ (uv ++ v) ++ post));
    [|done|app_eq
     |rewrite !slen_app, ?slen_cons, ?slen_nil; lia].
  cbn [mbind res_bind]. fold uk.
  destruct (Z.ltb_spec (slen pre + slen u + 1 + slen (uk ++ k)) (slen pre + slen (u ++ s))); [|lia].
  rewrite (read_uint64_at 0x12 (pre ++ u ++ [byte_of_Z 0xa] ++ uk ++ k) ((uv ++ v) ++ post));
    [|lia|app_eq
     |rewrite !slen_app, ?slen_cons, ?slen_nil; lia].
  change (slen (uvarint 0x12)) with 1. cbn [mbind res_bind].
  rewrite (read_string_at (pre ++ u ++ [byte_of_Z 0xa] ++ uk ++ k ++ [byte_of_Z 0x12]) v post);
    [done|done|app_eq
     |rewrite !slen_app, ?slen_cons, ?slen_nil; lia].
Qed.
End cases.

(** ** Fields: the cases inside the loop *)

Section field_consumes.
Context {M : Type} (name : string) (field : field_switch M).
Context (tag fieldNum : Z) (f : string).
Hypothesis Htag : 0 <= tag < 128.
Hypothesis Hnum : int32 (Z.shiftr tag 3) = fieldNum.
Hypothesis Hpos : 0 < fieldNum.

Lemma consumes_string set m s :
  Z.land tag 7 = 2 ->
  (forall dAtA i, field m dAtA fieldNum 2 i =
     Some ('(v, i) ← case_string f dAtA 2 i; Ok (set v m, i))) ->
  consumes name field (delimited tag (bytes_of s)) m (set s m).
Proof using Htag Hnum Hpos.
  intros Hw Hf. eapply consumes_field; [done..|lia|done|].
  intros pre post Hlen. rewrite Hf. rewrite <- app_assoc in *.
  rewrite case_string_correct by done. simpl. by rewrite string_of_bytes_of.
Qed.

(** A singular string: nothing is written for the empty string. *)
Lemma consumes_string_enc set m s :
  Z.land tag 7 = 2 -> set ""%string m = m ->
  (forall dAtA i, field m dAtA fieldNum 2 i =
     Some ('(v, i) ← case_string f dAtA 2 i; Ok (set v m, i))) ->
  consumes name field (string_enc tag s) m (set s m).
Proof using Htag Hnum Hpos.
  intros Hw H0 Hf. unfold string_enc. destruct (Z.ltb_spec 0 (strlen s)) as [|Hs].
  - by apply consumes_string.
  - assert (s = ""%string) as ->.
    { rewrite <- (string_of_bytes_of s). unfold strlen, slen in Hs.
      destruct (bytes_of s); [done|simpl in Hs; lia]. }
    rewrite H0. apply consumes_nil.
Qed.

Lemma consumes_bool_enc set m (b : bool) :
  Z.land tag 7 = 0 -> set false m = m ->
  (forall dAtA i, field m dAtA fieldNum 0 i =
     Some ('(v, i) ← case_bool f dAtA 0 i; Ok (set v m, i))) ->
  consumes name field (bool_enc tag b) m (set b m).
Proof using Htag Hnum Hpos.
  intros Hw H0 Hf. unfold bool_enc. destruct b; [|rewrite H0; apply consumes_nil].
  eapply consumes_field; [done..|lia|done|].
  intros pre post Hlen. rewrite Hf, case_bool_correct; done.
Qed.

Lemma consumes_message {A} (u : list byte -> res api_error A) set m x e :
  Z.land tag 7 = 2 -> u e = Ok x ->
  (forall dAtA i, field m dAtA fieldNum 2 i =
     Some ('(v, i) ← case_message f u dAtA 2 i; Ok (set v m, i))) ->
  consumes name field (delimited tag e) m (set x m).
Proof using Htag Hnum Hpos.
  intros Hw Hu Hf. eapply consumes_field; [done..|lia|done|].
  intros pre post Hlen. rewrite Hf. rewrite <- app_assoc in *.
  by rewrite (case_message_correct _ _ _ _ _ _ Hu Hlen).
Qed.

Lemma consumes_map_entry get set m kv :
  Z.land tag 7 = 2 ->
  (forall dAtA i, field m dAtA fieldNum 2 i =
     Some ('(v, i) ← case_map_entry f dAtA 2 i (get m); Ok (set v m, i))) ->
  consumes name field (map_entry_enc tag kv) m (set (<[kv.1 := kv.2]> (get m)) m).
Proof using Htag Hnum Hpos.
  intros Hw Hf. eapply consumes_field; [done..|lia|done|].
  intros pre post Hlen. rewrite Hf. rewrite <- app_assoc in *.
  pose proof (case_map_entry_correct f pre (bytes_of kv.1) (bytes_of kv.2) post (get m) Hlen) as He.
  unfold map_entry_payload in He. rewrite He. simpl. by rewrite !string_of_bytes_of.
Qed.
End field_consumes.

(** A field that is a list, or a map, is extended element by element. *)
Section extend.
Context {M B : Type} (name : string) (field : field_switch M).
Context (get : M -> B) (set : B -> M -> M).
Hypothesis get_set : forall v m, get (set v m) = v.
Hypothesis set_set : forall v w m, set v (set w m) = set v m.
Hypothesis set_get : forall m, set (get m) m = m.

Lemma consumes_extend {A} (enc : A -> list byte) (add : A -> B -> B) l m :
  (forall x m, x ∈ l -> consumes name field (enc x) m (set (add x (get m)) m)) ->
  consumes name field (l ≫= enc) m (set (foldl (fun b x => add x b) (get m) l) m).
Proof using get_set set_set set_get.
  intros Hl. pose proof (consumes_bind name field enc (fun x m => set (add x (get m)) m) l m Hl) as Hc.
  assert (forall m, foldl (fun m x => set (add x (get m)) m) m l =
    set (foldl (fun b x => add x b) (get m) l) m) as <-; [|done].
  clear Hl Hc. induction l as [|x l IH]; intros m'; simpl; [by rewrite set_get|].
  by rewrite IH, get_set, set_set.
Qed.
End extend.

Lemma foldl_append {A B} (val : A -> B) l bs :
  foldl (fun bs x => bs ++ [val x]) bs l = bs ++ (val <$> l).
Proof.
  revert bs. induction l as [|x l IH]; intros bs; simpl; [by rewrite app_nil_r|].
  by rewrite IH, <- app_assoc.
Qed.

(** Inserting the entries of a map in any order gives back the map. *)
Lemma foldl_insert_order (o : map_order) (mp : gmap string string) :
  foldl (fun mp kv => <[kv.1 := kv.2]> mp) ∅ (o mp) = mp.
Proof.
  pose proof (order_perm o mp) as Hp.
  assert (foldl (fun mp kv => <[kv.1 := kv.2]> mp) ∅ (o mp) =
    list_to_map (M := gmap string string) (reverse (o mp))) as ->.
  { clear Hp. induction (o mp) as [|[k v] l IH] using rev_ind; [done|].
    rewrite foldl_app, reverse_snoc, IH. done. }
  assert (reverse (o mp) ≡ₚ map_to_list mp) as Hr by (by rewrite reverse_Permutation).
  rewrite (list_to_map_proper _ (map_to_list mp)); [apply list_to_map_to_list| |done].
  rewrite Hr. apply NoDup_fst_map_to_list.
Qed.

(** ** The messages *)

Lemma slen_app_bound (e1 e2 : list byte) :
  slen (e1 ++ e2) < max_slice -> slen e1 < max_slice /\ slen e2 < max_slice.
Proof. rewrite slen_app. pose proof (slen_nonneg e1). pose proof (slen_nonneg e2). lia. Qed.

Lemma slen_elem_bound {A} (enc : A -> list byte) tag l x :
  x ∈ l -> slen (l ≫= fun x => delimited tag (enc x)) < max_slice -> slen (enc x) < max_slice.
Proof.
  intros Hx Hlen. pose proof (slen_bind_elem (fun x => delimited tag (enc x)) l x Hx).
  pose proof (slen_delimited_gt tag (enc x)). simpl in *. lia.
Qed.

(** The next field of a message is field [k], assigned by [st]. *)
Ltac field_string k st :=
  eapply consumes_string_enc with (fieldNum := k) (f := ""%string) (set := st);
  [lia|reflexivity|lia|reflexivity|reflexivity|intros; reflexivity].
Ltac field_bool k st :=
  eapply consumes_bool_enc with (fieldNum := k) (f := ""%string) (set := st);
  [lia|reflexivity|lia|reflexivity|reflexivity|intros; reflexivity].
Ltac next := eapply consumes_app.

Lemma consumes_repeated {M A B} name (field : field_switch M) (get : M -> list B) set
  (enc : A -> list byte) (val : A -> B) l m :
  (forall v m, get (set v m) = v) -> (forall v w m, set v (set w m) = set v m) ->
  (forall m, set (get m) m = m) -> get m = [] ->
  (forall x m, x ∈ l -> consumes name field (enc x) m (set (get m ++ [val x]) m)) ->
  consumes name field (l ≫= enc) m (set (val <$> l) m).
Proof.
  intros Hgs Hss Hsg Hm Hl.
  pose proof (consumes_extend name field get set Hgs Hss Hsg enc (fun x b => b ++ [val x]) l m Hl) as Hc.
  cbv beta in Hc. by rewrite foldl_append, Hm in Hc.
Qed.

Lemma consumes_map name {M} (field : field_switch M) (get : M -> gmap string string) set tag
  (o : map_order) mp m :
  (forall v m, get (set v m) = v) -> (forall v w m, set v (set w m) = set v m) ->
  (forall m, set (get m) m = m) -> get m = ∅ ->
  (forall kv m, consumes name field (map_entry_enc tag kv) m (set (<[kv.1 := kv.2]> (get m)) m)) ->
  consumes name field (o mp ≫= map_entry_enc tag) m (set mp m).
Proof.
  intros Hgs Hss Hsg Hm Hl.
  pose proof (consumes_extend name field get set Hgs Hss Hsg (map_entry_enc tag)
    (fun kv b => <[kv.1 := kv.2]> b) (o mp) m) as Hc.
  cbv beta in Hc. rewrite Hm, foldl_insert_order in Hc. apply Hc. auto.
Qed.

(** A list field, with [val] the part of an element that is stored. *)
Ltac field_list gt st vl :=
  match goal with |- consumes ?n ?f (?l ≫= ?enc) ?m _ =>
    apply (consumes_repeated n f gt st enc vl l m);
    [done|done|by intros []|done|] end.
Ltac field_map k gt st :=
  match goal with |- consumes ?n ?f (order ?o ?mp ≫= _) ?m _ =>
    apply (consumes_map n f gt st _ o mp m);
    [done|done|by intros []|done|];
    intros kv m'; apply (consumes_map_entry n f _ k ""%string) with (get := gt) (set := st);
    [lia|reflexivity|lia|reflexivity|intros; reflexivity] end.

Section messages.

Lemma DevicePluginOptions_consumes m :
  consumes "DevicePluginOptions" DevicePluginOptions_field (DevicePluginOptions_enc m)
    DevicePluginOptions_Reset m.
Proof. destruct m. field_bool 1 DevicePluginOptions_set_PreStartRequired. Qed.

Lemma Device_consumes m :
  consumes "Device" Device_field (Device_enc m) Device_Reset m.
Proof.
  destruct m. next; [field_string 1 Device_set_ID|field_string 2 Device_set_Health].
Qed.

Lemma Mount_consumes m : consumes "Mount" Mount_field (Mount_enc m) Mount_Reset m.
Proof.
  destruct m. next; [field_string 1 Mount_set_ContainerPath|].
  next; [field_string 2 Mount_set_HostPath|field_bool 3 Mount_set_ReadOnly].
Qed.

Lemma DeviceSpec_consumes m :
  consumes "DeviceSpec" DeviceSpec_field (DeviceSpec_enc m) DeviceSpec_Reset m.
Proof.
  destruct m. next; [field_string 1 DeviceSpec_set_ContainerPath|].
  next; [field_string 2 DeviceSpec_set_HostPath|field_string 3 DeviceSpec_set_Permissions].
Qed.
End messages.

Section messages_of_lists.
Lemma PreStartContainerRequest_consumes m :
  consumes "PreStartContainerRequest" PreStartContainerRequest_field
    (PreStartContainerRequest_enc m) PreStartContainerRequest_Reset m.
Proof.
  destruct m as [l]. unfold PreStartContainerRequest_enc. cbn [PreStartContainerRequest_DevicesIDs].
  rewrite <- (list_fmap_id l) at 2.
  field_list PreStartContainerRequest_DevicesIDs PreStartContainerRequest_set_DevicesIDs (@id string).
  intros x m' Hx.
  apply (consumes_string _ _ 0xa 1 ""%string) with
    (set := fun v m => PreStartContainerRequest_set_DevicesIDs (PreStartContainerRequest_DevicesIDs m ++ [v]) m); done.
Qed.

Lemma ContainerAllocateRequest_consumes m :
  consumes "ContainerAllocateRequest" ContainerAllocateRequest_field
    (ContainerAllocateRequest_enc m) ContainerAllocateRequest_Reset m.
Proof.
  destruct m as [l]. unfold ContainerAllocateRequest_enc. cbn [ContainerAllocateRequest_DevicesIDs].
  rewrite <- (list_fmap_id l) at 2.
  field_list ContainerAllocateRequest_DevicesIDs ContainerAllocateRequest_set_DevicesIDs (@id string).
  intros x m' Hx.
  apply (consumes_string _ _ 0xa 1 ""%string) with
    (set := fun v m => ContainerAllocateRequest_set_DevicesIDs (ContainerAllocateRequest_DevicesIDs m ++ [v]) m); done.
Qed.
End messages_of_lists.

(** A fresh message unmarshalled from its whole encoding. *)
Ltac unmarshal_whole cons tot :=
  intros Hlen; apply consumes_unmarshal; [apply tot|done|by apply cons].

Section nested_messages.
Lemma DevicePluginOptions_decode m :
  slen (DevicePluginOptions_enc m) < max_slice ->
  DevicePluginOptions_Unmarshal DevicePluginOptions_Reset (DevicePluginOptions_enc m) = Ok m.
Proof. unmarshal_whole DevicePluginOptions_consumes DevicePluginOptions_field_total. Qed.

Lemma Device_decode m :
  slen (Device_enc m) < max_slice -> Device_Unmarshal Device_Reset (Device_enc m) = Ok m.
Proof. unmarshal_whole Device_consumes Device_field_total. Qed.

Lemma Mount_decode m :
  slen (Mount_enc m) < max_slice -> Mount_Unmarshal Mount_Reset (Mount_enc m) = Ok m.
Proof. unmarshal_whole Mount_consumes Mount_field_total. Qed.

Lemma DeviceSpec_decode m :
  slen (DeviceSpec_enc m) < max_slice ->
  DeviceSpec_Unmarshal DeviceSpec_Reset (DeviceSpec_enc m) = Ok m.
Proof. unmarshal_whole DeviceSpec_consumes DeviceSpec_field_total. Qed.

Lemma ContainerAllocateRequest_decode m :
  slen (ContainerAllocateRequest_enc m) < max_slice ->
  ContainerAllocateRequest_Unmarshal ContainerAllocateRequest_Reset (ContainerAllocateRequest_enc m) = Ok m.
Proof. unmarshal_whole ContainerAllocateRequest_consumes ContainerAllocateRequest_field_total. Qed.

Lemma RegisterRequest_consumes m :
  slen (RegisterRequest_enc m) < max_slice ->
  consumes "RegisterRequest" RegisterRequest_field (RegisterRequest_enc m) RegisterRequest_Reset m.
Proof.
  destruct m as [v e r o]. intros Hlen.
  next; [field_string 1 RegisterRequest_set_Version|].
  next; [field_string 2 RegisterRequest_set_Endpoint|].
  next; [field_string 3 RegisterRequest_set_ResourceName|]. cbn [RegisterRequest_Options].
  destruct o as [o|]; [|apply consumes_nil].
  apply (consumes_message _ _ 0x22 4 ""%string) with
    (u := DevicePluginOptions_Unmarshal DevicePluginOptions_Reset)
    (set := fun v m => RegisterRequest_set_Options (Some v) m) (x := o); try done.
  apply DevicePluginOptions_decode. unfold RegisterRequest_enc in Hlen.
  do 3 apply slen_app_bound in Hlen as [_ Hlen]. cbn [RegisterRequest_Options] in Hlen.
  pose proof (slen_delimited_gt 0x22 (DevicePluginOptions_enc o)). lia.
Qed.

Lemma ListAndWatchResponse_consumes m :
  slen (ListAndWatchResponse_enc m) < max_slice ->
  consumes "ListAndWatchResponse" ListAndWatchResponse_field (ListAndWatchResponse_enc m)
    ListAndWatchResponse_Reset m.
Proof.
  destruct m as [l]. unfold ListAndWatchResponse_enc. cbn [ListAndWatchResponse_Devices]. intros Hlen.
  rewrite <- (list_fmap_id l) at 2.
  field_list ListAndWatchResponse_Devices ListAndWatchResponse_set_Devices (@id Device).
  intros x m' Hx. apply (consumes_message _ _ 0xa 1 ""%string) with (u := Device_Unmarshal Device_Reset)
    (set := fun v m => ListAndWatchResponse_set_Devices (ListAndWatchResponse_Devices m ++ [v]) m); try done.
  by eapply Device_decode, slen_elem_bound.
Qed.

Lemma AllocateRequest_consumes m :
  slen (AllocateRequest_enc m) < max_slice ->
  consumes "AllocateRequest" AllocateRequest_field (AllocateRequest_enc m) AllocateRequest_Reset m.
Proof.
  destruct m as [l]. unfold AllocateRequest_enc. cbn [AllocateRequest_ContainerRequests]. intros Hlen.
  rewrite <- (list_fmap_id l) at 2.
  field_list AllocateRequest_ContainerRequests AllocateRequest_set_ContainerRequests
    (@id ContainerAllocateRequest).
  intros x m' Hx. apply (consumes_message _ _ 0xa 1 ""%string) with
    (u := ContainerAllocateRequest_Unmarshal ContainerAllocateRequest_Reset)
    (set := fun v m => AllocateRequest_set_ContainerRequests (AllocateRequest_ContainerRequests m ++ [v]) m);
    try done.
  by eapply ContainerAllocateRequest_decode, slen_elem_bound.
Qed.

Lemma ContainerAllocateResponse_consumes o m :
  slen (ContainerAllocateResponse_enc o m) < max_slice ->
  consumes "ContainerAllocateResponse" ContainerAllocateResponse_field
    (ContainerAllocateResponse_enc o m) ContainerAllocateResponse_Reset m.
Proof.
  destruct m as [envs mounts devs anns]. unfold ContainerAllocateResponse_enc.
  cbn [ContainerAllocateResponse_Envs ContainerAllocateResponse_Mounts
       ContainerAllocateResponse_Devices ContainerAllocateResponse_Annotations].
  intros [_ [Hm [Hd _]%slen_app_bound]%slen_app_bound]%slen_app_bound.
  rewrite <- (list_fmap_id mounts) at 2. rewrite <- (list_fmap_id devs) at 2.
  next; [field_map 1 ContainerAllocateResponse_Envs ContainerAllocateResponse_set_Envs|].
  next.
  { field_list ContainerAllocateResponse_Mounts ContainerAllocateResponse_set_Mounts (@id Mount).
    intros x m' Hx. apply (consumes_message _ _ 0x12 2 ""%string) with (u := Mount_Unmarshal Mount_Reset)
      (set := fun v m => ContainerAllocateResponse_set_Mounts
                           (ContainerAllocateResponse_Mounts m ++ [v]) m); try done.
    by eapply Mount_decode, slen_elem_bound. }
  next.
  { field_list ContainerAllocateResponse_Devices ContainerAllocateResponse_set_Devices (@id DeviceSpec).
    intros x m' Hx. apply (consumes_message _ _ 0x1a 3 ""%string) with
      (u := DeviceSpec_Unmarshal DeviceSpec_Reset)
      (set := fun v m => ContainerAllocateResponse_set_Devices
                           (ContainerAllocateResponse_Devices m ++ [v]) m); try done.
    by eapply DeviceSpec_decode, slen_elem_bound. }
  field_map 4 ContainerAllocateResponse_Annotations ContainerAllocateResponse_set_Annotations.
Qed.

Lemma ContainerAllocateResponse_decode o m :
  slen (ContainerAllocateResponse_enc o m) < max_slice ->
  ContainerAllocateResponse_Unmarshal ContainerAllocateResponse_Reset
    (ContainerAllocateResponse_enc o m) = Ok m.
Proof. unmarshal_whole ContainerAllocateResponse_consumes ContainerAllocateResponse_field_total. Qed.

Lemma snd_indexed {A} (l : list A) : snd <$> indexed l = l.
Proof. unfold indexed. rewrite fmap_imap. apply list_eq. intros i. by rewrite list_lookup_imap, option_fmap_id. Qed.

Lemma AllocateResponse_consumes om m :
  slen (AllocateResponse_enc om m) < max_slice ->
  consumes "AllocateResponse" AllocateResponse_field (AllocateResponse_enc om m)
    AllocateResponse_Reset m.
Proof.
  destruct m as [l]. unfold AllocateResponse_enc. cbn [AllocateResponse_ContainerResponses]. intros Hlen.
  rewrite <- (snd_indexed l) at 2.
  field_list AllocateResponse_ContainerResponses AllocateResponse_set_ContainerResponses
    (@snd nat ContainerAllocateResponse).
  intros [k x] m' Hx. apply (consumes_message _ _ 0xa 1 ""%string) with
    (u := ContainerAllocateResponse_Unmarshal ContainerAllocateResponse_Reset)
    (set := fun v m => AllocateResponse_set_ContainerResponses (AllocateResponse_ContainerResponses m ++ [v]) m);
    try done.
  apply (ContainerAllocateResponse_decode (om k)).
  pose proof (slen_bind_elem (fun '(k, x) => delimited 0xa (ContainerAllocateResponse_enc (om k) x)) _ _ Hx).
  pose proof (slen_delimited_gt 0xa (ContainerAllocateResponse_enc (om k) x)). cbn in *. lia.
Qed.
End nested_messages.
