(* ===== verification/ApiSkip.v ===== *)
(** * Unknown fields

    [skipApi] measures the field at the start of a slice so that [Unmarshal] can
    step over fields it does not know.  [raw_field] is the grammar of protobuf
    fields (five wire types, groups nested to any depth) and [raw_enc] their
    encoding; [skipApi] returns exactly the length of a well-formed field, and
    so unknown fields do not disturb the messages they are mixed with. *)

From stdpp Require Import base list strings gmap.
From Stdlib Require Import ZArith Strings.Byte Lia.
From S2P Require Import Prelude Buf Wire Api ApiMarshal ApiUnmarshal ApiTotal ApiRoundTrip.
Open Scope Z_scope.

Inductive raw_field : Type :=
| RVarint (num v : Z)
| RFixed64 (num : Z) (b : list byte)
| RDelimited (num : Z) (b : list byte)
| RGroup (num : Z) (fields : list raw_field)
| RFixed32 (num : Z) (b : list byte).

Definition raw_num (f : raw_field) : Z :=
  match f with
  | RVarint n _ | RFixed64 n _ | RDelimited n _ | RGroup n _ | RFixed32 n _ => n
  end.

Definition raw_tag (num wireType : Z) : list byte := uvarint (num * 8 + wireType).

Fixpoint raw_enc (f : raw_field) : list byte :=
  match f with
  | RVarint n v => raw_tag n 0 ++ uvarint v
  | RFixed64 n b => raw_tag n 1 ++ b
  | RDelimited n b => raw_tag n 2 ++ uvarint (slen b) ++ b
  | RGroup n l => raw_tag n 3 ++ foldr (fun f e => raw_enc f ++ e) [] l ++ raw_tag n 4
  | RFixed32 n b => raw_tag n 5 ++ b
  end.

(** Field numbers are below 2^29, varints fit 64 bits and fixed words have
    their width. *)
Fixpoint raw_wf (f : raw_field) : Prop :=
  0 < raw_num f < 2 ^ 29 /\
  match f with
  | RVarint _ v => 0 <= v < 2 ^ 64
  | RFixed64 _ b => slen b = 8
  | RFixed32 _ b => slen b = 4
  | RDelimited _ b => True
  | RGroup _ l => foldr (fun f P => raw_wf f /\ P) True l
  end.

Section raw_ind.
Context (P : raw_field -> Prop).
Hypothesis Hvarint : forall n v, P (RVarint n v).
Hypothesis Hfixed64 : forall n b, P (RFixed64 n b).
Hypothesis Hdelimited : forall n b, P (RDelimited n b).
Hypothesis Hgroup : forall n l, Forall P l -> P (RGroup n l).
Hypothesis Hfixed32 : forall n b, P (RFixed32 n b).

Fixpoint raw_field_ind' (f : raw_field) : P f :=
  match f with
  | RVarint n v => Hvarint n v
  | RFixed64 n b => Hfixed64 n b
  | RDelimited n b => Hdelimited n b
  | RGroup n l =>
      Hgroup n l ((fix go l := match l return Forall P l with
                   | [] => List.Forall_nil _
                   | f :: l => List.Forall_cons _ _ _ (raw_field_ind' f) (go l)
                   end) l)
  | RFixed32 n b => Hfixed32 n b
  end.
End raw_ind.

Definition group_enc (l : list raw_field) : list byte := foldr (fun f e => raw_enc f ++ e) [] l.

Lemma raw_tag_range n w : 0 < n < 2 ^ 29 -> 0 <= w < 8 -> 0 <= n * 8 + w < 2 ^ 64.
Proof. lia. Qed.

Lemma tag_wire n w : 0 <= w < 8 -> Z.land (n * 8 + w) 7 = w.
Proof.
  intros. change 7 with (Z.ones 3). rewrite Z.land_ones by lia. change (2 ^ 3) with 8.
  rewrite Z.add_comm, Z.mod_add, Z.mod_small; lia.
Qed.

Lemma tag_num n w : 0 < n < 2 ^ 29 -> 0 <= w < 8 -> int32 (Z.shiftr (n * 8 + w) 3) = n.
Proof.
  intros. rewrite Z.shiftr_div_pow2 by lia. change (2 ^ 3) with 8.
  rewrite Z.add_comm, Z.div_add, Z.div_small by lia. rewrite int32_small; lia.
Qed.

(** Every field starts with its tag, and its wire type is not that of an
    end-group. *)
Lemma raw_enc_tag f :
  raw_wf f -> exists w rest, raw_enc f = uvarint (raw_num f * 8 + w) ++ rest /\
    0 <= w < 8 /\ w <> 4 /\ 0 < raw_num f < 2 ^ 29.
Proof.
  intros Hwf. destruct f; simpl in *; destruct Hwf as [Hn _]; eexists _, _;
    (split; [unfold raw_tag; reflexivity|]); lia.
Qed.

Lemma slen_raw_enc_pos f : 1 <= slen (raw_enc f).
Proof.
  destruct f; simpl; unfold raw_tag; rewrite slen_app;
    match goal with |- _ <= slen (uvarint ?a) + slen ?b =>
      pose proof (slen_uvarint_range a); pose proof (slen_nonneg b) end; lia.
Qed.

(** What is to be shown of a field, for enough fuel. *)
Definition skips (f : raw_field) : Prop :=
  forall fuel rest, raw_wf f -> slen (raw_enc f ++ rest) < max_slice ->
    (length (raw_enc f) <= fuel)%nat ->
    skip_loop fuel (raw_enc f ++ rest) = Ok (slen (raw_enc f)).

Lemma skip_group_correct skip n l :
  0 < n < 2 ^ 29 ->
  forall fuel pre rest,
    (forall f s, f ∈ l -> slen (raw_enc f ++ s) < max_slice -> slen (raw_enc f) <= slen (group_enc l) ->
       skip (raw_enc f ++ s) = Ok (slen (raw_enc f))) ->
    foldr (fun f P => raw_wf f /\ P) True l ->
    slen (pre ++ group_enc l ++ raw_tag n 4 ++ rest) < max_slice ->
    (length l < fuel)%nat ->
    skip_group skip fuel (pre ++ group_enc l ++ raw_tag n 4 ++ rest) (slen pre) =
      Ok (slen pre + slen (group_enc l) + slen (raw_tag n 4)).
Proof.
  intros Hn. induction l as [|f l IH]; intros fuel pre rest Hskip Hwf Hlen Hfuel;
    (destruct fuel as [|fuel]; [simpl in *; lia|]); cbn [skip_group group_enc foldr app].
  - unfold raw_tag. rewrite (read_uint64_correct (n * 8 + 4) pre rest) by lia. cbn.
    rewrite tag_wire by lia. rewrite Z.eqb_refl. f_equal. rewrite slen_nil. lia.
  - cbn [group_enc foldr] in Hlen, Hskip. fold (group_enc l) in *. destruct Hwf as [Hf Hwf].
    destruct (raw_enc_tag f Hf) as (w & r & Henc & Hw & Hw4 & Hnum).
    set (d := pre ++ (raw_enc f ++ group_enc l) ++ raw_tag n 4 ++ rest) in *.
    assert (d = pre ++ uvarint (raw_num f * 8 + w) ++ r ++ group_enc l ++ raw_tag n 4 ++ rest) as Hd
      by (unfold d; rewrite Henc, <- !app_assoc; done).
    rewrite (read_uint64_at _ pre _ d _ (raw_tag_range _ _ Hnum Hw) Hd eq_refl). cbn [mbind res_bind].
    rewrite tag_wire by done. destruct (Z.eqb_spec w 4); [done|].
    assert (slice_from (E:=api_error) d (slen pre) = Ok ((raw_enc f ++ group_enc l) ++ raw_tag n 4 ++ rest)) as ->.
    { unfold slice_from, d. rewrite slen_app.
      pose proof (slice_app (E:=api_error) pre ((raw_enc f ++ group_enc l) ++ raw_tag n 4 ++ rest) []) as Hs.
      by rewrite !app_nil_r in Hs. }
    cbn [mbind res_bind]. rewrite <- app_assoc.
    pose proof (slen_nonneg pre). pose proof (slen_nonneg (group_enc l)).
    rewrite Hskip.
    2: left. 3: rewrite slen_app; lia.
    2: { unfold d in Hlen. rewrite <- app_assoc, slen_app in Hlen. lia. }
    cbn [mbind res_bind].
    assert (slen pre + slen (raw_enc f) < 2 ^ 62).
    { unfold d, max_slice in Hlen. rewrite !slen_app in Hlen.
      pose proof (slen_nonneg (raw_tag n 4)). pose proof (slen_nonneg rest). lia. }
    pose proof (slen_nonneg (raw_enc f)). rewrite int64_small by lia.
    rewrite <- slen_app. unfold d in *. rewrite <- (app_assoc (raw_enc f)) in *.
    rewrite (app_assoc pre) in *. rewrite IH; [|..|done|done|simpl in *; lia].
    + rewrite !slen_app. f_equal. lia.
    + intros g s Hg Hs Hle. apply Hskip; [by right|done|]. rewrite slen_app. lia.
Qed.

Lemma read_uint64_head v rest :
  0 <= v < 2 ^ 64 -> read_uint64 (uvarint v ++ rest) 0 = Ok (v, slen (uvarint v)).
Proof. intros Hv. pose proof (read_uint64_correct v [] rest Hv) as Hr. by rewrite slen_nil in Hr. Qed.

Lemma slen_group_elem f l : f ∈ l -> slen (raw_enc f) <= slen (group_enc l).
Proof.
  induction 1 as [f l|f g l _ IH]; cbn [group_enc foldr]; fold (group_enc l); rewrite slen_app.
  - pose proof (slen_nonneg (group_enc l)). lia.
  - pose proof (slen_nonneg (raw_enc g)). lia.
Qed.

Lemma raw_wf_elem f l : f ∈ l -> foldr (fun f P => raw_wf f /\ P) True l -> raw_wf f.
Proof. induction 1; simpl; tauto. Qed.

Lemma length_group l : Z.of_nat (length l) <= slen (group_enc l).
Proof.
  induction l as [|f l IH]; [done|]. cbn [group_enc foldr length]. fold (group_enc l).
  rewrite slen_app. pose proof (slen_raw_enc_pos f). lia.
Qed.

Ltac skip_tag :=
  match goal with
  | Hw : 0 < ?n < 2 ^ 29 |- context [raw_tag ?n ?w ++ ?r] =>
      unfold raw_tag at 1; rewrite (read_uint64_head _ _ (raw_tag_range n w Hw ltac:(lia)));
      cbn [mbind res_bind]; rewrite (tag_wire n w) by lia
  end.

Lemma skip_loop_correct f : skips f.
Proof.
  induction f as [n v|n b|n b|n l IH|n b] using raw_field_ind';
    intros [|fuel] rest [Hn Hwf] Hlen Hfuel; cbn [raw_num] in Hn;
    try (match type of Hfuel with (length (raw_enc ?f) <= 0)%nat =>
           pose proof (slen_raw_enc_pos f); unfold slen in *; lia end);
    cbn [skip_loop];
    (match goal with |- context [slen ?d <=? 0] => destruct (Z.leb_spec (slen d) 0) as [Hd|_] end;
     [rewrite slen_app in Hd; pose proof (slen_nonneg rest);
      match type of Hd with context [raw_enc ?f] => pose proof (slen_raw_enc_pos f) end; lia|]);
    cbn [raw_enc] in *; fold group_enc in *; rewrite <- !app_assoc in *; skip_tag.
  - rewrite read_uint64_correct by done. cbn. by rewrite slen_app.
  - by rewrite slen_app, Hwf.
  - rewrite !slen_app in Hlen. pose proof (slen_nonneg b). pose proof (slen_nonneg rest).
    pose proof (slen_uvarint_range (slen b)). pose proof (slen_uvarint_range (n * 8 + 2)).
    unfold max_slice, raw_tag in Hlen. rewrite read_int_correct by lia.
    cbn [mbind res_bind]. destruct (Z.ltb_spec (slen b) 0); [lia|].
    rewrite !slen_app. unfold raw_tag in *. rewrite int64_small by lia. f_equal. lia.
  - fold (group_enc l) in *.
    rewrite (skip_group_correct _ n l Hn); [rewrite !slen_app; f_equal; unfold raw_tag; lia| |done|done|].
    + intros f s Hf Hs Hle. rewrite List.Forall_forall in IH. apply IH; [by apply list_elem_of_In| |done|].
      * by eapply raw_wf_elem.
      * rewrite !length_app in Hfuel. pose proof (slen_uvarint_range (n * 8 + 3)).
        unfold raw_tag, slen in *. lia.
    + rewrite length_app. pose proof (length_group l). rewrite !length_app. unfold slen in *. lia.
  - by rewrite slen_app, Hwf.
Qed.

(** [skipApi] returns the length of the field at the start of its argument. *)
Lemma skipApi_correct f rest :
  raw_wf f -> slen (raw_enc f ++ rest) < max_slice ->
  skipApi (raw_enc f ++ rest) = Ok (slen (raw_enc f)).
Proof. intros. apply skip_loop_correct; [done|done|]. rewrite length_app. lia. Qed.

(** A field that the [switch] does not know leaves the message as it is. *)
Lemma consumes_unknown {M} name (field : field_switch M) m f :
  raw_wf f -> (forall dAtA wireType i, field m dAtA (raw_num f) wireType i = None) ->
  consumes name field (raw_enc f) m m.
Proof.
  intros Hwf Hunk pre post Hlen. exists 1%nat. intros fuel. cbn [unmarshal_loop Nat.add].
  destruct (raw_enc_tag f Hwf) as (w & r & Henc & Hw & Hw4 & Hnum).
  pose proof (slen_raw_enc_pos f). pose proof (slen_nonneg post). pose proof (slen_nonneg pre).
  destruct (Z.ltb_spec (slen pre) (slen (pre ++ raw_enc f ++ post))) as [_|Hge].
  2: { rewrite !slen_app in Hge. lia. }
  rewrite (read_uint64_at (raw_num f * 8 + w) pre (r ++ post));
    [|lia|by rewrite Henc, <- !app_assoc|done].
  cbn [mbind res_bind]. rewrite tag_num, tag_wire by lia.
  destruct (Z.eqb_spec w 4); [done|]. destruct (Z.leb_spec (raw_num f) 0); [lia|].
  rewrite Hunk. unfold skip_field.
  assert (slice_from (E:=api_error) (pre ++ raw_enc f ++ post) (slen pre) = Ok (raw_enc f ++ post)) as ->.
  { unfold slice_from. rewrite slen_app.
    pose proof (slice_app (E:=api_error) pre (raw_enc f ++ post) []) as Hs. by rewrite !app_nil_r in Hs. }
  assert (slen (raw_enc f ++ post) < max_slice) by (rewrite slen_app in Hlen; lia).
  cbn [mbind res_bind]. rewrite skipApi_correct by done. cbn [mbind res_bind].
  destruct (Z.ltb_spec (slen (raw_enc f)) 0); [lia|].
  rewrite !slen_app in *. unfold max_slice in *. rewrite int64_small by lia.
  match goal with |- context [?a <? ?b] => destruct (Z.ltb_spec a b) end; [lia|done].
Qed.
