(* ===== verification/ApiRegistry.v ===== *)
(** * The registered messages and their marshalling contract

    api.pb.go registers thirteen message types ([init]); the gRPC codec handles
    them through the interface of [Marshal], [Unmarshal] and [Reset].  Here the
    types are one enumeration with the operations dispatched on it, and the
    theorems state the contract for all of them: marshalling writes exactly
    [Size] bytes, unmarshalling always ends, the two are inverse whatever the
    order in which maps are visited, and unknown fields are skipped. *)

From stdpp Require Import base list strings gmap.
From Stdlib Require Import ZArith Strings.Byte Lia.
From S2P Require Import Prelude Buf Wire Api ApiMarshal ApiUnmarshal ApiTotal ApiRoundTrip ApiSkip.
Open Scope Z_scope.

Inductive message_type : Type :=
| TDevicePluginOptions
| TRegisterRequest
| TEmpty
| TListAndWatchResponse
| TDevice
| TPreStartContainerRequest
| TPreStartContainerResponse
| TAllocateRequest
| TContainerAllocateRequest
| TAllocateResponse
| TContainerAllocateResponse
| TMount
| TDeviceSpec.

#[export] Instance message_type_eq_dec : EqDecision message_type.
Proof. solve_decision. Defined.

(** The Go type of a message, and the name it is registered under. *)
Definition message (t : message_type) : Type :=
  match t with
  | TDevicePluginOptions => DevicePluginOptions
  | TRegisterRequest => RegisterRequest
  | TEmpty => Empty
  | TListAndWatchResponse => ListAndWatchResponse
  | TDevice => Device
  | TPreStartContainerRequest => PreStartContainerRequest
  | TPreStartContainerResponse => PreStartContainerResponse
  | TAllocateRequest => AllocateRequest
  | TContainerAllocateRequest => ContainerAllocateRequest
  | TAllocateResponse => AllocateResponse
  | TContainerAllocateResponse => ContainerAllocateResponse
  | TMount => Mount
  | TDeviceSpec => DeviceSpec
  end.

Definition registered_name (t : message_type) : string :=
  match t with
  | TDevicePluginOptions => "v1beta1.DevicePluginOptions"
  | TRegisterRequest => "v1beta1.RegisterRequest"
  | TEmpty => "v1beta1.Empty"
  | TListAndWatchResponse => "v1beta1.ListAndWatchResponse"
  | TDevice => "v1beta1.Device"
  | TPreStartContainerRequest => "v1beta1.PreStartContainerRequest"
  | TPreStartContainerResponse => "v1beta1.PreStartContainerResponse"
  | TAllocateRequest => "v1beta1.AllocateRequest"
  | TContainerAllocateRequest => "v1beta1.ContainerAllocateRequest"
  | TAllocateResponse => "v1beta1.AllocateResponse"
  | TContainerAllocateResponse => "v1beta1.ContainerAllocateResponse"
  | TMount => "v1beta1.Mount"
  | TDeviceSpec => "v1beta1.DeviceSpec"
  end.

(** The orders in which the [range] statements of one [Marshal] visit maps: of
    [Size] at the top, of the [Size] calls inside [MarshalTo], and of [MarshalTo].
    The argument is the index of a container response. *)
Record ranges : Type := {
  range_size : nat -> entry_order;
  range_inner_size : nat -> entry_order;
  range_marshal : nat -> entry_order;
}.

Definition Reset (t : message_type) : message t :=
  match t with
  | TDevicePluginOptions => DevicePluginOptions_Reset
  | TRegisterRequest => RegisterRequest_Reset
  | TEmpty => Empty_Reset
  | TListAndWatchResponse => ListAndWatchResponse_Reset
  | TDevice => Device_Reset
  | TPreStartContainerRequest => PreStartContainerRequest_Reset
  | TPreStartContainerResponse => PreStartContainerResponse_Reset
  | TAllocateRequest => AllocateRequest_Reset
  | TContainerAllocateRequest => ContainerAllocateRequest_Reset
  | TAllocateResponse => AllocateResponse_Reset
  | TContainerAllocateResponse => ContainerAllocateResponse_Reset
  | TMount => Mount_Reset
  | TDeviceSpec => DeviceSpec_Reset
  end.

Definition Size (t : message_type) (r : ranges) : message t -> Z :=
  match t with
  | TDevicePluginOptions => DevicePluginOptions_Size
  | TRegisterRequest => RegisterRequest_Size
  | TEmpty => Empty_Size
  | TListAndWatchResponse => ListAndWatchResponse_Size
  | TDevice => Device_Size
  | TPreStartContainerRequest => PreStartContainerRequest_Size
  | TPreStartContainerResponse => PreStartContainerResponse_Size
  | TAllocateRequest => AllocateRequest_Size
  | TContainerAllocateRequest => ContainerAllocateRequest_Size
  | TAllocateResponse => AllocateResponse_Size (range_size r)
  | TContainerAllocateResponse => ContainerAllocateResponse_Size (range_size r 0)
  | TMount => Mount_Size
  | TDeviceSpec => DeviceSpec_Size
  end.

Definition MarshalTo (t : message_type) (r : ranges)
  : message t -> list byte -> res api_error (Z * list byte) :=
  match t with
  | TDevicePluginOptions => DevicePluginOptions_MarshalTo
  | TRegisterRequest => RegisterRequest_MarshalTo
  | TEmpty => Empty_MarshalTo
  | TListAndWatchResponse => ListAndWatchResponse_MarshalTo
  | TDevice => Device_MarshalTo
  | TPreStartContainerRequest => PreStartContainerRequest_MarshalTo
  | TPreStartContainerResponse => PreStartContainerResponse_MarshalTo
  | TAllocateRequest => AllocateRequest_MarshalTo
  | TContainerAllocateRequest => ContainerAllocateRequest_MarshalTo
  | TAllocateResponse => AllocateResponse_MarshalTo (range_inner_size r) (range_marshal r)
  | TContainerAllocateResponse => ContainerAllocateResponse_MarshalTo (range_marshal r 0)
  | TMount => Mount_MarshalTo
  | TDeviceSpec => DeviceSpec_MarshalTo
  end.

Definition Marshal (t : message_type) (r : ranges) : message t -> res api_error (list byte) :=
  match t with
  | TDevicePluginOptions => DevicePluginOptions_Marshal
  | TRegisterRequest => RegisterRequest_Marshal
  | TEmpty => Empty_Marshal
  | TListAndWatchResponse => ListAndWatchResponse_Marshal
  | TDevice => Device_Marshal
  | TPreStartContainerRequest => PreStartContainerRequest_Marshal
  | TPreStartContainerResponse => PreStartContainerResponse_Marshal
  | TAllocateRequest => AllocateRequest_Marshal
  | TContainerAllocateRequest => ContainerAllocateRequest_Marshal
  | TAllocateResponse => AllocateResponse_Marshal (range_size r) (range_inner_size r) (range_marshal r)
  | TContainerAllocateResponse => ContainerAllocateResponse_Marshal (range_size r 0) (range_marshal r 0)
  | TMount => Mount_Marshal
  | TDeviceSpec => DeviceSpec_Marshal
  end.

Definition switch (t : message_type) : field_switch (message t) :=
  match t with
  | TDevicePluginOptions => DevicePluginOptions_field
  | TRegisterRequest => RegisterRequest_field
  | TEmpty => Empty_field
  | TListAndWatchResponse => ListAndWatchResponse_field
  | TDevice => Device_field
  | TPreStartContainerRequest => PreStartContainerRequest_field
  | TPreStartContainerResponse => PreStartContainerResponse_field
  | TAllocateRequest => AllocateRequest_field
  | TContainerAllocateRequest => ContainerAllocateRequest_field
  | TAllocateResponse => AllocateResponse_field
  | TContainerAllocateResponse => ContainerAllocateResponse_field
  | TMount => Mount_field
  | TDeviceSpec => DeviceSpec_field
  end.

Definition Unmarshal (t : message_type) : message t -> list byte -> res api_error (message t) :=
  match t with
  | TDevicePluginOptions => DevicePluginOptions_Unmarshal
  | TRegisterRequest => RegisterRequest_Unmarshal
  | TEmpty => Empty_Unmarshal
  | TListAndWatchResponse => ListAndWatchResponse_Unmarshal
  | TDevice => Device_Unmarshal
  | TPreStartContainerRequest => PreStartContainerRequest_Unmarshal
  | TPreStartContainerResponse => PreStartContainerResponse_Unmarshal
  | TAllocateRequest => AllocateRequest_Unmarshal
  | TContainerAllocateRequest => ContainerAllocateRequest_Unmarshal
  | TAllocateResponse => AllocateResponse_Unmarshal
  | TContainerAllocateResponse => ContainerAllocateResponse_Unmarshal
  | TMount => Mount_Unmarshal
  | TDeviceSpec => DeviceSpec_Unmarshal
  end.

(** The wire format of a message. *)
Definition enc (t : message_type) (r : ranges) : message t -> list byte :=
  match t with
  | TDevicePluginOptions => DevicePluginOptions_enc
  | TRegisterRequest => RegisterRequest_enc
  | TEmpty => Empty_enc
  | TListAndWatchResponse => ListAndWatchResponse_enc
  | TDevice => Device_enc
  | TPreStartContainerRequest => PreStartContainerRequest_enc
  | TPreStartContainerResponse => PreStartContainerResponse_enc
  | TAllocateRequest => AllocateRequest_enc
  | TContainerAllocateRequest => ContainerAllocateRequest_enc
  | TAllocateResponse => AllocateResponse_enc (range_marshal r)
  | TContainerAllocateResponse => ContainerAllocateResponse_enc (range_marshal r 0)
  | TMount => Mount_enc
  | TDeviceSpec => DeviceSpec_enc
  end.

(** The field numbers a message knows. *)
Definition known (t : message_type) (num : Z) : bool :=
  (1 <=? num) && (num <=?
  match t with
  | TEmpty | TPreStartContainerResponse => 0
  | TDevicePluginOptions | TListAndWatchResponse | TPreStartContainerRequest | TAllocateRequest
  | TContainerAllocateRequest | TAllocateResponse => 1
  | TDevice => 2
  | TMount | TDeviceSpec => 3
  | TRegisterRequest | TContainerAllocateResponse => 4
  end).

(** The name that the errors of [Unmarshal] carry. *)
Definition error_name (t : message_type) : string :=
  match t with
  | TDevicePluginOptions => "DevicePluginOptions"
  | TRegisterRequest => "RegisterRequest"
  | TEmpty => "Empty"
  | TListAndWatchResponse => "ListAndWatchResponse"
  | TDevice => "Device"
  | TPreStartContainerRequest => "PreStartContainerRequest"
  | TPreStartContainerResponse => "PreStartContainerResponse"
  | TAllocateRequest => "AllocateRequest"
  | TContainerAllocateRequest => "ContainerAllocateRequest"
  | TAllocateResponse => "AllocateResponse"
  | TContainerAllocateResponse => "ContainerAllocateResponse"
  | TMount => "Mount"
  | TDeviceSpec => "DeviceSpec"
  end.

(** ** Lemmas *)

Lemma message_contract t r m : message_ok (MarshalTo t r m) (Size t r m) (enc t r m).
Proof.
  destruct t; first
  [ apply ContainerAllocateResponse_ok | apply AllocateResponse_ok
  | apply DevicePluginOptions_ok
  | apply RegisterRequest_ok
  | apply Empty_ok
  | apply ListAndWatchResponse_ok
  | apply Device_ok
  | apply PreStartContainerRequest_ok
  | apply PreStartContainerResponse_ok
  | apply AllocateRequest_ok
  | apply ContainerAllocateRequest_ok
  | apply Mount_ok
  | apply DeviceSpec_ok ].
Qed.

Lemma switch_total t : field_total (switch t).
Proof.
  destruct t; first
  [ apply DevicePluginOptions_field_total
  | apply RegisterRequest_field_total
  | apply Empty_field_total
  | apply ListAndWatchResponse_field_total
  | apply Device_field_total
  | apply PreStartContainerRequest_field_total
  | apply PreStartContainerResponse_field_total
  | apply AllocateRequest_field_total
  | apply ContainerAllocateRequest_field_total
  | apply AllocateResponse_field_total
  | apply ContainerAllocateResponse_field_total
  | apply Mount_field_total
  | apply DeviceSpec_field_total ].
Qed.

Lemma Unmarshal_unfold t m dAtA : Unmarshal t m dAtA = unmarshal (error_name t) (switch t) m dAtA.
Proof. by destruct t. Qed.

Lemma enc_consumed t r m :
  slen (enc t r m) < max_slice -> consumes (error_name t) (switch t) (enc t r m) (Reset t) m.
Proof.
  destruct t; intros Hlen; first
  [ by apply ContainerAllocateResponse_consumes | by apply AllocateResponse_consumes
  | by apply DevicePluginOptions_consumes
  | by apply RegisterRequest_consumes
  | by apply ListAndWatchResponse_consumes
  | by apply Device_consumes
  | by apply PreStartContainerRequest_consumes
  | by apply AllocateRequest_consumes
  | by apply ContainerAllocateRequest_consumes
  | by apply Mount_consumes
  | by apply DeviceSpec_consumes
  | destruct m; apply consumes_nil ].
Qed.

Lemma unknown_fields t num m dAtA wireType i :
  known t num = false -> switch t m dAtA num wireType i = None.
Proof.
  unfold known. intros Hk.
  destruct num as [|p|p]; [by destruct t| |by destruct t].
  destruct t; simpl in *; try done;
    repeat (done || match goal with p : positive |- _ => destruct p end).
Qed.

(** ** The contract *)

(** [Marshal] of every message returns its wire encoding, whose length is [Size].
    The sizes that [MarshalTo] computes on the way never disagree with what is
    written, although each may visit a map in another order. *)
Theorem Marshal_enc t r m :
  slen (enc t r m) < max_slice ->
  Marshal t r m = Ok (enc t r m) /\ Size t r m = slen (enc t r m).
Proof.
  unfold max_slice. intros Hlen.
  pose proof (message_contract t r m) as Hc. destruct (Hc ltac:(lia)) as [_ Hs].
  split; [|done]. rewrite <- (marshal_ok _ _ _ Hc) by lia. by destruct t.
Qed.

(** [MarshalTo] fills the first [Size] bytes of any slice with room for them, and
    leaves the bytes after them alone; it does not index out of range. *)
Theorem MarshalTo_enc t r m buf :
  slen (enc t r m) < max_slice -> Size t r m <= slen buf ->
  MarshalTo t r m buf = Ok (Size t r m, enc t r m ++ drop (length (enc t r m)) buf).
Proof.
  unfold max_slice. intros Hlen Hbuf.
  destruct (message_contract t r m) as [Hm Hs]; [lia|]. rewrite Hs in *. by apply Hm.
Qed.

(** C25: Unmarshalling what was marshalled gives the message back, whatever the
    orders in which the maps were visited. *)
Theorem Unmarshal_Marshal t r m :
  slen (enc t r m) < max_slice -> Marshal t r m ≫= Unmarshal t (Reset t) = Ok m.
Proof.
  intros Hlen. pose proof (message_contract t r m) as Hc. unfold max_slice in *.
  assert (Marshal t r m = Ok (enc t r m)) as ->
    by (rewrite <- (marshal_ok _ _ _ Hc) by lia; by destruct t).
  cbn [mbind res_bind]. rewrite Unmarshal_unfold.
  apply consumes_unmarshal; [apply switch_total|done|by apply enc_consumed].
Qed.

(** C40: [Unmarshal] ends on any bytes, into any message. *)
Theorem Unmarshal_terminates t m dAtA :
  slen dAtA < max_slice -> Unmarshal t m dAtA <> Diverge.
Proof. rewrite Unmarshal_unfold. intros. apply unmarshal_total; [apply switch_total|done]. Qed.

(** Fields with unknown numbers, of any wire type and groups included, may
    stand before and after the encoding of a message: they are skipped. *)
Theorem Unmarshal_unknown t r m before after :
  Forall (fun f => raw_wf f /\ known t (raw_num f) = false) (before ++ after) ->
  slen ((before ≫= raw_enc) ++ enc t r m ++ (after ≫= raw_enc)) < max_slice ->
  Unmarshal t (Reset t) ((before ≫= raw_enc) ++ enc t r m ++ (after ≫= raw_enc)) = Ok m.
Proof.
  intros Hunk Hlen. rewrite Unmarshal_unfold.
  assert (forall l m, Forall (fun f => raw_wf f /\ known t (raw_num f) = false) l ->
    consumes (error_name t) (switch t) (l ≫= raw_enc) m m) as Hskip.
  { clear. intros l m. induction 1 as [|f l [Hwf Hk] _ IH]; [apply consumes_nil|].
    rewrite bind_cons. eapply consumes_app; [|exact IH].
    apply consumes_unknown; [done|]. intros. by apply unknown_fields. }
  apply Forall_app in Hunk as [Hb Ha]. pose proof Hlen as Hlen'. rewrite !slen_app in Hlen'.
  pose proof (slen_nonneg (before ≫= raw_enc)). pose proof (slen_nonneg (after ≫= raw_enc)).
  apply consumes_unmarshal; [apply switch_total|done|].
  eapply consumes_app; [by apply Hskip|]. eapply consumes_app; [|by apply Hskip].
  apply enc_consumed. lia.
Qed.

(** The additions [postIndex := iNdEx + length] and [iNdEx + skippy] are not
    guarded against overflow: whatever the message type and the receiver, these
    fourteen bytes (an unknown varint field, then an unknown length-delimited
    field whose length brings the index past 2^63) make [Unmarshal] index its
    slice with a negative number, which is a run-time panic and not an error. *)
Theorem Unmarshal_overflow_panics t m :
  Unmarshal t m (map byte_of_Z [120; 0; 122; 245; 255; 255; 255; 255; 255; 255; 255; 127]) = Panic.
Proof. by destruct t; vm_compute. Qed.

(** ** Witnesses *)

Definition listing : map_order := {| order := map_to_list; order_perm _ := Permutation_refl _ |}.
Definition listing_backwards : map_order :=
  {| order m := reverse (map_to_list m); order_perm _ := reverse_Permutation _ |}.

(** Ranges that visit every other map backwards. *)
Definition some_ranges : ranges :=
  let ab := {| range_Envs := listing; range_Annotations := listing_backwards |} in
  let ba := {| range_Envs := listing_backwards; range_Annotations := listing |} in
  {| range_size _ := ab; range_inner_size _ := ba; range_marshal _ := ba |}.

Definition some_response : AllocateResponse :=
  mkAllocateResponse [mkContainerAllocateResponse
    {[ "ANDROID_BINDER_IDX" := "3"; "A" := "" ]}%string [mkMount "/a" "/b" true]
    [mkDeviceSpec "/dev/binder" "/dev/binder3" "rwm"] {[ "k" := "v"; "l" := "w" ]}%string].

Lemma Unmarshal_Marshal_witness :
  Marshal TAllocateResponse some_ranges some_response ≫= Unmarshal TAllocateResponse (Reset TAllocateResponse)
  = Ok some_response.
Proof. apply Unmarshal_Marshal. by vm_compute. Defined.

Lemma Marshal_enc_witness :
  Marshal TAllocateResponse some_ranges some_response = Ok (enc TAllocateResponse some_ranges some_response) /\
  Size TAllocateResponse some_ranges some_response = slen (enc TAllocateResponse some_ranges some_response).
Proof. apply (Marshal_enc TAllocateResponse). by vm_compute. Defined.

Lemma MarshalTo_enc_witness :
  MarshalTo TDevice some_ranges (mkDevice "binder1" "Healthy") (repeat x00 30) =
  Ok (18, enc TDevice some_ranges (mkDevice "binder1" "Healthy") ++ repeat x00 12).
Proof. apply (MarshalTo_enc TDevice); by vm_compute. Defined.

Lemma Unmarshal_terminates_witness :
  Unmarshal TDevice (Reset TDevice) (map byte_of_Z [11; 10; 200; 12]) <> Diverge.
Proof. apply (Unmarshal_terminates TDevice). by vm_compute. Defined.

Lemma Unmarshal_unknown_witness :
  let before := [RGroup 9 [RVarint 1 300; RGroup 2 [RFixed32 7 (repeat x01 4)]]; RDelimited 5 [x00; xff]] in
  let after := [RFixed64 8 (repeat x02 8)] in
  Unmarshal TDevice (Reset TDevice) ((before ≫= raw_enc) ++
    enc TDevice some_ranges (mkDevice "fuse2" "Healthy") ++ (after ≫= raw_enc)) = Ok (mkDevice "fuse2" "Healthy").
Proof.
  apply (Unmarshal_unknown TDevice); [|by vm_compute].
  repeat constructor; vm_compute; intuition congruence.
Defined.
