(* ===== verification/GoStrings.v ===== *)
(** * The string functions of Go's standard library that the service uses

    [strconv.Itoa], [strings.Contains], [strings.Trim], [strings.LastIndex],
    [path.Base] and [filepath.Clean], on byte strings.  [Trim] is used with an ASCII
    cutset only, for which trimming runes is trimming bytes. *)

From stdpp Require Import base list strings pretty.
From Stdlib Require Import ZArith Strings.Ascii Lia.
From S2P Require Import Prelude.
Open Scope Z_scope.

(** [strconv.Itoa]: stdpp prints integers in base ten, with a minus sign. *)
Definition Itoa (z : Z) : string := pretty z.

(** [strings.HasPrefix] *)
Definition HasPrefix (s p : string) : bool := String.prefix p s.

(** [strings.Contains] *)
Fixpoint Contains (s sub : string) : bool :=
  HasPrefix s sub ||
  match s with
  | EmptyString => false
  | String _ s => Contains s sub
  end.

Fixpoint in_set (c : ascii) (cutset : string) : bool :=
  match cutset with
  | EmptyString => false
  | String d cutset => bool_decide (c = d) || in_set c cutset
  end.

Fixpoint TrimLeft (s cutset : string) : string :=
  match s with
  | EmptyString => EmptyString
  | String c s' => if in_set c cutset then TrimLeft s' cutset else s
  end.

(** Trailing characters: a character goes when all after it went and it is in
    the set. *)
Fixpoint TrimRight (s cutset : string) : string :=
  match s with
  | EmptyString => EmptyString
  | String c s =>
      match TrimRight s cutset with
      | EmptyString => if in_set c cutset then EmptyString else String c EmptyString
      | s => String c s
      end
  end.

(** [strings.Trim] *)
Definition Trim (s cutset : string) : string := TrimRight (TrimLeft s cutset) cutset.

(** The parts of [s] between the slashes. *)
Fixpoint split_slash (s : string) : list string :=
  match s with
  | EmptyString => [EmptyString]
  | String c s =>
      let parts := split_slash s in
      if bool_decide (c = "/"%char) then EmptyString :: parts
      else match parts with
           | p :: parts => String c p :: parts
           | [] => [String c EmptyString]
           end
  end.

(** [strings.LastIndex] of a byte, and the slices before and after an index. *)
Fixpoint LastIndex (s : string) (c : ascii) : option nat :=
  match s with
  | EmptyString => None
  | String d s =>
      match LastIndex s c with
      | Some i => Some (S i)
      | None => if bool_decide (d = c) then Some 0%nat else None
      end
  end.

Fixpoint str_take (n : nat) (s : string) : string :=
  match n, s with
  | S n, String c s => String c (str_take n s)
  | _, _ => EmptyString
  end.

Fixpoint str_drop (n : nat) (s : string) : string :=
  match n, s with
  | S n, String _ s => str_drop n s
  | _, _ => s
  end.

(** [path.Base]: the last element, after trailing slashes are removed. *)
Definition Base (path : string) : string :=
  if bool_decide (path = ""%string) then "." else
  let path := TrimRight path "/" in
  if bool_decide (path = ""%string) then "/" else
  default EmptyString (last (split_slash path)).

(** [filepath.Clean] on Unix: elements are dropped or kept from left to right,
    and ".." takes back the last kept element if there is one to take. *)
Fixpoint clean_parts (rooted : bool) (out : list string) (parts : list string) : list string :=
  match parts with
  | [] => reverse out
  | p :: parts =>
      if bool_decide (p = ""%string) || bool_decide (p = "."%string) then clean_parts rooted out parts
      else if bool_decide (p = ".."%string) then
        match out with
        | o :: out' =>
            if bool_decide (o = ".."%string) then clean_parts rooted (p :: out) parts
            else clean_parts rooted out' parts
        | [] => clean_parts rooted (if rooted then [] else [p]) parts
        end
      else clean_parts rooted (p :: out) parts
  end.

Fixpoint join_slash (parts : list string) : string :=
  match parts with
  | [] => ""
  | [p] => p
  | p :: parts => p +:+ "/" +:+ join_slash parts
  end.

Definition Clean (path : string) : string :=
  if bool_decide (path = ""%string) then "." else
  let rooted := HasPrefix path "/" in
  let out := join_slash (clean_parts rooted [] (split_slash path)) in
  if rooted then "/" +:+ out
  else if bool_decide (out = ""%string) then "." else out.

Example Base_fuse : Base "/dev/fuse" = "fuse"%string.
Proof. reflexivity. Qed.
Example Base_slashes : Base "a/b//" = "b"%string.
Proof. reflexivity. Qed.
Example Clean_plugins : Clean "/var/lib/./kubelet//x/../device-plugins/" = "/var/lib/kubelet/device-plugins"%string.
Proof. reflexivity. Qed.
Example Clean_dots : Clean "../a/../../b" = "../../b"%string.
Proof. reflexivity. Qed.

(** ** Lemmas *)

Lemma HasPrefix_app p s : HasPrefix (p +:+ s) p = true.
Proof.
  induction p as [|c p IH]; [by destruct s|]. unfold HasPrefix in *. simpl.
  rewrite IH. by destruct (ascii_dec c c).
Qed.

Lemma Contains_prefix p s : Contains (p +:+ s) p = true.
Proof.
  pose proof (HasPrefix_app p s) as Hp. destruct (p +:+ s); cbn [Contains]; by rewrite Hp.
Qed.

(** The digits of a printed number are decimal digits. *)
Definition digit (c : ascii) : bool :=
  let n := nat_of_ascii c in (48 <=? n)%nat && (n <=? 57)%nat.

Fixpoint all_chars (P : ascii -> bool) (s : string) : bool :=
  match s with
  | EmptyString => true
  | String c s => P c && all_chars P s
  end.

Lemma digit_pretty_N_char x : digit (pretty_N_char x) = true.
Proof. unfold pretty_N_char. by repeat case_match. Qed.

Lemma pretty_N_go_digits x s :
  all_chars digit s = true -> all_chars digit (pretty_N_go x s) = true.
Proof.
  revert s. induction (N.lt_wf_0 x) as [x _ IH]. intros s Hs.
  destruct (decide (x = 0)%N) as [->|]; [by rewrite pretty_N_go_0|].
  rewrite pretty_N_go_step by lia. apply IH; [apply N.div_lt; lia|].
  simpl. by rewrite digit_pretty_N_char, Hs.
Qed.

Lemma pretty_N_go_nonempty x s : s <> ""%string -> pretty_N_go x s <> ""%string.
Proof.
  revert s. induction (N.lt_wf_0 x) as [x _ IH]. intros s Hs.
  destruct (decide (x = 0)%N) as [->|]; [by rewrite pretty_N_go_0|].
  rewrite pretty_N_go_step by lia. apply IH; [apply N.div_lt; lia|done].
Qed.

Lemma Itoa_nonneg z : 0 <= z -> Itoa z = pretty (Z.to_N z).
Proof. intros. unfold Itoa. destruct z; done. Qed.

Lemma Itoa_digits z : 0 <= z -> all_chars digit (Itoa z) = true /\ Itoa z <> ""%string.
Proof.
  intros. rewrite Itoa_nonneg by done. unfold pretty, pretty_N. case_decide; [done|].
  split; [by apply pretty_N_go_digits|].
  rewrite pretty_N_go_step by lia. by apply pretty_N_go_nonempty.
Qed.

Lemma Itoa_inj x y : Itoa x = Itoa y -> x = y.
Proof. apply pretty_Z_inj. Qed.

(** Trimming a cutset around a string with no character of it. *)
Lemma TrimLeft_all p s cut :
  all_chars (fun c => in_set c cut) p = true -> TrimLeft (p +:+ s) cut = TrimLeft s cut.
Proof.
  induction p as [|c p IH]; simpl; [done|]. intros [Hc Hp]%andb_true_iff. rewrite Hc. auto.
Qed.

Lemma TrimLeft_none s cut : all_chars (fun c => negb (in_set c cut)) s = true -> TrimLeft s cut = s.
Proof. destruct s; simpl; [done|]. intros [Hc _]%andb_true_iff. by destruct (in_set _ _). Qed.

Lemma TrimRight_none s cut : all_chars (fun c => negb (in_set c cut)) s = true -> TrimRight s cut = s.
Proof.
  induction s as [|c s IH]; simpl; [done|]. intros [Hc Hs]%andb_true_iff. rewrite IH by done.
  destruct s; [by destruct (in_set _ _)|done].
Qed.

Lemma all_chars_impl (P Q : ascii -> bool) s :
  (forall c, P c = true -> Q c = true) -> all_chars P s = true -> all_chars Q s = true.
Proof.
  intros HPQ. induction s as [|c s IH]; simpl; [done|].
  intros [Hc Hs]%andb_true_iff. rewrite HPQ, IH; done.
Qed.

Lemma Trim_prefix p s cut :
  all_chars (fun c => in_set c cut) p = true ->
  all_chars (fun c => negb (in_set c cut)) s = true -> Trim (p +:+ s) cut = s.
Proof.
  intros Hp Hs. unfold Trim. rewrite TrimLeft_all by done.
  by rewrite TrimLeft_none, TrimRight_none.
Qed.

(** Digits are not letters. *)
Lemma digit_not_in_set cut :
  all_chars (fun c => negb (digit c)) cut = true ->
  forall c, digit c = true -> negb (in_set c cut) = true.
Proof.
  intros Hcut c Hc. induction cut as [|d cut IH]; simpl in *; [done|].
  apply andb_true_iff in Hcut as [Hd Hcut]. rewrite negb_orb, IH by done.
  case_bool_decide; [subst; by rewrite Hc in Hd|done].
Qed.

Lemma Trim_number p z cut :
  0 <= z -> all_chars (fun c => in_set c cut) p = true ->
  all_chars (fun c => negb (digit c)) cut = true -> Trim (p +:+ Itoa z) cut = Itoa z.
Proof.
  intros Hz Hp Hcut. apply Trim_prefix; [done|].
  eapply all_chars_impl; [by apply digit_not_in_set|]. by apply Itoa_digits.
Qed.


(** The last slash splits a path whose last element has none. *)
Lemma LastIndex_none s c : all_chars (fun d => negb (bool_decide (d = c))) s = true -> LastIndex s c = None.
Proof.
  induction s as [|d s IH]; simpl; [done|]. intros [Hd Hs]%andb_true_iff. rewrite IH by done.
  by destruct (bool_decide (d = c)).
Qed.

Lemma LastIndex_app p s c :
  all_chars (fun d => negb (bool_decide (d = c))) s = true ->
  LastIndex (p +:+ String c s) c = Some (String.length p).
Proof.
  intros Hs. induction p as [|d p IH]; simpl; [|by rewrite IH].
  rewrite LastIndex_none by done. by case_bool_decide.
Qed.

Lemma str_take_app p s : str_take (String.length p) (p +:+ s) = p.
Proof. induction p as [|c p IH]; simpl; [by destruct s|]. by rewrite IH. Qed.

Lemma str_drop_app p c s : str_drop (S (String.length p)) (p +:+ String c s) = s.
Proof. induction p as [|d p IH]; simpl in *; [by destruct s|done]. Qed.
