(* ===== verification/GrpcStatus.v ===== *)
(** * Errors and status codes of gRPC

    The codes package, the status package, and the conversions between Go
    errors and status errors of rpc_util.go ([Errorf], [Code], [ErrorDesc], [toRPCErr],
    [convertCode]).  A Go error is a value of [go_error]: the sentinels that the
    code compares errors with, the error types that it switches on, and
    [errorString] for all the others.  The details of a status are not modelled:
    the code makes none. *)

From stdpp Require Import base list strings.
From Stdlib Require Import ZArith Strings.Ascii Lia.
From S2P Require Import Prelude GoStrings Wire.
Open Scope Z_scope.

(** ** Codes *)

Module codes.
Definition OK : Z := 0.
Definition Canceled : Z := 1.
Definition Unknown : Z := 2.
Definition InvalidArgument : Z := 3.
Definition DeadlineExceeded : Z := 4.
Definition NotFound : Z := 5.
Definition AlreadyExists : Z := 6.
Definition PermissionDenied : Z := 7.
Definition ResourceExhausted : Z := 8.
Definition FailedPrecondition : Z := 9.
Definition Aborted : Z := 10.
Definition OutOfRange : Z := 11.
Definition Unimplemented : Z := 12.
Definition Internal : Z := 13.
Definition Unavailable : Z := 14.
Definition DataLoss : Z := 15.
Definition Unauthenticated : Z := 16.
End codes.

Definition Code_name : string :=
  "OKCanceledUnknownInvalidArgumentDeadlineExceededNotFoundAlreadyExistsPermissionDeniedResourceExhaustedFailedPreconditionAbortedOutOfRangeUnimplementedInternalUnavailableDataLossUnauthenticated".

Definition Code_index : list Z :=
  [0; 2; 10; 17; 32; 48; 56; 69; 85; 102; 120; 127; 137; 150; 158; 169; 177; 192].

(** [String] of a code; the addition is on [uint32], so the largest code passes
    the test and is used as an index. *)
Definition Code_String (i : Z) : res string string :=
  if slen Code_index <=? uint32 (i + 1) then Ok ("Code(" +:+ Itoa i +:+ ")")
  else
    a ← index Code_index i;
    b ← index Code_index (uint32 (i + 1));
    s ← slice (bytes_of Code_name) a b;
    Ok (string_of s).

(** ** Errors *)

Inductive go_error : Type :=
| EOF
| UnexpectedEOF
| ErrClosedPipe
| ErrNoProgress
| ErrShortBuffer
| ErrShortWrite
| ErrInvalid
| ErrCanceled
| ErrDeadlineExceeded
| ErrClientConnClosing
| ErrExist (msg : string)
| ErrNotExist (msg : string)
| ErrPermission (msg : string)
| StreamError (Code : Z) (Desc : string)
| ConnectionError (Desc : string) (temp : bool)
| statusError (Code : Z) (Message : string)
| errorString (msg : string).

#[export] Instance go_error_eq_dec : EqDecision go_error.
Proof. solve_decision. Defined.

(** [strconv.Quote], exact on ASCII strings: other bytes are escaped as the
    bytes of invalid UTF-8 are. *)
Definition hex_digit (n : nat) : string :=
  default "" ((fun c => String c "") <$> (String.list_ascii_of_string "0123456789abcdef" !! n)).

Definition quote_char (c : ascii) : string :=
  let n := nat_of_ascii c in
  if bool_decide (n = 34)%nat then String "\"%char (String (ascii_of_nat 34) "")
  else if bool_decide (n = 92)%nat then "\\"
  else if bool_decide (n = 7)%nat then "\a"
  else if bool_decide (n = 8)%nat then "\b"
  else if bool_decide (n = 12)%nat then "\f"
  else if bool_decide (n = 10)%nat then "\n"
  else if bool_decide (n = 13)%nat then "\r"
  else if bool_decide (n = 9)%nat then "\t"
  else if bool_decide (n = 11)%nat then "\v"
  else if (32 <=? n)%nat && (n <=? 126)%nat then String c ""
  else "\x" +:+ hex_digit (n / 16) +:+ hex_digit (n mod 16).

Definition Quote (s : string) : string :=
  let q := String (ascii_of_nat 34) "" in
  q +:+ String.concat "" (map quote_char (String.list_ascii_of_string s)) +:+ q.

(** ** The status package *)

Record Status : Type := mkStatus { Status_Code : Z; Status_Message : string }.

#[export] Instance Status_eq_dec : EqDecision Status.
Proof. solve_decision. Defined.

Definition New (c : Z) (msg : string) : Status := mkStatus c msg.

(** [Code] and [Message] of a status that may be nil. *)
Definition Status_GetCode (s : option Status) : Z :=
  match s with Some s => Status_Code s | None => codes.OK end.
Definition Status_GetMessage (s : option Status) : string :=
  match s with Some s => Status_Message s | None => "" end.

(** No error, [None], if the code is [OK]. *)
Definition Status_Err (s : Status) : option go_error :=
  if Status_Code s =? codes.OK then None else Some (statusError (Status_Code s) (Status_Message s)).

Definition status_Error (c : Z) (msg : string) : option go_error := Status_Err (New c msg).

(** [status.Errorf], [grpc.Errorf] with the message already formatted. *)
Definition Errorf (c : Z) (msg : string) : option go_error := status_Error c msg.

Definition FromError (err : option go_error) : option Status :=
  match err with
  | None => Some (mkStatus codes.OK "")
  | Some (statusError c msg) => Some (mkStatus c msg)
  | Some _ => None
  end.

(** The name of a code where it is printed: fmt turns a panic of [String] into a
    note in the text. *)
Definition code_text (c : Z) : string :=
  match Code_String c with Ok s => s | _ => "%!s(PANIC=runtime error: index out of range)" end.

(** [Error()] *)
Definition error_string (e : go_error) : string :=
  match e with
  | EOF => "EOF"
  | UnexpectedEOF => "unexpected EOF"
  | ErrClosedPipe => "io: read/write on closed pipe"
  | ErrNoProgress => "multiple Read calls return no data or error"
  | ErrShortBuffer => "short buffer"
  | ErrShortWrite => "short write"
  | ErrInvalid => "invalid argument"
  | ErrCanceled => "context canceled"
  | ErrDeadlineExceeded => "context deadline exceeded"
  | ErrClientConnClosing => "grpc: the client connection is closing"
  | ErrExist msg | ErrNotExist msg | ErrPermission msg => msg
  | StreamError c d => "stream error: code = " +:+ code_text c +:+ " desc = " +:+ Quote d
  | ConnectionError d _ => "connection error: desc = " +:+ Quote d
  | statusError c m => "rpc error: code = " +:+ code_text c +:+ " desc = " +:+ m
  | errorString msg => msg
  end.

(** ** Conversions of rpc_util.go *)

Definition Code (err : option go_error) : Z :=
  match FromError err with Some s => Status_Code s | None => codes.Unknown end.

Definition ErrorDesc (err : go_error) : string :=
  match FromError (Some err) with Some s => Status_Message s | None => error_string err end.

Definition toRPCErr (err : option go_error) : option go_error :=
  match FromError err, err with
  | Some _, _ => err
  | None, Some (StreamError c d) => status_Error c d
  | None, Some (ConnectionError d _) => status_Error codes.Internal d
  | None, Some ErrDeadlineExceeded => status_Error codes.DeadlineExceeded (error_string ErrDeadlineExceeded)
  | None, Some ErrCanceled => status_Error codes.Canceled (error_string ErrCanceled)
  | None, Some ErrClientConnClosing => status_Error codes.FailedPrecondition (error_string ErrClientConnClosing)
  | None, Some e => status_Error codes.Unknown (error_string e)
  | None, None => None
  end.

Definition convertCode (err : option go_error) : Z :=
  match err with
  | None => codes.OK
  | Some EOF => codes.OutOfRange
  | Some ErrClosedPipe | Some ErrNoProgress | Some ErrShortBuffer | Some ErrShortWrite
  | Some UnexpectedEOF => codes.FailedPrecondition
  | Some ErrInvalid => codes.InvalidArgument
  | Some ErrCanceled => codes.Canceled
  | Some ErrDeadlineExceeded => codes.DeadlineExceeded
  | Some (ErrExist _) => codes.AlreadyExists
  | Some (ErrNotExist _) => codes.NotFound
  | Some (ErrPermission _) => codes.PermissionDenied
  | Some _ => codes.Unknown
  end.

(** The errors of the generated unmarshalling code as Go errors. *)
Definition api_go_error (e : api_error) : go_error :=
  match e with
  | ErrInvalidLengthApi => errorString "proto: negative length found during unmarshaling"
  | ErrIntOverflowApi => errorString "proto: integer overflow"
  | ErrUnexpectedEOF => UnexpectedEOF
  | ErrEndGroup m => errorString ("proto: " +:+ m +:+ ": wiretype end group for non-group")
  | ErrIllegalTag m f w =>
      errorString ("proto: " +:+ m +:+ ": illegal tag " +:+ Itoa f +:+ " (wire type " +:+ Itoa w +:+ ")")
  | ErrWrongWireType w f =>
      errorString ("proto: wrong wireType = " +:+ Itoa w +:+ " for field " +:+ f)
  | ErrIllegalWireType w => errorString ("proto: illegal wireType " +:+ Itoa w)
  end.

(** ** Properties *)

Example Code_String_Internal : Code_String codes.Internal = Ok "Internal"%string.
Proof. reflexivity. Qed.
Example Code_String_17 : Code_String 17 = Ok "Code(17)"%string.
Proof. reflexivity. Qed.
Example Quote_newline : Quote ("a" +:+ String (ascii_of_nat 10) "") =
  String (ascii_of_nat 34) ("a\n" +:+ String (ascii_of_nat 34) "").
Proof. reflexivity. Qed.

(** Every error that is converted for the wire carries a status, and converting
    twice is converting once. *)
Lemma FromError_toRPCErr err : exists s, FromError (toRPCErr err) = Some s.
Proof.
  destruct err as [e|]; [|by eexists].
  destruct e; try by eexists.
  unfold toRPCErr, status_Error, Status_Err. simpl. zcases; by eexists.
Qed.

Lemma toRPCErr_status err s : FromError err = Some s -> toRPCErr err = err.
Proof. unfold toRPCErr. intros ->. done. Qed.

Lemma Errorf_some c msg : c <> codes.OK -> Errorf c msg = Some (statusError c msg).
Proof. intros. unfold Errorf, status_Error, Status_Err. simpl. by zcases. Qed.

(** [String] gives every code a text except the largest one, on which it
    panics: [i+1] wraps to 0, which is below the length of the index table. *)
Theorem Code_String_total i :
  0 <= i < 2 ^ 32 -> (exists s, Code_String i = Ok s) \/ (i = 2 ^ 32 - 1 /\ Code_String i = Panic).
Proof.
  intros Hi. destruct (decide (i = 2 ^ 32 - 1)) as [->|Hne]; [by right|left].
  destruct (decide (17 <= i)) as [Hbig|Hsmall].
  - unfold Code_String, uint32. rewrite Z.mod_small by lia.
    replace (slen Code_index) with 18 by done. zcases; [by eexists|lia].
  - rewrite <- (Z2Nat.id i) by lia. assert (Z.to_nat i < 17)%nat as Hn by lia.
    revert Hn. generalize (Z.to_nat i). intros n Hn. clear Hi Hne Hsmall.
    do 17 (destruct n as [|n]; [by eexists; vm_compute|]). lia.
Qed.

Lemma Code_String_total_witness : 
  (exists s, Code_String 2147483648 = Ok s) \/ (2147483648 = 2 ^ 32 - 1 /\ Code_String 2147483648 = Panic).
Proof. apply Code_String_total. lia. Defined.
