(* ===== verification/GrpcTransport.v ===== *)
(** * Receive buffers and flow control of the gRPC transport

    transport.go: [recvBuffer], the unbounded queue between the connection's
    reader and the stream's handler, and [recvBufferReader], which serves it as an
    [io.Reader].  control.go: [quotaPool] and [inFlow], the outbound and inbound
    flow-control accounts.  A mutex-protected method is one step; a channel of
    capacity one is an [option]. *)

From stdpp Require Import base list strings relations.
From Stdlib Require Import ZArith Strings.Byte Lia.
From S2P Require Import Prelude GoStrings GrpcStatus.
Open Scope Z_scope.

(** ** [recvBuffer] *)

(** What a stream's buffer holds: a piece of data, or an error that ends the stream.  The items
    of the transport's own buffer are those of control.go. *)
Record recvMsg : Type := mkRecvMsg { recvMsg_data : list byte; recvMsg_err : option go_error }.

Record recvBuffer (M : Type) : Type := mkRecvBuffer {
  recvBuffer_c : option M;
  recvBuffer_backlog : list M;
}.
Arguments mkRecvBuffer {M}.
Arguments recvBuffer_c {M}.
Arguments recvBuffer_backlog {M}.

Definition newRecvBuffer {M} : recvBuffer M := mkRecvBuffer None [].

Definition recvBuffer_put {M} (b : recvBuffer M) (r : M) : recvBuffer M :=
  match recvBuffer_backlog b, recvBuffer_c b with
  | [], None => mkRecvBuffer (Some r) []
  | l, c => mkRecvBuffer c (l ++ [r])
  end.

Definition recvBuffer_load {M} (b : recvBuffer M) : recvBuffer M :=
  match recvBuffer_backlog b, recvBuffer_c b with
  | r :: l, None => mkRecvBuffer (Some r) l
  | _, _ => b
  end.

(** A receive from the channel that [get] returns; [None] when it blocks. *)
Definition recvBuffer_receive {M} (b : recvBuffer M) : option (M * recvBuffer M) :=
  match recvBuffer_c b with
  | Some r => Some (r, mkRecvBuffer None (recvBuffer_backlog b))
  | None => None
  end.

(** The items in the buffer, in order. *)
Definition items {M} (b : recvBuffer M) : list M := option_list (recvBuffer_c b) ++ recvBuffer_backlog b.

(** The writer's [put]s interleave with the reader's receives, each of which is
    followed by a [load] at some later point.  [in_load] is the reader's program
    counter; the lists are what was put and what was received. *)
Record recv_state : Type := mkRecvState {
  buffer : recvBuffer recvMsg;
  in_load : bool;
  put_log : list recvMsg;
  got_log : list recvMsg;
}.

Inductive recv_step : recv_state -> recv_state -> Prop :=
| step_put b pc ps gs r :
    recv_step (mkRecvState b pc ps gs) (mkRecvState (recvBuffer_put b r) pc (ps ++ [r]) gs)
| step_receive b b' ps gs r :
    recvBuffer_receive b = Some (r, b') ->
    recv_step (mkRecvState b false ps gs) (mkRecvState b' true ps (gs ++ [r]))
| step_load b ps gs :
    recv_step (mkRecvState b true ps gs) (mkRecvState (recvBuffer_load b) false ps gs).

Definition recv_init : recv_state := mkRecvState newRecvBuffer false [] [].

(** What holds between the steps. *)
Definition recv_inv (s : recv_state) : Prop :=
  put_log s = got_log s ++ items (buffer s) /\
  (in_load s = false -> recvBuffer_c (buffer s) = None -> recvBuffer_backlog (buffer s) = []).

(** ** [recvBufferReader] *)

Record recvBufferReader : Type := mkReader {
  reader_done : option go_error;  (* ctx.Err() once the context is done *)
  reader_goAway : bool;           (* the goAway channel is closed *)
  reader_recv : recvBuffer recvMsg;
  reader_last : list byte;        (* what is left of the last item *)
  reader_err : option go_error;
}.

(** [ContextErr]: the context package has no other errors. *)
Definition ContextErr (err : go_error) : res go_error go_error :=
  match err with
  | ErrDeadlineExceeded => Ok (StreamError codes.DeadlineExceeded (error_string err))
  | ErrCanceled => Ok (StreamError codes.Canceled (error_string err))
  | _ => Panic
  end.

Definition ErrStreamDrain : go_error :=
  StreamError codes.Unavailable "the server stops accepting new RPCs".
Definition ErrConnClosing : go_error := ConnectionError "transport is closing" true.

Inductive read_case : Type := CtxDone (err : go_error) | GoAway | Item.

(** The cases of the [select] that are ready; Go takes any one of them, here the
    one that [choice] points at. *)
Definition ready (r : recvBufferReader) : list read_case :=
  match reader_done r with Some e => [CtxDone e] | None => [] end ++
  (if reader_goAway r then [GoAway] else []) ++
  match recvBuffer_c (reader_recv r) with Some _ => [Item] | None => [] end.

(** What a [Read] of at most [n] bytes came to. *)
Inductive read_result : Type :=
| Bytes (b : list byte)
| Failed (e : go_error)
| Blocked
| Panicked.

(** [bytes.Reader.Read]: a drained reader has only [io.EOF] to give. *)
Definition bytes_Read (n : nat) (last : list byte) : read_result * list byte :=
  match last with
  | [] => (Failed EOF, [])
  | _ => (Bytes (take n last), drop n last)
  end.

Definition set_err (r : recvBufferReader) (e : option go_error) : recvBufferReader :=
  mkReader (reader_done r) (reader_goAway r) (reader_recv r) (reader_last r) e.

Definition set_last (r : recvBufferReader) (b : recvBuffer recvMsg) (last : list byte) (e : option go_error)
  : recvBufferReader :=
  mkReader (reader_done r) (reader_goAway r) b last e.

Definition read_error (x : read_result) : option go_error :=
  match x with Failed e => Some e | _ => None end.

Definition Reader_Read (choice : nat) (n : nat) (r : recvBufferReader) : read_result * recvBufferReader :=
  match reader_err r with
  | Some e => (Failed e, r)
  | None =>
      match reader_last r with
      | _ :: _ =>
          let '(x, last) := bytes_Read n (reader_last r) in
          (x, set_last r (reader_recv r) last (read_error x))
      | [] =>
          match ready r !! (choice mod length (ready r))%nat with
          | None => (Blocked, r)
          | Some (CtxDone e) =>
              match ContextErr e with
              | Ok e => (Failed e, set_err r (Some e))
              | _ => (Panicked, r)
              end
          | Some GoAway => (Failed ErrStreamDrain, set_err r (Some ErrStreamDrain))
          | Some Item =>
              match recvBuffer_receive (reader_recv r) with
              | None => (Blocked, r)
              | Some (m, b) =>
                  let b := recvBuffer_load b in
                  match recvMsg_err m with
                  | Some e => (Failed e, set_last r b [] (Some e))
                  | None =>
                      let '(x, last) := bytes_Read n (recvMsg_data m) in
                      (x, set_last r b last (read_error x))
                  end
              end
          end
      end
  end.

(** ** Flow control *)

(** [quotaPool]: positive quota is offered on the channel. *)
Record quotaPool : Type := mkQuotaPool { quotaPool_c : option Z; quotaPool_quota : Z }.

Definition newQuotaPool (q : Z) : quotaPool :=
  if 0 <? q then mkQuotaPool (Some q) 0 else mkQuotaPool None q.

Definition quotaPool_add (qb : quotaPool) (v : Z) : quotaPool :=
  let q := match quotaPool_c qb with Some n => int64 (quotaPool_quota qb + n) | None => quotaPool_quota qb end in
  let q := int64 (q + v) in
  if q <=? 0 then mkQuotaPool None q else mkQuotaPool (Some q) 0.

(** A receive from [acquire()] takes all that is offered. *)
Definition quotaPool_acquire (qb : quotaPool) : option (Z * quotaPool) :=
  match quotaPool_c qb with
  | Some n => Some (n, mkQuotaPool None (quotaPool_quota qb))
  | None => None
  end.

(** [inFlow] *)
Record inFlow : Type := mkInFlow { limit : Z; pendingData : Z; pendingUpdate : Z }.

(** The error and the account after it: the data that went over the limit stays
    in [pendingData]. *)
Definition onData (f : inFlow) (n : Z) : option go_error * inFlow :=
  let f := mkInFlow (limit f) (uint32 (pendingData f + n)) (pendingUpdate f) in
  if limit f <? uint32 (pendingData f + pendingUpdate f) then
    (Some (errorString ("received " +:+ Itoa (uint32 (pendingData f + pendingUpdate f)) +:+
       "-bytes data exceeding the limit " +:+ Itoa (limit f) +:+ " bytes")), f)
  else (None, f).

Definition onRead (f : inFlow) (n : Z) : Z * inFlow :=
  if pendingData f =? 0 then (0, f) else
  let d := uint32 (pendingData f - n) in
  let u := uint32 (pendingUpdate f + n) in
  if limit f / 4 <=? u then (u, mkInFlow (limit f) d 0) else (0, mkInFlow (limit f) d u).

Definition resetPendingData (f : inFlow) : Z * inFlow :=
  (pendingData f, mkInFlow (limit f) 0 (pendingUpdate f)).

(** ** Properties *)

Lemma recv_step_inv s s' : recv_step s s' -> recv_inv s -> recv_inv s'.
Proof.
  unfold recv_inv, items. intros [[c l] pc ps gs r|[c l] b' ps gs r Hr|[c l] ps gs] [Hlog Hpc]; simpl in *.
  - split.
    + subst. unfold recvBuffer_put. destruct c, l; simpl; by rewrite <- ?app_assoc.
    + unfold recvBuffer_put. destruct c, l; simpl; try done. intros Hf _. by specialize (Hpc Hf eq_refl).
  - unfold recvBuffer_receive in Hr. simpl in Hr. destruct c; simplify_eq. simpl in *.
    split; [by rewrite <- app_assoc|done].
  - unfold recvBuffer_load. simpl. destruct c, l; simpl; naive_solver.
Qed.

(** C29: Whatever the interleaving of the connection's reader and the handler, the
    handler receives the items in the order in which they were put and none is
    lost; and an item that is in the buffer when the handler is about to receive
    is on the channel, so that the handler does not block. *)
Theorem recvBuffer_fifo s :
  rtc recv_step recv_init s ->
  put_log s = got_log s ++ items (buffer s) /\
  (in_load s = false -> items (buffer s) <> [] -> is_Some (recvBuffer_receive (buffer s))).
Proof.
  intros Hrun. assert (recv_inv s) as [Hlog Hpc].
  { remember recv_init as s0. assert (recv_inv s0) as Hinit by by subst.
    clear Heqs0. induction Hrun; eauto using recv_step_inv. }
  split; [done|]. intros Hl Hne. unfold recvBuffer_receive, items in *.
  destruct (recvBuffer_c (buffer s)); [done|]. rewrite Hpc in Hne; done.
Qed.

Lemma recvBuffer_fifo_witness :
  let m b := mkRecvMsg b None in
  let s := mkRecvState (mkRecvBuffer (Some (m [x02])) []) false [m [x01]; m [x02]] [m [x01]] in
  put_log s = got_log s ++ items (buffer s) /\
  (in_load s = false -> items (buffer s) <> [] -> is_Some (recvBuffer_receive (buffer s))).
Proof.
  apply recvBuffer_fifo.
  eapply rtc_l; [apply (step_put _ _ _ _ (mkRecvMsg [x01] None))|].
  eapply rtc_l; [by eapply step_receive|].
  eapply rtc_l; [apply (step_put _ _ _ _ (mkRecvMsg [x02] None))|].
  eapply rtc_l; [apply step_load|]. apply rtc_refl.
Defined.

(** [add] and [acquire] conserve quota, and a pool with positive quota offers it. *)
Definition quota_total (qb : quotaPool) : Z := default 0 (quotaPool_c qb) + quotaPool_quota qb.

Definition quota_inv (qb : quotaPool) : Prop :=
  match quotaPool_c qb with
  | Some n => 0 < n < 2 ^ 62 /\ - 2 ^ 62 < quotaPool_quota qb <= 0
  | None => - 2 ^ 62 < quotaPool_quota qb <= 0
  end.

Lemma quotaPool_add_total qb v :
  quota_inv qb -> - 2 ^ 62 < v < 2 ^ 62 -> - 2 ^ 62 < quota_total qb + v < 2 ^ 62 ->
  quota_total (quotaPool_add qb v) = quota_total qb + v /\ quota_inv (quotaPool_add qb v).
Proof.
  unfold quota_inv, quota_total, quotaPool_add. intros Hinv Hv Ht.
  destruct qb as [[n|] q]; simpl in *.
  - rewrite (int64_small (q + n)) by lia. rewrite int64_small by lia. zcases; simpl; lia.
  - rewrite int64_small by lia. zcases; simpl; lia.
Qed.

(** The account of a stream over its life: [received] bytes came in, [granted]
    bytes were given back to the peer as window updates. *)
Inductive flow_event : Type :=
| Data (n : Z)   (* a data frame came in *)
| Consume (n : Z) (* the application read n bytes *).

Record flow_state : Type := mkFlow { flow : inFlow; received : Z; granted : Z }.

(** The peer respects its window, the application reads what there is. *)
Inductive flow_step : flow_state -> flow_state -> Prop :=
| flow_data f r g n f' :
    0 < n -> r + n - g <= limit f -> onData f n = (None, f') ->
    flow_step (mkFlow f r g) (mkFlow f' (r + n) g)
| flow_read f r g n w f' :
    0 < n <= pendingData f -> onRead f n = (w, f') ->
    flow_step (mkFlow f r g) (mkFlow f' r (g + w)).

Definition flow_inv (l : Z) (s : flow_state) : Prop :=
  let f := flow s in
  limit f = l /\ 0 <= pendingData f /\ 0 <= pendingUpdate f /\
  received s - granted s = pendingData f + pendingUpdate f /\
  pendingData f + pendingUpdate f <= l /\
  (pendingUpdate f < l / 4 \/ pendingUpdate f = 0).

Lemma flow_step_inv l s s' : 0 <= l < 2 ^ 31 -> flow_step s s' -> flow_inv l s -> flow_inv l s'.
Proof.
  intros Hl Hstep. unfold flow_inv. destruct Hstep as [f r g n f' Hn Hw Hd|f r g n w f' Hn Hr]; simpl.
  - intros (Hlim & Hp & Hu & Hsum & Hle & Hq). unfold onData in Hd. case_match; simplify_eq. simpl in *.
    unfold uint32 in *. rewrite Z.mod_small by lia. lia.
  - intros (Hlim & Hp & Hu & Hsum & Hle & Hq). unfold onRead, uint32 in Hr.
    destruct (Z.eqb_spec (pendingData f) 0); [lia|].
    rewrite !Z.mod_small in Hr by lia.
    destruct (Z.leb_spec (limit f / 4) (pendingUpdate f + n)); simplify_eq; simpl; lia.
Qed.

(** Inbound flow control accounts for every byte: what was received and not given
    back is what is pending, never above the limit, so a peer that respects its
    window is never refused; and the peer is never starved: when the application
    has read everything, at least three quarters of the window are open. *)
Theorem inFlow_sound l s :
  0 < l < 2 ^ 31 -> rtc flow_step (mkFlow (mkInFlow l 0 0) 0 0) s ->
  received s - granted s = pendingData (flow s) + pendingUpdate (flow s) /\
  (forall n, 0 < n -> received s + n - granted s <= l -> (onData (flow s) n).1 = None) /\
  (pendingData (flow s) = 0 -> l - l / 4 <= l - (received s - granted s)).
Proof.
  intros Hl Hrun. assert (flow_inv l s) as (Hlim & Hp & Hu & Hsum & Hle & Hq).
  { remember (mkFlow _ 0 0) as s0. assert (flow_inv l s0) as Hinit
      by (subst; unfold flow_inv; simpl; lia).
    clear Heqs0. induction Hrun; eauto using flow_step_inv with lia. }
  split; [lia|]. split.
  - intros n Hn Hfit. unfold onData, uint32. rewrite !(Z.mod_small (_ + n)) by lia. simpl.
    rewrite Z.mod_small by lia. zcases; [lia|done].
  - intros Hz. pose proof (Z.div_pos l 4). lia.
Qed.

Lemma inFlow_sound_witness :
  let s := mkFlow (mkInFlow 100 10 0) 60 50 in
  received s - granted s = pendingData (flow s) + pendingUpdate (flow s) /\
  (forall n, 0 < n -> received s + n - granted s <= 100 -> (onData (flow s) n).1 = None) /\
  (pendingData (flow s) = 0 -> 100 - 100 / 4 <= 100 - (received s - granted s)).
Proof.
  apply (inFlow_sound 100); [lia|].
  eapply rtc_l; [apply (flow_data _ 0 0 60 (mkInFlow 100 60 0)); [lia|simpl; lia|reflexivity]|].
  eapply rtc_l; [apply (flow_read (mkInFlow 100 60 0) 60 0 50 50 (mkInFlow 100 10 0)); [simpl; lia|reflexivity]|]. apply rtc_refl.
Defined.
