(* ===== verification/GrpcRpc.v ===== *)
(** * Message framing of gRPC

    codec.go (the proto codec with its pool of buffers) and the part of
    rpc_util.go that frames messages: [encode] and [parser.recvMsg] with their
    five-byte header, [checkRecvPayload] and [recv].  A stream is its receive
    buffer with the reader on it (GrpcTransport); [io.ReadFull] is the loop of the
    standard library.  Compressors are parameters, as in the code, where the
    service installs none.  Statistics handlers and tracing are off in the
    service and are not modelled. *)

From stdpp Require Import base list strings.
From Stdlib Require Import ZArith Strings.Byte Lia.
From S2P Require Import Prelude GoStrings Wire GrpcStatus GrpcTransport.
Open Scope Z_scope.

(** Why a piece of code came to no value: it returned an error, it waits for
    ever, or it ended the process (a [Fatal] log entry). *)
Inductive stop : Type := Raise (e : go_error) | Block | Exit (code : Z).

#[export] Instance stop_eq_dec : EqDecision stop.
Proof. solve_decision. Defined.

(** ** Reading from a stream *)

Record Stream : Type := mkStream {
  Stream_method : string;
  Stream_recvCompress : string;
  Stream_dec : recvBufferReader;
  Stream_choices : nat -> nat;  (* which ready case the [select] of the n-th Read takes *)
  Stream_reads : nat;
  Stream_window : Z;            (* the bytes that windowHandler was told of *)
}.

Definition Stream_Read (n : nat) (s : Stream) : res stop (list byte) * Stream :=
  let '(x, r) := Reader_Read (Stream_choices s (Stream_reads s)) n (Stream_dec s) in
  let after w := mkStream (Stream_method s) (Stream_recvCompress s) r (Stream_choices s)
                   (S (Stream_reads s)) (Stream_window s + w) in
  match x with
  | Bytes b => (Ok b, after (slen b))
  | Failed e => (Err (Raise e), after 0)
  | Blocked => (Err Block, after 0)
  | Panicked => (Panic, after 0)
  end.

(** [io.ReadFull] of [n] bytes, [got] being read already. *)
Fixpoint ReadFull_loop (fuel : nat) (n : nat) (got : list byte) (s : Stream)
  : res stop (list byte) * Stream :=
  if (n <=? length got)%nat then (Ok got, s) else
  match fuel with
  | O => (Diverge, s)
  | S fuel =>
      match Stream_Read (n - length got) s with
      | (Ok b, s) => ReadFull_loop fuel n (got ++ b) s
      | (Err e, s) =>
          (Err (if bool_decide (e = Raise EOF) && (0 <? length got)%nat then Raise UnexpectedEOF else e), s)
      | (r, s) => (r, s)
      end
  end.

(** Every [Read] that succeeds gets a byte at least. *)
Definition ReadFull (n : nat) (s : Stream) : res stop (list byte) * Stream := ReadFull_loop n n [] s.

(** ** Framing *)

Definition compressionNone : Z := 0.
Definition compressionMade : Z := 1.

(** [binary.BigEndian.PutUint32] and [Uint32]. *)
Definition PutUint32 (v : Z) : list byte :=
  [byte_of_Z (Z.shiftr v 24); byte_of_Z (Z.shiftr v 16); byte_of_Z (Z.shiftr v 8); byte_of_Z v].

Definition Uint32 (b : list byte) : res stop Z :=
  match b with
  | b0 :: b1 :: b2 :: b3 :: _ =>
      Ok (Z.lor (Z_of_byte b3) (Z.lor (Z.shiftl (Z_of_byte b2) 8)
           (Z.lor (Z.shiftl (Z_of_byte b1) 16) (Z.shiftl (Z_of_byte b0) 24))))
  | _ => Panic
  end.

Definition fail {A} (c : Z) (msg : string) : res stop A :=
  match Errorf c msg with Some e => Err (Raise e) | None => Panic end.

(** Code that reads from a stream: the outcome and the stream after it. *)
Definition on_stream (A : Type) : Type := Stream -> res stop A * Stream.

#[export] Instance on_stream_ret : MRet on_stream := fun A a s => (Ok a, s).
#[export] Instance on_stream_bind : MBind on_stream := fun A B f x s =>
  let '(r, s) := x s in
  match r with
  | Ok a => f a s
  | Err e => (Err e, s)
  | Panic => (Panic, s)
  | Diverge => (Diverge, s)
  end.

Definition with_stream {A} (f : Stream -> res stop A) : on_stream A := fun s => (f s, s).
Definition lift {A} (r : res stop A) : on_stream A := fun s => (r, s).

(** [if err == from { err = to }] *)
Definition replace_err {A} (from to : go_error) (x : on_stream A) : on_stream A := fun s =>
  let '(r, s) := x s in
  (match r with
   | Err e => Err (if bool_decide (e = Raise from) then Raise to else e)
   | r => r
   end, s).

(** [parser.recvMsg]: the payload format and the message. *)
Definition parser_recvMsg (maxMsgSize : Z) : on_stream (Z * list byte) :=
  header ← (ReadFull 5 : on_stream _);
  pf ← lift (index header 0);
  length ← lift (Uint32 (drop 1 header));
  let pf := Z_of_byte pf in
  if length =? 0 then mret (pf, []) else
  if uint32 maxMsgSize <? length then
    lift (fail codes.Internal ("grpc: received message length " +:+ Itoa length +:+
      " exceeding the max size " +:+ Itoa maxMsgSize))
  else
    msg ← replace_err EOF UnexpectedEOF (ReadFull (Z.to_nat length));
    mret (pf, msg).

(** A compressor appends to the buffer it is given, or fails. *)
Record Compressor : Type := {
  Compressor_Do : list byte -> list byte -> res stop (list byte);
  Compressor_Type : string;
}.
Record Decompressor : Type := {
  Decompressor_Do : list byte -> res stop (list byte);
  Decompressor_Type : string;
}.

(** [Codec]: messages of a family of types on the wire. *)
Class Codec {T : Type} (msg : T -> Type) : Type := {
  Codec_Marshal : forall t, msg t -> res stop (list byte);
  Codec_Unmarshal : forall t, msg t -> list byte -> res stop (msg t);
}.

Section framing.
Context {T : Type} {msg : T -> Type} `{Codec T msg}.

(** [encode], of a message or of nil. *)
Definition encode (m : option (sigT msg)) (cp : option Compressor) (cbuf : list byte)
  : res stop (list byte) :=
  b ← match m with
      | None => Ok []
      | Some (existT t m) =>
          b ← Codec_Marshal t m;
          match cp with
          | Some cp => Compressor_Do cp cbuf b
          | None => Ok b
          end
      end;
  let length := slen b in
  if 2 ^ 32 - 1 <? length then
    fail codes.InvalidArgument ("grpc: message too large (" +:+ Itoa length +:+ " bytes)")
  else
    Ok (byte_of_Z (match cp with None => compressionNone | Some _ => compressionMade end) ::
        PutUint32 length ++ b).

Definition checkRecvPayload (pf : Z) (recvCompress : string) (dc : option Decompressor)
  : option go_error :=
  if pf =? compressionNone then None
  else if pf =? compressionMade then
    match dc with
    | Some dc =>
        if bool_decide (recvCompress = Decompressor_Type dc) then None
        else Errorf codes.Unimplemented
               ("grpc: Decompressor is not installed for grpc-encoding " +:+ Quote recvCompress)
    | None => Errorf codes.Unimplemented
               ("grpc: Decompressor is not installed for grpc-encoding " +:+ Quote recvCompress)
    end
  else Errorf codes.Internal ("grpc: received unexpected payload format " +:+ Itoa pf).

(** An error of a callee, reported as a status with its text. *)
Definition wrap {A} (r : res stop A) (c : Z) (prefix : string) : res stop A :=
  match r with
  | Err (Raise e) => fail c (prefix +:+ error_string e)
  | r => r
  end.

(** What [recv] does with a received message [d]. *)
Definition recv_payload (recvCompress : string) (dc : option Decompressor) (t : T) (m : msg t)
  (maxMsgSize : Z) (pf : Z) (d : list byte) : res stop (msg t) :=
  match checkRecvPayload pf recvCompress dc with
  | Some e => Err (Raise e)
  | None =>
      d ← (if pf =? compressionMade then
             match dc with
             | Some dc => wrap (Decompressor_Do dc d) codes.Internal "grpc: failed to decompress the received message "
             | None => Panic
             end
           else Ok d);
      if maxMsgSize <? slen d then
        fail codes.Internal ("grpc: received a message of " +:+ Itoa (slen d) +:+ " bytes exceeding " +:+
          Itoa maxMsgSize +:+ " limit")
      else wrap (Codec_Unmarshal t m d) codes.Internal "grpc: failed to unmarshal the received message "
  end.

(** [recv] into a message [m]. *)
Definition recv (dc : option Decompressor) (t : T) (m : msg t) (maxMsgSize : Z) : on_stream (msg t) :=
  '(pf, d) ← parser_recvMsg maxMsgSize;
  with_stream (fun s => recv_payload (Stream_recvCompress s) dc t m maxMsgSize pf d).
End framing.

(** ** What a stream holds *)

Definition chunk (b : list byte) : recvMsg := mkRecvMsg b None.

(** A live stream on which the bytes [bs] can be read, in pieces however they
    came, and after them the error [fin] if there is one. *)
Definition holds (r : recvBufferReader) (bs : list byte) (fin : option go_error) : Prop :=
  reader_err r = None /\ reader_done r = None /\ reader_goAway r = false /\
  (recvBuffer_c (reader_recv r) = None -> recvBuffer_backlog (reader_recv r) = []) /\
  exists ds, Forall (fun d => d <> []) ds /\
    items (reader_recv r) = map chunk ds ++ match fin with Some e => [mkRecvMsg [] (Some e)] | None => [] end /\
    bs = reader_last r ++ concat ds.

Definition stream_holds (s : Stream) (bs : list byte) (fin : option go_error) : Prop :=
  holds (Stream_dec s) bs fin.

(** The next item is on the channel, and taking it leaves the others. *)
Lemma receive_items {M} (b : recvBuffer M) x l :
  (recvBuffer_c b = None -> recvBuffer_backlog b = []) -> items b = x :: l ->
  recvBuffer_c b = Some x /\
  recvBuffer_receive b = Some (x, mkRecvBuffer None l) /\
  items (recvBuffer_load (mkRecvBuffer None l)) = l /\
  (recvBuffer_c (recvBuffer_load (mkRecvBuffer None l)) = None ->
   recvBuffer_backlog (recvBuffer_load (mkRecvBuffer None l)) = []).
Proof.
  destruct b as [[c|] bl]; unfold items, recvBuffer_receive; simpl; intros Hc Hi.
  - simplify_eq. repeat split; destruct l; done.
  - rewrite Hc in Hi; done.
Qed.

Lemma ready_item r x choice :
  reader_done r = None -> reader_goAway r = false -> recvBuffer_c (reader_recv r) = Some x ->
  ready r !! (choice mod length (ready r))%nat = Some Item.
Proof. unfold ready. intros -> -> ->. cbn [app length]. by rewrite Nat.mod_1_r. Qed.

Lemma Reader_Read_bytes choice n r bs fin :
  holds r bs fin -> (0 < n)%nat -> bs <> [] ->
  exists b rest r', Reader_Read choice n r = (Bytes b, r') /\ b <> [] /\ (length b <= n)%nat /\
    bs = b ++ rest /\ holds r' rest fin.
Proof.
  intros (He & Hd & Hg & Hc & ds & Hne & Hit & Hbs) Hn Hnil. unfold Reader_Read. rewrite He.
  destruct (reader_last r) as [|x last] eqn:Hlast.
  - destruct ds as [|d ds]; [by subst|]. apply Forall_cons in Hne as [Hd0 Hne].
    destruct (receive_items _ _ _ Hc Hit) as (Hc' & Hrecv & Hit' & Hc'').
    rewrite (ready_item _ _ _ Hd Hg Hc'), Hrecv. simpl. destruct d as [|y d]; [done|].
    simpl in *. exists (take n (y :: d)), (drop n (y :: d) ++ concat ds). eexists. split; [done|].
    split; [destruct n; [lia|done]|]. split; [rewrite length_take; lia|]. split; [by rewrite app_assoc, take_drop|].
    unfold holds. simpl. eauto 10.
  - simpl. exists (take n (x :: last)), (drop n (x :: last) ++ concat ds). eexists. split; [done|].
    split; [destruct n; [lia|done]|]. split; [rewrite length_take; lia|]. split; [by rewrite app_assoc, take_drop|].
    unfold holds. simpl. eauto 10.
Qed.

Lemma Reader_Read_end choice n r e :
  holds r [] (Some e) -> exists r', Reader_Read choice n r = (Failed e, r') /\ reader_err r' = Some e.
Proof.
  intros (He & Hd & Hg & Hc & ds & Hne & Hit & Hbs). unfold Reader_Read. rewrite He.
  symmetry in Hbs. apply app_nil in Hbs as [-> Hds].
  destruct ds as [|d ds]; [|apply Forall_cons in Hne as [? _]; by destruct d].
  destruct (receive_items _ _ _ Hc Hit) as (Hc' & Hrecv & _ & _).
  rewrite (ready_item _ _ _ Hd Hg Hc'), Hrecv. simpl. eauto.
Qed.

Lemma Stream_Read_bytes n s bs fin :
  stream_holds s bs fin -> (0 < n)%nat -> bs <> [] ->
  exists b rest s', Stream_Read n s = (Ok b, s') /\ (0 < length b <= n)%nat /\ bs = b ++ rest /\
    stream_holds s' rest fin /\ Stream_recvCompress s' = Stream_recvCompress s /\
    Stream_window s' = Stream_window s + slen b.
Proof.
  intros Hs Hn Hbs.
  destruct (Reader_Read_bytes (Stream_choices s (Stream_reads s)) n _ bs fin Hs)
    as (b & rest & r' & Hr & Hb & Hlen & Heq & Hs'); [done..|].
  unfold Stream_Read. rewrite Hr. do 3 eexists. split; [done|].
  assert (length b <> 0)%nat by by destruct b.
  split; [lia|]. split; [exact Heq|]. split; [exact Hs'|]. done.
Qed.

Lemma Stream_Read_end n s e :
  stream_holds s [] (Some e) -> exists s', Stream_Read n s = (Err (Raise e), s').
Proof.
  intros Hs. unfold Stream_Read.
  destruct (Reader_Read_end (Stream_choices s (Stream_reads s)) n _ e Hs) as (r' & -> & _). eauto.
Qed.

(** [io.ReadFull] on a stream that holds enough. *)
Lemma ReadFull_loop_bytes fuel n got s bs fin :
  stream_holds s bs fin -> (length got <= n)%nat -> (n - length got <= fuel)%nat ->
  (n - length got <= length bs)%nat ->
  exists s', ReadFull_loop fuel n got s = (Ok (got ++ take (n - length got) bs), s') /\
    stream_holds s' (drop (n - length got) bs) fin /\
    Stream_recvCompress s' = Stream_recvCompress s /\
    Stream_window s' = Stream_window s + Z.of_nat (n - length got).
Proof.
  revert got s bs. induction fuel as [|fuel IH]; intros got s bs Hs Hgot Hfuel Hbs; cbn [ReadFull_loop];
    (destruct (Nat.leb_spec n (length got));
     [exists s; replace (n - length got)%nat with 0%nat by lia; rewrite take_0, drop_0, app_nil_r;
      split; [done|split; [done|split; [done|lia]]]|]);
    [lia|].
  destruct (Stream_Read_bytes (n - length got) s bs fin Hs)
    as (b & rest & s1 & -> & Hb & -> & Hs1 & Hc1 & Hw1); [lia|by destruct bs; simpl in *; [lia|]|].
  rewrite length_app in Hbs.
  destruct (IH (got ++ b) s1 rest Hs1) as (s' & -> & Hh & Hc & Hw); rewrite ?length_app; [lia..|].
  rewrite length_app in Hh, Hw. exists s'. rewrite <- app_assoc.
  rewrite take_app, drop_app, (take_ge b), (drop_ge b) by lia.
  replace (n - length got - length b)%nat with (n - (length got + length b))%nat by lia.
  split; [done|split; [done|split; [congruence|]]]. unfold slen in *. lia.
Qed.

Lemma ReadFull_bytes n s bs fin :
  stream_holds s bs fin -> (n <= length bs)%nat ->
  exists s', ReadFull n s = (Ok (take n bs), s') /\ stream_holds s' (drop n bs) fin /\
    Stream_recvCompress s' = Stream_recvCompress s /\ Stream_window s' = Stream_window s + Z.of_nat n.
Proof.
  intros Hs Hn. destruct (ReadFull_loop_bytes n n [] s bs fin Hs) as (s' & Heq & Hh & Hc & Hw); simpl; [lia..|].
  simpl in *. rewrite !Nat.sub_0_r in *. eauto.
Qed.

(** ... and on one that ends before. *)
Lemma ReadFull_loop_end fuel n got s bs e :
  stream_holds s bs (Some e) -> (n - length got <= fuel)%nat -> (length bs < n - length got)%nat ->
  exists s', ReadFull_loop fuel n got s =
    (Err (if bool_decide (e = EOF) && (0 <? length got + length bs)%nat then Raise UnexpectedEOF else Raise e), s').
Proof.
  revert got s bs. induction fuel as [|fuel IH]; intros got s bs Hs Hfuel Hbs; cbn [ReadFull_loop];
    (destruct (Nat.leb_spec n (length got)); [lia|]); [lia|].
  destruct (decide (bs = [])) as [->|Hne].
  - destruct (Stream_Read_end (n - length got) s e Hs) as (s' & ->).
    eexists. rewrite Nat.add_0_r.
    by repeat (case_bool_decide; simplify_eq); destruct (0 <? length got)%nat.
  - destruct (Stream_Read_bytes (n - length got) s bs (Some e) Hs)
      as (b & rest & s1 & -> & Hb & -> & Hs1 & _); [lia|done|].
    rewrite length_app in *.
    destruct (IH (got ++ b) s1 rest Hs1) as (s' & ->); rewrite ?length_app; [lia..|].
    exists s'. by rewrite Nat.add_assoc.
Qed.

Lemma ReadFull_end n s bs e :
  stream_holds s bs (Some e) -> (length bs < n)%nat ->
  exists s', ReadFull n s =
    (Err (if bool_decide (e = EOF) && (0 <? length bs)%nat then Raise UnexpectedEOF else Raise e), s').
Proof. intros. apply (ReadFull_loop_end n n [] s bs e); simpl; (done || lia). Qed.

(** ** Frames *)

Lemma Uint32_PutUint32 v rest : 0 <= v < 2 ^ 32 -> Uint32 (PutUint32 v ++ rest) = Ok v.
Proof.
  intros Hv. unfold PutUint32, Uint32. cbn [app]. rewrite !Z_of_byte_of_Z. unfold uint8.
  rewrite !Z.shiftr_div_pow2 by lia. rewrite !Z.lor_assoc.
  pose proof (Z.mod_pos_bound v (2 ^ 8) eq_refl). pose proof (Z.mod_pos_bound (v / 2 ^ 8) (2 ^ 8) eq_refl).
  pose proof (Z.mod_pos_bound (v / 2 ^ 16) (2 ^ 8) eq_refl).
  rewrite (lor_shiftl_add (v mod 2 ^ 8) _ 8), (lor_shiftl_add _ _ 16), (lor_shiftl_add _ _ 24) by lia.
  f_equal.
  pose proof (Z.div_mod v (2 ^ 8)). pose proof (Z.div_mod (v / 2 ^ 8) (2 ^ 8)).
  pose proof (Z.div_mod (v / 2 ^ 16) (2 ^ 8)).
  assert (v / 2 ^ 8 / 2 ^ 8 = v / 2 ^ 16) by by rewrite Z.div_div by lia.
  assert (v / 2 ^ 16 / 2 ^ 8 = v / 2 ^ 24) by by rewrite Z.div_div by lia.
  assert (0 <= v / 2 ^ 24 < 2 ^ 8) by (split; [apply Z.div_pos|apply Z.div_lt_upper_bound]; lia).
  rewrite (Z.mod_small (v / 2 ^ 24)) by lia. lia.
Qed.

(** The bytes of an uncompressed message. *)
Definition frame (p : list byte) : list byte := byte_of_Z compressionNone :: PutUint32 (slen p) ++ p.

Lemma take_header f l rest : take 5 (f :: PutUint32 l ++ rest) = f :: PutUint32 l.
Proof. done. Qed.

Lemma bind_ok {A B} (x : on_stream A) (f : A -> on_stream B) s a s' :
  x s = (Ok a, s') -> (x ≫= f) s = f a s'.
Proof. unfold mbind, on_stream_bind. by intros ->. Qed.

Lemma bind_err {A B} (x : on_stream A) (f : A -> on_stream B) s e s' :
  x s = (Err e, s') -> (x ≫= f) s = (Err e, s').
Proof. unfold mbind, on_stream_bind. by intros ->. Qed.

(** A header that is there announces its length, and the body is read if its
    size allows. *)
Lemma recvMsg_header s f l rest fin max :
  stream_holds s (f :: PutUint32 l ++ rest) fin -> 0 <= l < 2 ^ 32 ->
  exists s', stream_holds s' rest fin /\ Stream_recvCompress s' = Stream_recvCompress s /\
    Stream_window s' = Stream_window s + 5 /\
    parser_recvMsg max s =
      (if l =? 0 then mret (Z_of_byte f, []) else
       if uint32 max <? l then
         lift (fail codes.Internal ("grpc: received message length " +:+ Itoa l +:+
           " exceeding the max size " +:+ Itoa max))
       else msg ← replace_err EOF UnexpectedEOF (ReadFull (Z.to_nat l)); mret (Z_of_byte f, msg)) s'.
Proof.
  intros Hs Hl. destruct (ReadFull_bytes 5 s _ fin Hs) as (s' & Hr & Hh & Hc & Hw); [simpl; lia|].
  exists s'. split; [done|]. split; [done|]. split; [done|].
  unfold parser_recvMsg. rewrite (bind_ok _ _ _ _ _ Hr), take_header.
  erewrite bind_ok by done. erewrite bind_ok; [done|]. unfold lift. f_equal.
  cbn [drop]. rewrite <- (app_nil_r (PutUint32 l)). by apply Uint32_PutUint32.
Qed.

(** [recvMsg] returns the payload of the frame at the head of the stream, in
    however many pieces it arrived, and leaves what follows it. *)
Lemma recvMsg_frame s p rest fin max :
  stream_holds s (frame p ++ rest) fin -> slen p <= max < 2 ^ 32 ->
  exists s', parser_recvMsg max s = (Ok (compressionNone, p), s') /\ stream_holds s' rest fin /\
    Stream_recvCompress s' = Stream_recvCompress s /\
    Stream_window s' = Stream_window s + slen (frame p).
Proof.
  intros Hs Hp. unfold frame in *. cbn [app] in Hs. rewrite <- app_assoc in Hs.
  pose proof (slen_nonneg p).
  destruct (recvMsg_header s _ (slen p) (p ++ rest) fin max Hs) as (s1 & Hs1 & Hc1 & Hw1 & ->); [lia|].
  replace (slen (_ :: _)) with (5 + slen p) by (unfold slen; simpl; lia).
  replace (Z_of_byte (byte_of_Z compressionNone)) with compressionNone by done.
  destruct (Z.eqb_spec (slen p) 0) as [H0|Hpos].
  - assert (p = []) as -> by (destruct p; [done|by rewrite slen_cons in H0; pose proof (slen_nonneg p); lia]).
    exists s1. unfold slen. simpl. split; [done|]. split; [done|]. split; [done|]. lia.
  - unfold uint32. rewrite Z.mod_small by lia. destruct (Z.ltb_spec max (slen p)); [lia|].
    destruct (ReadFull_bytes (Z.to_nat (slen p)) s1 _ fin Hs1) as (s' & Hr & Hh & Hc & Hw);
      [unfold slen; rewrite length_app; lia|].
    assert (Z.to_nat (slen p) = length p) as Hlen by (unfold slen; lia).
    rewrite Hlen, take_app_length, drop_app_length in *.
    exists s'. erewrite bind_ok by (unfold replace_err; by rewrite Hr).
    split; [done|]. split; [done|]. split; [congruence|]. unfold slen in *. lia.
Qed.

(** A frame that is too long is refused before its body is read. *)
Lemma recvMsg_too_long s f l rest fin max :
  stream_holds s (f :: PutUint32 l ++ rest) fin -> 0 <= max < l -> l < 2 ^ 32 ->
  exists s', parser_recvMsg max s =
      (Err (Raise (statusError codes.Internal ("grpc: received message length " +:+ Itoa l +:+
         " exceeding the max size " +:+ Itoa max))), s') /\
    stream_holds s' rest fin.
Proof.
  intros Hs Hmax Hl. destruct (recvMsg_header s f l rest fin max Hs) as (s' & Hs' & _ & _ & ->); [lia|].
  exists s'. split; [|done]. unfold uint32. rewrite Z.mod_small by lia. zcases; try lia. done.
Qed.

(** The end of the stream at a frame's boundary is [io.EOF], inside a frame it is
    [io.ErrUnexpectedEOF]. *)
Lemma recvMsg_end s max :
  stream_holds s [] (Some EOF) -> exists s', parser_recvMsg max s = (Err (Raise EOF), s').
Proof.
  intros Hs. destruct (ReadFull_end 5 s [] EOF Hs) as (s' & Hr); [simpl; lia|].
  exists s'. unfold parser_recvMsg. by erewrite bind_err by exact Hr.
Qed.

Lemma recvMsg_truncated s p bs max :
  bs `prefix_of` frame p -> bs <> [] -> bs <> frame p -> slen p <= max < 2 ^ 32 ->
  stream_holds s bs (Some EOF) ->
  exists s', parser_recvMsg max s = (Err (Raise UnexpectedEOF), s').
Proof.
  intros [k Hk] Hne Hneq Hp Hs. pose proof (slen_nonneg p).
  assert (k <> []) as Hknil by (intros ->; by rewrite app_nil_r in Hk).
  destruct (decide (length bs < 5)%nat) as [Hshort|Hlong].
  - destruct (ReadFull_end 5 s bs EOF Hs Hshort) as (s' & Hr). exists s'.
    rewrite bool_decide_eq_true_2, (proj2 (Nat.ltb_lt _ _)) in Hr by (done || destruct bs; simpl in *; (done || lia)).
    unfold parser_recvMsg. by erewrite bind_err by exact Hr.
  - unfold frame in Hk. do 5 (destruct bs as [|? bs]; [simpl in *; lia|]). simpl in Hk. simplify_eq.
    destruct (recvMsg_header s (byte_of_Z compressionNone) (slen (bs ++ k)) bs (Some EOF) max Hs) as (s1 & Hs1 & _ & _ & ->); [lia|].
    assert (slen bs < slen (bs ++ k)) as Hlt by (rewrite slen_app; destruct k; [done|rewrite slen_cons; pose proof (slen_nonneg k); lia]).
    pose proof (slen_nonneg bs). destruct (Z.eqb_spec (slen (bs ++ k)) 0); [lia|].
    unfold uint32. rewrite Z.mod_small by lia. destruct (Z.ltb_spec max (slen (bs ++ k))); [lia|].
    destruct (ReadFull_end (Z.to_nat (slen (bs ++ k))) s1 bs EOF Hs1) as (s' & Hr); [unfold slen in *; lia|].
    exists s'. eapply bind_err. unfold replace_err. rewrite Hr. simpl.
    by destruct (0 <? length bs)%nat.
Qed.

(** ** What a codec promises to the code that frames its messages *)

Section codec_laws.
Context {T : Type} {msg : T -> Type} `{Codec T msg}.

(** Every message that [fits] is marshalled, and unmarshalling the bytes into a
    fresh message gives it back. *)
Class CodecLaws (fresh : forall t, msg t) (fits : forall t, msg t -> Prop) : Prop :=
  codec_round_trip t m : fits t m ->
    exists b, Codec_Marshal t m = Ok b /\ Codec_Unmarshal t (fresh t) b = Ok m.

Lemma encode_frame t m b cbuf :
  Codec_Marshal t m = Ok b -> slen b < 2 ^ 32 -> encode (Some (existT t m)) None cbuf = Ok (frame b).
Proof.
  intros Hm Hb. unfold encode. rewrite Hm. cbn [mbind res_bind].
  destruct (Z.ltb_spec (2 ^ 32 - 1) (slen b)); [lia|]. done.
Qed.

Lemma encode_nil cbuf : encode (msg:=msg) None None cbuf = Ok (frame []).
Proof. done. Qed.

(** Receiving a frame whose payload can be decoded. *)
Lemma recv_frame t x m b s rest fin max :
  Codec_Unmarshal t x b = Ok m -> slen b <= max < 2 ^ 32 -> stream_holds s (frame b ++ rest) fin ->
  exists s', recv None t x max s = (Ok m, s') /\ stream_holds s' rest fin /\
    Stream_window s' = Stream_window s + slen (frame b).
Proof.
  intros Hu Hlen Hs. pose proof (slen_nonneg b).
  destruct (recvMsg_frame s b rest fin max Hs) as (s' & Hr & Hh & _ & Hw); [lia|].
  exists s'. split; [|done]. unfold recv. erewrite bind_ok by exact Hr.
  unfold with_stream, recv_payload. simpl. zcases; [lia|]. by rewrite Hu.
Qed.

(** C39: A message sent with [encode] is received by [recv], in however many pieces the
    transport delivers it, and the stream is left at what follows. *)
Theorem recv_encode (fresh : forall t, msg t) (fits : forall t, msg t -> Prop)
  `{!CodecLaws fresh fits} t m cbuf f s rest fin max :
  fits t m -> encode (Some (existT t m)) None cbuf = Ok f ->
  slen f <= max + 5 -> 0 <= max < 2 ^ 32 ->
  stream_holds s (f ++ rest) fin ->
  exists s', recv None t (fresh t) max s = (Ok m, s') /\ stream_holds s' rest fin /\
    Stream_window s' = Stream_window s + slen f.
Proof.
  intros Hfits Henc Hlen Hmax Hs. destruct (codec_round_trip (fits:=fits) t m Hfits) as (b & Hm & Hu).
  assert (f = frame b) as ->.
  { unfold encode in Henc. rewrite Hm in Henc. cbn [mbind res_bind] in Henc. case_match; [|by simplify_eq].
    discriminate Henc. }
  assert (slen (frame b) = slen b + 5) as Hf by (unfold slen; simpl; lia). apply recv_frame; [done|lia|done].
Qed.
End codec_laws.
