(* ===== verification/GrpcCodec.v ===== *)
(** * The proto codec

    codec.go on top of the generated messages: [protoCodec.Marshal] and
    [Unmarshal] go through a [sync.Pool] of buffers that are reused between calls.
    [proto_codec] is the abstract codec, which has no pool; the refinement theorem
    says that the pooled one computes the same whatever the pool holds, and
    [proto_codec] satisfies the laws that the framing code asks of a codec. *)

From stdpp Require Import base list strings.
From Stdlib Require Import ZArith Strings.Byte Lia.
From S2P Require Import Prelude GoStrings Wire Api ApiTotal ApiRegistry GrpcStatus GrpcTransport GrpcRpc.
Open Scope Z_scope.

(** The outcome of generated code as an outcome of code on a stream. *)
Definition api_res {A} (r : res api_error A) : res stop A :=
  match r with
  | Ok a => Ok a
  | Err e => Err (Raise (api_go_error e))
  | Panic => Panic
  | Diverge => Diverge
  end.

(** The abstract codec.  The orders in which [Marshal] ranges over maps are
    given. *)
Definition proto_codec (r : ranges) : Codec message := {|
  Codec_Marshal t m := api_res (Marshal t r m);
  Codec_Unmarshal t m b := api_res (Unmarshal t m b);
|}.

(** ** [proto.Buffer] and the pool *)

Record cachedProtoBuffer : Type := mkBuffer {
  lastMarshaledSize : Z;
  Buffer_buf : list byte;
  Buffer_index : Z;
}.

Definition SetBuf (cb : cachedProtoBuffer) (s : list byte) : cachedProtoBuffer :=
  mkBuffer (lastMarshaledSize cb) s 0.

(** [p.buf = p.buf[0:0]; p.index = 0] *)
Definition Buffer_Reset (cb : cachedProtoBuffer) : cachedProtoBuffer :=
  mkBuffer (lastMarshaledSize cb) [] 0.

(** [b, err := m.Marshal(); p.buf = append(p.buf, b...); return err] *)
Definition Buffer_Marshal (r : ranges) (t : message_type) (m : message t) (cb : cachedProtoBuffer)
  : res api_error unit * cachedProtoBuffer :=
  match Marshal t r m with
  | Ok b => (Ok tt, mkBuffer (lastMarshaledSize cb) (Buffer_buf cb ++ b) (Buffer_index cb))
  | Err e => (Err e, cb)
  | Panic => (Panic, cb)
  | Diverge => (Diverge, cb)
  end.

(** [err := u.Unmarshal(p.buf[p.index:]); p.index = len(p.buf)] *)
Definition Buffer_Unmarshal (t : message_type) (m : message t) (cb : cachedProtoBuffer)
  : res api_error (message t) * cachedProtoBuffer :=
  (rest ← slice_from (Buffer_buf cb) (Buffer_index cb); Unmarshal t m rest,
   mkBuffer (lastMarshaledSize cb) (Buffer_buf cb) (slen (Buffer_buf cb))).

Definition MaxInt32 : Z := 2 ^ 31 - 1.

Definition capToMaxInt32 (val : Z) : Z := if MaxInt32 <? val then MaxInt32 else uint32 val.

(** [protoBufferPool]: [Get] takes any buffer of the pool, or makes a new one. *)
Definition new_buffer : cachedProtoBuffer := mkBuffer 16 [] 0.

Definition pool_Get (choice : nat) (pool : list cachedProtoBuffer)
  : cachedProtoBuffer * list cachedProtoBuffer :=
  match pool !! choice with
  | Some cb => (cb, delete choice pool)
  | None => (new_buffer, pool)
  end.

Definition pool_Put (cb : cachedProtoBuffer) (pool : list cachedProtoBuffer) : list cachedProtoBuffer :=
  cb :: pool.

(** [marshal]: the new slice is empty with the last size as its capacity. *)
Definition protoCodec_marshal (r : ranges) (t : message_type) (m : message t) (cb : cachedProtoBuffer)
  : res api_error (list byte) * cachedProtoBuffer :=
  let newSlice := [] in
  let cb := SetBuf cb newSlice in
  let cb := Buffer_Reset cb in
  match Buffer_Marshal r t m cb with
  | (Ok _, cb) =>
      let out := Buffer_buf cb in
      (Ok out, mkBuffer (capToMaxInt32 (slen out)) (Buffer_buf cb) (Buffer_index cb))
  | (Err e, cb) => (Err e, cb)
  | (Panic, cb) => (Panic, cb)
  | (Diverge, cb) => (Diverge, cb)
  end.

(** A panic passes by the [Put]: the buffer is lost to the pool. *)
Definition protoCodec_Marshal (choice : nat) (r : ranges) (t : message_type) (m : message t)
  (pool : list cachedProtoBuffer) : res api_error (list byte) * list cachedProtoBuffer :=
  let '(cb, pool) := pool_Get choice pool in
  match protoCodec_marshal r t m cb with
  | (Ok out, cb) => (Ok out, pool_Put (SetBuf cb []) pool)
  | (Err e, cb) => (Err e, pool_Put (SetBuf cb []) pool)
  | (r, _) => (r, pool)
  end.

Definition protoCodec_Unmarshal (choice : nat) (data : list byte) (t : message_type) (v : message t)
  (pool : list cachedProtoBuffer) : res api_error (message t) * list cachedProtoBuffer :=
  let '(cb, pool) := pool_Get choice pool in
  let cb := SetBuf cb data in
  match Buffer_Unmarshal t v cb with
  | (Ok v, cb) => (Ok v, pool_Put (SetBuf cb []) pool)
  | (Err e, cb) => (Err e, pool_Put (SetBuf cb []) pool)
  | (r, _) => (r, pool)
  end.

(** ** Properties *)

(** The buffers of the pool hold no message. *)
Definition pool_clear (pool : list cachedProtoBuffer) : Prop :=
  Forall (fun cb => Buffer_buf cb = [] /\ 0 <= lastMarshaledSize cb <= MaxInt32) pool.

Lemma pool_Get_clear choice pool cb pool' :
  pool_Get choice pool = (cb, pool') -> pool_clear pool ->
  (0 <= lastMarshaledSize cb <= MaxInt32) /\ pool_clear pool'.
Proof.
  unfold pool_Get, pool_clear. intros Hg Hp. destruct (pool !! choice) eqn:Hc; simplify_eq.
  - split; [|by apply Forall_delete]. by apply (Forall_lookup_1 _ _ _ _ Hp) in Hc as [_ ?].
  - done.
Qed.

Lemma capToMaxInt32_range n : 0 <= n -> 0 <= capToMaxInt32 n <= MaxInt32.
Proof.
  unfold capToMaxInt32, MaxInt32, uint32. intros. zcases; [lia|]. rewrite Z.mod_small by lia. lia.
Qed.

Lemma protoCodec_marshal_out r t m cb : (protoCodec_marshal r t m cb).1 = Marshal t r m.
Proof. unfold protoCodec_marshal, Buffer_Marshal. by destruct (Marshal t r m). Qed.

Lemma slice_from_0 {E A} (s : list A) : slice_from (E:=E) s 0 = Ok s.
Proof.
  unfold slice_from, slice. pose proof (slen_nonneg s). zcases; try lia.
  cbn [andb]. rewrite Z.sub_0_r, drop_0, take_ge; [done|unfold slen; lia].
Qed.

(** The pooled codec refines the abstract one: whichever buffers the pool holds
    and whichever of them is taken, [Marshal] returns the bytes of the message and
    [Unmarshal] the message of the bytes, with nothing of an earlier call in them;
    and the buffers that go back to the pool are empty and remember a size that
    can be allocated. *)
Theorem protoCodec_refines choice r t m data pool :
  pool_clear pool ->
  let '(out, pool1) := protoCodec_Marshal choice r t m pool in
  let '(v, pool2) := protoCodec_Unmarshal choice data t m pool in
  let H := proto_codec r in
  api_res out = Codec_Marshal t m /\ api_res v = Codec_Unmarshal t m data /\
  pool_clear pool1 /\ pool_clear pool2.
Proof.
  intros Hp. unfold protoCodec_Marshal, protoCodec_Unmarshal.
  destruct (pool_Get choice pool) as [cb pool'] eqn:Hg.
  destruct (pool_Get_clear _ _ _ _ Hg Hp) as [Hcb Hp'].
  unfold protoCodec_marshal, Buffer_Marshal, Buffer_Unmarshal. simpl. rewrite slice_from_0.
  cbn [mbind res_bind].
  destruct (Marshal t r m) as [b| | |], (Unmarshal t m data); simpl;
    (split; [done|split; [done|split]]); try done;
    (apply Forall_cons; split; [|done]; split; [done|]); simpl;
    first [done | apply capToMaxInt32_range, slen_nonneg].
Qed.

Lemma protoCodec_refines_witness :
  let pool := [mkBuffer 7 [] 3; new_buffer] in
  let m := mkDevice "binder1" "Healthy" in
  let '(out, pool1) := protoCodec_Marshal 1 some_ranges TDevice m pool in
  let '(v, pool2) := protoCodec_Unmarshal 1 [x0a; x01; x41] TDevice m pool in
  let H := proto_codec some_ranges in
  api_res out = Codec_Marshal TDevice m /\ api_res v = Codec_Unmarshal TDevice m [x0a; x01; x41] /\
  pool_clear pool1 /\ pool_clear pool2.
Proof.
  refine (protoCodec_refines 1 some_ranges TDevice (mkDevice "binder1" "Healthy") [x0a; x01; x41]
    [mkBuffer 7 [] 3; new_buffer] _).
  repeat constructor; simpl; unfold MaxInt32; lia.
Defined.

(** The messages that fit: shorter on the wire than any Go slice can be. *)
Definition fits (r : ranges) (t : message_type) (m : message t) : Prop := slen (enc t r m) < max_slice.

Lemma Marshal_ok r t m : fits r t m -> Marshal t r m = Ok (enc t r m).
Proof.
  unfold fits, max_slice. intros Hlen. pose proof (message_contract t r m) as Hc.
  rewrite <- (ApiMarshal.marshal_ok _ _ _ Hc) by lia. by destruct t.
Qed.

Lemma Unmarshal_ok r t m : fits r t m -> Unmarshal t (Reset t) (enc t r m) = Ok m.
Proof.
  intros Hlen. rewrite Unmarshal_unfold.
  apply ApiRoundTrip.consumes_unmarshal; [apply switch_total|done|by apply enc_consumed].
Qed.

#[export] Instance proto_codec_laws r : CodecLaws (H:=proto_codec r) Reset (fits r).
Proof.
  intros t m Hfits. exists (enc t r m). simpl. by rewrite Marshal_ok, Unmarshal_ok.
Qed.

Definition framed_device : list byte := frame (enc TDevice some_ranges (mkDevice "fuse1" "Healthy")).

(** A stream on which a framed message arrives in three pieces, one byte of the
    next one with the last. *)
Definition some_stream : Stream :=
  mkStream "/v1beta1.DevicePlugin/Allocate" ""
    (mkReader None false (mkRecvBuffer (Some (chunk (take 3 framed_device)))
       [chunk (take 4 (drop 3 framed_device)); chunk (drop 7 framed_device ++ [x00])]) [] None)
    (fun n => n) 0 0.

Lemma recv_encode_witness :
  let H := proto_codec some_ranges in
  exists s', recv None TDevice (Reset TDevice) 4194304 some_stream = (Ok (mkDevice "fuse1" "Healthy"), s') /\
    stream_holds s' [x00] None /\ Stream_window s' = Stream_window some_stream + slen framed_device.
Proof.
  apply (recv_encode (H:=proto_codec some_ranges) Reset (fits some_ranges) TDevice _ []);
    [by vm_compute|by vm_compute|by vm_compute|lia|].
  split; [done|]. split; [done|]. split; [done|]. split; [done|].
  exists [take 3 framed_device; take 4 (drop 3 framed_device); drop 7 framed_device ++ [x00]].
  split; [|by vm_compute]. repeat constructor; by vm_compute.
Defined.
