(* ===== verification/GrpcServer.v ===== *)
(** * The gRPC server

    server.go: options, registration of services, routing of a stream by its
    method name, unary and streaming calls, and the bookkeeping of listeners and
    connections; and the server stream of stream.go.

    A call is code in the monad [rpc]: it reads from its stream, records what it
    does on the transport, and gets from the environment the results of those
    writes and the order in which its [select]s become ready.  A handler that
    panics panics the process: nothing recovers.  [interface{}] values are typed:
    the implementation of a service is a value of [Impl], a message one of
    [sigT msg].  Contexts, metadata, credentials, keepalive parameters, statistics
    and tracing are not modelled. *)

From stdpp Require Import base list strings gmap.
From Stdlib Require Import ZArith Strings.Ascii Strings.Byte Lia.
From S2P Require Import Prelude GoStrings Wire GrpcStatus GrpcTransport GrpcRpc.
Open Scope Z_scope.

(** ** Calls *)

(** What a call does to the server transport. *)
Inductive taction : Type :=
| AWrite (data : list byte) (last : bool)
| AWriteStatus (st : Status).

(** The environment of a call: the error of its n-th action on the transport,
    the case that its n-th [select] takes ([None]: none is ever ready), and the
    number of rounds after which an endless loop of a handler is given up. *)
Record call_env : Type := {
  action_err : nat -> option go_error;
  selected : nat -> option nat;
  loop_fuel : nat;
}.

Record call : Type := mkCall {
  call_stream : Stream;
  call_actions : list taction;
  call_selects : nat;
}.

Definition rpc (A : Type) : Type := call_env -> call -> res stop A * call.

#[export] Instance rpc_ret : MRet rpc := fun A a E c => (Ok a, c).
#[export] Instance rpc_bind : MBind rpc := fun A B f x E c =>
  let '(r, c) := x E c in
  match r with
  | Ok a => f a E c
  | Err e => (Err e, c)
  | Panic => (Panic, c)
  | Diverge => (Diverge, c)
  end.

Definition rpc_lift {A} (r : res stop A) : rpc A := fun E c => (r, c).
Definition raise {A} (e : go_error) : rpc A := rpc_lift (Err (Raise e)).

(** Return the error if there is one. *)
Definition return_err (e : option go_error) : rpc unit :=
  match e with Some e => raise e | None => mret tt end.

(** Run on the call's stream. *)
Definition rpc_stream {A} (x : on_stream A) : rpc A := fun E c =>
  let '(r, s) := x (call_stream c) in (r, mkCall s (call_actions c) (call_selects c)).

(** The error that a piece of code returns, as a value. *)
Definition try {A} (x : rpc A) : rpc (go_error + A) := fun E c =>
  let '(r, c) := x E c in
  match r with
  | Ok a => (Ok (inr a), c)
  | Err (Raise e) => (Ok (inl e), c)
  | Err e => (Err e, c)
  | Panic => (Panic, c)
  | Diverge => (Diverge, c)
  end.

Definition action (a : taction) : rpc unit := fun E c =>
  let c' := mkCall (call_stream c) (call_actions c ++ [a]) (call_selects c) in
  match action_err E (length (call_actions c)) with
  | Some e => (Err (Raise e), c')
  | None => (Ok tt, c')
  end.

Definition t_Write (data : list byte) (last : bool) : rpc unit := action (AWrite data last).
Definition t_WriteStatus (st : Status) : rpc unit := action (AWriteStatus st).

(** An error that is logged or ignored. *)
Definition ignore {A} (x : rpc A) : rpc unit := try x ≫= fun _ => mret tt.

(** A [select] with [n] cases. *)
Definition do_select (n : nat) : rpc nat := fun E c =>
  let c' := mkCall (call_stream c) (call_actions c) (S (call_selects c)) in
  match selected E (call_selects c) with
  | Some k => (Ok (k mod n)%nat, c')
  | None => (Err Block, c')
  end.

(** Code that is given the bound on its rounds. *)
Definition with_fuel {A} (f : nat -> rpc A) : rpc A := fun E c => f (loop_fuel E) E c.

Definition stream_of : rpc Stream := fun E c => (Ok (call_stream c), c).

(** ** Services *)

Section server.
Context {T : Type} {msg : T -> Type} `{Codec T msg} {Impl : Type}.

Record UnaryServerInfo : Type := { info_Server : Impl; info_FullMethod : string }.

Definition UnaryHandler : Type := sigT msg -> res stop (sigT msg).
Definition UnaryServerInterceptor : Type :=
  sigT msg -> UnaryServerInfo -> UnaryHandler -> res stop (sigT msg).

(** [dec] decodes the request into the message it is given. *)
Definition decoder : Type := forall t, msg t -> res stop (msg t).
Definition methodHandler : Type := Impl -> decoder -> option UnaryServerInterceptor -> res stop (sigT msg).

(** The part of the server's options that a server stream carries. *)
Record serverStream : Type := mkServerStream {
  ss_cp : option Compressor;
  ss_dc : option Decompressor;
  ss_maxMsgSize : Z;
}.

Definition StreamHandler : Type := option Impl -> serverStream -> rpc unit.

Record MethodDesc : Type := { MethodName : string; Handler : methodHandler }.
Record StreamDesc : Type := {
  StreamName : string;
  StreamDesc_Handler : StreamHandler;
  ServerStreams : bool;
  ClientStreams : bool;
}.
Record StreamServerInfo : Type := {
  FullMethod : string; IsClientStream : bool; IsServerStream : bool }.
Definition StreamServerInterceptor : Type :=
  option Impl -> serverStream -> StreamServerInfo -> StreamHandler -> rpc unit.

Record ServiceDesc : Type := {
  ServiceName : string;
  Methods : list MethodDesc;
  Streams : list StreamDesc;
  Metadata : string;
}.

Record service : Type := mkService {
  server : Impl;
  md : gmap string MethodDesc;
  sd : gmap string StreamDesc;
  mdata : string;
}.

(** ** Options *)

Record options : Type := mkOptions {
  cp : option Compressor;
  dc : option Decompressor;
  maxMsgSize : Z;
  unaryInt : option UnaryServerInterceptor;
  streamInt : option StreamServerInterceptor;
  maxConcurrentStreams : Z;
  unknownStreamDesc : option StreamDesc;
}.

Definition defaultMaxMsgSize : Z := 1024 * 1024 * 4.

(** An option may panic. *)
Definition ServerOption : Type := options -> res stop options.

Definition RPCCompressor (c : Compressor) : ServerOption := fun o =>
  Ok (mkOptions (Some c) (dc o) (maxMsgSize o) (unaryInt o) (streamInt o) (maxConcurrentStreams o) (unknownStreamDesc o)).
Definition RPCDecompressor (d : Decompressor) : ServerOption := fun o =>
  Ok (mkOptions (cp o) (Some d) (maxMsgSize o) (unaryInt o) (streamInt o) (maxConcurrentStreams o) (unknownStreamDesc o)).
Definition MaxMsgSize (n : Z) : ServerOption := fun o =>
  Ok (mkOptions (cp o) (dc o) n (unaryInt o) (streamInt o) (maxConcurrentStreams o) (unknownStreamDesc o)).
Definition MaxConcurrentStreams (n : Z) : ServerOption := fun o =>
  Ok (mkOptions (cp o) (dc o) (maxMsgSize o) (unaryInt o) (streamInt o) n (unknownStreamDesc o)).
Definition UnaryInterceptor (i : UnaryServerInterceptor) : ServerOption := fun o =>
  match unaryInt o with
  | Some _ => Panic
  | None => Ok (mkOptions (cp o) (dc o) (maxMsgSize o) (Some i) (streamInt o) (maxConcurrentStreams o) (unknownStreamDesc o))
  end.
Definition StreamInterceptor (i : StreamServerInterceptor) : ServerOption := fun o =>
  match streamInt o with
  | Some _ => Panic
  | None => Ok (mkOptions (cp o) (dc o) (maxMsgSize o) (unaryInt o) (Some i) (maxConcurrentStreams o) (unknownStreamDesc o))
  end.
Definition UnknownServiceHandler (h : StreamHandler) : ServerOption := fun o =>
  Ok (mkOptions (cp o) (dc o) (maxMsgSize o) (unaryInt o) (streamInt o) (maxConcurrentStreams o)
    (Some {| StreamName := "unknown_service_handler"; StreamDesc_Handler := h;
             ServerStreams := true; ClientStreams := true |})).

(** ** The server

    Listeners and connections are numbered; the maps are nil, [None], after [Stop]. *)
Record Server : Type := mkServer {
  opts : options;
  lis : option (gset nat);
  conns : option (gset nat);
  drain : bool;
  cancelled : bool;
  m : gmap string service;
}.

Definition NewServer (opt : list ServerOption) : res stop Server :=
  o ← foldl (fun o f => o ≫= f) (Ok (mkOptions None None defaultMaxMsgSize None None 0 None)) opt;
  Ok (mkServer o (Some ∅) (Some ∅) false false ∅).

(** A later method of the same name replaces an earlier one. *)
Definition new_service (d : ServiceDesc) (ss : Impl) : service :=
  mkService ss
    (foldl (fun mp d => <[MethodName d := d]> mp) ∅ (Methods d))
    (foldl (fun mp d => <[StreamName d := d]> mp) ∅ (Streams d))
    (Metadata d).

(** [RegisterService]: that [ss] implements the service is checked by its type here;
    a duplicate registration is fatal. *)
Definition register (s : Server) (d : ServiceDesc) (ss : Impl) : res stop Server :=
  match m s !! ServiceName d with
  | Some _ => Err (Exit 1)
  | None =>
      Ok (mkServer (opts s) (lis s) (conns s) (drain s) (cancelled s)
        (<[ServiceName d := new_service d ss]> (m s)))
  end.

Definition RegisterService (s : Server) (d : ServiceDesc) (ss : Impl) : res stop Server := register s d ss.

Record MethodInfo : Type := { Name : string; MI_ClientStream : bool; MI_ServerStream : bool }.

(** [GetServiceInfo], with the methods in the order of the maps. *)
Definition service_info (srv : service) : list MethodInfo * string :=
  (map (fun kv => {| Name := kv.1; MI_ClientStream := false; MI_ServerStream := false |}) (map_to_list (md srv)) ++
   map (fun kv => {| Name := kv.1; MI_ClientStream := ClientStreams kv.2; MI_ServerStream := ServerStreams kv.2 |})
     (map_to_list (sd srv)), mdata srv).

Definition GetServiceInfo (s : Server) : gmap string (list MethodInfo * string) := service_info <$> m s.

(** ** The server stream *)

Definition SendMsg (ss : serverStream) (x : sigT msg) : rpc unit :=
  out ← try (rpc_lift (encode (Some x) (ss_cp ss) []));
  match out with
  | inl e => rpc_lift (fail codes.Internal ("grpc: " +:+ error_string e))
  | inr out =>
      r ← try (t_Write out false);
      match r with
      | inl e => return_err (toRPCErr (Some e))
      | inr _ => mret tt
      end
  end.

Definition RecvMsg (ss : serverStream) (t : T) (x : msg t) : rpc (msg t) :=
  r ← try (rpc_stream (recv (ss_dc ss) t x (ss_maxMsgSize ss)));
  match r with
  | inr x => mret x
  | inl e =>
      if bool_decide (e = EOF) then raise e else
      let err := if bool_decide (e = UnexpectedEOF)
                 then Errorf codes.Internal (error_string UnexpectedEOF) else Some e in
      return_err (toRPCErr err) ≫= fun _ => rpc_lift Panic
  end.

(** ** Processing a call *)

(** An error of the stream or the transport is written to the client if it can be. *)
Definition report (e : go_error) : rpc unit :=
  match FromError (Some e) with
  | Some st => ignore (t_WriteStatus st)
  | None =>
      match e with
      | ConnectionError _ _ => mret tt
      | StreamError c d => ignore (t_WriteStatus (New c d))
      | _ => rpc_lift Panic
      end
  end.

(** The function [df] that decodes a request. *)
Definition decode_request (s : Server) (pf : Z) (req : list byte) : decoder := fun t v =>
  req ← (if pf =? compressionMade then
           match dc (opts s) with
           | Some d => wrap (Decompressor_Do d req) codes.Internal ""
           | None => Panic
           end
         else Ok req);
  if maxMsgSize (opts s) <? slen req then
    fail codes.Internal ("grpc: server received a message of " +:+ Itoa (slen req) +:+
      " bytes exceeding " +:+ Itoa (maxMsgSize (opts s)) +:+ " limit")
  else wrap (Codec_Unmarshal t v req) codes.Internal "grpc: error unmarshalling request: ".

(** A response that cannot be encoded ends the process. *)
Definition sendResponse (s : Server) (x : sigT msg) : rpc unit :=
  p ← try (rpc_lift (encode (Some x) (cp (opts s)) []));
  match p with
  | inl _ => rpc_lift (Err (Exit 1))
  | inr p => t_Write p true
  end.

(** The call of the handler with a received request, and the reply. *)
Definition handle_request (s : Server) (srv : service) (d : MethodDesc) (pf : Z) (req : list byte) : rpc unit :=
  reply ← try (rpc_lift (Handler d (server srv) (decode_request s pf req) (unaryInt (opts s))));
  match reply with
  | inl appErr =>
      let appStatus :=
        match FromError (Some appErr) with
        | Some st => st
        | None => New (convertCode (Some appErr)) (error_string appErr)
        end in
      ignore (t_WriteStatus appStatus) ≫= fun _ => return_err (Status_Err appStatus)
  | inr reply =>
      r ← try (sendResponse s reply);
      match r with
      | inl e =>
          if bool_decide (e = EOF) then raise e else
          report e ≫= fun _ => raise e
      | inr _ => t_WriteStatus (New codes.OK "")
      end
  end.

Definition processUnaryRPC (s : Server) (srv : service) (d : MethodDesc) : rpc unit :=
  r ← try (rpc_stream (parser_recvMsg (maxMsgSize (opts s))));
  match r with
  | inl e =>
      if bool_decide (e = EOF) then raise e else
      let e := if bool_decide (e = UnexpectedEOF)
               then default e (Errorf codes.Internal (error_string UnexpectedEOF)) else e in
      report e ≫= fun _ => raise e
  | inr (pf, req) =>
      stream ← stream_of;
      match checkRecvPayload pf (Stream_recvCompress stream) (dc (opts s)) with
      | Some e =>
          match FromError (Some e) with
          | Some st => ignore (t_WriteStatus st) ≫= fun _ => raise e
          | None =>
              ignore (t_WriteStatus (New codes.Internal (error_string e))) ≫= fun _ =>
              handle_request s srv d pf req
          end
      | None => handle_request s srv d pf req
      end
  end.

Definition processStreamingRPC (s : Server) (srv : option service) (d : StreamDesc) : rpc unit :=
  let ss := mkServerStream (cp (opts s)) (dc (opts s)) (maxMsgSize (opts s)) in
  let impl := server <$> srv in
  stream ← stream_of;
  r ← try (match streamInt (opts s) with
           | None => StreamDesc_Handler d impl ss
           | Some int =>
               int impl ss {| FullMethod := Stream_method stream; IsClientStream := ClientStreams d;
                              IsServerStream := ServerStreams d |} (StreamDesc_Handler d)
           end);
  match r with
  | inl appErr =>
      let appStatus :=
        match FromError (Some appErr), appErr with
        | Some st, _ => st
        | None, StreamError c d => New c d
        | None, _ => New (convertCode (Some appErr)) (error_string appErr)
        end in
      ignore (t_WriteStatus appStatus) ≫= fun _ => return_err (Status_Err appStatus)
  | inr _ => t_WriteStatus (New codes.OK "")
  end.

(** Service and method of a full method name. *)
Definition split_method (method : string) : option (string * string) :=
  let sm := match method with
            | String c sm => if bool_decide (c = "/"%char) then sm else method
            | EmptyString => method
            end in
  match LastIndex sm "/" with
  | None => None
  | Some pos => Some (str_take pos sm, str_drop (S pos) sm)
  end.

(** [handleStream]: the errors of a call are not passed on. *)
Definition handleStream (s : Server) : rpc unit :=
  stream ← stream_of;
  match split_method (Stream_method stream) with
  | None =>
      ignore (t_WriteStatus (New codes.InvalidArgument
        ("malformed method name: " +:+ Quote (Stream_method stream))))
  | Some (service, method) =>
      match m s !! service with
      | None =>
          match unknownStreamDesc (opts s) with
          | Some d => ignore (processStreamingRPC s None d)
          | None => ignore (t_WriteStatus (New codes.Unimplemented ("unknown service " +:+ service)))
          end
      | Some srv =>
          match md srv !! method, sd srv !! method with
          | Some d, _ => ignore (processUnaryRPC s srv d)
          | None, Some d => ignore (processStreamingRPC s (Some srv) d)
          | None, None =>
              match unknownStreamDesc (opts s) with
              | Some d => ignore (processStreamingRPC s None d)
              | None => ignore (t_WriteStatus (New codes.Unimplemented ("unknown method " +:+ method)))
              end
          end
      end
  end.

(** ** Listeners and connections *)

Definition set_lis (s : Server) (l : option (gset nat)) : Server :=
  mkServer (opts s) l (conns s) (drain s) (cancelled s) (m s).
Definition set_conns (s : Server) (c : option (gset nat)) : Server :=
  mkServer (opts s) (lis s) c (drain s) (cancelled s) (m s).

(** The entry of [Serve]: whether the listener is taken; otherwise [Serve] closes
    it and returns [ErrServerStopped]. *)
Definition Serve_enter (s : Server) (l : nat) : bool * Server :=
  match lis s with
  | None => (false, s)
  | Some ls => (true, set_lis s (Some ({[ l ]} ∪ ls)))
  end.

(** The deferred function of [Serve]: whether it closes the listener. *)
Definition Serve_leave (s : Server) (l : nat) : bool * Server :=
  match lis s with
  | Some ls => if bool_decide (l ∈ ls) then (true, set_lis s (Some (ls ∖ {[ l ]}))) else (false, s)
  | None => (false, s)
  end.

Definition addConn (s : Server) (c : nat) : bool * Server :=
  match conns s with
  | None => (false, s)
  | Some cs => if drain s then (false, s) else (true, set_conns s (Some ({[ c ]} ∪ cs)))
  end.

Definition removeConn (s : Server) (c : nat) : Server :=
  match conns s with
  | None => s
  | Some cs => set_conns s (Some (cs ∖ {[ c ]}))
  end.

(** The listeners and connections that [Stop] closes, and the server after it. *)
Definition Stop (s : Server) : gset nat * gset nat * Server :=
  (default ∅ (lis s), default ∅ (conns s),
   mkServer (opts s) None None (drain s) true (m s)).

(** [GracefulStop] up to its wait: the listeners it closes, the connections it
    drains; then it waits for [conns] to be empty or nil. *)
Definition GracefulStop_begin (s : Server) : gset nat * gset nat * Server :=
  match conns s with
  | None => (∅, ∅, s)
  | Some cs =>
      (default ∅ (lis s), if drain s then ∅ else cs,
       mkServer (opts s) None (conns s) true true (m s))
  end.

Definition GracefulStop_done (s : Server) : bool := bool_decide (default ∅ (conns s) = ∅).

Definition GracefulStop_end (s : Server) : Server := set_conns s None.

(** [time.Duration]s of the back-off of [Serve] after temporary errors of [Accept]. *)
Definition Millisecond : Z := 1000000.
Definition next_tempDelay (tempDelay : Z) : Z :=
  let d := if tempDelay =? 0 then 5 * Millisecond else tempDelay * 2 in
  if 1000 * Millisecond <? d then 1000 * Millisecond else d.
End server.

Arguments Server {T} msg Impl.
Arguments ServiceDesc {T} msg Impl.
Arguments service {T} msg Impl.
Arguments MethodDesc {T} msg Impl.
Arguments StreamDesc Impl : clear implicits.
Arguments options {T} msg Impl.

(** ** Properties *)

(** Executing a bind whose first part is known. *)
Lemma rpc_bind_ok {A B} (x : rpc A) (f : A -> rpc B) E c a c' :
  x E c = (Ok a, c') -> (x ≫= f) E c = f a E c'.
Proof. unfold mbind, rpc_bind. by intros ->. Qed.

Lemma rpc_bind_panic {A B} (x : rpc A) (f : A -> rpc B) E c c' :
  x E c = (Panic, c') -> (x ≫= f) E c = (Panic, c').
Proof. unfold mbind, rpc_bind. by intros ->. Qed.

Lemma try_ok {A} (x : rpc A) E c a c' : x E c = (Ok a, c') -> try x E c = (Ok (inr a), c').
Proof. unfold try. by intros ->. Qed.

Lemma try_err {A} (x : rpc A) E c e c' : x E c = (Err (Raise e), c') -> try x E c = (Ok (inl e), c').
Proof. unfold try. by intros ->. Qed.

Lemma try_panic {A} (x : rpc A) E c c' : x E c = (Panic, c') -> try x E c = (Panic, c').
Proof. unfold try. by intros ->. Qed.

(** The call after an action. *)
Definition acted (c : call) (a : taction) : call :=
  mkCall (call_stream c) (call_actions c ++ [a]) (call_selects c).

Lemma ignore_action a E c : ignore (action a) E c = (Ok tt, acted c a).
Proof. unfold ignore, try, action, mbind, rpc_bind. by destruct (action_err _ _). Qed.

Lemma ignore_result {A} (x : rpc A) E c r c' :
  x E c = (r, c') ->
  ignore x E c = (match r with Ok _ => Ok tt | Err (Raise _) => Ok tt | Err e => Err e | Panic => Panic | Diverge => Diverge end, c').
Proof. unfold ignore, try, mbind, rpc_bind. intros ->. by destruct r as [|[]| |]. Qed.

Lemma split_method_slash sm :
  split_method (String "/" sm) =
  match LastIndex sm "/" with None => None | Some pos => Some (str_take pos sm, str_drop (S pos) sm) end.
Proof. done. Qed.

(** A full method name splits at its last slash, with or without the slash in
    front. *)
Lemma split_method_correct service method :
  all_chars (fun d => negb (bool_decide (d = "/"%char))) method = true ->
  split_method ("/" +:+ service +:+ "/" +:+ method) = Some (service, method).
Proof.
  intros Hm. change (split_method (String "/" (service +:+ String "/" method)) = Some (service, method)).
  rewrite split_method_slash, LastIndex_app by done.
  by rewrite str_take_app, str_drop_app.
Qed.

Lemma split_method_none method :
  all_chars (fun d => negb (bool_decide (d = "/"%char))) method = true ->
  split_method ("/" +:+ method) = None /\ split_method method = None.
Proof.
  intros Hm. split; [change (split_method (String "/" method) = None);
    by rewrite split_method_slash, LastIndex_none|].
  unfold split_method. destruct method as [|c method]; [done|]. simpl in Hm. apply andb_true_iff in Hm as [Hc Hm].
  destruct (bool_decide (c = "/"%char)) eqn:Hcc; [done|].
  by rewrite LastIndex_none by (simpl; by rewrite Hcc, Hm).
Qed.

Section unary.
Context {T : Type} {msg : T -> Type} `{Codec T msg} {Impl : Type}.
Implicit Types (s : Server msg Impl) (srv : service msg Impl) (d : MethodDesc msg Impl).

(** Without a compressor and with no error of the transport. *)
Definition plain s : Prop := cp (opts s) = None /\ dc (opts s) = None.
Definition healthy (E : call_env) : Prop := forall n, action_err E n = None.

Lemma checkRecvPayload_none rc dc : checkRecvPayload compressionNone rc dc = None.
Proof. done. Qed.

(** The request of a unary call reaches the handler. *)
Lemma processUnaryRPC_request s srv d E c b rest fin :
  plain s -> stream_holds (call_stream c) (frame b ++ rest) fin ->
  slen b <= maxMsgSize (opts s) < 2 ^ 32 ->
  exists st, stream_holds st rest fin /\
    processUnaryRPC s srv d E c =
      handle_request s srv d compressionNone b E (mkCall st (call_actions c) (call_selects c)).
Proof.
  intros [Hcp Hdc] Hs Hlen.
  destruct (recvMsg_frame (call_stream c) b rest fin (maxMsgSize (opts s)) Hs Hlen) as (st & Hr & Hh & _ & _).
  exists st. split; [done|]. unfold processUnaryRPC.
  erewrite rpc_bind_ok; [|apply try_ok; unfold rpc_stream; rewrite Hr; done].
  cbv beta iota. erewrite rpc_bind_ok by done. by rewrite checkRecvPayload_none.
Qed.

Lemma decode_request_plain s b t (v : msg t) :
  dc (opts s) = None -> slen b <= maxMsgSize (opts s) ->
  decode_request s compressionNone b t v =
    wrap (Codec_Unmarshal t v b) codes.Internal "grpc: error unmarshalling request: ".
Proof. intros Hdc Hlen. unfold decode_request. simpl. zcases; [lia|done]. Qed.

Lemma handle_request_reply s srv d E c b t y out :
  plain s -> healthy E ->
  Handler d (server srv) (decode_request s compressionNone b) (unaryInt (opts s)) = Ok (existT t y) ->
  Codec_Marshal t y = Ok out -> slen out < 2 ^ 32 ->
  handle_request s srv d compressionNone b E c =
    (Ok tt, acted (acted c (AWrite (frame out) true)) (AWriteStatus (New codes.OK ""))).
Proof.
  intros [Hcp Hdc] HE Hh Hm Hout. unfold handle_request.
  erewrite rpc_bind_ok; [|apply try_ok; unfold rpc_lift; rewrite Hh; done].
  cbv beta iota. erewrite rpc_bind_ok.
  2:{ apply try_ok. unfold sendResponse. rewrite Hcp.
      erewrite rpc_bind_ok; [|apply try_ok; unfold rpc_lift; rewrite (encode_frame _ _ out) by done; done].
      cbv beta iota.
      unfold t_Write, action. rewrite HE. done. }
  unfold t_WriteStatus, action. simpl. by rewrite HE.
Qed.

(** The status that the client sees for an error of the handler. *)
Definition error_status (e : go_error) : Status :=
  match FromError (Some e) with
  | Some st => st
  | None => New (convertCode (Some e)) (error_string e)
  end.

Lemma handle_request_error s srv d E c b e :
  Handler d (server srv) (decode_request s compressionNone b) (unaryInt (opts s)) = Err (Raise e) ->
  handle_request s srv d compressionNone b E c =
    return_err (Status_Err (error_status e)) E (acted c (AWriteStatus (error_status e))).
Proof.
  intros Hh. unfold handle_request.
  erewrite rpc_bind_ok; [|apply try_err; unfold rpc_lift; rewrite Hh; done].
  cbv beta iota zeta. by erewrite rpc_bind_ok by apply ignore_action.
Qed.

Lemma handle_request_panic s srv d E c b :
  Handler d (server srv) (decode_request s compressionNone b) (unaryInt (opts s)) = Panic ->
  handle_request s srv d compressionNone b E c = (Panic, c).
Proof. intros Hh. unfold handle_request. apply rpc_bind_panic, try_panic. unfold rpc_lift. by rewrite Hh. Qed.

(** How [handleStream] finds the method. *)
Definition route s (method : string) : option (service msg Impl * (MethodDesc msg Impl + StreamDesc Impl)) :=
  '(svc, mth) ← split_method method;
  srv ← m s !! svc;
  match md srv !! mth, sd srv !! mth with
  | Some d, _ => Some (srv, inl d)
  | None, Some d => Some (srv, inr d)
  | None, None => None
  end.

Lemma handleStream_call s E c :
  unknownStreamDesc (opts s) = None ->
  match route s (Stream_method (call_stream c)) with
  | Some (srv, inl d) => handleStream s E c = ignore (processUnaryRPC s srv d) E c
  | Some (srv, inr d) => handleStream s E c = ignore (processStreamingRPC s (Some srv) d) E c
  | None => exists st, handleStream s E c = (Ok tt, acted c (AWriteStatus st)) /\
      Status_Code st = (if split_method (Stream_method (call_stream c))
                        is Some _ then codes.Unimplemented else codes.InvalidArgument)
  end.
Proof.
  intros Hu. unfold route, handleStream. erewrite rpc_bind_ok by done. simpl.
  destruct (split_method _) as [[svc mth]|]; simpl.
  2:{ eexists. split; [apply ignore_action|done]. }
  destruct (m s !! svc) as [srv|]; simpl; rewrite ?Hu.
  2:{ eexists. split; [apply ignore_action|done]. }
  destruct (md srv !! mth) as [d|]; [done|]. destruct (sd srv !! mth) as [d|]; [done|].
  eexists. split; [apply ignore_action|done].
Qed.

(** A call that cannot be routed, for a malformed full method name, an unknown
    service or an unknown method, is refused without reading its stream: exactly
    one status is written, InvalidArgument for a malformed name and Unimplemented
    otherwise.  A name is malformed when it has no slash but the first. *)
Theorem handleStream_unroutable s E c :
  unknownStreamDesc (opts s) = None -> route s (Stream_method (call_stream c)) = None ->
  exists st, handleStream s E c = (Ok tt, acted c (AWriteStatus st)) /\
    Status_Code st = (if split_method (Stream_method (call_stream c))
                      is Some _ then codes.Unimplemented else codes.InvalidArgument).
Proof. intros Hu Hr. pose proof (handleStream_call s E c Hu) as Hh. by rewrite Hr in Hh. Qed.
End unary.

(** The back-off of [Serve] after temporary errors doubles from five milliseconds up
    to one second. *)
Lemma next_tempDelay_range d :
  0 <= d <= 1000 * Millisecond -> 5 * Millisecond <= d \/ d = 0 ->
  5 * Millisecond <= next_tempDelay d <= 1000 * Millisecond /\
  (next_tempDelay d = 1000 * Millisecond \/ 2 * d <= next_tempDelay d).
Proof. unfold next_tempDelay, Millisecond. intros. zcases; lia. Qed.
