(* ===== verification/GrpcLifecycle.v ===== *)
(** * The life of a gRPC server: listeners, connections and [Stop]

    [Serve] runs in a goroutine per listener and starts one per accepted
    connection; [Stop] and [GracefulStop] run in others.  [sys_step] is the
    interleaving of their steps: a critical section of the server's mutex is one
    step, closing a listener or a connection is another, and in between any other
    goroutine may run.  The theorems say that nothing outlives a stop. *)

From stdpp Require Import base list strings gmap relations.
From Stdlib Require Import ZArith Lia.
From S2P Require Import Prelude GrpcStatus GrpcTransport GrpcRpc GrpcServer.

Set Warnings "-clear-no-such-hyp".

(** Program counters of [Serve] and of the goroutine of a connection. *)
Inductive serve_pc : Type :=
| SEntering   (* before the check of s.lis *)
| SAccepting  (* in the accept loop *)
| SLeaving    (* Accept failed; before the deferred function *)
| SDone.

Inductive conn_pc : Type :=
| CNew        (* accepted; before the check of s.conns *)
| CSetup      (* the transport is being set up *)
| CServing    (* added to s.conns *)
| CClosing    (* HandleStreams returned *)
| CRemoving   (* closed; before removeConn *)
| CDone.

Section lifecycle.
Context {T : Type} {msg : T -> Type} {Impl : Type}.
Implicit Types (s : Server msg Impl).

Record sys : Type := mkSys {
  srv : Server msg Impl;
  open_lis : gset nat;
  open_conns : gset nat;
  serve_threads : gmap nat serve_pc;
  conn_threads : gmap nat conn_pc;
  closing_lis : gset nat;     (* taken by Stop and not closed yet *)
  closing_conns : gset nat;
}.

Definition with_srv (x : sys) s : sys :=
  mkSys s (open_lis x) (open_conns x) (serve_threads x) (conn_threads x) (closing_lis x) (closing_conns x).
Definition close_lis (x : sys) (l : gset nat) : sys :=
  mkSys (srv x) (open_lis x ∖ l) (open_conns x) (serve_threads x) (conn_threads x) (closing_lis x ∖ l) (closing_conns x).
Definition close_conns (x : sys) (c : gset nat) : sys :=
  mkSys (srv x) (open_lis x) (open_conns x ∖ c) (serve_threads x) (conn_threads x) (closing_lis x) (closing_conns x ∖ c).
Definition set_serve (x : sys) (l : nat) (pc : serve_pc) : sys :=
  mkSys (srv x) (open_lis x) (open_conns x) (<[l := pc]> (serve_threads x)) (conn_threads x) (closing_lis x) (closing_conns x).
Definition set_conn (x : sys) (c : nat) (pc : conn_pc) : sys :=
  mkSys (srv x) (open_lis x) (open_conns x) (serve_threads x) (<[c := pc]> (conn_threads x)) (closing_lis x) (closing_conns x).

(** [go s.Serve(l)] on a new listener. *)
Definition spawn (x : sys) (l : nat) : sys :=
  set_serve (mkSys (srv x) ({[ l ]} ∪ open_lis x) (open_conns x) (serve_threads x) (conn_threads x)
    (closing_lis x) (closing_conns x)) l SEntering.

Definition do_serve_enter (x : sys) (l : nat) : sys :=
  match Serve_enter (srv x) l with
  | (true, s) => set_serve (with_srv x s) l SAccepting
  | (false, s) => set_serve (close_lis (with_srv x s) {[ l ]}) l SDone
  end.

Definition do_accept (x : sys) (c : nat) : sys :=
  set_conn (mkSys (srv x) (open_lis x) ({[ c ]} ∪ open_conns x) (serve_threads x) (conn_threads x)
    (closing_lis x) (closing_conns x)) c CNew.

Definition do_serve_leave (x : sys) (l : nat) : sys :=
  match Serve_leave (srv x) l with
  | (true, s) => set_serve (close_lis (with_srv x s) {[ l ]}) l SDone
  | (false, s) => set_serve (with_srv x s) l SDone
  end.

(** [if s.conns == nil { conn.Close(); return }] *)
Definition do_check (x : sys) (c : nat) : sys :=
  match conns (srv x) with
  | None => set_conn (close_conns x {[ c ]}) c CDone
  | Some _ => set_conn x c CSetup
  end.

Definition do_add (x : sys) (c : nat) : sys :=
  match addConn (srv x) c with
  | (true, s) => set_conn (with_srv x s) c CServing
  | (false, s) => set_conn (close_conns (with_srv x s) {[ c ]}) c CDone
  end.

(** The critical section of [Stop]; the closing comes after it. *)
Definition do_stop (x : sys) : sys :=
  let '(ls, cs, s) := Stop (srv x) in
  mkSys s (open_lis x) (open_conns x) (serve_threads x) (conn_threads x)
    (ls ∪ closing_lis x) (cs ∪ closing_conns x).

(** [GracefulStop] closes the listeners inside its critical section. *)
Definition do_graceful (x : sys) : sys :=
  let '(ls, _, s) := GracefulStop_begin (srv x) in close_lis (with_srv x s) ls.

Inductive sys_step : sys -> sys -> Prop :=
| sys_spawn x l : serve_threads x !! l = None -> sys_step x (spawn x l)
| sys_serve_enter x l : serve_threads x !! l = Some SEntering -> sys_step x (do_serve_enter x l)
| sys_accept x l c : serve_threads x !! l = Some SAccepting -> l ∈ open_lis x ->
    conn_threads x !! c = None -> sys_step x (do_accept x c)
| sys_accept_fails x l : serve_threads x !! l = Some SAccepting -> sys_step x (set_serve x l SLeaving)
| sys_serve_leave x l : serve_threads x !! l = Some SLeaving -> sys_step x (do_serve_leave x l)
| sys_handshake_fails x c : conn_threads x !! c = Some CNew ->
    sys_step x (set_conn (close_conns x {[ c ]}) c CDone)
| sys_check x c : conn_threads x !! c = Some CNew -> sys_step x (do_check x c)
| sys_setup_fails x c : conn_threads x !! c = Some CSetup ->
    sys_step x (set_conn (close_conns x {[ c ]}) c CDone)
| sys_add x c : conn_threads x !! c = Some CSetup -> sys_step x (do_add x c)
| sys_streams_end x c : conn_threads x !! c = Some CServing -> sys_step x (set_conn x c CClosing)
| sys_conn_close x c : conn_threads x !! c = Some CClosing ->
    sys_step x (set_conn (close_conns x {[ c ]}) c CRemoving)
| sys_conn_remove x c : conn_threads x !! c = Some CRemoving ->
    sys_step x (set_conn (with_srv x (removeConn (srv x) c)) c CDone)
| sys_stop x : sys_step x (do_stop x)
| sys_stop_lis x l : l ∈ closing_lis x -> sys_step x (close_lis x {[ l ]})
| sys_stop_conn x c : c ∈ closing_conns x -> sys_step x (close_conns x {[ c ]})
| sys_graceful x : sys_step x (do_graceful x)
| sys_graceful_end x : drain (srv x) = true -> GracefulStop_done (srv x) = true ->
    sys_step x (with_srv x (GracefulStop_end (srv x))).

Definition sys_init s : sys := mkSys s ∅ ∅ ∅ ∅ ∅ ∅.

(** Every open listener and connection is in somebody's care: of the goroutine that
    will look at the server next, of the server, or of a [Stop] at work. *)
Record sys_inv (x : sys) : Prop := mkSysInv {
  inv_lis l : l ∈ open_lis x ->
    serve_threads x !! l = Some SEntering \/ l ∈ default ∅ (lis (srv x)) \/ l ∈ closing_lis x;
  inv_lis_pc l : l ∈ default ∅ (lis (srv x)) ->
    serve_threads x !! l = Some SAccepting \/ serve_threads x !! l = Some SLeaving;
  inv_conn c : c ∈ open_conns x ->
    conn_threads x !! c = Some CNew \/ conn_threads x !! c = Some CSetup \/
    conn_threads x !! c = Some CServing \/ conn_threads x !! c = Some CClosing;
  inv_serving c : conn_threads x !! c = Some CServing -> c ∈ open_conns x ->
    c ∈ default ∅ (conns (srv x)) \/ c ∈ closing_conns x;
  inv_serving_conns c : conn_threads x !! c = Some CServing ->
    match conns (srv x) with Some cs => c ∈ cs | None => True end;
  inv_new c : conn_threads x !! c = None -> (c ∉ open_conns x) /\ (c ∉ default ∅ (conns (srv x))) /\ (c ∉ closing_conns x);
  inv_new_lis l : serve_threads x !! l = None -> (l ∉ open_lis x) /\ (l ∉ closing_lis x);
}.

(** The cases of a looked-up key, then set reasoning on the instances of the
    invariant at that key. *)
Ltac at_key k :=
  repeat match goal with H : forall _ : nat, _ |- _ => generalize (H k); clear H; intros H end.

Ltac split_lookups :=
  repeat match goal with
  | H : context [<[?i := _]> _ !! ?j] |- _ => rewrite (lookup_insert _ i j) in H
  | |- context [<[?i := _]> _ !! ?j] => rewrite (lookup_insert _ i j)
  end;
  repeat case_decide; subst.

Ltac solve_inv := constructor; simpl; intros k; at_key k; intros; split_lookups; set_solver.

Lemma sys_step_inv x x' : sys_step x x' -> sys_inv x -> sys_inv x'.
Proof.
  intros Hstep Hinv. destruct Hstep; destruct x as [[o l0 c0 d cc mm] ol oc st ct cl cc0];
    destruct Hinv as [I1 I2 I3 I4 I5 I6 I7]; simpl in *.
  all: unfold do_serve_enter, do_serve_leave, do_check, do_add, do_stop, do_graceful, Serve_enter, Serve_leave,
    addConn, removeConn, Stop, GracefulStop_begin, GracefulStop_end, GracefulStop_done, set_lis, set_conns in *; simpl in *.
  all: repeat case_match; simplify_eq; simpl in *.
  all: solve_inv.
Qed.

Lemma sys_init_inv s : lis s = Some ∅ -> conns s = Some ∅ -> sys_inv (sys_init s).
Proof.
  intros Hl Hc. constructor; simpl; rewrite ?Hl, ?Hc; simpl; try set_solver.
Qed.

Lemma sys_reachable_inv s x :
  lis s = Some ∅ -> conns s = Some ∅ -> rtc sys_step (sys_init s) x -> sys_inv x.
Proof.
  intros Hl Hc Hrun. remember (sys_init s) as x0 eqn:Hx0.
  assert (sys_inv x0) as Hinv by (subst; by apply sys_init_inv).
  clear Hx0. induction Hrun; eauto using sys_step_inv.
Qed.

(** A stopped server stays stopped. *)
Definition stopped (x : sys) : Prop := lis (srv x) = None /\ conns (srv x) = None.

(** C38: When [Stop] has returned, nothing that the server was handed stays open for
    good, however its goroutines interleaved with it: a listener that is still
    open belongs to a [Serve] that has not yet looked at the server and will close
    it; every other accept loop and every call in service finds its listener or
    connection closed, and a connection that is still open belongs to a goroutine
    that is going to close it. *)
Theorem Stop_closes_everything s x :
  lis s = Some ∅ -> conns s = Some ∅ -> rtc sys_step (sys_init s) x ->
  stopped x -> closing_lis x = ∅ -> closing_conns x = ∅ ->
  (forall l, l ∈ open_lis x ->
     serve_threads x !! l = Some SEntering /\ l ∉ open_lis (do_serve_enter x l)) /\
  (forall c, c ∈ open_conns x ->
     (conn_threads x !! c = Some CNew /\ c ∉ open_conns (do_check x c)) \/
     (conn_threads x !! c = Some CSetup /\ c ∉ open_conns (do_add x c)) \/
     conn_threads x !! c = Some CClosing).
Proof.
  intros Hl Hc Hrun [Hsl Hsc] Hcl Hcc.
  destruct (sys_reachable_inv s x Hl Hc Hrun) as [I1 I2 I3 I4 I5 I6 I7].
  split.
  - intros l Hin. destruct (I1 l Hin) as [He|[He|He]];
      [|rewrite Hsl in He; set_solver|rewrite Hcl in He; set_solver].
    split; [done|]. unfold do_serve_enter, Serve_enter. rewrite Hsl. simpl. set_solver.
  - intros c Hin. destruct (I3 c Hin) as [He|[He|[He|He]]]; [left|right; left| |by right; right].
    + split; [done|]. unfold do_check. rewrite Hsc. simpl. set_solver.
    + split; [done|]. unfold do_add, addConn. rewrite Hsc. simpl. set_solver.
    + destruct (I4 c He Hin) as [H1|H1]; [rewrite Hsc in H1|rewrite Hcc in H1]; set_solver.
Qed.

(** [GracefulStop] returns only when no connection is served any more. *)
Theorem GracefulStop_waits s x :
  lis s = Some ∅ -> conns s = Some ∅ -> rtc sys_step (sys_init s) x ->
  conns (srv x) <> None -> GracefulStop_done (srv x) = true ->
  forall c, conn_threads x !! c <> Some CServing.
Proof.
  intros Hl Hc Hrun Hn Hd c Hs. apply bool_decide_eq_true in Hd.
  pose proof (inv_serving_conns _ (sys_reachable_inv s x Hl Hc Hrun) c Hs) as Hin.
  destruct (conns (srv x)) as [cs|]; [|done]. simpl in Hd. subst. set_solver.
Qed.
End lifecycle.

(** ** Witnesses *)

Definition a_server : Server (fun _ : unit => unit) unit :=
  mkServer (mkOptions None None 0 None None 0 None) (Some ∅) (Some ∅) false false ∅.

(** A listener with one connection in service and one just accepted. *)
Definition serving : sys :=
  do_accept (do_add (do_check (do_accept (do_serve_enter (spawn (sys_init a_server) 0) 0) 5) 5) 5) 6.

Lemma serving_reachable : rtc sys_step (sys_init a_server) serving.
Proof.
  eapply rtc_l; [by apply (sys_spawn _ 0)|].
  eapply rtc_l; [by apply (sys_serve_enter _ 0)|].
  eapply rtc_l; [by apply (sys_accept _ 0 5); [|vm_compute; set_solver|]|].
  eapply rtc_l; [by apply (sys_check _ 5)|].
  eapply rtc_l; [by apply (sys_add _ 5)|].
  eapply rtc_l; [by apply (sys_accept _ 0 6); [|vm_compute; set_solver|]|].
  apply rtc_refl.
Qed.

(** ... stopped: one connection is left, to the goroutine that will close it. *)
Definition after_stop : sys := close_conns (close_lis (do_stop serving) {[ 0%nat ]}) {[ 5%nat ]}.

Lemma Stop_closes_everything_witness :
  (forall l, l ∈ open_lis after_stop ->
     serve_threads after_stop !! l = Some SEntering /\ l ∉ open_lis (do_serve_enter after_stop l)) /\
  (forall c, c ∈ open_conns after_stop ->
     (conn_threads after_stop !! c = Some CNew /\ c ∉ open_conns (do_check after_stop c)) \/
     (conn_threads after_stop !! c = Some CSetup /\ c ∉ open_conns (do_add after_stop c)) \/
     conn_threads after_stop !! c = Some CClosing).
Proof.
  apply (Stop_closes_everything a_server); try done.
  etrans; [apply serving_reachable|].
  eapply rtc_l; [apply sys_stop|].
  eapply rtc_l; [apply (sys_stop_lis _ 0); vm_compute; set_solver|].
  eapply rtc_l; [apply (sys_stop_conn _ 5); vm_compute; set_solver|].
  apply rtc_refl.
Defined.

(** A graceful stop whose connection has gone. *)
Definition after_drain : sys :=
  set_conn (with_srv (set_conn (close_conns (set_conn (do_graceful serving) 5 CClosing) {[ 5%nat ]}) 5 CRemoving)
    (removeConn (srv (set_conn (close_conns (set_conn (do_graceful serving) 5 CClosing) {[ 5%nat ]}) 5 CRemoving)) 5)) 5 CDone.

Lemma GracefulStop_waits_witness : conn_threads after_drain !! 5%nat <> Some CServing /\ conn_threads serving !! 5%nat = Some CServing.
Proof.
  split; [|reflexivity].
  apply (GracefulStop_waits a_server); try done.
  etrans; [apply serving_reachable|].
  eapply rtc_l; [apply sys_graceful|].
  eapply rtc_l; [by apply (sys_streams_end _ 5)|].
  eapply rtc_l; [by apply (sys_conn_close _ 5)|].
  eapply rtc_l; [by apply (sys_conn_remove _ 5)|].
  apply rtc_refl.
Defined.
