(* ===== verification/Hpack.v ===== *)
(** * HPACK: header fields and errors

    The types that the files of golang.org/x/net/http2/hpack share.  That package
    compresses the header fields of every call that the kubelet makes to the
    plugin and that the plugin makes to the kubelet.  Names and values are
    opaque sequences of octets in the code, and lists of bytes here. *)

From stdpp Require Import base list strings countable.
From Stdlib Require Import ZArith Strings.Byte Lia.
From S2P Require Import Prelude GoStrings.
Open Scope Z_scope.

#[export] Instance byte_countable : Countable byte := inj_countable Byte.to_N Byte.of_N Byte.of_to_N.

(** What a [DecodingError] wraps: an [InvalidIndexError], or an error made with
    [errors.New]. *)
Inductive decoding_cause : Type :=
| InvalidIndexError (index : Z)
| errors_New (msg : string).

#[export] Instance decoding_cause_eq_dec : EqDecision decoding_cause.
Proof. solve_decision. Defined.

(** The errors of the package; [errNeedMore] is internal to the decoder. *)
Inductive hpack_error : Type :=
| errNeedMore
| ErrStringLength
| ErrInvalidHuffman
| DecodingError (cause : decoding_cause).

#[export] Instance hpack_error_eq_dec : EqDecision hpack_error.
Proof. solve_decision. Defined.

Definition errVarintOverflow : hpack_error := DecodingError (errors_New "varint integer overflow").

Definition InvalidIndexError_Error (e : Z) : string :=
  ("invalid indexed representation index " +:+ Itoa (int64 e))%string.

Definition DecodingError_Error (cause : decoding_cause) : string :=
  ("decoding error: " +:+
   match cause with InvalidIndexError e => InvalidIndexError_Error e | errors_New msg => msg end)%string.

Record HeaderField : Type := mkHeaderField {
  Name : list byte;
  Value : list byte;
  Sensitive : bool;
}.

#[export] Instance HeaderField_eq_dec : EqDecision HeaderField.
Proof. solve_decision. Defined.

Definition IsPseudo (hf : HeaderField) : bool :=
  match Name hf with
  | c :: _ => bool_decide (c = ":"%byte)
  | [] => false
  end.

(** [Size]: the conversion to [uint32] may wrap. *)
Definition Size (hf : HeaderField) : Z :=
  uint32 (slen (Name hf) + slen (Value hf) + 32).

(** The size of RFC 7541, section 4.1. *)
Definition rfc_size (hf : HeaderField) : Z := slen (Name hf) + slen (Value hf) + 32.

Lemma rfc_size_pos hf : 0 < rfc_size hf.
Proof. unfold rfc_size. pose proof (slen_nonneg (Name hf)). pose proof (slen_nonneg (Value hf)). lia. Qed.

Lemma Size_rfc hf : rfc_size hf < 2 ^ 32 -> Size hf = rfc_size hf.
Proof. intros. apply Z.mod_small. pose proof (rfc_size_pos hf). unfold rfc_size in *. lia. Qed.

Lemma Size_range hf : 0 <= Size hf < 2 ^ 32.
Proof. apply Z.mod_pos_bound. lia. Qed.
