(* ===== verification/HpackTable.v ===== *)
(** * HPACK: the static and the dynamic header tables

    [headerFieldTable] of tables.go, the static table, and [dynamicTable] of
    hpack.go.  A table keeps its entries oldest first and two maps from a name,
    and from a name and value, to the number of the newest entry that has it.
    The theorems: the maps agree with the entries after any additions and
    evictions ([table_wf]), so [search] finds the newest matching entry; and the
    dynamic table holds the longest list of newest entries that fits. *)

From stdpp Require Import base list strings gmap.
From Stdlib Require Import ZArith Strings.Byte Lia.
From S2P Require Import Prelude.
From S2P Require Import Hpack.
Open Scope Z_scope.

(** ** headerFieldTable *)

Record headerFieldTable : Type := mkTable {
  ents : list HeaderField;
  evictCount : Z;
  byName : gmap (list byte) Z;
  byNameValue : gmap (list byte * list byte) Z;
}.

(** [init]: the zero value with its maps made. *)
Definition init_table : headerFieldTable := mkTable [] 0 ∅ ∅.

Definition pairNameValue (f : HeaderField) : list byte * list byte := (Name f, Value f).

Definition table_len (t : headerFieldTable) : Z := slen (ents t).

Definition addEntry (t : headerFieldTable) (f : HeaderField) : headerFieldTable :=
  let id := uint64 (table_len t + evictCount t + 1) in
  mkTable (ents t ++ [f]) (evictCount t)
    (<[Name f := id]> (byName t))
    (<[pairNameValue f := id]> (byNameValue t)).

(** The value of a missing key is 0. *)
Definition map_id {K} `{Countable K} (m : gmap K Z) (k : K) : Z := default 0 (m !! k).

(** The body of [evictOldest]'s loop: forget [f], whose number is [id]. *)
Definition forget (id : Z) (f : HeaderField) (byName : gmap (list byte) Z)
    (byNameValue : gmap (list byte * list byte) Z) :=
  (if map_id byName (Name f) =? id then delete (Name f) byName else byName,
   if map_id byNameValue (pairNameValue f) =? id
   then delete (pairNameValue f) byNameValue else byNameValue).

(** [for k := 0; k < n; k++]: [fs] are the first [n] entries. *)
Fixpoint evict_entries (evicted : Z) (k : Z) (fs : list HeaderField)
    (byName : gmap (list byte) Z) (byNameValue : gmap (list byte * list byte) Z) :=
  match fs with
  | [] => (byName, byNameValue)
  | f :: fs =>
      let '(byName, byNameValue) := forget (uint64 (evicted + k + 1)) f byName byNameValue in
      evict_entries evicted (k + 1) fs byName byNameValue
  end.

(** After [copy] and the clearing of the tail, the first [len - n] slots hold the
    entries from the [n]-th on. *)
Definition evictOldest {E} (t : headerFieldTable) (n : Z) : res E headerFieldTable :=
  if table_len t <? n then Panic else
  let '(byName, byNameValue) :=
    evict_entries (evictCount t) 0 (take (Z.to_nat n) (ents t)) (byName t) (byNameValue t) in
  tail ← slice_from (ents t) n;
  if uint64 (evictCount t + n) <? evictCount t then Panic else
  Ok (mkTable tail (uint64 (evictCount t + n)) byName byNameValue).

(** [static] stands for the comparison of the table's address with
    [staticTable]. *)
Definition idToIndex {E} (static : bool) (t : headerFieldTable) (id : Z) : res E Z :=
  if id <=? evictCount t then Panic else
  let k := uint64 (id - evictCount t - 1) in
  if negb static then Ok (uint64 (table_len t - k)) else Ok (uint64 (k + 1)).

Definition search {E} (static : bool) (t : headerFieldTable) (f : HeaderField) : res E (Z * bool) :=
  let by_name :=
    let id := map_id (byName t) (Name f) in
    if negb (id =? 0) then i ← idToIndex static t id; Ok (i, false) else Ok (0, false) in
  if negb (Sensitive f) then
    let id := map_id (byNameValue t) (pairNameValue f) in
    if negb (id =? 0) then i ← idToIndex static t id; Ok (i, true) else by_name
  else by_name.

(** ** The static table *)

Definition entry (name value : string) : HeaderField :=
  mkHeaderField (bytes_of name) (bytes_of value) false.

Definition staticTableEntries : list HeaderField :=
  [ entry ":authority" "";
    entry ":method" "GET";
    entry ":method" "POST";
    entry ":path" "/";
    entry ":path" "/index.html";
    entry ":scheme" "http";
    entry ":scheme" "https";
    entry ":status" "200";
    entry ":status" "204";
    entry ":status" "206";
    entry ":status" "304";
    entry ":status" "400";
    entry ":status" "404";
    entry ":status" "500";
    entry "accept-charset" "";
    entry "accept-encoding" "gzip, deflate";
    entry "accept-language" "";
    entry "accept-ranges" "";
    entry "accept" "";
    entry "access-control-allow-origin" "";
    entry "age" "";
    entry "allow" "";
    entry "authorization" "";
    entry "cache-control" "";
    entry "content-disposition" "";
    entry "content-encoding" "";
    entry "content-language" "";
    entry "content-length" "";
    entry "content-location" "";
    entry "content-range" "";
    entry "content-type" "";
    entry "cookie" "";
    entry "date" "";
    entry "etag" "";
    entry "expect" "";
    entry "expires" "";
    entry "from" "";
    entry "host" "";
    entry "if-match" "";
    entry "if-modified-since" "";
    entry "if-none-match" "";
    entry "if-range" "";
    entry "if-unmodified-since" "";
    entry "last-modified" "";
    entry "link" "";
    entry "location" "";
    entry "max-forwards" "";
    entry "proxy-authenticate" "";
    entry "proxy-authorization" "";
    entry "range" "";
    entry "referer" "";
    entry "refresh" "";
    entry "retry-after" "";
    entry "server" "";
    entry "set-cookie" "";
    entry "strict-transport-security" "";
    entry "transfer-encoding" "";
    entry "user-agent" "";
    entry "vary" "";
    entry "via" "";
    entry "www-authenticate" "" ].

Definition newStaticTable : headerFieldTable := foldl addEntry init_table staticTableEntries.

Definition staticTable : headerFieldTable := newStaticTable.

(** ** dynamicTable *)

Record dynamicTable : Type := mkDynamicTable {
  table : headerFieldTable;
  size : Z;
  maxSize : Z;
  allowedMaxSize : Z;
}.

(** The loop of [evict]: [fs] are the entries from [n] on; it gives the size left
    and the number of entries to evict. *)
Fixpoint evict_loop (maxSize : Z) (fs : list HeaderField) (size n : Z) : Z * Z :=
  if maxSize <? size then
    match fs with
    | [] => (size, n)
    | f :: fs => evict_loop maxSize fs (uint32 (size - Size f)) (n + 1)
    end
  else (size, n).

Definition evict {E} (dt : dynamicTable) : res E dynamicTable :=
  let '(size, n) := evict_loop (maxSize dt) (ents (table dt)) (size dt) 0 in
  t ← evictOldest (table dt) n;
  Ok (mkDynamicTable t size (maxSize dt) (allowedMaxSize dt)).

Definition setMaxSize {E} (dt : dynamicTable) (v : Z) : res E dynamicTable :=
  evict (mkDynamicTable (table dt) (size dt) v (allowedMaxSize dt)).

Definition add {E} (dt : dynamicTable) (f : HeaderField) : res E dynamicTable :=
  evict (mkDynamicTable (addEntry (table dt) f) (uint32 (size dt + Size f))
           (maxSize dt) (allowedMaxSize dt)).

(** ** The newest entry with a key *)

Fixpoint last_index {A} (P : A -> bool) (l : list A) : option nat :=
  match l with
  | [] => None
  | x :: l =>
      match last_index P l with
      | Some k => Some (S k)
      | None => if P x then Some 0%nat else None
      end
  end.

Section last_index.
Context {A : Type} (P : A -> bool).

Lemma last_index_snoc l x :
  last_index P (l ++ [x]) = if P x then Some (length l) else last_index P l.
Proof. induction l as [|y l IH]; simpl; [done|]. rewrite IH. by destruct (P x). Qed.

Lemma last_index_Some l i :
  last_index P l = Some i ->
  (exists x, l !! i = Some x /\ P x = true) /\ forall j x, l !! j = Some x -> P x = true -> (j <= i)%nat.
Proof.
  revert i. induction l as [|y l IH]; intros i; simpl; [done|].
  destruct (last_index P l) as [k|] eqn:Hk.
  - intros [= <-]. destruct (IH k eq_refl) as [Hx Hmax]. split; [done|].
    intros [|j] x Hj HP; [lia|]. specialize (Hmax j x Hj HP). lia.
  - destruct (P y) eqn:HP; [|done]. intros [= <-]. split; [by exists y|].
    intros [|j] x Hj HPx; [done|]. clear IH. exfalso. revert j Hj.
    induction l as [|z l IHl]; intros j Hj; [done|]. simpl in Hk.
    destruct (last_index P l); [done|]. destruct (P z) eqn:HPz; [done|].
    destruct j; simpl in Hj; [congruence|]. by eapply IHl.
Qed.

Lemma last_index_None l : last_index P l = None -> forall x, x ∈ l -> P x = false.
Proof.
  induction l as [|y l IH]; simpl; intros Hn x Hx; [by apply elem_of_nil in Hx|].
  destruct (last_index P l); [done|]. destruct (P y) eqn:HP; [done|].
  apply elem_of_cons in Hx as [->|Hx]; auto.
Qed.

Lemma last_index_lt l i : last_index P l = Some i -> (i < length l)%nat.
Proof. intros [[x [Hx _]] _]%last_index_Some. by eapply lookup_lt_Some. Qed.
End last_index.

(** [m] numbers the newest entry of each key: entry [k] of [l] has the number
    [e + k + 1]. *)
Definition newest {K} `{Countable K} (key : HeaderField -> K) (l : list HeaderField) (e : Z)
    (m : gmap K Z) : Prop :=
  forall x, m !! x = (fun i => e + Z.of_nat i + 1) <$> last_index (fun f => bool_decide (key f = x)) l.

Section newest.
Context {K : Type} `{Countable K} (key : HeaderField -> K).

Lemma newest_add l e m f id :
  newest key l e m -> id = slen l + e + 1 -> newest key (l ++ [f]) e (<[key f := id]> m).
Proof.
  intros Hm -> x. rewrite last_index_snoc. case_bool_decide as Hx.
  - subst. rewrite lookup_insert_eq. simpl. f_equal. unfold slen. lia.
  - rewrite lookup_insert_ne by done. apply Hm.
Qed.

Lemma newest_forget f l e m id :
  newest key (f :: l) e m -> 0 <= e -> id = e + 1 ->
  newest key l (e + 1) (if map_id m (key f) =? id then delete (key f) m else m).
Proof.
  intros Hm He -> x. unfold map_id. rewrite (Hm (key f)). simpl.
  rewrite bool_decide_eq_true_2 by done.
  destruct (decide (key f = x)) as [<-|Hx].
  - destruct (last_index _ l) as [i|] eqn:Hi; simpl.
    + destruct (Z.eqb_spec (e + Z.of_nat (S i) + 1) (e + 1)); [lia|].
      rewrite (Hm (key f)). simpl. rewrite Hi. simpl. f_equal. lia.
    + destruct (Z.eqb_spec (e + Z.of_nat 0 + 1) (e + 1)); [|lia]. apply lookup_delete_eq.
  - assert (m !! x = (fun i => e + 1 + Z.of_nat i + 1) <$>
              last_index (fun f => bool_decide (key f = x)) l) as Hmx.
    { rewrite (Hm x). simpl. rewrite (bool_decide_eq_false_2 (key f = x)) by done.
      destruct (last_index _ l); simpl; [|done]. f_equal. lia. }
    destruct (_ =? _); [|done]. by rewrite lookup_delete_ne by done.
Qed.
End newest.

(** The invariant of a table. *)
Record table_wf (t : headerFieldTable) : Prop := {
  wf_evicted : 0 <= evictCount t;
  wf_count : evictCount t + table_len t < 2 ^ 64;
  wf_byName : newest Name (ents t) (evictCount t) (byName t);
  wf_byNameValue : newest pairNameValue (ents t) (evictCount t) (byNameValue t);
}.

Lemma init_table_wf : table_wf init_table.
Proof. by split. Qed.

Lemma addEntry_wf t f :
  table_wf t -> evictCount t + table_len t + 1 < 2 ^ 64 -> table_wf (addEntry t f).
Proof.
  intros [He Hc Hn Hnv] Hb.
  assert (uint64 (table_len t + evictCount t + 1) = slen (ents t) + evictCount t + 1) as Hid.
  { unfold table_len in *. apply uint64_small. pose proof (slen_nonneg (ents t)). lia. }
  split; simpl; [done| |by apply newest_add..].
  unfold table_len in *. simpl. rewrite slen_app, slen_cons, slen_nil. lia.
Qed.

Lemma evict_entries_newest fs l e k m m' :
  newest Name (fs ++ l) (e + k) m -> newest pairNameValue (fs ++ l) (e + k) m' ->
  0 <= e -> 0 <= k -> e + k + slen fs < 2 ^ 64 ->
  exists m1 m1', evict_entries e k fs m m' = (m1, m1') /\
    newest Name l (e + k + slen fs) m1 /\ newest pairNameValue l (e + k + slen fs) m1'.
Proof.
  revert k m m'. induction fs as [|f fs IH]; intros k m m' Hm Hm' He Hk Hb.
  { exists m, m'. rewrite slen_nil, Z.add_0_r. done. }
  rewrite slen_cons in Hb. pose proof (slen_nonneg fs).
  cbn [evict_entries]. rewrite (uint64_small (e + k + 1)) by lia. cbn [forget].
  apply (newest_forget Name _ _ _ _ (e + k + 1)) in Hm; [|lia|done].
  apply (newest_forget pairNameValue _ _ _ _ (e + k + 1)) in Hm'; [|lia|done].
  replace (e + k + slen (f :: fs)) with (e + (k + 1) + slen fs) by (rewrite slen_cons; lia).
  apply IH; try lia; by replace (e + (k + 1)) with (e + k + 1) by lia.
Qed.

Lemma evictOldest_wf {E} t n :
  table_wf t -> 0 <= n <= table_len t ->
  exists t', evictOldest (E:=E) t n = Ok t' /\ table_wf t' /\
    ents t' = drop (Z.to_nat n) (ents t) /\ evictCount t' = evictCount t + n.
Proof.
  intros [He Hc Hn Hnv] Hle. unfold evictOldest, table_len in *.
  destruct (Z.ltb_spec (slen (ents t)) n); [lia|].
  assert (slen (take (Z.to_nat n) (ents t)) = n) as Hs.
  { unfold slen in *. rewrite length_take. lia. }
  destruct (evict_entries_newest (take (Z.to_nat n) (ents t)) (drop (Z.to_nat n) (ents t))
              (evictCount t) 0 (byName t) (byNameValue t)) as (m & m' & -> & Hm & Hm');
    rewrite ?take_drop, ?Z.add_0_r; try done; try lia.
  unfold slice_from, slice. rewrite uint64_small by lia. zcases; try lia. cbn.
  assert (take (Z.to_nat (slen (ents t) - n)) (drop (Z.to_nat n) (ents t))
          = drop (Z.to_nat n) (ents t)) as ->.
  { apply take_ge. unfold slen in *. rewrite length_drop. lia. }
  eexists. split; [done|]. rewrite Hs, Z.add_0_r in Hm, Hm'. split; [|done].
  split; simpl; try done; try lia.
  unfold table_len, slen in *. simpl. rewrite length_drop. lia.
Qed.

Lemma foldl_addEntry_wf fs t :
  table_wf t -> evictCount t + table_len t + slen fs < 2 ^ 64 -> table_wf (foldl addEntry t fs).
Proof.
  revert t. induction fs as [|f fs IH]; intros t Ht Hb; [done|].
  rewrite slen_cons in Hb. pose proof (slen_nonneg fs). simpl. apply IH.
  - apply addEntry_wf; [done|lia].
  - unfold table_len in *. simpl. rewrite slen_app, slen_cons, slen_nil. lia.
Qed.

Lemma staticTable_wf : table_wf staticTable.
Proof. apply foldl_addEntry_wf; [apply init_table_wf | done]. Qed.

Lemma staticTable_ents : ents staticTable = staticTableEntries.
Proof. vm_compute. reflexivity. Qed.

Lemma staticTable_len : table_len staticTable = 61.
Proof. vm_compute. reflexivity. Qed.

(** ** Searching *)

(** The index that HPACK gives to entry [k]: newest first in a dynamic table. *)
Definition hpack_index (static : bool) (t : headerFieldTable) (k : nat) : Z :=
  if static then Z.of_nat k + 1 else table_len t - Z.of_nat k.

Lemma idToIndex_ok {E} static t k :
  table_wf t -> (k < length (ents t))%nat ->
  idToIndex (E:=E) static t (evictCount t + Z.of_nat k + 1) = Ok (hpack_index static t k).
Proof.
  intros [He Hc _ _] Hk. unfold idToIndex, hpack_index, table_len, slen in *.
  zcases; [lia|]. rewrite (uint64_small (evictCount t + _ + 1 - _ - 1)) by lia.
  destruct static; simpl; f_equal; rewrite uint64_small by lia; lia.
Qed.

Definition search_spec (static : bool) (t : headerFieldTable) (f : HeaderField) : Z * bool :=
  let by_name := last_index (fun g => bool_decide (Name g = Name f)) (ents t) in
  let by_pair :=
    if Sensitive f then None
    else last_index (fun g => bool_decide (pairNameValue g = pairNameValue f)) (ents t) in
  match by_pair, by_name with
  | Some k, _ => (hpack_index static t k, true)
  | None, Some k => (hpack_index static t k, false)
  | None, None => (0, false)
  end.

Lemma search_is_spec {E} static t f :
  table_wf t -> search (E:=E) static t f = Ok (search_spec static t f).
Proof.
  intros Ht. destruct (Ht) as [He Hc Hn Hnv]. unfold search, search_spec, map_id.
  rewrite (Hn (Name f)), (Hnv (pairNameValue f)).
  assert (forall P b (none : res E (Z * bool)),
    (if negb (default 0 ((fun i => evictCount t + Z.of_nat i + 1) <$> last_index P (ents t)) =? 0)
     then i ← idToIndex (E:=E) static t
                (default 0 ((fun i => evictCount t + Z.of_nat i + 1) <$> last_index P (ents t)));
          Ok (i, b)
     else none) =
    match last_index P (ents t) with
    | Some k => Ok (hpack_index static t k, b) | None => none end) as Hlook.
  { intros P b none. destruct (last_index P (ents t)) as [k|] eqn:Hk; simpl; [|done].
    apply last_index_lt in Hk.
    destruct (Z.eqb_spec (evictCount t + Z.of_nat k + 1) 0); [lia|]. simpl.
    by rewrite idToIndex_ok. }
  cbv zeta. rewrite !Hlook. by destruct (Sensitive f); simpl; repeat case_match.
Qed.

(** The entry that an index denotes. *)
Definition entry_at (static : bool) (t : headerFieldTable) (i : Z) : option HeaderField :=
  if (1 <=? i) && (i <=? table_len t)
  then ents t !! (if static then Z.to_nat (i - 1) else Z.to_nat (table_len t - i))
  else None.

Lemma entry_at_index static t k g :
  ents t !! k = Some g -> entry_at static t (hpack_index static t k) = Some g.
Proof.
  intros Hk. pose proof (lookup_lt_Some _ _ _ Hk). unfold entry_at, hpack_index, table_len, slen.
  rewrite <- Hk. destruct static; zcases; try lia; simpl; f_equal; lia.
Qed.

Lemma hpack_index_bounds static t k :
  (k < length (ents t))%nat -> 1 <= hpack_index static t k <= table_len t.
Proof. unfold hpack_index, table_len, slen. destruct static; lia. Qed.

Lemma search_spec_correct static t f i b :
  search_spec static t f = (i, b) ->
  (b = true -> Sensitive f = false /\
     exists g, entry_at static t i = Some g /\ Name g = Name f /\ Value g = Value f) /\
  (b = false ->
     (Sensitive f = false -> forall g, g ∈ ents t -> Name g = Name f -> Value g <> Value f) /\
     (i = 0 -> forall g, g ∈ ents t -> Name g <> Name f) /\
     (i <> 0 -> exists g, entry_at static t i = Some g /\ Name g = Name f)) /\
  0 <= i <= table_len t.
Proof.
  pose proof (slen_nonneg (ents t)) as Hlen.
  assert (forall (key : bool) k,
    last_index (fun g => if key then bool_decide (Name g = Name f)
                         else bool_decide (pairNameValue g = pairNameValue f)) (ents t) = Some k ->
    1 <= hpack_index static t k <= table_len t /\
    exists g, entry_at static t (hpack_index static t k) = Some g /\ Name g = Name f /\
      (key = false -> Value g = Value f)) as Hfound.
  { intros key k Hk. split; [apply hpack_index_bounds; by eapply last_index_lt|].
    apply last_index_Some in Hk as [(g & Hg & HP) _]. exists g.
    split; [by apply entry_at_index|].
    destruct key; apply bool_decide_eq_true in HP; [done|]. by injection HP. }
  unfold search_spec. cbv zeta. destruct (if Sensitive f then _ else _) as [k|] eqn:Hp.
  - intros [= <- <-]. destruct (Sensitive f); [done|].
    destruct (Hfound false k Hp) as (? & g & Hg & HN & HV). split; [|split; [done|lia]].
    intros _. split; [done|]. exists g. auto.
  - assert (Sensitive f = false -> forall g, g ∈ ents t -> Name g = Name f -> Value g <> Value f) as Hno.
    { intros HS g Hg HN HV. rewrite HS in Hp. apply (last_index_None _ _ Hp) in Hg.
      apply bool_decide_eq_false in Hg. apply Hg. unfold pairNameValue. congruence. }
    destruct (last_index (fun g => bool_decide (Name g = Name f)) (ents t)) as [k|] eqn:Hn;
      intros [= <- <-].
    + destruct (Hfound true k Hn) as (? & g & Hg & HN & _). split; [done|].
      split; [|lia]. intros _. split; [done|]. split; [lia|]. intros _. by exists g.
    + split; [done|]. unfold table_len. split; [|lia]. intros _. split; [done|]. split; [|done].
      intros _ g Hg HN. apply (last_index_None _ _ Hn) in Hg. by apply bool_decide_eq_false in Hg.
Qed.

(** [search] never panics.  It reports an exact match only for a field that is
    not sensitive, and then at the index of an entry with the name and value; it
    reports no exact match only when there is none (or the field is sensitive),
    with the index of an entry with the name, or 0 when no entry has it. *)
Theorem search_correct static t f :
  table_wf t ->
  exists i b, search (E:=hpack_error) static t f = Ok (i, b) /\
  (b = true -> Sensitive f = false /\
     exists g, entry_at static t i = Some g /\ Name g = Name f /\ Value g = Value f) /\
  (b = false ->
     (Sensitive f = false -> forall g, g ∈ ents t -> Name g = Name f -> Value g <> Value f) /\
     (i = 0 -> forall g, g ∈ ents t -> Name g <> Name f) /\
     (i <> 0 -> exists g, entry_at static t i = Some g /\ Name g = Name f)).
Proof.
  intros Ht. destruct (search_spec static t f) as [i b] eqn:Hs.
  exists i, b. rewrite search_is_spec, Hs by done.
  pose proof (search_spec_correct _ _ _ _ _ Hs). tauto.
Qed.

(** ** Eviction *)

Definition total (l : list HeaderField) : Z := foldr (fun f n => Size f + n) 0 l.

Lemma total_app l1 l2 : total (l1 ++ l2) = total l1 + total l2.
Proof. induction l1 as [|f l1 IH]; simpl; [done|]. lia. Qed.

Lemma total_nonneg l : 0 <= total l.
Proof. induction l as [|f l IH]; simpl; [done|]. pose proof (Size_range f). lia. Qed.

(** The longest list of newest entries whose sizes add up to at most [max]. *)
Fixpoint fit (max : Z) (l : list HeaderField) : list HeaderField :=
  match l with
  | [] => []
  | _ :: l' => if total l <=? max then l else fit max l'
  end.

Lemma fit_suffix max l : fit max l `suffix_of` l.
Proof.
  induction l as [|f l IH]; [done|]. unfold fit; fold fit. case_match; [done|].
  by apply suffix_cons_r.
Qed.

Lemma fit_total max l : 0 <= max -> total (fit max l) <= max.
Proof.
  intros Hm. induction l as [|f l IH]; [done|]. unfold fit; fold fit.
  destruct (Z.leb_spec (total (f :: l)) max); done.
Qed.

Lemma fit_longest max l l' : l' `suffix_of` l -> total l' <= max -> l' `suffix_of` fit max l.
Proof.
  induction l as [|f l IH]; intros Hl Ht; [done|].
  unfold fit; fold fit. destruct (Z.leb_spec (total (f :: l)) max); [done|].
  destruct Hl as [[|g k] Hk]; simpl in Hk; [by subst; lia|]. injection Hk as <- Hk.
  apply IH; [by exists k|done].
Qed.

Lemma fit_id max l : total l <= max -> fit max l = l.
Proof. destruct l; [done|]. intros. unfold fit; fold fit. zcases; [done|lia]. Qed.

Lemma total_suffix l l' : l' `suffix_of` l -> total l' <= total l.
Proof. intros [k ->]. rewrite total_app. pose proof (total_nonneg k). lia. Qed.

(** Eviction from a shorter list of newest entries keeps a shorter list. *)
Lemma fit_mono max max' l l' :
  0 <= max <= max' -> l' `suffix_of` l -> fit max l' `suffix_of` fit max' l.
Proof.
  intros ? Hl. apply fit_longest; [by etrans; [apply fit_suffix|]|].
  pose proof (fit_total max l'). lia.
Qed.

Lemma evict_loop_fit max l n :
  0 <= max -> total l < 2 ^ 32 ->
  evict_loop max l (total l) n = (total (fit max l), n + slen l - slen (fit max l)).
Proof.
  intros Hm. revert n. induction l as [|f l IH]; intros n Hb.
  { simpl. zcases; [lia|]. f_equal. lia. }
  pose proof (total_nonneg l). pose proof (Size_range f).
  unfold evict_loop; fold evict_loop. unfold fit; fold fit.
  destruct (Z.ltb_spec max (total (f :: l))), (Z.leb_spec (total (f :: l)) max); try lia.
  - simpl total in *. assert (uint32 (Size f + total l - Size f) = total l) as ->.
    { unfold uint32. rewrite Z.mod_small; lia. }
    rewrite IH by lia. rewrite slen_cons. f_equal. lia.
  - f_equal. lia.
Qed.

(** The invariant of a dynamic table. *)
Record dt_wf (dt : dynamicTable) : Prop := {
  wf_table : table_wf (table dt);
  wf_size : size dt = total (ents (table dt));
  wf_fits : size dt <= maxSize dt < 2 ^ 32;
}.

(** The number of entries ever added to a table. *)
Definition added (t : headerFieldTable) : Z := evictCount t + table_len t.

Lemma evict_ok {E} dt :
  table_wf (table dt) -> size dt = total (ents (table dt)) -> size dt < 2 ^ 32 ->
  0 <= maxSize dt < 2 ^ 32 ->
  exists dt', evict (E:=E) dt = Ok dt' /\ dt_wf dt' /\
    ents (table dt') = fit (maxSize dt) (ents (table dt)) /\
    maxSize dt' = maxSize dt /\ allowedMaxSize dt' = allowedMaxSize dt /\
    added (table dt') = added (table dt).
Proof.
  intros Ht Hs Hb Hm. unfold evict. rewrite Hs in Hb |- *.
  rewrite evict_loop_fit by lia. set (l := ents (table dt)) in *.
  destruct (fit_suffix (maxSize dt) l) as [old Hold].
  assert (0 + slen l - slen (fit (maxSize dt) l) = slen old) as ->.
  { rewrite Hold at 1. rewrite slen_app. lia. }
  assert (drop (Z.to_nat (slen old)) l = fit (maxSize dt) l) as Hdrop.
  { rewrite Hold at 1. unfold slen. rewrite Nat2Z.id. apply drop_app_length. }
  destruct (evictOldest_wf (E:=E) (table dt) (slen old)) as (t' & -> & Ht' & He & Hc); [done|..].
  { unfold table_len. fold l. rewrite Hold, slen_app.
    pose proof (slen_nonneg old). pose proof (slen_nonneg (fit (maxSize dt) l)). lia. }
  cbn. eexists. split; [done|]. fold l in He. rewrite Hdrop in He.
  split; [split; simpl; rewrite ?He; try done; pose proof (fit_total (maxSize dt) l ltac:(lia)); lia|].
  simpl. split; [done|]. split; [done|]. split; [done|].
  unfold added, table_len. rewrite Hc, He. fold l. rewrite Hold at 2. rewrite slen_app. lia.
Qed.

Lemma setMaxSize_ok {E} dt v :
  dt_wf dt -> 0 <= v < 2 ^ 32 ->
  exists dt', setMaxSize (E:=E) dt v = Ok dt' /\ dt_wf dt' /\
    ents (table dt') = fit v (ents (table dt)) /\
    maxSize dt' = v /\ allowedMaxSize dt' = allowedMaxSize dt /\
    added (table dt') = added (table dt).
Proof. intros [Ht Hs Hf] Hv. by apply evict_ok; simpl; try lia. Qed.

Lemma add_ok {E} dt f :
  dt_wf dt -> size dt + Size f < 2 ^ 32 -> added (table dt) + 1 < 2 ^ 64 ->
  exists dt', add (E:=E) dt f = Ok dt' /\ dt_wf dt' /\
    ents (table dt') = fit (maxSize dt) (ents (table dt) ++ [f]) /\
    maxSize dt' = maxSize dt /\ allowedMaxSize dt' = allowedMaxSize dt /\
    added (table dt') = added (table dt) + 1.
Proof.
  intros [Ht Hs Hf] Hb Hn. unfold add.
  pose proof (Size_range f). pose proof (total_nonneg (ents (table dt))).
  destruct (evict_ok (E:=E) (mkDynamicTable (addEntry (table dt) f) (uint32 (size dt + Size f))
             (maxSize dt) (allowedMaxSize dt))) as (dt' & ? & ? & ? & ? & ? & Ha);
    cbn [table size maxSize allowedMaxSize] in *.
  - apply addEntry_wf; [done|]. unfold added in Hn. lia.
  - cbn. rewrite total_app. simpl. unfold uint32. rewrite Z.mod_small; lia.
  - unfold uint32. rewrite Z.mod_small; lia.
  - lia.
  - exists dt'. repeat (split; [done|]). rewrite Ha. unfold added, table_len. cbn.
    rewrite slen_app, slen_cons, slen_nil. lia.
Qed.

(** C31: Adding a field to the dynamic table and changing its size limit never panic
    and keep the invariant: the lookup maps agree with the entries, [size] is
    the sum of the entries' sizes and at most the limit.  The entries kept are the
    longest list of newest entries that fits in the limit.  (The sum in [add] must not
    wrap around 2^32, and fewer than 2^64 entries be added.) *)
Theorem dynamicTable_correct dt f v :
  dt_wf dt -> size dt + Size f < 2 ^ 32 -> added (table dt) + 1 < 2 ^ 64 -> 0 <= v < 2 ^ 32 ->
  (exists dt', add (E:=hpack_error) dt f = Ok dt' /\ dt_wf dt' /\
     let l := ents (table dt) ++ [f] in
     ents (table dt') `suffix_of` l /\
     (forall l', l' `suffix_of` l -> total l' <= maxSize dt -> l' `suffix_of` ents (table dt'))) /\
  (exists dt', setMaxSize (E:=hpack_error) dt v = Ok dt' /\ dt_wf dt' /\ maxSize dt' = v /\
     let l := ents (table dt) in
     ents (table dt') `suffix_of` l /\
     (forall l', l' `suffix_of` l -> total l' <= v -> l' `suffix_of` ents (table dt'))).
Proof.
  intros Hdt Hf Hn Hv. split.
  - destruct (add_ok (E:=hpack_error) dt f) as (dt' & -> & Hwf & He & _); [done..|].
    exists dt'. rewrite He. split; [done|]. split; [done|]. cbv zeta.
    split; [apply fit_suffix | intros; by apply fit_longest].
  - destruct (setMaxSize_ok (E:=hpack_error) dt v) as (dt' & -> & Hwf & He & Hm & _); [done..|].
    exists dt'. rewrite He. split; [done|]. split; [done|]. split; [done|]. cbv zeta.
    split; [apply fit_suffix | intros; by apply fit_longest].
Qed.

(** ** Witnesses *)

Definition full_table : dynamicTable :=
  mkDynamicTable (foldl addEntry init_table [entry "a" "1"; entry "b" "2"]) 68 100 4096.

Lemma full_table_wf : dt_wf full_table.
Proof.
  split; [|done..]. apply foldl_addEntry_wf; [apply init_table_wf|done].
Qed.

Lemma dynamicTable_correct_witness :
  (exists dt', add (E:=hpack_error) full_table (entry "c" "3") = Ok dt' /\ dt_wf dt' /\
     let l := ents (table full_table) ++ [entry "c" "3"] in
     ents (table dt') `suffix_of` l /\
     (forall l', l' `suffix_of` l -> total l' <= maxSize full_table -> l' `suffix_of` ents (table dt'))) /\
  (exists dt', setMaxSize (E:=hpack_error) full_table 40 = Ok dt' /\ dt_wf dt' /\ maxSize dt' = 40 /\
     let l := ents (table full_table) in
     ents (table dt') `suffix_of` l /\
     (forall l', l' `suffix_of` l -> total l' <= 40 -> l' `suffix_of` ents (table dt'))).
Proof. apply (dynamicTable_correct full_table); [apply full_table_wf|done..]. Defined.

(** The static table has the name [:status] but not the value 418. *)
Lemma search_correct_witness :
  table_wf staticTable /\
  exists i b, search (E:=hpack_error) true staticTable (entry ":status" "418") = Ok (i, b) /\
  (b = true -> Sensitive (entry ":status" "418") = false /\
     exists g, entry_at true staticTable i = Some g /\ Name g = Name (entry ":status" "418") /\
       Value g = Value (entry ":status" "418")) /\
  (b = false ->
     (Sensitive (entry ":status" "418") = false -> forall g, g ∈ ents staticTable ->
        Name g = Name (entry ":status" "418") -> Value g <> Value (entry ":status" "418")) /\
     (i = 0 -> forall g, g ∈ ents staticTable -> Name g <> Name (entry ":status" "418")) /\
     (i <> 0 -> exists g, entry_at true staticTable i = Some g /\
        Name g = Name (entry ":status" "418"))).
Proof. split; [apply staticTable_wf|]. apply (search_correct true). apply staticTable_wf. Defined.

(** Two additions and an eviction: the oldest entry goes. *)
Example evicts_oldest :
  (dt ← add (E:=hpack_error) full_table (entry "c" "3");
   Ok (ents (table dt), evictCount (table dt), size dt)) =
  Ok ([entry "b" "2"; entry "c" "3"], 1, 68).
Proof. vm_compute. reflexivity. Qed.
