(* ===== verification/HpackHuffman.v ===== *)
(** * HPACK: the Huffman code

    The code of huffman.go and its tables in tables.go: the tree that the
    package builds when it starts, the decoder that walks it eight bits at a time,
    and the encoder. *)

From stdpp Require Import base list strings.
From Stdlib Require Import ZArith Strings.Byte Lia.
From S2P Require Import Prelude.
From S2P Require Import Hpack.
Open Scope Z_scope.

(** ** The code words: bits right aligned in the first table, their number in
    the second. *)

Definition huffmanCodes_low : list Z :=
  [ 0x1ff8; 0x7fffd8; 0xfffffe2; 0xfffffe3;
    0xfffffe4; 0xfffffe5; 0xfffffe6; 0xfffffe7;
    0xfffffe8; 0xffffea; 0x3ffffffc; 0xfffffe9;
    0xfffffea; 0x3ffffffd; 0xfffffeb; 0xfffffec;
    0xfffffed; 0xfffffee; 0xfffffef; 0xffffff0;
    0xffffff1; 0xffffff2; 0x3ffffffe; 0xffffff3;
    0xffffff4; 0xffffff5; 0xffffff6; 0xffffff7;
    0xffffff8; 0xffffff9; 0xffffffa; 0xffffffb;
    0x14; 0x3f8; 0x3f9; 0xffa;
    0x1ff9; 0x15; 0xf8; 0x7fa;
    0x3fa; 0x3fb; 0xf9; 0x7fb;
    0xfa; 0x16; 0x17; 0x18;
    0x0; 0x1; 0x2; 0x19;
    0x1a; 0x1b; 0x1c; 0x1d;
    0x1e; 0x1f; 0x5c; 0xfb;
    0x7ffc; 0x20; 0xffb; 0x3fc;
    0x1ffa; 0x21; 0x5d; 0x5e;
    0x5f; 0x60; 0x61; 0x62;
    0x63; 0x64; 0x65; 0x66;
    0x67; 0x68; 0x69; 0x6a;
    0x6b; 0x6c; 0x6d; 0x6e;
    0x6f; 0x70; 0x71; 0x72;
    0xfc; 0x73; 0xfd; 0x1ffb;
    0x7fff0; 0x1ffc; 0x3ffc; 0x22;
    0x7ffd; 0x3; 0x23; 0x4;
    0x24; 0x5; 0x25; 0x26;
    0x27; 0x6; 0x74; 0x75;
    0x28; 0x29; 0x2a; 0x7;
    0x2b; 0x76; 0x2c; 0x8;
    0x9; 0x2d; 0x77; 0x78;
    0x79; 0x7a; 0x7b; 0x7ffe;
    0x7fc; 0x3ffd; 0x1ffd; 0xffffffc ].

Definition huffmanCodes_high : list Z :=
  [ 0xfffe6; 0x3fffd2; 0xfffe7; 0xfffe8;
    0x3fffd3; 0x3fffd4; 0x3fffd5; 0x7fffd9;
    0x3fffd6; 0x7fffda; 0x7fffdb; 0x7fffdc;
    0x7fffdd; 0x7fffde; 0xffffeb; 0x7fffdf;
    0xffffec; 0xffffed; 0x3fffd7; 0x7fffe0;
    0xffffee; 0x7fffe1; 0x7fffe2; 0x7fffe3;
    0x7fffe4; 0x1fffdc; 0x3fffd8; 0x7fffe5;
    0x3fffd9; 0x7fffe6; 0x7fffe7; 0xffffef;
    0x3fffda; 0x1fffdd; 0xfffe9; 0x3fffdb;
    0x3fffdc; 0x7fffe8; 0x7fffe9; 0x1fffde;
    0x7fffea; 0x3fffdd; 0x3fffde; 0xfffff0;
    0x1fffdf; 0x3fffdf; 0x7fffeb; 0x7fffec;
    0x1fffe0; 0x1fffe1; 0x3fffe0; 0x1fffe2;
    0x7fffed; 0x3fffe1; 0x7fffee; 0x7fffef;
    0xfffea; 0x3fffe2; 0x3fffe3; 0x3fffe4;
    0x7ffff0; 0x3fffe5; 0x3fffe6; 0x7ffff1;
    0x3ffffe0; 0x3ffffe1; 0xfffeb; 0x7fff1;
    0x3fffe7; 0x7ffff2; 0x3fffe8; 0x1ffffec;
    0x3ffffe2; 0x3ffffe3; 0x3ffffe4; 0x7ffffde;
    0x7ffffdf; 0x3ffffe5; 0xfffff1; 0x1ffffed;
    0x7fff2; 0x1fffe3; 0x3ffffe6; 0x7ffffe0;
    0x7ffffe1; 0x3ffffe7; 0x7ffffe2; 0xfffff2;
    0x1fffe4; 0x1fffe5; 0x3ffffe8; 0x3ffffe9;
    0xffffffd; 0x7ffffe3; 0x7ffffe4; 0x7ffffe5;
    0xfffec; 0xfffff3; 0xfffed; 0x1fffe6;
    0x3fffe9; 0x1fffe7; 0x1fffe8; 0x7ffff3;
    0x3fffea; 0x3fffeb; 0x1ffffee; 0x1ffffef;
    0xfffff4; 0xfffff5; 0x3ffffea; 0x7ffff4;
    0x3ffffeb; 0x7ffffe6; 0x3ffffec; 0x3ffffed;
    0x7ffffe7; 0x7ffffe8; 0x7ffffe9; 0x7ffffea;
    0x7ffffeb; 0xffffffe; 0x7ffffec; 0x7ffffed;
    0x7ffffee; 0x7ffffef; 0x7fffff0; 0x3ffffee ].

Definition huffmanCodes : list Z := huffmanCodes_low ++ huffmanCodes_high.

Definition huffmanCodeLen : list Z :=
  [ 13; 23; 28; 28; 28; 28; 28; 28; 28; 24; 30; 28; 28; 30; 28; 28;
    28; 28; 28; 28; 28; 28; 30; 28; 28; 28; 28; 28; 28; 28; 28; 28;
    6; 10; 10; 12; 13; 6; 8; 11; 10; 10; 8; 11; 8; 6; 6; 6;
    5; 5; 5; 6; 6; 6; 6; 6; 6; 6; 7; 8; 15; 6; 12; 10;
    13; 6; 7; 7; 7; 7; 7; 7; 7; 7; 7; 7; 7; 7; 7; 7;
    7; 7; 7; 7; 7; 7; 7; 7; 8; 7; 8; 13; 19; 13; 14; 6;
    15; 5; 6; 5; 6; 5; 6; 6; 6; 5; 7; 7; 6; 6; 6; 5;
    6; 7; 6; 5; 5; 6; 7; 7; 7; 7; 7; 15; 11; 14; 13; 28;
    20; 22; 20; 20; 22; 22; 22; 23; 22; 23; 23; 23; 23; 23; 24; 23;
    24; 24; 22; 23; 24; 23; 23; 23; 23; 21; 22; 23; 22; 23; 23; 24;
    22; 21; 20; 22; 22; 23; 23; 21; 23; 22; 22; 24; 21; 22; 23; 23;
    21; 21; 22; 21; 23; 22; 23; 23; 20; 22; 22; 22; 23; 22; 22; 23;
    26; 26; 20; 19; 22; 23; 22; 25; 26; 26; 26; 27; 27; 26; 24; 25;
    19; 21; 26; 27; 27; 26; 27; 24; 21; 21; 26; 26; 28; 27; 27; 27;
    20; 24; 20; 21; 22; 21; 21; 23; 22; 22; 25; 25; 24; 24; 26; 23;
    26; 27; 26; 26; 27; 27; 27; 27; 27; 28; 27; 27; 27; 27; 27; 26 ].

(** ** The decoding tree *)

Inductive node : Type :=
| Leaf (codeLen : Z) (sym : byte)
| Internal (children : list (option node)).

Definition newInternalNode : node := Internal (replicate 256 None).

(** [for i := start; i < start+end; i++ { cur.children[i] = ... }] *)
Fixpoint fill (n : nat) (i : Z) (leaf : node) (children : list (option node))
  : res hpack_error (list (option node)) :=
  match n with
  | O => Ok children
  | S n => children ← store children i (Some leaf); fill n (i + 1) leaf children
  end.

(** [addDecoderNode] below the node [cur], as a function from the old tree to the
    new one. *)
Fixpoint addDecoderNode_at (fuel : nat) (cur : node) (sym : byte) (code codeLen : Z)
  : res hpack_error node :=
  match fuel with
  | O => Diverge
  | S fuel =>
      let children := match cur with Internal children => children | Leaf _ _ => [] end in
      if 8 <? codeLen then
        let codeLen := uint8 (codeLen - 8) in
        let i := uint8 (Z.shiftr code codeLen) in
        child ← index children i;
        let child := default newInternalNode child in
        child ← addDecoderNode_at fuel child sym code codeLen;
        children ← store children i (Some child);
        Ok (Internal children)
      else
        let shift := uint8 (8 - codeLen) in
        let start := uint8 (uint32 (Z.shiftl code shift)) in
        let end_ := Z.shiftl 1 shift in
        children ← fill (Z.to_nat end_) start (Leaf codeLen sym) children;
        Ok (Internal children)
  end.

(** A code word has at most 30 bits, so at most four nodes. *)
Definition addDecoderNode (root : node) (sym : byte) (code codeLen : Z) : res hpack_error node :=
  addDecoderNode_at 4 root sym code codeLen.

(** The loop of the package's [init]. *)
Fixpoint init_loop (i : Z) (codes lens : list Z) (root : node) : res hpack_error node :=
  match codes, lens with
  | code :: codes, codeLen :: lens =>
      root ← addDecoderNode root (byte_of_Z i) code codeLen;
      init_loop (i + 1) codes lens root
  | [], _ => Ok root
  | _, [] => Panic
  end.

Definition init : res hpack_error node :=
  if negb (slen huffmanCodes =? 256) then Panic
  else init_loop 0 huffmanCodes huffmanCodeLen newInternalNode.

Definition rootHuffmanNode : node :=
  match init with Ok root => root | _ => newInternalNode end.

(** ** Decoding *)

(** The variables of [huffmanDecode]. *)
Record dstate : Type := mkDstate {
  n : node;
  cur : Z;
  cbits : Z;
  sbits : Z;
  out : list byte;
}.

(** [if maxLen != 0 && buf.Len() == maxLen { return ErrStringLength }; buf.WriteByte(n.sym);
    cbits -= n.codeLen; n = rootHuffmanNode; sbits = cbits] *)
Definition emit_sym (maxLen : Z) (st : dstate) (codeLen : Z) (sym : byte) : res hpack_error dstate :=
  if negb (maxLen =? 0) && (slen (out st) =? maxLen) then Err ErrStringLength else
  let cbits := uint8 (cbits st - codeLen) in
  Ok (mkDstate rootHuffmanNode (cur st) cbits cbits (out st ++ [sym])).

Definition children (n : node) : list (option node) :=
  match n with Internal children => children | Leaf _ _ => [] end.

(** [for cbits >= 8 { ... }] *)
Fixpoint decode_inner (fuel : nat) (maxLen : Z) (st : dstate) : res hpack_error dstate :=
  if 8 <=? cbits st then
    match fuel with
    | O => Diverge
    | S fuel =>
        let idx := uint8 (Z.shiftr (cur st) (cbits st - 8)) in
        child ← index (children (n st)) idx;
        match child with
        | None => Err ErrInvalidHuffman
        | Some (Leaf codeLen sym) =>
            st ← emit_sym maxLen st codeLen sym;
            decode_inner fuel maxLen st
        | Some (Internal _ as child) =>
            decode_inner fuel maxLen
              (mkDstate child (cur st) (uint8 (cbits st - 8)) (sbits st) (out st))
        end
    end
  else Ok st.

(** [for _, b := range v { ... }].  A round of the inner loop uses at least one of
    at most 15 bits. *)
Fixpoint decode_outer (maxLen : Z) (v : list byte) (st : dstate) : res hpack_error dstate :=
  match v with
  | [] => Ok st
  | b :: v =>
      let cur := Z.lor (uint64 (Z.shiftl (cur st) 8)) (Z_of_byte b) in
      st ← decode_inner 16 maxLen
             (mkDstate (n st) cur (uint8 (cbits st + 8)) (uint8 (sbits st + 8)) (out st));
      decode_outer maxLen v st
  end.

(** [for cbits > 0 { ... }]; a [break] ends it with the state as it is. *)
Fixpoint decode_final (fuel : nat) (maxLen : Z) (st : dstate) : res hpack_error dstate :=
  if 0 <? cbits st then
    match fuel with
    | O => Diverge
    | S fuel =>
        let idx := uint8 (uint64 (Z.shiftl (cur st) (8 - cbits st))) in
        child ← index (children (n st)) idx;
        match child with
        | None => Err ErrInvalidHuffman
        | Some (Internal _ as child) =>
            Ok (mkDstate child (cur st) (cbits st) (sbits st) (out st))
        | Some (Leaf codeLen sym as child) =>
            if cbits st <? codeLen
            then Ok (mkDstate child (cur st) (cbits st) (sbits st) (out st))
            else
              st ← emit_sym maxLen st codeLen sym;
              decode_final fuel maxLen st
        end
    end
  else Ok st.

Definition huffmanDecode (maxLen : Z) (v : list byte) : res hpack_error (list byte) :=
  st ← decode_outer maxLen v (mkDstate rootHuffmanNode 0 0 0 []);
  st ← decode_final 8 maxLen st;
  if 7 <? sbits st then Err ErrInvalidHuffman else
  let mask := uint64 (Z.shiftl 1 (cbits st) - 1) in
  if negb (Z.land (cur st) mask =? mask) then Err ErrInvalidHuffman else
  Ok (out st).

(** [w.Write], whose result [HuffmanDecode] returns. *)
Definition HuffmanDecode {E} (w_Write : list byte -> Z * option E) (v : list byte)
  : res hpack_error (Z * option E) :=
  match huffmanDecode 0 v with
  | Ok s => Ok (w_Write s)
  | Err e => Err e
  | Panic => Panic
  | Diverge => Diverge
  end.

Definition HuffmanDecodeToString (v : list byte) : res hpack_error (list byte) :=
  huffmanDecode 0 v.

(** ** Encoding *)

(** [dst[i] |= t] *)
Definition or_at {E} (dst : list byte) (i t : Z) : res E (list byte) :=
  b ← index dst i;
  store dst i (byte_of_Z (Z.lor (Z_of_byte b) t)).

(** [dst[len(dst)-1] |= t] *)
Definition or_last {E} (dst : list byte) (t : Z) : res E (list byte) :=
  or_at dst (slen dst - 1) t.

Fixpoint append_code {E} (fuel : nat) (dst : list byte) (rembits code nbits : Z)
  : res E (list byte * Z) :=
  match fuel with
  | O => Diverge
  | S fuel =>
      if nbits <? rembits then
        let t := uint8 (uint32 (Z.shiftl code (rembits - nbits))) in
        dst ← or_last dst t;
        Ok (dst, rembits - nbits)
      else
        let t := uint8 (Z.shiftr code (nbits - rembits)) in
        dst ← or_last dst t;
        let nbits := nbits - rembits in
        let rembits := 8 in
        if nbits =? 0 then Ok (dst, rembits)
        else append_code fuel (dst ++ [x00]) rembits code nbits
  end.

(** A code word spans at most five bytes. *)
Definition appendByteToHuffmanCode {E} (dst : list byte) (rembits : Z) (c : byte)
  : res E (list byte * Z) :=
  code ← index huffmanCodes (Z_of_byte c);
  nbits ← index huffmanCodeLen (Z_of_byte c);
  append_code 5 dst rembits code nbits.

Fixpoint append_string {E} (dst : list byte) (rembits : Z) (s : list byte)
  : res E (list byte * Z) :=
  match s with
  | [] => Ok (dst, rembits)
  | c :: s =>
      let dst := if rembits =? 8 then dst ++ [x00] else dst in
      '(dst, rembits) ← appendByteToHuffmanCode dst rembits c;
      append_string dst rembits s
  end.

Definition AppendHuffmanString {E} (dst : list byte) (s : list byte) : res E (list byte) :=
  '(dst, rembits) ← append_string dst 8 s;
  if rembits <? 8 then
    let code := 0x3fffffff in
    let nbits := 30 in
    let t := uint8 (Z.shiftr code (nbits - rembits)) in
    or_last dst t
  else Ok dst.

(** The loop of [HuffmanEncodeLength]. *)
Fixpoint sum_lengths {E} (n : Z) (s : list byte) : res E Z :=
  match s with
  | [] => Ok n
  | c :: s =>
      l ← index huffmanCodeLen (Z_of_byte c);
      sum_lengths (uint64 (n + l)) s
  end.

Definition HuffmanEncodeLength {E} (s : list byte) : res E Z :=
  n ← sum_lengths 0 s;
  Ok (uint64 (n + 7) / 8).
