(* ===== verification/HpackBits.v ===== *)
(** * Bit strings, and the bits of Huffman-coded data

    Numbers as strings of bits, most significant first, and the lemmas that
    relate the shifts and masks of huffman.go to them; then the meaning of the
    code tables: the bit string of a symbol, and the facts about the 256 code
    words and the decoding tree that are checked by computation. *)

From stdpp Require Import base list strings.
From Stdlib Require Import ZArith Strings.Byte Lia.
From S2P Require Import Prelude.
From S2P Require Import Hpack.
From S2P Require Import HpackHuffman.
Open Scope Z_scope.

(** ** The low [w] bits of a number *)

Fixpoint zbits (w : nat) (z : Z) : list bool :=
  match w with
  | O => []
  | S w => Z.testbit z (Z.of_nat w) :: zbits w z
  end.

Lemma length_zbits w z : length (zbits w z) = w.
Proof. induction w; simpl; congruence. Qed.

Lemma zbits_ext w z z' :
  (forall i, 0 <= i < Z.of_nat w -> Z.testbit z i = Z.testbit z' i) -> zbits w z = zbits w z'.
Proof.
  induction w as [|w IH]; intros H; simpl; [done|].
  rewrite H by lia. f_equal. apply IH. intros. apply H. lia.
Qed.

Lemma zbits_inj w z z' i : zbits w z = zbits w z' -> 0 <= i < Z.of_nat w -> Z.testbit z i = Z.testbit z' i.
Proof.
  induction w as [|w IH]; intros H Hi; [lia|]. injection H as Hw H.
  destruct (decide (i = Z.of_nat w)) as [->|]; [done|]. apply IH; [done|lia].
Qed.

Lemma zbits_app a b z : zbits (a + b) z = zbits a (Z.shiftr z (Z.of_nat b)) ++ zbits b z.
Proof.
  induction a as [|a IH]; simpl; [done|]. rewrite IH, Z.shiftr_spec by lia.
  f_equal. f_equal. lia.
Qed.

Lemma zbits_0 w : zbits w 0 = replicate w false.
Proof. induction w as [|w IH]; simpl; [done|]. by rewrite Z.bits_0, IH. Qed.

Lemma zbits_drop a b z : drop a (zbits (a + b) z) = zbits b z.
Proof. rewrite zbits_app. apply drop_app_length'. by rewrite length_zbits. Qed.

(** Reading a byte that has wrapped around. *)
Lemma testbit_mod_low z w i : 0 <= i < w -> Z.testbit (z mod 2 ^ w) i = Z.testbit z i.
Proof. intros. apply Z.mod_pow2_bits_low. lia. Qed.

Lemma zbits_mod w m z : Z.of_nat w <= m -> zbits w (z mod 2 ^ m) = zbits w z.
Proof. intros. apply zbits_ext. intros. apply testbit_mod_low. lia. Qed.

Lemma zbits_uint8 w z : (w <= 8)%nat -> zbits w (uint8 z) = zbits w z.
Proof. intros. apply zbits_mod. lia. Qed.

Lemma zbits_small_eq w z z' :
  0 <= z < 2 ^ Z.of_nat w -> 0 <= z' < 2 ^ Z.of_nat w -> zbits w z = zbits w z' -> z = z'.
Proof.
  intros Hz Hz' H. rewrite <- (Z.mod_small z (2 ^ Z.of_nat w)), <- (Z.mod_small z' (2 ^ Z.of_nat w)) by lia.
  apply Z.bits_inj'. intros i Hi. destruct (decide (i < Z.of_nat w)).
  - rewrite !testbit_mod_low by lia. eapply zbits_inj; [done|lia].
  - by rewrite !Z.mod_pow2_bits_high by lia.
Qed.

(** [cur<<8 | b] appends the bits of [b]. *)
Lemma zbits_push w cur b :
  (w + 8 <= 64)%nat -> 0 <= b < 256 ->
  zbits (w + 8) (Z.lor (uint64 (Z.shiftl cur 8)) b) = zbits w cur ++ zbits 8 b.
Proof.
  intros Hw Hb. rewrite zbits_app. f_equal; apply zbits_ext; intros i Hi.
  - rewrite Z.shiftr_spec, Z.lor_spec by lia. unfold uint64.
    rewrite testbit_mod_low, Z.shiftl_spec by lia. replace (i + Z.of_nat 8 - 8) with i by lia.
    assert (Z.testbit b (i + Z.of_nat 8) = false) as ->; [|apply orb_false_r].
    rewrite <- (Z.mod_small b (2 ^ 8)) by lia. apply Z.mod_pow2_bits_high. lia.
  - rewrite Z.lor_spec. unfold uint64. rewrite testbit_mod_low, Z.shiftl_spec by lia.
    by rewrite Z.testbit_neg_r by lia.
Qed.

(** [byte(cur >> (cbits-8))] is the first eight bits, ... *)
Lemma zbits_top w cur : zbits (8 + w) cur = zbits 8 (uint8 (Z.shiftr cur (Z.of_nat w))) ++ zbits w cur.
Proof. by rewrite zbits_app, zbits_uint8. Qed.

(** ... and [byte(cur<<(8-cbits))] all bits, with zeros after them. *)
Lemma zbits_pad w cur :
  (w <= 8)%nat ->
  zbits 8 (uint8 (uint64 (Z.shiftl cur (8 - Z.of_nat w)))) = zbits w cur ++ replicate (8 - w) false.
Proof.
  intros Hw. rewrite zbits_uint8 by lia. unfold uint64. rewrite zbits_mod by lia.
  replace (zbits 8) with (zbits (w + (8 - w))) by (f_equal; lia).
  rewrite zbits_app, <- zbits_0. f_equal; apply zbits_ext; intros i Hi.
  - rewrite Z.shiftr_spec, Z.shiftl_spec by lia. f_equal. lia.
  - rewrite Z.shiftl_spec, Z.bits_0 by lia. apply Z.testbit_neg_r. lia.
Qed.

Lemma zbits_all_ones k w : Z.of_nat k <= w -> zbits k (Z.ones w) = replicate k true.
Proof.
  induction k as [|k IH]; intros; simpl; [done|]. rewrite Z.ones_spec_low by lia. f_equal. apply IH. lia.
Qed.

(** [cur&mask == mask] *)
Lemma zbits_ones w cur :
  Z.land cur (Z.ones (Z.of_nat w)) = Z.ones (Z.of_nat w) <-> zbits w cur = replicate w true.
Proof.
  rewrite Z.land_ones by lia. rewrite <- (zbits_mod w (Z.of_nat w) cur) by lia.
  split; [intros ->; by apply zbits_all_ones|]. intros H. apply (zbits_small_eq w).
  - apply Z.mod_pos_bound. lia.
  - rewrite Z.ones_equiv. pose proof (Z.pow_pos_nonneg 2 (Z.of_nat w)). lia.
  - rewrite H. symmetry. by apply zbits_all_ones.
Qed.

(** [b | t] where [t] takes the place of low zero bits. *)
Lemma zbits_lor_low k w a t :
  0 <= t < 2 ^ Z.of_nat w -> zbits w a = replicate w false ->
  zbits (k + w) (Z.lor a t) = zbits k (Z.shiftr a (Z.of_nat w)) ++ zbits w t.
Proof.
  intros Ht Ha. rewrite zbits_app. f_equal; apply zbits_ext; intros i Hi.
  - rewrite !Z.shiftr_spec, Z.lor_spec by lia.
    assert (Z.testbit t (i + Z.of_nat w) = false) as ->; [|apply orb_false_r].
    rewrite <- (Z.mod_small t (2 ^ Z.of_nat w)) by lia. apply Z.mod_pow2_bits_high. lia.
  - rewrite <- zbits_0 in Ha. rewrite Z.lor_spec, (zbits_inj _ _ _ i Ha), Z.bits_0 by lia. done.
Qed.

(** ** The bits of a byte string *)

Definition bytes_bits (v : list byte) : list bool := v ≫= fun b => zbits 8 (Z_of_byte b).

Lemma bytes_bits_app v1 v2 : bytes_bits (v1 ++ v2) = bytes_bits v1 ++ bytes_bits v2.
Proof. apply bind_app. Qed.

Lemma length_bytes_bits v : length (bytes_bits v) = (8 * length v)%nat.
Proof.
  induction v as [|b v IH]; [done|]. unfold bytes_bits in *.
  rewrite bind_cons, length_app, IH, length_zbits. simpl. lia.
Qed.

Lemma bytes_bits_inj v1 v2 : bytes_bits v1 = bytes_bits v2 -> v1 = v2.
Proof.
  revert v2. induction v1 as [|b v1 IH]; intros [|b2 v2] H; [done|..].
  1,2: apply (f_equal length) in H; rewrite !length_bytes_bits in H; simpl in H; lia.
  unfold bytes_bits in H. rewrite !bind_cons in H.
  apply app_inj_1 in H as [Hb H]; [|by rewrite !length_zbits].
  f_equal; [|by apply IH]. rewrite <- (byte_of_Z_of_byte b), <- (byte_of_Z_of_byte b2). f_equal.
  apply (zbits_small_eq 8); [apply Z_of_byte_range..|done].
Qed.

(** ** The code words *)

Definition code_len (c : byte) : Z := default 0 (huffmanCodeLen !! Z.to_nat (Z_of_byte c)).
Definition code_word (c : byte) : Z := default 0 (huffmanCodes !! Z.to_nat (Z_of_byte c)).

Definition code_bits (c : byte) : list bool := zbits (Z.to_nat (code_len c)) (code_word c).

Definition codes (s : list byte) : list bool := s ≫= code_bits.

Lemma codes_app s1 s2 : codes (s1 ++ s2) = codes s1 ++ codes s2.
Proof. apply bind_app. Qed.

Lemma codes_cons c s : codes (c :: s) = code_bits c ++ codes s.
Proof. done. Qed.

Lemma codes_one c : codes [c] = code_bits c.
Proof. rewrite codes_cons. apply app_nil_r. Qed.

(** [bs] is the code of [s], padded with fewer than eight ones. *)
Definition encodes (bs : list bool) (s : list byte) : Prop :=
  exists k, (k < 8)%nat /\ bs = codes s ++ replicate k true.

(** *** Facts about the tables, by computation over the 256 symbols *)

Definition all_bytes : list byte := (fun i => byte_of_Z (Z.of_nat i)) <$> seq 0 256.

Lemma elem_of_all_bytes c : c ∈ all_bytes.
Proof.
  pose proof (Z_of_byte_range c). apply list_elem_of_fmap. exists (Z.to_nat (Z_of_byte c)).
  rewrite Z2Nat.id by lia. rewrite byte_of_Z_of_byte. split; [done|]. apply elem_of_seq. lia.
Qed.

Lemma forallb_bytes (P : byte -> bool) : forallb P all_bytes = true -> forall c, P c = true.
Proof.
  intros H c. rewrite forallb_forall in H. apply H. apply list_elem_of_In, elem_of_all_bytes.
Qed.

(** The tables with the words as bit strings. *)
Definition code_table : list (byte * list bool) := (fun c => (c, code_bits c)) <$> all_bytes.

Fixpoint prefixb (l1 l2 : list bool) : bool :=
  match l1, l2 with
  | [], _ => true
  | x :: l1, y :: l2 => Bool.eqb x y && prefixb l1 l2
  | _ :: _, [] => false
  end.

Lemma prefixb_spec l1 l2 : prefixb l1 l2 = true <-> l1 `prefix_of` l2.
Proof.
  revert l2. induction l1 as [|x l1 IH]; intros [|y l2]; simpl.
  - split; [intros; apply prefix_nil|done].
  - split; [intros; apply prefix_nil|done].
  - split; [done|]. intros [k Hk]. done.
  - rewrite andb_true_iff, Bool.eqb_true_iff, IH. split.
    + intros [-> H]. by apply prefix_cons.
    + intros H. split; [by eapply prefix_cons_inv_1 | by eapply prefix_cons_inv_2].
Qed.

(** Two strings of which one is a prefix of the other. *)
Definition comparable (l1 l2 : list bool) : bool := prefixb l1 l2 || prefixb l2 l1.

Lemma comparable_app l1 l2 k1 k2 : l1 ++ k1 = l2 ++ k2 -> comparable l1 l2 = true.
Proof.
  intros H. unfold comparable. apply orb_true_iff. rewrite !prefixb_spec.
  assert (l1 `prefix_of` l2 ++ k2) as H1 by (exists k1; done).
  destruct (prefix_weak_total l1 l2 (l2 ++ k2)); [done|by apply prefix_app_r|by left|by right].
Qed.

Definition check_table : bool :=
  forallb (fun x => forallb (fun y =>
    bool_decide (x.1 = y.1) || negb (comparable x.2 y.2)) code_table) code_table.

Lemma check_table_ok : check_table = true.
Proof. vm_compute. reflexivity. Qed.

Lemma prefix_free c d : comparable (code_bits c) (code_bits d) = true -> c = d.
Proof.
  intros H. pose proof check_table_ok as Ht. unfold check_table, code_table in Ht.
  assert (forall b, (b, code_bits b) ∈ (fun c => (c, code_bits c)) <$> all_bytes) as Hin.
  { intros b. apply list_elem_of_fmap. exists b. split; [done|apply elem_of_all_bytes]. }
  rewrite forallb_forall in Ht. specialize (Ht (c, code_bits c)).
  rewrite <- list_elem_of_In in Ht. specialize (Ht (Hin c)).
  rewrite forallb_forall in Ht. specialize (Ht (d, code_bits d)).
  rewrite <- list_elem_of_In in Ht. specialize (Ht (Hin d)). cbn [fst snd] in Ht.
  rewrite H, orb_false_r in Ht. by apply bool_decide_eq_true in Ht.
Qed.

(** Lengths and values are in range, and no word is made of ones only that
    could be taken for padding. *)
Definition check_word (c : byte) : bool :=
  (5 <=? code_len c) && (code_len c <=? 30) &&
  (0 <=? code_word c) && (code_word c <? 2 ^ code_len c) &&
  negb (prefixb (code_bits c) (replicate 7 true)).

Lemma check_word_ok c : check_word c = true.
Proof. revert c. apply forallb_bytes. vm_compute. reflexivity. Qed.

Lemma code_len_range c : 5 <= code_len c <= 30.
Proof.
  pose proof (check_word_ok c) as H. unfold check_word in H.
  rewrite !andb_true_iff in H. destruct H as [[[[? ?] ?] ?] ?]. lia.
Qed.

Lemma code_word_range c : 0 <= code_word c < 2 ^ code_len c.
Proof.
  pose proof (check_word_ok c) as H. unfold check_word in H.
  rewrite !andb_true_iff in H. destruct H as [[[[? ?] ?] ?] ?]. lia.
Qed.

(** No code word starts a string of fewer than eight ones. *)
Lemma code_not_padding c t k : (k < 8)%nat -> code_bits c ++ t <> replicate k true.
Proof.
  intros Hk H. pose proof (check_word_ok c) as Hc. unfold check_word in Hc.
  rewrite !andb_true_iff in Hc. destruct Hc as [_ Hc]. apply negb_true_iff in Hc.
  assert (prefixb (code_bits c) (replicate 7 true) = true) as Hp; [|by rewrite Hp in Hc].
  apply prefixb_spec. exists (t ++ replicate (7 - k) true).
  rewrite app_assoc, H, <- replicate_add. f_equal. lia.
Qed.

(** Padding with zeros after it is the start of some code word, or has one as its
    start. *)
Lemma padding_comparable j :
  (j < 8)%nat ->
  exists c, comparable (code_bits c) (replicate j true ++ replicate (8 - j) false) = true.
Proof.
  intros Hj.
  assert (forallb (fun j => existsb (fun c =>
    comparable (code_bits c) (replicate j true ++ replicate (8 - j) false)) all_bytes) (seq 0 8) = true) as H
    by (vm_compute; reflexivity).
  rewrite forallb_forall in H. specialize (H j). rewrite in_seq in H. specialize (H ltac:(lia)).
  apply existsb_exists in H as (c & _ & H). by exists c.
Qed.

(** What is encoded is determined by the bits. *)
Lemma encodes_nil s : encodes [] s -> s = [].
Proof.
  intros (k & Hk & H). destruct s as [|c s]; [done|]. rewrite codes_cons, <- app_assoc in H.
  destruct (code_not_padding c (codes s ++ replicate k true) 0); [lia|done].
Qed.

Lemma encodes_cons c bs s :
  encodes (code_bits c ++ bs) s -> exists s', s = c :: s' /\ encodes bs s'.
Proof.
  intros (k & Hk & H). destruct s as [|d s].
  - by destruct (code_not_padding c bs k).
  - rewrite codes_cons, <- app_assoc in H.
    assert (c = d) as <- by (apply prefix_free; by eapply comparable_app).
    apply app_inv_head in H. exists s. split; [done|]. by exists k.
Qed.

Lemma encodes_codes s1 bs s :
  encodes (codes s1 ++ bs) s -> exists s', s = s1 ++ s' /\ encodes bs s'.
Proof.
  revert s. induction s1 as [|c s1 IH]; intros s H; [by exists s|].
  rewrite codes_cons, <- app_assoc in H. apply encodes_cons in H as (s' & -> & H).
  apply IH in H as (s2 & -> & H). by exists s2.
Qed.

Lemma encodes_unique bs s s' : encodes bs s -> encodes bs s' -> s = s'.
Proof.
  intros (k & Hk & ->) H. apply encodes_codes in H as (s2 & -> & H).
  destruct s2 as [|c s2]; [by rewrite app_nil_r|]. destruct H as (k2 & Hk2 & H).
  rewrite codes_cons, <- app_assoc in H. by destruct (code_not_padding c (codes s2 ++ replicate k2 true) k).
Qed.

(** ** The decoding tree *)

(** [check_node fuel p n]: [n], reached after the bits [p], is an internal node
    whose children are right: a leaf completes the code word of its symbol, a
    node is on the way to a longer word, and where there is no child there is no
    word. *)
Fixpoint check_node (fuel : nat) (p : list bool) (n : node) : bool :=
  match fuel, n with
  | S fuel, Internal ch =>
      (Z.of_nat (length ch) =? 256) &&
      forallb (fun i =>
        let q := p ++ zbits 8 (Z.of_nat i) in
        match nth i ch None with
        | Some (Leaf codeLen sym) =>
            (1 <=? codeLen) && (codeLen <=? 8) &&
            bool_decide (code_bits sym = p ++ take (Z.to_nat codeLen) (zbits 8 (Z.of_nat i)))
        | Some child =>
            check_node fuel q child &&
            existsb (fun c => prefixb q (code_bits c) && negb (prefixb (code_bits c) q)) all_bytes
        | None => forallb (fun c => negb (comparable (code_bits c) q)) all_bytes
        end) (seq 0 256)
  | _, _ => false
  end.

Lemma check_root : check_node 4 [] rootHuffmanNode = true.
Proof. vm_compute. reflexivity. Qed.

Lemma init_ok : init = Ok rootHuffmanNode.
Proof. vm_compute. reflexivity. Qed.

(** The children of a checked node. *)
Lemma check_node_child fuel p n idx :
  check_node fuel p n = true -> 0 <= idx < 256 ->
  exists o, index (E:=hpack_error) (children n) idx = Ok o /\
  let q := p ++ zbits 8 idx in
  match o with
  | Some (Leaf codeLen sym) =>
      1 <= codeLen <= 8 /\ code_bits sym = p ++ take (Z.to_nat codeLen) (zbits 8 idx)
  | Some child =>
      (exists fuel', fuel = S fuel' /\ check_node fuel' q child = true) /\
      exists c t, t <> [] /\ code_bits c = q ++ t
  | None => forall c, comparable (code_bits c) q = false
  end.
Proof.
  intros H Hi. destruct fuel as [|fuel]; [done|]. destruct n as [|ch]; [done|].
  cbn [check_node] in H. apply andb_true_iff in H as [Hlen H]. apply Z.eqb_eq in Hlen.
  destruct (lookup_lt_is_Some_2 ch (Z.to_nat idx)) as [o Ho]; [lia|].
  exists o. split. { unfold index. simpl. zcases; [lia|]. by rewrite Ho. }
  rewrite forallb_forall in H. specialize (H (Z.to_nat idx)). rewrite in_seq in H.
  specialize (H ltac:(lia)). rewrite (nth_lookup_Some _ _ _ _ Ho), Z2Nat.id in H by lia.
  cbv zeta. destruct o as [[codeLen sym|ch']|].
  - rewrite !andb_true_iff, bool_decide_eq_true in H. destruct H as [[? ?] ?]. split; [lia|done].
  - apply andb_true_iff in H as [H Hex]. split; [by exists fuel|].
    apply existsb_exists in Hex as (c & _ & [Hp Hn]%andb_true_iff). apply prefixb_spec in Hp as [t Ht].
    exists c, t. split; [|done]. intros ->. rewrite app_nil_r in Ht. rewrite Ht in Hn.
    assert (prefixb (p ++ zbits 8 idx) (p ++ zbits 8 idx) = true) as Hr by by apply prefixb_spec.
    by rewrite Hr in Hn.
  - intros c. rewrite forallb_forall in H. apply negb_true_iff, H, list_elem_of_In, elem_of_all_bytes.
Qed.
