(* ===== verification/HpackHuffmanProps.v ===== *)
(** * HPACK: correctness of the Huffman coder

    The decoder accepts exactly the encodings that the encoder makes, and gives back the
    string; [HuffmanEncodeLength] is the length of the encoding; neither
    panics.  The decoder's loops are related to strings of bits: the bits of the
    nodes passed since the last symbol, then the bits that are in [cur]. *)

From stdpp Require Import base list strings.
From Stdlib Require Import ZArith Strings.Byte Lia.
From S2P Require Import Prelude.
From S2P Require Import Hpack.
From S2P Require Import HpackHuffman.
From S2P Require Import HpackBits.
Open Scope Z_scope.

(** ** Decoding *)

(** The bits of [cur] that have not been fed into the tree. *)
Definition pend (st : dstate) : list bool := zbits (Z.to_nat (cbits st)) (cur st).

(** The state after the bits [p] of an incomplete symbol. *)
Record st_ok (maxLen : Z) (p : list bool) (st : dstate) : Prop := {
  ok_node : exists fuel, check_node fuel p (n st) = true /\ (length p + 8 * fuel = 32)%nat;
  ok_path : forall c t, code_bits c ++ t <> p;
  ok_cbits : 0 <= cbits st;
  ok_sbits : sbits st = Z.of_nat (length p) + cbits st;
  ok_len : maxLen = 0 \/ slen (out st) <= maxLen;
}.

(** What a piece of the decoder does with the bits [bs], when [o] has been decoded
    before: it decodes some symbols and leaves a state that satisfies [Q]; or the bits, with
    whatever follows them (any tail in [T]), encode nothing; or the string is too long. *)
Definition result_ok (Q : list bool -> dstate -> Prop) (T : list bool -> Prop) (maxLen : Z)
    (bs : list bool) (o : list byte) (r : res hpack_error dstate) : Prop :=
  match r with
  | Ok st => exists s p, Q p st /\ out st = o ++ s /\ bs = codes s ++ p ++ pend st
  | Err ErrInvalidHuffman => forall t s, T t -> ~ encodes (bs ++ t) s
  | Err ErrStringLength =>
      maxLen <> 0 /\ exists s c t, bs = codes (s ++ [c]) ++ t /\ slen (o ++ s) = maxLen
  | _ => False
  end.

Section decode.
Context (maxLen : Z).
Implicit Types (Q : list bool -> dstate -> Prop) (T : list bool -> Prop).

Lemma result_codes Q T s1 rest o r :
  result_ok Q T maxLen rest (o ++ s1) r -> result_ok Q T maxLen (codes s1 ++ rest) o r.
Proof.
  destruct r as [st|[]| |]; simpl; try done.
  - intros (s & p & ? & Ho & ->). exists (s1 ++ s), p. rewrite codes_app, <- !app_assoc, app_assoc. done.
  - intros (? & s & c & t & -> & Hl). split; [done|]. exists (s1 ++ s), c, t.
    split; [by rewrite <- (app_assoc s1), (codes_app s1), <- app_assoc | by rewrite app_assoc].
  - intros H t s HT Henc. rewrite <- app_assoc in Henc.
    apply encodes_codes in Henc as (s' & -> & Henc). by eapply H.
Qed.

Lemma result_mono Q Q' T T' bs o r :
  (forall p st, Q p st -> Q' p st) -> (forall t, T' t -> T t) ->
  result_ok Q T maxLen bs o r -> result_ok Q' T' maxLen bs o r.
Proof.
  intros HQ HT. destruct r as [st|[]| |]; simpl; try done.
  - intros (s & p & ? & ?). exists s, p. auto.
  - intros H t s Ht. by apply H, HT.
Qed.

(** [emit_sym] when [codeLen] of the pending bits complete a code word. *)
Lemma emit_sym_ok p st codeLen sym :
  st_ok maxLen p st -> 1 <= codeLen <= 8 -> codeLen <= cbits st <= 15 ->
  code_bits sym = p ++ take (Z.to_nat codeLen) (pend st) ->
  match emit_sym maxLen st codeLen sym with
  | Ok st1 => st_ok maxLen [] st1 /\ out st1 = out st ++ [sym] /\
      cbits st1 = cbits st - codeLen /\ p ++ pend st = codes [sym] ++ pend st1
  | Err ErrStringLength => maxLen <> 0 /\
      exists s c t, p ++ pend st = codes (s ++ [c]) ++ t /\ slen (out st ++ s) = maxLen
  | _ => False
  end.
Proof.
  intros [Hn _ Hc Hs Hl] Hcl Hle Hsym. unfold emit_sym.
  assert (p ++ pend st = codes [sym] ++ zbits (Z.to_nat (cbits st - codeLen)) (cur st)) as Hbits.
  { rewrite codes_one, Hsym, <- app_assoc. f_equal.
    unfold pend. rewrite <- (take_drop (Z.to_nat codeLen)) at 1. f_equal.
    replace (Z.to_nat (cbits st)) with (Z.to_nat codeLen + Z.to_nat (cbits st - codeLen))%nat by lia.
    apply zbits_drop. }
  destruct (Z.eqb_spec maxLen 0) as [Hm|Hm], (Z.eqb_spec (slen (out st)) maxLen) as [He|He];
    cbn [negb andb]; [| | |].
  3: { split; [done|]. exists [], sym, (zbits (Z.to_nat (cbits st - codeLen)) (cur st)).
       by rewrite app_nil_r. }
  all: rewrite uint8_small by lia; split; [|split; [done|split; [done|exact Hbits]]].
  all: split; simpl; [|intros; by apply (code_not_padding _ _ 0); lia|lia|lia|rewrite slen_snoc; lia].
  all: exists 4%nat; split; [apply check_root|done].
Qed.

(** The eight bits at which the tree is entered. *)
Lemma tree_at p st idx :
  st_ok maxLen p st -> 0 <= idx < 256 ->
  exists o, index (E:=hpack_error) (children (n st)) idx = Ok o /\
  let q := p ++ zbits 8 idx in
  match o with
  | Some (Leaf codeLen sym) =>
      1 <= codeLen <= 8 /\ code_bits sym = p ++ take (Z.to_nat codeLen) (zbits 8 idx)
  | Some child =>
      (exists fuel, check_node fuel q child = true /\ (length q + 8 * fuel = 32)%nat) /\
      (length p <= 24)%nat /\ exists c t, t <> [] /\ code_bits c = q ++ t
  | None => forall c, comparable (code_bits c) q = false
  end.
Proof.
  intros [(fuel & Hn & Hf) _ Hc Hs Hl] Hi.
  destruct (check_node_child fuel p (n st) idx) as (o & Ho & H); [done..|].
  exists o. split; [done|]. cbv zeta in H |- *. destruct o as [[|]|]; [done| |done].
  destruct H as [(fuel' & -> & H) Hex]. split; [|split; [lia|done]].
  exists fuel'. rewrite length_app, length_zbits. split; [done|lia].
Qed.

(** A node on the way to a word is not past another one. *)
Lemma inner_path q : (exists c t, t <> [] /\ code_bits c = q ++ t) -> forall c t, code_bits c ++ t <> q.
Proof.
  intros (d & t' & Ht' & Hd) c t Hc.
  assert (code_bits c ++ t ++ t' = code_bits d ++ []) as Hcd
    by (by rewrite app_nil_r, Hd, <- Hc, app_assoc).
  assert (c = d) as <- by (apply prefix_free; by eapply comparable_app).
  apply app_inv_head in Hcd. by destruct t, t'.
Qed.

(** No code word starts where the tree has no child. *)
Lemma no_child q t s :
  (8 <= length q)%nat -> (forall c, comparable (code_bits c) q = false) -> ~ encodes (q ++ t) s.
Proof.
  intros Hq H (k & Hk & He). destruct s as [|c s].
  - apply (f_equal length) in He. rewrite length_app, length_app, length_replicate in He. simpl in He. lia.
  - rewrite codes_cons, <- app_assoc in He. symmetry in He. apply comparable_app in He.
    by rewrite H in He.
Qed.

Lemma decode_inner_ok fuel p st :
  st_ok maxLen p st -> cbits st <= 15 -> cbits st < Z.of_nat fuel + 8 ->
  result_ok (fun p st => st_ok maxLen p st /\ cbits st < 8) (fun _ => True) maxLen
    (p ++ pend st) (out st) (decode_inner fuel maxLen st).
Proof.
  revert p st. induction fuel as [|fuel IH]; intros p st Hst Hc Hf.
  all: unfold decode_inner; fold decode_inner; destruct (Z.leb_spec 8 (cbits st)); [|
    exists [], p; rewrite app_nil_r; split; [split; [done|lia]|done]].
  { lia. }
  set (idx := uint8 (Z.shiftr (cur st) (cbits st - 8))).
  assert (0 <= idx < 256) as Hidx by (apply Z.mod_pos_bound; lia).
  assert (pend st = zbits 8 idx ++ zbits (Z.to_nat (cbits st - 8)) (cur st)) as Hpend.
  { unfold pend. replace (Z.to_nat (cbits st)) with (8 + Z.to_nat (cbits st - 8))%nat by lia.
    rewrite zbits_top. by rewrite Z2Nat.id by lia. }
  destruct (tree_at p st idx Hst Hidx) as (o & -> & Ho). cbn [mbind res_bind]. cbv zeta in Ho.
  destruct o as [[codeLen sym|ch]|].
  - destruct Ho as [Hcl Hsym].
    pose proof (emit_sym_ok p st codeLen sym Hst Hcl ltac:(lia)) as He.
    rewrite Hpend, take_app_le, <- Hpend in He by (rewrite length_zbits; lia). specialize (He Hsym).
    destruct (emit_sym maxLen st codeLen sym) as [st1|[]| |]; try done. cbn [mbind res_bind].
    destruct He as (Hst1 & Ho1 & Hc1 & ->). apply result_codes. rewrite <- Ho1.
    apply (IH [] st1 Hst1); lia.
  - destruct Ho as ((fu & Hn & Hfu) & Hp & Hpath). destruct Hst as [_ _ _ Hs Hl].
    rewrite uint8_small by lia.
    set (st1 := mkDstate _ _ _ _ _).
    replace (p ++ pend st) with ((p ++ zbits 8 idx) ++ pend st1)
      by (rewrite <- app_assoc; unfold pend at 1; simpl; by rewrite Hpend).
    apply (IH (p ++ zbits 8 idx) st1); simpl; try lia.
    split; simpl; [by exists fu|by apply inner_path|lia| |done]. rewrite length_app. simpl. lia.
  - intros t s _. rewrite Hpend, app_assoc, <- (app_assoc (p ++ _)). apply no_child; [|done].
    rewrite length_app, length_zbits. lia.
Qed.

Lemma decode_outer_ok v p st :
  st_ok maxLen p st -> cbits st < 8 ->
  result_ok (fun p st => st_ok maxLen p st /\ cbits st < 8) (fun _ => True) maxLen
    (p ++ pend st ++ bytes_bits v) (out st) (decode_outer maxLen v st).
Proof.
  revert p st. induction v as [|b v IH]; intros p st Hst Hc.
  { exists [], p. simpl. rewrite !app_nil_r. done. }
  destruct (Hst) as [(fuel & Hn & Hf) Hpath Hc0 Hs Hl].
  cbn [decode_outer]. pose proof (Z_of_byte_range b).
  set (st1 := mkDstate _ _ _ _ _).
  assert (st_ok maxLen p st1 /\ cbits st1 = cbits st + 8) as [Hst1 Hc1].
  { assert (length p <= 32)%nat by lia. split; [split; simpl|simpl; rewrite uint8_small; lia].
    - by exists fuel.
    - done.
    - rewrite uint8_small; lia.
    - rewrite !uint8_small; lia.
    - done. }
  assert (p ++ pend st ++ bytes_bits (b :: v) = (p ++ pend st1) ++ bytes_bits v) as ->.
  { assert (pend st1 = pend st ++ zbits 8 (Z_of_byte b)) as ->.
    { unfold pend. rewrite Hc1. simpl cur.
      replace (Z.to_nat (cbits st + 8)) with (Z.to_nat (cbits st) + 8)%nat by lia.
      apply zbits_push; lia. }
    unfold bytes_bits. by rewrite bind_cons, <- !app_assoc. }
  pose proof (decode_inner_ok 16 p st1 Hst1 ltac:(lia) ltac:(lia)) as Hin.
  destruct (decode_inner 16 maxLen st1) as [st2|[]| |]; try done; cbn [mbind res_bind].
  - destruct Hin as (s & p2 & [Hst2 Hc2] & Ho2 & ->). rewrite <- !app_assoc.
    apply result_codes. change (out st) with (out st1). rewrite <- Ho2. by apply IH.
  - destruct Hin as (? & s & c & t & -> & ?). split; [done|]. exists s, c, (t ++ bytes_bits v).
    by rewrite <- app_assoc.
  - intros t s _. rewrite <- app_assoc. by apply Hin.
Qed.

(** After the last loop no whole code word is left. *)
Definition ended (p : list bool) (st : dstate) : Prop :=
  (exists fuel, length p + 8 * fuel = 32)%nat /\ 0 <= cbits st < 8 /\ sbits st = Z.of_nat (length p) + cbits st /\
  (maxLen = 0 \/ slen (out st) <= maxLen) /\
  forall s, encodes (p ++ pend st) s -> s = [].

Lemma no_word_encodes bs : (forall c t, code_bits c ++ t <> bs) -> forall s, encodes bs s -> s = [].
Proof.
  intros H [|c s] (k & _ & He); [done|]. rewrite codes_cons, <- app_assoc in He.
  by destruct (H c (codes s ++ replicate k true)).
Qed.

Lemma decode_final_ok fuel p st :
  st_ok maxLen p st -> cbits st < 8 -> cbits st <= Z.of_nat fuel ->
  result_ok ended (fun t => t = []) maxLen (p ++ pend st) (out st) (decode_final fuel maxLen st).
Proof.
  revert p st. induction fuel as [|fuel IH]; intros p st Hst Hc Hf.
  all: destruct (Hst) as [Hnode Hc0 Hs Hl].
  all: unfold decode_final; fold decode_final; destruct (Z.ltb_spec 0 (cbits st)).
  1: lia.
  1,3: exists [], p; rewrite app_nil_r; split; [|done];
       split; [destruct Hnode as (fu & _ & Hfu); by exists fu|];
       split; [lia|split; [done|split; [done|]]];
       unfold pend; replace (cbits st) with 0 by lia; rewrite app_nil_r;
       by apply no_word_encodes.
  set (idx := uint8 _).
  assert (0 <= idx < 256) as Hidx by (apply Z.mod_pos_bound; lia).
  set (zs := replicate (8 - Z.to_nat (cbits st)) false).
  assert (zbits 8 idx = pend st ++ zs) as Hpend.
  { unfold pend, zs. rewrite <- zbits_pad by lia. by rewrite Z2Nat.id by lia. }
  assert (length (pend st) = Z.to_nat (cbits st)) as Hlp by apply length_zbits.
  destruct (tree_at p st idx Hst Hidx) as (o & -> & Ho). cbn [mbind res_bind]. cbv zeta in Ho.
  rewrite Hpend in Ho. destruct o as [[codeLen sym|ch]|].
  - destruct Ho as [Hcl Hsym]. destruct (Z.ltb_spec (cbits st) codeLen).
    + (* the symbol is not complete *)
      exists [], p. rewrite app_nil_r. split; [|done].
      split; [destruct Hnode as (fu & _ & Hfu); by exists fu|]. split; [simpl; lia|]. split; [done|].
      split; [done|]. apply no_word_encodes. intros c t Hw. change (pend _) with (pend st) in Hw.
      rewrite take_app_ge, app_assoc, <- Hw, <- app_assoc in Hsym by lia.
      assert (sym = c) as -> by (apply prefix_free; eapply (comparable_app _ _ []); rewrite app_nil_r; exact Hsym).
      apply (f_equal length) in Hsym, Hw. rewrite !length_app in Hsym. rewrite !length_app in Hw.
      unfold zs in Hsym. rewrite length_take, length_replicate in Hsym. lia.
    + rewrite take_app_le in Hsym by lia.
      pose proof (emit_sym_ok p st codeLen sym Hst Hcl ltac:(lia) Hsym) as He.
      destruct (emit_sym maxLen st codeLen sym) as [st1|[]| |]; try done. cbn [mbind res_bind].
      destruct He as (Hst1 & Ho1 & Hc1 & ->). apply result_codes. rewrite <- Ho1.
      apply (IH [] st1 Hst1); lia.
  - destruct Ho as (_ & _ & Hex). exists [], p. rewrite app_nil_r. split; [|done].
    split; [destruct Hnode as (fu & _ & Hfu); by exists fu|]. split; [simpl; lia|]. split; [done|]. split; [done|]. apply no_word_encodes. intros c t Hw.
    change (pend _) with (pend st) in Hw.
    apply (inner_path _ Hex c (t ++ zs)). by rewrite !app_assoc, Hw.
  - intros t s -> Henc. rewrite app_nil_r in Henc. destruct Henc as (k & Hk & He).
    destruct s as [|c s].
    + (* only padding: but all padding has a child *)
      simpl in He. assert (length p + length (pend st) = k)%nat as Hk'.
      { rewrite <- length_app, He. apply length_replicate. }
      destruct Hnode as (fu & _ & Hfu). assert (p = []) as -> by (apply nil_length_inv; lia).
      simpl in He, Ho, Hk'. destruct (padding_comparable k Hk) as (c & Hcomp).
      specialize (Ho c). rewrite He in Ho. unfold zs in Ho.
      by replace (Z.to_nat (cbits st)) with k in Ho by lia; rewrite Hcomp in Ho.
    + specialize (Ho c). rewrite codes_cons, <- app_assoc in He.
      rewrite (comparable_app _ _ (codes s ++ replicate k true ++ zs) []) in Ho; [done|].
      by rewrite app_nil_r, (app_assoc p), He, <- !app_assoc.
Qed.

(** The whole decoder, on the bits of its input. *)
Lemma huffmanDecode_bits v :
  0 <= maxLen ->
  match huffmanDecode maxLen v with
  | Ok s => encodes (bytes_bits v) s /\ (maxLen = 0 \/ slen s <= maxLen)
  | Err ErrInvalidHuffman => forall s, ~ encodes (bytes_bits v) s
  | Err ErrStringLength => maxLen <> 0 /\ forall s, encodes (bytes_bits v) s -> maxLen < slen s
  | _ => False
  end.
Proof.
  intros Hmax. unfold huffmanDecode. set (st0 := mkDstate _ _ _ _ _).
  assert (forall bs s c t s', bs = codes (s ++ [c]) ++ t -> slen s = maxLen ->
    encodes bs s' -> maxLen < slen s') as Hlong.
  { intros bs s c t s' -> Hl Henc. apply encodes_codes in Henc as (s2 & -> & _).
    rewrite slen_app, slen_snoc. pose proof (slen_nonneg s2). lia. }
  assert (st_ok maxLen [] st0) as Hst0.
  { split; simpl; [exists 4%nat; split; [apply check_root|done]| |lia|lia|unfold slen; simpl; lia].
    intros c t. apply (code_not_padding c t 0). lia. }
  pose proof (decode_outer_ok v [] st0 Hst0 ltac:(simpl; lia)) as Hout.
  change (pend st0) with (@nil bool) in Hout. simpl app in Hout. change (out st0) with (@nil byte) in Hout.
  destruct (decode_outer maxLen v st0) as [st1|[]| |]; try done; cbn [mbind res_bind].
  2: { destruct Hout as (? & s & c & t & Hb & Hl). split; [done|]. intros s'. by eapply Hlong. }
  2: { intros s Henc. apply (Hout [] s); [done|]. by rewrite app_nil_r. }
  destruct Hout as (s1 & p & [Hst1 Hc1] & Ho1 & Hbits).
  pose proof (decode_final_ok 8 p st1 Hst1 Hc1 ltac:(lia)) as Hfin.
  rewrite Ho1 in Hfin. simpl app in Hfin. rewrite Hbits.
  apply (result_codes _ _ s1 _ []) in Hfin.
  destruct (decode_final 8 maxLen st1) as [st2|[]| |]; try done; cbn [mbind res_bind].
  2: { destruct Hfin as (? & s & c & t & Hb & Hl). split; [done|]. intros s'. by eapply Hlong. }
  2: { intros s Henc. apply (Hfin [] s); [done|]. by rewrite app_nil_r. }
  destruct Hfin as (s2 & p2 & ((fu & Hfu) & Hc2 & Hs2 & Hl2 & Hend) & Ho2 & ->). simpl in Ho2. subst s2.
  assert (length (pend st2) = Z.to_nat (cbits st2)) as Hlp by apply length_zbits.
  assert (forall s, encodes (codes (out st2) ++ p2 ++ pend st2) s ->
    exists k, (k < 8)%nat /\ p2 ++ pend st2 = replicate k true) as Hpad.
  { intros s Henc. apply encodes_codes in Henc as (s' & _ & Henc).
    pose proof (Hend _ Henc) as ->. destruct Henc as (k & Hk & He). exists k. by split. }
  destruct (Z.ltb_spec 7 (sbits st2)).
  { intros s Henc. destruct (Hpad s Henc) as (k & Hk & He).
    apply (f_equal length) in He. rewrite length_app, length_replicate in He. lia. }
  assert (uint64 (Z.shiftl 1 (cbits st2) - 1) = Z.ones (Z.of_nat (Z.to_nat (cbits st2)))) as ->.
  { rewrite Z2Nat.id by lia. unfold Z.ones. rewrite <- Z.sub_1_r. apply uint64_small.
    rewrite Z.shiftl_1_l. pose proof (Z.pow_pos_nonneg 2 (cbits st2)).
    assert (2 ^ cbits st2 <= 2 ^ 8) by (apply Z.pow_le_mono_r; lia). lia. }
  destruct (Z.eqb_spec (Z.land (cur st2) (Z.ones (Z.of_nat (Z.to_nat (cbits st2)))))
              (Z.ones (Z.of_nat (Z.to_nat (cbits st2))))) as [Hm|Hm]; cbn [negb].
  - apply zbits_ones in Hm. split; [|done]. exists (Z.to_nat (cbits st2)). split; [lia|].
    assert (p2 = []) as -> by (apply nil_length_inv; lia).
    unfold pend. by rewrite Hm.
  - intros s Henc. destruct (Hpad s Henc) as (k & Hk & He). apply Hm, zbits_ones.
    apply (f_equal (drop (length p2))) in He. rewrite drop_app_length, drop_replicate in He.
    change (zbits _ _) with (pend st2). rewrite He. f_equal.
    apply (f_equal length) in He. rewrite length_replicate in He. lia.
Qed.
End decode.

(** ** Encoding *)

(** The bits still free in the last byte, when [rembits] are: a new byte is
    appended later if [rembits] is 8. *)
Definition free (rembits : Z) : list bool := replicate (Z.to_nat (rembits mod 8)) false.

Section encode.
Context {E : Type}.

(** [dst[len(dst)-1] |= t] fills the free bits. *)
Lemma or_last_ok d v bits r t :
  bytes_bits v = bits ++ replicate r false -> (1 <= r <= 8)%nat -> 0 <= t < 2 ^ Z.of_nat r ->
  exists v', or_last (E:=E) (d ++ v) t = Ok (d ++ v') /\ bytes_bits v' = bits ++ zbits r t.
Proof.
  intros Hv Hr Ht. destruct v as [|b v0 _] using rev_ind.
  { apply (f_equal length) in Hv. rewrite length_app, length_replicate in Hv. simpl in Hv. lia. }
  assert (forall c, bytes_bits (v0 ++ [c]) = bytes_bits v0 ++ zbits 8 (Z_of_byte c)) as Hsnoc.
  { intros c. by rewrite bytes_bits_app. }
  assert (forall z, zbits 8 z = zbits (8 - r) (Z.shiftr z (Z.of_nat r)) ++ zbits r z) as Hsplit.
  { intros z. rewrite <- zbits_app. f_equal. lia. }
  rewrite Hsnoc, Hsplit, app_assoc in Hv. apply app_inj_2 in Hv as [Hbits Hz];
    [|by rewrite length_zbits, length_replicate].
  exists (v0 ++ [byte_of_Z (Z.lor (Z_of_byte b) t)]). split.
  - unfold or_last, or_at. rewrite app_assoc, slen_snoc.
    replace (slen (d ++ v0) + 1 - 1) with (slen (d ++ v0)) by lia.
    rewrite index_app. cbn [mbind res_bind]. unfold store. rewrite slen_snoc.
    pose proof (slen_nonneg (d ++ v0)). zcases; try lia. simpl. f_equal.
    unfold slen. rewrite Nat2Z.id, <- (Nat.add_0_r (length (d ++ v0))), insert_app_r, app_assoc. done.
  - rewrite Hsnoc, Z_of_byte_of_Z, zbits_uint8, Hsplit, <- Hbits, <- app_assoc by lia. f_equal.
    rewrite <- zbits_app. replace (8 - r + r)%nat with ((8 - r) + r)%nat by lia.
    by rewrite zbits_lor_low.
Qed.

Lemma uint8_below t r : (1 <= r <= 8)%nat -> (r = 8%nat \/ 0 <= t < 2 ^ Z.of_nat r) ->
  0 <= uint8 t < 2 ^ Z.of_nat r.
Proof.
  intros Hr [->|Ht]; [apply Z.mod_pos_bound; lia|].
  assert (2 ^ Z.of_nat r <= 2 ^ 8) by (apply Z.pow_le_mono_r; lia).
  by rewrite uint8_small by lia.
Qed.

Lemma free_small r : (1 <= r < 8)%nat -> free (Z.of_nat r) = replicate r false.
Proof. intros. unfold free. rewrite Z.mod_small by lia. by rewrite Nat2Z.id. Qed.

(** The last part of a code word, or the part that fills the byte. *)
Lemma code_fits r nbits code :
  (nbits < r <= 8)%nat -> 0 <= code < 2 ^ 32 -> (r = 8%nat \/ code < 2 ^ Z.of_nat nbits) ->
  let t := uint8 (uint32 (Z.shiftl code (Z.of_nat r - Z.of_nat nbits))) in
  0 <= t < 2 ^ Z.of_nat r /\ zbits r t = zbits nbits code ++ replicate (r - nbits) false.
Proof.
  intros Hr Hc Hfirst t. split.
  - apply uint8_below; [lia|]. destruct Hfirst as [->|Hfirst]; [by left|right].
    rewrite Z.shiftl_mul_pow2 by lia.
    assert (2 ^ Z.of_nat r = 2 ^ Z.of_nat nbits * 2 ^ (Z.of_nat r - Z.of_nat nbits)) as Hpow
      by (rewrite <- Z.pow_add_r by lia; f_equal; lia).
    assert (2 ^ Z.of_nat r <= 2 ^ 8) by (apply Z.pow_le_mono_r; lia).
    pose proof (Z.pow_pos_nonneg 2 (Z.of_nat r - Z.of_nat nbits)).
    unfold uint32. rewrite Z.mod_small by nia. nia.
  - unfold t, uint32. rewrite zbits_uint8, zbits_mod by lia.
    replace (zbits r) with (zbits (nbits + (r - nbits))) by (f_equal; lia).
    rewrite zbits_app, <- zbits_0. f_equal; apply zbits_ext; intros i Hi.
    + rewrite Z.shiftr_spec, Z.shiftl_spec by lia. f_equal. lia.
    + rewrite Z.shiftl_spec, Z.bits_0 by lia. apply Z.testbit_neg_r. lia.
Qed.

Lemma code_fills r nbits code :
  (1 <= r <= 8)%nat -> (r <= nbits)%nat -> 0 <= code < 2 ^ 32 ->
  (r = 8%nat \/ code < 2 ^ Z.of_nat nbits) ->
  let t := uint8 (Z.shiftr code (Z.of_nat nbits - Z.of_nat r)) in
  0 <= t < 2 ^ Z.of_nat r /\ zbits nbits code = zbits r t ++ zbits (nbits - r) code.
Proof.
  intros Hr Hn Hc Hfirst t. split.
  - apply uint8_below; [done|]. destruct Hfirst as [->|Hfirst]; [by left|right].
    rewrite Z.shiftr_div_pow2 by lia.
    assert (2 ^ Z.of_nat nbits = 2 ^ Z.of_nat r * 2 ^ (Z.of_nat nbits - Z.of_nat r)) as Hpow
      by (rewrite <- Z.pow_add_r by lia; f_equal; lia).
    pose proof (Z.pow_pos_nonneg 2 (Z.of_nat nbits - Z.of_nat r)).
    split; [apply Z.div_pos; lia|]. apply Z.div_lt_upper_bound; nia.
  - unfold t. rewrite zbits_uint8 by lia.
    replace (Z.of_nat nbits - Z.of_nat r) with (Z.of_nat (nbits - r)) by lia.
    rewrite <- zbits_app. f_equal. lia.
Qed.

Lemma append_code_ok fuel d v bits r code nbits :
  bytes_bits v = bits ++ replicate r false -> (1 <= r <= 8)%nat ->
  0 <= code < 2 ^ 32 -> (r = 8%nat \/ code < 2 ^ Z.of_nat nbits) ->
  (1 <= nbits)%nat -> (nbits <= r + 8 * fuel)%nat ->
  exists v' r', append_code (E:=E) (S fuel) (d ++ v) (Z.of_nat r) code (Z.of_nat nbits) = Ok (d ++ v', Z.of_nat r') /\
    (1 <= r' <= 8)%nat /\ bytes_bits v' = bits ++ zbits nbits code ++ free (Z.of_nat r').
Proof.
  revert v bits r nbits. induction fuel as [|fuel IH]; intros v bits r nbits Hv Hr Hc Hfirst Hn Hf.
  all: cbn [append_code]; destruct (Z.ltb_spec (Z.of_nat nbits) (Z.of_nat r)) as [Hlt|Hge].
  1,3: destruct (code_fits r nbits code) as [Ht Hbits]; [lia|done..|];
    destruct (or_last_ok d v bits r _ Hv Hr Ht) as (v' & -> & Hv'); cbn [mbind res_bind];
    exists v', (r - nbits)%nat; split; [do 3 f_equal; lia|]; split; [lia|];
    rewrite Hv', Hbits, free_small by lia; done.
  all: destruct (code_fills r nbits code) as [Ht Hbits]; [lia..|done| ];
    destruct (or_last_ok d v bits r _ Hv Hr Ht) as (v' & -> & Hv'); cbn [mbind res_bind]; cbv zeta.
  1: destruct (Z.eqb_spec (Z.of_nat nbits - Z.of_nat r) 0) as [He|He]; [|lia].
  2: destruct (Z.eqb_spec (Z.of_nat nbits - Z.of_nat r) 0) as [He|He].
  1,2: exists v', 8%nat; split; [done|]; split; [lia|]; rewrite Hv', Hbits;
    replace (nbits - r)%nat with 0%nat by lia; by rewrite !app_nil_r.
  rewrite <- app_assoc. replace (Z.of_nat nbits - Z.of_nat r) with (Z.of_nat (nbits - r)) by lia.
  destruct (IH (v' ++ [x00]) (bits ++ zbits r (uint8 (Z.shiftr code (Z.of_nat nbits - Z.of_nat r))))
    8%nat (nbits - r)%nat) as (v2 & r2 & Happ & Hr2 & Hv2); try lia.
  - by rewrite bytes_bits_app, Hv'.
  - exists v2, r2. split; [exact Happ|]. split; [done|]. by rewrite Hv2, Hbits, <- !app_assoc.
Qed.

Lemma index_code_len c : index (E:=E) huffmanCodeLen (Z_of_byte c) = Ok (code_len c).
Proof.
  unfold index, code_len. pose proof (Z_of_byte_range c). zcases; [lia|].
  destruct (lookup_lt_is_Some_2 huffmanCodeLen (Z.to_nat (Z_of_byte c))) as [l Hl].
  - change (length huffmanCodeLen) with 256%nat. lia.
  - by rewrite Hl.
Qed.

Lemma index_code_word c : index (E:=E) huffmanCodes (Z_of_byte c) = Ok (code_word c).
Proof.
  unfold index, code_word. pose proof (Z_of_byte_range c). zcases; [lia|].
  destruct (lookup_lt_is_Some_2 huffmanCodes (Z.to_nat (Z_of_byte c))) as [l Hl].
  - change (length huffmanCodes) with 256%nat. lia.
  - by rewrite Hl.
Qed.

Lemma append_string_ok d s v bits r :
  bytes_bits v = bits ++ free (Z.of_nat r) -> (1 <= r <= 8)%nat ->
  exists v' r', append_string (E:=E) (d ++ v) (Z.of_nat r) s = Ok (d ++ v', Z.of_nat r') /\
    (1 <= r' <= 8)%nat /\ bytes_bits v' = bits ++ codes s ++ free (Z.of_nat r').
Proof.
  revert v bits r. induction s as [|c s IH]; intros v bits r Hv Hr; [by exists v, r|].
  cbn [append_string]. set (dst := if _ =? 8 then _ else _).
  assert (exists v1, dst = d ++ v1 /\ bytes_bits v1 = bits ++ replicate r false) as (v1 & -> & Hv1).
  { unfold dst. destruct (Z.eqb_spec (Z.of_nat r) 8).
    - exists (v ++ [x00]). rewrite app_assoc. split; [done|]. replace r with 8%nat in * by lia.
      by rewrite bytes_bits_app, Hv, app_nil_r.
    - exists v. split; [done|]. by rewrite Hv, free_small by lia. }
  unfold appendByteToHuffmanCode. rewrite index_code_word, index_code_len. cbn [mbind res_bind].
  pose proof (code_len_range c). pose proof (code_word_range c).
  assert (2 ^ code_len c <= 2 ^ 32) by (apply Z.pow_le_mono_r; lia).
  replace (code_len c) with (Z.of_nat (Z.to_nat (code_len c))) by lia.
  destruct (append_code_ok 4 d v1 bits r (code_word c) (Z.to_nat (code_len c)))
    as (v2 & r2 & -> & Hr2 & Hv2); [done|done|lia| |lia|lia|].
  { right. rewrite Z2Nat.id by lia. lia. }
  cbn [mbind res_bind]. destruct (IH v2 (bits ++ code_bits c) r2) as (v3 & r3 & H3 & ? & Hv3); [|done|].
  { by rewrite Hv2, <- app_assoc. }
  exists v3, r3. split; [done|]. split; [done|]. by rewrite Hv3, codes_cons, <- !app_assoc.
Qed.

(** The encoding of [s] is the bits of its code words, padded with ones. *)
Lemma AppendHuffmanString_bits d s :
  exists v, AppendHuffmanString (E:=E) d s = Ok (d ++ v) /\ encodes (bytes_bits v) s.
Proof.
  unfold AppendHuffmanString.
  destruct (append_string_ok d s [] [] 8) as (v & r & Happ & Hr & Hv); [done|lia|].
  rewrite app_nil_r in Happ. change 8 with (Z.of_nat 8). rewrite Happ. cbn [mbind res_bind].
  simpl app in Hv. destruct (Z.ltb_spec (Z.of_nat r) (Z.of_nat 8)).
  - rewrite free_small in Hv by lia.
    assert (uint8 (Z.shiftr 0x3fffffff (30 - Z.of_nat r)) = Z.ones (Z.of_nat r)) as ->.
    { do 8 (destruct r as [|r]; [try lia; reflexivity|]). lia. }
    destruct (or_last_ok d v (codes s) r (Z.ones (Z.of_nat r)) Hv ltac:(lia)) as (v' & -> & Hv').
    { rewrite Z.ones_equiv. pose proof (Z.pow_pos_nonneg 2 (Z.of_nat r)). lia. }
    exists v'. split; [done|]. exists r. split; [lia|]. by rewrite Hv', zbits_all_ones by lia.
  - exists v. split; [done|]. exists 0%nat. split; [lia|]. replace r with 8%nat in Hv by lia. done.
Qed.
End encode.

(** ** The theorems *)

(** A string has one encoding. *)
Lemma encodes_bytes_unique v v' s : encodes (bytes_bits v) s -> encodes (bytes_bits v') s -> v = v'.
Proof.
  intros (k0 & Hk0 & H0) (k & Hk & Hb). apply bytes_bits_inj.
  assert (length (bytes_bits v) = (8 * length v)%nat /\ length (bytes_bits v') = (8 * length v')%nat)
    as [L0 L] by (split; apply length_bytes_bits).
  rewrite H0, length_app, length_replicate in L0. rewrite Hb, length_app, length_replicate in L.
  rewrite H0, Hb. do 2 f_equal. lia.
Qed.

Lemma encoding_bits {E} v s :
  AppendHuffmanString (E:=E) [] s = Ok v <-> encodes (bytes_bits v) s.
Proof.
  destruct (AppendHuffmanString_bits (E:=E) [] s) as (v0 & -> & H0). simpl.
  split; [by intros [= <-]|]. intros H. f_equal. by eapply encodes_bytes_unique.
Qed.

Lemma huffmanDecode_encoding maxLen v s :
  encodes (bytes_bits v) s -> maxLen = 0 \/ slen s <= maxLen -> huffmanDecode maxLen v = Ok s.
Proof.
  intros Hv Hl. pose proof (slen_nonneg s) as Hn.
  pose proof (huffmanDecode_bits maxLen v ltac:(lia)) as H.
  destruct (huffmanDecode maxLen v) as [s'|[]| |]; try done.
  - destruct H as [H _]. by rewrite (encodes_unique _ _ _ H Hv).
  - destruct H as [? H]. apply H in Hv. lia.
  - by destruct (H s).
Qed.

Lemma HuffmanEncodeLength_bits {E} v s :
  slen s < 2 ^ 59 -> encodes (bytes_bits v) s -> HuffmanEncodeLength (E:=E) s = Ok (slen v).
Proof.
  intros Hs (k & Hk & Hbits).
  assert (Z.of_nat (length (codes s)) <= 30 * slen s) as Hlen.
  { clear. induction s as [|c s IH]; [done|]. rewrite codes_cons, length_app, slen_cons.
    unfold code_bits. rewrite length_zbits. pose proof (code_len_range c). lia. }
  assert (forall n s, 0 <= n -> n + Z.of_nat (length (codes s)) < 2 ^ 64 ->
    sum_lengths (E:=E) n s = Ok (n + Z.of_nat (length (codes s)))) as Hsum.
  { clear. intros n s. revert n. induction s as [|c s IH]; intros n Hn Hb; cbn [sum_lengths].
    { f_equal. simpl. lia. }
    rewrite index_code_len. cbn [mbind res_bind]. pose proof (code_len_range c).
    rewrite codes_cons, length_app in Hb |- *. unfold code_bits in *. rewrite length_zbits in *.
    rewrite uint64_small, IH by lia. f_equal. lia. }
  unfold HuffmanEncodeLength. rewrite Hsum by lia. cbn [mbind res_bind]. f_equal.
  apply (f_equal length) in Hbits. rewrite length_bytes_bits, length_app, length_replicate in Hbits.
  rewrite uint64_small by lia. unfold slen.
  symmetry. apply (Z.div_unique _ _ _ (7 - Z.of_nat k)); lia.
Qed.

(** C30: Decoding inverts encoding, and every input that decodes is the encoding of the
    result: the decoder accepts no other spelling of a string (overlong or
    wrong padding, the EOS symbol).  Everything else is ErrInvalidHuffman;
    decoding never panics or runs on. *)
Theorem HuffmanDecodeToString_correct v s :
  (HuffmanDecodeToString v = Ok s <-> AppendHuffmanString (E:=hpack_error) [] s = Ok v) /\
  (HuffmanDecodeToString v = Err ErrInvalidHuffman \/
   exists s', HuffmanDecodeToString v = Ok s').
Proof.
  rewrite encoding_bits. unfold HuffmanDecodeToString.
  pose proof (huffmanDecode_bits 0 v ltac:(lia)) as H.
  destruct (huffmanDecode 0 v) as [s'|[]| |]; try done.
  - destruct H as [H _]. split; [|right; by exists s']. split.
    + by intros [= <-].
    + intros Hs. by rewrite (encodes_unique _ _ _ H Hs).
  - by destruct H.
  - split; [|by left]. split; [done|]. intros Hs. by destruct (H s).
Qed.

(** With a limit on the length, the decoder gives back exactly the encoded strings
    within the limit; a longer one is ErrStringLength, and what encodes no string
    is an error. *)
Theorem huffmanDecode_limit maxLen v s :
  0 < maxLen ->
  (huffmanDecode maxLen v = Ok s <->
     AppendHuffmanString (E:=hpack_error) [] s = Ok v /\ slen s <= maxLen) /\
  (AppendHuffmanString (E:=hpack_error) [] s = Ok v -> maxLen < slen s ->
     huffmanDecode maxLen v = Err ErrStringLength) /\
  ((forall s', AppendHuffmanString (E:=hpack_error) [] s' <> Ok v) ->
     huffmanDecode maxLen v = Err ErrInvalidHuffman \/ huffmanDecode maxLen v = Err ErrStringLength).
Proof.
  intros Hm. rewrite encoding_bits. pose proof (huffmanDecode_bits maxLen v ltac:(lia)) as H.
  destruct (huffmanDecode maxLen v) as [s'|[]| |]; try done.
  - destruct H as [H Hl]. split; [|split].
    + split; [intros [= <-]; split; [done|lia]|]. intros [Hs _]. by rewrite (encodes_unique _ _ _ H Hs).
    + intros Hs. rewrite (encodes_unique _ _ _ Hs H). lia.
    + intros Hno. by destruct (Hno s'); apply encoding_bits.
  - destruct H as [_ H]. split; [|split; [done|by right]]. split; [done|].
    intros [Hs ?]. apply H in Hs. lia.
  - split; [|split; [|by left]].
    + split; [done|]. intros [Hs _]. by destruct (H s).
    + intros Hs. by destruct (H s).
Qed.

(** [HuffmanEncodeLength] is the length of what [AppendHuffmanString] appends
    (for strings short enough that the sum of the code lengths cannot wrap). *)
Theorem HuffmanEncodeLength_correct d s :
  slen s < 2 ^ 59 ->
  exists v, AppendHuffmanString (E:=hpack_error) d s = Ok (d ++ v) /\
    HuffmanEncodeLength (E:=hpack_error) s = Ok (slen v).
Proof.
  intros Hs. destruct (AppendHuffmanString_bits (E:=hpack_error) d s) as (v & Hv & Hbits).
  exists v. split; [done|]. by apply HuffmanEncodeLength_bits.
Qed.

Lemma huffmanDecode_limit_witness :
  0 < 3 /\
  (huffmanDecode 3 [x1d; xc8; xff] = Ok (bytes_of "a:b") <->
     AppendHuffmanString (E:=hpack_error) [] (bytes_of "a:b") = Ok [x1d; xc8; xff] /\
     slen (bytes_of "a:b") <= 3) /\
  (AppendHuffmanString (E:=hpack_error) [] (bytes_of "a:b") = Ok [x1d; xc8; xff] ->
     3 < slen (bytes_of "a:b") -> huffmanDecode 3 [x1d; xc8; xff] = Err ErrStringLength) /\
  ((forall s', AppendHuffmanString (E:=hpack_error) [] s' <> Ok [x1d; xc8; xff]) ->
     huffmanDecode 3 [x1d; xc8; xff] = Err ErrInvalidHuffman \/
     huffmanDecode 3 [x1d; xc8; xff] = Err ErrStringLength).
Proof. split; [lia|]. apply huffmanDecode_limit. lia. Defined.

Lemma HuffmanEncodeLength_correct_witness :
  slen (bytes_of "www.example.com") < 2 ^ 59 /\
  exists v, AppendHuffmanString (E:=hpack_error) [x0c] (bytes_of "www.example.com") = Ok ([x0c] ++ v) /\
    HuffmanEncodeLength (E:=hpack_error) (bytes_of "www.example.com") = Ok (slen v).
Proof. split; [done|]. by apply (HuffmanEncodeLength_correct [x0c]). Defined.

(** The example of RFC 7541, C.4.1; overlong padding; and the EOS symbol. *)
Example rfc_example :
  AppendHuffmanString (E:=hpack_error) [] (bytes_of "www.example.com") =
  Ok [xf1; xe3; xc2; xe5; xf2; x3a; x6b; xa0; xab; x90; xf4; xff].
Proof. vm_compute. reflexivity. Qed.

Example overlong_padding : huffmanDecode 0 [x1f; xff] = Err ErrInvalidHuffman.
Proof. vm_compute. reflexivity. Qed.

Example eos_symbol : huffmanDecode 0 [xff; xff; xff; xff] = Err ErrInvalidHuffman.
Proof. vm_compute. reflexivity. Qed.
