(* ===== verification/HpackEncoder.v ===== *)
(** * HPACK: integers, strings and the encoder

    The variable-length integers of encode.go and hpack.go, the string literals, and
    the [Encoder], which writes the header fields of an HTTP/2 connection and
    keeps a table of those it has written. *)

From stdpp Require Import base list strings gmap.
From Stdlib Require Import ZArith Strings.Byte Lia.
From S2P Require Import Prelude.
From S2P Require Import Hpack.
From S2P Require Import HpackTable.
From S2P Require Import HpackHuffman.
Open Scope Z_scope.

(** ** Integers *)

(** [for ; i >= 128; i >>= 7 { ... }] and the last byte.  A [uint64] takes at most ten
    bytes. *)
Fixpoint append_groups {E} (fuel : nat) (dst : list byte) (i : Z) : res E (list byte) :=
  if 128 <=? i then
    match fuel with
    | O => Diverge
    | S fuel => append_groups fuel (dst ++ [byte_of_Z (Z.lor 0x80 (Z.land i 0x7f))]) (Z.shiftr i 7)
    end
  else Ok (dst ++ [byte_of_Z i]).

Definition appendVarInt {E} (dst : list byte) (n i : Z) : res E (list byte) :=
  let k := uint64 (uint64 (Z.shiftl 1 n) - 1) in
  if i <? k then Ok (dst ++ [byte_of_Z i]) else
  let dst := dst ++ [byte_of_Z k] in
  append_groups 10 dst (uint64 (i - k)).

(** The loop of [readVarInt]. *)
Fixpoint read_groups (p : list byte) (i m : Z) : res hpack_error (Z * list byte) :=
  match p with
  | [] => Err errNeedMore
  | b :: p =>
      let i := uint64 (i + uint64 (Z.shiftl (Z.land (Z_of_byte b) 127) m)) in
      if Z.land (Z_of_byte b) 128 =? 0 then Ok (i, p) else
      let m := uint64 (m + 7) in
      if 63 <=? m then Err errVarintOverflow else
      read_groups p i m
  end.

Definition readVarInt (n : Z) (p : list byte) : res hpack_error (Z * list byte) :=
  if (n <? 1) || (8 <? n) then Panic else
  match p with
  | [] => Err errNeedMore
  | b :: p =>
      let i := Z_of_byte b in
      let i := if n <? 8 then Z.land i (uint64 (Z.shiftl 1 n) - 1) else i in
      if i <? uint64 (Z.shiftl 1 n) - 1 then Ok (i, p) else
      read_groups p i 0
  end.

(** ** Representations *)

Definition encodeTypeByte (indexing sensitive : bool) : Z :=
  if sensitive then 0x10 else
  if indexing then 0x40 else 0.

Definition appendHpackString {E} (dst s : list byte) : res E (list byte) :=
  huffmanLength ← HuffmanEncodeLength s;
  if huffmanLength <? slen s then
    let first := slen dst in
    dst ← appendVarInt dst 7 huffmanLength;
    dst ← AppendHuffmanString dst s;
    or_at dst first 0x80
  else
    dst ← appendVarInt dst 7 (slen s);
    Ok (dst ++ s).

Definition appendIndexed {E} (dst : list byte) (i : Z) : res E (list byte) :=
  let first := slen dst in
  dst ← appendVarInt dst 7 i;
  or_at dst first 0x80.

Definition appendNewName {E} (dst : list byte) (f : HeaderField) (indexing : bool)
  : res E (list byte) :=
  let dst := dst ++ [byte_of_Z (encodeTypeByte indexing (Sensitive f))] in
  dst ← appendHpackString dst (Name f);
  appendHpackString dst (Value f).

Definition appendIndexedName {E} (dst : list byte) (f : HeaderField) (i : Z) (indexing : bool)
  : res E (list byte) :=
  let first := slen dst in
  let n := if indexing then 6 else 4 in
  dst ← appendVarInt dst n i;
  dst ← or_at dst first (encodeTypeByte indexing (Sensitive f));
  appendHpackString dst (Value f).

Definition appendTableSize {E} (dst : list byte) (v : Z) : res E (list byte) :=
  let first := slen dst in
  dst ← appendVarInt dst 5 v;
  or_at dst first 0x20.

(** ** The encoder *)

Definition uint32Max : Z := uint32 (Z.lnot 0).
Definition initialHeaderTableSize : Z := 4096.

(** The writer [w] is an argument of [WriteField]. *)
Record Encoder : Type := mkEncoder {
  dynTab : dynamicTable;
  minSize : Z;
  maxSizeLimit : Z;
  tableSizeUpdate : bool;
  buf : list byte;
}.

Definition NewEncoder {E} : res E Encoder :=
  dynTab ← setMaxSize (mkDynamicTable init_table 0 0 0) initialHeaderTableSize;
  Ok (mkEncoder dynTab uint32Max initialHeaderTableSize false []).

Definition searchTable {E} (e : Encoder) (f : HeaderField) : res E (Z * bool) :=
  '(i, nameValueMatch) ← search true staticTable f;
  if (nameValueMatch : bool) then Ok (i, true) else
  '(j, nameValueMatch) ← search false (table (dynTab e)) f;
  if (nameValueMatch : bool) || (i =? 0) && negb (j =? 0)
  then Ok (uint64 (j + table_len staticTable), nameValueMatch)
  else Ok (i, false).

Definition shouldIndex (e : Encoder) (f : HeaderField) : bool :=
  negb (Sensitive f) && (Size f <=? maxSize (dynTab e)).

(** The beginning of [WriteField]: the table size updates that are due. *)
Definition write_updates {E} (e : Encoder) : res E Encoder :=
  if tableSizeUpdate e then
    buf ← (if minSize e <? maxSize (dynTab e) then appendTableSize [] (minSize e) else Ok []);
    buf ← appendTableSize buf (maxSize (dynTab e));
    Ok (mkEncoder (dynTab e) uint32Max (maxSizeLimit e) false buf)
  else Ok (mkEncoder (dynTab e) (minSize e) (maxSizeLimit e) false []).

(** ... and the field. *)
Definition write_repr {E} (e : Encoder) (f : HeaderField) : res E Encoder :=
  '(idx, nameValueMatch) ← searchTable e f;
  if (nameValueMatch : bool) then
    buf ← appendIndexed (buf e) idx;
    Ok (mkEncoder (dynTab e) (minSize e) (maxSizeLimit e) (tableSizeUpdate e) buf)
  else
    let indexing := shouldIndex e f in
    dynTab ← (if indexing then add (dynTab e) f else Ok (dynTab e));
    buf ← (if idx =? 0 then appendNewName (buf e) f indexing
           else appendIndexedName (buf e) f idx indexing);
    Ok (mkEncoder dynTab (minSize e) (maxSizeLimit e) (tableSizeUpdate e) buf).

(** The bytes that [WriteField] gives to the writer are the [buf] of the encoder after. *)
Definition encode_field {E} (e : Encoder) (f : HeaderField) : res E Encoder :=
  e ← write_updates e;
  write_repr e f.

(** An error of the writer, or io.ErrShortWrite. *)
Inductive write_error (WE : Type) : Type :=
| WriteErr (e : WE)
| ErrShortWrite.
Arguments WriteErr {WE} e.
Arguments ErrShortWrite {WE}.

Definition WriteField {E WE} (w_Write : list byte -> Z * option WE) (e : Encoder) (f : HeaderField)
  : res E (option (write_error WE) * Encoder) :=
  e ← encode_field e f;
  let '(n, err) := w_Write (buf e) in
  Ok (match err with
      | Some err => Some (WriteErr err)
      | None => if negb (n =? slen (buf e)) then Some ErrShortWrite else None
      end, e).

Definition SetMaxDynamicTableSize {E} (e : Encoder) (v : Z) : res E Encoder :=
  let v := if maxSizeLimit e <? v then maxSizeLimit e else v in
  let minSize := if v <? minSize e then v else minSize e in
  dynTab ← setMaxSize (dynTab e) v;
  Ok (mkEncoder dynTab minSize (maxSizeLimit e) true (buf e)).

Definition SetMaxDynamicTableSizeLimit {E} (e : Encoder) (v : Z) : res E Encoder :=
  if v <? maxSize (dynTab e) then
    dynTab ← setMaxSize (dynTab e) v;
    Ok (mkEncoder dynTab (minSize e) v true (buf e))
  else Ok (mkEncoder (dynTab e) (minSize e) v (tableSizeUpdate e) (buf e)).
