(* ===== verification/HpackDecoder.v ===== *)
(** * HPACK: the decoder

    The [Decoder] of hpack.go: it reads header blocks, in pieces if they arrive in
    pieces, and keeps the table that the encoder on the other side of the
    connection keeps.

    The callback [emit] is a parameter: a function on a state of the caller and on
    [emitEnabled], which the callback of http2's readMetaFrame clears through
    [SetEmitEnabled].  The slice [buf] and the buffer [saveBuf] may share memory;
    [saveBuf] is emptied before [buf] is parsed, and written again only from
    [buf], so no byte is overwritten before it is read. *)

From stdpp Require Import base list strings gmap.
From Stdlib Require Import ZArith Strings.Byte Lia.
From S2P Require Import Prelude.
From S2P Require Import Hpack.
From S2P Require Import HpackTable.
From S2P Require Import HpackHuffman.
From S2P Require Import HpackEncoder.
Open Scope Z_scope.

Inductive indexType : Type := indexedTrue | indexedFalse | indexedNever.

Definition indexed (v : indexType) : bool :=
  match v with indexedTrue => true | _ => false end.
Definition sensitive (v : indexType) : bool :=
  match v with indexedNever => true | _ => false end.

Record Decoder (St : Type) : Type := mkDecoder {
  dynTab : dynamicTable;
  emit : HeaderField -> bool * St -> bool * St;
  env : St;
  emitEnabled : bool;
  maxStrLen : Z;
  buf : list byte;
  saveBuf : list byte;
}.
Arguments mkDecoder {St} dynTab emit env emitEnabled maxStrLen buf saveBuf.
Arguments dynTab {St}.
Arguments emit {St}.
Arguments env {St}.
Arguments emitEnabled {St}.
Arguments maxStrLen {St}.
Arguments buf {St}.
Arguments saveBuf {St}.

Section decoder.
Context {St : Type}.

Definition NewDecoder {E} (maxDynamicTableSize : Z) (emitFunc : HeaderField -> bool * St -> bool * St)
    (env : St) : res E (Decoder St) :=
  dynTab ← setMaxSize (mkDynamicTable init_table 0 0 maxDynamicTableSize) maxDynamicTableSize;
  Ok (mkDecoder dynTab emitFunc env true 0 [] []).

Definition SetMaxStringLength (d : Decoder St) (n : Z) : Decoder St :=
  mkDecoder (dynTab d) (emit d) (env d) (emitEnabled d) n (buf d) (saveBuf d).
Definition SetEmitFunc (d : Decoder St) (emitFunc : HeaderField -> bool * St -> bool * St) : Decoder St :=
  mkDecoder (dynTab d) emitFunc (env d) (emitEnabled d) (maxStrLen d) (buf d) (saveBuf d).
Definition SetEmitEnabled (d : Decoder St) (v : bool) : Decoder St :=
  mkDecoder (dynTab d) (emit d) (env d) v (maxStrLen d) (buf d) (saveBuf d).
Definition EmitEnabled (d : Decoder St) : bool := emitEnabled d.

Definition with_dynTab (d : Decoder St) (dt : dynamicTable) : Decoder St :=
  mkDecoder dt (emit d) (env d) (emitEnabled d) (maxStrLen d) (buf d) (saveBuf d).
Definition with_buf (d : Decoder St) (b : list byte) : Decoder St :=
  mkDecoder (dynTab d) (emit d) (env d) (emitEnabled d) (maxStrLen d) b (saveBuf d).
Definition with_saveBuf (d : Decoder St) (b : list byte) : Decoder St :=
  mkDecoder (dynTab d) (emit d) (env d) (emitEnabled d) (maxStrLen d) (buf d) b.

Definition SetMaxDynamicTableSize {E} (d : Decoder St) (v : Z) : res E (Decoder St) :=
  dt ← setMaxSize (dynTab d) v;
  Ok (with_dynTab d dt).
Definition SetAllowedMaxDynamicTableSize (d : Decoder St) (v : Z) : Decoder St :=
  with_dynTab d (mkDynamicTable (table (dynTab d)) (size (dynTab d)) (maxSize (dynTab d)) v).

Definition maxTableIndex (d : Decoder St) : Z := table_len (table (dynTab d)) + table_len staticTable.

(** [at]: [None] is [ok == false]. *)
Definition at_ {E} (d : Decoder St) (i : Z) : res E (option HeaderField) :=
  if i =? 0 then Ok None else
  if i <=? uint64 (table_len staticTable) then
    f ← index (ents staticTable) (uint64 (i - 1)); Ok (Some f)
  else if uint64 (maxTableIndex d) <? i then Ok None
  else
    let dt := table (dynTab d) in
    f ← index (ents dt) (table_len dt - (int64 i - table_len staticTable)); Ok (Some f).

(** ** Parsing one representation

    A parsing function returns an error and the decoder after: the decoder may have
    changed even then.  [check r d k] is [x, err := r; if err != nil { return err }]
    followed by [k x]. *)
Definition outcome : Type := res Empty_set (option hpack_error * Decoder St).

Definition check {A} (r : res hpack_error A) (d : Decoder St) (k : A -> outcome) : outcome :=
  match r with
  | Ok a => k a
  | Err e => Ok (Some e, d)
  | Panic => Panic
  | Diverge => Diverge
  end.

Definition callEmit (d : Decoder St) (hf : HeaderField) : option hpack_error * Decoder St :=
  if negb (maxStrLen d =? 0) && ((maxStrLen d <? slen (Name hf)) || (maxStrLen d <? slen (Value hf)))
  then (Some ErrStringLength, d)
  else if emitEnabled d then
    let '(enabled, env) := emit d hf (emitEnabled d, env d) in
    (None, mkDecoder (dynTab d) (emit d) env enabled (maxStrLen d) (buf d) (saveBuf d))
  else (None, d).

Definition readString (d : Decoder St) (p : list byte) (wantStr : bool)
  : res hpack_error (list byte * list byte) :=
  match p with
  | [] => Err errNeedMore
  | b :: _ =>
      let isHuff := negb (Z.land (Z_of_byte b) 128 =? 0) in
      '(strLen, p) ← readVarInt 7 p;
      if negb (maxStrLen d =? 0) && (uint64 (maxStrLen d) <? strLen) then Err ErrStringLength else
      if slen p <? strLen then Err errNeedMore else
      if negb isHuff then
        s ← (if wantStr then slice p 0 strLen else Ok []);
        remain ← slice_from p strLen;
        Ok (s, remain)
      else
        s ← (if wantStr then
               v ← slice p 0 strLen;
               huffmanDecode (maxStrLen d) v
             else Ok []);
        remain ← slice_from p strLen;
        Ok (s, remain)
  end.

Definition parseFieldIndexed (d : Decoder St) : outcome :=
  check (readVarInt 7 (buf d)) d (fun '(idx, buf) =>
  check (at_ d idx) d (fun hf =>
  match hf with
  | None => Ok (Some (DecodingError (InvalidIndexError idx)), d)
  | Some hf =>
      let d := with_buf d buf in
      Ok (callEmit d (mkHeaderField (Name hf) (Value hf) false))
  end)).

(** After the name has been found or read: the value, the table, the callback. *)
Definition parse_value (d : Decoder St) (it : indexType) (wantStr : bool)
    (name buf : list byte) : outcome :=
  check (readString d buf wantStr) d (fun '(value, buf) =>
  let d := with_buf d buf in
  let hf := mkHeaderField name value false in
  check (if indexed it then add (dynTab d) hf else Ok (dynTab d)) d (fun dt =>
  let d := with_dynTab d dt in
  Ok (callEmit d (mkHeaderField name value (sensitive it))))).

Definition parseFieldLiteral (d : Decoder St) (n : Z) (it : indexType) : outcome :=
  check (readVarInt n (buf d)) d (fun '(nameIdx, buf) =>
  let wantStr := emitEnabled d || indexed it in
  if 0 <? nameIdx then
    check (at_ d nameIdx) d (fun ihf =>
    match ihf with
    | None => Ok (Some (DecodingError (InvalidIndexError nameIdx)), d)
    | Some ihf => parse_value d it wantStr (Name ihf) buf
    end)
  else
    check (readString d buf wantStr) d (fun '(name, buf) =>
    parse_value d it wantStr name buf)).

Definition parseDynamicTableSizeUpdate (d : Decoder St) : outcome :=
  check (readVarInt 5 (buf d)) d (fun '(size, buf) =>
  if allowedMaxSize (dynTab d) <? size
  then Ok (Some (DecodingError (errors_New "dynamic table size update too large")), d) else
  check (setMaxSize (dynTab d) (uint32 size)) d (fun dt =>
  Ok (None, with_buf (with_dynTab d dt) buf))).

Definition parseHeaderFieldRepr (d : Decoder St) : outcome :=
  check (index (buf d) 0) d (fun b =>
  let b := Z_of_byte b in
  if negb (Z.land b 128 =? 0) then parseFieldIndexed d
  else if Z.land b 192 =? 64 then parseFieldLiteral d 6 indexedTrue
  else if Z.land b 240 =? 0 then parseFieldLiteral d 4 indexedFalse
  else if Z.land b 240 =? 16 then parseFieldLiteral d 4 indexedNever
  else if Z.land b 224 =? 32 then parseDynamicTableSizeUpdate d
  else Ok (Some (DecodingError (errors_New "invalid encoding")), d)).

(** ** Blocks *)

(** [for len(d.buf) > 0 { ... }], up to its first error.  Every representation takes
    at least one byte. *)
Fixpoint parse_loop (fuel : nat) (d : Decoder St) : outcome :=
  if slen (buf d) =? 0 then Ok (None, d) else
  match fuel with
  | O => Diverge
  | S fuel =>
      '(err, d) ← parseHeaderFieldRepr d;
      match err with
      | None => parse_loop fuel d
      | Some err => Ok (Some err, d)
      end
  end.

Definition varIntOverhead : Z := 8.

(** The result is [n], [err] and the decoder after. *)
Definition Write (d : Decoder St) (p : list byte)
  : res Empty_set (Z * option hpack_error * Decoder St) :=
  if slen p =? 0 then Ok (0, None, d) else
  let d :=
    if slen (saveBuf d) =? 0 then with_buf d p
    else with_saveBuf (with_buf d (saveBuf d ++ p)) [] in
  '(err, d) ← parse_loop (length (buf d)) d;
  match err with
  | Some errNeedMore =>
      if negb (maxStrLen d =? 0) &&
         (int64 (2 * int64 (maxStrLen d + varIntOverhead)) <? slen (buf d))
      then Ok (0, Some ErrStringLength, d)
      else Ok (slen p, None, with_saveBuf d (saveBuf d ++ buf d))
  | err => Ok (slen p, err, d)
  end.

Definition Close (d : Decoder St) : option hpack_error * Decoder St :=
  if 0 <? slen (saveBuf d)
  then (Some (DecodingError (errors_New "truncated headers")), with_saveBuf d [])
  else (None, d).
End decoder.
Arguments outcome : clear implicits.

(** [d] with another callback on another state. *)
Definition with_emit {St St'} (d : Decoder St) (emit : HeaderField -> bool * St' -> bool * St') (env : St')
  : Decoder St' :=
  mkDecoder (dynTab d) emit env (emitEnabled d) (maxStrLen d) (buf d) (saveBuf d).

(** [func(f HeaderField) { hf = append(hf, f) }] *)
Definition collect (f : HeaderField) (st : bool * list HeaderField) : bool * list HeaderField :=
  (st.1, st.2 ++ [f]).

(** [DecodeFull]: the list of fields (nil with an error), the error, and the decoder
    with its callback restored. *)
Definition DecodeFull {St} (d : Decoder St) (p : list byte)
  : res Empty_set (list HeaderField * option hpack_error * Decoder St) :=
  let restore (d' : Decoder (list HeaderField)) := with_emit d' (emit d) (env d) in
  '(_, err, d') ← Write (with_emit d collect []) p;
  match err with
  | Some err => Ok ([], Some err, restore d')
  | None =>
      let '(err, d') := Close d' in
      match err with
      | Some err => Ok ([], Some err, restore d')
      | None => Ok (env d', None, restore d')
      end
  end.
