(* ===== verification/HpackIntProps.v ===== *)
(** * HPACK: integers and strings read back

    The reader inverts the writer for every integer whose excess over the prefix is
    below 2^63, and reports the overflow above; string literals are read back
    whether they were written in Huffman code or not. *)

From stdpp Require Import base list strings gmap.
From Stdlib Require Import ZArith Strings.Byte Lia.
From S2P Require Import Prelude.
From S2P Require Import Hpack.
From S2P Require Import HpackTable.
From S2P Require Import HpackHuffman.
From S2P Require Import HpackBits.
From S2P Require Import HpackHuffmanProps.
From S2P Require Import HpackEncoder.
From S2P Require Import HpackDecoder.
Open Scope Z_scope.

(** ** Integers *)

(** The bytes after the prefix. *)
Fixpoint groups (fuel : nat) (i : Z) : list byte :=
  if 128 <=? i then
    match fuel with
    | O => []
    | S fuel => byte_of_Z (Z.lor 0x80 (Z.land i 0x7f)) :: groups fuel (Z.shiftr i 7)
    end
  else [byte_of_Z i].

(** The largest value of an [n]-bit prefix. *)
Definition prefix_max (n : Z) : Z := 2 ^ n - 1.

(** The first byte, without the flags above the prefix, and the rest. *)
Definition varint_first (n i : Z) : Z := Z.min i (prefix_max n).
Definition varint_rest (n i : Z) : list byte :=
  if i <? prefix_max n then [] else groups 10 (i - prefix_max n).

Lemma append_groups_ok {E} fuel dst i :
  0 <= i < 2 ^ (7 * (Z.of_nat fuel + 1)) ->
  append_groups (E:=E) fuel dst i = Ok (dst ++ groups fuel i).
Proof.
  revert dst i. induction fuel as [|fuel IH]; intros dst i Hi; cbn [append_groups groups].
  - destruct (Z.leb_spec 128 i); [lia|done].
  - destruct (Z.leb_spec 128 i); [|done]. rewrite IH, <- app_assoc; [done|].
    rewrite shiftr_7. split; [apply Z.div_pos; lia|]. apply Z.div_lt_upper_bound; [lia|].
    change 128 with (2 ^ 7). rewrite <- Z.pow_add_r by lia.
    replace (7 + 7 * (Z.of_nat fuel + 1)) with (7 * (Z.of_nat (S fuel) + 1)) by lia. lia.
Qed.

Lemma prefix_max_uint64 n :
  1 <= n <= 8 -> uint64 (Z.shiftl 1 n) - 1 = prefix_max n /\ 1 <= prefix_max n <= 255.
Proof.
  intros Hn. unfold prefix_max. rewrite Z.shiftl_1_l.
  assert (2 ^ 1 <= 2 ^ n <= 2 ^ 8) by (split; apply Z.pow_le_mono_r; lia).
  rewrite uint64_small by lia. lia.
Qed.

Lemma appendVarInt_ok {E} dst n i :
  1 <= n <= 8 -> 0 <= i < 2 ^ 64 ->
  appendVarInt (E:=E) dst n i = Ok (dst ++ byte_of_Z (varint_first n i) :: varint_rest n i).
Proof.
  intros Hn Hi. unfold appendVarInt, varint_first, varint_rest.
  destruct (prefix_max_uint64 n Hn) as [-> ?]. rewrite (uint64_small (prefix_max n)) by lia.
  destruct (Z.ltb_spec i (prefix_max n)).
  - by rewrite Z.min_l by lia.
  - rewrite Z.min_r, uint64_small, append_groups_ok by (simpl; lia). by rewrite <- app_assoc.
Qed.

Lemma group_byte i :
  128 <= i ->
  let b := byte_of_Z (Z.lor 0x80 (Z.land i 0x7f)) in
  Z.land (Z_of_byte b) 127 = i mod 128 /\ Z.land (Z_of_byte b) 128 = 128.
Proof.
  intros Hi b. pose proof (Z.mod_pos_bound i 128 ltac:(lia)) as Hm.
  assert (Z_of_byte b = i mod 128 + 128) as ->.
  { unfold b. rewrite Z_of_byte_of_Z, land_127, Z.lor_comm.
    pose proof (lor_shiftl_add (i mod 128) 1 7 ltac:(lia) Hm) as H. change (Z.shiftl 1 7) with 128 in H.
    rewrite H. rewrite uint8_small by lia. lia. }
  rewrite land_127. split; [symmetry; apply (Z.mod_unique _ _ 1); lia|].
  set (x := i mod 128) in *. clearbody x.
  pose proof (lor_shiftl_add x 1 7 ltac:(lia) Hm) as H. change (Z.shiftl 1 7) with 128 in H.
  change (1 * 2 ^ 7) with 128 in H. rewrite <- H. apply Z.bits_inj'. intros j Hj.
  rewrite Z.land_spec, Z.lor_spec. change 128 with (2 ^ 7). rewrite Z.pow2_bits_eqb by lia.
  destruct (Z.eqb_spec 7 j); [by rewrite orb_true_r|by rewrite andb_false_r].
Qed.

Lemma last_byte i :
  0 <= i < 128 -> Z.land (Z_of_byte (byte_of_Z i)) 127 = i /\ Z.land (Z_of_byte (byte_of_Z i)) 128 = 0.
Proof.
  intros Hi. rewrite Z_of_byte_of_Z, uint8_small, land_127, Z.mod_small by lia. split; [done|].
  apply Z.bits_inj'. intros j Hj. rewrite Z.land_spec, Z.bits_0.
  change 128 with (2 ^ 7). rewrite Z.pow2_bits_eqb by lia. destruct (Z.eqb_spec 7 j) as [<-|]; [|apply andb_false_r].
  rewrite <- (Z.mod_small i (2 ^ 7)) by lia. by rewrite Z.mod_pow2_bits_high by lia.
Qed.

(** Reading the groups at shift [m]. *)
Lemma read_groups_ok fuel j i m rest :
  0 <= j < 2 ^ (7 * (Z.of_nat fuel + 1)) -> 0 <= m < 63 -> (exists q, m = 7 * q) ->
  0 <= i -> i < 2 ^ m + 255 -> j < 2 ^ 64 ->
  read_groups (groups fuel j ++ rest) i m =
  if j <? 2 ^ (63 - m) then Ok (i + j * 2 ^ m, rest) else Err errVarintOverflow.
Proof.
  revert j i m. induction fuel as [|fuel IH]; intros j i m Hj Hm [q ->] Hi0 Hi Hj64.
  all: pose proof (Z.pow_pos_nonneg 2 (7 * q) ltac:(lia) ltac:(lia)).
  all: assert (2 ^ 63 = 2 ^ (63 - 7 * q) * 2 ^ (7 * q)) as Hpow by (rewrite <- Z.pow_add_r by lia; f_equal; lia).
  all: assert (2 ^ 7 <= 2 ^ (63 - 7 * q)) by (apply Z.pow_le_mono_r; lia).
  all: assert (2 ^ (7 * q) <= 2 ^ 56) by (apply Z.pow_le_mono_r; lia).
  all: cbn [groups]; destruct (Z.leb_spec 128 j); [try (simpl in Hj; lia)|].
  1,3: destruct (last_byte j ltac:(lia)) as [Hb1 Hb2]; cbn [app read_groups]; rewrite Hb1, Hb2;
    cbn [Z.eqb]; rewrite Z.shiftl_mul_pow2 by lia;
    assert (0 <= j * 2 ^ (7 * q) <= 127 * 2 ^ (7 * q)) by nia;
    rewrite (uint64_small (j * _)) by lia; rewrite uint64_small by lia;
    destruct (Z.ltb_spec j (2 ^ (63 - 7 * q))); [done|lia].
  destruct (group_byte j ltac:(lia)) as [Hb1 Hb2]. cbn [app read_groups]. rewrite Hb1, Hb2. cbn [Z.eqb].
  pose proof (Z.mod_pos_bound j 128 ltac:(lia)). pose proof (Z.div_mod j 128 ltac:(lia)) as Hdm.
  rewrite Z.shiftl_mul_pow2 by lia.
  assert (0 <= (j mod 128) * 2 ^ (7 * q) <= 127 * 2 ^ (7 * q)) by nia.
  rewrite (uint64_small (j mod 128 * _)) by lia. rewrite (uint64_small (i + _)) by lia.
  rewrite (uint64_small (7 * q + 7)) by lia.
  destruct (Z.leb_spec 63 (7 * q + 7)).
  - assert (q = 8) as -> by lia. destruct (Z.ltb_spec j (2 ^ (63 - 7 * 8))); [lia|done].
  - assert (2 ^ (7 * q + 7) = 128 * 2 ^ (7 * q)) as Hp7 by (rewrite Z.pow_add_r by lia; lia).
    assert (2 ^ (63 - 7 * q) = 128 * 2 ^ (63 - (7 * q + 7))) as Hq7.
    { change 128 with (2 ^ 7). rewrite <- Z.pow_add_r by lia. f_equal. lia. }
    rewrite shiftr_7. rewrite IH; [|split; [apply Z.div_pos; lia|]|lia|exists (q + 1); lia|nia|nia|].
    + rewrite Hp7, Hq7. destruct (Z.ltb_spec (j / 128) (2 ^ (63 - (7 * q + 7)))),
        (Z.ltb_spec j (128 * 2 ^ (63 - (7 * q + 7)))); try lia; [|done].
      f_equal. f_equal. nia.
    + apply Z.div_lt_upper_bound; [lia|]. change 128 with (2 ^ 7). rewrite <- Z.pow_add_r by lia.
      replace (7 + 7 * (Z.of_nat fuel + 1)) with (7 * (Z.of_nat (S fuel) + 1)) by lia. lia.
    + apply Z.div_lt_upper_bound; lia.
Qed.

(** The first byte with flags [t] above the prefix. *)
Definition flagged (n i t : Z) : byte := byte_of_Z (Z.lor (varint_first n i) t).

Lemma varint_first_range n i : 1 <= n <= 8 -> 0 <= i -> 0 <= varint_first n i <= prefix_max n.
Proof. intros Hn Hi. destruct (prefix_max_uint64 n Hn). unfold varint_first. lia. Qed.

Lemma prefix_max_256 n : 1 <= n <= 8 -> prefix_max n < 2 ^ n <= 256.
Proof.
  intros. unfold prefix_max. change 256 with (2 ^ 8). split; [lia|apply Z.pow_le_mono_r; lia].
Qed.

Lemma flagged_value n i t :
  1 <= n <= 8 -> 0 <= i -> 0 <= t < 256 -> t mod 2 ^ n = 0 ->
  Z_of_byte (flagged n i t) = varint_first n i + t.
Proof.
  intros Hn Hi Ht Hmod. pose proof (varint_first_range n i Hn Hi). pose proof (prefix_max_256 n Hn).
  pose proof (Z.div_mod t (2 ^ n) ltac:(lia)) as Hdm. rewrite Hmod in Hdm.
  unfold flagged. rewrite Z_of_byte_of_Z.
  assert (Z.lor (varint_first n i) t = varint_first n i + t) as ->.
  { replace t with (Z.shiftl (t / 2 ^ n) n) at 1 by (rewrite Z.shiftl_mul_pow2; lia).
    rewrite lor_shiftl_add; lia. }
  apply uint8_small. assert (varint_first n i + t < 256); [|lia].
  assert (256 = 2 ^ (8 - n) * 2 ^ n) as H256 by (rewrite <- Z.pow_add_r by lia; replace (8 - n + n) with 8 by lia; done).
  assert (t / 2 ^ n < 2 ^ (8 - n)) by (apply Z.div_lt_upper_bound; [lia|rewrite Z.mul_comm, <- H256; lia]).
  assert (2 ^ n * (t / 2 ^ n) <= 2 ^ n * (2 ^ (8 - n) - 1)) by (apply Z.mul_le_mono_nonneg_l; lia). lia.
Qed.

Lemma readVarInt_ok n i t rest :
  1 <= n <= 8 -> 0 <= i < 2 ^ 64 -> 0 <= t < 256 -> t mod 2 ^ n = 0 ->
  readVarInt n (flagged n i t :: varint_rest n i ++ rest) =
  if i - prefix_max n <? 2 ^ 63 then Ok (i, rest) else Err errVarintOverflow.
Proof.
  intros Hn Hi Ht Hmod. pose proof (prefix_max_256 n Hn).
  pose proof (varint_first_range n i Hn ltac:(lia)).
  unfold readVarInt. destruct (Z.ltb_spec n 1), (Z.ltb_spec 8 n); try lia. cbn [orb].
  rewrite flagged_value by (done || lia). destruct (prefix_max_uint64 n Hn) as [-> ?].
  assert ((if n <? 8 then Z.land (varint_first n i + t) (prefix_max n) else varint_first n i + t)
    = varint_first n i) as ->.
  { destruct (Z.ltb_spec n 8).
    - unfold prefix_max. rewrite Z.sub_1_r, <- Z.ones_equiv, Z.land_ones by lia.
      rewrite Z.add_mod, Hmod, Z.add_0_r, !Z.mod_mod by lia. apply Z.mod_small. lia.
    - assert (n = 8) as -> by lia. change (2 ^ 8) with 256 in Hmod.
      rewrite Z.mod_small in Hmod by lia. lia. }
  unfold varint_first, varint_rest. destruct (Z.ltb_spec i (prefix_max n)).
  - rewrite Z.min_l by lia. destruct (Z.ltb_spec i (prefix_max n)); [|lia].
    destruct (Z.ltb_spec (i - prefix_max n) (2 ^ 63)); [done|lia].
  - rewrite Z.min_r by lia. destruct (Z.ltb_spec (prefix_max n) (prefix_max n)); [lia|].
    rewrite read_groups_ok; [|simpl; lia|lia|by exists 0|lia|lia|lia].
    change (63 - 0) with 63. destruct (Z.ltb_spec (i - prefix_max n) (2 ^ 63)); [|done].
    f_equal. f_equal. lia.
Qed.

Lemma or_at_ok {E} d b w t :
  or_at (E:=E) (d ++ b :: w) (slen d) t = Ok (d ++ byte_of_Z (Z.lor (Z_of_byte b) t) :: w).
Proof.
  unfold or_at. rewrite index_app. cbn [mbind res_bind]. unfold store.
  rewrite slen_app, slen_cons. pose proof (slen_nonneg d). pose proof (slen_nonneg w). zcases; try lia.
  cbn [andb]. f_equal. unfold slen. rewrite Nat2Z.id.
  rewrite <- (Nat.add_0_r (length d)), insert_app_r. done.
Qed.

Lemma or_at_first {E} d n i t w :
  1 <= n <= 8 -> 0 <= i ->
  or_at (E:=E) (d ++ byte_of_Z (varint_first n i) :: w) (slen d) t = Ok (d ++ flagged n i t :: w).
Proof.
  intros Hn Hi. rewrite or_at_ok, Z_of_byte_of_Z. unfold flagged.
  pose proof (varint_first_range n i Hn Hi). pose proof (prefix_max_256 n Hn).
  by rewrite uint8_small by lia.
Qed.

(** ** Strings *)

Lemma slice_take {E} (s rest : list byte) : slice (E:=E) (s ++ rest) 0 (slen s) = Ok s.
Proof. by apply (slice_app [] s rest). Qed.

Lemma slice_from_rest {E} (s rest : list byte) : slice_from (E:=E) (s ++ rest) (slen s) = Ok rest.
Proof.
  unfold slice_from, slice. rewrite slen_app. pose proof (slen_nonneg s). pose proof (slen_nonneg rest).
  zcases; try lia. cbn [andb]. f_equal. unfold slen. rewrite Nat2Z.id, drop_app_length.
  apply take_ge. lia.
Qed.

Lemma flag_bit i :
  0 <= i ->
  Z.land (Z_of_byte (flagged 7 i 128)) 128 = 128 /\ Z.land (Z_of_byte (byte_of_Z (varint_first 7 i))) 128 = 0.
Proof.
  intros Hi. pose proof (varint_first_range 7 i ltac:(lia) Hi) as Hr. change (prefix_max 7) with 127 in Hr.
  split; [|apply last_byte; lia].
  rewrite flagged_value by (done || lia). set (x := varint_first 7 i) in *. clearbody x.
  apply Z.bits_inj'. intros j Hj. rewrite Z.land_spec. change 128 with (2 ^ 7) at 2 3.
  rewrite Z.pow2_bits_eqb by lia. destruct (Z.eqb_spec 7 j) as [<-|]; [|apply andb_false_r].
  rewrite andb_true_r. pose proof (lor_shiftl_add x 1 7 ltac:(lia) ltac:(lia)) as H.
  change (1 * 2 ^ 7) with 128 in H. rewrite <- H, Z.lor_spec, Z.shiftl_spec by lia. apply orb_true_r.
Qed.

Section strings.
Context {St : Type} (d : Decoder St).

(** Strings within the decoder's limit. *)
Definition str_fits (s : list byte) : Prop :=
  slen s < 2 ^ 59 /\ (maxStrLen d = 0 \/ slen s <= maxStrLen d < 2 ^ 63).

Lemma str_fits_limit s l :
  str_fits s -> 0 <= l <= slen s -> negb (maxStrLen d =? 0) && (uint64 (maxStrLen d) <? l) = false.
Proof.
  intros [Hs Hm] Hl. destruct (Z.eqb_spec (maxStrLen d) 0); [done|]. simpl.
  rewrite uint64_small by lia. destruct (Z.ltb_spec (maxStrLen d) l); [lia|done].
Qed.

End strings.

Lemma appendHpackString_any {E} dst s :
  slen s < 2 ^ 59 ->
  exists w, appendHpackString (E:=E) dst s = Ok (dst ++ w) /\
    forall St (d : Decoder St) rest, str_fits d s -> readString d (w ++ rest) true = Ok (s, rest).
Proof.
  intros Hs. pose proof (slen_nonneg s).
  destruct (AppendHuffmanString_bits (E:=E) [] s) as (v & _ & Hv). pose proof (slen_nonneg v).
  unfold appendHpackString. rewrite (HuffmanEncodeLength_bits v) by done. cbn [mbind res_bind].
  destruct (Z.ltb_spec (slen v) (slen s)).
  - rewrite appendVarInt_ok by lia. cbn [mbind res_bind]. match goal with |- context [AppendHuffmanString ?d s] =>
      destruct (AppendHuffmanString_bits (E:=E) d s) as (v' & -> & Hv') end.
    rewrite (encodes_bytes_unique _ _ _ Hv' Hv). cbn [mbind res_bind]. rewrite <- app_assoc. cbn [app]. rewrite or_at_first by lia.
    exists (flagged 7 (slen v) 128 :: varint_rest 7 (slen v) ++ v). split; [done|].
    intros St d rest Hfits. cbn [app readString]. destruct (flag_bit (slen v)) as [-> _]; [lia|].
    rewrite <- app_assoc, readVarInt_ok by (done || lia).
    destruct (Z.ltb_spec (slen v - prefix_max 7) (2 ^ 63)); [|change (prefix_max 7) with 127 in *; lia].
    cbn [mbind res_bind]. rewrite (str_fits_limit d s) by (done || lia).
    destruct (Z.ltb_spec (slen (v ++ rest)) (slen v)); [rewrite slen_app in *; pose proof (slen_nonneg rest); lia|].
    cbn [Z.eqb negb mbind res_bind]. rewrite slice_take. cbn [mbind res_bind].
    rewrite (huffmanDecode_encoding _ _ s) by (done || destruct Hfits; lia).
    cbn [mbind res_bind]. by rewrite slice_from_rest.
  - rewrite appendVarInt_ok by lia. cbn [mbind res_bind]. rewrite <- app_assoc. cbn [app].
    exists (byte_of_Z (varint_first 7 (slen s)) :: varint_rest 7 (slen s) ++ s). split; [done|].
    intros St d rest Hfits. cbn [app readString]. destruct (flag_bit (slen s)) as [_ ->]; [lia|].
    assert (byte_of_Z (varint_first 7 (slen s)) = flagged 7 (slen s) 0) as ->
      by (unfold flagged; by rewrite Z.lor_0_r).
    rewrite <- app_assoc, readVarInt_ok by (done || lia).
    destruct (Z.ltb_spec (slen s - prefix_max 7) (2 ^ 63)); [|change (prefix_max 7) with 127 in *; lia].
    cbn [mbind res_bind]. rewrite (str_fits_limit d s) by (done || lia).
    destruct (Z.ltb_spec (slen (s ++ rest)) (slen s)); [rewrite slen_app in *; pose proof (slen_nonneg rest); lia|].
    cbn [Z.eqb negb mbind res_bind]. rewrite slice_take. cbn [mbind res_bind].
    by rewrite slice_from_rest.
Qed.

(** [readVarInt] inverts [appendVarInt], whatever flags the writer puts above the
    prefix of the first byte and whatever follows, for every integer below 2^63 + 2^n - 1;
    any greater [uint64] is written in full but refused as an overflow. *)
Theorem readVarInt_roundtrip n i t dst rest :
  1 <= n <= 8 -> 0 <= i < 2 ^ 64 -> 0 <= t < 256 -> t mod 2 ^ n = 0 ->
  exists b w, appendVarInt (E:=hpack_error) dst n i = Ok (dst ++ b :: w) /\
    readVarInt n (byte_of_Z (Z.lor (Z_of_byte b) t) :: w ++ rest) =
    if i <? 2 ^ 63 + (2 ^ n - 1) then Ok (i, rest) else Err errVarintOverflow.
Proof.
  intros Hn Hi Ht Hmod. exists (byte_of_Z (varint_first n i)), (varint_rest n i).
  split; [by apply appendVarInt_ok|].
  pose proof (varint_first_range n i Hn ltac:(lia)). pose proof (prefix_max_256 n Hn).
  rewrite Z_of_byte_of_Z, uint8_small by lia. fold (flagged n i t).
  rewrite readVarInt_ok by done. unfold prefix_max. zcases; done || lia.
Qed.

Lemma readVarInt_roundtrip_witness :
  1 <= 5 <= 8 /\
  exists b w, appendVarInt (E:=hpack_error) [] 5 (2 ^ 63 + 31) = Ok ([] ++ b :: w) /\
    readVarInt 5 (byte_of_Z (Z.lor (Z_of_byte b) 32) :: w ++ [x82]) =
    if (2 ^ 63 + 31) <? 2 ^ 63 + (2 ^ 5 - 1) then Ok (2 ^ 63 + 31, [x82]) else Err errVarintOverflow.
Proof. split; [lia|]. by apply (readVarInt_roundtrip 5 (2 ^ 63 + 31) 32 [] [x82]). Defined.

(** RFC 7541, C.1.2, and the greatest integer that is read back with a 5-bit prefix. *)
Example int_1337 : appendVarInt (E:=hpack_error) [] 5 1337 = Ok [x1f; x9a; x0a].
Proof. vm_compute. reflexivity. Qed.

Example int_greatest :
  (w ← appendVarInt [] 5 (2 ^ 63 + 30); readVarInt 5 w) = Ok (2 ^ 63 + 30, []).
Proof. vm_compute. reflexivity. Qed.
