(* ===== verification/HpackSync.v ===== *)
(** * HPACK: encoder and decoder stay in step

    The decoder, given what the encoder writes, calls back with the fields that
    were given to the encoder; their dynamic tables stay related.  They need not
    be equal: [SetMaxDynamicTableSizeLimit] shrinks the encoder's table without
    recording a [minSize], so the decoder may keep older entries that the encoder
    has dropped.  The relation is that the encoder's entries are the newest of
    the decoder's. *)

From stdpp Require Import base list strings gmap.
From Stdlib Require Import ZArith Strings.Byte Lia.
From S2P Require Import Prelude.
From S2P Require Import Hpack.
From S2P Require Import HpackTable.
From S2P Require Import HpackHuffman.
From S2P Require Import HpackEncoder.
From S2P Require Import HpackDecoder.
From S2P Require Import HpackIntProps.
Open Scope Z_scope.

(** ** Dispatch on the first byte *)

Definition first_byte_kind (b : Z) : nat :=
  if negb (Z.land b 128 =? 0) then 0
  else if Z.land b 192 =? 64 then 1
  else if Z.land b 240 =? 0 then 2
  else if Z.land b 240 =? 16 then 3
  else if Z.land b 224 =? 32 then 4 else 5.

Definition check_kinds (n t : Z) (k : nat) : bool :=
  forallb (fun i => Nat.eqb (first_byte_kind (Z.of_nat i + t)) k) (seq 0 (Z.to_nat (2 ^ n))).

Lemma kind_flagged n i t k :
  1 <= n <= 8 -> 0 <= i -> 0 <= t < 256 -> t mod 2 ^ n = 0 -> check_kinds n t k = true ->
  first_byte_kind (Z_of_byte (flagged n i t)) = k.
Proof.
  intros Hn Hi Ht Hmod Hc. rewrite flagged_value by done.
  pose proof (varint_first_range n i Hn Hi). pose proof (prefix_max_256 n Hn).
  unfold check_kinds in Hc. rewrite forallb_forall in Hc.
  specialize (Hc (Z.to_nat (varint_first n i))). rewrite in_seq, Z2Nat.id in Hc by lia.
  apply Nat.eqb_eq, Hc. lia.
Qed.

Section decoder.
Context {St : Type}.
Implicit Types d : Decoder St.

Lemma parse_dispatch d b rest :
  buf d = b :: rest ->
  parseHeaderFieldRepr d =
  match first_byte_kind (Z_of_byte b) with
  | 0%nat => parseFieldIndexed d
  | 1%nat => parseFieldLiteral d 6 indexedTrue
  | 2%nat => parseFieldLiteral d 4 indexedFalse
  | 3%nat => parseFieldLiteral d 4 indexedNever
  | 4%nat => parseDynamicTableSizeUpdate d
  | _ => Ok (Some (DecodingError (errors_New "invalid encoding")), d)
  end.
Proof.
  intros Hb. unfold parseHeaderFieldRepr. rewrite Hb. cbn [index Z.to_nat lookup list_lookup check].
  change (index (b :: rest) 0) with (Ok (E:=hpack_error) b). cbn [check]. cbv zeta.
  unfold first_byte_kind. by repeat case_match.
Qed.

(** What the callback gets. *)
Definition emitted d (f : HeaderField) : Decoder St :=
  let '(enabled, env) := emit d f (true, env d) in
  mkDecoder (dynTab d) (emit d) env enabled (maxStrLen d) (buf d) (saveBuf d).

Definition field_fits d (f : HeaderField) : Prop := str_fits d (Name f) /\ str_fits d (Value f).

Lemma callEmit_ok d f :
  field_fits d f -> emitEnabled d = true -> callEmit d f = (None, emitted d f).
Proof.
  intros [[_ HN] [_ HV]] He. unfold callEmit, emitted. rewrite He.
  destruct (Z.eqb_spec (maxStrLen d) 0); cbn [negb andb].
  - by destruct (emit d f _).
  - destruct (Z.ltb_spec (maxStrLen d) (slen (Name f))), (Z.ltb_spec (maxStrLen d) (slen (Value f))); try lia.
    cbn [orb]. by destruct (emit d f _).
Qed.

(** *** The four representations, parsed *)

Lemma parse_indexed d i f rest :
  0 <= i < 2 ^ 62 -> at_ (E:=hpack_error) d i = Ok (Some f) ->
  buf d = flagged 7 i 128 :: varint_rest 7 i ++ rest ->
  field_fits d f -> emitEnabled d = true ->
  parseHeaderFieldRepr d =
    Ok (None, emitted (with_buf d rest) (mkHeaderField (Name f) (Value f) false)).
Proof.
  intros Hi Hat Hb Hf He. rewrite (parse_dispatch d _ _ Hb).
  rewrite (kind_flagged 7 i 128 0) by (done || lia). unfold parseFieldIndexed.
  rewrite Hb, readVarInt_ok by (done || lia).
  destruct (Z.ltb_spec (i - prefix_max 7) (2 ^ 63)); [|change (prefix_max 7) with 127 in *; lia].
  cbn [check]. rewrite Hat. cbn [check]. by rewrite callEmit_ok.
Qed.

Lemma parse_size_update d v rest dt :
  0 <= v <= allowedMaxSize (dynTab d) -> allowedMaxSize (dynTab d) < 2 ^ 32 ->
  setMaxSize (E:=hpack_error) (dynTab d) v = Ok dt ->
  buf d = flagged 5 v 32 :: varint_rest 5 v ++ rest ->
  parseHeaderFieldRepr d = Ok (None, with_buf (with_dynTab d dt) rest).
Proof.
  intros Hv Ha Hdt Hb. rewrite (parse_dispatch d _ _ Hb).
  rewrite (kind_flagged 5 v 32 4) by (done || lia). unfold parseDynamicTableSizeUpdate.
  rewrite Hb, readVarInt_ok by (done || lia).
  destruct (Z.ltb_spec (v - prefix_max 5) (2 ^ 63)); [|change (prefix_max 5) with 31 in *; lia].
  cbn [check]. destruct (Z.ltb_spec (allowedMaxSize (dynTab d)) v); [lia|].
  unfold uint32. rewrite Z.mod_small by lia. by rewrite Hdt.
Qed.

(** The value and the end of a literal. *)
Lemma parse_value_ok d it name value buf rest dt :
  readString d buf true = Ok (value, rest) ->
  (if indexed it then add (E:=hpack_error) (dynTab d) (mkHeaderField name value false) else Ok (dynTab d)) = Ok dt ->
  str_fits d name -> str_fits d value -> emitEnabled d = true ->
  parse_value d it true name buf =
    Ok (None, emitted (with_dynTab (with_buf d rest) dt) (mkHeaderField name value (sensitive it))).
Proof.
  intros Hr Hdt HN HV He. unfold parse_value. rewrite Hr. cbn [check].
  change (dynTab (with_buf d rest)) with (dynTab d). rewrite Hdt. cbn [check]. by rewrite callEmit_ok.
Qed.
End decoder.

(** ** The relation *)

Record in_sync {St} (e : Encoder) (d : Decoder St) : Prop := {
  sync_enc : dt_wf (HpackEncoder.dynTab e);
  sync_dec : dt_wf (dynTab d);
  sync_ents : ents (table (HpackEncoder.dynTab e)) `suffix_of` ents (table (dynTab d));
  sync_limit : maxSize (HpackEncoder.dynTab e) <= maxSizeLimit e <= allowedMaxSize (dynTab d);
  sync_max : maxSize (dynTab d) <= allowedMaxSize (dynTab d) < 2 ^ 32;
  sync_added : added (table (HpackEncoder.dynTab e)) = added (table (dynTab d));
  sync_update :
    if tableSizeUpdate e
    then total (ents (table (HpackEncoder.dynTab e))) <= minSize e /\ 0 <= minSize e < 2 ^ 32
    else maxSize (HpackEncoder.dynTab e) <= maxSize (dynTab d) /\ minSize e = uint32Max;
  sync_enabled : emitEnabled d = true;
  sync_saveBuf : saveBuf d = [];
}.

(** The entry that the encoder means by an index. *)
Definition enc_at (e : Encoder) (i : Z) : option HeaderField :=
  if i <=? table_len staticTable then entry_at true staticTable i
  else entry_at false (table (HpackEncoder.dynTab e)) (i - table_len staticTable).

Lemma table_len_added t : table_wf t -> 0 <= table_len t <= added t.
Proof. intros [He _ _ _]. unfold added, table_len. pose proof (slen_nonneg (ents t)). lia. Qed.

Lemma searchTable_ok {E} e f :
  dt_wf (HpackEncoder.dynTab e) -> added (table (HpackEncoder.dynTab e)) < 2 ^ 61 ->
  exists i b, searchTable (E:=E) e f = Ok (i, b) /\ 0 <= i < 2 ^ 62 /\
    (b = true -> Sensitive f = false /\
       exists g, enc_at e i = Some g /\ Name g = Name f /\ Value g = Value f) /\
    (i <> 0 -> exists g, enc_at e i = Some g /\ Name g = Name f).
Proof.
  intros [Ht _ _] Ha. unfold searchTable. pose proof (table_len_added _ Ht) as Hlen.
  rewrite (search_is_spec true staticTable) by apply staticTable_wf. cbn [mbind res_bind].
  destruct (search_spec true staticTable f) as [i b] eqn:Hs.
  apply search_spec_correct in Hs as (Hst & Hsf & Hsi). rewrite staticTable_len in *.
  assert (forall g, entry_at true staticTable i = Some g -> enc_at e i = Some g) as Hstat.
  { intros g. unfold enc_at. rewrite staticTable_len. destruct (Z.leb_spec i 61); [done|lia]. }
  destruct b.
  { destruct (Hst eq_refl) as (HS & g & Hg & HN & HV). exists i, true.
    split; [done|]. split; [lia|]. split; [intros _; split; [done|]|intros _]; exists g; auto. }
  destruct (Hsf eq_refl) as (_ & _ & Hname). clear Hst Hsf.
  rewrite search_is_spec by done. cbn [mbind res_bind].
  destruct (search_spec false _ f) as [j b] eqn:Hs2.
  apply search_spec_correct in Hs2 as (Hdt & Hdf & Hdj).
  assert (j <> 0 -> forall g, entry_at false (table (HpackEncoder.dynTab e)) j = Some g ->
    enc_at e (j + 61) = Some g) as Hdyn.
  { intros Hj g. unfold enc_at. rewrite staticTable_len. destruct (Z.leb_spec (j + 61) 61); [lia|].
    by replace (j + 61 - 61) with j by lia. }
  assert (forall g, entry_at false (table (HpackEncoder.dynTab e)) j = Some g -> j <> 0) as Hj0.
  { intros g Hg ->. done. }
  destruct (b || _) eqn:Hb.
  - rewrite uint64_small by lia. exists (j + 61), b. split; [done|]. split; [lia|]. destruct b.
    + destruct (Hdt eq_refl) as (HS & g & Hg & HN & HV).
      split; [intros _; split; [done|]|intros _]; exists g; eauto.
    + split; [done|]. intros _. cbn [orb] in Hb. apply andb_true_iff in Hb as [_ Hb].
      apply negb_true_iff, Z.eqb_neq in Hb.
      destruct (Hdf eq_refl) as (_ & _ & Hn). destruct (Hn Hb) as (g & Hg & HN). exists g. eauto.
  - exists i, false. split; [done|]. split; [lia|]. split; [done|]. intros Hi.
    destruct (Hname Hi) as (g & Hg & HN). exists g. auto.
Qed.

(** The decoder finds the same entry at the index. *)
Lemma at_sync {St E} e (d : Decoder St) i g :
  in_sync e d -> added (table (HpackEncoder.dynTab e)) < 2 ^ 61 -> 0 <= i < 2 ^ 62 ->
  enc_at e i = Some g -> at_ (E:=E) d i = Ok (Some g).
Proof.
  intros Hsync Ha Hi. destruct (sync_ents e d Hsync) as [old Hold].
  pose proof (table_len_added _ (wf_table _ (sync_enc e d Hsync))) as He.
  pose proof (table_len_added _ (wf_table _ (sync_dec e d Hsync))) as Hd.
  rewrite <- (sync_added e d Hsync) in Hd.
  unfold enc_at, at_, entry_at, maxTableIndex. rewrite staticTable_len.
  change (uint64 61) with 61. destruct (Z.eqb_spec i 0) as [->|]; [done|].
  destruct (Z.leb_spec i 61).
  - destruct (Z.leb_spec 1 i); [|lia]. cbn [andb]. intros Hg.
    rewrite uint64_small by lia. unfold index. zcases; [lia|]. by rewrite Hg.
  - set (le := table_len (table (HpackEncoder.dynTab e))) in *.
    set (ld := table_len (table (dynTab d))) in *.
    assert (ld = slen old + le) as Hl by (unfold ld, le, table_len; by rewrite Hold, slen_app).
    destruct (Z.leb_spec 1 (i - 61)), (Z.leb_spec (i - 61) le); cbn [andb]; try (intros; discriminate). intros Hg.
    pose proof (slen_nonneg old). rewrite uint64_small by lia.
    destruct (Z.ltb_spec (ld + 61) i); [lia|]. rewrite int64_small by lia.
    unfold index. destruct (Z.ltb_spec (ld - (i - 61)) 0); [lia|]. rewrite Hold.
    replace (Z.to_nat (ld - (i - 61))) with (length old + Z.to_nat (le - (i - 61)))%nat
      by (unfold slen in *; lia).
    rewrite lookup_app_r by lia. replace (_ + _ - length old)%nat with (Z.to_nat (le - (i - 61))) by lia.
    by rewrite Hg.
Qed.

(** ** Sequences of representations *)

Definition parse1 {St} (d d' : Decoder St) : Prop :=
  parseHeaderFieldRepr d = Ok (None, d') /\ (length (buf d') < length (buf d))%nat.

Definition steps {St} : Decoder St -> Decoder St -> Prop := rtc parse1.

Lemma parse_loop_steps {St} (d d' : Decoder St) fuel :
  steps d d' -> buf d' = [] -> (length (buf d) <= fuel)%nat -> parse_loop fuel d = Ok (None, d').
Proof.
  intros Hs Hb. revert fuel. induction Hs as [d|d d1 d' [Hp Hl] _ IH]; intros fuel Hf.
  - destruct fuel; cbn [parse_loop]; by rewrite Hb.
  - destruct fuel as [|fuel]; [lia|]. cbn [parse_loop]. destruct (Z.eqb_spec (slen (buf d)) 0).
    { unfold slen in *. lia. }
    rewrite Hp. cbn [mbind res_bind]. apply IH; [done|lia].
Qed.

Lemma steps_trans {St} (d1 d2 d3 : Decoder St) : steps d1 d2 -> steps d2 d3 -> steps d1 d3.
Proof. apply rtc_trans. Qed.

(** ** Size updates *)

Lemma appendTableSize_ok {E} dst v :
  0 <= v < 2 ^ 32 -> appendTableSize (E:=E) dst v = Ok (dst ++ flagged 5 v 32 :: varint_rest 5 v).
Proof.
  intros Hv. unfold appendTableSize. rewrite appendVarInt_ok by lia. cbn [mbind res_bind].
  by rewrite or_at_first by lia.
Qed.

Lemma update_step {St} (d : Decoder St) v l :
  dt_wf (dynTab d) -> l `suffix_of` ents (table (dynTab d)) -> total l <= v ->
  0 <= v <= allowedMaxSize (dynTab d) -> allowedMaxSize (dynTab d) < 2 ^ 32 ->
  exists dt, dt_wf dt /\ l `suffix_of` ents (table dt) /\ maxSize dt = v /\
    allowedMaxSize dt = allowedMaxSize (dynTab d) /\ added (table dt) = added (table (dynTab d)) /\
    forall rest, parse1 (with_buf d (flagged 5 v 32 :: varint_rest 5 v ++ rest))
                        (with_buf (with_dynTab d dt) rest).
Proof.
  intros Hwf Hl Ht Hv Ha.
  destruct (setMaxSize_ok (E:=hpack_error) (dynTab d) v Hwf) as (dt & Hdt & Hwf' & He & Hm & Hal & Had); [lia|].
  exists dt. split; [done|]. split; [rewrite He; by apply fit_longest|]. do 3 (split; [done|]).
  intros rest. split; [exact (parse_size_update (with_buf d (_ :: _)) v rest dt Hv Ha Hdt eq_refl)|]. simpl. rewrite length_app. lia.
Qed.

Lemma write_updates_step {St E} e (d : Decoder St) :
  in_sync e d ->
  exists e' dt, write_updates (E:=E) e = Ok e' /\ tableSizeUpdate e' = false /\
    HpackEncoder.dynTab e' = HpackEncoder.dynTab e /\ in_sync e' (with_dynTab d dt) /\
    allowedMaxSize dt = allowedMaxSize (dynTab d) /\
    forall rest, steps (with_buf d (HpackEncoder.buf e' ++ rest)) (with_buf (with_dynTab d dt) rest).
Proof.
  intros Hs. destruct (Hs) as [Henc Hdec Hents Hlim Hmax Hadd Hup Hen Hsave].
  unfold write_updates. destruct (tableSizeUpdate e) eqn:Hu.
  2: { exists (mkEncoder (HpackEncoder.dynTab e) (minSize e) (maxSizeLimit e) false []), (dynTab d).
       split; [done|]. split; [done|]. split; [done|]. split; [by split|]. split; [done|].
       intros rest. replace (with_dynTab d (dynTab d)) with d by by destruct d. apply rtc_refl. }
  destruct Hup as [Htot Hmin]. destruct (Henc) as [_ Hsize Hfits].
  pose proof (total_nonneg (ents (table (HpackEncoder.dynTab e)))).
  set (M := maxSize (HpackEncoder.dynTab e)) in *. set (l := ents (table (HpackEncoder.dynTab e))) in *.
  assert (exists dt w, (if minSize e <? M then appendTableSize (E:=E) [] (minSize e) else Ok []) = Ok w /\
    dt_wf dt /\ l `suffix_of` ents (table dt) /\
    allowedMaxSize dt = allowedMaxSize (dynTab d) /\ added (table dt) = added (table (dynTab d)) /\
    forall rest, steps (with_buf d (w ++ rest)) (with_buf (with_dynTab d dt) rest))
    as (dt1 & w & -> & Hwf1 & Hl1 & Ha1 & Had1 & Hst1).
  { destruct (Z.ltb_spec (minSize e) M).
    - destruct (update_step d (minSize e) l) as (dt & ? & ? & ? & ? & ? & Hp); [done..|lia|lia|].
      eexists dt, _. split; [apply appendTableSize_ok; lia|]. do 4 (split; [done|]).
      intros rest. apply rtc_once, Hp.
    - exists (dynTab d), []. do 5 (split; [done|]). intros rest.
      replace (with_dynTab d (dynTab d)) with d by by destruct d. apply rtc_refl. }
  cbn [mbind res_bind]. rewrite appendTableSize_ok by lia. cbn [mbind res_bind].
  destruct (update_step (with_dynTab d dt1) M l) as (dt & Hwf & Hl & HM & Ha & Had & Hp);
    simpl; rewrite ?Ha1; [done..|lia|lia|lia|].
  simpl in Ha, Had. rewrite Ha1 in Ha. rewrite Had1 in Had.
  eexists _, dt. split; [done|]. split; [done|]. split; [done|]. split.
  { split; simpl; try done; fold M l; rewrite ?HM, ?Ha; try lia; congruence. }
  split; [done|]. intros rest. simpl. rewrite <- app_assoc. cbn [app].
  eapply steps_trans; [apply Hst1|]. apply rtc_once, Hp.
Qed.

(** ** Literals *)

(** The prefix length, the flags and the type of a literal. *)
Definition literal_kind (indexing sens : bool) : Z * Z * indexType :=
  if indexing then (6, 0x40, indexedTrue)
  else if sens then (4, 0x10, indexedNever) else (4, 0, indexedFalse).

Lemma parse_literal {St} (d : Decoder St) indexing sens idx name value body body' rest dt :
  let '(n, t, it) := literal_kind indexing sens in
  0 <= idx < 2 ^ 62 -> buf d = flagged n idx t :: varint_rest n idx ++ body ->
  (if idx =? 0 then readString d body true = Ok (name, body')
   else body' = body /\ exists g, at_ (E:=hpack_error) d idx = Ok (Some g) /\ Name g = name) ->
  readString d body' true = Ok (value, rest) ->
  (if indexing then add (E:=hpack_error) (dynTab d) (mkHeaderField name value false) else Ok (dynTab d)) = Ok dt ->
  str_fits d name -> str_fits d value -> emitEnabled d = true ->
  parseHeaderFieldRepr d =
    Ok (None, emitted (with_dynTab (with_buf d rest) dt)
                (mkHeaderField name value (if indexing then false else sens))).
Proof.
  assert (forall n t it, 1 <= n <= 8 -> 0 <= t < 256 -> t mod 2 ^ n = 0 ->
    0 <= idx < 2 ^ 62 -> buf d = flagged n idx t :: varint_rest n idx ++ body ->
    (if idx =? 0 then readString d body true = Ok (name, body')
     else body' = body /\ exists g, at_ (E:=hpack_error) d idx = Ok (Some g) /\ Name g = name) ->
    readString d body' true = Ok (value, rest) ->
    (if indexed it then add (E:=hpack_error) (dynTab d) (mkHeaderField name value false) else Ok (dynTab d)) = Ok dt ->
    str_fits d name -> str_fits d value -> emitEnabled d = true ->
    parseFieldLiteral d n it =
      Ok (None, emitted (with_dynTab (with_buf d rest) dt) (mkHeaderField name value (sensitive it)))) as Hlit.
  { intros n t it Hn Ht Hmod Hidx Hb Hname Hvalue Hdt HN HV He. unfold parseFieldLiteral.
    rewrite Hb, readVarInt_ok by (done || lia). pose proof (prefix_max_256 n Hn).
    destruct (prefix_max_uint64 n Hn).
    destruct (Z.ltb_spec (idx - prefix_max n) (2 ^ 63)); [|lia]. cbn [check]. rewrite He. cbn [orb].
    destruct (Z.eqb_spec idx 0) as [->|].
    - destruct (Z.ltb_spec 0 0); [lia|]. rewrite Hname. cbn [check]. by apply parse_value_ok.
    - destruct (Z.ltb_spec 0 idx); [|lia]. destruct Hname as [-> (g & -> & HN')]. cbn [check].
      rewrite HN'. by apply parse_value_ok. }
  unfold literal_kind. destruct indexing; [|destruct sens]; intros Hidx Hb;
    rewrite (parse_dispatch d _ _ Hb);
    [rewrite (kind_flagged _ _ _ 1) by (done || lia); by apply (Hlit 6 0x40 indexedTrue)
    |rewrite (kind_flagged _ _ _ 3) by (done || lia); by apply (Hlit 4 0x10 indexedNever)
    |rewrite (kind_flagged _ _ _ 2) by (done || lia); by apply (Hlit 4 0 indexedFalse)].
Qed.

(** What the encoder writes for a literal. *)
Lemma append_literal {E} dst f idx indexing :
  indexing && Sensitive f = false -> 0 <= idx < 2 ^ 62 ->
  slen (Name f) < 2 ^ 59 -> slen (Value f) < 2 ^ 59 ->
  let '(n, t, it) := literal_kind indexing (Sensitive f) in
  exists body,
    (if idx =? 0 then appendNewName (E:=E) dst f indexing
     else appendIndexedName dst f idx indexing) =
      Ok (dst ++ flagged n idx t :: varint_rest n idx ++ body) /\
    forall St (d : Decoder St) rest, str_fits d (Name f) -> str_fits d (Value f) ->
      exists body', (if idx =? 0 then readString d (body ++ rest) true = Ok (Name f, body')
                     else body' = body ++ rest) /\
        readString d body' true = Ok (Value f, rest).
Proof.
  intros Hsens Hidx HN HV.
  assert (forall n t, 1 <= n <= 6 -> 0 <= t < 256 -> encodeTypeByte indexing (Sensitive f) = t ->
    (if indexing then 6 else 4) = n ->
    exists body,
      (if idx =? 0 then appendNewName (E:=E) dst f indexing
       else appendIndexedName dst f idx indexing) =
        Ok (dst ++ flagged n idx t :: varint_rest n idx ++ body) /\
      forall St (d : Decoder St) rest, str_fits d (Name f) -> str_fits d (Value f) ->
        exists body', (if idx =? 0 then readString d (body ++ rest) true = Ok (Name f, body')
                       else body' = body ++ rest) /\
          readString d body' true = Ok (Value f, rest)) as H.
  { intros n t Hn Ht Htype Hpre. destruct (Z.eqb_spec idx 0) as [->|].
    - unfold appendNewName. rewrite Htype.
      assert (varint_first n 0 = 0 /\ varint_rest n 0 = []) as [Hf Hr].
      { destruct (prefix_max_uint64 n ltac:(lia)). unfold varint_first, varint_rest.
        rewrite Z.min_l by lia. destruct (Z.ltb_spec 0 (prefix_max n)); [done|lia]. }
      destruct (appendHpackString_any (E:=E) (dst ++ [byte_of_Z t]) (Name f) HN) as (w1 & -> & Hw1).
      cbn [mbind res_bind].
      destruct (appendHpackString_any (E:=E) ((dst ++ [byte_of_Z t]) ++ w1) (Value f) HV) as (w2 & -> & Hw2).
      exists (w1 ++ w2). split; [unfold flagged; rewrite Hf, Hr, Z.lor_0_l, <- !app_assoc; done|].
      intros St d rest HfN HfV. exists (w2 ++ rest). rewrite <- app_assoc. split; [by apply Hw1|by apply Hw2].
    - unfold appendIndexedName. rewrite Hpre, Htype, appendVarInt_ok by lia. cbn [mbind res_bind].
      rewrite or_at_first by lia. cbn [mbind res_bind].
      destruct (appendHpackString_any (E:=E) (dst ++ flagged n idx t :: varint_rest n idx) (Value f) HV)
        as (w2 & -> & Hw2).
      exists w2. split; [by rewrite <- app_assoc|]. intros St d rest HfN HfV. exists (w2 ++ rest).
      split; [done|by apply Hw2]. }
  unfold literal_kind. destruct indexing; [|destruct (Sensitive f) eqn:HS]; apply H; try done; try lia.
  all: unfold encodeTypeByte; try rewrite HS; try done. cbn [andb] in Hsens. by rewrite Hsens.
Qed.

(** ** Fields *)

(** The callback takes a field and leaves itself enabled. *)
Definition accepts {St} (d : Decoder St) (f : HeaderField) : Prop := (emit d f (true, env d)).1 = true.

Lemma emitted_enabled {St} (d : Decoder St) f : accepts d f -> emitEnabled (emitted d f) = true.
Proof. unfold accepts, emitted. by destruct (emit d f (true, env d)). Qed.

(** The callback on a list of fields, as long as it leaves itself enabled. *)
Fixpoint emit_all {St} (emit : HeaderField -> bool * St -> bool * St) (fs : list HeaderField) (env : St) : option St :=
  match fs with
  | [] => Some env
  | f :: fs => let '(enabled, env) := emit f (true, env) in if enabled then emit_all emit fs env else None
  end.

Lemma emit_all_collect fs env : emit_all collect fs env = Some (env ++ fs).
Proof.
  revert env. induction fs as [|f fs IH]; intros env; [by rewrite app_nil_r|].
  cbn [emit_all collect fst snd]. by rewrite IH, <- app_assoc.
Qed.

Lemma emit_all_app {St} (emit : HeaderField -> bool * St -> bool * St) fs1 fs2 env :
  emit_all emit (fs1 ++ fs2) env = (env ← emit_all emit fs1 env; emit_all emit fs2 env).
Proof.
  revert env. induction fs1 as [|f fs1 IH]; intros env; [done|]. cbn [app emit_all].
  destruct (emit f (true, env)) as [[] env']; [apply IH|done].
Qed.

Lemma field_eta f s : Sensitive f = s -> mkHeaderField (Name f) (Value f) s = f.
Proof. intros <-. by destruct f. Qed.

(** Fields that the tables of a decoder can take. *)
Definition writable {St} (d : Decoder St) (f : HeaderField) : Prop :=
  field_fits d f /\ allowedMaxSize (dynTab d) + rfc_size f < 2 ^ 32.

(** Adding the field on both sides. *)
Lemma add_step {St E} e (d : Decoder St) f :
  in_sync e d -> tableSizeUpdate e = false -> writable d f ->
  added (table (HpackEncoder.dynTab e)) + 1 < 2 ^ 61 ->
  exists dte dt, add (E:=E) (HpackEncoder.dynTab e) f = Ok dte /\ add (E:=hpack_error) (dynTab d) f = Ok dt /\
    allowedMaxSize dt = allowedMaxSize (dynTab d) /\
    added (table dte) = added (table (HpackEncoder.dynTab e)) + 1 /\
    forall e', HpackEncoder.dynTab e' = dte -> maxSizeLimit e' = maxSizeLimit e ->
      tableSizeUpdate e' = false -> minSize e' = minSize e -> in_sync e' (with_dynTab d dt).
Proof.
  intros Hs Hu [Hf Hsz] Ha. destruct (Hs) as [Henc Hdec Hents Hlim Hmax Hadd Hup Hen Hsave].
  rewrite Hu in Hup. destruct Hup as [Hmm Hmin].
  pose proof (rfc_size_pos f). pose proof (wf_fits _ Henc). pose proof (wf_fits _ Hdec).
  assert (Size f = rfc_size f) as HSf.
  { apply Size_rfc. destruct (Henc) as [? Hz ?]. pose proof (total_nonneg (ents (table (HpackEncoder.dynTab e)))). lia. }
  destruct (add_ok (E:=E) (HpackEncoder.dynTab e) f) as (dte & He & Hwfe & Hee & Hme & Hae & Hade); [done|lia|lia|].
  destruct (add_ok (E:=hpack_error) (dynTab d) f) as (dt & Hd & Hwfd & Hed & Hmd & Had & Hadd'); [done|lia|lia|].
  exists dte, dt. do 4 (split; [done|]). intros e' <- Hl Hu' Hm.
  assert (0 <= maxSize (HpackEncoder.dynTab e)).
  { destruct (Henc) as [? Hz ?]. pose proof (total_nonneg (ents (table (HpackEncoder.dynTab e)))). lia. }
  split; simpl; rewrite ?Hl, ?Hme, ?Hmd, ?Had, ?Hu', ?Hm; try done; try lia.
  rewrite Hee, Hed. apply fit_mono; [lia|]. by apply suffix_app.
Qed.

Lemma write_repr_step {St E} e (d : Decoder St) f :
  in_sync e d -> tableSizeUpdate e = false -> accepts d f -> writable d f ->
  added (table (HpackEncoder.dynTab e)) + 1 < 2 ^ 61 ->
  exists e' w dt, write_repr (E:=E) e f = Ok e' /\ HpackEncoder.buf e' = HpackEncoder.buf e ++ w /\
    in_sync e' (with_dynTab (emitted d f) dt) /\ allowedMaxSize dt = allowedMaxSize (dynTab d) /\
    added (table (HpackEncoder.dynTab e')) <= added (table (HpackEncoder.dynTab e)) + 1 /\
    forall rest, parse1 (with_buf d (w ++ rest)) (with_buf (with_dynTab (emitted d f) dt) rest).
Proof.
  intros Hs Hu Hcol Hw Ha. destruct (Hw) as [[HfN HfV] Hsz].
  pose proof (sync_enabled _ _ Hs) as Hen.
  assert (forall e' dt, in_sync e' (with_dynTab d dt) -> in_sync e' (with_dynTab (emitted d f) dt)) as Hpush.
  { intros e' dt [? ? ? ? ? ? ? ? ?]. pose proof (emitted_enabled d f Hcol). unfold emitted in *.
    destruct (emit d f _). by split. }
  destruct (searchTable_ok (E:=E) e f (sync_enc _ _ Hs) ltac:(lia)) as (i & b & Hsearch & Hi & Hb & Hname).
  unfold write_repr. rewrite Hsearch. cbn [mbind res_bind]. destruct b.
  - (* indexed *)
    destruct (Hb eq_refl) as (HS & g & Hg & HN & HV).
    unfold appendIndexed. rewrite appendVarInt_ok by lia. cbn [mbind res_bind].
    rewrite or_at_first by lia. cbn [mbind res_bind].
    eexists _, _, (dynTab d). split; [done|]. split; [done|].
    split; [apply Hpush; destruct Hs; by split|]. split; [done|]. split; [simpl; lia|].
    intros rest. split.
    + change (with_buf d ((flagged 7 i 128 :: varint_rest 7 i) ++ rest))
        with (with_buf d (flagged 7 i 128 :: varint_rest 7 i ++ rest)).
      rewrite (parse_indexed (with_buf d (flagged 7 i 128 :: varint_rest 7 i ++ rest)) i g rest);
        [|lia|exact (at_sync e d i g Hs ltac:(lia) Hi Hg)|done|split; [by rewrite HN|by rewrite HV]|done].
      rewrite HN, HV, field_eta by done. unfold emitted. simpl. by destruct (emit d f _).
    + simpl. rewrite length_app. lia.
  - (* literal *)
    set (indexing := shouldIndex e f).
    assert (indexing && Sensitive f = false) as Hsens.
    { unfold indexing, shouldIndex. destruct (Sensitive f); [done|apply andb_false_r]. }
    pose proof (append_literal (E:=E) (HpackEncoder.buf e) f i indexing Hsens Hi (proj1 HfN) (proj1 HfV)) as Happ.
    destruct (literal_kind indexing (Sensitive f)) as [[n t] it] eqn:Hk.
    destruct Happ as (body & Happ & Hread).
    assert (exists dte dt, (if indexing then add (E:=E) (HpackEncoder.dynTab e) f else Ok (HpackEncoder.dynTab e)) = Ok dte /\
      (if indexing then add (E:=hpack_error) (dynTab d) (mkHeaderField (Name f) (Value f) false)
       else Ok (dynTab d)) = Ok dt /\
      allowedMaxSize dt = allowedMaxSize (dynTab d) /\
      added (table dte) <= added (table (HpackEncoder.dynTab e)) + 1 /\
      forall b, in_sync (mkEncoder dte (minSize e) (maxSizeLimit e) (tableSizeUpdate e) b) (with_dynTab d dt))
      as (dte & dt & -> & Hdt & Hal & Hadd & Hsync).
    { destruct indexing; cbn [andb] in Hsens.
      - destruct (add_step (E:=E) e d f) as (dte & dt & ? & ? & ? & ? & Hsync); [done..|].
        exists dte, dt. split; [done|]. split; [by rewrite field_eta|].
        split; [done|]. split; [lia|]. intros b. by apply Hsync.
      - exists (HpackEncoder.dynTab e), (dynTab d). do 3 (split; [done|]). split; [lia|].
        intros b. destruct Hs; by split. }
    cbn [mbind res_bind]. rewrite Happ. cbn [mbind res_bind].
    eexists _, _, dt. split; [done|]. split; [done|].
    split; [apply Hpush, (Hsync (HpackEncoder.buf e ++ flagged n i t :: varint_rest n i ++ body))|].
    split; [done|]. split; [done|]. intros rest.
    destruct (Hread _ d rest HfN HfV) as (body' & Hn & Hv).
    pose proof (parse_literal (with_buf d (flagged n i t :: varint_rest n i ++ body ++ rest)) indexing
      (Sensitive f) i (Name f) (Value f) (body ++ rest) body' rest dt) as Hp.
    rewrite Hk in Hp. split.
    + change ((flagged n i t :: varint_rest n i ++ body) ++ rest)
        with (flagged n i t :: (varint_rest n i ++ body) ++ rest). rewrite <- app_assoc.
      rewrite Hp; [|done|done| |done|done|done|done|done].
      * rewrite field_eta by (by destruct indexing). unfold emitted. simpl. by destruct (emit d f _).
      * destruct (Z.eqb_spec i 0); [done|]. split; [done|].
        destruct (Hname ltac:(done)) as (g & Hg & HN). exists g. split; [|done]. exact (at_sync e d i g Hs ltac:(lia) Hi Hg).
    + simpl. rewrite !length_app. lia.
Qed.

(** ** Blocks *)

(** What may be done to an encoder. *)
Inductive op : Type :=
| OpField (f : HeaderField)
| OpSetMax (v : Z)
| OpSetLimit (v : Z).

(** An operation, and the bytes that it hands to the writer. *)
Definition run_op {E} (e : Encoder) (o : op) : res E (Encoder * list byte) :=
  match o with
  | OpField f => e ← encode_field e f; Ok (e, HpackEncoder.buf e)
  | OpSetMax v => e ← HpackEncoder.SetMaxDynamicTableSize e v; Ok (e, [])
  | OpSetLimit v => e ← SetMaxDynamicTableSizeLimit e v; Ok (e, [])
  end.

Fixpoint run_ops {E} (e : Encoder) (ops : list op) : res E (Encoder * list byte) :=
  match ops with
  | [] => Ok (e, [])
  | o :: ops =>
      '(e, out) ← run_op e o;
      '(e, out') ← run_ops e ops;
      Ok (e, out ++ out')
  end.

Definition fields (ops : list op) : list HeaderField :=
  omap (fun o => match o with OpField f => Some f | _ => None end) ops.

Lemma fields_OpField fs : fields (OpField <$> fs) = fs.
Proof. unfold fields. induction fs as [|f fs IH]; [done|]. cbn. by rewrite IH. Qed.

(** Arguments that a decoder with the limits [m] on strings and [allowed] on its table can
    follow. *)
Definition op_ok (m allowed : Z) (o : op) : Prop :=
  match o with
  | OpField f =>
      (slen (Name f) < 2 ^ 59 /\ (m = 0 \/ slen (Name f) <= m < 2 ^ 63)) /\
      (slen (Value f) < 2 ^ 59 /\ (m = 0 \/ slen (Value f) <= m < 2 ^ 63)) /\
      allowed + rfc_size f < 2 ^ 32
  | OpSetMax v => 0 <= v < 2 ^ 32
  | OpSetLimit v => 0 <= v <= allowed
  end.

Lemma shrink_step {St E} e (d : Decoder St) v :
  in_sync e d -> 0 <= v < 2 ^ 32 ->
  exists dt, setMaxSize (E:=E) (HpackEncoder.dynTab e) v = Ok dt /\
    added (table dt) = added (table (HpackEncoder.dynTab e)) /\
    forall ms lim b, v <= lim <= allowedMaxSize (dynTab d) -> 0 <= ms < 2 ^ 32 ->
      (ms = v \/ ms = minSize e) ->
      in_sync (mkEncoder dt ms lim true b) d.
Proof.
  intros Hs Hv. destruct (Hs) as [Henc Hdec Hents Hlim Hmax Hadd Hup Hen Hsave].
  destruct (setMaxSize_ok (E:=E) (HpackEncoder.dynTab e) v Henc Hv) as (dt & -> & Hwf & He & Hm & _ & Had).
  exists dt. split; [done|]. split; [done|]. intros ms lim b Hl Hms Hwhich.
  pose proof (fit_suffix v (ents (table (HpackEncoder.dynTab e)))) as Hsuf.
  assert (total (ents (table (HpackEncoder.dynTab e))) <= minSize e).
  { destruct (tableSizeUpdate e); [lia|]. destruct Hup as [_ ->]. destruct Henc as [_ Hz Hf].
    change uint32Max with (2 ^ 32 - 1). lia. }
  split; simpl; rewrite ?He, ?Hm; try done; try lia.
  - by etrans.
  - split; [|done]. pose proof (total_suffix _ _ Hsuf).
    pose proof (fit_total v (ents (table (HpackEncoder.dynTab e)))). destruct Hwhich as [->| ->]; lia.
Qed.

Lemma run_op_step {St E} e (d : Decoder St) o env' :
  in_sync e d -> emit_all (emit d) (fields [o]) (env d) = Some env' -> op_ok (maxStrLen d) (allowedMaxSize (dynTab d)) o ->
  added (table (HpackEncoder.dynTab e)) + 1 < 2 ^ 61 ->
  exists e' out d', run_op (E:=E) e o = Ok (e', out) /\ in_sync e' d' /\
    emit d' = emit d /\ env d' = env' /\
    maxStrLen d' = maxStrLen d /\ allowedMaxSize (dynTab d') = allowedMaxSize (dynTab d) /\
    added (table (HpackEncoder.dynTab e')) <= added (table (HpackEncoder.dynTab e)) + 1 /\
    forall rest, steps (with_buf d (out ++ rest)) (with_buf d' rest).
Proof.
  intros Hs Hcol Hok Ha. destruct o as [f|v|v]; cbn [run_op].
  - unfold encode_field. destruct (write_updates_step (E:=E) e d Hs) as (e1 & dt1 & -> & Hu1 & Ht1 & Hs1 & Hal1 & Hst1).
    cbn [mbind res_bind].
    change (fields [OpField f]) with [f] in Hcol. cbn [emit_all] in Hcol.
    destruct (emit d f (true, env d)) as [[] env1] eqn:Hem; [|done]. injection Hcol as ->.
    assert (emitted (with_dynTab d dt1) f = mkDecoder dt1 (emit d) env' true (maxStrLen d) (buf d) (saveBuf d)) as Hemd.
    { unfold emitted. cbn [emit env with_dynTab]. by rewrite Hem. }
    destruct (write_repr_step (E:=E) e1 (with_dynTab d dt1) f Hs1 Hu1) as
      (e2 & w & dt & -> & Hb2 & Hs2 & Hal2 & Had2 & Hp2).
    { unfold accepts. cbn [emit env with_dynTab]. by rewrite Hem. }
    { destruct Hok as (? & ? & ?). split; [done|]. simpl. by rewrite Hal1. }
    { by rewrite Ht1. }
    rewrite Hemd in Hs2, Hp2.
    cbn [mbind res_bind]. eexists _, _, _. split; [done|]. split; [exact Hs2|].
    split; [done|]. split; [done|]. split; [done|]. split; [simpl in *; congruence|].
    split; [by rewrite Ht1 in Had2|]. intros rest. rewrite Hb2, <- app_assoc.
    eapply steps_trans; [apply Hst1|]. apply rtc_once, Hp2.
  - injection Hcol as <-. unfold HpackEncoder.SetMaxDynamicTableSize. set (v' := if _ <? v then _ else _).
    destruct (Hs) as [Henc Hdec Hents Hlim Hmax Hadd Hup Hen Hsave]. destruct (Henc) as [_ Hz Hf].
    pose proof (total_nonneg (ents (table (HpackEncoder.dynTab e)))).
    assert (0 <= v' <= maxSizeLimit e /\ v' < 2 ^ 32) as [Hv' ?].
    { unfold v'. simpl in Hok. destruct (Z.ltb_spec (maxSizeLimit e) v); lia. }
    destruct (shrink_step (E:=E) e d v' Hs ltac:(lia)) as (dt & -> & Had & Hsync).
    cbn [mbind res_bind]. eexists _, _, d. split; [done|]. split.
    { apply Hsync; [lia| |].
      - destruct (Z.ltb_spec v' (minSize e)); [lia|].
        destruct (tableSizeUpdate e); [lia|]. destruct Hup as [_ ->]. done.
      - destruct (Z.ltb_spec v' (minSize e)); [by left|by right]. }
    do 4 (split; [done|]). split; [simpl; lia|]. intros rest. apply rtc_refl.
  - injection Hcol as <-. unfold SetMaxDynamicTableSizeLimit. simpl in Hok.
    destruct (Hs) as [Henc Hdec Hents Hlim Hmax Hadd Hup Hen Hsave].
    destruct (Z.ltb_spec v (maxSize (HpackEncoder.dynTab e))).
    + destruct (shrink_step (E:=E) e d v Hs) as (dt & -> & Had & Hsync); [lia|].
      cbn [mbind res_bind]. eexists _, _, d. split; [done|]. split.
      { apply Hsync; [lia| |by right]. destruct (tableSizeUpdate e); [lia|]. destruct Hup as [_ ->]. done. }
      do 4 (split; [done|]). split; [simpl; lia|]. intros rest. apply rtc_refl.
    + eexists _, _, d. split; [done|]. split; [split; simpl; try done; lia|].
      do 4 (split; [done|]). split; [simpl; lia|]. intros rest. apply rtc_refl.
Qed.

Lemma run_ops_step {St E} ops e (d : Decoder St) env' :
  in_sync e d -> emit_all (emit d) (fields ops) (env d) = Some env' -> Forall (op_ok (maxStrLen d) (allowedMaxSize (dynTab d))) ops ->
  added (table (HpackEncoder.dynTab e)) + slen ops < 2 ^ 61 ->
  exists e' out d', run_ops (E:=E) e ops = Ok (e', out) /\ in_sync e' d' /\ emit d' = emit d /\ env d' = env' /\
    maxStrLen d' = maxStrLen d /\ allowedMaxSize (dynTab d') = allowedMaxSize (dynTab d) /\
    added (table (HpackEncoder.dynTab e')) <= added (table (HpackEncoder.dynTab e)) + slen ops /\
    forall rest, steps (with_buf d (out ++ rest)) (with_buf d' rest).
Proof.
  revert e d. induction ops as [|o ops IH]; intros e d Hs Hcol Hok Ha.
  { injection Hcol as <-. exists e, [], d. do 6 (split; [done|]). split; [unfold slen; simpl; lia|].
    intros rest. apply rtc_refl. }
  rewrite slen_cons in Ha |- *. pose proof (slen_nonneg ops). apply Forall_cons in Hok as [Ho Hok].
  assert (fields (o :: ops) = fields [o] ++ fields ops) as Hfs by (by destruct o).
  rewrite Hfs, emit_all_app in Hcol.
  destruct (emit_all (emit d) (fields [o]) (env d)) as [env1|] eqn:Hcol1; [|done]. cbn [mbind option_bind] in Hcol.
  destruct (run_op_step (E:=E) e d o env1) as (e1 & out1 & d1 & Hr1 & Hs1 & Hc1 & He1 & Hm1 & Hal1 & Ha1 & Hst1);
    [done..|lia|].
  destruct (IH e1 d1) as (e2 & out2 & d2 & Hr2 & Hs2 & Hc2 & He2 & Hm2 & Hal2 & Ha2 & Hst2);
    [done|by rewrite Hc1, He1|by rewrite Hm1, Hal1|lia|].
  exists e2, (out1 ++ out2), d2. cbn [run_ops]. rewrite Hr1. cbn [mbind res_bind]. rewrite Hr2.
  split; [done|]. split; [done|]. split; [congruence|]. split; [done|].
  split; [congruence|]. split; [congruence|]. split; [lia|].
  intros rest. rewrite <- app_assoc. eapply steps_trans; [apply Hst1|apply Hst2].
Qed.

(** One block through [DecodeFull]. *)
Lemma decode_block {St E} ops e (d : Decoder St) :
  in_sync e d -> Forall (op_ok (maxStrLen d) (allowedMaxSize (dynTab d))) ops ->
  added (table (HpackEncoder.dynTab e)) + slen ops < 2 ^ 61 ->
  exists e' out d', run_ops (E:=E) e ops = Ok (e', out) /\
    DecodeFull d out = Ok (fields ops, None, d') /\ in_sync e' d' /\
    maxStrLen d' = maxStrLen d /\ allowedMaxSize (dynTab d') = allowedMaxSize (dynTab d) /\
    added (table (HpackEncoder.dynTab e')) <= added (table (HpackEncoder.dynTab e)) + slen ops.
Proof.
  intros Hs Hok Ha.
  assert (in_sync e (with_emit d collect [])) as Hs0 by (destruct Hs; by split).
  destruct (run_ops_step (E:=E) ops e (with_emit d collect []) (fields ops) Hs0) as
    (e' & out & d1 & Hr & Hs1 & _ & He1 & Hm1 & Hal1 & Ha1 & Hst); [by rewrite emit_all_collect|done..|].
  specialize (Hst []). rewrite app_nil_r in Hst. pose proof (sync_saveBuf _ _ Hs1) as Hsave1.
  exists e', out. unfold DecodeFull, Write.
  destruct (Z.eqb_spec (slen out) 0) as [H0|H0].
  - assert (out = []) as -> by (destruct out; [done|rewrite slen_cons in H0; pose proof (slen_nonneg out); lia]).
    assert (with_buf (with_emit d collect []) [] = with_buf d1 []) as Heq.
    { apply rtc_inv in Hst as [Heq|(y & [_ Hl] & _)]; [done|]. simpl in Hl. lia. }
    cbn [mbind res_bind]. unfold Close. rewrite (sync_saveBuf _ _ Hs0).
    apply (f_equal env) in Heq as Henv. simpl in Henv. rewrite He1 in Henv. simpl in Henv.
    assert (dynTab d = dynTab d1 /\ emitEnabled d = emitEnabled d1 /\ maxStrLen d = maxStrLen d1)
      as (Hdt & Hen & Hml) by (injection Heq; auto).
    eexists. split; [exact Hr|]. split; [simpl; by rewrite <- Henv|].
    split; [|done]. destruct Hs1; split; simpl; rewrite ?Hdt, ?Hen; try done. apply (sync_saveBuf _ _ Hs).
  - rewrite (sync_saveBuf _ _ Hs0). cbn [slen length Z.of_nat Z.eqb].
    change (slen [] =? 0) with true. cbn [mbind res_bind].
    rewrite (parse_loop_steps _ _ _ Hst) by done. cbn [mbind res_bind]. unfold Close.
    change (saveBuf (with_buf d1 [])) with (saveBuf d1). rewrite Hsave1.
    change (0 <? slen []) with false. cbn [mbind res_bind].
    eexists. split; [exact Hr|]. split; [simpl; rewrite He1; done|].
    split; [destruct Hs1; by split|]. done.
Qed.

Fixpoint encode_blocks {E} (e : Encoder) (blocks : list (list op)) : res E (list (list byte)) :=
  match blocks with
  | [] => Ok []
  | ops :: blocks =>
      '(e, out) ← run_ops e ops;
      outs ← encode_blocks e blocks;
      Ok (out :: outs)
  end.

Fixpoint decode_blocks {St} (d : Decoder St) (outs : list (list byte))
  : res Empty_set (list (list HeaderField * option hpack_error)) :=
  match outs with
  | [] => Ok []
  | out :: outs =>
      '(hf, err, d) ← DecodeFull d out;
      rest ← decode_blocks d outs;
      Ok ((hf, err) :: rest)
  end.

Lemma decode_blocks_step {St E} blocks e (d : Decoder St) :
  in_sync e d -> Forall (Forall (op_ok (maxStrLen d) (allowedMaxSize (dynTab d)))) blocks ->
  added (table (HpackEncoder.dynTab e)) + slen (concat blocks) < 2 ^ 61 ->
  exists outs, encode_blocks (E:=E) e blocks = Ok outs /\
    decode_blocks d outs = Ok ((fun ops => (fields ops, None)) <$> blocks).
Proof.
  revert e d. induction blocks as [|ops blocks IH]; intros e d Hs Hok Ha; [by exists []|].
  cbn [concat] in Ha. rewrite slen_app in Ha. pose proof (slen_nonneg (concat blocks)).
  apply Forall_cons in Hok as [Ho Hok].
  destruct (decode_block (E:=E) ops e d) as (e1 & out & d1 & Hr & Hd & Hs1 & Hm1 & Hal1 & Ha1); [done..|lia|].
  destruct (IH e1 d1) as (outs & Henc & Hdec); [done|by rewrite Hm1, Hal1|lia|].
  exists (out :: outs). cbn [encode_blocks decode_blocks]. rewrite Hr, Hd. cbn [mbind res_bind].
  rewrite Henc, Hdec. done.
Qed.

Lemma new_in_sync {St E} n emitFunc (env : St) m :
  initialHeaderTableSize <= n < 2 ^ 32 ->
  exists e d, NewEncoder (E:=E) = Ok e /\ NewDecoder (E:=E) n emitFunc env = Ok d /\
    in_sync e (SetMaxStringLength d m) /\ allowedMaxSize (dynTab d) = n /\
    added (table (HpackEncoder.dynTab e)) = 0.
Proof.
  intros Hn. unfold initialHeaderTableSize in Hn.
  assert (forall a, dt_wf (mkDynamicTable init_table 0 0 a)) as Hwf
    by (intros; split; [apply init_table_wf|done..]).
  destruct (setMaxSize_ok (E:=E) _ 4096 (Hwf 0)) as (dte & He & Hwfe & Hee & Hme & _ & Hae); [lia|].
  destruct (setMaxSize_ok (E:=E) _ n (Hwf n)) as (dtd & Hd & Hwfd & Hed & Hmd & Hald & Had); [lia|].
  unfold NewEncoder, NewDecoder. unfold initialHeaderTableSize. rewrite He, Hd. cbn [mbind res_bind].
  eexists _, _. split; [done|]. split; [done|]. simpl in *. split; [|split; [done|by rewrite Hae]].
  split; simpl; try done; rewrite ?Hee, ?Hed, ?Hme, ?Hmd, ?Hald, ?Hae, ?Had; try done; lia.
Qed.

(** C17: Whatever is done to a new encoder, block after block - fields written, table sizes
    and size limits changed - the bytes of each block, given to [DecodeFull] of a new decoder
    whose table may grow to [n] (at least the initial 4096), are decoded to exactly the
    fields of the block, in order, with names, values and sensitivity; no error, no
    panic.  (Limits are set to at most [n]; strings fit in the decoder's limit [m], if it is not 0;
    sizes do not wrap around 2^32.) *)
Theorem hpack_roundtrip {St} n m (emitFunc : HeaderField -> bool * St -> bool * St) (env : St) blocks :
  initialHeaderTableSize <= n < 2 ^ 32 ->
  Forall (Forall (op_ok m n)) blocks -> slen (concat blocks) < 2 ^ 61 ->
  exists e d outs, NewEncoder (E:=hpack_error) = Ok e /\ NewDecoder (E:=hpack_error) n emitFunc env = Ok d /\
    encode_blocks (E:=hpack_error) e blocks = Ok outs /\
    decode_blocks (SetMaxStringLength d m) outs = Ok ((fun ops => (fields ops, None)) <$> blocks).
Proof.
  intros Hn Hok Hlen.
  destruct (new_in_sync (E:=hpack_error) n emitFunc env m Hn) as (e & d & He & Hd & Hs & Hal & Ha).
  destruct (decode_blocks_step (E:=hpack_error) blocks e (SetMaxStringLength d m)) as (outs & Henc & Hdec);
    [done|simpl; by rewrite Hal|lia|].
  by exists e, d, outs.
Qed.

(** ** Witnesses *)

(** Two blocks of a call: a field of the static table, new and repeated fields, a sensitive
    one, and changes of the table's size between them. *)
Definition two_blocks : list (list op) :=
  [ [OpField (entry ":method" "POST"); OpField (entry "user-agent" "grpc-go/1.3.0");
     OpField (mkHeaderField (bytes_of "authorization") (bytes_of "secret") true)];
    [OpSetLimit 60; OpField (entry "user-agent" "grpc-go/1.3.0"); OpSetLimit 4096; OpSetMax 2000;
     OpField (entry "te" "trailers"); OpField (entry "te" "trailers")] ].

Lemma hpack_roundtrip_witness :
  exists e d outs, NewEncoder (E:=hpack_error) = Ok e /\ NewDecoder (E:=hpack_error) 4096 collect [] = Ok d /\
    encode_blocks (E:=hpack_error) e two_blocks = Ok outs /\
    decode_blocks (SetMaxStringLength d 100) outs = Ok ((fun ops => (fields ops, None)) <$> two_blocks).
Proof.
  apply (hpack_roundtrip 4096 100 collect []); [done| |done].
  unfold two_blocks. repeat first [apply Forall_cons; split|apply Forall_nil; exact I].
  all: repeat split; try done; by right.
Defined.

(** The encoder's table may be smaller than the decoder's: lowering the limit and raising the
    size again is told to the decoder as one update to the new size. *)
Example tables_differ :
  (e ← NewEncoder (E:=hpack_error);
   '(e, out) ← run_ops e [OpField (entry "a" "1"); OpSetLimit 0; OpSetLimit 4096; OpSetMax 4096;
                          OpField (entry "b" "2")];
   Ok (ents (table (HpackEncoder.dynTab e)))) = Ok [entry "b" "2"] /\
  (d ← NewDecoder 4096 collect [];
   e ← NewEncoder;
   '(e, out) ← run_ops e [OpField (entry "a" "1"); OpSetLimit 0; OpSetLimit 4096; OpSetMax 4096;
                          OpField (entry "b" "2")];
   match DecodeFull d out with
   | Ok (_, None, d) => Ok (E:=hpack_error) (ents (table (dynTab d)))
   | _ => Panic
   end) = Ok [entry "a" "1"; entry "b" "2"].
Proof. split; vm_compute; reflexivity. Qed.
