(* ===== verification/HpackWrite.v ===== *)
(** * HPACK: header blocks that arrive in pieces

    [Decoder.Write] may be called with any pieces of a header block: after each piece the
    decoder is in the state in which one call with all the pieces so far would have
    left it, and fails exactly when that call would.  And [Write] is
    total on arbitrary input: it returns, without a panic, and its
    callback never sees a string over the limit.  At the end, the size of what is encoded. *)

From stdpp Require Import base list strings gmap.
From Stdlib Require Import ZArith Strings.Byte Lia.
From S2P Require Import Prelude.
From S2P Require Import Hpack.
From S2P Require Import HpackTable.
From S2P Require Import HpackHuffman.
From S2P Require Import HpackHuffmanProps.
From S2P Require Import HpackEncoder.
From S2P Require Import HpackDecoder.
From S2P Require Import HpackIntProps.
From S2P Require Import HpackSync.
Open Scope Z_scope.

(** ** Reading from a longer buffer *)

(** [r'] is [r] with [x] after what it read from. *)
Definition ext {A} (x : list byte) (r r' : res hpack_error (A * list byte)) : Prop :=
  match r with
  | Ok (a, rem) => r' = Ok (a, rem ++ x)
  | Err errNeedMore => True
  | Err e => r' = Err e
  | Panic => r' = Panic
  | Diverge => r' = Diverge
  end.

Lemma read_groups_ext p i m x : ext x (read_groups p i m) (read_groups (p ++ x) i m).
Proof.
  revert i m. induction p as [|b p IH]; intros i m; [done|]. cbn [app read_groups].
  destruct (_ =? 0); [done|]. by destruct (63 <=? _).
Qed.

Lemma read_groups_shorter p i m j rem : read_groups p i m = Ok (j, rem) -> (length rem < length p)%nat.
Proof.
  revert i m. induction p as [|b p IH]; intros i m; [done|]. cbn [read_groups length].
  destruct (_ =? 0); [intros [= _ <-]; lia|]. destruct (63 <=? _); [done|]. intros H%IH. lia.
Qed.

Lemma readVarInt_ext n p x : ext x (readVarInt n p) (readVarInt n (p ++ x)).
Proof.
  unfold readVarInt. destruct (_ || _); [done|]. destruct p as [|b p]; [done|]. cbn [app].
  destruct (_ <? _); [done|]. apply read_groups_ext.
Qed.

Lemma readVarInt_shorter n p i rem : readVarInt n p = Ok (i, rem) -> (length rem < length p)%nat.
Proof.
  unfold readVarInt. destruct (_ || _); [done|]. destruct p as [|b p]; [done|]. cbn [length].
  destruct (_ <? _); [intros [= _ <-]; lia|]. intros H%read_groups_shorter. lia.
Qed.

Lemma slice_prefix {E} (p x : list byte) l : l <= slen p -> slice (E:=E) (p ++ x) 0 l = slice p 0 l.
Proof.
  intros Hl. unfold slice. rewrite slen_app. pose proof (slen_nonneg x).
  destruct (Z.leb_spec l (slen p)), (Z.leb_spec l (slen p + slen x)); try lia.
  destruct ((0 <=? 0) && (0 <=? l)); [|done]. cbn [andb]. f_equal. unfold slen in *. simpl.
  rewrite !drop_0. apply take_app_le. lia.
Qed.

Lemma slice_from_ext {E} (p x : list byte) l :
  l <= slen p ->
  match slice_from (E:=E) p l with
  | Ok rem => slice_from (E:=E) (p ++ x) l = Ok (rem ++ x) /\ (0 <= l /\ slen rem = slen p - l)
  | Panic => slice_from (E:=E) (p ++ x) l = Panic
  | _ => False
  end.
Proof.
  intros Hl. unfold slice_from, slice. rewrite slen_app. pose proof (slen_nonneg x).
  destruct (Z.leb_spec 0 l); [|done].
  destruct (Z.leb_spec l (slen p)), (Z.leb_spec l (slen p + slen x)),
    (Z.leb_spec (slen p) (slen p)), (Z.leb_spec (slen p + slen x) (slen p + slen x)); try lia.
  cbn [andb]. unfold slen in *. split.
  - f_equal. rewrite drop_app_le by lia. rewrite !take_ge; [done| |];
      rewrite ?length_app, length_drop; lia.
  - rewrite length_take, length_drop. lia.
Qed.

Section write.
Context {St : Type}.
Implicit Types d : Decoder St.

Lemma readString_ext d p x w : ext x (readString d p w) (readString d (p ++ x) w).
Proof.
  destruct p as [|b p]; [done|]. cbn [app readString].
  pose proof (readVarInt_ext 7 (b :: p) x) as Hext.
  destruct (readVarInt 7 (b :: p)) as [[l rem]|[]| |]; cbn [ext app mbind res_bind] in *; try (by rewrite Hext); [|done].
  rewrite Hext. cbn [mbind res_bind]. destruct (negb (maxStrLen d =? 0) && _); [done|].
  destruct (Z.ltb_spec (slen rem) l); [done|].
  destruct (Z.ltb_spec (slen (rem ++ x)) l); [rewrite slen_app in *; pose proof (slen_nonneg x); lia|].
  rewrite slice_prefix by lia. pose proof (slice_from_ext (E:=hpack_error) rem x l ltac:(lia)) as Hfrom.
  assert (forall r : res hpack_error (list byte),
    ext x (s ← r; remain ← slice_from rem l; Ok (s, remain))
          (s ← r; remain ← slice_from (rem ++ x) l; Ok (s, remain))) as Hcont.
  { intros [s|[]| |]; cbn [mbind res_bind]; try done.
    destruct (slice_from rem l); try done; cbn [mbind res_bind];
      first [by rewrite (proj1 Hfrom)|by rewrite Hfrom]. }
  destruct (negb _); apply Hcont.
Qed.

Lemma readString_shorter d p w s rem : readString d p w = Ok (s, rem) -> (length rem < length p)%nat.
Proof.
  destruct p as [|b p]; [done|]. cbn [readString].
  destruct (readVarInt 7 (b :: p)) as [[l p']| | |] eqn:Hr; cbn [mbind res_bind]; try done.
  apply readVarInt_shorter in Hr. destruct (negb (maxStrLen d =? 0) && _); [done|].
  destruct (Z.ltb_spec (slen p') l); [done|].
  pose proof (slice_from_ext (E:=hpack_error) p' [] l ltac:(lia)) as Hfrom.
  destruct (negb (negb (Z.land (Z_of_byte b) 128 =? 0)));
    match goal with |- mbind _ ?r = _ -> _ => destruct r as [s'| | |] end; cbn [mbind res_bind]; try done;
    destruct (slice_from p' l) as [r| | |]; cbn [mbind res_bind]; try done;
    intros [= _ <-]; unfold slen in *; lia.
Qed.

(** ** Parsing from a longer buffer *)

Definition extend (x : list byte) d : Decoder St := with_buf d (buf d ++ x).

(** How an outcome from [d] changes when [x] is after its buffer. *)
Definition outcome_ext (x : list byte) d (o o' : outcome St) : Prop :=
  match o with
  | Ok (Some errNeedMore, d') => d' = d
  | Ok (err, d') => o' = Ok (err, extend x d')
  | Err e => False
  | Panic => o' = Panic
  | Diverge => o' = Diverge
  end.

Lemma check_ext {A} x d (r r' : res hpack_error (A * list byte)) k k' :
  ext x r r' -> (forall a rem, outcome_ext x d (k (a, rem)) (k' (a, rem ++ x))) ->
  outcome_ext x d (check r d k) (check r' (extend x d) k').
Proof.
  intros Hr Hk. destruct r as [[a rem]|[]| |]; simpl in *; rewrite ?Hr; done || apply Hk.
Qed.

Lemma check_same {A} x d (r : res hpack_error A) k k' :
  (forall a, outcome_ext x d (k a) (k' a)) ->
  outcome_ext x d (check r d k) (check r (extend x d) k').
Proof. intros Hk. destruct r as [a|[]| |]; simpl; done || apply Hk. Qed.

Lemma evict_no_err {E} dt e : evict (E:=E) dt <> Err e.
Proof.
  unfold evict. destruct (evict_loop _ _ _ _) as [s n]. unfold evictOldest.
  destruct (_ <? _); [done|]. destruct (evict_entries _ _ _ _ _). unfold slice_from, slice.
  destruct (_ && _); [|done]. cbn [mbind res_bind]. by destruct (_ <? _).
Qed.


(** The callback comes last. *)
Lemma callEmit_ext x d d' hf :
  outcome_ext x d (Ok (callEmit d' hf)) (Ok (callEmit (extend x d') hf)).
Proof.
  unfold callEmit. simpl. destruct (negb (maxStrLen d' =? 0) && _); [done|].
  destruct (emitEnabled d'); [|done]. by destruct (emit d' hf _).
Qed.

Lemma parse_value_ext x d it w name b :
  outcome_ext x d (parse_value d it w name b) (parse_value (extend x d) it w name (b ++ x)).
Proof.
  unfold parse_value.
  apply (check_ext x d (readString d b w) (readString d (b ++ x) w)); [apply readString_ext|]. intros value rem.
  assert (forall e, (if indexed it then add (E:=hpack_error) (dynTab d) (mkHeaderField name value false) else Ok (dynTab d)) <> Err e) as Hno
    by (intros e; destruct (indexed it); [apply evict_no_err|done]).
  change (dynTab (with_buf d rem)) with (dynTab d).
  change (dynTab (with_buf (extend x d) (rem ++ x))) with (dynTab d).
  destruct (if indexed it then _ else _) as [dt|e| |]; cbn [check]; [|by destruct (Hno e)|done..].
  apply (callEmit_ext x d (with_dynTab (with_buf d rem) dt)).
Qed.

Lemma parse_ext x d :
  buf d <> [] -> outcome_ext x d (parseHeaderFieldRepr d) (parseHeaderFieldRepr (extend x d)).
Proof.
  intros Hb. destruct (buf d) as [|b rest] eqn:Hbuf; [done|].
  rewrite (parse_dispatch d b rest Hbuf), (parse_dispatch (extend x d) b (rest ++ x)) by (simpl; by rewrite Hbuf).
  assert (forall n it, outcome_ext x d (parseFieldLiteral d n it) (parseFieldLiteral (extend x d) n it)) as Hlit.
  { intros n it. unfold parseFieldLiteral.
    apply (check_ext x d (readVarInt n (buf d)) (readVarInt n (buf d ++ x))); [apply readVarInt_ext|]. intros i rem.
    cbv zeta. change (emitEnabled (extend x d)) with (emitEnabled d). destruct (0 <? i).
    - apply (check_same x d (at_ d i)). intros [g|]; [apply parse_value_ext|done].
    - apply (check_ext x d (readString d rem _) (readString d (rem ++ x) _)); [apply readString_ext|].
      intros name rem'. apply parse_value_ext. }
  destruct (first_byte_kind _) as [|[|[|[|[|k]]]]]; [|apply Hlit..| |done].
  - unfold parseFieldIndexed.
    apply (check_ext x d (readVarInt 7 (buf d)) (readVarInt 7 (buf d ++ x))); [apply readVarInt_ext|]. intros i rem.
    apply (check_same x d (at_ d i)). intros [g|]; [|done]. apply (callEmit_ext x d (with_buf d rem)).
  - unfold parseDynamicTableSizeUpdate.
    apply (check_ext x d (readVarInt 5 (buf d)) (readVarInt 5 (buf d ++ x))); [apply readVarInt_ext|]. intros v rem.
    change (dynTab (extend x d)) with (dynTab d). destruct (_ <? v); [done|].
    by apply (check_same x d (setMaxSize (dynTab d) (uint32 v))).
Qed.

(** ** Progress *)

Lemma check_Ok {A} (r : res hpack_error A) d k d' :
  check r d k = Ok (None, d') -> exists a, r = Ok a /\ k a = Ok (None, d').
Proof. destruct r; simpl; try done. eauto. Qed.

Lemma callEmit_buf d hf : buf (callEmit d hf).2 = buf d /\ saveBuf (callEmit d hf).2 = saveBuf d.
Proof.
  unfold callEmit. destruct (negb (maxStrLen d =? 0) && _); [done|].
  destruct (emitEnabled d); [|done]. by destruct (emit d hf _).
Qed.

Lemma parse_value_shorter d it w name b d' :
  parse_value d it w name b = Ok (None, d') -> (length (buf d') < length b)%nat /\ saveBuf d' = saveBuf d.
Proof.
  unfold parse_value. intros ([value rem] & Hr & H)%check_Ok. apply check_Ok in H as (dt & _ & H).
  apply readString_shorter in Hr. injection H as H.
  pose proof (callEmit_buf (with_dynTab (with_buf d rem) dt) (mkHeaderField name value (sensitive it))) as [Hb Hs].
  rewrite H in Hb, Hs. simpl in Hb, Hs. by rewrite Hb.
Qed.

Lemma parse_shorter d d' :
  parseHeaderFieldRepr d = Ok (None, d') ->
  (length (buf d') < length (buf d))%nat /\ saveBuf d' = saveBuf d.
Proof.
  destruct (buf d) as [|b rest] eqn:Hbuf.
  { unfold parseHeaderFieldRepr. by rewrite Hbuf. }
  rewrite (parse_dispatch d b rest Hbuf), <- Hbuf. clear Hbuf.
  assert (forall n it, parseFieldLiteral d n it = Ok (None, d') ->
    (length (buf d') < length (buf d))%nat /\ saveBuf d' = saveBuf d) as Hlit.
  { intros n it. unfold parseFieldLiteral. intros ([i rem] & Hr%readVarInt_shorter & H)%check_Ok.
    cbv zeta in H. destruct (0 <? i).
    - apply check_Ok in H as ([g|] & _ & H); [|done]. apply parse_value_shorter in H as [? ?]. split; [lia|done].
    - apply check_Ok in H as ([name rem'] & Hs%readString_shorter & H). apply parse_value_shorter in H as [? ?]. split; [lia|done]. }
  destruct (first_byte_kind _) as [|[|[|[|[|k]]]]]; [|apply Hlit..| |done].
  - unfold parseFieldIndexed. intros ([i rem] & Hr%readVarInt_shorter & H)%check_Ok.
    apply check_Ok in H as ([g|] & _ & H); [|done]. injection H as H.
    pose proof (callEmit_buf (with_buf d rem) (mkHeaderField (Name g) (Value g) false)) as [Hb Hs].
    rewrite H in Hb, Hs. simpl in Hb, Hs. by rewrite Hb.
  - unfold parseDynamicTableSizeUpdate. intros ([v rem] & Hr%readVarInt_shorter & H)%check_Ok.
    destruct (_ <? v); [done|]. apply check_Ok in H as (dt & _ & H). by injection H as <-.
Qed.

(** The loop: all the representations of the buffer, or those before the one that ends it. *)
Lemma parse_loop_inv fuel d :
  (length (buf d) <= fuel)%nat ->
  exists d1, steps d d1 /\
    ((buf d1 = [] /\ parse_loop fuel d = Ok (None, d1)) \/
     (buf d1 <> [] /\ parse_loop fuel d = parseHeaderFieldRepr d1 /\
      forall d', parseHeaderFieldRepr d1 <> Ok (None, d'))).
Proof.
  revert d. induction fuel as [|fuel IH]; intros d Hf.
  { exists d. split; [apply rtc_refl|]. left. destruct (buf d) eqn:Hb; [|simpl in Hf; lia].
    cbn [parse_loop]. by rewrite Hb. }
  cbn [parse_loop]. destruct (Z.eqb_spec (slen (buf d)) 0) as [H0|H0].
  { exists d. split; [apply rtc_refl|]. left. split; [|done].
    destruct (buf d); [done|]. rewrite slen_cons in H0. pose proof (slen_nonneg l). lia. }
  assert (buf d <> []) as Hne by (intros He; by rewrite He in H0).
  destruct (parseHeaderFieldRepr d) as [[[e|] d']| | |] eqn:Hp; cbn [mbind res_bind].
  2: { destruct (parse_shorter _ _ Hp) as [Hlt _]. destruct (IH d') as (d1 & Hst & Hd1); [lia|].
       exists d1. split; [|done]. eapply rtc_l; [|done]. by split. }
  all: exists d; split; [apply rtc_refl|]; right; rewrite Hp; done.
Qed.

Lemma parse_loop_end fuel d d1 :
  steps d d1 -> (length (buf d) <= fuel)%nat -> buf d1 <> [] ->
  (forall d', parseHeaderFieldRepr d1 <> Ok (None, d')) ->
  parse_loop fuel d = parseHeaderFieldRepr d1.
Proof.
  intros Hs. revert fuel. induction Hs as [d|d d2 d1 [Hp Hl] _ IH]; intros fuel Hf Hne Hno.
  - destruct fuel; [destruct (buf d); [done|simpl in Hf; lia]|]. cbn [parse_loop].
    destruct (Z.eqb_spec (slen (buf d)) 0) as [H0|H0].
    { destruct (buf d); [done|]. rewrite slen_cons in H0. pose proof (slen_nonneg l). lia. }
    destruct (parseHeaderFieldRepr d) as [[[e|] d']|[]| |] eqn:Hp; cbn [mbind res_bind]; try done. by destruct (Hno d').
  - destruct fuel as [|fuel]; [lia|]. cbn [parse_loop].
    destruct (Z.eqb_spec (slen (buf d)) 0) as [H0|H0]; [unfold slen in H0; lia|].
    rewrite Hp. cbn [mbind res_bind]. apply IH; [lia|done..].
Qed.

Lemma steps_extend x d d' : steps d d' -> steps (extend x d) (extend x d').
Proof.
  induction 1 as [d|d d1 d' [Hp Hl] _ IH]; [apply rtc_refl|]. eapply rtc_l; [|done].
  assert (buf d <> []) as Hne by (destruct (buf d); [simpl in Hl; lia|done]).
  pose proof (parse_ext x d Hne) as He. rewrite Hp in He. split; [done|].
  simpl. rewrite !length_app. lia.
Qed.

(** ** Pieces *)

(** The decoder when the loop of [Write] starts. *)
Definition start d (p : list byte) : Decoder St := with_saveBuf (with_buf d (saveBuf d ++ p)) [].

(** The end of [Write]. *)
Definition finish (p : list byte) (o : outcome St) : res Empty_set (Z * option hpack_error * Decoder St) :=
  '(err, d) ← o;
  match err with
  | Some errNeedMore =>
      if negb (maxStrLen d =? 0) && (int64 (2 * int64 (maxStrLen d + varIntOverhead)) <? slen (buf d))
      then Ok (0, Some ErrStringLength, d)
      else Ok (slen p, None, with_saveBuf d (saveBuf d ++ buf d))
  | err => Ok (slen p, err, d)
  end.

Lemma Write_start d p :
  p <> [] -> Write d p = finish p (parse_loop (length (saveBuf d ++ p)) (start d p)).
Proof.
  intros Hp. unfold Write, finish. destruct (Z.eqb_spec (slen p) 0) as [H0|H0].
  { destruct p; [done|]. rewrite slen_cons in H0. pose proof (slen_nonneg p). lia. }
  destruct (Z.eqb_spec (slen (saveBuf d)) 0) as [Hs|Hs]; [|done].
  assert (saveBuf d = []) as Hsave.
  { destruct (saveBuf d); [done|]. rewrite slen_cons in Hs. pose proof (slen_nonneg l). lia. }
  assert (start d p = with_buf d p) as -> by (unfold start; rewrite Hsave; destruct d; simpl in *; by subst).
  by rewrite Hsave.
Qed.

Lemma steps_saveBuf d d' : steps d d' -> saveBuf d' = saveBuf d.
Proof.
  induction 1 as [|d d1 d' [Hp _] _ IH]; [done|]. rewrite IH. by apply parse_shorter in Hp as [_ Hp].
Qed.

(** Two loops that come to the same decoder end alike. *)
Lemma parse_loop_join f f' d d' d1 :
  steps d d1 -> steps d' d1 -> (length (buf d) <= f)%nat -> (length (buf d') <= f')%nat ->
  parse_loop f d = parse_loop f' d'.
Proof.
  intros Hd Hd' Hf Hf'.
  destruct (parse_loop_inv (length (buf d1)) d1 (le_n _)) as (d2 & Hst & [[Hb _]|(Hb & _ & Hno)]).
  - rewrite (parse_loop_steps d d2 f), (parse_loop_steps d' d2 f'); [done|..]; done || by eapply steps_trans.
  - rewrite (parse_loop_end f d d2), (parse_loop_end f' d' d2); [done|..]; done || by eapply steps_trans.
Qed.

(** The error and the decoder after, without the count. *)
Definition after (r : res Empty_set (Z * option hpack_error * Decoder St)) : outcome St :=
  '(_, err, d) ← r; Ok (err, d).

Lemma after_finish p p' o : after (finish p o) = after (finish p' o).
Proof.
  destruct o as [[[[]|] d]|[]| |]; simpl; try done. by destruct (negb _ && _).
Qed.

Lemma finish_count p o n d : finish p o = Ok (n, None, d) -> n = slen p.
Proof.
  destruct o as [[[[]|] d']|[]| |]; simpl; try done; [|by intros [= <- _]].
  destruct (negb _ && _); [done|by intros [= <- _]].
Qed.

Lemma Write_count d p n d' : Write d p = Ok (n, None, d') -> n = slen p.
Proof.
  destruct p as [|b p]; [by intros [= <- _]|]. rewrite Write_start by done. apply finish_count.
Qed.

Lemma extend_start d p1 p2 : extend p2 (start d p1) = start d (p1 ++ p2).
Proof. unfold extend, start. simpl. by rewrite app_assoc. Qed.

(** The state in which a successful piece leaves the decoder. *)
Lemma Write_reaches d p n d1 x :
  p <> [] -> x <> [] -> Write d p = Ok (n, None, d1) ->
  steps (start d (p ++ x)) (start d1 x).
Proof.
  intros Hp Hx. rewrite Write_start by done. intros Hw.
  assert (length (buf (start d p)) <= length (saveBuf d ++ p))%nat as Hf by done.
  destruct (parse_loop_inv _ _ Hf) as (d2 & Hst & Hend).
  pose proof (steps_saveBuf _ _ Hst) as Hsave. simpl in Hsave.
  apply (steps_extend x) in Hst. rewrite extend_start in Hst.
  destruct Hend as [[Hb Hl]|(Hb & Hl & Hno)]; rewrite Hl in Hw; unfold finish in Hw.
  - injection Hw as _ <-. unfold start at 2. rewrite Hsave.
    unfold extend in Hst. rewrite Hb in Hst. replace (with_saveBuf _ []) with (with_buf d2 ([] ++ x)); [done|].
    destruct d2. simpl in *. by subst.
  - pose proof (parse_ext x d2 Hb) as He.
    destruct (parseHeaderFieldRepr d2) as [[[e|] d']|[]| |] eqn:Hp2; try done; [|by destruct (Hno d')].
    destruct e; try done. cbn [mbind res_bind] in Hw. simpl in He. subst d'.
    destruct (negb _ && _); [done|]. injection Hw as _ <-. rewrite Hsave.
    replace (start _ x) with (extend x d2); [done|]. unfold start, extend. simpl.
    destruct d2. simpl in *. by subst.
Qed.

Lemma steps_length d d' : steps d d' -> slen (buf d') <= slen (buf d).
Proof. induction 1 as [d|d d1 d' [_ Hl] _ IH]; [done|]. unfold slen in *. lia. Qed.

(** A piece without error, then the next. *)
Lemma Write_join_ok d p1 p2 n1 d1 :
  Write d p1 = Ok (n1, None, d1) -> after (Write d (p1 ++ p2)) = after (Write d1 p2).
Proof.
  intros Hw. destruct p1 as [|b p1].
  { injection Hw as _ <-. done. }
  destruct p2 as [|c p2].
  { rewrite app_nil_r, Hw. done. }
  pose proof (Write_reaches d (b :: p1) n1 d1 (c :: p2) ltac:(done) ltac:(done) Hw) as Hst.
  rewrite !Write_start by done. rewrite (after_finish _ (c :: p2)). do 2 f_equal.
  apply (parse_loop_join _ _ _ _ (start d1 (c :: p2))); [done|apply rtc_refl|done..].
Qed.

(** What is saved stays below the limit on saved bytes. *)
Definition saves_little d (n : Z) : Prop :=
  maxStrLen d = 0 \/ n <= int64 (2 * int64 (maxStrLen d + varIntOverhead)).

(** A piece that fails, other than by that limit. *)
Lemma Write_join_err d p1 p2 n1 d1 e :
  Write d p1 = Ok (n1, Some e, d1) -> saves_little d1 (slen (saveBuf d ++ p1)) ->
  exists n, Write d (p1 ++ p2) = Ok (n, Some e, extend p2 d1).
Proof.
  intros Hw Hm. destruct p1 as [|b p1]; [done|]. set (p := b :: p1) in *.
  rewrite Write_start in Hw by done. rewrite Write_start by done.
  assert (length (buf (start d p)) <= length (saveBuf d ++ p))%nat as Hf by done.
  destruct (parse_loop_inv _ _ Hf) as (d2 & Hst & [[Hb Hl]|(Hb & Hl & Hno)]); rewrite Hl in Hw;
    unfold finish in Hw; [done|].
  pose proof (steps_length _ _ Hst) as Hlen.
  apply (steps_extend p2) in Hst. rewrite extend_start in Hst.
  pose proof (parse_ext p2 d2 Hb) as He.
  destruct (parseHeaderFieldRepr d2) as [[[e'|] d']|[]| |] eqn:Hp2; try done.
  cbn [mbind res_bind] in Hw. destruct e'; simpl in He.
  { subst d'. simpl in Hlen. destruct (Z.eqb_spec (maxStrLen d2) 0); [done|]. cbn [negb andb] in Hw.
    destruct (Z.ltb_spec (int64 (2 * int64 (maxStrLen d2 + varIntOverhead))) (slen (buf d2))); [|done].
    injection Hw as _ _ <-. destruct Hm as [Hm|Hm]; [done|]. simpl in *. lia. }
  all: injection Hw as _ <- <-; rewrite (parse_loop_end _ _ _ Hst), He; [eexists; reflexivity|done| |by rewrite He].
  all: unfold extend; simpl; by destruct (buf d2).
Qed.

(** C28: A header block may be written in pieces.  After a piece without error the
    decoder goes on as if one call had been given that piece and the next
    together: the same error or none, the same callbacks, the same decoder after, and
    all bytes counted.  A piece that fails (other than by the limit on
    saved bytes) makes the call with both pieces fail with the same error. *)
Theorem Write_pieces d p1 p2 n1 d1 err :
  Write d p1 = Ok (n1, err, d1) ->
  match err with
  | None =>
      n1 = slen p1 /\ after (Write d (p1 ++ p2)) = after (Write d1 p2) /\
      forall n d2, Write d (p1 ++ p2) = Ok (n, None, d2) -> n = slen (p1 ++ p2)
  | Some e =>
      saves_little d1 (slen (saveBuf d ++ p1)) ->
      exists n, Write d (p1 ++ p2) = Ok (n, Some e, extend p2 d1)
  end.
Proof.
  intros Hw. destruct err as [e|]; [by eapply Write_join_err|].
  split; [by eapply Write_count|]. split; [by eapply Write_join_ok|]. intros n d2. apply Write_count.
Qed.
End write.

(** ** Totality *)

Section total.
Context {St : Type} (maxLen bound : Z) (inv : St -> Prop).
Implicit Types d : Decoder St.

(** The counters of the table are far from wrapping around, and the callback keeps
    [inv] when it gets strings within the limit. *)
Record safe (d : Decoder St) : Prop := {
  safe_evicted : 0 <= evictCount (table (dynTab d));
  safe_added : added (table (dynTab d)) + slen (buf d) < bound;
  safe_max : maxStrLen d = maxLen;
  safe_emit : forall f en env, maxLen = 0 \/ (slen (Name f) <= maxLen /\ slen (Value f) <= maxLen) ->
    inv env -> inv (emit d f (en, env)).2;
  safe_inv : inv (env d);
}.

Definition outcome_safe (o : outcome St) : Prop :=
  match o with
  | Ok (_, d') => safe d'
  | _ => False
  end.

Context (Hmax : 0 <= maxLen < 2 ^ 63) (Hbound : bound <= 2 ^ 62).

(** [evict] does not panic even on a table whose [size] is wrong. *)
Lemma evict_loop_count max l s n :
  let '(_, n') := evict_loop max l s n in n <= n' <= n + slen l.
Proof.
  revert s n. induction l as [|f l IH]; intros s n; simpl; [destruct (_ <? _); unfold slen; simpl; lia|].
  rewrite slen_cons. pose proof (slen_nonneg l). destruct (_ <? _); [|lia].
  specialize (IH (uint32 (s - Size f)) (n + 1)). destruct (evict_loop _ _ _ _). lia.
Qed.

Lemma evict_safe {E} dt :
  0 <= evictCount (table dt) -> added (table dt) < 2 ^ 64 ->
  exists dt', evict (E:=E) dt = Ok dt' /\ 0 <= evictCount (table dt') /\ added (table dt') = added (table dt).
Proof.
  intros He Ha. unfold evict. pose proof (evict_loop_count (maxSize dt) (ents (table dt)) (size dt) 0) as Hn.
  destruct (evict_loop _ _ _ _) as [s n]. unfold evictOldest, added, table_len in *.
  destruct (Z.ltb_spec (slen (ents (table dt))) n); [lia|]. destruct (evict_entries _ _ _ _ _) as [m m'].
  unfold slice_from, slice. rewrite uint64_small by lia.
  zcases; try lia. cbn [andb mbind res_bind]. eexists. split; [done|]. simpl. split; [lia|].
  unfold slen in *. rewrite length_take, length_drop. lia.
Qed.

Lemma at_safe {E} d i : safe d -> 0 <= i < 2 ^ 64 -> exists o, at_ (E:=E) d i = Ok o.
Proof.
  intros [He Ha _ _ _] Hi. unfold at_, maxTableIndex. rewrite staticTable_len. change (uint64 61) with 61.
  pose proof (slen_nonneg (buf d)). pose proof (slen_nonneg (ents (table (dynTab d)))).
  unfold added, table_len in *.
  destruct (Z.eqb_spec i 0); [by eexists|]. destruct (Z.leb_spec i 61).
  - rewrite uint64_small by lia. unfold index. destruct (Z.ltb_spec (i - 1) 0); [lia|].
    destruct (lookup_lt_is_Some_2 (ents staticTable) (Z.to_nat (i - 1))) as [g ->]; [|by eexists].
    change (length (ents staticTable)) with 61%nat. lia.
  - rewrite uint64_small by lia. destruct (Z.ltb_spec (slen (ents (table (dynTab d))) + 61) i); [by eexists|].
    rewrite int64_small by lia. unfold index. destruct (Z.ltb_spec (slen (ents (table (dynTab d))) - (i - 61)) 0); [lia|].
    destruct (lookup_lt_is_Some_2 (ents (table (dynTab d))) (Z.to_nat (slen (ents (table (dynTab d))) - (i - 61))))
      as [g ->]; [|by eexists]. unfold slen in *. lia.
Qed.

(** Readers: no panic, and an index fits in 64 bits. *)
Definition read_safe {A} (P : A -> Prop) (p : list byte) (r : res hpack_error (A * list byte)) : Prop :=
  match r with
  | Ok (a, rem) => P a /\ slen rem < slen p
  | Err _ => True
  | _ => False
  end.

Lemma read_groups_range p i m :
  0 <= i < 2 ^ 64 -> match read_groups p i m with Ok (j, _) => 0 <= j < 2 ^ 64 | Err _ => True | _ => False end.
Proof.
  revert i m. induction p as [|b p IH]; intros i m Hi; [done|]. cbn [read_groups].
  destruct (_ =? 0); [apply uint64_range|]. destruct (63 <=? _); [done|]. apply IH, uint64_range.
Qed.

Lemma readVarInt_safe n p : 1 <= n <= 8 -> read_safe (fun i => 0 <= i < 2 ^ 64) p (readVarInt n p).
Proof.
  intros Hn.
  assert (match readVarInt n p with Ok (j, _) => 0 <= j < 2 ^ 64 | Err _ => True | _ => False end) as H.
  { unfold readVarInt. destruct (Z.ltb_spec n 1), (Z.ltb_spec 8 n); try lia. cbn [orb].
    destruct p as [|b p]; [done|]. pose proof (Z_of_byte_range b).
    destruct (prefix_max_uint64 n Hn) as [-> Hp].
    assert (0 <= (if n <? 8 then Z.land (Z_of_byte b) (prefix_max n) else Z_of_byte b) < 2 ^ 64) as Hb.
    { destruct (n <? 8); [|lia]. split; [apply Z.land_nonneg; lia|].
      unfold prefix_max. rewrite Z.sub_1_r, <- Z.ones_equiv, Z.land_ones by lia.
      pose proof (Z.mod_pos_bound (Z_of_byte b) (2 ^ n)). pose proof (prefix_max_256 n Hn). lia. }
    destruct (_ <? prefix_max n); [exact Hb|]. by apply read_groups_range. }
  destruct (readVarInt n p) as [[i rem]|e| |] eqn:Hr; try done.
  split; [done|]. apply readVarInt_shorter in Hr. unfold slen. lia.
Qed.

Lemma readString_safe d p w : safe d -> read_safe (fun _ => True) p (readString d p w).
Proof.
  intros Hd. pose proof (safe_max _ Hd) as Hm.
  assert (match readString d p w with Ok _ | Err _ => True | _ => False end) as H.
  { destruct p as [|b p]; [done|]. cbn [readString].
    pose proof (readVarInt_safe 7 (b :: p) ltac:(lia)) as Hr.
    destruct (readVarInt 7 (b :: p)) as [[l rem]|e| |]; try done. cbn [mbind res_bind]. destruct Hr as [Hl _].
    destruct (negb (maxStrLen d =? 0) && _); [done|]. destruct (Z.ltb_spec (slen rem) l); [done|].
    assert (exists v, slice (E:=hpack_error) rem 0 l = Ok v) as (v & Hv)
      by (unfold slice; zcases; try lia; by eexists).
    assert (exists rest, slice_from (E:=hpack_error) rem l = Ok rest) as (rest & Hrest)
      by (unfold slice_from, slice; zcases; try lia; by eexists).
    rewrite Hrest, Hm. destruct (negb (negb _)), w; cbn [mbind res_bind]; rewrite ?Hv; try done.
    cbn [mbind res_bind]. pose proof (huffmanDecode_bits maxLen v ltac:(lia)) as Hh.
    by destruct (huffmanDecode maxLen v). }
  destruct (readString d p w) as [[s rem]|e| |] eqn:Hr; try done.
  split; [done|]. apply readString_shorter in Hr. unfold slen. lia.
Qed.

(** *** One representation *)

Lemma check_safe {A} (P : A -> Prop) d p (r : res hpack_error (A * list byte)) k :
  read_safe P p r -> safe d -> (forall a rem, P a -> slen rem < slen p -> outcome_safe (k (a, rem))) ->
  outcome_safe (check r d k).
Proof. intros Hr Hd Hk. destruct r as [[a rem]|e| |]; simpl in *; try done. destruct Hr. by apply Hk. Qed.

(** Less of the buffer left, and at most as many entries more. *)
Lemma safe_step d rem dt :
  safe d -> 0 <= evictCount (table dt) -> added (table dt) + slen rem <= added (table (dynTab d)) + slen (buf d) ->
  safe (with_dynTab (with_buf d rem) dt).
Proof. intros [He Ha Hm Hem Hi] He' Ha'. split; simpl; try done. lia. Qed.

Lemma safe_buf d rem : safe d -> slen rem <= slen (buf d) -> safe (with_buf d rem).
Proof. intros [He Ha Hm Hem Hi] Hl. split; simpl; try done. lia. Qed.

Lemma callEmit_safe d hf : safe d -> outcome_safe (Ok (callEmit d hf)).
Proof.
  intros Hd. destruct (Hd) as [He Ha Hm Hem Hi]. unfold callEmit. rewrite Hm.
  destruct (Z.eqb_spec maxLen 0) as [H0|H0]; cbn [negb andb].
  all: destruct (Z.ltb_spec maxLen (slen (Name hf))), (Z.ltb_spec maxLen (slen (Value hf))); cbn [orb]; try done.
  all: destruct (emitEnabled d); [|done].
  all: pose proof (Hem hf true (env d) ltac:(lia) Hi) as Hi'; destruct (emit d hf _) as [en' env'].
  all: by split.
Qed.

Lemma parse_value_safe d it w name b :
  safe d -> slen b <= slen (buf d) -> outcome_safe (parse_value d it w name b).
Proof.
  intros Hd Hb. unfold parse_value.
  apply (check_safe _ _ _ _ _ (readString_safe d b w Hd) Hd). intros value rem _ Hrem.
  destruct (Hd) as [He Ha Hm Hem Hi]. pose proof (slen_nonneg rem).
  assert (exists dt, (if indexed it then add (E:=hpack_error) (dynTab (with_buf d rem)) (mkHeaderField name value false)
                      else Ok (dynTab (with_buf d rem))) = Ok dt /\
    0 <= evictCount (table dt) /\ added (table dt) <= added (table (dynTab d)) + 1) as (dt & -> & He' & Ha').
  { destruct (indexed it); [|exists (dynTab d); split; [done|lia]].
    destruct (evict_safe (E:=hpack_error) (mkDynamicTable
      (addEntry (table (dynTab d)) (mkHeaderField name value false))
      (uint32 (size (dynTab d) + Size (mkHeaderField name value false))) (maxSize (dynTab d)) (allowedMaxSize (dynTab d))))
      as (dt & Hev & He' & Ha'); simpl.
    - done.
    - unfold added, table_len in *. simpl. rewrite slen_snoc. lia.
    - exists dt. split; [done|]. split; [done|]. rewrite Ha'. simpl.
      unfold added, table_len. simpl. rewrite slen_snoc. lia. }
  cbn [check]. apply callEmit_safe, safe_step; [done..|lia].
Qed.

Lemma parse_safe d : safe d -> buf d <> [] -> outcome_safe (parseHeaderFieldRepr d).
Proof.
  intros Hd Hne. destruct (buf d) as [|b rest] eqn:Hbuf; [done|].
  rewrite (parse_dispatch d b rest Hbuf). clear Hne.
  assert (forall n it, 1 <= n <= 8 -> outcome_safe (parseFieldLiteral d n it)) as Hlit.
  { intros n it Hn. unfold parseFieldLiteral.
    apply (check_safe _ _ _ _ _ (readVarInt_safe n (buf d) Hn) Hd). intros i rem Hi Hrem. cbv zeta.
    destruct (0 <? i).
    - destruct (at_safe (E:=hpack_error) d i Hd Hi) as [[g|] ->]; [|done]. cbn [check].
      apply parse_value_safe; [done|lia].
    - apply (check_safe _ _ _ _ _ (readString_safe d rem _ Hd) Hd). intros name rem' _ Hrem'.
      apply parse_value_safe; [done|lia]. }
  destruct (first_byte_kind _) as [|[|[|[|[|k]]]]]; [|by apply Hlit..| |done].
  - unfold parseFieldIndexed.
    apply (check_safe _ _ _ _ _ (readVarInt_safe 7 (buf d) ltac:(lia)) Hd). intros i rem Hi Hrem.
    destruct (at_safe (E:=hpack_error) d i Hd Hi) as [[g|] ->]; [|done]. cbn [check].
    apply callEmit_safe, safe_buf; [done|lia].
  - unfold parseDynamicTableSizeUpdate.
    apply (check_safe _ _ _ _ _ (readVarInt_safe 5 (buf d) ltac:(lia)) Hd). intros v rem Hv Hrem.
    destruct (_ <? v); [done|]. destruct (Hd) as [He Ha Hm Hem Hi]. pose proof (slen_nonneg (buf d)).
    destruct (evict_safe (E:=hpack_error) (mkDynamicTable (table (dynTab d)) (size (dynTab d)) (uint32 v)
      (allowedMaxSize (dynTab d)))) as (dt & Hev & He' & Ha'); [done|simpl; lia|].
    unfold setMaxSize. rewrite Hev. cbn [check]. simpl in Ha'.
    change (with_buf (with_dynTab d dt) rem) with (with_dynTab (with_buf d rem) dt).
    apply safe_step; [done..|lia].
Qed.

Lemma parse_loop_safe fuel d : safe d -> (length (buf d) <= fuel)%nat -> outcome_safe (parse_loop fuel d).
Proof.
  revert d. induction fuel as [|fuel IH]; intros d Hd Hf; cbn [parse_loop];
    destruct (Z.eqb_spec (slen (buf d)) 0) as [H0|H0]; try done.
  { unfold slen in H0. lia. }
  assert (buf d <> []) as Hne by (intros He; by rewrite He in H0).
  pose proof (parse_safe d Hd Hne) as Hp.
  destruct (parseHeaderFieldRepr d) as [[[e|] d']|e| |] eqn:Hr; try done. cbn [mbind res_bind].
  apply parse_shorter in Hr as [Hlt _]. apply IH; [done|lia].
Qed.

(** Parsing leaves [saveBuf] alone, errors included. *)
Definition keeps d (o : outcome St) : Prop := forall err d', o = Ok (err, d') -> saveBuf d' = saveBuf d.

Lemma check_keeps {A} (r : res hpack_error A) d d0 k :
  saveBuf d0 = saveBuf d -> (forall a, keeps d (k a)) -> keeps d (check r d0 k).
Proof. intros Hs Hk. destruct r as [a|e| |]; simpl; try done. by intros ? ? [= _ <-]. Qed.

Lemma callEmit_keeps d hf : keeps d (Ok (callEmit d hf)).
Proof. intros err d' [= H]. pose proof (callEmit_buf d hf) as [_ Hs]. by rewrite H in Hs. Qed.

Lemma parse_value_keeps d it w name b : keeps d (parse_value d it w name b).
Proof.
  unfold parse_value. apply check_keeps; [done|]. intros [value rem]. apply check_keeps; [done|]. intros dt.
  intros err d' H. exact (callEmit_keeps (with_dynTab (with_buf d rem) dt) _ err d' H).
Qed.

Lemma parse_keeps d : keeps d (parseHeaderFieldRepr d).
Proof.
  destruct (buf d) as [|b rest] eqn:Hbuf; [unfold parseHeaderFieldRepr; by rewrite Hbuf|].
  rewrite (parse_dispatch d b rest Hbuf).
  assert (forall n it, keeps d (parseFieldLiteral d n it)) as Hlit.
  { intros n it. unfold parseFieldLiteral. apply check_keeps; [done|]. intros [i rem]. destruct (0 <? i); (apply check_keeps; [done|]).
    - intros [g|]; [apply parse_value_keeps|]. by intros ? ? [= _ <-].
    - intros [name rem']. apply parse_value_keeps. }
  destruct (first_byte_kind _) as [|[|[|[|[|k]]]]]; [|apply Hlit..| |].
  - unfold parseFieldIndexed. apply check_keeps; [done|]. intros [i rem]. apply check_keeps; [done|]. intros [g|].
    + intros err d' H. exact (callEmit_keeps (with_buf d rem) _ err d' H).
    + by intros ? ? [= _ <-].
  - unfold parseDynamicTableSizeUpdate. apply check_keeps; [done|]. intros [v rem]. destruct (_ <? v).
    + by intros ? ? [= _ <-].
    + apply check_keeps; [done|]. by intros dt ? ? [= _ <-].
  - by intros ? ? [= _ <-].
Qed.

Lemma parse_loop_keeps fuel d : keeps d (parse_loop fuel d).
Proof.
  revert d. induction fuel as [|fuel IH]; intros d; cbn [parse_loop]; destruct (_ =? 0); try done;
    try by intros ? ? [= _ <-].
  pose proof (parse_keeps d) as Hk. destruct (parseHeaderFieldRepr d) as [[[e|] d1]|e| |]; try done.
  intros err d' H. cbn [mbind res_bind] in H. rewrite (IH d1 err d' H). by apply (Hk None).
Qed.

(** A call leaves the decoder ready for the next one, with the same bound: the bytes that are saved
    have not been counted twice. *)
Lemma Write_safe d p :
  safe (with_buf d (saveBuf d ++ p)) ->
  exists n err d', Write d p = Ok (n, err, d') /\ (n = slen p \/ n = 0 /\ err = Some ErrStringLength) /\
    err <> Some errNeedMore /\ safe (with_buf d' (saveBuf d')).
Proof.
  intros Hd. destruct p as [|b p].
  { exists 0, None, d. split; [done|]. split; [by left|]. split; [done|]. by rewrite app_nil_r in Hd. }
  rewrite Write_start by done. set (l := b :: p) in *.
  assert (safe (start d l)) as Hs by (destruct Hd; by split).
  pose proof (parse_loop_safe (length (saveBuf d ++ l)) (start d l) Hs ltac:(done)) as Ho.
  pose proof (parse_loop_keeps (length (saveBuf d ++ l)) (start d l)) as Hsv.
  destruct (parse_loop _ _) as [[err d']|e| |]; try done. simpl in Ho. specialize (Hsv _ _ eq_refl). simpl in Hsv.
  assert (safe (with_buf d' (saveBuf d'))) as Hn.
  { rewrite Hsv. apply safe_buf; [done|]. apply slen_nonneg. }
  assert (safe (with_buf (with_saveBuf d' (saveBuf d' ++ buf d')) (saveBuf d' ++ buf d'))) as Hm.
  { rewrite Hsv. destruct Ho. by split. }
  unfold finish. cbn [mbind res_bind]. destruct err as [[]|]; try (eexists _, _, _; by auto).
  destruct (negb _ && _); eexists _, _, _; split; try done; auto.
Qed.

(** On any input [Write] returns: it neither panics nor runs on.  It counts all the
    bytes, or none when it gives up on a block that it would have to save; the internal
    errNeedMore never gets out; and the callback is only given names and
    values within the limit (so that it keeps any invariant that such fields keep). *)
Theorem Write_total d p :
  safe (with_buf d (saveBuf d ++ p)) ->
  exists n err d', Write d p = Ok (n, err, d') /\ (n = slen p \/ n = 0 /\ err = Some ErrStringLength) /\
    err <> Some errNeedMore /\ inv (env d').
Proof.
  intros Hd. destruct (Write_safe d p Hd) as (n & err & d' & Hw & Hn & He & Hs).
  exists n, err, d'. split; [done|]. split; [done|]. split; [done|]. apply (safe_inv _ Hs).
Qed.
End total.

(** ** Witnesses *)

Definition small_decoder : Decoder (list HeaderField) :=
  mkDecoder (mkDynamicTable init_table 0 4096 4096) collect [] true 16 [] [x82; x40].

(** A field of the static table, and a literal of which the value is still to come. *)
Lemma Write_pieces_witness :
  Write small_decoder [x01; x61] =
    Ok (2, None, mkDecoder (mkDynamicTable init_table 0 4096 4096) collect
                   [entry ":method" "GET"] true 16 [x40; x01; x61] [x40; x01; x61]) /\
  2 = slen [x01; x61] /\
  after (Write small_decoder ([x01; x61] ++ [x01; x62])) =
  after (Write (mkDecoder (mkDynamicTable init_table 0 4096 4096) collect
                   [entry ":method" "GET"] true 16 [x40; x01; x61] [x40; x01; x61]) [x01; x62]) /\
  (forall n d2, Write small_decoder ([x01; x61] ++ [x01; x62]) = Ok (n, None, d2) ->
     n = slen ([x01; x61] ++ [x01; x62])).
Proof.
  split; [vm_compute; reflexivity|].
  apply (Write_pieces small_decoder [x01; x61] [x01; x62] 2
    (mkDecoder (mkDynamicTable init_table 0 4096 4096) collect
                   [entry ":method" "GET"] true 16 [x40; x01; x61] [x40; x01; x61]) None).
  vm_compute. reflexivity.
Defined.

(** Every field that the callback gets is within the limit of 16 bytes. *)
Lemma Write_total_witness :
  exists n err d', Write small_decoder [x8a; xff; xff] = Ok (n, err, d') /\
    (n = slen [x8a; xff; xff] \/ n = 0 /\ err = Some ErrStringLength) /\
    err <> Some errNeedMore /\
    Forall (fun f => slen (Name f) <= 16 /\ slen (Value f) <= 16) (env d').
Proof.
  apply (Write_total 16 (2 ^ 62) (Forall (fun f => slen (Name f) <= 16 /\ slen (Value f) <= 16))); [lia|lia|].
  split; try done.
  intros f en env Hf He. simpl. apply Forall_app. split; [done|]. apply Forall_singleton. lia.
Defined.

(** * The size of what is encoded

    A field takes at most its size by RFC 7541, section 4.1, and the two announcements
    of a table size before it. *)
From stdpp Require Import base list strings.
From S2P Require Import Prelude Hpack HpackTable HpackHuffman HpackHuffmanProps HpackEncoder HpackSync.

(** What is returned is at most [n] bytes longer than [dst]. *)
Definition longer {E} (dst : list byte) (n : Z) (r : res E (list byte)) : Prop :=
  forall b, r = Ok b -> slen b <= slen dst + n.

Lemma longer_bind {E} dst n k (r : res E (list byte)) f :
  longer dst n r -> (forall b, longer b k (f b)) -> longer dst (n + k) (r ≫= f).
Proof.
  intros Hr Hf b Hb. destruct r as [b1| | |]; try done. specialize (Hr b1 eq_refl). specialize (Hf b1 b Hb). lia.
Qed.

Lemma longer_mono {E} dst n k (r : res E (list byte)) : longer dst n r -> n <= k -> longer dst k r.
Proof. intros Hr Hk b Hb. specialize (Hr b Hb). lia. Qed.

Lemma append_groups_longer {E} fuel dst i : longer (E:=E) dst (Z.of_nat fuel + 1) (append_groups fuel dst i).
Proof.
  revert dst i. induction fuel as [|fuel IH]; intros dst i b; cbn [append_groups].
  - destruct (128 <=? i); [done|]. intros [= <-]. rewrite slen_snoc. lia.
  - destruct (128 <=? i); [|intros [= <-]; rewrite slen_snoc; lia].
    intros H%IH. rewrite slen_snoc in H. lia.
Qed.

Lemma appendVarInt_longer {E} dst n i : longer (E:=E) dst 12 (appendVarInt dst n i).
Proof.
  unfold appendVarInt. cbv zeta. destruct (_ <? _).
  - intros b [= <-]. rewrite slen_snoc. lia.
  - intros b H%append_groups_longer. rewrite slen_snoc in H. lia.
Qed.

Lemma or_at_longer {E} dst i v : longer (E:=E) dst 0 (or_at dst i v).
Proof.
  intros b. unfold or_at, index, store. zcases; try done; cbn [mbind res_bind].
  all: destruct (dst !! _); cbn [mbind res_bind]; try done; intros [= <-]; unfold slen; rewrite length_insert; lia.
Qed.

Lemma appendHpackString_longer {E} dst s :
  slen s < 2 ^ 59 -> longer (E:=E) dst (12 + slen s) (appendHpackString dst s).
Proof.
  intros Hs. unfold appendHpackString.
  destruct (AppendHuffmanString_bits (E:=E) [] s) as (v & _ & Hv).
  rewrite (HuffmanEncodeLength_bits v) by done. cbn [mbind res_bind].
  destruct (Z.ltb_spec (slen v) (slen s)).
  - apply longer_bind; [apply appendVarInt_longer|]. intros b. apply (longer_mono _ (slen v + 0)); [|lia].
    destruct (AppendHuffmanString_bits (E:=E) b s) as (v' & Happ & Hv').
    rewrite (encodes_bytes_unique _ _ _ Hv' Hv) in Happ.
    apply longer_bind; [|intros; apply or_at_longer]. rewrite Happ. intros ? [= <-]. rewrite slen_app. lia.
  - apply longer_bind; [apply appendVarInt_longer|]. intros b ? [= <-]. rewrite slen_app. lia.
Qed.

Lemma appendTableSize_longer {E} dst v : longer (E:=E) dst 12 (appendTableSize dst v).
Proof.
  unfold appendTableSize. apply (longer_bind _ 12 0); [apply appendVarInt_longer|]. intros. apply or_at_longer.
Qed.

Lemma write_updates_size {E} e e' : write_updates (E:=E) e = Ok e' -> slen (HpackEncoder.buf e') <= 24.
Proof.
  unfold write_updates. destruct (tableSizeUpdate e); [|intros [= <-]; done].
  assert (longer (E:=E) [] 12 (if minSize e <? maxSize (HpackEncoder.dynTab e) then appendTableSize [] (minSize e) else Ok [])) as Hb.
  { destruct (_ <? _); [apply appendTableSize_longer|]. intros b [= <-]. done. }
  destruct (if minSize e <? _ then _ else _) as [b1| | |]; try done. specialize (Hb b1 eq_refl).
  cbn [mbind res_bind]. pose proof (appendTableSize_longer (E:=E) b1 (maxSize (HpackEncoder.dynTab e))) as H2.
  destruct (appendTableSize b1 _) as [b2| | |]; try done. specialize (H2 b2 eq_refl). intros [= <-].
  change (slen []) with 0 in Hb. cbn [HpackEncoder.buf]. lia.
Qed.

Lemma appendIndexed_longer {E} dst i : longer (E:=E) dst 12 (appendIndexed dst i).
Proof.
  unfold appendIndexed. apply (longer_bind _ 12 0); [apply appendVarInt_longer|]. intros. apply or_at_longer.
Qed.

Lemma appendNewName_longer {E} dst f indexing :
  rfc_size f < 2 ^ 59 -> longer (E:=E) dst (rfc_size f) (appendNewName dst f indexing).
Proof.
  unfold rfc_size. intros Hf. pose proof (slen_nonneg (Name f)). pose proof (slen_nonneg (Value f)).
  unfold appendNewName. set (d1 := dst ++ _). assert (slen d1 = slen dst + 1) as Hd1 by apply slen_snoc.
  intros b Hb.
  enough (slen b <= slen d1 + ((12 + slen (Name f)) + (12 + slen (Value f)))) by lia.
  revert Hb. apply longer_bind; [apply appendHpackString_longer; lia|]. intros. apply appendHpackString_longer. lia.
Qed.

Lemma appendIndexedName_longer {E} dst f i indexing :
  rfc_size f < 2 ^ 59 -> longer (E:=E) dst (rfc_size f) (appendIndexedName dst f i indexing).
Proof.
  unfold rfc_size. intros Hf. pose proof (slen_nonneg (Name f)). pose proof (slen_nonneg (Value f)).
  unfold appendIndexedName. apply (longer_mono _ (12 + (0 + (12 + slen (Value f))))); [|lia].
  apply longer_bind; [apply appendVarInt_longer|]. intros. apply longer_bind; [apply or_at_longer|].
  intros. apply appendHpackString_longer. lia.
Qed.

Lemma write_repr_size {E} e f e' :
  rfc_size f < 2 ^ 59 -> write_repr (E:=E) e f = Ok e' ->
  slen (HpackEncoder.buf e') <= slen (HpackEncoder.buf e) + rfc_size f.
Proof.
  intros Hf. unfold write_repr. destruct (searchTable e f) as [[idx []]| | |]; try done; cbn [mbind res_bind].
  - pose proof (appendIndexed_longer (E:=E) (HpackEncoder.buf e) idx) as Hb.
    destruct (appendIndexed _ _) as [b| | |]; try done. specialize (Hb b eq_refl). intros [= <-].
    cbn [HpackEncoder.buf]. unfold rfc_size. pose proof (slen_nonneg (Name f)). pose proof (slen_nonneg (Value f)). lia.
  - destruct (if shouldIndex e f then _ else _) as [dt| | |]; try done. cbn [mbind res_bind].
    assert (longer (E:=E) (HpackEncoder.buf e) (rfc_size f)
      (if idx =? 0 then appendNewName (HpackEncoder.buf e) f (shouldIndex e f)
       else appendIndexedName (HpackEncoder.buf e) f idx (shouldIndex e f))) as Hb.
    { destruct (idx =? 0); [by apply appendNewName_longer|by apply appendIndexedName_longer]. }
    destruct (if idx =? 0 then _ else _) as [b| | |]; try done. specialize (Hb b eq_refl). by intros [= <-].
Qed.

(** What [run_ops] writes for some fields. *)
Lemma run_ops_size {E} fs e e' out :
  Forall (fun f => rfc_size f < 2 ^ 59) fs -> run_ops (E:=E) e (OpField <$> fs) = Ok (e', out) ->
  slen out <= foldr (fun f n => rfc_size f + 24 + n) 0 fs.
Proof.
  intros Hfs. revert e e' out. induction Hfs as [|f fs Hf Hfs IH]; intros e e' out; cbn [fmap list_fmap run_ops].
  { intros [= _ <-]. done. }
  cbn [run_op]. unfold encode_field.
  destruct (write_updates e) as [e1| | |] eqn:Hu; try done. cbn [mbind res_bind].
  destruct (write_repr e1 f) as [e2| | |] eqn:Hr; try done. cbn [mbind res_bind].
  apply write_updates_size in Hu. apply write_repr_size in Hr; [|done].
  destruct (run_ops e2 _) as [[e3 out3]| | |] eqn:Ho; try done. cbn [mbind res_bind].
  intros [= _ <-]. apply IH in Ho. rewrite slen_app. cbn [foldr]. lia.
Qed.
