(* ===== verification/GoBytes.v ===== *)
(** * The standard library on byte strings

    What the transport's header code uses of Go's standard library, on strings
    as lists of bytes: [strings.HasPrefix] and [HasSuffix], the integer parsing and
    formatting of strconv, and encoding/base64 in its standard alphabet. *)

From stdpp Require Import base list strings.
From Stdlib Require Import ZArith Strings.Byte Lia.
From S2P Require Import Prelude.
Open Scope Z_scope.

(** ** strings *)

Fixpoint has_prefix (s p : list byte) : bool :=
  match p, s with
  | [], _ => true
  | c :: p, d :: s => bool_decide (c = d) && has_prefix s p
  | _ :: _, [] => false
  end.

Definition has_suffix (s p : list byte) : bool := has_prefix (reverse s) (reverse p).

(** ** strconv *)

Inductive num_error : Type := ErrSyntax | ErrRange.

#[export] Instance num_error_eq_dec : EqDecision num_error.
Proof. solve_decision. Defined.

(** The text of a *NumError without the function and the quoted input. *)
Definition num_error_text (e : num_error) : string :=
  match e with ErrSyntax => "invalid syntax" | ErrRange => "value out of range" end.

(** The value of a digit, in any base up to 36. *)
Definition digit_value (c : byte) : option Z :=
  let n := Z_of_byte c in
  if (48 <=? n) && (n <=? 57) then Some (n - 48)
  else if (97 <=? n) && (n <=? 122) then Some (n - 97 + 10)
  else if (65 <=? n) && (n <=? 90) then Some (n - 65 + 10)
  else None.

(** The loop of [ParseUint]: the value so far is at most [maxVal]. *)
Fixpoint parse_digits (base maxVal n : Z) (s : list byte) : res num_error Z :=
  match s with
  | [] => Ok n
  | c :: s =>
      match digit_value c with
      | None => Err ErrSyntax
      | Some d =>
          if base <=? d then Err ErrSyntax
          else if maxVal <? n * base + d then Err ErrRange
          else parse_digits base maxVal (n * base + d) s
      end
  end.

Definition ParseUint (s : list byte) (base bitSize : Z) : res num_error Z :=
  match s with
  | [] => Err ErrSyntax
  | _ => parse_digits base (2 ^ bitSize - 1) 0 s
  end.

(** [ParseInt(s, 10, 64)], and [Atoi]: an optional sign, then digits. *)
Definition ParseInt (s : list byte) : res num_error Z :=
  let '(neg, digits) :=
    match s with
    | c :: s' =>
        if bool_decide (c = "-"%byte) then (true, s')
        else if bool_decide (c = "+"%byte) then (false, s') else (false, s)
    | [] => (false, [])
    end in
  un ← ParseUint digits 10 64;
  if (neg : bool) then if 2 ^ 63 <? un then Err ErrRange else Ok (- un)
  else if 2 ^ 63 <=? un then Err ErrRange else Ok un.

(** Decimal digits of a non-negative integer. *)
Definition dec_digit (n : Z) : byte := byte_of_Z (48 + n).

Fixpoint dec_digits (fuel : nat) (n : Z) : list byte :=
  match fuel with
  | O => []
  | S fuel => (if n <? 10 then [] else dec_digits fuel (n / 10)) ++ [dec_digit (n mod 10)]
  end.

(** [FormatInt(n, 10)]: an [int64] has at most 19 digits. *)
Definition FormatInt (n : Z) : list byte :=
  if n <? 0 then "-"%byte :: dec_digits 19 (- n) else dec_digits 19 n.

(** [fmt.Sprintf("%02X", c)] *)
Definition hex_upper (n : Z) : byte := byte_of_Z (if n <? 10 then 48 + n else 55 + n).
Definition hex2 (c : byte) : list byte := [hex_upper (Z_of_byte c / 16); hex_upper (Z_of_byte c mod 16)].

(** ** encoding/base64 *)

Definition base64_char (n : Z) : byte :=
  byte_of_Z (if n <? 26 then 65 + n else if n <? 52 then 71 + n else if n <? 62 then n - 4
             else if n =? 62 then 43 else 47).

Definition base64_value (c : byte) : option Z :=
  let n := Z_of_byte c in
  if (65 <=? n) && (n <=? 90) then Some (n - 65)
  else if (97 <=? n) && (n <=? 122) then Some (n - 71)
  else if (48 <=? n) && (n <=? 57) then Some (n + 4)
  else if n =? 43 then Some 62
  else if n =? 47 then Some 63 else None.

(** [RawStdEncoding.EncodeToString]: no padding. *)
Fixpoint base64_encode_raw (v : list byte) : list byte :=
  match v with
  | [] => []
  | [a] =>
      let n := Z_of_byte a * 2 ^ 16 in
      [base64_char (n / 2 ^ 18); base64_char (n / 2 ^ 12 mod 64)]
  | [a; b] =>
      let n := Z_of_byte a * 2 ^ 16 + Z_of_byte b * 2 ^ 8 in
      [base64_char (n / 2 ^ 18); base64_char (n / 2 ^ 12 mod 64); base64_char (n / 2 ^ 6 mod 64)]
  | a :: b :: c :: v =>
      let n := Z_of_byte a * 2 ^ 16 + Z_of_byte b * 2 ^ 8 + Z_of_byte c in
      [base64_char (n / 2 ^ 18); base64_char (n / 2 ^ 12 mod 64); base64_char (n / 2 ^ 6 mod 64);
       base64_char (n mod 64)] ++ base64_encode_raw v
  end.

Definition is_pad (c : byte) : bool := bool_decide (c = "="%byte).

(** One quantum: [CorruptInputError] carries the position of the fault. *)
Fixpoint base64_decode (padded : bool) (pos : Z) (s : list byte) : res Z (list byte) :=
  match s with
  | [] => Ok []
  | a :: s =>
      match base64_value a with
      | None => Err pos
      | Some x =>
          match s with
          | [] => Err pos
          | b :: s =>
              match base64_value b with
              | None => Err (pos + 1)
              | Some y =>
                  let one := byte_of_Z ((x * 2 ^ 18 + y * 2 ^ 12) / 2 ^ 16) in
                  match s with
                  | [] => if padded then Err pos else Ok [one]
                  | c :: s =>
                      match base64_value c with
                      | None =>
                          if padded && is_pad c then
                            match s with
                            | [] => Err (pos + 3)
                            | d :: s =>
                                if is_pad d then match s with [] => Ok [one] | _ => Err (pos + 4) end
                                else Err (pos + 2)
                            end
                          else Err (pos + 2)
                      | Some z =>
                          let n := x * 2 ^ 18 + y * 2 ^ 12 + z * 2 ^ 6 in
                          let two := [byte_of_Z (n / 2 ^ 16); byte_of_Z (n / 2 ^ 8)] in
                          match s with
                          | [] => if padded then Err pos else Ok two
                          | d :: s =>
                              match base64_value d with
                              | None =>
                                  if padded && is_pad d
                                  then match s with [] => Ok two | _ => Err (pos + 4) end
                                  else Err (pos + 3)
                              | Some t =>
                                  let n := n + t in
                                  rest ← base64_decode padded (pos + 4) s;
                                  Ok (byte_of_Z (n / 2 ^ 16) :: byte_of_Z (n / 2 ^ 8) :: byte_of_Z n :: rest)
                              end
                          end
                      end
                  end
              end
          end
      end
  end.

(** [StdEncoding.DecodeString] ([padded]) and [RawStdEncoding.DecodeString]: line ends
    are skipped. *)
Definition is_newline (c : byte) : bool := bool_decide (c = x0d) || bool_decide (c = x0a).

Definition DecodeString (padded : bool) (s : list byte) : res Z (list byte) :=
  base64_decode padded 0 (List.filter (fun c => negb (is_newline c)) s).

(** ** Lemmas *)

(** Facts about bytes that hold of each. *)
Definition each_byte : list byte := (fun i => byte_of_Z (Z.of_nat i)) <$> seq 0 256.

Lemma forall_bytes (P : byte -> bool) : forallb P each_byte = true -> forall c, P c = true.
Proof.
  intros H c. rewrite forallb_forall in H. apply H, list_elem_of_In, list_elem_of_fmap.
  pose proof (Z_of_byte_range c). exists (Z.to_nat (Z_of_byte c)).
  rewrite Z2Nat.id by lia. rewrite byte_of_Z_of_byte. split; [done|]. apply elem_of_seq. lia.
Qed.

(** The same about the numbers below [n]. *)
Lemma forall_below (n : Z) (P : Z -> bool) :
  forallb (fun i => P (Z.of_nat i)) (seq 0 (Z.to_nat n)) = true -> forall z, 0 <= z < n -> P z = true.
Proof.
  intros H z Hz. rewrite forallb_forall in H. specialize (H (Z.to_nat z)).
  rewrite in_seq, Z2Nat.id in H by lia. apply H. lia.
Qed.

Lemma dec_digit_value n : 0 <= n < 10 -> digit_value (dec_digit n) = Some n.
Proof.
  intros Hn. pose proof (forall_below 10 (fun n => bool_decide (digit_value (dec_digit n) = Some n)) eq_refl n Hn) as H.
  by apply bool_decide_eq_true in H.
Qed.

Lemma parse_digits_app base maxVal n s1 s2 :
  parse_digits base maxVal n (s1 ++ s2) = (n ← parse_digits base maxVal n s1; parse_digits base maxVal n s2).
Proof.
  revert n. induction s1 as [|c s1 IH]; intros n; [done|]. cbn [app parse_digits].
  destruct (digit_value c); [|done]. destruct (_ <=? _); [done|]. destruct (_ <? _); [done|]. apply IH.
Qed.

Lemma parse_dec_digits fuel n maxVal :
  0 <= n <= maxVal -> n < 10 ^ Z.of_nat fuel -> parse_digits 10 maxVal 0 (dec_digits fuel n) = Ok n.
Proof.
  revert n. induction fuel as [|fuel IH]; intros n Hn Hf; cbn [dec_digits].
  { simpl in Hf. simpl. f_equal. lia. }
  pose proof (Z.mod_pos_bound n 10 ltac:(lia)). pose proof (Z.div_mod n 10 ltac:(lia)) as Hd.
  rewrite parse_digits_app. destruct (Z.ltb_spec n 10).
  - cbn [parse_digits mbind res_bind]. rewrite Z.mod_small, dec_digit_value by lia.
    destruct (Z.leb_spec 10 n); [lia|]. destruct (Z.ltb_spec maxVal (0 * 10 + n)); [lia|]. f_equal. 
  - rewrite Nat2Z.inj_succ, Z.pow_succ_r in Hf by lia. rewrite IH by lia. cbn [parse_digits mbind res_bind].
    rewrite dec_digit_value by lia. destruct (Z.leb_spec 10 (n mod 10)); [lia|].
    destruct (Z.ltb_spec maxVal (n / 10 * 10 + n mod 10)); [lia|]. f_equal. lia.
Qed.

Lemma dec_digits_nonempty fuel n : dec_digits (S fuel) n <> [].
Proof. cbn [dec_digits]. by destruct (if n <? 10 then [] else _). Qed.

Lemma dec_digits_first fuel n :
  0 <= n -> match dec_digits fuel n with c :: _ => c <> "-"%byte /\ c <> "+"%byte | [] => True end.
Proof.
  revert n. induction fuel as [|fuel IH]; intros n Hn; cbn [dec_digits]; [done|].
  assert (forall m, 0 <= m < 10 -> dec_digit m <> "-"%byte /\ dec_digit m <> "+"%byte) as Hdig.
  { intros m Hm. pose proof (dec_digit_value m Hm) as Hv. split; intros Hc; by rewrite Hc in Hv. }
  pose proof (Z.mod_pos_bound n 10 ltac:(lia)).
  destruct (Z.ltb_spec n 10); [by apply Hdig|].
  specialize (IH (n / 10) ltac:(apply Z.div_pos; lia)).
  destruct (dec_digits fuel (n / 10)); [by apply Hdig|done].
Qed.

Lemma ParseInt_FormatInt n : 0 <= n < 2 ^ 63 -> ParseInt (FormatInt n) = Ok n.
Proof.
  intros Hn. unfold ParseInt, FormatInt. destruct (Z.ltb_spec n 0); [lia|].
  pose proof (dec_digits_first 19 n ltac:(lia)) as Hf. pose proof (dec_digits_nonempty 18 n) as Hne.
  pose proof (parse_dec_digits 19 n (2 ^ 64 - 1) ltac:(lia) ltac:(simpl; lia)) as Hp.
  destruct (dec_digits 19 n) as [|c s] eqn:Hd; [done|]. destruct Hf as [Hm Hpl].
  rewrite (bool_decide_eq_false_2 (c = _)) by done. rewrite (bool_decide_eq_false_2 (c = _)) by done.
  unfold ParseUint. rewrite Hp. cbn [mbind res_bind]. destruct (Z.leb_spec (2 ^ 63) n); [lia|done].
Qed.

Lemma hex2_parse c : ParseUint (hex2 c) 16 8 = Ok (Z_of_byte c).
Proof.
  pose proof (forall_bytes (fun c => bool_decide (ParseUint (hex2 c) 16 8 = Ok (Z_of_byte c)))) as H.
  specialize (H ltac:(vm_compute; reflexivity) c). by apply bool_decide_eq_true in H.
Qed.

Lemma base64_char_value n : 0 <= n < 64 -> base64_value (base64_char n) = Some n.
Proof.
  intros Hn. pose proof (forall_below 64 (fun n => bool_decide (base64_value (base64_char n) = Some n)) eq_refl n Hn) as H.
  by apply bool_decide_eq_true in H.
Qed.

Lemma base64_char_line n : 0 <= n < 64 -> is_newline (base64_char n) = false.
Proof.
  intros Hn. pose proof (forall_below 64 (fun n => negb (is_newline (base64_char n))) eq_refl n Hn) as H.
  by apply negb_true_iff in H.
Qed.

(** Bytes from wider integers. *)
Lemma byte_of_Z_mod z r q : z = q * 256 + r -> byte_of_Z z = byte_of_Z r.
Proof.
  intros ->. unfold byte_of_Z. replace (uint8 (q * 256 + r)) with (uint8 r); [done|].
  unfold uint8. rewrite Z.add_comm. change (2 ^ 8) with 256. by rewrite Z_mod_plus_full.
Qed.

Lemma byte_of_Z_is z b : z mod 256 = Z_of_byte b -> byte_of_Z z = b.
Proof.
  intros H. rewrite (byte_of_Z_mod z (z mod 256) (z / 256)) by (pose proof (Z.div_mod z 256); lia).
  rewrite H. apply byte_of_Z_of_byte.
Qed.

(** Three bytes as four groups of six bits, and back. *)
Lemma six_bits n :
  0 <= n < 2 ^ 24 ->
  0 <= n / 2 ^ 18 < 64 /\ 0 <= n / 2 ^ 12 mod 64 < 64 /\ 0 <= n / 2 ^ 6 mod 64 < 64 /\ 0 <= n mod 64 < 64 /\
  n = n / 2 ^ 18 * 2 ^ 18 + (n / 2 ^ 12 mod 64) * 2 ^ 12 + (n / 2 ^ 6 mod 64) * 2 ^ 6 + n mod 64.
Proof. intros. repeat split; Z.to_euclidean_division_equations; lia. Qed.

Lemma three_bytes a b c :
  let n := Z_of_byte a * 2 ^ 16 + Z_of_byte b * 2 ^ 8 + Z_of_byte c in
  0 <= n < 2 ^ 24 /\ byte_of_Z (n / 2 ^ 16) = a /\ byte_of_Z (n / 2 ^ 8) = b /\ byte_of_Z n = c.
Proof.
  pose proof (Z_of_byte_range a). pose proof (Z_of_byte_range b). pose proof (Z_of_byte_range c).
  cbv zeta. split; [lia|]. repeat split; apply byte_of_Z_is; Z.to_euclidean_division_equations; lia.
Qed.

(** A quantum of four characters. *)
Lemma base64_decode_quantum padded pos x y z t s :
  0 <= x < 64 -> 0 <= y < 64 -> 0 <= z < 64 -> 0 <= t < 64 ->
  base64_decode padded pos (base64_char x :: base64_char y :: base64_char z :: base64_char t :: s) =
  (rest ← base64_decode padded (pos + 4) s;
   let n := x * 2 ^ 18 + y * 2 ^ 12 + z * 2 ^ 6 + t in
   Ok (byte_of_Z (n / 2 ^ 16) :: byte_of_Z (n / 2 ^ 8) :: byte_of_Z n :: rest)).
Proof. intros. cbn [base64_decode]. by rewrite !base64_char_value by done. Qed.

(** What is encoded without padding decodes; by the padded decoder only where no
    padding is due. *)
Fixpoint base64_roundtrip (padded : bool) (pos : Z) (v : list byte) {struct v} :
  (padded = true -> slen v mod 3 = 0) -> base64_decode padded pos (base64_encode_raw v) = Ok v.
Proof.
  destruct v as [|a [|b [|c v]]]; intros Hpad; [done|..].
  1,2: assert (padded = false) as -> by (destruct padded; [by specialize (Hpad eq_refl)|done]).
  - destruct (three_bytes a x00 x00) as (Hn & Ha & _). change (Z_of_byte x00) with 0 in *.
    set (n := Z_of_byte a * 2 ^ 16) in *. replace (n + 0 * 2 ^ 8 + 0) with n in * by lia.
    destruct (six_bits n Hn) as (H1 & H2 & H3 & H4 & Hsum). cbn [base64_encode_raw base64_decode]. fold n.
    rewrite !base64_char_value by done. f_equal. f_equal.
    transitivity (byte_of_Z (n / 2 ^ 16)); [|done]. f_equal.
    clear -n. pose proof (Z_of_byte_range a). subst n. Z.to_euclidean_division_equations. lia.
  - destruct (three_bytes a b x00) as (Hn & Ha & Hb & _). change (Z_of_byte x00) with 0 in *.
    set (n := Z_of_byte a * 2 ^ 16 + Z_of_byte b * 2 ^ 8) in *. replace (n + 0) with n in * by lia.
    destruct (six_bits n Hn) as (H1 & H2 & H3 & H4 & Hsum). cbn [base64_encode_raw base64_decode]. fold n.
    rewrite !base64_char_value by done. f_equal.
    assert (n mod 64 = 0) as Hz by (subst n; Z.to_euclidean_division_equations; lia).
    rewrite Hz, Z.add_0_r in Hsum. rewrite <- Hsum. by rewrite Ha, Hb.
  - destruct (three_bytes a b c) as (Hn & Ha & Hb & Hc).
    set (n := Z_of_byte a * 2 ^ 16 + Z_of_byte b * 2 ^ 8 + Z_of_byte c) in *.
    destruct (six_bits n Hn) as (H1 & H2 & H3 & H4 & Hsum). cbn [base64_encode_raw app]. fold n.
    rewrite base64_decode_quantum by done. rewrite base64_roundtrip.
    + cbn [mbind res_bind]. cbv zeta. rewrite <- Hsum. by rewrite Ha, Hb, Hc.
    + intros Hp. specialize (Hpad Hp). rewrite !slen_cons in Hpad.
      replace (1 + (1 + (1 + slen v))) with (slen v + 1 * 3) in Hpad by lia.
      by rewrite Z_mod_plus_full in Hpad.
Qed.

Fixpoint base64_chars (v : list byte) {struct v} :
  Forall (fun c => exists n, 0 <= n < 64 /\ c = base64_char n) (base64_encode_raw v).
Proof.
  destruct v as [|a [|b [|c v]]]; [by constructor|..]; cbn [base64_encode_raw app];
    match goal with |- context [base64_char (?n / 2 ^ 18)] => destruct (six_bits n) as (? & ? & ? & ? & _) end.
  1: pose proof (Z_of_byte_range a); lia.
  2: pose proof (Z_of_byte_range a); pose proof (Z_of_byte_range b); lia.
  3: pose proof (Z_of_byte_range a); pose proof (Z_of_byte_range b); pose proof (Z_of_byte_range c); lia.
  all: repeat (apply Forall_cons; split; [eexists; split; [|reflexivity]; done|]); done || apply base64_chars.
Qed.

Lemma base64_no_newline v :
  List.filter (fun c => negb (is_newline c)) (base64_encode_raw v) = base64_encode_raw v.
Proof.
  induction (base64_chars v) as [|c l (n & Hn & ->) _ IH]; [done|]. cbn [List.filter]. by rewrite base64_char_line, IH.
Qed.

Fixpoint length_base64_raw (v : list byte) {struct v} :
  slen (base64_encode_raw v) mod 4 = 0 -> slen v mod 3 = 0.
Proof.
  destruct v as [|a [|b [|c v]]]; [done|done|done|]. cbn [base64_encode_raw app].
  rewrite !slen_cons. intros H. specialize (length_base64_raw v).
  set (m := slen (base64_encode_raw v)) in *. set (l := slen v) in *. clearbody m l.
  assert (m mod 4 = 0) as Hm by (rewrite <- (Z_mod_plus_full m 1 4), <- H; f_equal; lia).
  rewrite <- (Z_mod_plus_full _ (-1) 3). rewrite <- (length_base64_raw Hm). f_equal. lia.
Qed.

(** The digits of a number that is not negative. *)
Lemma FormatInt_digits n : 0 <= n -> Forall (fun c => exists d, 0 <= d < 10 /\ c = dec_digit d) (FormatInt n).
Proof.
  intros Hn. unfold FormatInt. destruct (Z.ltb_spec n 0); [lia|]. generalize 19%nat as fuel. intros fuel.
  revert n Hn H. induction fuel as [|fuel IH]; intros n Hn H; cbn [dec_digits]; [constructor|].
  apply Forall_app. split; [|apply Forall_singleton; exists (n mod 10); split; [by apply Z.mod_pos_bound|done]].
  destruct (Z.ltb_spec n 10); [constructor|]. apply IH; apply Z.div_pos; lia.
Qed.
