(* ===== verification/H2Errors.v ===== *)
(** * HTTP/2: error codes and errors

    errors.go of golang.org/x/net/http2.  A Go error of the package is a value of
    [http2.error]: errors that only name a fault have a constructor each, those of
    the reader and the writer below are carried as they are. *)

From stdpp Require Import base list strings.
From Stdlib Require Import ZArith Strings.Byte Strings.Ascii Lia.
From S2P Require Import Prelude GoStrings GrpcStatus.
Open Scope Z_scope.

Module http2.
Definition ErrCodeNo : Z := 0.
Definition ErrCodeProtocol : Z := 1.
Definition ErrCodeInternal : Z := 2.
Definition ErrCodeFlowControl : Z := 3.
Definition ErrCodeSettingsTimeout : Z := 4.
Definition ErrCodeStreamClosed : Z := 5.
Definition ErrCodeFrameSize : Z := 6.
Definition ErrCodeRefusedStream : Z := 7.
Definition ErrCodeCancel : Z := 8.
Definition ErrCodeCompression : Z := 9.
Definition ErrCodeConnect : Z := 10.
Definition ErrCodeEnhanceYourCalm : Z := 11.
Definition ErrCodeInadequateSecurity : Z := 12.
Definition ErrCodeHTTP11Required : Z := 13.

(** [errCodeName]: the codes are the indices. *)
Definition errCodeName : list string :=
  ["NO_ERROR"; "PROTOCOL_ERROR"; "INTERNAL_ERROR"; "FLOW_CONTROL_ERROR"; "SETTINGS_TIMEOUT";
   "STREAM_CLOSED"; "FRAME_SIZE_ERROR"; "REFUSED_STREAM"; "CANCEL"; "COMPRESSION_ERROR";
   "CONNECT_ERROR"; "ENHANCE_YOUR_CALM"; "INADEQUATE_SECURITY"; "HTTP_1_1_REQUIRED"].

(** [%x] of an unsigned integer of at most 64 bits. *)
Fixpoint hex_digits (fuel : nat) (n : Z) : string :=
  match fuel with
  | O => ""
  | S fuel => (if n <? 16 then "" else hex_digits fuel (n / 16)) +:+ hex_digit (Z.to_nat (n mod 16))
  end.

Definition ErrCode_String (e : Z) : string :=
  match errCodeName !! Z.to_nat e with
  | Some s => s
  | None => "unknown error code 0x" +:+ hex_digits 16 e
  end.

(** Why a header block was refused: the [Cause] of a [StreamError]. *)
Inductive cause : Type :=
| pseudoHeaderError (name : list byte)
| duplicatePseudoHeaderError (name : list byte)
| headerFieldNameError (name : list byte)
| headerFieldValueError (value : list byte)
| errMixPseudoHeaderTypes
| errPseudoAfterRegular.

#[export] Instance cause_eq_dec : EqDecision cause.
Proof. solve_decision. Defined.

Definition cause_Error (c : cause) : string :=
  match c with
  | pseudoHeaderError e => "invalid pseudo-header " +:+ Quote (string_of e)
  | duplicatePseudoHeaderError e => "duplicate pseudo-header " +:+ Quote (string_of e)
  | headerFieldNameError e => "invalid header field name " +:+ Quote (string_of e)
  | headerFieldValueError e => "invalid header field value " +:+ Quote (string_of e)
  | errMixPseudoHeaderTypes => "mix of request and response pseudo headers"
  | errPseudoAfterRegular => "pseudo header field after regular"
  end.

Inductive error : Type :=
| io (e : go_error)
| ErrFrameTooLarge
| errStreamID
| errDepStreamID
| errPadLength
| errPadBytes
| errors_New (msg : string)
| ConnectionError (Code : Z)
| StreamError (StreamID Code : Z) (Cause : option cause)
| connError (Code : Z) (Reason : string).

#[export] Instance error_eq_dec : EqDecision error.
Proof. solve_decision. Defined.

Definition streamError (id code : Z) : error := StreamError id code None.

(** [Error()] *)
Definition Error (e : error) : string :=
  match e with
  | io e => error_string e
  | ErrFrameTooLarge => "http2: frame too large"
  | errStreamID => "invalid stream ID"
  | errDepStreamID => "invalid dependent stream ID"
  | errPadLength => "pad length too large"
  | errPadBytes => "padding bytes must all be zeros unless AllowIllegalWrites is enabled"
  | errors_New msg => msg
  | ConnectionError c => "connection error: " +:+ ErrCode_String c
  | StreamError id c (Some cause) =>
      "stream error: stream ID " +:+ Itoa id +:+ "; " +:+ ErrCode_String c +:+ "; " +:+ cause_Error cause
  | StreamError id c None => "stream error: stream ID " +:+ Itoa id +:+ "; " +:+ ErrCode_String c
  | connError c reason => "http2: connection error: " +:+ ErrCode_String c +:+ ": " +:+ reason
  end.

(** [terminalReadFrameError] of frame.go: whether no other frame should be read. *)
Definition terminalReadFrameError (err : option error) : bool :=
  match err with
  | Some (StreamError _ _ _) | None => false
  | Some _ => true
  end.
End http2.
