(* ===== verification/GrpcHeaders.v ===== *)
(** * The headers of an RPC

    http_util.go of the gRPC transport: what [processHeaderField] takes from the
    header fields of a stream (content type, status, message, time-out, method and
    the user's metadata), and the encodings of those values: binary headers in base 64,
    time-outs of at most eight digits and a unit, messages with percent escapes.
    The model of the grpc-status-details-bin header's protobuf message, which is
    decoded by reflection, is a parameter. *)

From stdpp Require Import base list strings gmap.
From Stdlib Require Import ZArith Strings.Byte Lia.
From S2P Require Import Prelude GoStrings GrpcStatus Hpack GoBytes H2Errors.
Open Scope Z_scope.

(** ** Error codes of HTTP/2 and of gRPC *)

Definition http2MaxFrameLen : Z := 16384.
Definition http2InitHeaderTableSize : Z := 4096.
Definition http2IOBufSize : Z := 32 * 1024.

(** A lookup in a map whose keys are distinct. *)
Fixpoint conv (tab : list (Z * Z)) (k : Z) : option Z :=
  match tab with
  | [] => None
  | (k', v) :: tab => if k =? k' then Some v else conv tab k
  end.

Definition http2ErrConvTab : list (Z * Z) :=
  [(http2.ErrCodeNo, codes.Internal);
   (http2.ErrCodeProtocol, codes.Internal);
   (http2.ErrCodeInternal, codes.Internal);
   (http2.ErrCodeFlowControl, codes.ResourceExhausted);
   (http2.ErrCodeSettingsTimeout, codes.Internal);
   (http2.ErrCodeStreamClosed, codes.Internal);
   (http2.ErrCodeFrameSize, codes.Internal);
   (http2.ErrCodeRefusedStream, codes.Unavailable);
   (http2.ErrCodeCancel, codes.Canceled);
   (http2.ErrCodeCompression, codes.Internal);
   (http2.ErrCodeConnect, codes.Internal);
   (http2.ErrCodeEnhanceYourCalm, codes.ResourceExhausted);
   (http2.ErrCodeInadequateSecurity, codes.PermissionDenied);
   (http2.ErrCodeHTTP11Required, codes.FailedPrecondition)].

Definition statusCodeConvTab : list (Z * Z) :=
  [(codes.Internal, http2.ErrCodeInternal);
   (codes.Canceled, http2.ErrCodeCancel);
   (codes.Unavailable, http2.ErrCodeRefusedStream);
   (codes.ResourceExhausted, http2.ErrCodeEnhanceYourCalm);
   (codes.PermissionDenied, http2.ErrCodeInadequateSecurity)].

(** ** Names *)

Definition is_name (s : list byte) (name : string) : bool := bool_decide (s = bytes_of name).

Definition isReservedHeader (hdr : list byte) : bool :=
  match hdr with
  | c :: _ => bool_decide (c = ":"%byte)
  | [] => false
  end ||
  existsb (is_name hdr)
    ["content-type"; "grpc-message-type"; "grpc-encoding"; "grpc-message"; "grpc-status";
     "grpc-timeout"; "grpc-status-details-bin"; "te"].

Definition isWhitelistedPseudoHeader (hdr : list byte) : bool := is_name hdr ":authority".

Definition validContentType (t : list byte) : bool :=
  let e := bytes_of "application/grpc" in
  if negb (has_prefix t e) then false
  else match t !! length e with
       | Some c => bool_decide (c = "+"%byte) || bool_decide (c = ";"%byte)
       | None => true
       end.

(** ** Binary headers *)

Definition binHdrSuffix : list byte := bytes_of "-bin".

Definition encodeBinHeader (v : list byte) : list byte := base64_encode_raw v.

Definition decodeBinHeader (v : list byte) : res Z (list byte) :=
  if slen v mod 4 =? 0 then DecodeString true v else DecodeString false v.

Definition encodeMetadataHeader (k v : list byte) : list byte :=
  if has_suffix k binHdrSuffix then encodeBinHeader v else v.

Definition decodeMetadataHeader (k v : list byte) : res Z (list byte) :=
  if has_suffix k binHdrSuffix then decodeBinHeader v else Ok v.

(** ** Time-outs: a [time.Duration] is a number of nanoseconds. *)

Module time.
Definition Nanosecond : Z := 1.
Definition Microsecond : Z := 1000 * Nanosecond.
Definition Millisecond : Z := 1000 * Microsecond.
Definition Second : Z := 1000 * Millisecond.
Definition Minute : Z := 60 * Second.
Definition Hour : Z := 60 * Minute.
End time.

Module timeoutUnit.
Definition hour : byte := "H".
Definition minute : byte := "M".
Definition second : byte := "S".
Definition millisecond : byte := "m".
Definition microsecond : byte := "u".
Definition nanosecond : byte := "n".
End timeoutUnit.

Definition timeoutUnitToDuration (u : byte) : option Z :=
  if bool_decide (u = timeoutUnit.hour) then Some time.Hour
  else if bool_decide (u = timeoutUnit.minute) then Some time.Minute
  else if bool_decide (u = timeoutUnit.second) then Some time.Second
  else if bool_decide (u = timeoutUnit.millisecond) then Some time.Millisecond
  else if bool_decide (u = timeoutUnit.microsecond) then Some time.Microsecond
  else if bool_decide (u = timeoutUnit.nanosecond) then Some time.Nanosecond
  else None.

Definition maxTimeoutValue : Z := 100000000 - 1.

(** Go's division truncates; the quotient's increment could wrap around. *)
Definition div (d r : Z) : Z :=
  if 0 <? Z.rem d r then int64 (Z.quot d r + 1) else Z.quot d r.

Definition encodeTimeout (t : Z) : list byte :=
  if t <=? 0 then bytes_of "0n"
  else if div t time.Nanosecond <=? maxTimeoutValue
  then FormatInt (div t time.Nanosecond) ++ bytes_of "n"
  else if div t time.Microsecond <=? maxTimeoutValue
  then FormatInt (div t time.Microsecond) ++ bytes_of "u"
  else if div t time.Millisecond <=? maxTimeoutValue
  then FormatInt (div t time.Millisecond) ++ bytes_of "m"
  else if div t time.Second <=? maxTimeoutValue
  then FormatInt (div t time.Second) ++ bytes_of "S"
  else if div t time.Minute <=? maxTimeoutValue
  then FormatInt (div t time.Minute) ++ bytes_of "M"
  else FormatInt (div t time.Hour) ++ bytes_of "H".

(** [NumError.Error] *)
Definition NumError_Error (func : string) (num : list byte) (e : num_error) : string :=
  "strconv." +:+ func +:+ ": parsing " +:+ Quote (string_of num) +:+ ": " +:+ num_error_text e.

Definition decodeTimeout (s : list byte) : res string Z :=
  let size := slen s in
  if size <? 2 then Err ("transport: timeout string is too short: " +:+ Quote (string_of s))
  else
    unit ← index s (size - 1);
    match timeoutUnitToDuration unit with
    | None => Err ("transport: timeout unit is not recognized: " +:+ Quote (string_of s))
    | Some d =>
        digits ← slice s 0 (size - 1);
        match ParseInt digits with
        | Ok t => Ok (int64 (d * t))
        | Err e => Err (NumError_Error "ParseInt" digits e)
        | Panic => Panic
        | Diverge => Diverge
        end
    end.

(** ** Messages *)

Definition spaceByte : byte := " ".
Definition tildaByte : byte := "~".
Definition percentByte : byte := "%".

Definition allowed (c : byte) : bool :=
  (Z_of_byte spaceByte <=? Z_of_byte c) && (Z_of_byte c <? Z_of_byte tildaByte) &&
  negb (bool_decide (c = percentByte)).

Fixpoint encodeGrpcMessageUnchecked (msg : list byte) : list byte :=
  match msg with
  | [] => []
  | c :: msg =>
      (if allowed c then [c] else percentByte :: hex2 c) ++ encodeGrpcMessageUnchecked msg
  end.

Definition encodeGrpcMessage (msg : list byte) : list byte :=
  if forallb allowed msg then msg else encodeGrpcMessageUnchecked msg.

(** Two more bytes after a percent sign are parsed as a hexadecimal number; when they
    are none the percent sign stands for itself. *)
Fixpoint decodeGrpcMessageUnchecked (msg : list byte) : list byte :=
  match msg with
  | [] => []
  | c :: rest =>
      match rest with
      | a :: b :: rest' =>
          if bool_decide (c = percentByte) then
            match ParseUint [a; b] 16 8 with
            | Ok parsed => byte_of_Z parsed :: decodeGrpcMessageUnchecked rest'
            | _ => c :: decodeGrpcMessageUnchecked rest
            end
          else c :: decodeGrpcMessageUnchecked rest
      | _ => c :: decodeGrpcMessageUnchecked rest
      end
  end.

(** Whether a percent sign has two more bytes after it. *)
Fixpoint has_escape (msg : list byte) : bool :=
  match msg with
  | c :: ((_ :: _ :: _) as rest) => bool_decide (c = percentByte) || has_escape rest
  | _ => false
  end.

Definition decodeGrpcMessage (msg : list byte) : list byte :=
  if has_escape msg then decodeGrpcMessageUnchecked msg else msg.

(** ** The fields of a header block *)

(** A nil map of metadata is the empty map: the code asks it for its length only. *)
Record decodeState : Type := mkDecodeState {
  encoding : list byte;
  statusGen : option Status;
  rawStatusCode : Z;
  rawStatusMsg : list byte;
  timeoutSet : bool;
  timeout : Z;
  method : list byte;
  mdata : gmap (list byte) (list (list byte));
}.

(** [var state decodeState] *)
Definition decodeState_zero : decodeState := mkDecodeState [] None 0 [] false 0 [] ∅.

Definition set_encoding (d : decodeState) (v : list byte) : decodeState :=
  mkDecodeState v (statusGen d) (rawStatusCode d) (rawStatusMsg d) (timeoutSet d) (timeout d) (method d) (mdata d).
Definition set_statusGen (d : decodeState) (s : Status) : decodeState :=
  mkDecodeState (encoding d) (Some s) (rawStatusCode d) (rawStatusMsg d) (timeoutSet d) (timeout d) (method d)
    (mdata d).
Definition set_rawStatusCode (d : decodeState) (c : Z) : decodeState :=
  mkDecodeState (encoding d) (statusGen d) c (rawStatusMsg d) (timeoutSet d) (timeout d) (method d) (mdata d).
Definition set_rawStatusMsg (d : decodeState) (m : list byte) : decodeState :=
  mkDecodeState (encoding d) (statusGen d) (rawStatusCode d) m (timeoutSet d) (timeout d) (method d) (mdata d).
Definition set_timeout (d : decodeState) (t : Z) : decodeState :=
  mkDecodeState (encoding d) (statusGen d) (rawStatusCode d) (rawStatusMsg d) true t (method d) (mdata d).
Definition set_method (d : decodeState) (m : list byte) : decodeState :=
  mkDecodeState (encoding d) (statusGen d) (rawStatusCode d) (rawStatusMsg d) (timeoutSet d) (timeout d) m (mdata d).
Definition set_mdata (d : decodeState) (m : gmap (list byte) (list (list byte))) : decodeState :=
  mkDecodeState (encoding d) (statusGen d) (rawStatusCode d) (rawStatusMsg d) (timeoutSet d) (timeout d) (method d) m.

(** [status()]: the code is converted to an unsigned integer. *)
Definition decodeState_status (d : decodeState) : Status :=
  match statusGen d with
  | Some s => s
  | None => New (uint32 (rawStatusCode d)) (string_of (rawStatusMsg d))
  end.

(** [base64.CorruptInputError.Error] *)
Definition CorruptInputError_Error (pos : Z) : string := "illegal base64 data at input byte " +:+ Itoa pos.

(** [Atoi] as an [int] of 64 bits. *)
Definition Atoi (s : list byte) : res string Z :=
  match ParseInt s with
  | Ok n => Ok n
  | Err e => Err (NumError_Error "Atoi" s e)
  | Panic => Panic
  | Diverge => Diverge
  end.

(** The outcome of a call whose error the caller wraps in a [StreamError]. *)
Definition wrap {E A} (msg : E -> string) (code : Z) (r : res E A) : res go_error A :=
  match r with
  | Ok a => Ok a
  | Err e => Err (StreamError code (msg e))
  | Panic => Panic
  | Diverge => Diverge
  end.

Section fields.
(** [proto.Unmarshal] of a google.rpc.Status, with the status of its message. *)
Context (unmarshalStatus : list byte -> res string Status).

Definition processHeaderField (d : decodeState) (f : HeaderField) : res go_error decodeState :=
  if is_name (Name f) "content-type" then
    if validContentType (Value f) then Ok d
    else Err (StreamError codes.FailedPrecondition
                ("transport: received the unexpected content-type " +:+ Quote (string_of (Value f))))
  else if is_name (Name f) "grpc-encoding" then Ok (set_encoding d (Value f))
  else if is_name (Name f) "grpc-status" then
    code ← wrap (fun e => "transport: malformed grpc-status: " +:+ e) codes.Internal (Atoi (Value f));
    Ok (set_rawStatusCode d (int32 code))
  else if is_name (Name f) "grpc-message" then Ok (set_rawStatusMsg d (decodeGrpcMessage (Value f)))
  else if is_name (Name f) "grpc-status-details-bin" then
    v ← wrap (fun e => "transport: malformed grpc-status-details-bin: " +:+ CorruptInputError_Error e)
          codes.Internal (decodeBinHeader (Value f));
    s ← wrap (fun e => "transport: malformed grpc-status-details-bin: " +:+ e) codes.Internal (unmarshalStatus v);
    Ok (set_statusGen d s)
  else if is_name (Name f) "grpc-timeout" then
    t ← wrap (fun e => "transport: malformed time-out: " +:+ e) codes.Internal (decodeTimeout (Value f));
    Ok (set_timeout d t)
  else if is_name (Name f) ":path" then Ok (set_method d (Value f))
  else if negb (isReservedHeader (Name f)) || isWhitelistedPseudoHeader (Name f) then
    match decodeMetadataHeader (Name f) (Value f) with
    | Ok v => Ok (set_mdata d (<[Name f := default [] (mdata d !! Name f) ++ [v]]> (mdata d)))
    | Err _ => Ok d
    | Panic => Panic
    | Diverge => Diverge
    end
  else Ok d.

(** The loop over the fields of a header block; the first error ends it. *)
Fixpoint processHeaderFields (d : decodeState) (fs : list HeaderField) : res go_error decodeState :=
  match fs with
  | [] => Ok d
  | f :: fs => d ← processHeaderField d f; processHeaderFields d fs
  end.
End fields.

(** What the server answers a block with such an error with: a RST_STREAM with this
    code, the zero value of the type for the codes that the table lacks. *)
Definition reset_code (e : go_error) : option Z :=
  match e with
  | StreamError c _ => Some (default http2.ErrCodeNo (conv statusCodeConvTab c))
  | _ => None
  end.

(** ** What a server's status writes

    [WriteHeader] and [WriteStatus] of http2_server.go: the fields of the two header
    blocks that answer a call. The order in which Go ranges over a map is any order:
    metadata is the list of its keys in the order of the iteration. *)

Definition md_fields (md : list (list byte * list (list byte))) : list HeaderField :=
  flat_map (fun '(k, vv) =>
    if isReservedHeader k then []
    else map (fun v => mkHeaderField k (encodeMetadataHeader k v) false) vv) md.

Definition field (name : string) (value : list byte) : HeaderField := mkHeaderField (bytes_of name) value false.

Definition header_fields (sendCompress : list byte) (md : list (list byte * list (list byte))) : list HeaderField :=
  [field ":status" (bytes_of "200"); field "content-type" (bytes_of "application/grpc")] ++
  match sendCompress with [] => [] | _ => [field "grpc-encoding" sendCompress] end ++
  md_fields md.

(** The statuses that the service and its server make carry no details. *)
Definition status_fields (headersSent : bool) (st : Status) (trailer : list (list byte * list (list byte)))
  : list HeaderField :=
  (if headersSent then []
   else [field ":status" (bytes_of "200"); field "content-type" (bytes_of "application/grpc")]) ++
  [field "grpc-status" (FormatInt (Status_Code st));
   field "grpc-message" (encodeGrpcMessage (bytes_of (Status_Message st)))] ++
  md_fields trailer.
