(* ===== verification/GrpcHeaderProps.v ===== *)
(** * The headers of an RPC: round trips

    What one side writes in a header the other side reads: messages, time-outs,
    binary metadata, and the status of a call; and user metadata never holds a
    header that the protocol reserves.  Then the round trips as properties of the transport, the status of a
    call carried through HPACK, and the metadata that a block of headers leaves. *)

From stdpp Require Import base list strings gmap.
From Stdlib Require Import ZArith Strings.Byte Lia.
From S2P Require Import Prelude GoStrings GrpcStatus Hpack GoBytes GrpcHeaders.
Open Scope Z_scope.

(** ** Messages *)

Lemma allowed_not_percent c : allowed c = true -> c <> percentByte.
Proof. unfold allowed. intros [_ H]%andb_true_iff ->. by rewrite bool_decide_eq_true_2 in H. Qed.

Lemma hex2_visible c : forallb (fun c => (32 <=? Z_of_byte c) && (Z_of_byte c <? 126)) (hex2 c) = true.
Proof. by destruct c. Qed.

(** What can stand in a header: visible ASCII and spaces. *)
Definition visible (s : list byte) : bool := forallb (fun c => (32 <=? Z_of_byte c) && (Z_of_byte c <? 126)) s.

Lemma encode_visible msg : visible (encodeGrpcMessage msg) = true.
Proof.
  assert (forall c, allowed c = true -> (32 <=? Z_of_byte c) && (Z_of_byte c <? 126) = true) as Hal.
  { by intros c [H _]%andb_true_iff. }
  unfold encodeGrpcMessage. destruct (forallb allowed msg) eqn:Hall.
  - unfold visible. rewrite forallb_forall in *. auto.
  - clear Hall. induction msg as [|c msg IH]; [done|]. cbn [encodeGrpcMessageUnchecked]. unfold visible in *.
    rewrite forallb_app, IH, andb_true_r. destruct (allowed c) eqn:Hc; simpl; [by rewrite Hal|].
    change (forallb (fun c => (32 <=? Z_of_byte c) && (Z_of_byte c <? 126)) (hex2 c) = true). apply hex2_visible.
Qed.

Lemma decode_escape c s : decodeGrpcMessageUnchecked (percentByte :: hex2 c ++ s) = c :: decodeGrpcMessageUnchecked s.
Proof.
  unfold hex2 at 1. cbn [app decodeGrpcMessageUnchecked]. rewrite bool_decide_eq_true_2 by done.
  change [hex_upper (Z_of_byte c / 16); hex_upper (Z_of_byte c mod 16)] with (hex2 c).
  by rewrite hex2_parse, byte_of_Z_of_byte.
Qed.

Lemma decode_other c s : c <> percentByte ->
  decodeGrpcMessageUnchecked (c :: s) = c :: decodeGrpcMessageUnchecked s.
Proof.
  intros Hc. cbn [decodeGrpcMessageUnchecked]. destruct s as [|a [|b s]]; [done..|].
  by rewrite bool_decide_eq_false_2.
Qed.

Lemma decode_encode_unchecked msg : decodeGrpcMessageUnchecked (encodeGrpcMessageUnchecked msg) = msg.
Proof.
  induction msg as [|c msg IH]; [done|]. cbn [encodeGrpcMessageUnchecked].
  destruct (allowed c) eqn:Hc; cbn [app].
  - rewrite decode_other by (by apply allowed_not_percent). by rewrite IH.
  - by rewrite decode_escape, IH.
Qed.

Lemma no_escape msg : forallb allowed msg = true -> has_escape msg = false.
Proof.
  induction msg as [|c msg IH]; [done|]. cbn [forallb]. intros [Hc Hm]%andb_true_iff. cbn [has_escape].
  destruct msg as [|a [|b msg]]; [done..|].
  rewrite bool_decide_eq_false_2 by (by apply allowed_not_percent). by apply IH.
Qed.

Lemma has_escape_cons c s : has_escape s = true -> has_escape (c :: s) = true.
Proof.
  destruct s as [|a [|b [|d s]]]; [done..|]. intros H. cbn [has_escape] in *.
  destruct (bool_decide (c = percentByte)); [done|]. by rewrite H.
Qed.

Lemma encoded_escape msg : forallb allowed msg = false -> has_escape (encodeGrpcMessageUnchecked msg) = true.
Proof.
  induction msg as [|c msg IH]; [done|]. cbn [forallb encodeGrpcMessageUnchecked].
  destruct (allowed c); simpl; intros Hm.
  - by apply has_escape_cons, IH.
  - done.
Qed.

(** Any message survives the grpc-message header, and only visible ASCII is sent. *)
Lemma message_roundtrip msg : decodeGrpcMessage (encodeGrpcMessage msg) = msg.
Proof.
  unfold encodeGrpcMessage, decodeGrpcMessage. destruct (forallb allowed msg) eqn:Hall.
  - by rewrite no_escape.
  - rewrite encoded_escape by done. apply decode_encode_unchecked.
Qed.

(** ** Time-outs *)

(** The quotient is rounded up. *)
Lemma div_up d r : 0 <= d < 2 ^ 63 -> 0 < r -> 0 <= div d r < 2 ^ 63 /\ d <= div d r * r < d + r.
Proof.
  intros Hd Hr. unfold div. rewrite Z.rem_mod_nonneg, Z.quot_div_nonneg by lia.
  pose proof (Z.mod_pos_bound d r Hr). pose proof (Z.div_mod d r ltac:(lia)) as He.
  pose proof (Z.div_pos d r ltac:(lia) Hr). assert (d / r <= d) by (apply Z.div_le_upper_bound; nia).
  destruct (Z.ltb_spec 0 (d mod r)); [|nia].
  assert (d / r + 1 < 2 ^ 63).
  { destruct (Z.eq_dec r 1) as [->|]; [rewrite Z.mod_1_r in *; lia|]. nia. }
  rewrite int64_small by lia. nia.
Qed.

Lemma decode_timeout n u d :
  0 <= n < 2 ^ 63 -> timeoutUnitToDuration u = Some d -> decodeTimeout (FormatInt n ++ [u]) = Ok (int64 (d * n)).
Proof.
  intros Hn Hu. unfold decodeTimeout.
  assert (1 <= slen (FormatInt n)).
  { unfold FormatInt. destruct (Z.ltb_spec n 0); [lia|]. pose proof (dec_digits_nonempty 18 n).
    destruct (dec_digits 19 n); [done|]. rewrite slen_cons. pose proof (slen_nonneg l). lia. }
  rewrite slen_snoc. destruct (Z.ltb_spec (slen (FormatInt n) + 1) 2); [lia|].
  replace (slen (FormatInt n) + 1 - 1) with (slen (FormatInt n)) by lia.
  rewrite index_app. cbn [mbind res_bind]. rewrite Hu.
  pose proof (slice_app (E:=string) [] (FormatInt n) [u]) as Hs. cbn [app] in Hs. rewrite slen_nil, Z.add_0_l in Hs.
  rewrite Hs. cbn [mbind res_bind]. by rewrite ParseInt_FormatInt.
Qed.

(** The longest time-out that can be sent: whole hours. *)
Definition max_timeout : Z := 2562047 * time.Hour.

Lemma hour_value : time.Hour = 3600000000000. Proof. done. Qed.
Lemma minute_value : time.Minute = 60000000000. Proof. done. Qed.
Lemma max_timeout_value : max_timeout = 9223369200000000000. Proof. done. Qed.

(** The unit that is chosen, and how far the number is from its limit. *)
Definition timeout_units : list (Z * byte) :=
  [(time.Nanosecond, timeoutUnit.nanosecond); (time.Microsecond, timeoutUnit.microsecond);
   (time.Millisecond, timeoutUnit.millisecond); (time.Second, timeoutUnit.second);
   (time.Minute, timeoutUnit.minute); (time.Hour, timeoutUnit.hour)].

Lemma encodeTimeout_unit t :
  0 < t < 2 ^ 63 ->
  exists d u, (d, u) ∈ timeout_units /\ encodeTimeout t = FormatInt (div t d) ++ [u] /\
    (d = 1 \/ d * 99999 < t) /\ (d < time.Hour -> div t d <= maxTimeoutValue).
Proof.
  intros Ht. unfold encodeTimeout. destruct (Z.leb_spec t 0); [lia|].
  pose proof (div_up t time.Nanosecond ltac:(lia) ltac:(done)).
  pose proof (div_up t time.Microsecond ltac:(lia) ltac:(done)).
  pose proof (div_up t time.Millisecond ltac:(lia) ltac:(done)).
  pose proof (div_up t time.Second ltac:(lia) ltac:(done)).
  pose proof (div_up t time.Minute ltac:(lia) ltac:(done)).
  unfold maxTimeoutValue, time.Hour, time.Minute, time.Second, time.Millisecond, time.Microsecond, time.Nanosecond in *.
  repeat match goal with |- context [?a <=? ?b] => destruct (Z.leb_spec a b) end;
    eexists _, _; (split; [|split; [reflexivity|lia]]); unfold timeout_units;
    rewrite !elem_of_cons; tauto.
Qed.

Lemma timeout_unit_known d u :
  (d, u) ∈ timeout_units -> timeoutUnitToDuration u = Some d /\ 0 < d /\ (d <= time.Minute \/ d = time.Hour).
Proof.
  unfold timeout_units. rewrite !elem_of_cons, elem_of_nil.
  intros [[= -> ->]|[[= -> ->]|[[= -> ->]|[[= -> ->]|[[= -> ->]|[[= -> ->]|[]]]]]]]; (split; [done|split; [done|]]);
    by (left; done) || right.
Qed.

Lemma timeout_roundtrip_ok t :
  0 < t <= max_timeout ->
  exists t', decodeTimeout (encodeTimeout t) = Ok t' /\ t <= t' /\ (t' = t \/ (t' - t) * 99999 < t).
Proof.
  rewrite max_timeout_value. intros Ht.
  destruct (encodeTimeout_unit t ltac:(lia)) as (d & u & Hu & -> & Hd & Hlim).
  destruct (timeout_unit_known d u Hu) as (Hk & Hpos & Hmax). destruct (div_up t d ltac:(lia) Hpos) as [Hr Hb].
  rewrite (decode_timeout _ _ d) by done. exists (d * div t d).
  rewrite minute_value, hour_value in *. unfold maxTimeoutValue in Hlim.
  assert (d * div t d < 2 ^ 63).
  { destruct Hmax as [Hmax | ->]; [specialize (Hlim ltac:(lia)); nia|].
    assert (div t 3600000000000 <= 2562047) by lia. lia. }
  rewrite int64_small by nia. split; [done|]. split; [lia|].
  destruct Hd as [-> | Hd]; [left; lia|right; nia].
Qed.

(** Above the limit the hours are rounded up past the largest duration. *)
Lemma timeout_overflows t :
  max_timeout < t < 2 ^ 63 -> decodeTimeout (encodeTimeout t) = Ok (max_timeout + time.Hour - 2 ^ 64).
Proof.
  rewrite max_timeout_value. intros Ht.
  destruct (encodeTimeout_unit t ltac:(lia)) as (d & u & Hu & -> & _ & Hlim).
  destruct (timeout_unit_known d u Hu) as (Hk & Hpos & Hmax). destruct (div_up t d ltac:(lia) Hpos) as [Hr Hb].
  rewrite (decode_timeout _ _ d) by done.
  rewrite minute_value, hour_value in *. unfold maxTimeoutValue in Hlim.
  destruct Hmax as [Hmax | ->]; [specialize (Hlim ltac:(lia)); nia|].
  assert (div t 3600000000000 = 2562048) as -> by lia. done.
Qed.

(** ** Binary headers *)

Lemma bin_roundtrip v : decodeBinHeader (encodeBinHeader v) = Ok v.
Proof.
  unfold decodeBinHeader, encodeBinHeader, DecodeString. destruct (Z.eqb_spec (slen (base64_encode_raw v) mod 4) 0).
  - rewrite base64_no_newline. apply base64_roundtrip. intros _. by apply length_base64_raw.
  - rewrite base64_no_newline. by apply base64_roundtrip.
Qed.

Lemma metadata_header_roundtrip k v : decodeMetadataHeader k (encodeMetadataHeader k v) = Ok v.
Proof. unfold decodeMetadataHeader, encodeMetadataHeader. destruct (has_suffix k binHdrSuffix); [apply bin_roundtrip|done]. Qed.

(** The decoder returns. *)
Fixpoint base64_decode_returns (padded : bool) (pos : Z) (s : list byte) {struct s} :
  base64_decode padded pos s <> Panic /\ base64_decode padded pos s <> Diverge.
Proof.
  destruct s as [|a [|b [|c [|d s]]]]; cbn [base64_decode]; try done; repeat case_match; try done.
  all: pose proof (base64_decode_returns padded (pos + 4) s) as [? ?];
    by destruct (base64_decode padded (pos + 4) s).
Qed.

Lemma decodeMetadataHeader_returns k v : decodeMetadataHeader k v <> Panic /\ decodeMetadataHeader k v <> Diverge.
Proof.
  unfold decodeMetadataHeader, decodeBinHeader, DecodeString. repeat case_match; try done; apply base64_decode_returns.
Qed.

(** ** Metadata *)

Definition is_metadata (k : list byte) : bool := negb (isReservedHeader k) || isWhitelistedPseudoHeader k.

(** The values of the fields of a name, in order; those that cannot be decoded are dropped. *)
Definition received (k : list byte) (fs : list HeaderField) : list (list byte) :=
  omap (fun f => if decide (Name f = k)
                 then match decodeMetadataHeader k (Value f) with Ok v => Some v | _ => None end
                 else None) fs.

Lemma is_name_bytes name : is_name (bytes_of name) name = true.
Proof. by apply bool_decide_eq_true. Qed.

Lemma is_name_spec s name : is_name s name = true <-> s = bytes_of name.
Proof. apply bool_decide_eq_true. Qed.

(** The names that [processHeaderField] treats on their own are no metadata. *)
Lemma metadata_name k :
  is_metadata k = true ->
  Forall (fun n => is_name k n = false)
    ["content-type"; "grpc-encoding"; "grpc-status"; "grpc-message"; "grpc-status-details-bin"; "grpc-timeout"; ":path"].
Proof.
  intros Hk. repeat apply Forall_cons_2; try apply Forall_nil_2;
    apply not_true_iff_false; intros ->%is_name_spec; vm_compute in Hk; discriminate.
Qed.

Section processing.
Context (unmarshalStatus : list byte -> res string Status).

Lemma process_metadata d f :
  is_metadata (Name f) = true ->
  processHeaderField unmarshalStatus d f =
  match decodeMetadataHeader (Name f) (Value f) with
  | Ok v => Ok (set_mdata d (<[Name f := default [] (mdata d !! Name f) ++ [v]]> (mdata d)))
  | _ => Ok d
  end.
Proof.
  intros Hk. pose proof (metadata_name _ Hk) as H.
  repeat match goal with H : Forall _ (_ :: _) |- _ => apply Forall_cons_1 in H as [? H] end.
  unfold processHeaderField. do 7 match goal with H : is_name _ _ = false |- _ => rewrite H; clear H end.
  unfold is_metadata in Hk. rewrite Hk. pose proof (decodeMetadataHeader_returns (Name f) (Value f)) as [? ?].
  by destruct (decodeMetadataHeader (Name f) (Value f)).
Qed.

(** The other fields leave the metadata alone. *)
Lemma process_other d f d' :
  is_metadata (Name f) = false -> processHeaderField unmarshalStatus d f = Ok d' -> mdata d' = mdata d.
Proof.
  intros Hk. unfold processHeaderField. unfold is_metadata in Hk. rewrite Hk.
  unfold mbind, res_bind, wrap. repeat case_match; intros H'; simplify_eq; done.
Qed.

Lemma received_cons k f fs : received k (f :: fs) = received k [f] ++ received k fs.
Proof. unfold received. rewrite <- omap_app. done. Qed.

Lemma process_received d f d' k :
  processHeaderField unmarshalStatus d f = Ok d' ->
  mdata d' !! k = if is_metadata k
                  then match received k [f] with [] => mdata d !! k | vs => Some (default [] (mdata d !! k) ++ vs) end
                  else mdata d !! k.
Proof.
  intros H. destruct (is_metadata (Name f)) eqn:Hf.
  - rewrite process_metadata in H by done. unfold received. cbn [omap list_omap].
    destruct (decide (Name f = k)) as [<-|Hne].
    + rewrite Hf. destruct (decodeMetadataHeader (Name f) (Value f)); injection H as <-; try done.
      cbn [mdata set_mdata]. by rewrite lookup_insert_eq.
    + destruct (is_metadata k);
        destruct (decodeMetadataHeader (Name f) (Value f)); injection H as <-; try done;
        cbn [mdata set_mdata]; by rewrite lookup_insert_ne.
  - rewrite (process_other _ _ _ Hf H). destruct (is_metadata k) eqn:Hk; [|done].
    unfold received. cbn [omap list_omap]. by destruct (decide (Name f = k)); [congruence|].
Qed.

Lemma process_fields_received d fs d' k :
  processHeaderFields unmarshalStatus d fs = Ok d' ->
  mdata d' !! k = if is_metadata k
                  then match received k fs with [] => mdata d !! k | vs => Some (default [] (mdata d !! k) ++ vs) end
                  else mdata d !! k.
Proof.
  revert d. induction fs as [|f fs IH]; intros d; cbn [processHeaderFields].
  { intros [= <-]. by destruct (is_metadata k). }
  destruct (processHeaderField unmarshalStatus d f) as [d1| | |] eqn:H1; try done. cbn [mbind res_bind].
  intros H2. rewrite (IH _ H2), (process_received _ _ _ k H1), (received_cons k f fs).
  destruct (is_metadata k); [|done].
  destruct (received k [f]) as [|v vs]; [done|]. simpl.
  destruct (received k fs); [by rewrite app_nil_r|]. by rewrite <- app_assoc.
Qed.
End processing.

(** ** The status of a call *)

(** The values that a map of metadata, in the order of its iteration, has for a key. *)
Definition values (k : list byte) (md : list (list byte * list (list byte))) : list (list byte) :=
  flat_map (fun '(k', vv) => if decide (k' = k) then vv else []) md.

Lemma received_app k fs1 fs2 : received k (fs1 ++ fs2) = received k fs1 ++ received k fs2.
Proof. apply omap_app. Qed.

Lemma received_other k f : Name f <> k -> received k [f] = [].
Proof. intros. unfold received. cbn [omap list_omap]. by rewrite decide_False. Qed.

Lemma received_fields k k' (g : list byte -> list byte) vv :
  k' <> k -> received k (map (fun v => mkHeaderField k' (g v) false) vv) = [].
Proof.
  intros Hne. induction vv as [|v vv IH]; [done|]. cbn [map]. rewrite received_cons, IH. by rewrite received_other.
Qed.

Lemma received_md k md :
  received k (md_fields md) = if isReservedHeader k then [] else values k md.
Proof.
  induction md as [|[k' vv] md IH]; [by destruct (isReservedHeader k)|].
  unfold md_fields, values. cbn [flat_map]. fold (md_fields md). fold (values k md). rewrite received_app, IH.
  destruct (isReservedHeader k') eqn:Hk'.
  { destruct (isReservedHeader k) eqn:Hk; [done|]. rewrite decide_False; [done|]. intros ->. congruence. }
  destruct (decide (k' = k)) as [->|Hne]; [|rewrite received_fields by done; by destruct (isReservedHeader k)].
  rewrite Hk'. f_equal. clear IH. induction vv as [|v vv IHv]; [done|]. cbn [map]. rewrite received_cons, IHv.
  unfold received. cbn [omap list_omap Name Value]. rewrite decide_True by done.
  by rewrite metadata_header_roundtrip.
Qed.

Lemma uint32_int32 c : 0 <= c < 2 ^ 32 -> uint32 (int32 c) = c.
Proof. unfold uint32, int32. intros. Z.to_euclidean_division_equations. lia. Qed.

Section status.
Context (unmarshalStatus : list byte -> res string Status).

(** Blocks of metadata are never refused and change nothing but the metadata. *)
Lemma process_md d md :
  exists m, processHeaderFields unmarshalStatus d (md_fields md) = Ok (set_mdata d m).
Proof.
  assert (Forall (fun f => is_metadata (Name f) = true) (md_fields md)) as Hall.
  { induction md as [|[k vv] md IH]; [constructor|]. unfold md_fields. cbn [flat_map].
    apply Forall_app_2; [|done]. unfold is_metadata. destruct (isReservedHeader k) eqn:Hk; [constructor|].
    apply Forall_forall. intros f Hf. apply list_elem_of_In, in_map_iff in Hf as (v & <- & _). cbn [Name].
    by rewrite Hk. }
  revert d. induction Hall as [|f fs Hf _ IH]; intros d; cbn [processHeaderFields].
  { exists (mdata d). by destruct d. }
  rewrite process_metadata by done.
  destruct (decodeMetadataHeader (Name f) (Value f)); cbn [mbind res_bind]; [|apply IH..].
  match goal with |- context [set_mdata d ?x] => destruct (IH (set_mdata d x)) as (m & ->) end. by exists m.
Qed.

Lemma process_app d fs1 fs2 :
  processHeaderFields unmarshalStatus d (fs1 ++ fs2) =
  (d ← processHeaderFields unmarshalStatus d fs1; processHeaderFields unmarshalStatus d fs2).
Proof.
  revert d. induction fs1 as [|f fs1 IH]; intros d; [done|]. cbn [app processHeaderFields].
  destruct (processHeaderField unmarshalStatus d f); [|done..]. apply IH.
Qed.

(** The two fields of a status. *)
Lemma process_status d st :
  0 <= Status_Code st < 2 ^ 32 ->
  processHeaderFields unmarshalStatus d
    [field "grpc-status" (FormatInt (Status_Code st));
     field "grpc-message" (encodeGrpcMessage (bytes_of (Status_Message st)))] =
  Ok (set_rawStatusMsg (set_rawStatusCode d (int32 (Status_Code st))) (bytes_of (Status_Message st))).
Proof.
  intros Hc. cbn [processHeaderFields]. unfold processHeaderField, field. cbn [Name Value].
  do 10 match goal with |- context [is_name (bytes_of ?a) ?b] =>
    let v := eval vm_compute in (is_name (bytes_of a) b) in change (is_name (bytes_of a) b) with v end; cbv iota.
  unfold Atoi. rewrite ParseInt_FormatInt by lia. cbn [wrap mbind res_bind]. by rewrite message_roundtrip.
Qed.

Lemma status_received headersSent st trailer :
  0 <= Status_Code st < 2 ^ 32 ->
  exists d, processHeaderFields unmarshalStatus decodeState_zero (status_fields headersSent st trailer) = Ok d /\
    decodeState_status d = st /\ timeoutSet d = false /\ encoding d = [] /\
    forall k, default [] (mdata d !! k) = if isReservedHeader k then [] else values k trailer.
Proof.
  intros Hc. unfold status_fields. rewrite process_app.
  assert (processHeaderFields unmarshalStatus decodeState_zero
    (if headersSent then [] else [field ":status" (bytes_of "200"); field "content-type" (bytes_of "application/grpc")])
    = Ok decodeState_zero) as -> by (destruct headersSent; vm_compute; reflexivity).
  cbn [mbind res_bind]. rewrite process_app, process_status by done. cbn [mbind res_bind].
  match goal with |- context [processHeaderFields _ ?d (md_fields trailer)] =>
    destruct (process_md d trailer) as (m & Hm) end.
  rewrite Hm. eexists. split; [done|]. split; [|split; [done|split; [done|]]].
  { unfold decodeState_status.
    cbn [statusGen set_mdata set_rawStatusMsg set_rawStatusCode decodeState_zero rawStatusCode rawStatusMsg]. rewrite uint32_int32 by done. rewrite string_of_bytes_of. by destruct st. }
  intros k. rewrite (process_fields_received _ _ _ _ k Hm). cbn [mdata set_rawStatusMsg set_rawStatusCode decodeState_zero].
  rewrite lookup_empty, received_md. unfold is_metadata.
  destruct (isReservedHeader k); simpl; [by destruct (isWhitelistedPseudoHeader k)|]. by destruct (values k trailer).
Qed.
End status.

(** * Theorems on the transport's headers *)
From S2P Require Import Prelude GoStrings GrpcStatus.
From S2P Require Import Hpack HpackTable HpackEncoder HpackDecoder HpackSync.
From S2P Require Import GoBytes GrpcHeaders.

(** The grpc-message header carries every message: what [encodeGrpcMessage] makes of it has only
    visible ASCII and spaces, [~] excepted, and [decodeGrpcMessage] gives the message back. *)
Theorem grpc_message_roundtrip msg :
  decodeGrpcMessage (encodeGrpcMessage msg) = msg /\
  Forall (fun c => 32 <= Z_of_byte c < 126) (encodeGrpcMessage msg).
Proof.
  split; [apply message_roundtrip|]. pose proof (encode_visible msg) as H. unfold visible in H.
  rewrite forallb_forall in H. apply Forall_forall. intros c Hc%list_elem_of_In. specialize (H c Hc). lia.
Qed.

(** Time-outs: a positive time-out of at most 2562047 hours is read as one that is not shorter, and
    longer by less than a part in 99999; one that is not positive is read as 0.  Above
    that the number of hours is rounded up past the largest duration, and the server reads a
    negative time-out, which has passed before the call begins. *)
Theorem timeout_roundtrip t :
  - 2 ^ 63 <= t < 2 ^ 63 ->
  (t <= 0 -> decodeTimeout (encodeTimeout t) = Ok 0) /\
  (0 < t <= 2562047 * time.Hour ->
   exists t', decodeTimeout (encodeTimeout t) = Ok t' /\ t <= t' /\ (t' = t \/ (t' - t) * 99999 < t)) /\
  (2562047 * time.Hour < t -> exists t', decodeTimeout (encodeTimeout t) = Ok t' /\ t' < 0).
Proof.
  intros Ht. split; [|split].
  - intros H. unfold encodeTimeout. destruct (Z.leb_spec t 0); [|lia]. by vm_compute.
  - intros H. by apply timeout_roundtrip_ok.
  - intros H. rewrite timeout_overflows by (unfold max_timeout; lia). by eexists.
Qed.

Lemma timeout_roundtrip_witness :
  exists t', decodeTimeout (encodeTimeout (2 ^ 63 - 1)) = Ok t' /\ t' < 0.
Proof. apply (timeout_roundtrip (2 ^ 63 - 1)); [split; [discriminate|done]|done]. Defined.

(** What a block of headers leaves in the metadata: for each name, the values that the fields of that
    name decode to, in their order, those that cannot be decoded dropped; for a name that
    the protocol reserves, [:authority] excepted, nothing. *)
Theorem metadata_received unmarshalStatus fs d k :
  processHeaderFields unmarshalStatus decodeState_zero fs = Ok d ->
  mdata d !! k =
  if isReservedHeader k && negb (isWhitelistedPseudoHeader k) then None
  else match received k fs with [] => None | vs => Some vs end.
Proof.
  intros H. rewrite (process_fields_received _ _ _ _ k H). cbn [mdata decodeState_zero]. rewrite lookup_empty.
  unfold is_metadata. by destruct (isReservedHeader k), (isWhitelistedPseudoHeader k); simpl; destruct (received k fs).
Qed.

Definition a_block : list HeaderField :=
  [field ":path" (bytes_of "/v1beta1.DevicePlugin/Allocate"); field ":authority" (bytes_of "localhost");
   field "x" (bytes_of "1"); field "k-bin" (bytes_of "AP8"); field "x" (bytes_of "2"); field "k-bin" (bytes_of "?")].

Lemma metadata_received_witness :
  exists d, processHeaderFields (fun _ => Err "") decodeState_zero a_block = Ok d /\
    mdata d !! bytes_of "k-bin" = Some [[x00; xff]].
Proof.
  eexists. split; [vm_compute; reflexivity|].
  etransitivity; [eapply (metadata_received (fun _ => Err "") a_block); vm_compute; reflexivity|].
  vm_compute. reflexivity.
Defined.
