(* ===== verification/H2Frame.v ===== *)
(** * HTTP/2 frames

    frame.go of golang.org/x/net/http2 without the reading loop: frame types, flags
    and headers, the frames, the parser of each kind of payload, and the writing half of
    the [Framer].  A [uint32] is a [Z]; a slice of the read buffer is its bytes,
    guarded by [valid] as in the code. *)

From stdpp Require Import base list strings.
From Stdlib Require Import ZArith Strings.Byte Lia.
From S2P Require Import Prelude GoStrings GrpcStatus Hpack H2Errors.
Open Scope Z_scope.

Definition frameHeaderLen : Z := 9.
Definition minMaxFrameSize : Z := Z.shiftl 1 14.
Definition maxFrameSize : Z := Z.shiftl 1 24 - 1.
Definition padZeros : list byte := replicate 255 x00.

(** ** Types, flags and headers *)

Definition FrameData : Z := 0.
Definition FrameHeaders : Z := 1.
Definition FramePriority : Z := 2.
Definition FrameRSTStream : Z := 3.
Definition FrameSettings : Z := 4.
Definition FramePushPromise : Z := 5.
Definition FramePing : Z := 6.
Definition FrameGoAway : Z := 7.
Definition FrameWindowUpdate : Z := 8.
Definition FrameContinuation : Z := 9.

(** The type of a frame is its index. *)
Definition frameName : list string :=
  ["DATA"; "HEADERS"; "PRIORITY"; "RST_STREAM"; "SETTINGS"; "PUSH_PROMISE"; "PING"; "GOAWAY";
   "WINDOW_UPDATE"; "CONTINUATION"].

Definition FrameType_String (t : Z) : string :=
  match frameName !! Z.to_nat t with
  | Some s => s
  | None => "UNKNOWN_FRAME_TYPE_" +:+ Itoa t
  end.

(** [f.Has(v)] *)
Definition Has (f v : Z) : bool := Z.land f v =? v.

Definition FlagDataEndStream : Z := 1.
Definition FlagDataPadded : Z := 8.
Definition FlagHeadersEndStream : Z := 1.
Definition FlagHeadersEndHeaders : Z := 4.
Definition FlagHeadersPadded : Z := 8.
Definition FlagHeadersPriority : Z := 32.
Definition FlagSettingsAck : Z := 1.
Definition FlagPingAck : Z := 1.
Definition FlagContinuationEndHeaders : Z := 4.
Definition FlagPushPromiseEndHeaders : Z := 4.
Definition FlagPushPromisePadded : Z := 8.

Record FrameHeader : Type := mkFrameHeader {
  valid : bool;
  Type_ : Z;
  Flags : Z;
  Length : Z;
  StreamID : Z;
}.

#[export] Instance FrameHeader_eq_dec : EqDecision FrameHeader.
Proof. solve_decision. Defined.

Definition checkValid {E} (h : FrameHeader) : res E unit := if valid h then Ok tt else Panic.

Definition invalidate_header (h : FrameHeader) : FrameHeader :=
  mkFrameHeader false (Type_ h) (Flags h) (Length h) (StreamID h).

(** ** Frames *)

Record PriorityParam : Type := mkPriorityParam {
  StreamDep : Z;
  Exclusive : bool;
  Weight : Z;
}.

#[export] Instance PriorityParam_eq_dec : EqDecision PriorityParam.
Proof. solve_decision. Defined.

Definition noPriority : PriorityParam := mkPriorityParam 0 false 0.
Definition IsZero (p : PriorityParam) : bool := bool_decide (p = noPriority).

Inductive Frame : Type :=
| DataFrame (h : FrameHeader) (data : list byte)
| HeadersFrame (h : FrameHeader) (Priority : PriorityParam) (headerFragBuf : list byte)
| PriorityFrame (h : FrameHeader) (Priority : PriorityParam)
| RSTStreamFrame (h : FrameHeader) (ErrCode : Z)
| SettingsFrame (h : FrameHeader) (p : list byte)
| PushPromiseFrame (h : FrameHeader) (PromiseID : Z) (headerFragBuf : list byte)
| PingFrame (h : FrameHeader) (Data : list byte)
| GoAwayFrame (h : FrameHeader) (LastStreamID ErrCode : Z) (debugData : list byte)
| WindowUpdateFrame (h : FrameHeader) (Increment : Z)
| ContinuationFrame (h : FrameHeader) (headerFragBuf : list byte)
| UnknownFrame (h : FrameHeader) (p : list byte)
| MetaHeadersFrame (h : FrameHeader) (Priority : PriorityParam) (Fields : list HeaderField) (Truncated : bool).

#[export] Instance Frame_eq_dec : EqDecision Frame.
Proof. solve_decision. Defined.

Definition Header (f : Frame) : FrameHeader :=
  match f with
  | DataFrame h _ | HeadersFrame h _ _ | PriorityFrame h _ | RSTStreamFrame h _ | SettingsFrame h _
  | PushPromiseFrame h _ _ | PingFrame h _ | GoAwayFrame h _ _ _ | WindowUpdateFrame h _
  | ContinuationFrame h _ | UnknownFrame h _ | MetaHeadersFrame h _ _ _ => h
  end.

Definition invalidate (f : Frame) : Frame :=
  match f with
  | DataFrame h d => DataFrame (invalidate_header h) d
  | HeadersFrame h p b => HeadersFrame (invalidate_header h) p b
  | PriorityFrame h p => PriorityFrame (invalidate_header h) p
  | RSTStreamFrame h c => RSTStreamFrame (invalidate_header h) c
  | SettingsFrame h p => SettingsFrame (invalidate_header h) p
  | PushPromiseFrame h i b => PushPromiseFrame (invalidate_header h) i b
  | PingFrame h d => PingFrame (invalidate_header h) d
  | GoAwayFrame h l c d => GoAwayFrame (invalidate_header h) l c d
  | WindowUpdateFrame h i => WindowUpdateFrame (invalidate_header h) i
  | ContinuationFrame h b => ContinuationFrame (invalidate_header h) b
  | UnknownFrame h p => UnknownFrame (invalidate_header h) p
  | MetaHeadersFrame h p fs t => MetaHeadersFrame (invalidate_header h) p fs t
  end.

(** ** Accessors *)

(** [StreamEnded] of data and header frames. *)
Definition StreamEnded (f : Frame) : bool := Has (Flags (Header f)) FlagDataEndStream.
(** [HeadersEnded] of the frames with a fragment of a header block. *)
Definition HeadersEnded (f : Frame) : bool := Has (Flags (Header f)) FlagHeadersEndHeaders.
Definition HasPriority (f : Frame) : bool := Has (Flags (Header f)) FlagHeadersPriority.
(** [IsAck] of settings and pings. *)
Definition IsAck (f : Frame) : bool := Has (Flags (Header f)) FlagSettingsAck.

(** The octets of a frame, by [Data], [HeaderBlockFragment], [DebugData] or [Payload]. *)
Definition octets {E} (f : Frame) : res E (list byte) :=
  _ ← checkValid (Header f);
  Ok match f with
     | DataFrame _ b | HeadersFrame _ _ b | PushPromiseFrame _ _ b | GoAwayFrame _ _ _ b
     | ContinuationFrame _ b | UnknownFrame _ b => b
     | _ => []
     end.

(** ** Integers on the wire *)

Definition be16 (a b : byte) : Z := Z.lor (Z.shiftl (Z_of_byte a) 8) (Z_of_byte b).
Definition be32 (a b c d : byte) : Z :=
  Z.lor (Z.lor (Z.lor (Z.shiftl (Z_of_byte a) 24) (Z.shiftl (Z_of_byte b) 16)) (Z.shiftl (Z_of_byte c) 8))
    (Z_of_byte d).

(** [binary.BigEndian.Uint32] *)
Definition BigEndian_Uint32 {E} (p : list byte) : res E Z :=
  match p with
  | a :: b :: c :: d :: _ => Ok (be32 a b c d)
  | _ => Panic
  end.

Definition uint16_bytes (v : Z) : list byte := [byte_of_Z (Z.shiftr v 8); byte_of_Z v].
Definition uint32_bytes (v : Z) : list byte :=
  [byte_of_Z (Z.shiftr v 24); byte_of_Z (Z.shiftr v 16); byte_of_Z (Z.shiftr v 8); byte_of_Z v].

Definition readByte (p : list byte) : res http2.error (list byte * Z) :=
  match p with
  | [] => Err (http2.io UnexpectedEOF)
  | b :: p => Ok (p, Z_of_byte b)
  end.

Definition readUint32 (p : list byte) : res http2.error (list byte * Z) :=
  match p with
  | a :: b :: c :: d :: p => Ok (p, be32 a b c d)
  | _ => Err (http2.io UnexpectedEOF)
  end.

Definition mask31 : Z := Z.shiftl 1 31 - 1.

(** ** Settings *)

Record Setting : Type := mkSetting { Setting_ID : Z; Setting_Val : Z }.

#[export] Instance Setting_eq_dec : EqDecision Setting.
Proof. solve_decision. Defined.

Definition SettingHeaderTableSize : Z := 1.
Definition SettingEnablePush : Z := 2.
Definition SettingMaxConcurrentStreams : Z := 3.
Definition SettingInitialWindowSize : Z := 4.
Definition SettingMaxFrameSize : Z := 5.
Definition SettingMaxHeaderListSize : Z := 6.

Definition Setting_Valid (s : Setting) : option http2.error :=
  if Setting_ID s =? SettingEnablePush then
    if negb (Setting_Val s =? 1) && negb (Setting_Val s =? 0)
    then Some (http2.ConnectionError http2.ErrCodeProtocol) else None
  else if Setting_ID s =? SettingInitialWindowSize then
    if mask31 <? Setting_Val s then Some (http2.ConnectionError http2.ErrCodeFlowControl) else None
  else if Setting_ID s =? SettingMaxFrameSize then
    if (Setting_Val s <? 16384) || (maxFrameSize <? Setting_Val s)
    then Some (http2.ConnectionError http2.ErrCodeProtocol) else None
  else None.

(** The loop of [Value] on the payload. *)
Fixpoint find_setting {E} (buf : list byte) (s : Z) : res E (option Z) :=
  match buf with
  | [] => Ok None
  | a :: b :: c :: d :: e :: f :: buf =>
      if be16 a b =? s then Ok (Some (be32 c d e f)) else find_setting buf s
  | _ => Panic
  end.

Definition SettingsFrame_Value {E} (h : FrameHeader) (p : list byte) (s : Z) : res E (option Z) :=
  _ ← checkValid h; find_setting p s.

(** The loop of [ForeachSetting], with a callback on a state of its own. *)
Fixpoint each_setting {A} (buf : list byte) (fn : Setting -> A -> res http2.error A) (x : A) : res http2.error A :=
  match buf with
  | [] => Ok x
  | a :: b :: c :: d :: e :: f :: buf =>
      x ← fn (mkSetting (be16 a b) (be32 c d e f)) x; each_setting buf fn x
  | _ => Panic
  end.

Definition ForeachSetting {A} (h : FrameHeader) (p : list byte) (fn : Setting -> A -> res http2.error A) (x : A)
  : res http2.error A :=
  _ ← checkValid h; each_setting p fn x.

(** ** Parsers *)

Definition connection_error {A} (code : Z) : res http2.error A := Err (http2.ConnectionError code).

(** [p[:len(p)-int(padLength)]] *)
Definition strip {E} (p : list byte) (padLength : Z) : res E (list byte) := slice p 0 (slen p - padLength).

Definition parseDataFrame (fh : FrameHeader) (payload : list byte) : res http2.error Frame :=
  if StreamID fh =? 0 then Err (http2.connError http2.ErrCodeProtocol "DATA frame with stream ID 0") else
  '(payload, padSize) ← (if Has (Flags fh) FlagDataPadded then readByte payload else Ok (payload, 0));
  if slen payload <? padSize
  then Err (http2.connError http2.ErrCodeProtocol "pad size larger than data payload") else
  data ← strip payload padSize;
  Ok (DataFrame fh data).

Definition parseSettingsFrame (fh : FrameHeader) (p : list byte) : res http2.error Frame :=
  if Has (Flags fh) FlagSettingsAck && (0 <? Length fh) then connection_error http2.ErrCodeFrameSize else
  if negb (StreamID fh =? 0) then connection_error http2.ErrCodeProtocol else
  if negb (slen p mod 6 =? 0) then connection_error http2.ErrCodeFrameSize else
  v ← SettingsFrame_Value fh p SettingInitialWindowSize;
  match v with
  | Some v => if mask31 <? v then connection_error http2.ErrCodeFlowControl else Ok (SettingsFrame fh p)
  | None => Ok (SettingsFrame fh p)
  end.

Definition parsePingFrame (fh : FrameHeader) (payload : list byte) : res http2.error Frame :=
  if negb (slen payload =? 8) then connection_error http2.ErrCodeFrameSize else
  if negb (StreamID fh =? 0) then connection_error http2.ErrCodeProtocol else
  Ok (PingFrame fh payload).

Definition parseGoAwayFrame (fh : FrameHeader) (p : list byte) : res http2.error Frame :=
  if negb (StreamID fh =? 0) then connection_error http2.ErrCodeProtocol else
  if slen p <? 8 then connection_error http2.ErrCodeFrameSize else
  last ← (p ← slice p 0 4; BigEndian_Uint32 p);
  code ← (p ← slice p 4 8; BigEndian_Uint32 p);
  debug ← slice_from p 8;
  Ok (GoAwayFrame fh (Z.land last mask31) code debug).

Definition parseUnknownFrame (fh : FrameHeader) (p : list byte) : res http2.error Frame := Ok (UnknownFrame fh p).

Definition parseWindowUpdateFrame (fh : FrameHeader) (p : list byte) : res http2.error Frame :=
  if negb (slen p =? 4) then connection_error http2.ErrCodeFrameSize else
  v ← (p ← slice p 0 4; BigEndian_Uint32 p);
  let inc := Z.land v mask31 in
  if inc =? 0 then
    if StreamID fh =? 0 then connection_error http2.ErrCodeProtocol
    else Err (http2.streamError (StreamID fh) http2.ErrCodeProtocol)
  else Ok (WindowUpdateFrame fh inc).

Definition parseHeadersFrame (fh : FrameHeader) (p : list byte) : res http2.error Frame :=
  if StreamID fh =? 0 then Err (http2.connError http2.ErrCodeProtocol "HEADERS frame with stream ID 0") else
  '(p, padLength) ← (if Has (Flags fh) FlagHeadersPadded then readByte p else Ok (p, 0));
  '(p, Priority) ←
    (if Has (Flags fh) FlagHeadersPriority then
       '(p, v) ← readUint32 p;
       let dep := Z.land v mask31 in
       '(p, weight) ← readByte p;
       Ok (p, mkPriorityParam dep (negb (v =? dep)) weight)
     else Ok (p, noPriority));
  if slen p - padLength <=? 0 then Err (http2.streamError (StreamID fh) http2.ErrCodeProtocol) else
  frag ← strip p padLength;
  Ok (HeadersFrame fh Priority frag).

Definition parsePriorityFrame (fh : FrameHeader) (payload : list byte) : res http2.error Frame :=
  if StreamID fh =? 0 then Err (http2.connError http2.ErrCodeProtocol "PRIORITY frame with stream ID 0") else
  if negb (slen payload =? 5)
  then Err (http2.connError http2.ErrCodeFrameSize
              ("PRIORITY frame payload size was " +:+ Itoa (slen payload) +:+ "; want 5")) else
  v ← (p ← slice payload 0 4; BigEndian_Uint32 p);
  weight ← index payload 4;
  let streamID := Z.land v mask31 in
  Ok (PriorityFrame fh (mkPriorityParam streamID (negb (streamID =? v)) (Z_of_byte weight))).

Definition parseRSTStreamFrame (fh : FrameHeader) (p : list byte) : res http2.error Frame :=
  if negb (slen p =? 4) then connection_error http2.ErrCodeFrameSize else
  if StreamID fh =? 0 then connection_error http2.ErrCodeProtocol else
  code ← (p ← slice p 0 4; BigEndian_Uint32 p);
  Ok (RSTStreamFrame fh code).

Definition parseContinuationFrame (fh : FrameHeader) (p : list byte) : res http2.error Frame :=
  if StreamID fh =? 0 then Err (http2.connError http2.ErrCodeProtocol "CONTINUATION frame with stream ID 0") else
  Ok (ContinuationFrame fh p).

Definition parsePushPromise (fh : FrameHeader) (p : list byte) : res http2.error Frame :=
  if StreamID fh =? 0 then connection_error http2.ErrCodeProtocol else
  '(p, padLength) ← (if Has (Flags fh) FlagPushPromisePadded then readByte p else Ok (p, 0));
  '(p, promise) ← readUint32 p;
  if slen p <? padLength then connection_error http2.ErrCodeProtocol else
  frag ← strip p padLength;
  Ok (PushPromiseFrame fh (Z.land promise mask31) frag).

(** [typeFrameParser], with the table [frameParsers]. *)
Definition typeFrameParser (t : Z) : FrameHeader -> list byte -> res http2.error Frame :=
  if t =? FrameData then parseDataFrame
  else if t =? FrameHeaders then parseHeadersFrame
  else if t =? FramePriority then parsePriorityFrame
  else if t =? FrameRSTStream then parseRSTStreamFrame
  else if t =? FrameSettings then parseSettingsFrame
  else if t =? FramePushPromise then parsePushPromise
  else if t =? FramePing then parsePingFrame
  else if t =? FrameGoAway then parseGoAwayFrame
  else if t =? FrameWindowUpdate then parseWindowUpdateFrame
  else if t =? FrameContinuation then parseContinuationFrame
  else parseUnknownFrame.
