(* ===== verification/H2Write.v ===== *)
(** * HTTP/2 frames: the writing half of the [Framer]

    Each method fills [wbuf] and hands it to the writer in one call.  The writer is a
    parameter: a function on a state of its own that gives the number of bytes it took
    and an error.  Reading uses none of these fields of the Framer, and writing none
    of those. *)

From stdpp Require Import base list strings.
From Stdlib Require Import ZArith Strings.Byte Lia.
From S2P Require Import Prelude GoStrings GrpcStatus Hpack H2Errors H2Frame.
Open Scope Z_scope.

(** ** Parameters *)

Record HeadersFrameParam : Type := mkHeadersFrameParam {
  HP_StreamID : Z;
  HP_BlockFragment : list byte;
  HP_EndStream : bool;
  HP_EndHeaders : bool;
  HP_PadLength : Z;
  HP_Priority : PriorityParam;
}.

Record PushPromiseParam : Type := mkPushPromiseParam {
  PP_StreamID : Z;
  PP_PromiseID : Z;
  PP_BlockFragment : list byte;
  PP_EndHeaders : bool;
  PP_PadLength : Z;
}.

Definition validStreamIDOrZero (streamID : Z) : bool := Z.land streamID (Z.shiftl 1 31) =? 0.
Definition validStreamID (streamID : Z) : bool :=
  negb (streamID =? 0) && (Z.land streamID (Z.shiftl 1 31) =? 0).

(** [if b { flags |= v }] *)
Definition flag_if (b : bool) (v flags : Z) : Z := if b then Z.lor flags v else flags.

Section writer.
Context {W : Type} (write : W -> list byte -> Z * option go_error * W).

Record FramerW : Type := mkFramerW {
  w : W;
  wbuf : list byte;
  AllowIllegalWrites : bool;
}.

Definition startWrite (f : FramerW) (ftype flags streamID : Z) : FramerW :=
  mkFramerW (w f)
    ([x00; x00; x00; byte_of_Z ftype; byte_of_Z flags; byte_of_Z (Z.shiftr streamID 24);
      byte_of_Z (Z.shiftr streamID 16); byte_of_Z (Z.shiftr streamID 8); byte_of_Z streamID])
    (AllowIllegalWrites f).

Definition writeBytes (f : FramerW) (v : list byte) : FramerW :=
  mkFramerW (w f) (wbuf f ++ v) (AllowIllegalWrites f).
Definition writeByte (f : FramerW) (v : Z) : FramerW := writeBytes f [byte_of_Z v].
Definition writeUint16 (f : FramerW) (v : Z) : FramerW := writeBytes f (uint16_bytes v).
Definition writeUint32 (f : FramerW) (v : Z) : FramerW := writeBytes f (uint32_bytes v).

Definition endWrite (f : FramerW) : option http2.error * FramerW :=
  let length := slen (wbuf f) - frameHeaderLen in
  if Z.shiftl 1 24 <=? length then (Some http2.ErrFrameTooLarge, f) else
  let buf := [byte_of_Z (Z.shiftr length 16); byte_of_Z (Z.shiftr length 8); byte_of_Z length] ++ drop 3 (wbuf f) in
  let '(n, err, w) := write (w f) buf in
  (match err with
   | Some e => Some (http2.io e)
   | None => if n =? slen buf then None else Some (http2.io ErrShortWrite)
   end, mkFramerW w buf (AllowIllegalWrites f)).

(** [pad] is nil, or a slice. *)
Definition WriteDataPadded (f : FramerW) (streamID : Z) (endStream : bool) (data : list byte)
    (pad : option (list byte)) : option http2.error * FramerW :=
  if negb (validStreamID streamID) && negb (AllowIllegalWrites f) then (Some http2.errStreamID, f) else
  let padding := default [] pad in
  if (0 <? slen padding) && (255 <? slen padding) then (Some http2.errPadLength, f) else
  if (0 <? slen padding) && negb (AllowIllegalWrites f) && existsb (fun b => negb (bool_decide (b = x00))) padding
  then (Some http2.errPadBytes, f) else
  let flags := flag_if (bool_decide (is_Some pad)) FlagDataPadded (flag_if endStream FlagDataEndStream 0) in
  let f := startWrite f FrameData flags streamID in
  let f := match pad with Some pad => writeBytes f [byte_of_Z (slen pad)] | None => f end in
  endWrite (writeBytes (writeBytes f data) padding).

Definition WriteData (f : FramerW) (streamID : Z) (endStream : bool) (data : list byte)
  : option http2.error * FramerW :=
  WriteDataPadded f streamID endStream data None.

Definition WriteSettings (f : FramerW) (settings : list Setting) : option http2.error * FramerW :=
  endWrite (foldl (fun f s => writeUint32 (writeUint16 f (Setting_ID s)) (Setting_Val s))
              (startWrite f FrameSettings 0 0) settings).

Definition WriteSettingsAck (f : FramerW) : option http2.error * FramerW :=
  endWrite (startWrite f FrameSettings FlagSettingsAck 0).

Definition WritePing (f : FramerW) (ack : bool) (data : list byte) : option http2.error * FramerW :=
  endWrite (writeBytes (startWrite f FramePing (if ack then FlagPingAck else 0) 0) data).

Definition WriteGoAway (f : FramerW) (maxStreamID code : Z) (debugData : list byte)
  : option http2.error * FramerW :=
  let f := startWrite f FrameGoAway 0 0 in
  let f := writeUint32 f (Z.land maxStreamID mask31) in
  endWrite (writeBytes (writeUint32 f code) debugData).

Definition WriteWindowUpdate (f : FramerW) (streamID incr : Z) : option http2.error * FramerW :=
  if ((incr <? 1) || (2147483647 <? incr)) && negb (AllowIllegalWrites f)
  then (Some (http2.errors_New "illegal window increment value"), f) else
  endWrite (writeUint32 (startWrite f FrameWindowUpdate 0 streamID) incr).

(** The two fields of a priority: the high bit of the first is [Exclusive]. *)
Definition write_priority (f : FramerW) (p : PriorityParam) : FramerW :=
  writeByte (writeUint32 f (if Exclusive p then Z.lor (StreamDep p) (Z.shiftl 1 31) else StreamDep p)) (Weight p).

Definition WriteHeaders (f : FramerW) (p : HeadersFrameParam) : option http2.error * FramerW :=
  if negb (validStreamID (HP_StreamID p)) && negb (AllowIllegalWrites f) then (Some http2.errStreamID, f) else
  let flags :=
    flag_if (negb (IsZero (HP_Priority p))) FlagHeadersPriority
      (flag_if (HP_EndHeaders p) FlagHeadersEndHeaders
         (flag_if (HP_EndStream p) FlagHeadersEndStream
            (flag_if (negb (HP_PadLength p =? 0)) FlagHeadersPadded 0))) in
  let f := startWrite f FrameHeaders flags (HP_StreamID p) in
  let f := if negb (HP_PadLength p =? 0) then writeByte f (HP_PadLength p) else f in
  let finish f :=
    endWrite (writeBytes (writeBytes f (HP_BlockFragment p)) (take (Z.to_nat (HP_PadLength p)) padZeros)) in
  if negb (IsZero (HP_Priority p)) then
    if negb (validStreamIDOrZero (StreamDep (HP_Priority p))) && negb (AllowIllegalWrites f)
    then (Some http2.errDepStreamID, f)
    else finish (write_priority f (HP_Priority p))
  else finish f.

Definition WritePriority (f : FramerW) (streamID : Z) (p : PriorityParam) : option http2.error * FramerW :=
  if negb (validStreamID streamID) && negb (AllowIllegalWrites f) then (Some http2.errStreamID, f) else
  if negb (validStreamIDOrZero (StreamDep p)) then (Some http2.errDepStreamID, f) else
  endWrite (write_priority (startWrite f FramePriority 0 streamID) p).

Definition WriteRSTStream (f : FramerW) (streamID code : Z) : option http2.error * FramerW :=
  if negb (validStreamID streamID) && negb (AllowIllegalWrites f) then (Some http2.errStreamID, f) else
  endWrite (writeUint32 (startWrite f FrameRSTStream 0 streamID) code).

Definition WriteContinuation (f : FramerW) (streamID : Z) (endHeaders : bool) (headerBlockFragment : list byte)
  : option http2.error * FramerW :=
  if negb (validStreamID streamID) && negb (AllowIllegalWrites f) then (Some http2.errStreamID, f) else
  let flags := flag_if endHeaders FlagContinuationEndHeaders 0 in
  endWrite (writeBytes (startWrite f FrameContinuation flags streamID) headerBlockFragment).

Definition WritePushPromise (f : FramerW) (p : PushPromiseParam) : option http2.error * FramerW :=
  if negb (validStreamID (PP_StreamID p)) && negb (AllowIllegalWrites f) then (Some http2.errStreamID, f) else
  let flags :=
    flag_if (PP_EndHeaders p) FlagPushPromiseEndHeaders
      (flag_if (negb (PP_PadLength p =? 0)) FlagPushPromisePadded 0) in
  let f := startWrite f FramePushPromise flags (PP_StreamID p) in
  let f := if negb (PP_PadLength p =? 0) then writeByte f (PP_PadLength p) else f in
  if negb (validStreamID (PP_PromiseID p)) && negb (AllowIllegalWrites f) then (Some http2.errStreamID, f) else
  let f := writeUint32 f (PP_PromiseID p) in
  endWrite (writeBytes (writeBytes f (PP_BlockFragment p)) (take (Z.to_nat (PP_PadLength p)) padZeros)).

Definition WriteRawFrame (f : FramerW) (t flags streamID : Z) (payload : list byte) : option http2.error * FramerW :=
  endWrite (writeBytes (startWrite f t flags streamID) payload).
End writer.
Arguments FramerW W : clear implicits.

(** A writer that takes everything: a buffer. *)
Definition append_all (w : list byte) (b : list byte) : Z * option go_error * list byte := (slen b, None, w ++ b).
