(* ===== verification/H2Framer.v ===== *)
(** * HTTP/2 frames: the reading half of the [Framer]

    [ReadFrame], the order it demands of the frames of a header block, and
    [readMetaFrame], which joins the frames of a block and decodes it with HPACK.
    The reader is the bytes still to come and the error after them; [io.ReadFull] does not
    depend on how the reader cuts them.  The read buffer is reused for the next
    frame: a frame is handled before the next one is read, and [valid] says
    whether its bytes may be looked at. *)

From stdpp Require Import base list strings.
From Stdlib Require Import ZArith Strings.Byte Lia.
From S2P Require Import Prelude GoStrings GrpcStatus.
From S2P Require Import Hpack HpackDecoder H2Errors H2Frame.
Open Scope Z_scope.

(** ** The reader *)

Record reader : Type := mkReader { rest : list byte; rerr : go_error }.

(** [io.ReadFull] of [n] bytes. *)
Definition ReadFull (r : reader) (n : Z) : res go_error (list byte) * reader :=
  if n <=? slen (rest r) then (Ok (take (Z.to_nat n) (rest r)), mkReader (drop (Z.to_nat n) (rest r)) (rerr r))
  else (Err (match rest r, rerr r with
             | _ :: _, EOF => UnexpectedEOF
             | _, e => e
             end), mkReader [] (rerr r)).

(** ** Header fields on the wire: httplex.go and http2.go *)

(** [isTokenTable] *)
Definition isTokenTable : list byte :=
  bytes_of "!#$%&'*+-.0123456789ABCDEFGHIJKLMNOPQRSTUVWXYZ^_`abcdefghijklmnopqrstuvwxyz|~".

(** The runes of a string that are below 128 are bytes, and a byte from 128 on is part of a
    rune above, or of an invalid one, none of which is in the table. *)
Definition IsTokenRune (r : byte) : bool := existsb (fun c => bool_decide (c = r)) isTokenTable.

Definition validWireHeaderFieldName (v : list byte) : bool :=
  match v with
  | [] => false
  | _ => forallb (fun r => IsTokenRune r && negb ((65 <=? Z_of_byte r) && (Z_of_byte r <=? 90))) v
  end.

Definition isCTL (b : byte) : bool := (Z_of_byte b <? 32) || (Z_of_byte b =? 127).
Definition isLWS (b : byte) : bool := (Z_of_byte b =? 32) || (Z_of_byte b =? 9).
Definition ValidHeaderFieldValue (v : list byte) : bool := forallb (fun b => negb (isCTL b && negb (isLWS b))) v.

(** ** The pseudo header fields of a block *)

Fixpoint PseudoFields (fs : list HeaderField) : list HeaderField :=
  match fs with
  | [] => []
  | hf :: fs => if IsPseudo hf then hf :: PseudoFields fs else []
  end.

Fixpoint RegularFields (fs : list HeaderField) : list HeaderField :=
  match fs with
  | [] => []
  | hf :: fs' => if IsPseudo hf then RegularFields fs' else fs
  end.

Fixpoint PseudoValue (fs : list HeaderField) (pseudo : list byte) : list byte :=
  match fs with
  | [] => []
  | hf :: fs =>
      if negb (IsPseudo hf) then []
      else if bool_decide (tl (Name hf) = pseudo) then Value hf
      else PseudoValue fs pseudo
  end.

Definition one_of (name : list byte) (names : list string) : bool :=
  existsb (fun n => bool_decide (name = bytes_of n)) names.

(** The loop of [checkPseudos]: [seen] is [pf[:i]]. *)
Fixpoint check_pseudos (seen fs : list HeaderField) (isRequest isResponse : bool) : option http2.cause :=
  match fs with
  | [] => if isRequest && isResponse then Some http2.errMixPseudoHeaderTypes else None
  | hf :: fs =>
      let request := one_of (Name hf) [":method"; ":path"; ":scheme"; ":authority"] in
      let response := one_of (Name hf) [":status"] in
      if negb request && negb response then Some (http2.pseudoHeaderError (Name hf))
      else if existsb (fun hf2 => bool_decide (Name hf = Name hf2)) seen
      then Some (http2.duplicatePseudoHeaderError (Name hf))
      else check_pseudos (seen ++ [hf]) fs (isRequest || request) (isResponse || response)
  end.

Definition checkPseudos (fs : list HeaderField) : option http2.cause :=
  check_pseudos [] (PseudoFields fs) false false.

(** ** The Framer *)

(** The variables that the callback of [readMetaFrame] shares with it. *)
Record meta_env : Type := mkMeta {
  Fields : list HeaderField;
  Truncated : bool;
  remainSize : Z;
  sawRegular : bool;
  invalid : option http2.cause;
}.

(** What [errDetail] holds. *)
Inductive detail : Type :=
| reason (msg : string)
| invalid_header (c : http2.cause).

Record Framer : Type := mkFramer {
  r : reader;
  lastFrame : option Frame;
  errDetail : option detail;
  lastHeaderStream : Z;
  maxReadSize : Z;
  AllowIllegalReads : bool;
  ReadMetaHeaders : option (Decoder meta_env);
  MaxHeaderListSize : Z;
}.

Definition set_r (f : Framer) (x : reader) : Framer :=
  mkFramer x (lastFrame f) (errDetail f) (lastHeaderStream f) (maxReadSize f) (AllowIllegalReads f)
    (ReadMetaHeaders f) (MaxHeaderListSize f).
Definition set_lastFrame (f : Framer) (x : option Frame) : Framer :=
  mkFramer (r f) x (errDetail f) (lastHeaderStream f) (maxReadSize f) (AllowIllegalReads f)
    (ReadMetaHeaders f) (MaxHeaderListSize f).
Definition set_errDetail (f : Framer) (x : option detail) : Framer :=
  mkFramer (r f) (lastFrame f) x (lastHeaderStream f) (maxReadSize f) (AllowIllegalReads f)
    (ReadMetaHeaders f) (MaxHeaderListSize f).
Definition set_lastHeaderStream (f : Framer) (x : Z) : Framer :=
  mkFramer (r f) (lastFrame f) (errDetail f) x (maxReadSize f) (AllowIllegalReads f)
    (ReadMetaHeaders f) (MaxHeaderListSize f).
Definition set_hdec (f : Framer) (x : Decoder meta_env) : Framer :=
  mkFramer (r f) (lastFrame f) (errDetail f) (lastHeaderStream f) (maxReadSize f) (AllowIllegalReads f)
    (Some x) (MaxHeaderListSize f).

Definition SetMaxReadFrameSize (f : Framer) (v : Z) : Framer :=
  mkFramer (r f) (lastFrame f) (errDetail f) (lastHeaderStream f)
    (if maxFrameSize <? v then maxFrameSize else v) (AllowIllegalReads f) (ReadMetaHeaders f) (MaxHeaderListSize f).

(** [NewFramer], and the fields that are set after it. *)
Definition NewFramer (rd : reader) : Framer :=
  SetMaxReadFrameSize (mkFramer rd None None 0 0 false None 0) maxFrameSize.
Definition with_meta (f : Framer) (hdec : Decoder meta_env) (maxHeaderListSize : Z) : Framer :=
  mkFramer (r f) (lastFrame f) (errDetail f) (lastHeaderStream f) (maxReadSize f) (AllowIllegalReads f)
    (Some hdec) maxHeaderListSize.

Definition ErrorDetail (f : Framer) : option detail := errDetail f.

Definition maxHeaderListSize (f : Framer) : Z :=
  if MaxHeaderListSize f =? 0 then Z.shiftl 16 20 else MaxHeaderListSize f.

(** [uint32(int(v)) == v] always holds on 64 bits. *)
Definition maxHeaderStringLen (f : Framer) : Z :=
  let v := maxHeaderListSize f in if uint32 (int64 v) =? v then int64 v else 0.

(** A method on the Framer: what it comes to, and the Framer after, errors included. *)
Definition RM (A : Type) : Type := Framer -> res http2.error A * Framer.

#[export] Instance RM_ret : MRet RM := fun A a s => (Ok a, s).
#[export] Instance RM_bind : MBind RM := fun A B f m s =>
  match m s with
  | (Ok a, s) => f a s
  | (Err e, s) => (Err e, s)
  | (Panic, s) => (Panic, s)
  | (Diverge, s) => (Diverge, s)
  end.

Definition lift {A} (x : res http2.error A) : RM A := fun s => (x, s).
Definition gets {A} (g : Framer -> A) : RM A := fun s => (Ok (g s), s).
Definition modify (g : Framer -> Framer) : RM unit := fun s => (Ok tt, g s).
Definition throw {A} (e : http2.error) : RM A := fun s => (Err e, s).

Definition read_full (n : Z) : RM (list byte) := fun s =>
  let '(x, rd) := ReadFull (r s) n in
  (match x with Ok b => Ok b | Err e => Err (http2.io e) | Panic => Panic | Diverge => Diverge end, set_r s rd).

(** The header in the nine bytes of [buf]. *)
Definition decode_header {E} (buf : list byte) : res E FrameHeader :=
  match buf with
  | [a; b; c; t; fl; i; j; k; l] =>
      Ok (mkFrameHeader true (Z_of_byte t) (Z_of_byte fl)
            (Z.lor (Z.lor (Z.shiftl (Z_of_byte a) 16) (Z.shiftl (Z_of_byte b) 8)) (Z_of_byte c))
            (Z.land (be32 i j k l) mask31))
  | _ => Panic
  end.

Definition readFrameHeader : RM FrameHeader :=
  buf ← read_full frameHeaderLen;
  lift (decode_header buf).

(** [connError]: the reason is kept, the code returned. *)
Definition connError {A} (code : Z) (msg : string) : RM A :=
  _ ← modify (fun f => set_errDetail f (Some (reason msg)));
  throw (http2.ConnectionError code).

Definition checkFrameOrder (f : Frame) : RM unit :=
  last ← gets lastFrame;
  _ ← modify (fun fr => set_lastFrame fr (Some f));
  illegal ← gets AllowIllegalReads;
  if (illegal : bool) then mret tt else
  let fh := Header f in
  lastHeaderStream ← gets lastHeaderStream;
  _ ← (if negb (lastHeaderStream =? 0) then
         if negb (Type_ fh =? FrameContinuation) then
           match last with
           | Some last =>
               connError http2.ErrCodeProtocol
                 ("got " +:+ FrameType_String (Type_ fh) +:+ " for stream " +:+ Itoa (StreamID fh) +:+
                  "; expected CONTINUATION following " +:+ FrameType_String (Type_ (Header last)) +:+
                  " for stream " +:+ Itoa lastHeaderStream)
           | None => lift Panic
           end
         else if negb (StreamID fh =? lastHeaderStream) then
           connError http2.ErrCodeProtocol
             ("got CONTINUATION for stream " +:+ Itoa (StreamID fh) +:+ "; expected stream " +:+
              Itoa lastHeaderStream)
         else mret tt
       else if Type_ fh =? FrameContinuation then
         connError http2.ErrCodeProtocol ("unexpected CONTINUATION for stream " +:+ Itoa (StreamID fh))
       else mret tt);
  if (Type_ fh =? FrameHeaders) || (Type_ fh =? FrameContinuation) then
    modify (fun fr => set_lastHeaderStream fr (if Has (Flags fh) FlagHeadersEndHeaders then 0 else StreamID fh))
  else mret tt.

(** ** [readMetaFrame] *)

(** The callback: what it does to its variables and to [emitEnabled]. *)
Definition meta_emit (hf : HeaderField) (st : bool * meta_env) : bool * meta_env :=
  let '(enabled, m) := st in
  let inv := if ValidHeaderFieldValue (Value hf) then invalid m
             else Some (http2.headerFieldValueError (Value hf)) in
  let isPseudo := IsPseudo hf in
  let inv := if isPseudo then if sawRegular m then Some http2.errPseudoAfterRegular else inv
             else if validWireHeaderFieldName (Name hf) then inv
             else Some (http2.headerFieldNameError (Name hf)) in
  let saw := sawRegular m || negb isPseudo in
  match inv with
  | Some _ => (false, mkMeta (Fields m) (Truncated m) (remainSize m) saw inv)
  | None =>
      let size := Size hf in
      if remainSize m <? size then (false, mkMeta (Fields m) true (remainSize m) saw inv)
      else (enabled, mkMeta (Fields m ++ [hf]) (Truncated m) (uint32 (remainSize m - size)) saw inv)
  end.

(** [func(hf hpack.HeaderField) {}] *)
Definition no_emit {St} (hf : HeaderField) (st : bool * St) : bool * St := st.

(** [hdec.Write]: any error ends the connection. *)
Definition hdec_Write (frag : list byte) : RM unit :=
  hdec ← gets ReadMetaHeaders;
  match hdec with
  | None => lift Panic
  | Some hdec =>
      match Write hdec frag with
      | Ok (_, err, hdec) =>
          _ ← modify (fun f => set_hdec f hdec);
          match err with
          | Some _ => throw (http2.ConnectionError http2.ErrCodeCompression)
          | None => mret tt
          end
      | Err e => match e with end
      | Panic => lift Panic
      | Diverge => lift Diverge
      end
  end.

Definition hdec_Close : RM unit :=
  hdec ← gets ReadMetaHeaders;
  match hdec with
  | None => lift Panic
  | Some hdec =>
      let '(err, hdec) := Close hdec in
      _ ← modify (fun f => set_hdec f hdec);
      match err with
      | Some _ => throw (http2.ConnectionError http2.ErrCodeCompression)
      | None => mret tt
      end
  end.

Definition hdec_env : RM meta_env :=
  hdec ← gets ReadMetaHeaders;
  match hdec with Some hdec => mret (env hdec) | None => lift Panic end.

(** A deferred call, which runs whatever the body came to. *)
Definition deferred {A} (body : RM A) (g : Framer -> Framer) : RM A := fun s =>
  let '(x, s) := body s in (x, g s).

(** The loop over the frames of a block; [read] is [ReadFrame]. *)
Fixpoint meta_loop (read : RM Frame) (fuel : nat) (hc : Frame) : RM unit :=
  match fuel with
  | O => lift Diverge
  | S fuel =>
      frag ← lift (octets hc);
      _ ← hdec_Write frag;
      if HeadersEnded hc then mret tt else
      f ← read;
      match f with
      | ContinuationFrame _ _ => meta_loop read fuel f
      | _ => lift Panic
      end
  end.

Definition readMetaFrame (read : RM Frame) (fuel : nat) (h : FrameHeader) (prio : PriorityParam) (frag : list byte)
  : RM Frame :=
  illegal ← gets AllowIllegalReads;
  if (illegal : bool) then throw (http2.errors_New "illegal use of AllowIllegalReads with ReadMetaHeaders") else
  hdec ← gets ReadMetaHeaders;
  match hdec with
  | None => lift Panic
  | Some hdec =>
      _ ← modify (fun f =>
        set_hdec f (with_emit (SetMaxStringLength (SetEmitEnabled hdec true) (maxHeaderStringLen f))
                      meta_emit (mkMeta [] false (maxHeaderListSize f) false None)));
      deferred
        (_ ← meta_loop read fuel (HeadersFrame h prio frag);
         _ ← hdec_Close;
         m ← hdec_env;
         match invalid m with
         | Some c =>
             _ ← modify (fun f => set_errDetail f (Some (invalid_header c)));
             throw (http2.StreamError (StreamID h) http2.ErrCodeProtocol (Some c))
         | None =>
             match checkPseudos (Fields m) with
             | Some c =>
                 _ ← modify (fun f => set_errDetail f (Some (invalid_header c)));
                 throw (http2.StreamError (StreamID h) http2.ErrCodeProtocol (Some c))
             | None => mret (MetaHeadersFrame (invalidate_header h) prio (Fields m) (Truncated m))
             end
         end)
        (fun f => match ReadMetaHeaders f with
                  | Some hdec => set_hdec f (with_emit hdec no_emit (env hdec))
                  | None => f
                  end)
  end.

(** The parser's error, with a [connError] turned into a [ConnectionError]. *)
Definition parse_frame (fh : FrameHeader) (payload : list byte) : RM Frame :=
  match typeFrameParser (Type_ fh) fh payload with
  | Err (http2.connError code msg) => connError code msg
  | x => lift x
  end.

Fixpoint ReadFrame (fuel : nat) : RM Frame :=
  match fuel with
  | O => lift Diverge
  | S fuel =>
      _ ← modify (fun f => set_lastFrame (set_errDetail f None) (invalidate <$> lastFrame f));
      fh ← readFrameHeader;
      max ← gets maxReadSize;
      if max <? Length fh then throw http2.ErrFrameTooLarge else
      payload ← read_full (Length fh);
      f ← parse_frame fh payload;
      _ ← checkFrameOrder f;
      meta ← gets ReadMetaHeaders;
      if (Type_ fh =? FrameHeaders) && bool_decide (is_Some meta) then
        match f with
        | HeadersFrame h prio frag => readMetaFrame (ReadFrame fuel) fuel h prio frag
        | _ => lift Panic
        end
      else mret f
  end.
