(* ===== verification/H2Calls.v ===== *)
(** * HTTP/2 frames: what is written is parsed, and calls of the [Write] methods

    Integers on the wire, the nine bytes of a header, and the payload of each kind of
    frame: the bytes that a [Write] method emits, and what the parser makes of
    them.  Then a call of a method of the writing half with its arguments, the bytes that it writes, and the frame that the
    reading half makes of them. *)

From stdpp Require Import base list strings.
From Stdlib Require Import ZArith Strings.Byte Lia.
From S2P Require Import Prelude GoStrings GrpcStatus Hpack.
From S2P Require Import H2Errors H2Frame H2Write HpackDecoder H2Framer.
Open Scope Z_scope.

(** ** Integers *)

Lemma lor_shiftl_high x k y : 0 <= k -> 0 <= y < 2 ^ k -> Z.lor (Z.shiftl x k) y = x * 2 ^ k + y.
Proof. intros. rewrite Z.lor_comm, lor_shiftl_add by done. lia. Qed.

Lemma be16_add a b : be16 a b = Z_of_byte a * 2 ^ 8 + Z_of_byte b.
Proof. apply lor_shiftl_high; [done|]. apply Z_of_byte_range. Qed.

Lemma be32_add a b c d :
  be32 a b c d = Z_of_byte a * 2 ^ 24 + Z_of_byte b * 2 ^ 16 + Z_of_byte c * 2 ^ 8 + Z_of_byte d.
Proof.
  pose proof (Z_of_byte_range b). pose proof (Z_of_byte_range c). pose proof (Z_of_byte_range d).
  unfold be32. rewrite <- !Z.lor_assoc. rewrite (lor_shiftl_high (Z_of_byte c)) by lia.
  rewrite (lor_shiftl_high (Z_of_byte b)) by lia. rewrite (lor_shiftl_high (Z_of_byte a)) by lia. lia.
Qed.

Lemma be24_add a b c :
  Z.lor (Z.lor (Z.shiftl (Z_of_byte a) 16) (Z.shiftl (Z_of_byte b) 8)) (Z_of_byte c) =
  Z_of_byte a * 2 ^ 16 + Z_of_byte b * 2 ^ 8 + Z_of_byte c.
Proof.
  pose proof (Z_of_byte_range b). pose proof (Z_of_byte_range c).
  rewrite <- !Z.lor_assoc. rewrite (lor_shiftl_high (Z_of_byte b)) by lia.
  rewrite (lor_shiftl_high (Z_of_byte a)) by lia. lia.
Qed.

Ltac wire_bytes := rewrite ?Z_of_byte_of_Z, ?Z.shiftr_div_pow2 by lia; unfold uint8.

Lemma be32_bytes v :
  0 <= v < 2 ^ 32 ->
  be32 (byte_of_Z (Z.shiftr v 24)) (byte_of_Z (Z.shiftr v 16)) (byte_of_Z (Z.shiftr v 8)) (byte_of_Z v) = v.
Proof. intros. rewrite be32_add. wire_bytes. Z.to_euclidean_division_equations. lia. Qed.

Lemma be16_bytes v : 0 <= v < 2 ^ 16 -> be16 (byte_of_Z (Z.shiftr v 8)) (byte_of_Z v) = v.
Proof. intros. rewrite be16_add. wire_bytes. Z.to_euclidean_division_equations. lia. Qed.

Lemma BigEndian_bytes {E} v p : 0 <= v < 2 ^ 32 -> BigEndian_Uint32 (E:=E) (uint32_bytes v ++ p) = Ok v.
Proof. intros. unfold uint32_bytes. cbn [app BigEndian_Uint32]. by rewrite be32_bytes. Qed.

Lemma be32_range a b c d : 0 <= be32 a b c d < 2 ^ 32.
Proof.
  rewrite be32_add. pose proof (Z_of_byte_range a). pose proof (Z_of_byte_range b).
  pose proof (Z_of_byte_range c). pose proof (Z_of_byte_range d). lia.
Qed.

Lemma readUint32_bytes v p : 0 <= v < 2 ^ 32 -> readUint32 (uint32_bytes v ++ p) = Ok (p, v).
Proof. intros. unfold uint32_bytes. cbn [app readUint32]. by rewrite be32_bytes. Qed.

Lemma mask31_small v : 0 <= v < 2 ^ 31 -> Z.land v mask31 = v.
Proof. intros. change mask31 with (Z.ones 31). rewrite Z.land_ones by lia. by apply Z.mod_small. Qed.

Lemma mask31_mod v : Z.land v mask31 = v mod 2 ^ 31.
Proof. change mask31 with (Z.ones 31). by rewrite Z.land_ones by lia. Qed.

Lemma high_bit v : 0 <= v < 2 ^ 31 -> Z.lor v (Z.shiftl 1 31) = v + 2 ^ 31.
Proof. intros. by rewrite lor_shiftl_add by lia. Qed.

(** An identifier without the high bit. *)
Lemma high_bit_clear v : 0 <= v < 2 ^ 32 -> (Z.land v (Z.shiftl 1 31) =? 0) = (v <? 2 ^ 31).
Proof.
  intros Hv. change (Z.shiftl 1 31) with (2 ^ 31).
  assert (Z.land v (2 ^ 31) = (v / 2 ^ 31) * 2 ^ 31) as ->.
  { destruct (Z.lt_ge_cases v (2 ^ 31)).
    - rewrite Z.div_small by lia. apply Z.bits_inj'. intros n Hn. rewrite Z.land_spec, Z.bits_0.
      destruct (decide (n = 31)) as [->|]; [|rewrite Z.pow2_bits_false by lia; apply andb_false_r].
      rewrite Z.testbit_eqb, Z.div_small by lia. done.
    - replace (v / 2 ^ 31) with 1 by (Z.to_euclidean_division_equations; lia).
      apply Z.bits_inj'. intros n Hn. rewrite Z.land_spec, Z.mul_1_l.
      destruct (decide (n = 31)) as [->|]; [|rewrite Z.pow2_bits_false by lia; apply andb_false_r].
      rewrite Z.testbit_eqb by lia.
      replace (v / 2 ^ 31) with 1 by (Z.to_euclidean_division_equations; lia). done. }
  destruct (Z.eqb_spec (v / 2 ^ 31 * 2 ^ 31) 0), (Z.ltb_spec v (2 ^ 31)); try done;
    Z.to_euclidean_division_equations; lia.
Qed.

Lemma validStreamID_spec v : 0 <= v < 2 ^ 32 -> validStreamID v = true <-> 0 < v < 2 ^ 31.
Proof.
  intros Hv. unfold validStreamID. rewrite high_bit_clear by done.
  rewrite andb_true_iff, negb_true_iff, Z.eqb_neq, Z.ltb_lt. lia.
Qed.

Lemma validStreamIDOrZero_spec v : 0 <= v < 2 ^ 32 -> validStreamIDOrZero v = true <-> v < 2 ^ 31.
Proof. intros Hv. unfold validStreamIDOrZero. rewrite high_bit_clear by done. by rewrite Z.ltb_lt. Qed.

(** ** Headers *)

(** A frame on the wire. *)
Definition frame_bytes (t flags id : Z) (payload : list byte) : list byte :=
  [byte_of_Z (Z.shiftr (slen payload) 16); byte_of_Z (Z.shiftr (slen payload) 8); byte_of_Z (slen payload);
   byte_of_Z t; byte_of_Z flags] ++ uint32_bytes id ++ payload.

Lemma wbuf_length {W} (f : FramerW W) t flags id p :
  slen (wbuf (writeBytes (startWrite f t flags id) p)) - frameHeaderLen = slen p.
Proof. unfold writeBytes, startWrite. cbn [wbuf app]. rewrite !slen_cons. unfold frameHeaderLen. lia. Qed.

Lemma writeBytes_app {W} (f : FramerW W) a b : writeBytes (writeBytes f a) b = writeBytes f (a ++ b).
Proof. unfold writeBytes. cbn [w wbuf AllowIllegalWrites]. by rewrite <- app_assoc. Qed.

Lemma writeBytes_nil {W} (f : FramerW W) : writeBytes f [] = f.
Proof. destruct f. unfold writeBytes. simpl. by rewrite app_nil_r. Qed.

(** The header that is read back. *)
Lemma decode_header_bytes {E} t flags id n :
  0 <= t < 256 -> 0 <= flags < 256 -> 0 <= id < 2 ^ 31 -> 0 <= n < 2 ^ 24 ->
  decode_header (E:=E)
    ([byte_of_Z (Z.shiftr n 16); byte_of_Z (Z.shiftr n 8); byte_of_Z n; byte_of_Z t; byte_of_Z flags] ++
     uint32_bytes id) = Ok (mkFrameHeader true t flags n id).
Proof.
  intros Ht Hf Hi Hn. unfold uint32_bytes. cbn [app decode_header]. rewrite be24_add, be32_bytes by lia.
  rewrite mask31_small by done. wire_bytes. do 2 f_equal; Z.to_euclidean_division_equations; lia.
Qed.

(** * Calls of the [Write] methods *)

Inductive call : Type :=
| CData (streamID : Z) (endStream : bool) (data : list byte) (pad : option (list byte))
| CSettings (settings : list Setting)
| CSettingsAck
| CPing (ack : bool) (data : list byte)
| CGoAway (maxStreamID code : Z) (debugData : list byte)
| CWindowUpdate (streamID incr : Z)
| CHeaders (p : HeadersFrameParam)
| CPriority (streamID : Z) (p : PriorityParam)
| CRSTStream (streamID code : Z)
| CContinuation (streamID : Z) (endHeaders : bool) (frag : list byte)
| CPushPromise (p : PushPromiseParam).

Definition run_call {W} (write : W -> list byte -> Z * option go_error * W) (f : FramerW W) (c : call)
  : option http2.error * FramerW W :=
  match c with
  | CData id e data pad => WriteDataPadded write f id e data pad
  | CSettings ss => WriteSettings write f ss
  | CSettingsAck => WriteSettingsAck write f
  | CPing ack data => WritePing write f ack data
  | CGoAway id code debug => WriteGoAway write f id code debug
  | CWindowUpdate id incr => WriteWindowUpdate write f id incr
  | CHeaders p => WriteHeaders write f p
  | CPriority id p => WritePriority write f id p
  | CRSTStream id code => WriteRSTStream write f id code
  | CContinuation id e frag => WriteContinuation write f id e frag
  | CPushPromise p => WritePushPromise write f p
  end.

(** The arguments have the types that Go gives them. *)
Definition typed (c : call) : Prop :=
  let u32 z := 0 <= z < 2 ^ 32 in
  let u8 z := 0 <= z < 2 ^ 8 in
  let prio p := u32 (StreamDep p) /\ u8 (Weight p) in
  match c with
  | CData id _ _ _ => u32 id
  | CSettings ss => Forall (fun s => 0 <= Setting_ID s < 2 ^ 16 /\ u32 (Setting_Val s)) ss
  | CSettingsAck => True
  | CPing _ data => slen data = 8
  | CGoAway id code _ => u32 id /\ u32 code
  | CWindowUpdate id incr => u32 id /\ u32 incr
  | CHeaders p => u32 (HP_StreamID p) /\ u8 (HP_PadLength p) /\ prio (HP_Priority p)
  | CPriority id p => u32 id /\ prio p
  | CRSTStream id code => u32 id /\ u32 code
  | CContinuation id _ _ => u32 id
  | CPushPromise p => u32 (PP_StreamID p) /\ u32 (PP_PromiseID p) /\ u8 (PP_PadLength p)
  end.

(** What the reader demands and the writer leaves to its caller. *)
Fixpoint window_ok (ss : list Setting) : bool :=
  match ss with
  | [] => true
  | s :: ss => if Setting_ID s =? SettingInitialWindowSize then Setting_Val s <? 2 ^ 31 else window_ok ss
  end.

Definition readable (c : call) : Prop :=
  match c with
  | CSettings ss => window_ok ss = true
  | CWindowUpdate id _ => id < 2 ^ 31
  | CHeaders p => HP_BlockFragment p <> []
  | _ => True
  end.

(** ** The bytes of a call *)

Definition settings_bytes (ss : list Setting) : list byte :=
  flat_map (fun s => uint16_bytes (Setting_ID s) ++ uint32_bytes (Setting_Val s)) ss.

Definition priority_bytes (p : PriorityParam) : list byte :=
  uint32_bytes (if Exclusive p then Z.lor (StreamDep p) (Z.shiftl 1 31) else StreamDep p) ++ [byte_of_Z (Weight p)].

Definition pad_byte (n : Z) : list byte := if n =? 0 then [] else [byte_of_Z n].
Definition padding (n : Z) : list byte := take (Z.to_nat n) padZeros.

(** Type, flags, stream and payload. *)
Definition wire_of (c : call) : Z * Z * Z * list byte :=
  match c with
  | CData id e data pad =>
      (FrameData, flag_if (bool_decide (is_Some pad)) FlagDataPadded (flag_if e FlagDataEndStream 0), id,
       match pad with Some pad => [byte_of_Z (slen pad)] | None => [] end ++ data ++ default [] pad)
  | CSettings ss => (FrameSettings, 0, 0, settings_bytes ss)
  | CSettingsAck => (FrameSettings, FlagSettingsAck, 0, [])
  | CPing ack data => (FramePing, if ack then FlagPingAck else 0, 0, data)
  | CGoAway id code debug => (FrameGoAway, 0, 0, uint32_bytes (Z.land id mask31) ++ uint32_bytes code ++ debug)
  | CWindowUpdate id incr => (FrameWindowUpdate, 0, id, uint32_bytes incr)
  | CHeaders p =>
      (FrameHeaders,
       flag_if (negb (IsZero (HP_Priority p))) FlagHeadersPriority
         (flag_if (HP_EndHeaders p) FlagHeadersEndHeaders
            (flag_if (HP_EndStream p) FlagHeadersEndStream
               (flag_if (negb (HP_PadLength p =? 0)) FlagHeadersPadded 0))),
       HP_StreamID p,
       pad_byte (HP_PadLength p) ++ (if IsZero (HP_Priority p) then [] else priority_bytes (HP_Priority p)) ++
       HP_BlockFragment p ++ padding (HP_PadLength p))
  | CPriority id p => (FramePriority, 0, id, priority_bytes p)
  | CRSTStream id code => (FrameRSTStream, 0, id, uint32_bytes code)
  | CContinuation id e frag => (FrameContinuation, flag_if e FlagContinuationEndHeaders 0, id, frag)
  | CPushPromise p =>
      (FramePushPromise,
       flag_if (PP_EndHeaders p) FlagPushPromiseEndHeaders
         (flag_if (negb (PP_PadLength p =? 0)) FlagPushPromisePadded 0),
       PP_StreamID p,
       pad_byte (PP_PadLength p) ++ uint32_bytes (PP_PromiseID p) ++ PP_BlockFragment p ++ padding (PP_PadLength p))
  end.

Definition call_bytes (c : call) : list byte := let '(t, flags, id, p) := wire_of c in frame_bytes t flags id p.
Definition call_header (c : call) : FrameHeader :=
  let '(t, flags, id, p) := wire_of c in mkFrameHeader true t flags (slen p) id.

(** The frame that is read. *)
Definition frame_of (c : call) : Frame :=
  let h := call_header c in
  match c with
  | CData _ _ data _ => DataFrame h data
  | CSettings ss => SettingsFrame h (settings_bytes ss)
  | CSettingsAck => SettingsFrame h []
  | CPing _ data => PingFrame h data
  | CGoAway id code debug => GoAwayFrame h (id mod 2 ^ 31) code debug
  | CWindowUpdate _ incr => WindowUpdateFrame h incr
  | CHeaders p => HeadersFrame h (HP_Priority p) (HP_BlockFragment p)
  | CPriority _ p => PriorityFrame h p
  | CRSTStream _ code => RSTStreamFrame h code
  | CContinuation _ _ frag => ContinuationFrame h frag
  | CPushPromise p => PushPromiseFrame h (PP_PromiseID p) (PP_BlockFragment p)
  end.

(** ** What a call writes *)

Section writes.
Context {W : Type} (write : W -> list byte -> Z * option go_error * W).

(** The outcome of a method after the writer's. *)
Definition write_result (n : Z) (err : option go_error) (b : list byte) : option http2.error :=
  match err with
  | Some e => Some (http2.io e)
  | None => if n =? slen b then None else Some (http2.io ErrShortWrite)
  end.

(** [m] gives [b] to the writer, in one call, or fails before. *)
Definition writes (f : FramerW W) (b : list byte) (m : option http2.error * FramerW W) : Prop :=
  AllowIllegalWrites m.2 = AllowIllegalWrites f /\
  (is_Some m.1 /\ w m.2 = w f \/
   slen b < frameHeaderLen + 2 ^ 24 /\
   let '(n, err, w') := write (w f) b in m = (write_result n err b, mkFramerW w' b (AllowIllegalWrites f))).

Lemma frame_bytes_length t flags id p : slen (frame_bytes t flags id p) = frameHeaderLen + slen p.
Proof.
  unfold frame_bytes. rewrite !slen_app. change (slen (uint32_bytes id)) with 4. rewrite !slen_cons, slen_nil.
  unfold frameHeaderLen. lia.
Qed.

Lemma writes_end f t flags id p :
  writes f (frame_bytes t flags id p) (endWrite write (writeBytes (startWrite f t flags id) p)).
Proof.
  unfold endWrite. rewrite wbuf_length. change (Z.shiftl 1 24) with (2 ^ 24).
  destruct (Z.leb_spec (2 ^ 24) (slen p)); [split; [done|left; by split; [eexists|]]|].
  change (_ ++ drop 3 (wbuf (writeBytes (startWrite f t flags id) p))) with (frame_bytes t flags id p).
  change (w (writeBytes _ p)) with (w f). unfold writes. rewrite frame_bytes_length.
  destruct (write (w f) (frame_bytes t flags id p)) as [[n err] w']. cbv beta iota zeta.
  split; [done|]. right. split; [lia|]. unfold write_result. by rewrite !frame_bytes_length.
Qed.

Lemma writes_end' f t flags id p q :
  p = q -> writes f (frame_bytes t flags id q) (endWrite write (writeBytes (startWrite f t flags id) p)).
Proof. intros ->. apply writes_end. Qed.

Lemma writes_guard f b (c : bool) e f' m :
  w f' = w f -> AllowIllegalWrites f' = AllowIllegalWrites f -> (c = false -> writes f b m) ->
  writes f b (if c then (Some e, f') else m).
Proof. intros Hw Ha H. destruct c; [|by apply H]. split; [done|]. left. by split; [eexists|]. Qed.

Lemma write_settings_bytes (f : FramerW W) ss :
  foldl (fun f s => writeUint32 (writeUint16 f (Setting_ID s)) (Setting_Val s)) f ss = writeBytes f (settings_bytes ss).
Proof.
  revert f. induction ss as [|s ss IH]; intros f; [by rewrite writeBytes_nil|]. cbn [foldl]. rewrite IH.
  unfold writeUint32, writeUint16. by rewrite !writeBytes_app.
Qed.

Lemma write_priority_bytes (f : FramerW W) p : write_priority f p = writeBytes f (priority_bytes p).
Proof. unfold write_priority, writeByte, writeUint32. by rewrite writeBytes_app. Qed.

Lemma write_pad_byte (f : FramerW W) n :
  (if negb (n =? 0) then writeByte f n else f) = writeBytes f (pad_byte n).
Proof. unfold pad_byte. destruct (n =? 0); [by rewrite writeBytes_nil|done]. Qed.

(** Whatever the writer does. *)
Lemma call_writes f c : writes f (call_bytes c) (run_call write f c).
Proof.
  destruct c as [id e data pad|ss| |ack data|id code debug|id incr|p|id p|id code|id e frag|p];
    unfold call_bytes; cbn [wire_of run_call].
  - unfold WriteDataPadded. do 3 (apply writes_guard; [done|done|intros _]). destruct pad as [pad|]; cbn [default].
    + rewrite !writeBytes_app. apply writes_end'. by rewrite <- ?app_assoc.
    + rewrite !writeBytes_app. by apply writes_end'.
  - unfold WriteSettings. rewrite write_settings_bytes. apply writes_end.
  - unfold WriteSettingsAck. rewrite <- (writeBytes_nil (startWrite _ _ _ _)). apply writes_end.
  - apply writes_end.
  - unfold WriteGoAway, writeUint32. rewrite !writeBytes_app. apply writes_end'. by rewrite <- ?app_assoc.
  - unfold WriteWindowUpdate. apply writes_guard; [done|done|intros _]. apply writes_end.
  - unfold WriteHeaders. apply writes_guard; [done|done|intros _]. cbv zeta. rewrite write_pad_byte.
    destruct (IsZero (HP_Priority p)); cbn [negb app].
    + rewrite !writeBytes_app. apply writes_end'. by rewrite <- ?app_assoc.
    + apply writes_guard; [done|done|intros _]. rewrite write_priority_bytes, !writeBytes_app. apply writes_end'.
      by rewrite <- ?app_assoc.
  - unfold WritePriority. do 2 (apply writes_guard; [done|done|intros _]). rewrite write_priority_bytes. apply writes_end.
  - unfold WriteRSTStream. apply writes_guard; [done|done|intros _]. apply writes_end.
  - unfold WriteContinuation. apply writes_guard; [done|done|intros _]. apply writes_end.
  - unfold WritePushPromise. apply writes_guard; [done|done|intros _]. cbv zeta. rewrite write_pad_byte.
    apply writes_guard; [done|done|intros _]. unfold writeUint32. rewrite !writeBytes_app. apply writes_end'.
    by rewrite <- ?app_assoc.
Qed.

End writes.

(** With a writer that takes everything. *)
Lemma call_appends f c :
  (run_call append_all f c).1 = None ->
  slen (call_bytes c) < frameHeaderLen + 2 ^ 24 /\
  (run_call append_all f c).2 = mkFramerW (w f ++ call_bytes c) (call_bytes c) (AllowIllegalWrites f).
Proof.
  intros H. destruct (call_writes append_all f c) as [_ [[[e He] _]|[Hs Hw]]]; [by rewrite He in H|].
  split; [done|]. by rewrite Hw.
Qed.

(** ** What an accepted call satisfies *)

Lemma guard_passes {A} (c : bool) e (f' : FramerW A) m :
  (if c then (Some e, f') else m : option http2.error * FramerW A).1 = None -> c = false /\ m.1 = None.
Proof. by destruct c. Qed.

Lemma accepted_size f c : (run_call append_all f c).1 = None -> slen (wire_of c).2 < 2 ^ 24.
Proof.
  intros H. destruct (call_appends f c H) as [Hs _]. unfold call_bytes in Hs.
  destruct (wire_of c) as [[[t flags] id] p]. rewrite frame_bytes_length in Hs. simpl. lia.
Qed.

(** The stream identifiers of a call that is accepted. *)
Definition ids_ok (c : call) : Prop :=
  match c with
  | CData id _ _ pad => 0 < id < 2 ^ 31 /\ slen (default [] pad) <= 255
  | CHeaders p => 0 < HP_StreamID p < 2 ^ 31 /\ StreamDep (HP_Priority p) < 2 ^ 31
  | CPriority id p => 0 < id < 2 ^ 31 /\ StreamDep p < 2 ^ 31
  | CRSTStream id _ | CContinuation id _ _ => 0 < id < 2 ^ 31
  | CPushPromise p => 0 < PP_StreamID p < 2 ^ 31 /\ 0 < PP_PromiseID p < 2 ^ 31
  | CWindowUpdate _ incr => 0 < incr < 2 ^ 31
  | _ => True
  end.

Lemma stream_passes id b : 0 <= id < 2 ^ 32 -> negb (validStreamID id) && negb b = false -> b = false -> 0 < id < 2 ^ 31.
Proof. intros Hid H ->. apply validStreamID_spec; [done|]. by destruct (validStreamID id). Qed.

Lemma accepted_ids f c :
  typed c -> AllowIllegalWrites f = false -> (run_call append_all f c).1 = None -> ids_ok c.
Proof.
  intros Ht Ha. destruct c as [id e data pad|ss| |ack data|id code debug|id incr|p|id p|id code|id e frag|p];
    cbn [run_call ids_ok typed] in *; try done.
  - unfold WriteDataPadded. intros [H1 [H2 [_ _]%guard_passes]%guard_passes]%guard_passes.
    split; [by eapply stream_passes|]. pose proof (slen_nonneg (default [] pad)). lia.
  - unfold WriteWindowUpdate. intros [H1 _]%guard_passes. rewrite Ha, andb_true_r in H1. lia.
  - unfold WriteHeaders. intros [H1 H2]%guard_passes. destruct Ht as (Hid & _ & Hd & _).
    split; [by eapply stream_passes|]. cbv zeta in H2. unfold IsZero in H2.
    destruct (bool_decide_reflect (HP_Priority p = noPriority)) as [->|]; [done|]. cbn [negb] in H2.
    apply guard_passes in H2 as [H2 _]. rewrite write_pad_byte in H2. cbn [AllowIllegalWrites writeBytes startWrite] in H2.
    rewrite Ha, andb_true_r in H2. apply negb_false_iff in H2.
    by apply validStreamIDOrZero_spec in H2.
  - unfold WritePriority. intros [H1 [H2 _]%guard_passes]%guard_passes. destruct Ht as (Hid & Hd & _).
    split; [by eapply stream_passes|]. apply negb_false_iff in H2. by apply validStreamIDOrZero_spec in H2.
  - unfold WriteRSTStream. intros [H1 _]%guard_passes. destruct Ht as [Hid _]. by eapply stream_passes.
  - unfold WriteContinuation. intros [H1 _]%guard_passes. by eapply stream_passes.
  - unfold WritePushPromise. cbv zeta. rewrite write_pad_byte. cbn [AllowIllegalWrites writeBytes startWrite].
    intros [H1 [H2 _]%guard_passes]%guard_passes. destruct Ht as (Hid & Hpr & _).
    split; by eapply stream_passes.
Qed.

(** ** Parsing the bytes of a call *)

Lemma strip_app {E} (a b : list byte) n : slen b = n -> strip (E:=E) (a ++ b) n = Ok a.
Proof.
  intros <-. unfold strip. rewrite slen_app. replace (slen a + slen b - slen b) with (slen a) by lia.
  pose proof (slice_app (E:=E) [] a b) as Hs. cbn [app] in Hs. by rewrite slen_nil, Z.add_0_l in Hs.
Qed.

Lemma padding_length n : 0 <= n < 2 ^ 8 -> slen (padding n) = n.
Proof. intros. unfold padding, slen. rewrite length_take. change (length padZeros) with 255%nat. lia. Qed.

Lemma readByte_pad n p : 0 <= n < 2 ^ 8 -> readByte ([byte_of_Z n] ++ p) = Ok (p, n).
Proof. intros. cbn [app readByte]. by rewrite Z_of_byte_of_Z, uint8_small. Qed.

(** An optional length of the padding. *)
Lemma read_pad (n : Z) p :
  0 <= n < 2 ^ 8 ->
  (if negb (n =? 0) then readByte (pad_byte n ++ p) else Ok (pad_byte n ++ p, 0)) = Ok (p, n).
Proof.
  intros Hn. unfold pad_byte. destruct (Z.eqb_spec n 0) as [->|]; [done|]. cbn [negb]. by apply readByte_pad.
Qed.

Lemma settings_six ss : slen (settings_bytes ss) mod 6 = 0.
Proof.
  induction ss as [|s ss IH]; [done|]. unfold settings_bytes. cbn [flat_map]. fold (settings_bytes ss).
  rewrite slen_app. change (slen (uint16_bytes (Setting_ID s) ++ uint32_bytes (Setting_Val s))) with 6.
  rewrite <- IH. rewrite <- (Z_mod_plus_full (slen (settings_bytes ss)) 1 6). f_equal. lia.
Qed.

(** The first setting with an identifier. *)
Fixpoint find_value (ss : list Setting) (s : Z) : option Z :=
  match ss with
  | [] => None
  | x :: ss => if Setting_ID x =? s then Some (Setting_Val x) else find_value ss s
  end.

Lemma find_setting_bytes {E} ss s :
  Forall (fun s => 0 <= Setting_ID s < 2 ^ 16 /\ 0 <= Setting_Val s < 2 ^ 32) ss ->
  find_setting (E:=E) (settings_bytes ss) s = Ok (find_value ss s).
Proof.
  induction 1 as [|x ss [Hi Hv] _ IH]; [done|]. unfold settings_bytes. cbn [flat_map]. fold (settings_bytes ss).
  unfold uint16_bytes, uint32_bytes. cbn [app find_setting find_value]. rewrite be16_bytes, be32_bytes by done.
  by destruct (Setting_ID x =? s).
Qed.

Lemma each_setting_bytes {A} ss (fn : Setting -> A -> res http2.error A) x :
  Forall (fun s => 0 <= Setting_ID s < 2 ^ 16 /\ 0 <= Setting_Val s < 2 ^ 32) ss ->
  each_setting (settings_bytes ss) fn x =
  foldl (fun r s => x ← r; fn s x) (Ok x) ss.
Proof.
  intros Hss. revert x. induction Hss as [|s ss [Hi Hv] _ IH]; intros x; [done|].
  unfold settings_bytes. cbn [flat_map]. fold (settings_bytes ss).
  unfold uint16_bytes, uint32_bytes. cbn [app each_setting foldl]. rewrite be16_bytes, be32_bytes by done.
  replace (mkSetting (Setting_ID s) (Setting_Val s)) with s by (by destruct s).
  cbn [mbind res_bind]. destruct (fn s x) as [y| | |]; cbn [mbind res_bind]; [apply IH|..].
  all: clear; induction ss as [|s ss IH]; [done|]; exact IH.
Qed.

Lemma window_value ss : window_ok ss = true -> forall v, find_value ss SettingInitialWindowSize = Some v -> v < 2 ^ 31.
Proof.
  induction ss as [|s ss IH]; [done|]. cbn [window_ok find_value]. destruct (_ =? _); [|done].
  intros H v [= <-]. lia.
Qed.

Lemma priority_read p rest :
  0 <= StreamDep p < 2 ^ 31 -> 0 <= Weight p < 2 ^ 8 ->
  exists v, priority_bytes p ++ rest = uint32_bytes v ++ [byte_of_Z (Weight p)] ++ rest /\ 0 <= v < 2 ^ 32 /\
    Z.land v mask31 = StreamDep p /\ negb (v =? StreamDep p) = Exclusive p.
Proof.
  intros Hd Hw. unfold priority_bytes. rewrite <- app_assoc. eexists. split; [done|].
  destruct (Exclusive p).
  - rewrite high_bit by done. rewrite mask31_mod. split; [lia|]. split.
    + Z.to_euclidean_division_equations. lia.
    + apply negb_true_iff. lia.
  - rewrite mask31_small by done. split; [lia|]. split; [done|]. apply negb_false_iff. lia.
Qed.

Lemma has_data b e : Has (flag_if b FlagDataPadded (flag_if e FlagDataEndStream 0)) FlagDataPadded = b.
Proof. by destruct b, e. Qed.

Lemma has_headers a b c d :
  let flags := flag_if a FlagHeadersPriority (flag_if b FlagHeadersEndHeaders
                 (flag_if c FlagHeadersEndStream (flag_if d FlagHeadersPadded 0))) in
  Has flags FlagHeadersPadded = d /\ Has flags FlagHeadersPriority = a /\
  Has flags FlagHeadersEndHeaders = b /\ Has flags FlagHeadersEndStream = c.
Proof. by destruct a, b, c, d. Qed.

Lemma has_push a d :
  Has (flag_if a FlagPushPromiseEndHeaders (flag_if d FlagPushPromisePadded 0)) FlagPushPromisePadded = d.
Proof. by destruct a, d. Qed.

(** The slices of fields of four bytes. *)
Lemma uint32_slice {E} v p : 0 <= v < 2 ^ 32 -> (q ← slice (E:=E) (uint32_bytes v ++ p) 0 4; BigEndian_Uint32 q) = Ok v.
Proof.
  intros Hv. pose proof (slice_app (E:=E) [] (uint32_bytes v) p) as Hs. cbn [app] in Hs.
  change (slen []) with 0 in Hs. change (0 + slen (uint32_bytes v)) with 4 in Hs.
  rewrite Hs. cbn [mbind res_bind]. rewrite <- (app_nil_r (uint32_bytes v)). by apply BigEndian_bytes.
Qed.

Lemma uint32_slice_second {E} u v p :
  0 <= v < 2 ^ 32 -> (q ← slice (E:=E) (uint32_bytes u ++ uint32_bytes v ++ p) 4 8; BigEndian_Uint32 q) = Ok v.
Proof.
  intros Hv. pose proof (slice_app (E:=E) (uint32_bytes u) (uint32_bytes v) p) as Hs.
  change (slen (uint32_bytes u)) with 4 in Hs. change (4 + slen (uint32_bytes v)) with 8 in Hs.
  rewrite Hs. cbn [mbind res_bind]. rewrite <- (app_nil_r (uint32_bytes v)). by apply BigEndian_bytes.
Qed.

Lemma uint32_rest {E} u v p : slice_from (E:=E) (uint32_bytes u ++ uint32_bytes v ++ p) 8 = Ok p.
Proof.
  unfold slice_from. pose proof (slice_app (E:=E) (uint32_bytes u ++ uint32_bytes v) p []) as Hs.
  rewrite app_nil_r, <- app_assoc in Hs. change (slen (uint32_bytes u ++ uint32_bytes v)) with 8 in Hs.
  rewrite <- Hs. f_equal. rewrite !slen_app. change (slen (uint32_bytes u)) with 4.
  change (slen (uint32_bytes v)) with 4. lia.
Qed.

Lemma headers_end fh prio frag pad id :
  frag <> [] -> 0 <= pad < 2 ^ 8 ->
  (if slen (frag ++ padding pad) - pad <=? 0 then Err (http2.streamError id http2.ErrCodeProtocol)
   else frag' ← strip (frag ++ padding pad) pad; Ok (HeadersFrame fh prio frag')) = Ok (HeadersFrame fh prio frag).
Proof.
  intros Hf Hpad. rewrite strip_app by (by apply padding_length). rewrite slen_app, padding_length by done.
  destruct frag as [|b frag]; [done|]. rewrite slen_cons. pose proof (slen_nonneg frag).
  by destruct (Z.leb_spec (1 + slen frag + pad - pad) 0); [lia|].
Qed.

(** The parser of the payload gives the frame. *)
Lemma parse_call c :
  typed c -> ids_ok c -> readable c ->
  (let '(t, _, _, p) := wire_of c in typeFrameParser t (call_header c) p) = Ok (frame_of c).
Proof.
  intros Ht Hi Hr.
  destruct c as [id e data pad|ss| |ack data|id code debug|id incr|p|id p|id code|id e frag|p];
    unfold frame_of, call_header; cbn [wire_of typed ids_ok readable] in *; cbv zeta in *.
  - change (typeFrameParser FrameData) with parseDataFrame. unfold parseDataFrame. cbn [StreamID Flags].
    destruct (Z.eqb_spec id 0); [lia|]. rewrite has_data. destruct pad as [pad|].
    + change (default [] (Some pad)) with pad in *. rewrite bool_decide_eq_true_2 by done. pose proof (slen_nonneg pad). rewrite readByte_pad by lia.
      cbn [mbind res_bind]. rewrite slen_app. pose proof (slen_nonneg data).
      destruct (Z.ltb_spec (slen data + slen pad) (slen pad)); [lia|]. by rewrite strip_app.
    + change (default [] None) with (@nil byte) in *. rewrite bool_decide_eq_false_2 by (by intros [? ?]). cbn [app mbind res_bind]. rewrite app_nil_r.
      pose proof (slen_nonneg data). destruct (Z.ltb_spec (slen data) 0); [lia|].
      pose proof (strip_app (E:=http2.error) data [] 0 eq_refl) as Hs. rewrite app_nil_r in Hs. by rewrite Hs.
  - change (typeFrameParser FrameSettings) with parseSettingsFrame. unfold parseSettingsFrame. cbn [StreamID Flags].
    change (Has 0 FlagSettingsAck) with false. cbn [andb negb Z.eqb]. rewrite settings_six. cbn [Z.eqb negb].
    unfold SettingsFrame_Value, checkValid. cbn [valid mbind res_bind]. rewrite find_setting_bytes by done.
    cbn [mbind res_bind]. pose proof (window_value ss Hr) as Hw.
    destruct (find_value ss _) as [v|]; [|done]. specialize (Hw v eq_refl).
    change mask31 with (2 ^ 31 - 1). by destruct (Z.ltb_spec (2 ^ 31 - 1) v); [lia|].
  - done.
  - change (typeFrameParser FramePing) with parsePingFrame. unfold parsePingFrame. by rewrite Ht.
  - change (typeFrameParser FrameGoAway) with parseGoAwayFrame. unfold parseGoAwayFrame. cbn [StreamID Z.eqb negb].
    rewrite !slen_app. change (slen (uint32_bytes _)) with 4 at 1 2. pose proof (slen_nonneg debug).
    destruct (Z.ltb_spec (4 + (4 + slen debug)) 8); [lia|].
    pose proof (Z.mod_pos_bound id (2 ^ 31) ltac:(lia)). rewrite mask31_mod.
    rewrite uint32_slice, uint32_slice_second, uint32_rest by lia. cbn [mbind res_bind].
    by rewrite mask31_small.
  - change (typeFrameParser FrameWindowUpdate) with parseWindowUpdateFrame. unfold parseWindowUpdateFrame.
    change (slen (uint32_bytes incr)) with 4. cbn [Z.eqb negb Pos.eqb].
    rewrite <- (app_nil_r (uint32_bytes incr)), uint32_slice by lia. cbn [mbind res_bind].
    rewrite mask31_small by lia. by destruct (Z.eqb_spec incr 0); [lia|].
  - change (typeFrameParser FrameHeaders) with parseHeadersFrame. unfold parseHeadersFrame. cbn [StreamID Flags].
    destruct p as [id frag es eh pad prio]. cbn [HP_StreamID HP_BlockFragment HP_EndStream HP_EndHeaders HP_PadLength HP_Priority] in *.
    destruct Ht as (Hid & Hpad & Hdep & Hw). destruct Hi as [Hi Hd]. destruct (Z.eqb_spec id 0); [lia|].
    destruct (has_headers (negb (IsZero prio)) eh es (negb (pad =? 0))) as (H1 & H2 & _).
    rewrite H1, H2, read_pad by done. cbn [mbind res_bind].
    unfold IsZero in *. destruct (bool_decide_reflect (prio = noPriority)) as [->|Hne]; cbn [negb].
    + cbn [app mbind res_bind]. by apply headers_end.
    + destruct (priority_read prio (frag ++ padding pad)) as (v & Hp & Hv & Hdep' & Hex); [lia|done|].
      rewrite Hp, readUint32_bytes by done. cbn [mbind res_bind]. rewrite readByte_pad by done. cbn [mbind res_bind].
      rewrite Hdep', Hex, <- Hp. destruct prio. by apply headers_end.
  - change (typeFrameParser FramePriority) with parsePriorityFrame. unfold parsePriorityFrame. cbn [StreamID].
    destruct Hi as [Hi Hd]. destruct Ht as (Hid & Hdep & Hw). destruct (Z.eqb_spec id 0); [lia|].
    change (slen (priority_bytes p)) with 5. cbn [Z.eqb negb Pos.eqb].
    destruct (priority_read p []) as (v & Hp & Hv & Hdep' & Hex); [lia|done|]. rewrite app_nil_r in Hp. rewrite Hp.
    rewrite uint32_slice by done. cbn [mbind res_bind].
    change (index (uint32_bytes v ++ [byte_of_Z (Weight p)] ++ []) 4) with (Ok (E:=http2.error) (byte_of_Z (Weight p))).
    cbn [mbind res_bind]. rewrite Z_of_byte_of_Z, uint8_small, Hdep', (Z.eqb_sym (StreamDep p)), Hex by done.
    by destruct p.
  - change (typeFrameParser FrameRSTStream) with parseRSTStreamFrame. unfold parseRSTStreamFrame. cbn [StreamID].
    change (slen (uint32_bytes code)) with 4. cbn [Z.eqb negb Pos.eqb]. destruct (Z.eqb_spec id 0); [lia|].
    rewrite <- (app_nil_r (uint32_bytes code)), uint32_slice by lia. done.
  - change (typeFrameParser FrameContinuation) with parseContinuationFrame. unfold parseContinuationFrame.
    cbn [StreamID]. by destruct (Z.eqb_spec id 0); [lia|].
  - change (typeFrameParser FramePushPromise) with parsePushPromise. unfold parsePushPromise. cbn [StreamID Flags].
    destruct p as [id promise frag eh pad]. cbn [PP_StreamID PP_PromiseID PP_BlockFragment PP_EndHeaders PP_PadLength] in *.
    destruct Ht as (Hid & Hpr & Hpad). destruct Hi as [Hi Hi2]. destruct (Z.eqb_spec id 0); [lia|].
    rewrite has_push, read_pad by done. cbn [mbind res_bind]. rewrite readUint32_bytes by done. cbn [mbind res_bind].
    rewrite slen_app, padding_length by done. pose proof (slen_nonneg frag).
    destruct (Z.ltb_spec (slen frag + pad) pad); [lia|]. rewrite strip_app by (by apply padding_length).
    cbn [mbind res_bind]. by rewrite mask31_small by lia.
Qed.
