(* ===== verification/H2Order.v ===== *)
(** * HTTP/2 frames: the order of frames

    A grammar of the sequences of frames that a connection may carry, in which
    the frames of a header block are contiguous, and the automaton that
    [checkFrameOrder] is: it accepts the beginnings of these sequences. *)

From stdpp Require Import base list strings.
From Stdlib Require Import ZArith Strings.Byte Lia.
From S2P Require Import Prelude GoStrings GrpcStatus Hpack.
From S2P Require Import H2Errors H2Frame HpackDecoder H2Framer.
Open Scope Z_scope.

(** ** The grammar *)

Definition is_type (t : Z) (f : Frame) : Prop := Type_ (Header f) = t.
Definition continues (id : Z) (f : Frame) : Prop := is_type FrameContinuation f /\ StreamID (Header f) = id.

(** The frames that end the header block of a stream. *)
Inductive continuations (id : Z) : list Frame -> Prop :=
| continuation_last f : continues id f -> HeadersEnded f = true -> continuations id [f]
| continuation_more f fs :
    continues id f -> HeadersEnded f = false -> continuations id fs -> continuations id (f :: fs).

Inductive unit_ok : list Frame -> Prop :=
| unit_other f : ~ is_type FrameHeaders f -> ~ is_type FrameContinuation f -> unit_ok [f]
| unit_headers f : is_type FrameHeaders f -> HeadersEnded f = true -> unit_ok [f]
| unit_block f fs :
    is_type FrameHeaders f -> HeadersEnded f = false -> StreamID (Header f) <> 0 ->
    continuations (StreamID (Header f)) fs -> unit_ok (f :: fs).

Inductive ordered : list Frame -> Prop :=
| ordered_nil : ordered []
| ordered_app u fs : unit_ok u -> ordered fs -> ordered (u ++ fs).

(** ** The automaton *)

(** The stream whose header block is open, 0 if there is none; [None] refuses the frame. *)
Definition order_next (last : Z) (f : Frame) : option Z :=
  let h := Header f in
  let next := if HeadersEnded f then 0 else StreamID h in
  if negb (last =? 0) then
    if (Type_ h =? FrameContinuation) && (StreamID h =? last) then Some next else None
  else if Type_ h =? FrameContinuation then None
  else Some (if Type_ h =? FrameHeaders then next else 0).

Fixpoint order_run (last : Z) (fs : list Frame) : option Z :=
  match fs with
  | [] => Some last
  | f :: fs => last ← order_next last f; order_run last fs
  end.

(** What [checkFrameOrder] does. *)
Definition framer_ok (fr : Framer) : Prop := lastHeaderStream fr <> 0 -> is_Some (lastFrame fr).

Lemma checkFrameOrder_spec f fr :
  AllowIllegalReads fr = false -> framer_ok fr ->
  match order_next (lastHeaderStream fr) f with
  | Some l => checkFrameOrder f fr = (Ok tt, set_lastHeaderStream (set_lastFrame fr (Some f)) l)
  | None => exists d, checkFrameOrder f fr =
              (Err (http2.ConnectionError http2.ErrCodeProtocol), set_errDetail (set_lastFrame fr (Some f)) d)
  end.
Proof.
  intros Ha Hok. unfold checkFrameOrder, mbind, RM_bind, gets, modify.
  change (AllowIllegalReads (set_lastFrame fr (Some f))) with (AllowIllegalReads fr). rewrite Ha.
  change (lastHeaderStream (set_lastFrame fr (Some f))) with (lastHeaderStream fr). unfold order_next.
  destruct (Z.eqb_spec (lastHeaderStream fr) 0) as [H0|H0]; cbn [negb].
  - destruct (Z.eqb_spec (Type_ (Header f)) FrameContinuation) as [Hc|Hc]; [eexists; reflexivity|].
    rewrite orb_false_r. unfold mret, RM_ret. destruct (Z.eqb_spec (Type_ (Header f)) FrameHeaders) as [Hh|Hh]; [done|].
    by destruct fr; simpl in *; subst.
  - destruct (Z.eqb_spec (Type_ (Header f)) FrameContinuation) as [Hc|Hc]; cbn [negb andb].
    + destruct (Z.eqb_spec (StreamID (Header f)) (lastHeaderStream fr)); cbn [negb]; [|by eexists].
      rewrite orb_true_r. done.
    + destruct (Hok H0) as [last ->]. eexists; reflexivity.
Qed.

(** ** The automaton accepts the grammar *)

Lemma order_run_app l fs gs : order_run l (fs ++ gs) = (l' ← order_run l fs; order_run l' gs).
Proof.
  revert l. induction fs as [|f fs IH]; intros l; [done|]. cbn [app order_run].
  destruct (order_next l f); [|done]. apply IH.
Qed.

Lemma order_continues id f : id <> 0 -> continues id f -> order_next id f = Some (if HeadersEnded f then 0 else id).
Proof.
  intros Hid [Ht Hs]. unfold order_next, is_type in *. rewrite Ht, Hs, !Z.eqb_refl.
  by destruct (Z.eqb_spec id 0).
Qed.

Lemma run_continuations id fs : id <> 0 -> continuations id fs -> order_run id fs = Some 0.
Proof.
  intros Hid. induction 1 as [f Hf He|f fs Hf He _ IH]; cbn [order_run]; rewrite order_continues by done; rewrite He;
    [done|apply IH].
Qed.

Lemma run_ordered fs : ordered fs -> order_run 0 fs = Some 0.
Proof.
  induction 1 as [|u fs Hu _ IH]; [done|]. rewrite order_run_app.
  assert (order_run 0 u = Some 0) as ->; [|done].
  destruct Hu as [f Hh Hc|f Hh He|f us Hh He Hid Hus]; cbn [order_run]; unfold order_next, is_type in *; cbn [Z.eqb negb].
  - destruct (Z.eqb_spec (Type_ (Header f)) FrameContinuation); [done|].
    by destruct (Z.eqb_spec (Type_ (Header f)) FrameHeaders).
  - by rewrite Hh, He.
  - rewrite Hh, He. simpl. by apply run_continuations.
Qed.

(** From an open block: the rest of the block, then an ordered sequence. *)
Lemma ordered_run fs : forall l,
  order_run l fs = Some 0 ->
  Forall (fun f => is_type FrameHeaders f -> StreamID (Header f) <> 0) fs ->
  if decide (l = 0) then ordered fs
  else exists c rest, fs = c ++ rest /\ continuations l c /\ ordered rest.
Proof.
  induction fs as [|f fs IH]; intros l Hrun Hids.
  { injection Hrun as ->. rewrite decide_True by done. constructor. }
  cbn [order_run] in Hrun. apply Forall_cons_1 in Hids as [Hid Hids].
  destruct (order_next l f) as [l'|] eqn:Hn; [|done]. specialize (IH l' Hrun Hids). unfold order_next in Hn.
  destruct (decide (l = 0)) as [->|Hl].
  - cbn [Z.eqb negb] in Hn. destruct (Z.eqb_spec (Type_ (Header f)) FrameContinuation) as [|Hc]; [done|].
    injection Hn as <-. destruct (Z.eqb_spec (Type_ (Header f)) FrameHeaders) as [Hh|Hh].
    + destruct (HeadersEnded f) eqn:He.
      * rewrite decide_True in IH by done. apply (ordered_app [f]); [by constructor|done].
      * rewrite decide_False in IH by (by apply Hid). destruct IH as (c & rest & -> & Hcs & Hrest).
        apply (ordered_app (f :: c)); [|done]. constructor; try done. by apply Hid.
    + rewrite decide_True in IH by done. apply (ordered_app [f]); [by constructor|done].
  - destruct (Z.eqb_spec l 0); [done|]. cbn [negb] in Hn.
    destruct (Z.eqb_spec (Type_ (Header f)) FrameContinuation) as [Hc|]; [|done].
    destruct (Z.eqb_spec (StreamID (Header f)) l) as [Hs|]; [|done]. cbn [andb] in Hn. injection Hn as <-.
    destruct (HeadersEnded f) eqn:He.
    + rewrite decide_True in IH by done. exists [f], fs. split; [done|]. split; [by constructor|done].
    + rewrite Hs, decide_False in IH by done. destruct IH as (c & rest & -> & Hcs & Hrest).
      exists (f :: c), rest. split; [done|]. split; [by constructor|done].
Qed.

Lemma ordered_run0 fs :
  order_run 0 fs = Some 0 -> Forall (fun f => is_type FrameHeaders f -> StreamID (Header f) <> 0) fs -> ordered fs.
Proof. intros H1 H2. pose proof (ordered_run fs 0 H1 H2) as H. by rewrite decide_True in H. Qed.

(** A continuation that ends a block. *)
Definition last_continuation (id : Z) : Frame :=
  ContinuationFrame (mkFrameHeader true FrameContinuation FlagContinuationEndHeaders 0 id) [].

(** The automaton accepts exactly what can be completed to an ordered sequence. *)
Lemma order_run_iff fs :
  Forall (fun f => is_type FrameHeaders f -> StreamID (Header f) <> 0) fs ->
  is_Some (order_run 0 fs) <-> exists gs, ordered (fs ++ gs).
Proof.
  intros Hids. split.
  - intros [l Hl]. exists (if decide (l = 0) then [] else [last_continuation l]).
    apply ordered_run0.
    + rewrite order_run_app, Hl. cbn [mbind option_bind]. destruct (decide (l = 0)) as [->|Hne]; [done|].
      cbn [order_run]. by rewrite order_continues by (done || by split).
    + apply Forall_app. split; [done|]. destruct (decide (l = 0)); [constructor|]. by apply Forall_singleton.
  - intros [gs Hgs%run_ordered]. rewrite order_run_app in Hgs. by destruct (order_run 0 fs).
Qed.
