(* ===== verification/H2RoundTrip.v ===== *)
(** * HTTP/2 frames: what one Framer writes another reads *)

From stdpp Require Import base list strings.
From Stdlib Require Import ZArith Strings.Byte Lia.
From S2P Require Import Prelude GoStrings GrpcStatus Hpack.
From S2P Require Import H2Errors H2Frame H2Write HpackDecoder H2Framer H2Calls H2Order.
Open Scope Z_scope.

(** ** Reading a frame *)

Lemma RM_bind_eq {A B} (m : RM A) (f : A -> RM B) s :
  (m ≫= f) s = match m s with
               | (Ok a, s) => f a s
               | (Err e, s) => (Err e, s)
               | (Panic, s) => (Panic, s)
               | (Diverge, s) => (Diverge, s)
               end.
Proof. done. Qed.

Lemma read_full_app b tail n s :
  rest (r s) = b ++ tail -> slen b = n ->
  read_full n s = (Ok b, set_r s (mkReader tail (rerr (r s)))).
Proof.
  intros Hr <-. unfold read_full, ReadFull. rewrite Hr, slen_app. pose proof (slen_nonneg tail).
  destruct (Z.leb_spec (slen b) (slen b + slen tail)); [|lia]. unfold slen. rewrite Nat2Z.id.
  by rewrite take_app_length, drop_app_length.
Qed.

(** What [ReadFrame] does with the payload. *)
Definition handle_frame (fuel : nat) (fh : FrameHeader) (payload : list byte) : RM Frame :=
  f ← parse_frame fh payload;
  _ ← checkFrameOrder f;
  meta ← gets ReadMetaHeaders;
  if (Type_ fh =? FrameHeaders) && bool_decide (is_Some meta) then
    match f with
    | HeadersFrame h prio frag => readMetaFrame (ReadFrame fuel) fuel h prio frag
    | _ => lift Panic
    end
  else mret f.

(** The Framer when the bytes of a frame have been read. *)
Definition after_read (fr : Framer) (tail : list byte) : Framer :=
  set_r (set_lastFrame (set_errDetail fr None) (invalidate <$> lastFrame fr)) (mkReader tail (rerr (r fr))).

Lemma ReadFrame_bytes fuel fr t flags id p tail :
  rest (r fr) = frame_bytes t flags id p ++ tail ->
  0 <= t < 256 -> 0 <= flags < 256 -> 0 <= id < 2 ^ 31 -> slen p < 2 ^ 24 -> slen p <= maxReadSize fr ->
  ReadFrame (S fuel) fr = handle_frame fuel (mkFrameHeader true t flags (slen p) id) p (after_read fr tail).
Proof.
  intros Hr Ht Hf Hi Hp Hm. cbn [ReadFrame]. unfold modify at 1. rewrite RM_bind_eq.
  set (fr1 := set_lastFrame (set_errDetail fr None) (invalidate <$> lastFrame fr)).
  pose proof (slen_nonneg p).
  unfold frame_bytes in Hr. rewrite (app_assoc _ _ p), <- (app_assoc _ p) in Hr.
  unfold readFrameHeader. rewrite !RM_bind_eq.
  rewrite (read_full_app _ (p ++ tail) frameHeaderLen fr1 Hr) by done.
  unfold lift at 1. rewrite decode_header_bytes by (lia || done). cbv beta iota. rewrite RM_bind_eq.
  unfold gets at 1. cbv beta iota.
  change (maxReadSize (set_r fr1 _)) with (maxReadSize fr). cbn [Length].
  destruct (Z.ltb_spec (maxReadSize fr) (slen p)); [lia|]. rewrite RM_bind_eq.
  rewrite (read_full_app p tail) by done. reflexivity.
Qed.

(** ** Reading the bytes of a call *)

(** A call with arguments of their types, which the writing half accepts and the
    reading half takes. *)
Record sendable (c : call) : Prop := {
  send_typed : typed c;
  send_ids : ids_ok c;
  send_readable : readable c;
  send_size : slen (wire_of c).2 < 2 ^ 24;
}.

Lemma wire_ranges c :
  typed c -> ids_ok c -> readable c ->
  let '(t, flags, id, _) := wire_of c in 0 <= t < 256 /\ 0 <= flags < 256 /\ 0 <= id < 2 ^ 31.
Proof.
  intros Ht Hi Hr. destruct c as [id e data pad|ss| |ack data|id code debug|id incr|p|id p|id code|id e frag|p];
    cbn [wire_of typed ids_ok readable] in *; (split; [done|]).
  - split; [|lia]. by destruct (bool_decide (is_Some pad)), e.
  - done.
  - done.
  - by destruct ack.
  - done.
  - split; [done|]. lia.
  - split; [|lia]. by destruct (IsZero (HP_Priority p)), (HP_EndHeaders p), (HP_EndStream p), (HP_PadLength p =? 0).
  - split; [done|]. lia.
  - split; [done|]. lia.
  - split; [|lia]. by destruct e.
  - split; [|lia]. by destruct (PP_EndHeaders p), (PP_PadLength p =? 0).
Qed.

Lemma frame_of_header c : Header (frame_of c) = call_header c.
Proof. by destruct c. Qed.

Lemma frame_of_headers_id c : ids_ok c -> is_type FrameHeaders (frame_of c) -> StreamID (Header (frame_of c)) <> 0.
Proof.
  unfold is_type. rewrite frame_of_header. destruct c; try done.
  unfold call_header. cbn [wire_of StreamID ids_ok]. lia.
Qed.

Lemma handle_call fuel c fr :
  sendable c ->
  (let '(t, flags, id, p) := wire_of c in handle_frame fuel (mkFrameHeader true t flags (slen p) id) p fr) =
  match checkFrameOrder (frame_of c) fr with
  | (Ok _, s) =>
      if (Type_ (call_header c) =? FrameHeaders) && bool_decide (is_Some (ReadMetaHeaders s)) then
        match frame_of c with
        | HeadersFrame h prio frag => readMetaFrame (ReadFrame fuel) fuel h prio frag s
        | _ => (Panic, s)
        end
      else (Ok (frame_of c), s)
  | (Err e, s) => (Err e, s)
  | (Panic, s) => (Panic, s)
  | (Diverge, s) => (Diverge, s)
  end.
Proof.
  intros [Ht Hi Hr _]. pose proof (parse_call c Ht Hi Hr) as Hp. unfold call_header in *.
  destruct (wire_of c) as [[[t flags] id] p]. unfold handle_frame, parse_frame. cbn [Type_] in *. rewrite Hp.
  rewrite !RM_bind_eq. cbn [lift]. unfold lift. rewrite RM_bind_eq.
  destruct (checkFrameOrder (frame_of c) fr) as [[[]| | |] s]; try done. rewrite RM_bind_eq. unfold gets.
  destruct (_ && _); [|done]. by destruct (frame_of c).
Qed.

Lemma read_call fuel c fr tail :
  sendable c -> slen (wire_of c).2 <= maxReadSize fr -> rest (r fr) = call_bytes c ++ tail ->
  ReadFrame (S fuel) fr =
  match checkFrameOrder (frame_of c) (after_read fr tail) with
  | (Ok _, s) =>
      if (Type_ (call_header c) =? FrameHeaders) && bool_decide (is_Some (ReadMetaHeaders s)) then
        match frame_of c with
        | HeadersFrame h prio frag => readMetaFrame (ReadFrame fuel) fuel h prio frag s
        | _ => (Panic, s)
        end
      else (Ok (frame_of c), s)
  | (Err e, s) => (Err e, s)
  | (Panic, s) => (Panic, s)
  | (Diverge, s) => (Diverge, s)
  end.
Proof.
  intros Hs Hm Hr. rewrite <- (handle_call fuel c (after_read fr tail) Hs). destruct Hs as [Ht Hi Hread Hsz].
  pose proof (wire_ranges c Ht Hi Hread) as Hw. unfold call_bytes in Hr.
  destruct (wire_of c) as [[[t flags] id] p]. destruct Hw as (? & ? & ?). by apply ReadFrame_bytes.
Qed.

(** ** Sequences *)

Fixpoint run_calls {W} (write : W -> list byte -> Z * option go_error * W) (f : FramerW W) (cs : list call)
  : option http2.error * FramerW W :=
  match cs with
  | [] => (None, f)
  | c :: cs =>
      let '(err, f) := run_call write f c in
      match err with
      | Some e => (Some e, f)
      | None => run_calls write f cs
      end
  end.

Fixpoint read_frames (n : nat) : RM (list Frame) :=
  match n with
  | O => mret []
  | S n => f ← ReadFrame 1; fs ← read_frames n; mret (f :: fs)
  end.

(** Accepted calls write their bytes, one after the other. *)
Lemma run_calls_bytes f cs :
  AllowIllegalWrites f = false -> Forall typed cs -> Forall readable cs ->
  (run_calls append_all f cs).1 = None ->
  w (run_calls append_all f cs).2 = w f ++ concat (call_bytes <$> cs) /\ Forall sendable cs.
Proof.
  intros Ha Ht Hr. revert f Ha. induction Ht as [|c cs Ht Hts IH]; intros f Ha Hrun.
  { simpl. by rewrite app_nil_r. }
  apply Forall_cons_1 in Hr as [Hr Hrs]. cbn [run_calls] in *.
  pose proof (call_appends f c) as Hw. pose proof (accepted_ids f c Ht Ha) as Hids.
  pose proof (accepted_size f c) as Hsz.
  destruct (run_call append_all f c) as [[e|] f']; [done|]. destruct (Hw eq_refl) as [_ Hw']. cbn [fst snd] in *.
  clear Hw. rename Hw' into Hw.
  destruct (IH Hrs f') as [Hb Hs]; [by rewrite Hw|done|]. rewrite Hb, Hw. cbn [w]. split.
  - rewrite fmap_cons. cbn [concat]. by rewrite app_assoc.
  - constructor; [|done]. split; auto.
Qed.

(** A Framer that hands out the frames of header blocks one by one. *)
Record plain (fr : Framer) : Prop := {
  plain_order : AllowIllegalReads fr = false;
  plain_meta : ReadMetaHeaders fr = None;
  plain_ok : framer_ok fr;
}.

Lemma read_frames_calls cs fr tail :
  plain fr -> Forall sendable cs -> Forall (fun c => slen (wire_of c).2 <= maxReadSize fr) cs ->
  rest (r fr) = concat (call_bytes <$> cs) ++ tail ->
  match order_run (lastHeaderStream fr) (frame_of <$> cs) with
  | Some l =>
      exists fr', read_frames (length cs) fr = (Ok (frame_of <$> cs), fr') /\
        r fr' = mkReader tail (rerr (r fr))
  | None => (read_frames (length cs) fr).1 = Err (http2.ConnectionError http2.ErrCodeProtocol)
  end.
Proof.
  intros Hp Hs. revert fr Hp. induction Hs as [|c cs Hc _ IH]; intros fr Hp Hm Hr.
  { exists fr. split; [done|]. simpl in Hr. destruct fr as [[]]. simpl in *. by subst. }
  apply Forall_cons_1 in Hm as [Hmc Hm]. rewrite fmap_cons in Hr. cbn [concat] in Hr. rewrite <- app_assoc in Hr.
  rewrite fmap_cons. cbn [length read_frames order_run]. rewrite RM_bind_eq, (read_call 0 c fr _ Hc Hmc Hr).
  destruct Hp as [Hpo Hpm Hpk].
  pose proof (checkFrameOrder_spec (frame_of c) (after_read fr (concat (call_bytes <$> cs) ++ tail)) Hpo) as Hchk.
  assert (framer_ok (after_read fr (concat (call_bytes <$> cs) ++ tail))) as Hok.
  { intros Hl. destruct (Hpk Hl) as [x Hx]. simpl. rewrite Hx. by eexists. }
  specialize (Hchk Hok).
  change (lastHeaderStream (after_read fr _)) with (lastHeaderStream fr) in Hchk.
  destruct (order_next (lastHeaderStream fr) (frame_of c)) as [l|]; cbn [mbind option_bind];
    [|by destruct Hchk as [d ->]].
  rewrite Hchk. set (fr1 := set_lastHeaderStream _ l).
  change (ReadMetaHeaders fr1) with (ReadMetaHeaders fr). rewrite Hpm.
  rewrite bool_decide_eq_false_2 by (by intros [? ?]). rewrite andb_false_r, RM_bind_eq.
  specialize (IH fr1). change (lastHeaderStream fr1) with l in IH. change (maxReadSize fr1) with (maxReadSize fr) in IH.
  assert (plain fr1) as Hp1 by (split; [done..|intros _; by eexists]).
  specialize (IH Hp1 Hm eq_refl).
  destruct (order_run l (frame_of <$> cs)) as [l'|].
  - destruct IH as (fr' & -> & Hr'). exists fr'. split; [done|]. by rewrite Hr'.
  - by destruct (read_frames (length cs) fr1) as [[]]; simpl in *; simplify_eq.
Qed.

(** At the end of the input. *)
Lemma ReadFrame_end fuel fr : rest (r fr) = [] -> (ReadFrame (S fuel) fr).1 = Err (http2.io (rerr (r fr))).
Proof.
  intros Hr. cbn [ReadFrame]. rewrite RM_bind_eq. unfold modify at 1, readFrameHeader. rewrite !RM_bind_eq.
  unfold read_full, ReadFull. simpl. rewrite Hr. done.
Qed.

(** C7: What a Framer writes, another reads.  Whatever [Write] methods are called, with arguments of
    their Go types: if each returns no error, then reading the bytes gives the frames that were
    written - kind, stream, flags, priority, payload without padding - and then the end of
    the input, provided that the frames can be completed to a sequence in which the frames of
    each header block are contiguous.  If they cannot, the reader reports a connection error
    PROTOCOL_ERROR.  (The writer leaves to its callers that a HEADERS frame has a fragment, that a
    WINDOW_UPDATE's stream has no high bit and that an initial window is below 2^31.) *)
Theorem frames_roundtrip cs err max :
  Forall typed cs -> Forall readable cs ->
  (run_calls append_all (mkFramerW [] [] false) cs).1 = None ->
  0 <= max <= maxFrameSize -> Forall (fun c => slen (wire_of c).2 <= max) cs ->
  let written := w (run_calls append_all (mkFramerW [] [] false) cs).2 in
  let fr := SetMaxReadFrameSize (NewFramer (mkReader written err)) max in
  ((exists gs, ordered ((frame_of <$> cs) ++ gs)) ->
   exists fr', read_frames (length cs) fr = (Ok (frame_of <$> cs), fr') /\
     (ReadFrame 1 fr').1 = Err (http2.io err)) /\
  (~ (exists gs, ordered ((frame_of <$> cs) ++ gs)) ->
   (read_frames (length cs) fr).1 = Err (http2.ConnectionError http2.ErrCodeProtocol)).
Proof.
  intros Ht Hr Hrun Hmax Hsz. cbv zeta.
  destruct (run_calls_bytes (mkFramerW [] [] false) cs eq_refl Ht Hr Hrun) as [Hw Hs]. cbn [w app] in Hw. rewrite Hw.
  set (fr := SetMaxReadFrameSize _ max).
  assert (maxReadSize fr = max) as Hm by (simpl; by destruct (Z.ltb_spec maxFrameSize max); [lia|]).
  pose proof (read_frames_calls cs fr []) as Hread. rewrite Hm, app_nil_r in Hread.
  change (lastHeaderStream fr) with 0 in Hread.
  assert (plain fr) as Hpl by (split; [done|done|by intros []]).
  specialize (Hread Hpl Hs Hsz eq_refl).
  assert (Forall (fun f => is_type FrameHeaders f -> StreamID (Header f) <> 0) (frame_of <$> cs)) as Hids.
  { apply Forall_fmap. eapply Forall_impl; [exact Hs|]. intros c [_ Hi _ _]. exact (frame_of_headers_id c Hi). }
  pose proof (order_run_iff _ Hids) as Hiff. split.
  - intros Ho. apply Hiff in Ho as [l Hl]. rewrite Hl in Hread. destruct Hread as (fr' & Hrd & Hr'). exists fr'.
    split; [done|]. rewrite ReadFrame_end by (by rewrite Hr'). by rewrite Hr'.
  - intros Ho. destruct (order_run 0 (frame_of <$> cs)) as [l|]; [|done]. exfalso. apply Ho, Hiff. by eexists.
Qed.

(** A connection: settings, a block of headers in two frames, padded data, and control frames. *)
Definition some_calls : list call :=
  [CSettings [mkSetting SettingInitialWindowSize 65535]; CSettingsAck;
   CHeaders (mkHeadersFrameParam 1 [x82] false false 2 (mkPriorityParam 3 true 200));
   CContinuation 1 true [x84]; CData 1 true [x61; x62] (Some [x00]); CPing true (replicate 8 x07);
   CWindowUpdate 0 100; CRSTStream 1 8; CPriority 5 (mkPriorityParam 3 false 1);
   CPushPromise (mkPushPromiseParam 1 2 [] true 0); CGoAway 1 0 [x21]].

Lemma frames_roundtrip_witness :
  exists fr', read_frames 11 (SetMaxReadFrameSize (NewFramer
      (mkReader (w (run_calls append_all (mkFramerW [] [] false) some_calls).2) EOF)) 16384) =
    (Ok (frame_of <$> some_calls), fr') /\ (ReadFrame 1 fr').1 = Err (http2.io EOF).
Proof.
  apply (frames_roundtrip some_calls EOF 16384).
  - unfold some_calls. repeat apply Forall_cons_2; try apply Forall_nil_2; simpl; try lia; try done.
  - unfold some_calls. repeat apply Forall_cons_2; try apply Forall_nil_2; done.
  - vm_compute. reflexivity.
  - split; discriminate.
  - unfold some_calls. repeat apply Forall_cons_2; try apply Forall_nil_2; vm_compute; discriminate.
  - apply order_run_iff; [|by vm_compute; eexists].
    unfold some_calls. repeat apply Forall_cons_2; try apply Forall_nil_2; vm_compute; discriminate.
Defined.
