(* ===== verification/H2Parse.v ===== *)
(** * HTTP/2 frames: what the parsers accept

    The frames that a parser gives are well formed, whatever the payload; no payload
    makes a parser panic. *)

From stdpp Require Import base list strings.
From Stdlib Require Import ZArith Strings.Byte Lia.
From S2P Require Import Prelude GoStrings GrpcStatus Hpack.
From S2P Require Import H2Errors H2Frame HpackDecoder H2Framer H2Calls.
Open Scope Z_scope.

(** What RFC 7540 demands of a frame, apart from the order of frames and the fields of a header
    block. *)
Definition frame_wf (f : Frame) : Prop :=
  let h := Header f in
  0 <= StreamID h < 2 ^ 31 /\ 0 <= Length h < 2 ^ 24 /\
  match f with
  | DataFrame _ data => Type_ h = FrameData /\ StreamID h <> 0 /\ slen data <= Length h
  | HeadersFrame _ _ frag => Type_ h = FrameHeaders /\ StreamID h <> 0 /\ frag <> [] /\ slen frag <= Length h
  | PriorityFrame _ p => Type_ h = FramePriority /\ StreamID h <> 0 /\ Length h = 5 /\ 0 <= StreamDep p < 2 ^ 31
  | RSTStreamFrame _ code => Type_ h = FrameRSTStream /\ StreamID h <> 0 /\ Length h = 4 /\ 0 <= code < 2 ^ 32
  | SettingsFrame _ p =>
      Type_ h = FrameSettings /\ StreamID h = 0 /\ slen p = Length h /\ slen p mod 6 = 0 /\
      (IsAck f = true -> p = []) /\
      (forall v, find_setting (E:=http2.error) p SettingInitialWindowSize = Ok (Some v) -> v < 2 ^ 31)
  | PushPromiseFrame _ id frag =>
      Type_ h = FramePushPromise /\ StreamID h <> 0 /\ 0 <= id < 2 ^ 31 /\ slen frag <= Length h
  | PingFrame _ data => Type_ h = FramePing /\ StreamID h = 0 /\ slen data = 8
  | GoAwayFrame _ id code debug =>
      Type_ h = FrameGoAway /\ StreamID h = 0 /\ 0 <= id < 2 ^ 31 /\ 0 <= code < 2 ^ 32 /\ slen debug <= Length h
  | WindowUpdateFrame _ incr => Type_ h = FrameWindowUpdate /\ 0 < incr < 2 ^ 31
  | ContinuationFrame _ frag => Type_ h = FrameContinuation /\ StreamID h <> 0 /\ slen frag = Length h
  | UnknownFrame _ p => FrameContinuation < Type_ h /\ slen p = Length h
  | MetaHeadersFrame _ _ _ _ => Type_ h = FrameHeaders /\ StreamID h <> 0
  end.

(** A parser's outcome: a well-formed frame with this header that can be looked at, or an error. *)
Definition parsed (fh : FrameHeader) (x : res http2.error Frame) : Prop :=
  match x with
  | Ok f => Header f = fh /\ frame_wf f /\ (forall prio fs t, f <> MetaHeadersFrame fh prio fs t)
  | Err _ => True
  | Panic | Diverge => False
  end.

Lemma parsed_bind {A} fh (P : A -> Prop) (x : res http2.error A) k :
  match x with Ok a => P a | Err _ => True | _ => False end -> (forall a, P a -> parsed fh (k a)) ->
  parsed fh (x ≫= k).
Proof. destruct x; simpl; auto. Qed.

Lemma slice_head {E} (p : list byte) j :
  0 <= j <= slen p -> slice (E:=E) p 0 j = Ok (take (Z.to_nat j) p).
Proof.
  intros Hj. unfold slice. zcases; try lia. cbn [andb]. rewrite Z.sub_0_r. by rewrite drop_0.
Qed.

Lemma strip_ok {E} p n : 0 <= n <= slen p -> exists q, strip (E:=E) p n = Ok q /\ slen q = slen p - n.
Proof.
  intros Hn. unfold strip. rewrite slice_head by lia. eexists. split; [done|].
  unfold slen in *. rewrite length_take. lia.
Qed.

Lemma BigEndian_ok {E} p : 4 <= slen p -> exists v, BigEndian_Uint32 (E:=E) p = Ok v /\ 0 <= v < 2 ^ 32.
Proof.
  intros Hp. destruct p as [|a [|b [|c [|d p]]]]; try (unfold slen in Hp; simpl in Hp; lia).
  eexists. split; [done|]. apply be32_range.
Qed.

(** The integer in the four bytes from [i] on. *)
Lemma slice_uint32 {E} p i :
  0 <= i -> i + 4 <= slen p ->
  exists v, (q ← slice (E:=E) p i (i + 4); BigEndian_Uint32 q) = Ok v /\ 0 <= v < 2 ^ 32.
Proof.
  intros Hi Hp. unfold slice. zcases; try lia. cbn [andb mbind res_bind]. apply BigEndian_ok.
  unfold slen in *. rewrite length_take, length_drop. lia.
Qed.

Lemma readByte_ok p :
  match readByte p with Ok (q, n) => slen q = slen p - 1 /\ 0 <= n < 256 | Err _ => True | _ => False end.
Proof. destruct p; [done|]. simpl. rewrite slen_cons. pose proof (Z_of_byte_range b). lia. Qed.

Lemma readUint32_ok p :
  match readUint32 p with Ok (q, v) => slen q = slen p - 4 /\ 0 <= v < 2 ^ 32 | Err _ => True | _ => False end.
Proof.
  destruct p as [|a [|b [|c [|d p]]]]; try done. simpl. rewrite !slen_cons. pose proof (be32_range a b c d). lia.
Qed.

Lemma read_padding (b : bool) p :
  match (if b then readByte p else Ok (p, 0)) with
  | Ok (q, n) => slen q <= slen p /\ 0 <= n < 256
  | Err _ => True
  | _ => False
  end.
Proof. destruct b; [|simpl; lia]. pose proof (readByte_ok p). destruct (readByte p) as [[]| | |]; try done. lia. Qed.

Lemma mask31_range v : 0 <= v -> 0 <= Z.land v mask31 < 2 ^ 31.
Proof. intros. rewrite mask31_mod. apply Z.mod_pos_bound. lia. Qed.

Fixpoint find_setting_ok {E} (p : list byte) (s : Z) {struct p} :
  slen p mod 6 = 0 -> exists o, find_setting (E:=E) p s = Ok o.
Proof.
  destruct p as [|a [|b [|c [|d [|e [|f p]]]]]]; intros H; try (unfold slen in H; simpl in H; done).
  { by eexists. }
  cbn [find_setting]. destruct (be16 a b =? s); [by eexists|]. apply find_setting_ok.
  rewrite !slen_cons in H. replace (1 + _) with (slen p + 1 * 6) in H by lia. by rewrite Z_mod_plus_full in H.
Qed.

(** Every parser, on any payload of the length in the header. *)
Section parsers.
Context (fh : FrameHeader) (p : list byte).
Context (Hv : valid fh = true) (Hid : 0 <= StreamID fh < 2 ^ 31).
Context (Hp : slen p = Length fh) (Hlen : Length fh < 2 ^ 24).

Local Ltac well_formed := cbn [mbind res_bind negb parsed Header]; unfold frame_wf; cbn [Header StreamDep];
  pose proof (slen_nonneg p); repeat split; try done; try lia.

Lemma parseDataFrame_ok : Type_ fh = FrameData -> parsed fh (parseDataFrame fh p).
Proof.
  intros Ht. pose proof (slen_nonneg p) as Hp0. unfold parseDataFrame. destruct (Z.eqb_spec (StreamID fh) 0); [done|].
  eapply parsed_bind; [apply read_padding|]. intros [q n'] [Hq Hn]. destruct (Z.ltb_spec (slen q) n'); [done|].
  destruct (strip_ok (E:=http2.error) q n') as (d & -> & Hd); [lia|]. well_formed.
Qed.

Lemma parseHeadersFrame_ok : Type_ fh = FrameHeaders -> parsed fh (parseHeadersFrame fh p).
Proof.
  intros Ht. pose proof (slen_nonneg p) as Hp0. unfold parseHeadersFrame. destruct (Z.eqb_spec (StreamID fh) 0); [done|].
  eapply parsed_bind; [apply read_padding|]. intros [q pad] [Hq Hpad].
  apply (parsed_bind _ (fun '(q', prio) => slen q' <= slen q)).
  { destruct (Has (Flags fh) FlagHeadersPriority); [|simpl; lia].
    pose proof (readUint32_ok q). destruct (readUint32 q) as [[q1 v]| | |]; try done. cbn [mbind res_bind].
    pose proof (readByte_ok q1). destruct (readByte q1) as [[q2 wt]| | |]; try done. simpl. lia. }
  intros [q' prio] Hq'. destruct (Z.leb_spec (slen q' - pad) 0); [done|].
  destruct (strip_ok (E:=http2.error) q' pad) as (d & -> & Hd); [lia|]. well_formed.
  intros ->. rewrite slen_nil in Hd. lia.
Qed.

Lemma parsePriorityFrame_ok : Type_ fh = FramePriority -> parsed fh (parsePriorityFrame fh p).
Proof.
  intros Ht. pose proof (slen_nonneg p) as Hp0. unfold parsePriorityFrame. destruct (Z.eqb_spec (StreamID fh) 0); [done|].
  destruct (Z.eqb_spec (slen p) 5) as [H5|]; [|done]. cbn [negb].
  destruct (slice_uint32 (E:=http2.error) p 0) as (v & Hs & Hvr); [lia..|]. change (0 + 4) with 4 in Hs. rewrite Hs.
  assert (exists wt, index (E:=http2.error) p 4 = Ok wt) as [wt ->].
  { unfold index. destruct (lookup_lt_is_Some_2 p 4) as [x Hx]; [unfold slen in H5; lia|]. exists x. change (Z.to_nat 4) with 4%nat. by rewrite Hx. }
  pose proof (mask31_range v ltac:(lia)).
  well_formed.
Qed.

Lemma parseRSTStreamFrame_ok : Type_ fh = FrameRSTStream -> parsed fh (parseRSTStreamFrame fh p).
Proof.
  intros Ht. pose proof (slen_nonneg p) as Hp0. unfold parseRSTStreamFrame.
  destruct (Z.eqb_spec (slen p) 4) as [H4|]; [|done].
  destruct (Z.eqb_spec (StreamID fh) 0); [done|]. cbn [negb].
  destruct (slice_uint32 (E:=http2.error) p 0) as (v & Hs & Hvr); [lia..|]. change (0 + 4) with 4 in Hs. rewrite Hs.
  well_formed.
Qed.

Lemma parseSettingsFrame_ok : Type_ fh = FrameSettings -> parsed fh (parseSettingsFrame fh p).
Proof.
  intros Ht. pose proof (slen_nonneg p) as Hp0. unfold parseSettingsFrame.
  destruct (Has (Flags fh) FlagSettingsAck && (0 <? Length fh)) eqn:Hack; [done|].
  destruct (Z.eqb_spec (StreamID fh) 0); [|done]. destruct (Z.eqb_spec (slen p mod 6) 0) as [H6|]; [|done]. cbn [negb].
  unfold SettingsFrame_Value, checkValid. rewrite Hv. cbn [mbind res_bind].
  assert (forall (Hw : forall v, find_setting (E:=http2.error) p SettingInitialWindowSize = Ok (Some v) -> v < 2 ^ 31),
    parsed fh (Ok (SettingsFrame fh p))) as Hgood.
  { intros Hw. well_formed.
    unfold IsAck. cbn [Header]. intros Ha. rewrite Ha in Hack. cbn [andb] in Hack.
    apply nil_length_inv. unfold slen in *. lia. }
  destruct (find_setting_ok (E:=http2.error) p SettingInitialWindowSize H6) as [o Ho]. rewrite Ho.
  cbn [mbind res_bind]. change mask31 with (2 ^ 31 - 1). destruct o as [v|]; [|apply Hgood; by rewrite Ho].
  destruct (Z.ltb_spec (2 ^ 31 - 1) v); [done|]. apply Hgood. rewrite Ho. intros ? [= <-]. lia.
Qed.

Lemma parsePushPromise_ok : Type_ fh = FramePushPromise -> parsed fh (parsePushPromise fh p).
Proof.
  intros Ht. pose proof (slen_nonneg p) as Hp0. unfold parsePushPromise. destruct (Z.eqb_spec (StreamID fh) 0); [done|].
  eapply parsed_bind; [apply read_padding|]. intros [q pad] [Hq Hpad].
  eapply parsed_bind; [apply readUint32_ok|]. intros [q1 v] [Hq1 Hvr]. destruct (Z.ltb_spec (slen q1) pad); [done|].
  destruct (strip_ok (E:=http2.error) q1 pad) as (d & -> & Hd); [lia|]. pose proof (mask31_range v ltac:(lia)).
  well_formed.
Qed.

Lemma parsePingFrame_ok : Type_ fh = FramePing -> parsed fh (parsePingFrame fh p).
Proof.
  intros Ht. pose proof (slen_nonneg p) as Hp0. unfold parsePingFrame.
  destruct (Z.eqb_spec (slen p) 8); [|done]. destruct (Z.eqb_spec (StreamID fh) 0); [|done].
  well_formed.
Qed.

Lemma parseGoAwayFrame_ok : Type_ fh = FrameGoAway -> parsed fh (parseGoAwayFrame fh p).
Proof.
  intros Ht. pose proof (slen_nonneg p) as Hp0. unfold parseGoAwayFrame.
  destruct (Z.eqb_spec (StreamID fh) 0); [|done]. cbn [negb].
  destruct (Z.ltb_spec (slen p) 8); [done|].
  destruct (slice_uint32 (E:=http2.error) p 0) as (u & Hs & Hur); [lia..|]. change (0 + 4) with 4 in Hs. rewrite Hs.
  destruct (slice_uint32 (E:=http2.error) p 4) as (v & Hs' & Hvr); [lia..|]. change (4 + 4) with 8 in Hs'. rewrite Hs'.
  cbn [mbind res_bind]. unfold slice_from, slice. zcases; try lia. cbn [andb]. pose proof (mask31_range u ltac:(lia)). well_formed.
  unfold slen in *. rewrite length_take, length_drop. lia.
Qed.

Lemma parseWindowUpdateFrame_ok : Type_ fh = FrameWindowUpdate -> parsed fh (parseWindowUpdateFrame fh p).
Proof.
  intros Ht. pose proof (slen_nonneg p) as Hp0. unfold parseWindowUpdateFrame. destruct (Z.eqb_spec (slen p) 4); [|done]. cbn [negb].
  destruct (slice_uint32 (E:=http2.error) p 0) as (v & Hs & Hvr); [lia..|]. change (0 + 4) with 4 in Hs. rewrite Hs.
  cbn [mbind res_bind]. pose proof (mask31_range v ltac:(lia)).
  destruct (Z.eqb_spec (Z.land v mask31) 0); [by destruct (StreamID fh =? 0)|].
  well_formed.
Qed.

Lemma parseContinuationFrame_ok : Type_ fh = FrameContinuation -> parsed fh (parseContinuationFrame fh p).
Proof.
  intros Ht. pose proof (slen_nonneg p) as Hp0. unfold parseContinuationFrame. destruct (Z.eqb_spec (StreamID fh) 0); [done|].
  well_formed.
Qed.

Lemma parse_ok : 0 <= Type_ fh < 256 -> parsed fh (typeFrameParser (Type_ fh) fh p).
Proof.
  intros Ht. unfold typeFrameParser.
  destruct (Z.eqb_spec (Type_ fh) FrameData); [by apply parseDataFrame_ok|].
  destruct (Z.eqb_spec (Type_ fh) FrameHeaders); [by apply parseHeadersFrame_ok|].
  destruct (Z.eqb_spec (Type_ fh) FramePriority); [by apply parsePriorityFrame_ok|].
  destruct (Z.eqb_spec (Type_ fh) FrameRSTStream); [by apply parseRSTStreamFrame_ok|].
  destruct (Z.eqb_spec (Type_ fh) FrameSettings); [by apply parseSettingsFrame_ok|].
  destruct (Z.eqb_spec (Type_ fh) FramePushPromise); [by apply parsePushPromise_ok|].
  destruct (Z.eqb_spec (Type_ fh) FramePing); [by apply parsePingFrame_ok|].
  destruct (Z.eqb_spec (Type_ fh) FrameGoAway); [by apply parseGoAwayFrame_ok|].
  destruct (Z.eqb_spec (Type_ fh) FrameWindowUpdate); [by apply parseWindowUpdateFrame_ok|].
  destruct (Z.eqb_spec (Type_ fh) FrameContinuation); [by apply parseContinuationFrame_ok|].
  unfold parseUnknownFrame. cbn [parsed Header]. unfold frame_wf. cbn [Header]. pose proof (slen_nonneg p).
  unfold FrameData, FrameHeaders, FramePriority, FrameRSTStream, FrameSettings, FramePushPromise, FramePing,
  FrameGoAway, FrameWindowUpdate, FrameContinuation in *. repeat split; try done; lia.
Qed.
End parsers.
