(* ===== verification/H2ReadTotal.v ===== *)
(** * HTTP/2 frames: reading is total and what is read is well formed

    [ReadFrame] on any input: it returns a frame or an error, keeps the HPACK
    decoder usable, and the frames it returns are well formed, those that stand for whole
    header blocks included. *)

From stdpp Require Import base list strings.
From Stdlib Require Import ZArith Strings.Byte Lia.
From S2P Require Import Prelude GoStrings GrpcStatus.
From S2P Require Import Hpack HpackTable HpackDecoder HpackSync HpackWrite.
From S2P Require Import H2Errors H2Frame H2Framer H2Calls H2Parse H2Order H2RoundTrip.
Open Scope Z_scope.

(** ** One frame, before header blocks are joined *)

Definition read_one : RM Frame :=
  _ ← modify (fun f => set_lastFrame (set_errDetail f None) (invalidate <$> lastFrame f));
  fh ← readFrameHeader;
  max ← gets maxReadSize;
  if max <? Length fh then throw http2.ErrFrameTooLarge else
  payload ← read_full (Length fh);
  f ← parse_frame fh payload;
  _ ← checkFrameOrder f;
  mret f.

(** The fields that reading a frame leaves alone. *)
Definition same_setup (fr fr' : Framer) : Prop :=
  ReadMetaHeaders fr' = ReadMetaHeaders fr /\ MaxHeaderListSize fr' = MaxHeaderListSize fr /\
  maxReadSize fr' = maxReadSize fr /\ AllowIllegalReads fr' = AllowIllegalReads fr.

(** [m] from [fr]: it ends, with less to read, and a frame it gives is well formed and in order. *)
Definition reads_one (fr : Framer) (x : res http2.error Frame * Framer) : Prop :=
  let '(x, fr') := x in
  same_setup fr fr' /\ framer_ok fr' /\ slen (rest (r fr')) <= slen (rest (r fr)) /\
  match x with
  | Ok f =>
      frame_wf f /\ valid (Header f) = true /\ Length (Header f) <= maxReadSize fr /\
      slen (rest (r fr')) + frameHeaderLen + Length (Header f) = slen (rest (r fr)) /\
      order_next (lastHeaderStream fr) f = Some (lastHeaderStream fr') /\
      (forall h prio fs t, f <> MetaHeadersFrame h prio fs t)
  | Err _ => lastHeaderStream fr' = lastHeaderStream fr
  | Panic | Diverge => False
  end.

Lemma ReadFull_spec rd n :
  0 <= n ->
  match ReadFull rd n with
  | (Ok b, rd') => slen b = n /\ rest rd = b ++ rest rd'
  | (Err _, rd') => rest rd' = []
  | _ => False
  end.
Proof.
  intros Hn. unfold ReadFull. destruct (Z.leb_spec n (slen (rest rd))) as [H|H]; [|done].
  cbn [rest]. rewrite take_drop. split; [|done]. unfold slen in *. rewrite length_take. lia.
Qed.

(** The header of nine bytes. *)
Lemma decode_header_ok {E} b :
  slen b = frameHeaderLen ->
  exists fh, decode_header (E:=E) b = Ok fh /\ valid fh = true /\ 0 <= Type_ fh < 256 /\ 0 <= Length fh < 2 ^ 24 /\
    0 <= StreamID fh < 2 ^ 31.
Proof.
  intros Hb. unfold frameHeaderLen, slen in Hb.
  destruct b as [|x [|y [|z [|t [|fl [|i [|j [|k [|l [|m b]]]]]]]]]]; simpl in Hb; try lia.
  eexists. split; [done|]. cbn [valid Type_ Length StreamID]. split; [done|]. split; [apply Z_of_byte_range|].
  split; [|apply mask31_range, be32_range]. rewrite be24_add.
  pose proof (Z_of_byte_range x). pose proof (Z_of_byte_range y). pose proof (Z_of_byte_range z). lia.
Qed.

Lemma order_framer_ok fr f : framer_ok (set_lastFrame fr (Some f)).
Proof. intros _. by eexists. Qed.

Lemma read_one_spec fr : AllowIllegalReads fr = false -> framer_ok fr -> reads_one fr (read_one fr).
Proof.
  intros Ha Hok. unfold read_one, modify. rewrite RM_bind_eq. cbv beta iota.
  set (fr1 := set_lastFrame (set_errDetail fr None) (invalidate <$> lastFrame fr)).
  assert (framer_ok fr1) as Hok1. { intros Hl. destruct (Hok Hl) as [x Hx]. simpl. rewrite Hx. by eexists. }
  pose proof (slen_nonneg (rest (r fr))) as Hge.
  assert (forall e rd, slen (rest rd) <= slen (rest (r fr)) -> reads_one fr (Err e, set_r fr1 rd)) as Herr.
  { intros e rd Hrd. split; [done|]. split; [done|]. split; [exact Hrd|done]. }
  unfold readFrameHeader, read_full. rewrite !RM_bind_eq.
  pose proof (ReadFull_spec (r fr1) frameHeaderLen ltac:(done)) as Hf.
  destruct (ReadFull (r fr1) frameHeaderLen) as [[b|e| |] rd]; try done; [|apply Herr; rewrite Hf; done].
  destruct Hf as [Hb Hr1]. change (rest (r fr1)) with (rest (r fr)) in Hr1.
  destruct (decode_header_ok (E:=http2.error) b Hb) as (fh & -> & Hv & Ht & Hlen & Hid).
  unfold lift at 1. cbv beta iota. rewrite RM_bind_eq. unfold gets at 1. cbv beta iota.
  change (maxReadSize (set_r fr1 rd)) with (maxReadSize fr).
  assert (slen (rest (r fr)) = frameHeaderLen + slen (rest rd)) as Hs1 by (by rewrite Hr1, slen_app, Hb).
  unfold frameHeaderLen in *. pose proof (slen_nonneg (rest rd)).
  destruct (Z.ltb_spec (maxReadSize fr) (Length fh)); [apply Herr; lia|]. rewrite RM_bind_eq.
  pose proof (ReadFull_spec (r (set_r fr1 rd)) (Length fh) ltac:(lia)) as Hf.
  destruct (ReadFull (r (set_r fr1 rd)) (Length fh)) as [[p|e| |] rd2]; try done; [|apply Herr; rewrite Hf; done].
  destruct Hf as [Hp Hr2]. change (rest (r (set_r fr1 rd))) with (rest rd) in Hr2.
  assert (slen (rest rd) = Length fh + slen (rest rd2)) as Hs2 by (by rewrite Hr2, slen_app, Hp).
  change (set_r (set_r fr1 rd) rd2) with (set_r fr1 rd2). rewrite RM_bind_eq. unfold parse_frame.
  pose proof (parse_ok fh p Hv Hid Hp ltac:(lia) Ht) as Hpar.
  destruct (typeFrameParser (Type_ fh) fh p) as [f|e| |]; try done.
  2: { destruct e; apply Herr; lia. }
  destruct Hpar as (Hh & Hwf & Hnm). unfold lift. cbv beta iota. rewrite RM_bind_eq.
  pose proof (checkFrameOrder_spec f (set_r fr1 rd2) Ha Hok1) as Hc.
  change (lastHeaderStream (set_r fr1 rd2)) with (lastHeaderStream fr) in Hc.
  destruct (order_next (lastHeaderStream fr) f) as [l|] eqn:Ho.
  - rewrite Hc. split; [done|]. split; [intros _; by eexists|]. split; [simpl; lia|].
    split; [done|]. rewrite Hh. split; [done|]. split; [done|]. split; [simpl; unfold frameHeaderLen; lia|].
    split; [done|]. intros h prio fs t ->. simpl in Hh. subst h. by eapply Hnm.
  - destruct Hc as [d ->]. split; [done|]. split; [apply order_framer_ok|]. split; [simpl; lia|done].
Qed.

Lemma lift_bind {A B} (x : A) (f : A -> RM B) s : (lift (Ok x) ≫= f) s = f x s.
Proof. done. Qed.

Lemma gets_bind {A B} (g : Framer -> A) (f : A -> RM B) s : (gets g ≫= f) s = f (g s) s.
Proof. done. Qed.

Lemma modify_bind {B} g (k : unit -> RM B) s : (modify g ≫= k) s = k tt (g s).
Proof. done. Qed.

(** [ReadFrame] reads one frame, and joins a header block if it should. *)
Lemma ReadFrame_one fuel fr :
  ReadFrame (S fuel) fr =
  match read_one fr with
  | (Ok f, s) =>
      if (Type_ (Header f) =? FrameHeaders) && bool_decide (is_Some (ReadMetaHeaders s)) then
        match f with
        | HeadersFrame h prio frag => readMetaFrame (ReadFrame fuel) fuel h prio frag s
        | _ => (Panic, s)
        end
      else (Ok f, s)
  | (Err e, s) => (Err e, s)
  | (Panic, s) => (Panic, s)
  | (Diverge, s) => (Diverge, s)
  end.
Proof.
  cbn [ReadFrame]. unfold read_one, modify. rewrite !RM_bind_eq. cbv beta iota.
  set (fr1 := set_lastFrame (set_errDetail fr None) (invalidate <$> lastFrame fr)).
  unfold readFrameHeader, read_full. rewrite !RM_bind_eq.
  pose proof (ReadFull_spec (r fr1) frameHeaderLen ltac:(done)) as Hf.
  destruct (ReadFull (r fr1) frameHeaderLen) as [[b|e| |] rd]; try done. destruct Hf as [Hb _].
  destruct (decode_header_ok (E:=http2.error) b Hb) as (fh & -> & Hv & Ht & Hlen & Hid).
  unfold lift. cbv beta iota. rewrite !gets_bind.
  destruct (_ <? Length fh) eqn:Hmax; [done|]. rewrite !RM_bind_eq.
  pose proof (ReadFull_spec (r (set_r fr1 rd)) (Length fh) ltac:(lia)) as Hf.
  destruct (ReadFull (r (set_r fr1 rd)) (Length fh)) as [[p|e| |] rd2]; try done. destruct Hf as [Hp _].
  rewrite !RM_bind_eq. unfold parse_frame.
  pose proof (parse_ok fh p Hv Hid Hp ltac:(lia) Ht) as Hpar.
  destruct (typeFrameParser (Type_ fh) fh p) as [f|e| |]; try done; [|by destruct e].
  destruct Hpar as (Hh & _ & _). unfold lift. cbv beta iota. rewrite !RM_bind_eq.
  destruct (checkFrameOrder f _) as [[[]|e| |] s]; try done. cbv beta iota. rewrite ?gets_bind.
  change ((mret f : RM Frame) s) with (Ok (E:=http2.error) f, s). cbv beta iota. rewrite Hh.
  destruct (_ && _); [|done]. by destruct f.
Qed.

(** ** The fields of a header block *)

Definition request_pseudo (name : list byte) : bool := one_of name [":method"; ":path"; ":scheme"; ":authority"].
Definition response_pseudo (name : list byte) : bool := one_of name [":status"].

Definition total_size (fs : list HeaderField) : Z := foldr (fun f n => Size f + n) 0 fs.

(** Pseudo header fields first: known, all of a request or all of a response, each once.  Then the
    others, with names that the wire allows; values without control characters; and all
    within the limit on the size of the list. *)
Definition header_list_wf (limit : Z) (fs : list HeaderField) : Prop :=
  (exists ps rs, fs = ps ++ rs /\
     (Forall (fun f => request_pseudo (Name f) = true) ps \/ Forall (fun f => response_pseudo (Name f) = true) ps) /\
     NoDup (Name <$> ps) /\
     Forall (fun f => IsPseudo f = false /\ validWireHeaderFieldName (Name f) = true) rs) /\
  Forall (fun f => ValidHeaderFieldValue (Value f) = true) fs /\
  total_size fs <= limit.

(** What holds of the variables of the callback, as long as no field was invalid. *)
Definition meta_inv (limit : Z) (m : meta_env) : Prop :=
  invalid m = None ->
  (exists ps rs, Fields m = ps ++ rs /\ Forall (fun f => IsPseudo f = true) ps /\
     Forall (fun f => IsPseudo f = false /\ validWireHeaderFieldName (Name f) = true) rs /\
     (sawRegular m = false -> rs = [])) /\
  Forall (fun f => ValidHeaderFieldValue (Value f) = true) (Fields m) /\
  0 <= remainSize m < 2 ^ 32 /\ total_size (Fields m) + remainSize m <= limit.

Lemma total_size_app l1 l2 : total_size (l1 ++ l2) = total_size l1 + total_size l2.
Proof. induction l1 as [|f l1 IH]; [done|]. simpl. fold (total_size l1). lia. Qed.

(** The callback keeps the invariant, whatever field it is given. *)
Lemma meta_emit_inv limit f en m : meta_inv limit m -> meta_inv limit (meta_emit f (en, m)).2.
Proof.
  intros Hm. unfold meta_emit. pose proof (Size_range f).
  destruct (ValidHeaderFieldValue (Value f)) eqn:Hval.
  2: { destruct (IsPseudo f); [destruct (sawRegular m)|destruct (validWireHeaderFieldName (Name f))]; by intros ?. }
  destruct (IsPseudo f) eqn:Hps.
  - destruct (sawRegular m) eqn:Hsaw; [by intros ?|]. cbn [negb orb].
    destruct (invalid m) eqn:Hinv; [by intros ?|].
    destruct (Hm Hinv) as ((ps & rs & Hfs & Hpsall & Hrs & Hno) & Hvals & Hrem & Htot).
    rewrite (Hno Hsaw), app_nil_r in Hfs. destruct (Z.ltb_spec (remainSize m) (Size f)); intros _; cbn [snd].
    + split; [|done]. exists ps, []. by rewrite app_nil_r.
    + cbn [Fields sawRegular remainSize invalid]. unfold uint32. rewrite Z.mod_small by lia. split; [|split; [|split; [lia|]]].
      * exists (ps ++ [f]), []. rewrite app_nil_r, Hfs. split; [done|]. split; [|done].
        apply Forall_app. split; [done|]. by apply Forall_singleton.
      * apply Forall_app. split; [done|]. by apply Forall_singleton.
      * rewrite total_size_app. simpl. lia.
  - destruct (validWireHeaderFieldName (Name f)) eqn:Hn; [|by intros ?].
    rewrite orb_true_r. destruct (invalid m) eqn:Hinv; [by intros ?|].
    destruct (Hm Hinv) as ((ps & rs & Hfs & Hpsall & Hrs & Hno) & Hvals & Hrem & Htot).
    destruct (Z.ltb_spec (remainSize m) (Size f)); intros _; cbn [snd].
    + split; [|done]. by exists ps, rs.
    + cbn [Fields sawRegular remainSize invalid]. unfold uint32. rewrite Z.mod_small by lia. split; [|split; [|split; [lia|]]].
      * exists ps, (rs ++ [f]). rewrite Hfs, app_assoc. split; [done|]. split; [done|]. split; [|done].
        apply Forall_app. split; [done|]. by apply Forall_singleton.
      * apply Forall_app. split; [done|]. by apply Forall_singleton.
      * rewrite total_size_app. simpl. lia.
Qed.

(** [checkPseudos] finds what its name says. *)
Lemma check_pseudos_None seen fs req resp :
  check_pseudos seen fs req resp = None ->
  Forall (fun f => request_pseudo (Name f) || response_pseudo (Name f) = true) fs /\
  NoDup (Name <$> fs) /\ Forall (fun f => Name f ∉ Name <$> seen) fs /\
  (req || existsb (fun f => request_pseudo (Name f)) fs) && (resp || existsb (fun f => response_pseudo (Name f)) fs) = false.
Proof.
  revert seen req resp. induction fs as [|f fs IH]; intros seen req resp; cbn [check_pseudos].
  { rewrite fmap_nil. simpl. rewrite !orb_false_r. destruct (req && resp); [done|]. by repeat split; constructor. }
  fold (request_pseudo (Name f)) (response_pseudo (Name f)).
  destruct (negb (request_pseudo (Name f)) && negb (response_pseudo (Name f))) eqn:Hk; [done|].
  destruct (existsb _ seen) eqn:Hex; [done|]. intros (Hall & Hnd & Hseen & Hmix)%IH.
  assert (Name f ∉ Name <$> seen) as Hf.
  { intros (g & Hg & Hin)%list_elem_of_fmap. apply not_true_iff_false in Hex. apply Hex, existsb_exists. exists g.
    split; [by apply list_elem_of_In|]. by apply bool_decide_eq_true. }
  rewrite fmap_app in Hseen. split; [|split; [|split]].
  - constructor; [|done]. by destruct (request_pseudo (Name f)), (response_pseudo (Name f)).
  - rewrite fmap_cons. constructor; [|done]. intros (g & Hg & Hin)%list_elem_of_fmap.
    rewrite Forall_forall in Hseen. apply (Hseen g Hin). rewrite <- Hg. apply elem_of_app. right. simpl. by left.
  - constructor; [done|]. eapply Forall_impl; [exact Hseen|]. intros g Hg Hin. apply Hg, elem_of_app. by left.
  - cbn [existsb]. rewrite <- !orb_assoc in *. done.
Qed.

Lemma PseudoFields_app ps rs :
  Forall (fun f => IsPseudo f = true) ps ->
  Forall (fun f => IsPseudo f = false /\ validWireHeaderFieldName (Name f) = true) rs -> PseudoFields (ps ++ rs) = ps.
Proof.
  intros Hps Hrs. induction Hps as [|f ps Hf _ IH]; simpl.
  - destruct Hrs as [|f rs [Hf _] _]; [done|]. simpl. by rewrite Hf.
  - by rewrite Hf, IH.
Qed.

Lemma checked_fields_wf limit m :
  meta_inv limit m -> invalid m = None -> checkPseudos (Fields m) = None -> header_list_wf limit (Fields m).
Proof.
  intros Hm Hinv Hchk. destruct (Hm Hinv) as ((ps & rs & Hfs & Hps & Hrs & _) & Hvals & Hrem & Htot).
  split; [|split; [done|lia]]. exists ps, rs. split; [done|]. unfold checkPseudos in Hchk.
  rewrite Hfs, PseudoFields_app in Hchk by done.
  apply check_pseudos_None in Hchk as (Hknown & Hnd & _ & Hmix). cbn [orb] in Hmix.
  split; [|split; done]. apply andb_false_iff in Hmix as [Hno|Hno]; [right|left];
    apply Forall_forall; intros f Hin; rewrite Forall_forall in Hknown; specialize (Hknown f Hin);
    apply not_true_iff_false in Hno; rewrite existsb_exists in Hno;
    apply orb_true_iff in Hknown as [Hk|Hk]; try done; exfalso; apply Hno; exists f; (split; [by apply list_elem_of_In|done]).
Qed.

(** ** Header blocks *)

Definition max_added : Z := 2 ^ 62.

(** The decoder is ready for the rest of the input: its counters will not wrap around. *)
Definition table_ok (n : Z) (d : Decoder meta_env) : Prop :=
  0 <= evictCount (table (dynTab d)) /\ added (table (dynTab d)) + slen (saveBuf d) + n < max_added.

(** A Framer that can be read from. *)
Record framer_safe (fr : Framer) : Prop := {
  safe_order : AllowIllegalReads fr = false;
  safe_ok : framer_ok fr;
  safe_limit : 0 <= MaxHeaderListSize fr < 2 ^ 32;
  safe_table : forall d, ReadMetaHeaders fr = Some d -> table_ok (slen (rest (r fr))) d;
}.

Section block.
Context (limit : Z) (Hlimit : 0 <= limit < 2 ^ 32).

(** Within a block: the decoder has the callback, whose variables are as they should be. *)
Definition decoding (n : Z) (d : Decoder meta_env) : Prop :=
  safe limit (max_added - n) (meta_inv limit) (with_buf d (saveBuf d)).

Lemma decoding_table n d : decoding n d -> table_ok n d.
Proof. intros [He Ha _ _ _]. split; [done|]. simpl in Ha. lia. Qed.

Lemma hdec_Write_ok fr d frag n :
  0 <= n -> ReadMetaHeaders fr = Some d -> decoding (n + slen frag) d ->
  exists x d', hdec_Write frag fr = (x, set_hdec fr d') /\ decoding n d' /\
    match x with Ok _ | Err _ => True | _ => False end.
Proof.
  intros Hn Hd Hs. unfold hdec_Write. rewrite gets_bind, Hd.
  assert (safe limit (max_added - n) (meta_inv limit) (with_buf d (saveBuf d ++ frag))) as Hs'.
  { destruct Hs as [He Ha Hm Hem Hi]. split; try done. simpl in *. rewrite slen_app. lia. }
  destruct (Write_safe limit (max_added - n) (meta_inv limit) ltac:(lia) ltac:(unfold max_added; lia) d frag Hs')
    as (k & err & d' & -> & _ & _ & Hd').
  unfold modify. rewrite RM_bind_eq. cbv beta iota. exists (match err with Some _ => Err (http2.ConnectionError http2.ErrCodeCompression) | None => Ok tt end), d'.
  by destruct err.
Qed.

(** The loop over the frames of a block, with at least one byte of fuel for each frame left. *)
Lemma meta_loop_ok F fuel hc frag fr d :
  octets hc = Ok (E:=http2.error) frag -> HeadersEnded hc = bool_decide (lastHeaderStream fr = 0) ->
  AllowIllegalReads fr = false -> framer_ok fr -> ReadMetaHeaders fr = Some d ->
  decoding (slen (rest (r fr)) + slen frag) d -> slen (rest (r fr)) < 9 * Z.of_nat fuel ->
  exists x fr' d', meta_loop (ReadFrame (S F)) fuel hc fr = (x, fr') /\
    match x with Ok _ | Err _ => True | _ => False end /\
    AllowIllegalReads fr' = false /\ framer_ok fr' /\ MaxHeaderListSize fr' = MaxHeaderListSize fr /\
    maxReadSize fr' = maxReadSize fr /\
    slen (rest (r fr')) <= slen (rest (r fr)) /\ ReadMetaHeaders fr' = Some d' /\ decoding (slen (rest (r fr'))) d' /\
    (x = Ok tt -> lastHeaderStream fr' = 0).
Proof.
  revert hc frag fr d. induction fuel as [|fuel IH]; intros hc frag fr d Hoct Hend Ha Hok Hd Hs Hf.
  { pose proof (slen_nonneg (rest (r fr))). lia. }
  cbn [meta_loop]. rewrite Hoct, lift_bind, RM_bind_eq.
  destruct (hdec_Write_ok fr d frag (slen (rest (r fr))) (slen_nonneg _) Hd Hs) as (x & d1 & -> & Hd1 & Hx).
  destruct x as [[]|e| |]; try done.
  2: { exists (Err e), (set_hdec fr d1), d1. by repeat (split; [done|]). }
  destruct (HeadersEnded hc) eqn:He.
  { exists (Ok tt), (set_hdec fr d1), d1. symmetry in Hend. apply bool_decide_eq_true in Hend. by repeat (split; [done|]). }
  symmetry in Hend. apply bool_decide_eq_false in Hend. rewrite RM_bind_eq, ReadFrame_one.
  set (fr1 := set_hdec fr d1). pose proof (read_one_spec fr1 Ha Hok) as Hr.
  destruct (read_one fr1) as [x fr2]. destruct Hr as ((Hmeta & Hmax & Hrs & Hill) & Hok2 & Hle & Hx2).
  change (ReadMetaHeaders fr1) with (Some d1) in Hmeta. change (lastHeaderStream fr1) with (lastHeaderStream fr) in Hx2.
  change (rest (r fr1)) with (rest (r fr)) in *.
  assert (decoding (slen (rest (r fr2))) d1) as Hd2.
  { destruct Hd1 as [? Hadd ? ? ?]. split; try done. simpl in *. lia. }
  destruct x as [f|e| |]; try done.
  2: { exists (Err e), fr2, d1. rewrite Hill, Hmax, Hrs. by repeat (split; [done|]). }
  destruct Hx2 as (Hwf & Hv & Hl & Hrest & Ho & Hnm). unfold order_next in Ho.
  destruct (Z.eqb_spec (lastHeaderStream fr) 0); [done|]. cbn [negb] in Ho.
  destruct (Z.eqb_spec (Type_ (Header f)) FrameContinuation) as [Hc|]; [|done].
  destruct (Z.eqb_spec (StreamID (Header f)) (lastHeaderStream fr)) as [Hsid|]; [|done]. cbn [andb] in Ho.
  rewrite Hc. change (FrameContinuation =? FrameHeaders) with false. cbn [andb]. cbv beta iota.
  destruct Hwf as (Hsidr & Hlen & Hwf).
  destruct f as [h data|h p b|h p|h c|h p|h i b|h b|h i c b|h i|h b|h p|h p fs t]; simpl in Hc;
    try (destruct Hwf as [Hwf _]; simpl in Hwf; rewrite Hwf in Hc; done).
  - destruct Hwf as (_ & _ & Hfrag). simpl in Hfrag, Hv, Hrest.
    destruct (IH (ContinuationFrame h b) b fr2 d1) as (x & fr' & d' & Hrun & ? & ? & ? & Hmh & Hmr & Hle' & ?); try done.
    + unfold octets, checkValid. simpl. by rewrite Hv.
    + injection Ho as Ho. rewrite <- Ho. destruct (HeadersEnded (ContinuationFrame h b)); [done|]. symmetry.
      apply bool_decide_eq_false. simpl in Hsid. by rewrite Hsid.
    + by rewrite Hill.
    + destruct Hd1 as [? Hadd ? ? ?]. split; try done. simpl in *. unfold frameHeaderLen in Hrest. lia.
    + unfold frameHeaderLen in Hrest. simpl in Hlen. lia.
    + exists x, fr', d'. rewrite Hmh, Hmr, Hmax, Hrs. repeat (split; [done|]). split; [lia|done].
  - destruct Hwf as [Hwf _]. simpl in Hwf. rewrite Hc in Hwf. lia.
Qed.
End block.

Lemma maxHeaderListSize_range fr :
  0 <= MaxHeaderListSize fr < 2 ^ 32 -> 0 <= maxHeaderListSize fr < 2 ^ 32 /\ maxHeaderStringLen fr = maxHeaderListSize fr.
Proof.
  intros H. assert (0 <= maxHeaderListSize fr < 2 ^ 32) as Hr.
  { unfold maxHeaderListSize. destruct (MaxHeaderListSize fr =? 0); [done|lia]. }
  split; [done|]. unfold maxHeaderStringLen. rewrite int64_small by lia. unfold uint32. rewrite Z.mod_small by lia.
  by rewrite Z.eqb_refl.
Qed.

(** A block: the joined frame, or an error; the Framer stays usable. *)
Definition block_outcome (fr : Framer) (h : FrameHeader) (x : res http2.error Frame * Framer) : Prop :=
  let '(x, fr') := x in
  framer_safe fr' /\ maxReadSize fr' = maxReadSize fr /\ MaxHeaderListSize fr' = MaxHeaderListSize fr /\
  slen (rest (r fr')) <= slen (rest (r fr)) /\
  match x with
  | Ok f => exists prio fs t, f = MetaHeadersFrame (invalidate_header h) prio fs t /\
              header_list_wf (maxHeaderListSize fr) fs
  | Err _ => True
  | Panic | Diverge => False
  end.

Lemma readMetaFrame_ok fuel h prio frag fr n :
  framer_safe fr -> valid h = true -> is_Some (ReadMetaHeaders fr) ->
  HeadersEnded (HeadersFrame h prio frag) = bool_decide (lastHeaderStream fr = 0) ->
  (forall d, ReadMetaHeaders fr = Some d -> table_ok n d) -> slen (rest (r fr)) + slen frag <= n ->
  slen (rest (r fr)) < 9 * Z.of_nat fuel ->
  block_outcome fr h (readMetaFrame (ReadFrame fuel) fuel h prio frag fr).
Proof.
  intros [Ha Hok Hmh _] Hv [d Hd] Hend Htab Hn Hf. specialize (Htab d Hd). destruct Htab as [Hev Hadd].
  destruct (maxHeaderListSize_range fr Hmh) as [Hlim Hstr]. set (limit := maxHeaderListSize fr) in *.
  destruct fuel as [|F]; [pose proof (slen_nonneg (rest (r fr))); lia|].
  unfold readMetaFrame. rewrite gets_bind, Ha, gets_bind, Hd, modify_bind. cbv beta.
  match goal with |- context [set_hdec fr ?x] => set (d0 := x) end. set (fr0 := set_hdec fr d0).
  assert (decoding limit (slen (rest (r fr0)) + slen frag) d0) as Hd0.
  { split; simpl; [done|lia|done| |].
    - intros f en m _ Hm. by apply meta_emit_inv.
    - intros _. split; [by exists [], []|]. split; [done|].
      cbn [Fields remainSize total_size foldr]. fold limit. lia. }
  destruct (meta_loop_ok limit Hlim F (S F) (HeadersFrame h prio frag) frag fr0 d0)
    as (x & fr1 & d1 & Hrun & Hx & Ha1 & Hok1 & Hmh1 & Hmr1 & Hle1 & Hd1 & Hdec1 & _); try done.
  { unfold octets, checkValid. simpl. by rewrite Hv. }
  assert (forall dx fr2, framer_ok fr2 -> AllowIllegalReads fr2 = false -> MaxHeaderListSize fr2 = MaxHeaderListSize fr ->
    maxReadSize fr2 = maxReadSize fr -> slen (rest (r fr2)) <= slen (rest (r fr)) ->
    decoding limit (slen (rest (r fr2))) dx ->
    framer_safe (set_hdec fr2 (with_emit dx no_emit (env dx))) ) as Hsafe.
  { intros dx fr2 ? ? Hm2 ? ? Hdx. split; try done; [by simpl; rewrite Hm2|]. intros ? [= <-].
    by apply decoding_table in Hdx. }
  unfold deferred. rewrite RM_bind_eq, Hrun.
  destruct x as [[]|e| |]; try done.
  2: { rewrite Hd1. split; [by apply Hsafe|]. done. }
  unfold hdec_Close. rewrite RM_bind_eq, gets_bind, Hd1.
  destruct (Close d1) as [err d2] eqn:Hclose.
  assert (decoding limit (slen (rest (r fr1))) d2 /\ env d2 = env d1) as [Hdec2 Henv].
  { unfold Close in Hclose. destruct (0 <? slen (saveBuf d1)); injection Hclose as <- <-; [|done].
    split; [|done]. destruct Hdec1 as [? Hadd1 ? ? ?]. split; try done. simpl in *. pose proof (slen_nonneg (saveBuf d1)).
    rewrite slen_nil. lia. }
  rewrite modify_bind. cbv beta.
  destruct err as [err|].
  { split; [by apply Hsafe|]. done. }
  unfold mret at 1, RM_ret at 1. unfold hdec_env. rewrite RM_bind_eq, gets_bind. cbn [set_hdec ReadMetaHeaders].
  change ((mret (env d2) : RM meta_env) (set_hdec fr1 d2)) with (Ok (E:=http2.error) (env d2), set_hdec fr1 d2).
  cbv beta iota. destruct (invalid (env d2)) as [c|] eqn:Hinv.
  { split; [by apply Hsafe|]. done. }
  destruct (checkPseudos (Fields (env d2))) as [c|] eqn:Hchk.
  { split; [by apply Hsafe|]. done. }
  split; [by apply Hsafe|]. split; [done|]. split; [done|]. split; [done|].
  eexists _, _, _. split; [done|]. apply checked_fields_wf; [|done..]. apply (safe_inv _ _ _ _ Hdec2).
Qed.

(** What [ReadFrame] returns: a well-formed frame; the joined frame of a header block has the
    fields it promises. *)
Definition returned_wf (fr : Framer) (f : Frame) : Prop :=
  frame_wf f /\ Length (Header f) <= maxReadSize fr /\
  match f with
  | HeadersFrame h _ _ => valid h = true /\ ReadMetaHeaders fr = None
  | MetaHeadersFrame _ _ fs _ => is_Some (ReadMetaHeaders fr) /\ header_list_wf (maxHeaderListSize fr) fs
  | _ => valid (Header f) = true
  end.

Lemma frame_wf_headers f :
  frame_wf f -> Type_ (Header f) = FrameHeaders -> (forall h prio fs t, f <> MetaHeadersFrame h prio fs t) ->
  exists h prio frag, f = HeadersFrame h prio frag.
Proof.
  intros (_ & _ & Hwf) Ht Hnm. destruct f as [h data|h p b|h p|h c|h p|h i b|h b|h i c b|h i|h b|h p|h p fs t]; simpl in *;
    try (destruct Hwf as [Hwf _]; rewrite Hwf in Ht; done).
  - by eexists _, _, _.
  - destruct Hwf as [Hwf _]. rewrite Ht in Hwf. unfold FrameContinuation, FrameHeaders in Hwf. lia.
  - by destruct (Hnm h p fs t).
Qed.

Lemma ReadFrame_safe fuel fr :
  framer_safe fr -> slen (rest (r fr)) < 9 * Z.of_nat fuel ->
  exists x fr', ReadFrame fuel fr = (x, fr') /\ framer_safe fr' /\
    match x with
    | Ok f => returned_wf fr f /\ slen (rest (r fr')) + frameHeaderLen <= slen (rest (r fr))
    | Err _ => slen (rest (r fr')) <= slen (rest (r fr))
    | Panic | Diverge => False
    end.
Proof.
  intros Hsafe Hf. destruct fuel as [|fuel]; [pose proof (slen_nonneg (rest (r fr))); lia|].
  rewrite ReadFrame_one. pose proof Hsafe as [Ha Hok Hmh Htab]. pose proof (read_one_spec fr Ha Hok) as Hr.
  destruct (read_one fr) as [x fr1]. destruct Hr as ((Hmeta & Hmax & Hmr & Hill) & Hok1 & Hle & Hx).
  assert (framer_safe fr1) as Hsafe1.
  { split; [by rewrite Hill|done|by rewrite Hmax|]. intros d Hd. rewrite Hmeta in Hd.
    destruct (Htab d Hd). split; [done|lia]. }
  destruct x as [f|e| |]; try done; [|by exists (Err e), fr1].
  destruct Hx as (Hwf & Hv & Hlen & Hrest & Ho & Hnm). unfold frameHeaderLen in *.
  destruct (Hwf) as (Hsid & Hlenr & _).
  destruct (Z.eqb_spec (Type_ (Header f)) FrameHeaders) as [Ht|Ht]; cbn [andb].
  2: { exists (Ok f), fr1. split; [done|]. split; [done|]. split; [|lia]. split; [done|]. split; [done|].
       destruct f as [h d|h p b|h p|h c|h p|h i b|h b|h i c b|h i|h b|h p|h p fs t]; try done;
         [by destruct Hwf as (_ & _ & Hwf & _)|by destruct (Hnm h p fs t)]. }
  destruct (frame_wf_headers f Hwf Ht Hnm) as (h & prio & frag & ->). cbn [Header] in *.
  destruct (bool_decide_reflect (is_Some (ReadMetaHeaders fr1))) as [Hm|Hm].
  2: { exists (Ok (HeadersFrame h prio frag)), fr1. split; [done|]. split; [done|]. split; [|lia]. split; [done|].
       split; [done|]. split; [done|]. rewrite <- Hmeta. destruct (ReadMetaHeaders fr1); [|done]. destruct Hm. by eexists. }
  destruct Hwf as (_ & _ & _ & Hnz & Hne & Hfrag). cbn [Header] in *.
  assert (HeadersEnded (HeadersFrame h prio frag) = bool_decide (lastHeaderStream fr1 = 0)) as Hend.
  { unfold order_next in Ho. cbn [Header] in Ho. rewrite Ht in Ho.
    change (FrameHeaders =? FrameContinuation) with false in Ho. cbn [andb] in Ho. rewrite Z.eqb_refl in Ho.
    destruct (negb (lastHeaderStream fr =? 0)); [done|]. injection Ho as <-.
    destruct (HeadersEnded (HeadersFrame h prio frag)); [done|]. symmetry. by apply bool_decide_eq_false. }
  pose proof (readMetaFrame_ok fuel h prio frag fr1 (slen (rest (r fr))) Hsafe1 Hv Hm Hend) as Hb.
  destruct (readMetaFrame _ _ _ _ _ fr1) as [x fr2].
  destruct Hb as (Hsafe2 & Hmr2 & _ & Hle2 & Hx2); [intros d Hd; apply Htab; by rewrite <- Hmeta|lia..|].
  exists x, fr2. split; [done|]. split; [done|]. destruct x as [f|e| |]; try done; [|lia].
  destruct Hx2 as (prio' & fs & t & -> & Hfs). split; [|simpl in *; lia].
  split; [done|]. split; [done|]. rewrite <- Hmeta. split; [done|]. unfold maxHeaderListSize in *. by rewrite <- Hmax.
Qed.

(** C9: Reading is total.  From a Framer in a usable state - a new one, or the one left by an earlier
    call - and with as much fuel as there are frames left to read (none takes fewer than 9 bytes),
    [ReadFrame] neither panics nor runs on, whatever the bytes: it returns a frame or an error
    and leaves a Framer that is usable again, with less input after a frame.  (In particular
    the type assertion on the next frame of a header block never fails.)  Every frame that it
    returns is well formed; a joined header block has known pseudo headers, first, each once, of a
    request or of a response only, then fields with valid names; valid values; and a list no
    larger than the limit. *)
Theorem ReadFrame_total fuel fr :
  framer_safe fr -> slen (rest (r fr)) < 9 * Z.of_nat fuel ->
  exists x fr', ReadFrame fuel fr = (x, fr') /\ framer_safe fr' /\
    match x with
    | Ok f => returned_wf fr f /\ slen (rest (r fr')) + frameHeaderLen <= slen (rest (r fr))
    | Err _ => slen (rest (r fr')) <= slen (rest (r fr))
    | Panic | Diverge => False
    end.
Proof. apply ReadFrame_safe. Qed.

(** A Framer with a decoder, which reads the headers of a request in one frame: `:method: GET`. *)
Definition small_framer : Framer :=
  let fr := SetMaxReadFrameSize (NewFramer (mkReader [x00; x00; x01; x01; x05; x00; x00; x00; x01; x82] EOF)) 16384 in
  match NewDecoder (E:=hpack_error) 4096 no_emit (mkMeta [] false 0 false None) with
  | Ok d => with_meta fr d 8192
  | _ => fr
  end.

Lemma ReadFrame_total_witness :
  exists x fr', ReadFrame 2 small_framer = (x, fr') /\ framer_safe fr' /\
    match x with
    | Ok f => returned_wf small_framer f /\ slen (rest (r fr')) + frameHeaderLen <= slen (rest (r small_framer))
    | Err _ => slen (rest (r fr')) <= slen (rest (r small_framer))
    | Panic | Diverge => False
    end.
Proof.
  apply (ReadFrame_total 2 small_framer); [|done]. split; [done|by intros []|done|].
  intros d [= <-]. by split.
Defined.
