(* ===== verification/GrpcFramer.v ===== *)
(** * The framer of a gRPC connection

    http_util.go: the [framer], which writes frames through a buffer of 32 KB in
    front of the connection and flushes it where its callers say, and the loop of
    http2_server.go that cuts a header block into frames.  The buffer is the
    [bufio.Writer] of the standard library.  The connection is a parameter: its
    [Write] takes all of its argument, or some of it and gives an error, which
    is what [io.Writer] asks for.  What a client of the framer may rely on is the
    class [BufferedWriter]. *)

From stdpp Require Import base list strings.
From Stdlib Require Import ZArith Strings.Byte Lia.
From S2P Require Import Prelude GoStrings GrpcStatus Hpack HpackTable HpackDecoder.
From S2P Require Import GoBytes H2Errors GrpcHeaders H2Frame H2Write H2Framer H2Calls.
Open Scope Z_scope.

(** ** [bufio.Writer] *)

Section conn.
Context {C : Type} (conn_Write : C -> list byte -> option (Z * go_error) * C).

Record bufioWriter : Type := mkBufio {
  bw_err : option go_error;
  bw_buf : list byte;
  bw_size : Z;
  bw_wr : C;
}.

Definition NewWriterSize (c : C) (size : Z) : bufioWriter := mkBufio None [] size c.

Definition Available (b : bufioWriter) : Z := bw_size b - slen (bw_buf b).

(** Some bytes stay in the buffer when the connection fails. *)
Definition Flush (b : bufioWriter) : option go_error * bufioWriter :=
  match bw_err b with
  | Some e => (Some e, b)
  | None =>
      if slen (bw_buf b) =? 0 then (None, b) else
      match conn_Write (bw_wr b) (bw_buf b) with
      | (None, c) => (None, mkBufio None [] (bw_size b) c)
      | (Some (n, e), c) => (Some e, mkBufio (Some e) (drop (Z.to_nat n) (bw_buf b)) (bw_size b) c)
      end
  end.

(** A write of more than the buffer can hold, when it is empty. *)
Definition write_direct (b : bufioWriter) (p : list byte) : Z * bufioWriter :=
  match conn_Write (bw_wr b) p with
  | (None, c) => (slen p, mkBufio None (bw_buf b) (bw_size b) c)
  | (Some (n, e), c) => (n, mkBufio (Some e) (bw_buf b) (bw_size b) c)
  end.

(** A round of the loop of [Write]: how much of [p] it took. *)
Definition write_round (b : bufioWriter) (p : list byte) : Z * bufioWriter :=
  if slen (bw_buf b) =? 0 then write_direct b p
  else
    let n := Z.to_nat (Available b) in
    (Available b, (Flush (mkBufio (bw_err b) (bw_buf b ++ take n p) (bw_size b) (bw_wr b))).2).

(** The loop: after a round of filling and flushing the buffer is empty, after a direct write
    nothing is left, so that there are no more than two rounds. *)
Fixpoint write_rounds (rounds : nat) (b : bufioWriter) (p : list byte) (nn : Z) : Z * list byte * bufioWriter :=
  match rounds with
  | O => (nn, p, b)
  | S rounds =>
      if (Available b <? slen p) && bool_decide (bw_err b = None) then
        let '(n, b) := write_round b p in
        write_rounds rounds b (drop (Z.to_nat n) p) (nn + n)
      else (nn, p, b)
  end.

Definition bufio_Write (b : bufioWriter) (p : list byte) : Z * option go_error * bufioWriter :=
  let '(nn, p, b) := write_rounds 2 b p 0 in
  match bw_err b with
  | Some e => (nn, Some e, b)
  | None => (nn + slen p, None, mkBufio None (bw_buf b ++ p) (bw_size b) (bw_wr b))
  end.
End conn.
Arguments bufioWriter C : clear implicits.

(** ** What the framer asks of its writer *)

(** [bw_delivered] went to the connection and [bw_pending] waits in the buffer.  A failure is
    for good. *)
Class BufferedWriter (W : Type) : Type := {
  bw_Write : W -> list byte -> Z * option go_error * W;
  bw_Flush : W -> option go_error * W;
  bw_ok : W -> Prop;
  bw_delivered : W -> list byte;
  bw_pending : W -> list byte;
  bw_failed : W -> bool;
  bw_Write_spec w p : bw_ok w -> bw_failed w = false ->
    let '(n, err, w') := bw_Write w p in
    bw_ok w' /\
    match err with
    | None => n = slen p /\ bw_failed w' = false /\
        bw_delivered w' ++ bw_pending w' = bw_delivered w ++ bw_pending w ++ p
    | Some _ => bw_failed w' = true /\ bw_delivered w' `prefix_of` bw_delivered w ++ bw_pending w ++ p
    end;
  bw_Flush_spec w : bw_ok w -> bw_failed w = false ->
    let '(err, w') := bw_Flush w in
    bw_ok w' /\
    match err with
    | None => bw_failed w' = false /\ bw_delivered w' = bw_delivered w ++ bw_pending w /\ bw_pending w' = []
    | Some _ => bw_failed w' = true /\ bw_delivered w' `prefix_of` bw_delivered w ++ bw_pending w
    end;
  bw_stuck w p : bw_failed w = true ->
    (exists n e, bw_Write w p = (n, Some e, w)) /\ exists e, bw_Flush w = (Some e, w);
}.

(** ** The framer *)

Section framer.
Context {W : Type} `{BufferedWriter W}.

Record framer : Type := mk_framer {
  numWriters : Z;
  fr_write : FramerW W;   (* fr and the writer, which it writes to *)
  fr_read : Framer;       (* the reading half of fr *)
}.

Definition adjustNumWriters (f : framer) (i : Z) : Z * framer :=
  let n := int32 (numWriters f + i) in (n, mk_framer n (fr_write f) (fr_read f)).

Definition with_write (f : framer) (x : FramerW W) : framer := mk_framer (numWriters f) x (fr_read f).

Definition flushWrite (f : framer) : option http2.error * framer :=
  let '(err, w') := bw_Flush (w (fr_write f)) in
  (http2.io <$> err, with_write f (mkFramerW w' (wbuf (fr_write f)) (AllowIllegalWrites (fr_write f)))).

(** The tail that the write methods share. *)
Definition then_flush (forceFlush : bool) (f : framer) (x : option http2.error * FramerW W)
  : option http2.error * framer :=
  match x with
  | (Some e, fw) => (Some e, with_write f fw)
  | (None, fw) => if forceFlush then flushWrite (with_write f fw) else (None, with_write f fw)
  end.

Definition writeContinuation (forceFlush : bool) (streamID : Z) (endHeaders : bool) (frag : list byte) (f : framer) :=
  then_flush forceFlush f (WriteContinuation bw_Write (fr_write f) streamID endHeaders frag).
Definition writeData (forceFlush : bool) (streamID : Z) (endStream : bool) (data : list byte) (f : framer) :=
  then_flush forceFlush f (WriteData bw_Write (fr_write f) streamID endStream data).
Definition writeGoAway (forceFlush : bool) (maxStreamID code : Z) (debugData : list byte) (f : framer) :=
  then_flush forceFlush f (WriteGoAway bw_Write (fr_write f) maxStreamID code debugData).
Definition writeHeaders (forceFlush : bool) (p : HeadersFrameParam) (f : framer) :=
  then_flush forceFlush f (WriteHeaders bw_Write (fr_write f) p).
Definition writePing (forceFlush ack : bool) (data : list byte) (f : framer) :=
  then_flush forceFlush f (WritePing bw_Write (fr_write f) ack data).
Definition writePriority (forceFlush : bool) (streamID : Z) (p : PriorityParam) (f : framer) :=
  then_flush forceFlush f (WritePriority bw_Write (fr_write f) streamID p).
Definition writePushPromise (forceFlush : bool) (p : PushPromiseParam) (f : framer) :=
  then_flush forceFlush f (WritePushPromise bw_Write (fr_write f) p).
Definition writeRSTStream (forceFlush : bool) (streamID code : Z) (f : framer) :=
  then_flush forceFlush f (WriteRSTStream bw_Write (fr_write f) streamID code).
Definition writeSettings (forceFlush : bool) (settings : list Setting) (f : framer) :=
  then_flush forceFlush f (WriteSettings bw_Write (fr_write f) settings).
Definition writeSettingsAck (forceFlush : bool) (f : framer) :=
  then_flush forceFlush f (WriteSettingsAck bw_Write (fr_write f)).
Definition writeWindowUpdate (forceFlush : bool) (streamID incr : Z) (f : framer) :=
  then_flush forceFlush f (WriteWindowUpdate bw_Write (fr_write f) streamID incr).

Definition readFrame (fuel : nat) (f : framer) : res http2.error Frame * framer :=
  let '(x, fr) := ReadFrame fuel (fr_read f) in (x, mk_framer (numWriters f) (fr_write f) fr).
Definition errorDetail (f : framer) : option detail := ErrorDetail (fr_read f).

(** The methods by the calls that they make. *)
Definition framer_call (forceFlush : bool) (c : call) (f : framer) : option http2.error * framer :=
  match c with
  | CData id e data None => writeData forceFlush id e data f
  | CData id e data pad => then_flush forceFlush f (WriteDataPadded bw_Write (fr_write f) id e data pad)
  | CSettings ss => writeSettings forceFlush ss f
  | CSettingsAck => writeSettingsAck forceFlush f
  | CPing ack data => writePing forceFlush ack data f
  | CGoAway id code debug => writeGoAway forceFlush id code debug f
  | CWindowUpdate id incr => writeWindowUpdate forceFlush id incr f
  | CHeaders p => writeHeaders forceFlush p f
  | CPriority id p => writePriority forceFlush id p f
  | CRSTStream id code => writeRSTStream forceFlush id code f
  | CContinuation id e frag => writeContinuation forceFlush id e frag f
  | CPushPromise p => writePushPromise forceFlush p f
  end.
End framer.
Arguments framer W : clear implicits.

(** [newFramer] of a connection: its writing half and, with the decoder, its reading half.  The
    decoder has no callback yet; [readMetaFrame] sets it. *)
Definition newFramer {C} (conn : C) (rd : reader) : res http2.error (framer (bufioWriter C)) :=
  hdec ← NewDecoder http2InitHeaderTableSize no_emit (mkMeta [] false 0 false None);
  let fr := NewFramer rd in
  Ok (mk_framer 0 (mkFramerW (NewWriterSize conn http2IOBufSize) [] false) (with_meta fr hdec (MaxHeaderListSize fr))).

(** ** A header block as frames *)

(** The loop of [writeHeaders] of http2_server.go: the frames for the block [b], each with
    at most [http2MaxFrameLen] bytes of it, and whether to flush after. *)
Fixpoint block_calls (fuel : nat) (first : bool) (id : Z) (endStream : bool) (b : list byte) : list (bool * call) :=
  let endHeaders := slen b <=? http2MaxFrameLen in
  let size := if endHeaders then slen b else http2MaxFrameLen in
  let frag := take (Z.to_nat size) b in
  let c := if first then CHeaders (mkHeadersFrameParam id frag endStream endHeaders 0 noPriority)
           else CContinuation id endHeaders frag in
  (endHeaders, c) ::
  (if endHeaders then [] else
   match fuel with
   | O => []
   | S fuel => block_calls fuel false id endStream (drop (Z.to_nat size) b)
   end).

(** Every frame takes a byte, at least. *)
Definition header_calls (id : Z) (endStream : bool) (b : list byte) : list (bool * call) :=
  block_calls (length b) true id endStream b.

(** The frames until one fails; what is done then is the transport's. *)
Fixpoint write_calls {W} `{BufferedWriter W} (cs : list (bool * call)) (f : framer W) : option http2.error * framer W :=
  match cs with
  | [] => (None, f)
  | (forceFlush, c) :: cs =>
      match framer_call forceFlush c f with
      | (Some e, f) => (Some e, f)
      | (None, f) => write_calls cs f
      end
  end.
