(* ===== verification/GrpcFramerProps.v ===== *)
(** * The framer of a gRPC connection: what reaches the connection

    The buffer keeps the promises of [BufferedWriter], and with any writer that does
    the frames reach the connection whole and in order. *)

From stdpp Require Import base list strings.
From Stdlib Require Import ZArith Strings.Byte Lia.
From S2P Require Import Prelude GoStrings GrpcStatus.
From S2P Require Import H2Errors H2Frame H2Write H2Framer H2Calls GrpcFramer.
Open Scope Z_scope.

(** ** The buffer *)

Section conn.
Context {C : Type} (conn_Write : C -> list byte -> option (Z * go_error) * C) (sent : C -> list byte).

(** The connection sends what it takes, and takes all of it unless it fails. *)
Definition conn_law : Prop := forall c p,
  match conn_Write c p with
  | (None, c') => sent c' = sent c ++ p
  | (Some (n, _), c') => 0 <= n <= slen p /\ sent c' = sent c ++ take (Z.to_nat n) p
  end.

Context (Hconn : conn_law).

Definition delivered (b : bufioWriter C) : list byte := sent (bw_wr b).
Definition failed (b : bufioWriter C) : bool := bool_decide (is_Some (bw_err b)).

Definition fits (b : bufioWriter C) : Prop := slen (bw_buf b) <= bw_size b.

(** What is left to do of a write: all is accounted for, or the connection failed. *)
Definition carries (before : list byte) (b : bufioWriter C) (p : list byte) : Prop :=
  match bw_err b with
  | None => delivered b ++ bw_buf b ++ p = before
  | Some _ => delivered b `prefix_of` before
  end.

Lemma Flush_carries b p :
  bw_err b = None -> carries (delivered b ++ bw_buf b ++ p) (Flush conn_Write b).2 p /\
  (bw_err (Flush conn_Write b).2 = None -> bw_buf (Flush conn_Write b).2 = []) /\
  (Flush conn_Write b).1 = bw_err (Flush conn_Write b).2 /\ bw_size (Flush conn_Write b).2 = bw_size b /\
  slen (bw_buf (Flush conn_Write b).2) <= slen (bw_buf b).
Proof.
  pose proof (slen_nonneg (bw_buf b)) as Hge. intros He. unfold Flush, carries, delivered. rewrite He. destruct (Z.eqb_spec (slen (bw_buf b)) 0) as [H0|_].
  { simpl. rewrite He. split; [done|]. split; [|done]. intros _.
    destruct (bw_buf b) as [|x l]; [done|]. rewrite slen_cons in H0. pose proof (slen_nonneg l). lia. }
  specialize (Hconn (bw_wr b) (bw_buf b)). destruct (conn_Write _ _) as [[[n e]|] c]; simpl.
  - destruct Hconn as [_ ->]. split.
    + rewrite <- (take_drop (Z.to_nat n) (bw_buf b)) at 2. rewrite <- !app_assoc. by apply prefix_app, prefix_app_r.
    + split; [done|]. split; [done|]. split; [done|]. unfold slen. rewrite length_drop. lia.
  - rewrite Hconn, <- app_assoc. done.
Qed.

Lemma write_round_carries b p n b' :
  bw_err b = None -> Available b < slen p -> fits b -> write_round conn_Write b p = (n, b') ->
  carries (delivered b ++ bw_buf b ++ p) b' (drop (Z.to_nat n) p) /\ bw_size b' = bw_size b /\ fits b' /\
  (bw_err b' = None -> 0 <= n <= slen p /\ bw_buf b' = [] /\ (bw_buf b = [] -> n = slen p)).
Proof.
  intros He Hav Hbuf. unfold write_round. destruct (Z.eqb_spec (slen (bw_buf b)) 0) as [H0|H0].
  - assert (bw_buf b = []) as Hb.
    { destruct (bw_buf b); [done|]. rewrite slen_cons in H0. pose proof (slen_nonneg l). lia. }
    unfold write_direct, carries, delivered. specialize (Hconn (bw_wr b) p).
    destruct (conn_Write _ _) as [[[k e]|] c]; intros [= <- <-]; simpl.
    + destruct Hconn as [_ ->]. split; [|done]. rewrite Hb. simpl. apply prefix_app.
      exists (drop (Z.to_nat k) p). by rewrite take_drop.
    + rewrite Hconn, Hb. unfold slen. rewrite Nat2Z.id, drop_all. simpl. rewrite app_nil_r.
      split; [done|]. split; [done|]. split; [unfold fits in *; by rewrite Hb in Hbuf|].
      intros _. pose proof (slen_nonneg p). unfold slen in *. split; [lia|done].
  - intros [= <- <-]. set (b1 := mkBufio _ _ _ _). destruct (Flush_carries b1 (drop (Z.to_nat (Available b)) p)) as (Hc & Hb' & _ & Hs & Hle).
    { done. }
    change (delivered b1) with (delivered b) in Hc. change (bw_buf b1) with (bw_buf b ++ take (Z.to_nat (Available b)) p) in Hc.
    rewrite <- app_assoc, take_drop in Hc. split; [exact Hc|]. split; [exact Hs|].
    change (bw_buf b1) with (bw_buf b ++ take (Z.to_nat (Available b)) p) in Hle. change (bw_size b1) with (bw_size b) in Hs.
    unfold fits, Available in *. split.
    { rewrite Hs. rewrite slen_app in Hle. unfold slen in *. rewrite length_take in Hle. lia. }
    intros Hn. split; [lia|]. split; [by apply Hb'|]. intros Hb. by rewrite Hb in H0.
Qed.

(** Two rounds are enough: what is left fits in the buffer. *)
Lemma write_rounds_carries b p :
  fits b -> bw_err b = None ->
  let '(nn, p', b') := write_rounds conn_Write 2 b p 0 in
  carries (delivered b ++ bw_buf b ++ p) b' p' /\ bw_size b' = bw_size b /\ fits b' /\
  (bw_err b' = None -> nn + slen p' = slen p /\ slen (bw_buf b' ++ p') <= bw_size b).
Proof.
  intros Hbuf He. cbn [write_rounds]. rewrite (bool_decide_eq_true_2 (bw_err b = None)) by done. rewrite andb_true_r.
  destruct (Z.ltb_spec (Available b) (slen p)) as [Hav|Hav].
  2: { unfold carries. rewrite He. split; [done|]. split; [done|]. split; [done|]. intros _. rewrite slen_app. unfold Available in Hav. lia. }
  destruct (write_round conn_Write b p) as [n b1] eqn:Hr1.
  destruct (write_round_carries b p n b1 He Hav Hbuf Hr1) as (Hc1 & Hs1 & Hf1 & Hn1).
  destruct (bool_decide_reflect (bw_err b1 = None)) as [He1|He1]; [|rewrite andb_false_r; by repeat split].
  rewrite andb_true_r. destruct (Hn1 He1) as (Hn & Hb1 & Hall). set (p1 := drop (Z.to_nat n) p) in *.
  assert (slen p1 = slen p - n) as Hp1 by (unfold p1, slen in *; rewrite length_drop; lia).
  destruct (Z.ltb_spec (Available b1) (slen p1)) as [Hav1|Hav1].
  2: { split; [done|]. split; [done|]. split; [done|]. intros _. rewrite slen_app, Hb1. change (slen []) with 0.
       unfold Available in Hav1. rewrite Hb1 in Hav1. change (slen []) with 0 in Hav1. lia. }
  destruct (write_round conn_Write b1 p1) as [n2 b2] eqn:Hr2.
  destruct (write_round_carries b1 p1 n2 b2 He1 Hav1 Hf1 Hr2) as (Hc2 & Hs2 & Hf2 & Hn2).
  assert (delivered b1 ++ bw_buf b1 ++ p1 = delivered b ++ bw_buf b ++ p) as Heq.
  { unfold carries in Hc1. by rewrite He1 in Hc1. }
  rewrite Heq in Hc2. split; [done|]. split; [congruence|]. split; [done|]. intros He2. destruct (Hn2 He2) as (Hr & Hb2 & Hall2).
  rewrite (Hall2 Hb1), slen_app, Hb2. change (slen []) with 0.
  unfold fits, slen in *. rewrite Nat2Z.id, drop_all. cbn [length]. lia.
Qed.

Lemma failed_false b : failed b = false -> bw_err b = None.
Proof.
  unfold failed. intros H%bool_decide_eq_false. destruct (bw_err b); [|done]. destruct H. by eexists.
Qed.

Lemma bufio_Write_spec b p :
  fits b -> failed b = false ->
  let '(n, err, b') := bufio_Write conn_Write b p in
  fits b' /\
  match err with
  | None => n = slen p /\ failed b' = false /\ delivered b' ++ bw_buf b' = delivered b ++ bw_buf b ++ p
  | Some _ => failed b' = true /\ delivered b' `prefix_of` delivered b ++ bw_buf b ++ p
  end.
Proof.
  intros Hf Hfl. assert (bw_err b = None) as He.
  { unfold failed in Hfl. apply bool_decide_eq_false in Hfl. destruct (bw_err b); [|done]. destruct Hfl. by eexists. }
  unfold bufio_Write. pose proof (write_rounds_carries b p Hf He) as Hr.
  destruct (write_rounds conn_Write 2 b p 0) as [[nn p'] b'] eqn:Heq. destruct Hr as (Hc & Hs & Hf' & Hn).
  unfold carries in Hc. destruct (bw_err b') as [e|] eqn:He'.
  - split; [done|]. split; [|done]. unfold failed. rewrite He'. by apply bool_decide_eq_true_2; eexists.
  - destruct (Hn eq_refl) as [Hnn Hfit]. unfold fits, failed, delivered in *. cbn [bw_buf bw_size bw_err bw_wr].
    split; [by rewrite Hs|]. split; [done|]. split; [|done]. by apply bool_decide_eq_false_2; intros [].
Qed.

Lemma bufio_Flush_spec b :
  fits b -> failed b = false ->
  let '(err, b') := Flush conn_Write b in
  fits b' /\
  match err with
  | None => failed b' = false /\ delivered b' = delivered b ++ bw_buf b /\ bw_buf b' = []
  | Some _ => failed b' = true /\ delivered b' `prefix_of` delivered b ++ bw_buf b
  end.
Proof.
  intros Hf He%failed_false. destruct (Flush_carries b [] He) as (Hc & Hb & Herr & Hs & Hle).
  destruct (Flush conn_Write b) as [err b']. simpl in *. subst err. split; [unfold fits in *; lia|].
  rewrite app_nil_r in Hc. unfold carries, failed in *. destruct (bw_err b') as [e|].
  - split; [|done]. by apply bool_decide_eq_true_2; eexists.
  - rewrite (Hb eq_refl), !app_nil_r in Hc. split; [by apply bool_decide_eq_false_2; intros []|]. by rewrite Hb.
Qed.

Lemma bufio_stuck b p :
  failed b = true ->
  (exists n e, bufio_Write conn_Write b p = (n, Some e, b)) /\ exists e, Flush conn_Write b = (Some e, b).
Proof.
  intros H%bool_decide_eq_true. destruct H as [e He]. unfold bufio_Write, Flush. cbn [write_rounds]. rewrite He.
  rewrite bool_decide_eq_false_2, andb_false_r by done. rewrite He. split; by repeat eexists.
Qed.

#[export] Instance bufio_writer : BufferedWriter (bufioWriter C) := {|
  bw_Write := bufio_Write conn_Write; bw_Flush := Flush conn_Write; bw_ok := fits;
  bw_delivered := delivered; bw_pending := bw_buf; bw_failed := failed;
  bw_Write_spec := bufio_Write_spec; bw_Flush_spec := bufio_Flush_spec; bw_stuck := bufio_stuck |}.
End conn.

(** ** Frames *)

Section framer.
Context {W : Type} `{BufferedWriter W}.
Definition wr (f : framer W) : W := w (fr_write f).

(** A call of the framer with one of the [Write] methods is that method, and the flush. *)
Lemma framer_call_run forceFlush c (f : framer W) :
  framer_call forceFlush c f = then_flush forceFlush f (run_call bw_Write (fr_write f) c).
Proof. by destruct c as [? ? ? []| | | | | | | | | |]. Qed.

(** What a call of the framer comes to: its frame is written, and flushed if it should be; or some
    of what was to be sent is lost and the writer is stuck; or the call was refused. *)
Lemma framer_call_spec forceFlush c (f : framer W) :
  bw_ok (wr f) -> bw_failed (wr f) = false ->
  let '(err, f') := framer_call forceFlush c f in
  bw_ok (wr f') /\ fr_read f' = fr_read f /\ numWriters f' = numWriters f /\
  match err with
  | None =>
      bw_failed (wr f') = false /\ 
      bw_delivered (wr f') ++ bw_pending (wr f') = bw_delivered (wr f) ++ bw_pending (wr f) ++ call_bytes c /\
      (forceFlush = true -> bw_pending (wr f') = [])
  | Some _ =>
      wr f' = wr f \/
      bw_failed (wr f') = true /\
      bw_delivered (wr f') `prefix_of` bw_delivered (wr f) ++ bw_pending (wr f) ++ call_bytes c
  end.
Proof.
  unfold wr. intros Hok Hnf. rewrite framer_call_run. destruct (call_writes bw_Write (fr_write f) c) as [Ha [[[e He] Hw]|[Hs Hw]]].
  { destruct (run_call bw_Write (fr_write f) c) as [err fw]. simpl in *. subst err. simpl. rewrite Hw.
    by repeat (split; [done|]); left. }
  pose proof (bw_Write_spec _ (call_bytes c) Hok Hnf) as Hspec.
  destruct (bw_Write (w (fr_write f)) (call_bytes c)) as [[n err] w']. rewrite Hw. destruct Hspec as [Hok' Hspec].
  destruct err as [e|]; simpl; [by repeat (split; [done|]); right|]. destruct Hspec as (-> & Hnf' & Heq).
  rewrite Z.eqb_refl. unfold then_flush. destruct forceFlush; [|by repeat split].
  unfold flushWrite. simpl. pose proof (bw_Flush_spec w' Hok' Hnf') as Hfl. destruct (bw_Flush w') as [err w2].
  destruct Hfl as [Hok2 Hfl]. rewrite <- Heq. destruct err as [e|]; simpl.
  - by repeat (split; [done|]); right.
  - destruct Hfl as (Hnf2 & Hd & Hp). rewrite Hp, app_nil_r. by repeat split.
Qed.

Lemma framer_call_stuck forceFlush c (f : framer W) :
  bw_failed (wr f) = true ->
  exists e f', framer_call forceFlush c f = (Some e, f') /\ wr f' = wr f /\ fr_read f' = fr_read f.
Proof.
  unfold wr. intros Hf. rewrite framer_call_run. destruct (call_writes bw_Write (fr_write f) c) as [Ha [[[e He] Hw]|[Hs Hw]]].
  - destruct (run_call bw_Write (fr_write f) c) as [err fw]. simpl in *. subst err. simpl.
    by eexists _, _.
  - destruct (bw_stuck _ (call_bytes c) Hf) as [(n & e & He) _]. rewrite He in Hw. rewrite Hw. simpl. by eexists _, _.
Qed.

(** Any calls, one after the other, whatever they return. *)
Fixpoint framer_calls (cs : list (bool * call)) (f : framer W) : list (option http2.error) * framer W :=
  match cs with
  | [] => ([], f)
  | (forceFlush, c) :: cs =>
      let '(err, f) := framer_call forceFlush c f in
      let '(errs, f) := framer_calls cs f in
      (err :: errs, f)
  end.

(** The calls that returned no error. *)
Fixpoint accepted (cs : list (bool * call)) (errs : list (option http2.error)) : list call :=
  match cs, errs with
  | (_, c) :: cs, None :: errs => c :: accepted cs errs
  | _ :: cs, _ :: errs => accepted cs errs
  | _, _ => []
  end.

Definition frames_bytes (cs : list call) : list byte := concat (call_bytes <$> cs).

Lemma frames_bytes_cons c cs : frames_bytes (c :: cs) = call_bytes c ++ frames_bytes cs.
Proof. done. Qed.

Lemma framer_calls_stuck cs (f : framer W) :
  bw_failed (wr f) = true ->
  accepted cs (framer_calls cs f).1 = [] /\ wr (framer_calls cs f).2 = wr f.
Proof.
  revert f. induction cs as [|[forceFlush c] cs IH]; intros f Hf; [done|]. cbn [framer_calls].
  destruct (framer_call_stuck forceFlush c f Hf) as (e & f1 & -> & Hw & _).
  destruct (IH f1) as [Ha Hw']; [by rewrite Hw|]. destruct (framer_calls cs f1) as [errs f2]. simpl in *.
  by rewrite Ha, Hw', Hw.
Qed.

(** Frames reach the connection whole, in order and without gaps, whatever the calls and the
    flushes: as long as the connection has not failed, what was delivered and what waits in
    the buffer is the bytes of the frames of the calls that returned no error, and nothing waits after a call
    that flushes.  If it failed, what was delivered is the beginning of the bytes of those frames and of the
    one that was being written; nothing follows. *)
Theorem framer_delivers cs (f : framer W) :
  bw_ok (wr f) -> bw_failed (wr f) = false ->
  let '(errs, f') := framer_calls cs f in
  let before := bw_delivered (wr f) ++ bw_pending (wr f) in
  if bw_failed (wr f') then
    exists c, c ∈ snd <$> cs /\ bw_delivered (wr f') `prefix_of` before ++ frames_bytes (accepted cs errs ++ [c])
  else
    bw_delivered (wr f') ++ bw_pending (wr f') = before ++ frames_bytes (accepted cs errs) /\
    (last (zip (fst <$> cs) errs) = Some (true, None) -> bw_pending (wr f') = []).
Proof.
  revert f. induction cs as [|[forceFlush c] cs IH]; intros f Hok Hnf; cbn [framer_calls].
  { rewrite Hnf. unfold frames_bytes. simpl. by rewrite app_nil_r. }
  pose proof (framer_call_spec forceFlush c f Hok Hnf) as Hc.
  destruct (framer_call forceFlush c f) as [err f1]. destruct Hc as (Hok1 & _ & _ & Hc).
  destruct err as [e|]; [destruct Hc as [Hw|[Hf Hp]]|destruct Hc as (Hnf1 & Heq & Hfl)].
  - rewrite <- Hw in Hnf, Hok |- *. specialize (IH f1 Hok Hnf). destruct (framer_calls cs f1) as [errs f2].
    cbn [accepted]. destruct (bw_failed (wr f2)).
    + destruct IH as (c' & Hin & Hp). exists c'. split; [by right|done].
    + destruct IH as [Heq Hlast]. split; [done|]. intros Hl. apply Hlast. rewrite fmap_cons in Hl. cbn [zip zip_with] in Hl. rewrite last_cons in Hl.
      by destruct (last (zip (fst <$> cs) errs)) as [y|].
  - destruct (framer_calls_stuck cs f1 Hf) as [Hacc Hw]. destruct (framer_calls cs f1) as [errs f2].
    cbn [accepted] in *. simpl in Hacc, Hw. rewrite Hacc, Hw, Hf. exists c. split; [by left|].
    unfold frames_bytes. cbn. by rewrite app_nil_r, <- app_assoc.
  - specialize (IH f1 Hok1 Hnf1). destruct (framer_calls cs f1) as [errs f2] eqn:Hcs. cbn [accepted].
    rewrite Heq in IH. cbn [app]. rewrite frames_bytes_cons. destruct (bw_failed (wr f2)).
    + destruct IH as (c' & Hin & Hp). exists c'. split; [by right|]. cbn [app]. rewrite frames_bytes_cons.
      revert Hp. by rewrite <- !app_assoc.
    + destruct IH as [Heq2 Hlast]. split; [revert Heq2; by rewrite <- !app_assoc|]. intros Hl. rewrite fmap_cons in Hl. cbn [zip zip_with] in Hl.
      rewrite last_cons in Hl. destruct (last (zip (fst <$> cs) errs)) as [y|] eqn:Hz; [by apply Hlast|].
      injection Hl as ->. destruct cs as [|[b c'] cs]; [injection Hcs as <- <-; by apply Hfl|]. exfalso.
      cbn [framer_calls] in Hcs. destruct (framer_call b c' f1) as [err' f3], (framer_calls cs f3) as [errs' f4].
      injection Hcs as <- <-. rewrite fmap_cons in Hz. cbn [zip zip_with] in Hz. rewrite last_cons in Hz.
      by destruct (last _).
Qed.
End framer.

(** A connection that fails after 30 bytes. *)
Definition short_conn (c b : list byte) : option (Z * go_error) * list byte :=
  if slen c + slen b <=? 30 then (None, c ++ b)
  else let n := Z.max 0 (30 - slen c) in (Some (n, ErrClosedPipe), c ++ take (Z.to_nat n) b).

Lemma short_conn_law : conn_law short_conn id.
Proof.
  intros c p. unfold short_conn. destruct (Z.leb_spec (slen c + slen p) 30); [done|]. split; [|done].
  pose proof (slen_nonneg p). lia.
Qed.

Definition short_framer : framer (bufioWriter (list byte)) :=
  mk_framer 0 (mkFramerW (NewWriterSize [] 32768) [] false) (NewFramer (mkReader [] EOF)).

(** Settings and a ping fit, and the update after them does not. *)
Definition short_calls : list (bool * call) :=
  [(true, CSettings []); (false, CPing true (replicate 8 x07)); (true, CWindowUpdate 0 100); (true, CSettingsAck)].

Lemma framer_delivers_witness :
  let '(errs, f') := @framer_calls _ (bufio_writer short_conn id short_conn_law) short_calls short_framer in
  exists c, c ∈ snd <$> short_calls /\
    bw_wr (w (fr_write f')) `prefix_of` frames_bytes (accepted short_calls errs ++ [c]).
Proof.
  exact (@framer_delivers _ (bufio_writer short_conn id short_conn_law) short_calls short_framer ltac:(done) eq_refl).
Defined.
