(* ===== verification/H2Blocks.v ===== *)
(** * HTTP/2 frames: a header block there and back

    A block that the encoder wrote and [writeHeaders] cut into frames is what
    [readMetaFrame] decodes: the callback takes well-formed lists of fields, the
    decoder does not care where the block is cut, and no piece is refused. *)

From stdpp Require Import base list strings relations.
From Stdlib Require Import ZArith Strings.Byte Lia.
From S2P Require Import Prelude GoStrings GrpcStatus.
From S2P Require Import Hpack HpackTable HpackEncoder HpackDecoder HpackSync HpackWrite.
From S2P Require Import H2Errors GrpcHeaders H2Frame H2Write H2Framer H2Calls H2Order H2RoundTrip H2ReadTotal.
From S2P Require Import GrpcFramer.
Open Scope Z_scope.

(** ** The callback on well-formed lists *)

Definition field_valid (f : HeaderField) : bool :=
  ValidHeaderFieldValue (Value f) && (IsPseudo f || validWireHeaderFieldName (Name f)).

Lemma meta_emit_one f m :
  field_valid f = true -> invalid m = None -> (IsPseudo f = true -> sawRegular m = false) -> Size f <= remainSize m < 2 ^ 32 ->
  meta_emit f (true, m) =
  (true, mkMeta (Fields m ++ [f]) (Truncated m) (remainSize m - Size f) (sawRegular m || negb (IsPseudo f)) None).
Proof.
  unfold field_valid, meta_emit. intros [-> Hn]%andb_true_iff Hinv Hs Hsz. pose proof (Size_range f).
  assert ((if IsPseudo f then if sawRegular m then Some http2.errPseudoAfterRegular else invalid m
           else if validWireHeaderFieldName (Name f) then invalid m else Some (http2.headerFieldNameError (Name f))) = None) as ->.
  { destruct (IsPseudo f); [by rewrite Hs|]. simpl in Hn. by rewrite Hn. }
  destruct (Z.ltb_spec (remainSize m) (Size f)); [lia|]. unfold uint32. by rewrite Z.mod_small by lia.
Qed.

Lemma meta_emit_all fs m :
  Forall (fun f => field_valid f = true) fs -> invalid m = None ->
  (exists ps rs, fs = ps ++ rs /\ (sawRegular m = true -> ps = []) /\
     Forall (fun f => IsPseudo f = true) ps /\ Forall (fun f => IsPseudo f = false) rs) ->
  total_size fs <= remainSize m < 2 ^ 32 ->
  exists saw, emit_all meta_emit fs m =
    Some (mkMeta (Fields m ++ fs) (Truncated m) (remainSize m - total_size fs) saw None).
Proof.
  intros Hv. revert m. induction Hv as [|f fs Hf Hv IH]; intros m Hinv (ps & rs & Hfs & Hno & Hps & Hrs) Hsz.
  { exists (sawRegular m). simpl. rewrite app_nil_r, Z.sub_0_r, <- Hinv. by destruct m. }
  cbn [emit_all total_size foldr] in *. fold (total_size fs) in *. pose proof (Size_range f).
  assert (0 <= total_size fs) as Hge.
  { clear. induction fs as [|f fs IH]; [done|]. cbn. fold (total_size fs). pose proof (Size_range f). lia. }
  rewrite meta_emit_one; [|done|done| |lia].
  2: { intros Hp. destruct (sawRegular m) eqn:Hsaw; [|done]. rewrite (Hno eq_refl) in Hfs. simpl in Hfs. subst rs.
       apply Forall_cons_1 in Hrs as [Hq _]. congruence. }
  destruct (IH (mkMeta (Fields m ++ [f]) (Truncated m) (remainSize m - Size f) (sawRegular m || negb (IsPseudo f)) None)) as [saw Heq].
  - done.
  - destruct ps as [|p ps]; simpl in Hfs.
    + subst rs. apply Forall_cons_1 in Hrs as [_ Hrs]. by exists [], fs.
    + injection Hfs as <- ->. apply Forall_cons_1 in Hps as [Hp Hps]. exists ps, rs. split; [done|].
      split; [|done]. simpl. rewrite Hp, orb_false_r. intros Hsaw. discriminate (Hno Hsaw).
  - simpl. lia.
  - exists saw. rewrite Heq. simpl. rewrite <- app_assoc. do 2 f_equal. lia.
Qed.

(** Known and distinct pseudo header fields of one kind pass. *)
Lemma check_pseudos_pass seen fs req resp :
  (resp = false /\ Forall (fun f => request_pseudo (Name f) = true) fs \/
   req = false /\ Forall (fun f => response_pseudo (Name f) = true) fs) ->
  NoDup (Name <$> seen ++ fs) -> check_pseudos seen fs req resp = None.
Proof.
  revert seen req resp. induction fs as [|f fs IH]; intros seen req resp Hk Hnd; cbn [check_pseudos].
  { destruct Hk as [[-> _]|[-> _]]; [by rewrite andb_false_r|done]. }
  fold (request_pseudo (Name f)) (response_pseudo (Name f)).
  assert (request_pseudo (Name f) = true -> response_pseudo (Name f) = false) as Hex.
  { unfold request_pseudo, response_pseudo, one_of. intros H. cbn [existsb] in *. rewrite orb_false_r in *.
    apply bool_decide_eq_false. intros Heq. rewrite Heq in H. by vm_compute in H. }
  assert (existsb (fun hf2 => bool_decide (Name f = Name hf2)) seen = false) as ->.
  { apply not_true_iff_false. rewrite existsb_exists. intros (g & Hin & Heq%bool_decide_eq_true).
    rewrite fmap_app, fmap_cons in Hnd. apply NoDup_app in Hnd as (_ & Hd & _). apply (Hd (Name g)).
    - apply list_elem_of_fmap. exists g. split; [done|]. by apply list_elem_of_In.
    - rewrite Heq. by left. }
  rewrite cons_middle, app_assoc in Hnd. destruct Hk as [[-> [Hf Hfs]%Forall_cons_1]|[-> [Hf Hfs]%Forall_cons_1]]; rewrite Hf.
  - rewrite (Hex Hf). cbn [negb andb orb]. apply IH; [by left|done].
  - assert (request_pseudo (Name f) = false) as ->.
    { destruct (request_pseudo (Name f)) eqn:Hr; [|done]. by rewrite (Hex eq_refl) in Hf. }
    cbn [negb andb orb]. apply IH; [by right|done].
Qed.

Lemma pseudo_IsPseudo f : request_pseudo (Name f) = true \/ response_pseudo (Name f) = true -> IsPseudo f = true.
Proof.
  unfold request_pseudo, response_pseudo, one_of. cbn [existsb]. rewrite !orb_false_r, !orb_true_iff, !bool_decide_eq_true.
  unfold IsPseudo. intros H. destruct H as [[H|[H|[H|H]]]|H]; by rewrite H.
Qed.

(** The whole callback, and the check after it. *)
Lemma meta_accepts limit fs :
  0 <= limit < 2 ^ 32 -> header_list_wf limit fs ->
  (exists m, emit_all meta_emit fs (mkMeta [] false limit false None) = Some m /\
     Fields m = fs /\ Truncated m = false /\ invalid m = None) /\
  checkPseudos fs = None.
Proof.
  intros Hl ((ps & rs & -> & Hps & Hnd & Hrs) & Hvals & Htot).
  assert (Forall (fun f => IsPseudo f = true) ps) as Hpps.
  { destruct Hps as [Hps|Hps]; (eapply Forall_impl; [exact Hps|]); intros f Hf; apply pseudo_IsPseudo; auto. }
  split.
  - destruct (meta_emit_all (ps ++ rs) (mkMeta [] false limit false None)) as [saw Heq]; [|done| |simpl; lia|].
    + apply Forall_app in Hvals as [Hv1 Hv2]. apply Forall_app. split; apply Forall_forall; intros f Hin; unfold field_valid.
      * rewrite Forall_forall in Hv1, Hpps. by rewrite Hv1, Hpps.
      * rewrite Forall_forall in Hv2, Hrs. rewrite Hv2 by done. apply andb_true_iff. split; [done|].
        destruct (Hrs f Hin) as [_ ->]. apply orb_true_r.
    + exists ps, rs. repeat (split; [done|]). eapply Forall_impl; [exact Hrs|]. by intros f [].
    + by eexists.
  - unfold checkPseudos. rewrite PseudoFields_app by done. apply check_pseudos_pass; [|done].
    destruct Hps; [left|right]; by split.
Qed.

(** ** A block in pieces *)

Section pieces.
Context {St : Type}.
Implicit Types d : Decoder St.

(** Each piece is taken without error. *)
Fixpoint pieces_ok d (ps : list (list byte)) (d' : Decoder St) : Prop :=
  match ps with
  | [] => d = d'
  | p :: ps => exists n d1, Write d p = Ok (n, None, d1) /\ pieces_ok d1 ps d'
  end.

(** What is saved for the next piece was there. *)
Lemma Write_saved d p n d' : Write d p = Ok (n, None, d') -> slen (saveBuf d') <= slen (saveBuf d) + slen p.
Proof.
  rewrite <- slen_app. destruct p as [|b p]; [intros [= _ <-]; by rewrite app_nil_r|].
  set (l := b :: p). rewrite Write_start by done. pose proof (slen_nonneg (saveBuf d ++ l)).
  destruct (parse_loop_inv (length (saveBuf d ++ l)) (start d l) (le_n _)) as (d2 & Hst & [[Hb Hl]|(Hb & Hl & Hno)]); rewrite Hl.
  - intros [= _ <-]. by rewrite (steps_saveBuf _ _ Hst).
  - pose proof (steps_length _ _ Hst) as Hlen. pose proof (steps_saveBuf _ _ Hst) as Hsv. simpl in Hlen, Hsv.
    pose proof (parse_ext [] d2 Hb) as He. unfold finish.
    destruct (parseHeaderFieldRepr d2) as [[[e'|] d3]|[]| |] eqn:Hp; try done; [|by destruct (Hno d3)].
    cbn [mbind res_bind].
    destruct e'; simpl in He; try done. subst d3. destruct (negb _ && _); [done|]. intros [= _ <-]. simpl.
    by rewrite Hsv.
Qed.

(** A block that is taken in one piece is taken in any. *)
Lemma pieces_taken inv ps d d' :
  0 <= maxStrLen d < 2 ^ 63 ->
  safe (maxStrLen d) (2 ^ 62 - slen (concat ps)) inv (with_buf d (saveBuf d)) ->
  after (Write d (concat ps)) = Ok (None, d') ->
  maxStrLen d = 0 \/ slen (saveBuf d) + slen (concat ps) <= int64 (2 * int64 (maxStrLen d + varIntOverhead)) ->
  pieces_ok d ps d'.
Proof.
  revert d. induction ps as [|p ps IH]; intros d Hmax Hs Hw Hlim; cbn [concat pieces_ok] in *.
  { by injection Hw as <-. }
  rewrite slen_app in *. pose proof (slen_nonneg (concat ps)).
  assert (safe (maxStrLen d) (2 ^ 62 - slen (concat ps)) inv (with_buf d (saveBuf d ++ p))) as Hs'.
  { destruct Hs as [He Ha Hm Hem Hi]. split; try done. simpl in *. rewrite slen_app. lia. }
  destruct (Write_safe (maxStrLen d) (2 ^ 62 - slen (concat ps)) inv) with d p as (k & err & d1 & Hw1 & _ & _ & Hs1).
  { done. } { lia. } { done. }
  pose proof (safe_max _ _ _ _ Hs1) as Hm1. simpl in Hm1.
  destruct err as [e|].
  - exfalso. destruct (Write_join_err d p (concat ps) k d1 e Hw1) as [k' Hk].
    + unfold saves_little. rewrite Hm1, slen_app. destruct Hlim; [by left|right; lia].
    + by rewrite Hk in Hw.
  - exists k, d1. split; [done|]. rewrite (Write_join_ok d p (concat ps) k d1 Hw1) in Hw.
    pose proof (Write_saved d p k d1 Hw1). apply IH; [by rewrite Hm1|by rewrite Hm1|done|]. rewrite Hm1. destruct Hlim; [by left|right; lia].
Qed.

(** The decoder comes to the end of what it is given. *)
Lemma Write_all d d1 out :
  saveBuf d = [] -> out <> [] -> steps (with_buf d out) (with_buf d1 []) -> after (Write d out) = Ok (None, with_buf d1 []).
Proof.
  intros Hs Ho Hst. rewrite Write_start by done. unfold start. rewrite Hs. cbn [app].
  assert (with_saveBuf (with_buf d out) [] = with_buf d out) as -> by (destruct d; simpl in *; by subst).
  by rewrite (parse_loop_steps _ _ _ Hst).
Qed.
End pieces.

(** ** The frames of a block *)

Fixpoint continuation_calls (id : Z) (ps : list (list byte)) : list call :=
  match ps with
  | [] => []
  | p :: ps => CContinuation id (bool_decide (ps = [])) p :: continuation_calls id ps
  end.

(** What [writeHeaders] makes of a block: pieces that are not too long, the first in a HEADERS
    frame. *)
Lemma block_calls_pieces fuel first id es b :
  (length b <= fuel)%nat ->
  exists p ps, p ++ concat ps = b /\ Forall (fun q => slen q <= http2MaxFrameLen) (p :: ps) /\ (b <> [] -> p <> []) /\
    snd <$> block_calls fuel first id es b =
      (if first then CHeaders (mkHeadersFrameParam id p es (bool_decide (ps = [])) 0 noPriority)
       else CContinuation id (bool_decide (ps = [])) p) :: continuation_calls id ps.
Proof.
  revert first b. induction fuel as [|fuel IH]; intros first b Hf; cbn [block_calls].
  - assert (b = []) as -> by (destruct b; simpl in Hf; [done|lia]). exists [], [].
    split; [done|]. split; [by repeat constructor|]. split; [done|]. by destruct first.
  - destruct (Z.leb_spec (slen b) http2MaxFrameLen) as [Hl|Hl].
    { exists b, []. rewrite app_nil_r. split; [done|]. split; [by repeat constructor|]. split; [done|].
      rewrite fmap_cons. unfold slen. rewrite Nat2Z.id, firstn_all. by destruct first. }
    set (n := Z.to_nat http2MaxFrameLen). assert (0 < n)%nat as Hn by (unfold n, http2MaxFrameLen; lia).
    assert (n < length b)%nat as Hnb by (unfold n, http2MaxFrameLen, slen in *; lia).
    assert (Z.of_nat n = http2MaxFrameLen) as Hnz by done. clearbody n.
    destruct (IH false (drop n b)) as (p & ps & Hb & Hsz & Hne & Hcs); [rewrite length_drop; lia|].
    assert (drop n b <> []) as Hd by (intros H0; apply (f_equal length) in H0; rewrite length_drop in H0; simpl in H0; lia).
    exists (take n b), (p :: ps). cbn [concat]. rewrite Hb, take_drop. split; [done|].
    split; [constructor; [unfold slen in *; rewrite length_take; lia|done]|].
    split; [intros _ H0; apply (f_equal length) in H0; rewrite length_take in H0; simpl in H0; lia|].
    rewrite fmap_cons, Hcs. cbn [snd continuation_calls]. by destruct first.
Qed.

(** Calls of a block are sent as they are meant. *)
Lemma continuation_sendable id e p :
  0 < id < 2 ^ 31 -> slen p <= http2MaxFrameLen -> sendable (CContinuation id e p).
Proof. unfold http2MaxFrameLen. intros. split; simpl; [lia|lia|done|lia]. Qed.

Lemma headers_wire id p es eh :
  (wire_of (CHeaders (mkHeadersFrameParam id p es eh 0 noPriority))).2 = p.
Proof. cbn [wire_of HP_PadLength HP_Priority HP_BlockFragment snd]. unfold pad_byte, padding. cbn. by rewrite app_nil_r. Qed.

Lemma headers_sendable id p es eh :
  0 < id < 2 ^ 31 -> slen p <= http2MaxFrameLen -> p <> [] -> sendable (CHeaders (mkHeadersFrameParam id p es eh 0 noPriority)).
Proof.
  unfold http2MaxFrameLen. intros Hi Hp Hne. split; [simpl; lia|simpl; lia|done|]. rewrite headers_wire. lia.
Qed.

(** The loop over the frames of a block. *)
Lemma meta_loop_pieces F fuel id hc p ps fr d d' tail :
  (length ps < fuel)%nat -> 0 < id < 2 ^ 31 -> Forall (fun q => slen q <= http2MaxFrameLen) ps ->
  octets hc = Ok (E:=http2.error) p -> HeadersEnded hc = bool_decide (ps = []) ->
  lastHeaderStream fr = (if bool_decide (ps = []) then 0 else id) ->
  AllowIllegalReads fr = false -> framer_ok fr -> http2MaxFrameLen <= maxReadSize fr ->
  ReadMetaHeaders fr = Some d -> pieces_ok d (p :: ps) d' ->
  rest (r fr) = concat (call_bytes <$> continuation_calls id ps) ++ tail ->
  exists fr', meta_loop (ReadFrame (S F)) fuel hc fr = (Ok tt, fr') /\ same_setup (set_hdec fr d') fr' /\ framer_ok fr' /\
    lastHeaderStream fr' = 0 /\ r fr' = mkReader tail (rerr (r fr)).
Proof.
  revert hc p ps fr d. induction fuel as [|fuel IH]; intros hc p ps fr d Hf Hid Hsz Hoct Hend Hlast Ha Hok Hmax Hd Hps Hr; [lia|].
  cbn [meta_loop]. rewrite Hoct, lift_bind, RM_bind_eq. destruct Hps as (n & d1 & Hw & Hps).
  unfold hdec_Write at 1. rewrite gets_bind, Hd, Hw. unfold modify at 1. rewrite RM_bind_eq. cbv beta iota.
  unfold mret at 1, RM_ret at 1. cbv beta iota. rewrite Hend.
  destruct ps as [|q ps].
  { rewrite bool_decide_eq_true_2 in * by done. simpl in Hps, Hr. subst d1. exists (set_hdec fr d'). split; [done|].
    split; [done|]. split; [done|]. split; [done|]. simpl. destruct (r fr) as [b e]. simpl in *. by subst. }
  rewrite (bool_decide_eq_false_2 (q :: ps = [])) in * by done.
  apply Forall_cons_1 in Hsz as [Hq Hsz]. cbn [continuation_calls] in Hr. rewrite fmap_cons in Hr. cbn [concat] in Hr.
  rewrite <- app_assoc in Hr. set (c := CContinuation id _ q) in Hr. set (fr1 := set_hdec fr d1).
  assert (sendable c) as Hc by (by apply continuation_sendable).
  set (tl := concat (call_bytes <$> continuation_calls id ps) ++ tail) in *.
  rewrite RM_bind_eq, (read_call F c fr1 tl Hc); [|simpl; lia|exact Hr].
  assert (framer_ok (after_read fr1 tl)) as Hok1.
  { intros Hl. destruct (Hok Hl) as [x Hx]. simpl. rewrite Hx. by eexists. }
  pose proof (checkFrameOrder_spec (frame_of c) (after_read fr1 tl) Ha Hok1) as Hchk.
  change (lastHeaderStream (after_read fr1 tl)) with (lastHeaderStream fr) in Hchk. rewrite Hlast in Hchk.
  assert (order_next id (frame_of c) = Some (if bool_decide (ps = []) then 0 else id)) as Ho.
  { unfold order_next. rewrite frame_of_header. unfold c, call_header. cbn [wire_of Type_ StreamID]. rewrite Z.eqb_refl.
    change (FrameContinuation =? FrameContinuation) with true. destruct (Z.eqb_spec id 0); [lia|]. cbn [negb andb].
    cbn [frame_of HeadersEnded]. unfold call_header. cbn [wire_of]. rewrite Z.eqb_refl. by destruct (bool_decide (ps = [])). }
  rewrite Ho in Hchk. rewrite Hchk. change (Type_ (call_header c) =? FrameHeaders) with false. cbn [andb]. cbv beta iota.
  set (fr2 := set_lastHeaderStream _ _).
  destruct (IH (ContinuationFrame (call_header c) q) q ps fr2 d1) as (fr' & Hrun & Hsetup & Hok' & Hl' & Hr'); try done.
  - simpl in Hf. lia.
  - unfold c, call_header. cbn [wire_of HeadersEnded]. by destruct (bool_decide (ps = [])).
  - intros _. by eexists.
  - exists fr'. change (frame_of c) with (ContinuationFrame (call_header c) q). split; [exact Hrun|]. split; [|by repeat split].
    destruct Hsetup as (? & ? & ? & ?). by repeat split.
Qed.

(** ** The block *)

(** A Framer between header blocks whose decoder is in step with the encoder [e] of the other side. *)
Record block_reader (e : Encoder) (fr : Framer) : Prop := {
  br_order : AllowIllegalReads fr = false;
  br_between : lastHeaderStream fr = 0;
  br_size : http2MaxFrameLen <= maxReadSize fr;
  br_limit : 0 <= MaxHeaderListSize fr < 2 ^ 32;
  br_sync : exists d, ReadMetaHeaders fr = Some d /\ in_sync e d /\ allowedMaxSize (dynTab d) = http2InitHeaderTableSize;
}.

(** Fields that the encoder can write. *)
Definition block_wf (limit : Z) (fs : list HeaderField) : Prop :=
  header_list_wf limit fs /\ fs <> [] /\ Forall (fun f => http2InitHeaderTableSize + rfc_size f < 2 ^ 32) fs.

Lemma rfc_sizes fs :
  let n := foldr (fun f n => rfc_size f + n) 0 fs in
  Forall (fun f => rfc_size f <= n) fs /\ foldr (fun f n => rfc_size f + 24 + n) 0 fs <= 2 * n /\ slen fs <= n.
Proof.
  induction fs as [|f fs (Hall & Hsum & Hlen)]; [done|]. cbn [foldr]. rewrite slen_cons.
  assert (32 <= rfc_size f) as Hf.
  { unfold rfc_size. pose proof (slen_nonneg (Name f)). pose proof (slen_nonneg (Value f)). lia. }
  pose proof (slen_nonneg fs). split; [|lia]. constructor; [lia|].
  eapply Forall_impl; [exact Hall|]. intros g Hg. simpl in Hg |- *. lia.
Qed.

Lemma block_sizes limit fs :
  limit < 2 ^ 32 -> block_wf limit fs ->
  Forall (fun f => op_ok limit http2InitHeaderTableSize (OpField f)) fs /\ Forall (fun f => rfc_size f < 2 ^ 59) fs /\
  foldr (fun f n => rfc_size f + 24 + n) 0 fs <= 2 * limit /\ slen fs <= limit.
Proof.
  intros Hl ((_ & _ & Htot) & _ & Hsz).
  assert (total_size fs = foldr (fun f n => rfc_size f + n) 0 fs) as Heq.
  { clear -Hsz. induction Hsz as [|f fs Hf _ IH]; [done|]. cbn [total_size foldr]. fold (total_size fs). rewrite IH.
    unfold http2InitHeaderTableSize in Hf. by rewrite Size_rfc by lia. }
  rewrite Heq in Htot. clear Heq. destruct (rfc_sizes fs) as (Hall & Hsum & Hlen).
  split; [|split; [|lia]]; apply Forall_forall; intros f Hin; rewrite Forall_forall in Hall, Hsz;
    specialize (Hall f Hin); specialize (Hsz f Hin); unfold http2InitHeaderTableSize in Hsz; simpl in Hall; [|lia].
  unfold op_ok, http2InitHeaderTableSize. unfold rfc_size in *.
  pose proof (slen_nonneg (Name f)). pose proof (slen_nonneg (Value f)). lia.
Qed.

(** [readMetaFrame] on a block whose pieces the decoder takes. *)
Lemma readMetaFrame_pieces F fuel h prio p ps fr d dfin tail :
  let d0 := with_emit (SetMaxStringLength (SetEmitEnabled d true) (maxHeaderStringLen fr)) meta_emit
              (mkMeta [] false (maxHeaderListSize fr) false None) in
  (length ps < fuel)%nat -> 0 < StreamID h < 2 ^ 31 -> Forall (fun q => slen q <= http2MaxFrameLen) ps ->
  valid h = true -> HeadersEnded (HeadersFrame h prio p) = bool_decide (ps = []) ->
  lastHeaderStream fr = (if bool_decide (ps = []) then 0 else StreamID h) ->
  AllowIllegalReads fr = false -> framer_ok fr -> http2MaxFrameLen <= maxReadSize fr ->
  ReadMetaHeaders fr = Some d -> pieces_ok d0 (p :: ps) dfin -> saveBuf dfin = [] ->
  invalid (env dfin) = None -> checkPseudos (Fields (env dfin)) = None ->
  rest (r fr) = concat (call_bytes <$> continuation_calls (StreamID h) ps) ++ tail ->
  exists fr', readMetaFrame (ReadFrame (S F)) fuel h prio p fr =
      (Ok (MetaHeadersFrame (invalidate_header h) prio (Fields (env dfin)) (Truncated (env dfin))), fr') /\
    same_setup (set_hdec fr (with_emit dfin no_emit (env dfin))) fr' /\ lastHeaderStream fr' = 0 /\
    r fr' = mkReader tail (rerr (r fr)).
Proof.
  intros d0 Hf Hid Hsz Hv Hend Hlast Ha Hok Hmax Hd Hps Hsave Hinv Hchk Hr.
  unfold readMetaFrame. rewrite gets_bind, Ha, gets_bind, Hd, modify_bind. cbv beta. fold d0.
  destruct (meta_loop_pieces F fuel (StreamID h) (HeadersFrame h prio p) p ps (set_hdec fr d0) d0 dfin tail)
    as (fr1 & Hrun & (Hmeta & Hmh & Hmr & Hill) & Hok1 & Hl1 & Hr1); try done.
  { unfold octets, checkValid. simpl. by rewrite Hv. }
  unfold deferred. rewrite RM_bind_eq, Hrun. unfold hdec_Close. rewrite RM_bind_eq, gets_bind, Hmeta.
  cbn [set_hdec ReadMetaHeaders]. unfold Close. rewrite Hsave. change (0 <? slen []) with false. cbv beta iota.
  rewrite modify_bind. cbv beta. unfold mret at 1, RM_ret at 1. unfold hdec_env. rewrite RM_bind_eq, gets_bind.
  cbn [set_hdec ReadMetaHeaders].
  change ((mret (env dfin) : RM meta_env) (set_hdec fr1 dfin)) with (Ok (E:=http2.error) (env dfin), set_hdec fr1 dfin).
  cbv beta iota. rewrite Hinv, Hchk. eexists. split; [reflexivity|]. split; [|by split].
  split; [done|]. by repeat split.
Qed.

Lemma order_headers last c id p es eh :
  c = CHeaders (mkHeadersFrameParam id p es eh 0 noPriority) -> last = 0 ->
  order_next last (frame_of c) = Some (if eh then 0 else id).
Proof.
  intros -> ->. unfold order_next. rewrite frame_of_header. cbn [frame_of]. unfold call_header. cbn [wire_of Type_ StreamID].
  change (FrameHeaders =? FrameContinuation) with false. change (FrameHeaders =? FrameHeaders) with true.
  change (0 =? 0) with true. cbn [negb HeadersEnded Flags HP_EndHeaders HP_EndStream HP_PadLength HP_Priority].
  by destruct eh, es.
Qed.

(** The decoder as [readMetaFrame] starts it on a block. *)
Definition block_decoder (limit : Z) (d : Decoder meta_env) : Decoder meta_env :=
  with_emit (SetMaxStringLength (SetEmitEnabled d true) limit) meta_emit (mkMeta [] false limit false None).

(** What the encoder writes for the fields, cut anywhere, takes the decoder to the fields. *)
Lemma encode_block {E} e (d : Decoder meta_env) fs limit :
  0 <= limit < 2 ^ 32 -> in_sync e d -> allowedMaxSize (dynTab d) = http2InitHeaderTableSize -> block_wf limit fs ->
  added (table (HpackEncoder.dynTab e)) + slen fs < 2 ^ 61 ->
  exists e' out d', run_ops (E:=E) e (OpField <$> fs) = Ok (e', out) /\
    added (table (HpackEncoder.dynTab e')) <= added (table (HpackEncoder.dynTab e)) + slen fs /\ out <> [] /\
    in_sync e' d' /\ allowedMaxSize (dynTab d') = http2InitHeaderTableSize /\
    Fields (env d') = fs /\ Truncated (env d') = false /\ invalid (env d') = None /\ checkPseudos fs = None /\
    forall ps, concat ps = out -> pieces_ok (block_decoder limit d) ps (with_buf d' []).
Proof.
  intros Hlim Hsync Hal Hwf Hadd. destruct (block_sizes limit fs ltac:(lia) Hwf) as (Hops & Hrfc & Hsum & Hlen).
  destruct Hwf as (Hlist & Hne & _). destruct (meta_accepts limit fs Hlim Hlist) as [(m & Hem & Hmf & Hmt & Hmi) Hchk].
  set (d0 := block_decoder limit d). assert (in_sync e d0) as Hsync0 by (destruct Hsync; by split).
  destruct (run_ops_step (E:=E) (OpField <$> fs) e d0 m Hsync0) as
    (e' & out & d1 & Hr & Hs1 & _ & He1 & Hm1 & Hal1 & Ha1 & Hst).
  { by rewrite fields_OpField. } { apply Forall_fmap. simpl. by rewrite Hal. } { unfold slen in *. by rewrite length_fmap. }
  specialize (Hst []). rewrite app_nil_r in Hst.
  assert (out <> []) as Ho.
  { intros ->. apply rtc_inv in Hst as [Heq|(y & [_ Hl] & _)]; [|simpl in Hl; lia].
    apply (f_equal env) in Heq. simpl in Heq. rewrite He1 in Heq. apply Hne. by rewrite <- Hmf, <- Heq. }
  pose proof (run_ops_size fs e e' out Hrfc Hr) as Hout.
  exists e', out, d1. rewrite He1. split; [done|]. split; [unfold slen in *; by rewrite length_fmap in Ha1|].
  split; [done|]. split; [done|]. split; [by rewrite Hal1|]. do 4 (split; [done|]). intros ps Hps.
  apply (pieces_taken (fun _ => True)); rewrite ?Hps; [simpl; lia|..].
  - destruct (sync_dec _ _ Hsync) as [[] _ _]. pose proof (sync_added _ _ Hsync) as Hade. pose proof (slen_nonneg fs).
    split; [done| |done..]. change (buf (with_buf d0 (saveBuf d0))) with (saveBuf d).
    change (dynTab (with_buf d0 (saveBuf d0))) with (dynTab d). rewrite (sync_saveBuf _ _ Hsync), <- Hade.
    change (slen []) with 0. lia.
  - by apply Write_all; [apply (sync_saveBuf _ _ Hsync0)|..].
  - right. rewrite (sync_saveBuf _ _ Hsync0). change (slen []) with 0. change (maxStrLen d0) with limit.
    unfold varIntOverhead. rewrite !int64_small; rewrite ?int64_small; lia.
Qed.

Lemma headers_flags id p es eh :
  let h := call_header (CHeaders (mkHeadersFrameParam id p es eh 0 noPriority)) in
  StreamID h = id /\ Has (Flags h) FlagHeadersEndStream = es /\ HeadersEnded (HeadersFrame h noPriority p) = eh.
Proof. unfold call_header. cbn. by destruct eh, es. Qed.

(** The encoder writes the fields, and a reader in step reads them from the frames, with as much fuel as there
    are frames, and is in step again. *)
Lemma read_block {E} e fr fs :
  block_reader e fr -> block_wf (maxHeaderListSize fr) fs -> added (table (HpackEncoder.dynTab e)) + slen fs < 2 ^ 61 ->
  exists e' out, run_ops (E:=E) e (OpField <$> fs) = Ok (e', out) /\
    added (table (HpackEncoder.dynTab e')) <= added (table (HpackEncoder.dynTab e)) + slen fs /\
    forall rd id es tail fuel,
      0 < id < 2 ^ 31 -> rest rd = concat (call_bytes <$> (snd <$> header_calls id es out)) ++ tail ->
      (length (header_calls id es out) < fuel)%nat ->
      exists h fr', ReadFrame fuel (set_r fr rd) = (Ok (MetaHeadersFrame h noPriority fs false), fr') /\
        StreamID h = id /\ Has (Flags h) FlagHeadersEndStream = es /\ r fr' = mkReader tail (rerr rd) /\
        block_reader e' fr' /\ MaxHeaderListSize fr' = MaxHeaderListSize fr.
Proof.
  intros [Ha Hbet Hsize Hmh (d & Hd & Hsync & Hal)] Hwf Hadd. destruct (maxHeaderListSize_range fr Hmh) as [Hlim Hstr].
  destruct (encode_block (E:=E) e d fs _ Hlim Hsync Hal Hwf Hadd) as
    (e' & out & d1 & Hr & Ha1 & Ho & Hs1 & Hal1 & Hmf & Hmt & Hmi & Hchk & Hpieces).
  exists e', out. split; [done|]. split; [done|]. intros rd id es tail fuel Hid Hrest Hfuel.
  destruct (block_calls_pieces (length out) true id es out (le_n _)) as (p & ps & Hp & Hsz & Hpne & Hcs).
  fold (header_calls id es out) in Hcs. set (c := CHeaders _) in Hcs.
  assert (length (header_calls id es out) = S (length ps)) as Hlc.
  { rewrite <- (length_fmap snd), Hcs. cbn [length]. f_equal. clear. induction ps as [|q ps IH]; [done|]. simpl. by rewrite IH. }
  destruct fuel as [|[|F]]; [lia..|].
  rewrite Hcs, fmap_cons in Hrest. cbn [concat] in Hrest. rewrite <- app_assoc in Hrest.
  set (tl := concat (call_bytes <$> continuation_calls id ps) ++ tail) in *.
  apply Forall_cons_1 in Hsz as [Hszp Hsz]. specialize (Hpne Ho).
  set (fr0 := set_r fr rd). assert (sendable c) as Hc by (by apply headers_sendable).
  rewrite (read_call (S F) c fr0 tl Hc); [|unfold c; rewrite headers_wire; simpl; lia|exact Hrest].
  assert (framer_ok (after_read fr0 tl)) as Hok1 by (intros Hl; by destruct Hl).
  pose proof (checkFrameOrder_spec (frame_of c) (after_read fr0 tl) Ha Hok1) as Hck.
  change (lastHeaderStream (after_read fr0 tl)) with (lastHeaderStream fr) in Hck.
  rewrite (order_headers _ c id p es (bool_decide (ps = [])) eq_refl Hbet) in Hck. rewrite Hck.
  set (fr1 := set_lastHeaderStream _ _). change (Type_ (call_header c) =? FrameHeaders) with true.
  rewrite (bool_decide_eq_true_2 (is_Some (ReadMetaHeaders fr1))) by (simpl; rewrite Hd; by eexists).
  cbn [andb]. change (frame_of c) with (HeadersFrame (call_header c) noPriority p).
  destruct (headers_flags id p es (bool_decide (ps = []))) as (Hsid & Hflags & Hended).
  destruct (readMetaFrame_pieces F (S F) (call_header c) noPriority p ps fr1 d (with_buf d1 []) tail)
    as (fr' & Hrun & (Hmeta & Hmh' & Hmr' & Hill') & Hl' & Hr'); try done; [lia|..].
  - intros _. by eexists.
  - change (maxHeaderStringLen fr1) with (maxHeaderStringLen fr). rewrite Hstr. by apply Hpieces.
  - apply (sync_saveBuf _ _ Hs1).
  - simpl. by rewrite Hmf.
  - exists (invalidate_header (call_header c)), fr'. rewrite Hrun. cbn [env with_buf]. rewrite Hmf, Hmt.
    split; [done|]. split; [exact Hsid|]. split; [exact Hflags|]. split; [done|]. split; [|done].
    split; [by rewrite Hill'|done|by rewrite Hmr'|by rewrite Hmh'|].
    eexists. split; [exact Hmeta|]. split; [|done]. destruct Hs1; by split.
Qed.
