(* ===== verification/GrpcAnswers.v ===== *)
(** * The answers of a server, from its statuses to its client's

    The layers together: the header fields of [WriteStatus], HPACK, the frames of
    [writeHeaders], the buffered framer and the connection on the server's side; the Framer,
    the decoder and [processHeaderField] on the client's. *)

From stdpp Require Import base list strings gmap.
From Stdlib Require Import ZArith Strings.Byte Lia.
From S2P Require Import Prelude GoStrings GrpcStatus.
From S2P Require Import Hpack HpackTable HpackEncoder HpackDecoder HpackSync.
From S2P Require Import GoBytes H2Errors GrpcHeaders GrpcHeaderProps H2Frame H2Write H2Framer H2Calls H2RoundTrip.
From S2P Require Import H2ReadTotal GrpcFramer H2Blocks GrpcFramerProps.
Open Scope Z_scope.

(** One answer of the server: the stream, whether its headers were sent before, its status, and the
    trailer in the order of its iteration. *)
Record answer : Type := mkAnswer {
  answer_id : Z;
  headersSent : bool;
  answer_status : Status;
  trailer : list (list byte * list (list byte));
}.

Definition answer_fields (a : answer) : list HeaderField :=
  status_fields (headersSent a) (answer_status a) (trailer a).

(** What a client makes of the fields: the status, and the user's trailer. *)
Definition understood (unmarshalStatus : list byte -> res string Status) (a : answer) (fs : list HeaderField) : Prop :=
  exists d, processHeaderFields unmarshalStatus decodeState_zero fs = Ok d /\ decodeState_status d = answer_status a /\
    forall k, default [] (mdata d !! k) = if isReservedHeader k then [] else values k (trailer a).

(** The frame that an answer is read as. *)
Definition answered (unmarshalStatus : list byte -> res string Status) (a : answer) (f : Frame) : Prop :=
  exists h fs, f = MetaHeadersFrame h noPriority fs false /\ StreamID h = answer_id a /\
    Has (Flags h) FlagHeadersEndStream = true /\ understood unmarshalStatus a fs.

(** ** The server's side *)

(** The answers, one after the other, until the framer fails. *)
Fixpoint write_answers {W} `{BufferedWriter W} (e : Encoder) (f : framer W) (answers : list answer)
  : res hpack_error (option http2.error * framer W) :=
  match answers with
  | [] => Ok (None, f)
  | a :: answers =>
      '(e, out) ← run_ops e (OpField <$> answer_fields a);
      match write_calls (header_calls (answer_id a) true out) f with
      | (Some err, f) => Ok (Some err, f)
      | (None, f) => write_answers e f answers
      end
  end.

(** A trailer that may be sent: names in lower case, values without control characters unless
    they are sent in base 64. *)
Definition trailer_ok (trailer : list (list byte * list (list byte))) : Prop :=
  Forall (fun '(k, vv) => isReservedHeader k = true \/
    validWireHeaderFieldName k = true /\
    (has_suffix k binHdrSuffix = true \/ Forall (fun v => ValidHeaderFieldValue v = true) vv)) trailer.

(** The client's limit on the size of a list of fields. *)
Definition client_limit : Z := Z.shiftl 16 20.

Record answer_ok (a : answer) : Prop := {
  ok_id : 0 < answer_id a < 2 ^ 31;
  ok_code : 0 <= Status_Code (answer_status a) < 2 ^ 32;
  ok_trailer : trailer_ok (trailer a);
  ok_size : foldr (fun f n => rfc_size f + n) 0 (answer_fields a) <= client_limit;
}.

(** ** The fields are a list that HTTP/2 allows *)

Lemma visible_valid s : visible s = true -> ValidHeaderFieldValue s = true.
Proof.
  unfold visible, ValidHeaderFieldValue. rewrite !forallb_forall. intros H c Hc. specialize (H c Hc).
  unfold isCTL. apply negb_true_iff, andb_false_iff. left. lia.
Qed.

Lemma base64_valid v : ValidHeaderFieldValue (base64_encode_raw v) = true.
Proof.
  unfold ValidHeaderFieldValue. induction (base64_chars v) as [|c l (n & Hn & ->) _ IH]; [done|]. cbn [forallb]. rewrite IH.
  by rewrite (forall_below 64 (fun n => negb (isCTL (base64_char n) && negb (isLWS (base64_char n)))) eq_refl n Hn).
Qed.

Lemma FormatInt_valid n : 0 <= n -> ValidHeaderFieldValue (FormatInt n) = true.
Proof.
  intros H0. unfold ValidHeaderFieldValue. induction (FormatInt_digits n H0) as [|c l (d & Hd & ->) _ IH]; [done|].
  cbn [forallb]. rewrite IH.
  by rewrite (forall_below 10 (fun d => negb (isCTL (dec_digit d) && negb (isLWS (dec_digit d)))) eq_refl d Hd).
Qed.

(** A field that may come after the pseudo header fields. *)
Definition regular_ok (f : HeaderField) : Prop :=
  IsPseudo f = false /\ validWireHeaderFieldName (Name f) = true /\ ValidHeaderFieldValue (Value f) = true.

Lemma reserved_pseudo k v s : isReservedHeader k = false -> IsPseudo (mkHeaderField k v s) = false.
Proof. unfold isReservedHeader, IsPseudo. destruct k as [|c k]; [done|]. intros [H _]%orb_false_iff. done. Qed.

Lemma md_fields_ok md : trailer_ok md -> Forall regular_ok (md_fields md).
Proof.
  unfold md_fields. induction 1 as [|[k vv] md Hk _ IH]; [constructor|]. cbn [flat_map].
  destruct (isReservedHeader k) eqn:Hr; [done|]. apply Forall_app. split; [|done].
  destruct Hk as [|[Hn Hv]]; [done|]. apply Forall_fmap. apply Forall_forall. intros v Hin.
  split; [by apply reserved_pseudo|]. split; [done|]. simpl. unfold encodeMetadataHeader.
  destruct (has_suffix k binHdrSuffix); [apply base64_valid|]. destruct Hv as [|Hv]; [done|].
  rewrite Forall_forall in Hv. by apply Hv.
Qed.

Lemma status_fields_wf sent st md :
  0 <= Status_Code st -> trailer_ok md ->
  exists ps rs, status_fields sent st md = ps ++ rs /\ (ps = [] \/ ps = [field ":status" (bytes_of "200")]) /\
    Forall regular_ok rs.
Proof.
  intros Hc Hmd. unfold status_fields.
  assert (forall b, Forall regular_ok ((if b : bool then [field "content-type" (bytes_of "application/grpc")] else []) ++
    [field "grpc-status" (FormatInt (Status_Code st)); field "grpc-message" (encodeGrpcMessage (bytes_of (Status_Message st)))] ++
    md_fields md)) as Hall.
  { intros b. apply Forall_app. split; [destruct b; by repeat constructor|]. apply Forall_app. split; [|by apply md_fields_ok].
    repeat apply Forall_cons_2; [| |constructor]; (split; [done|]; split; [done|]); [by apply FormatInt_valid|].
    apply visible_valid, encode_visible. }
  destruct sent; [exists []|exists [field ":status" (bytes_of "200")]]; eexists; (split; [reflexivity|]); (split; [by auto|]).
  - apply (Hall false).
  - apply (Hall true).
Qed.

Lemma answer_block a : answer_ok a -> block_wf client_limit (answer_fields a).
Proof.
  intros [_ Hcode Htr Hsize]. unfold answer_fields in *.
  destruct (status_fields_wf (headersSent a) (answer_status a) (trailer a) ltac:(lia) Htr) as (ps & rs & Heq & Hps & Hrs).
  split; [|split].
  - split; [|split].
    + exists ps, rs. split; [done|]. split; [right; destruct Hps as [->| ->]; by repeat constructor|].
      split; [destruct Hps as [->| ->]; cbn; [constructor|apply NoDup_singleton]|].
      eapply Forall_impl; [exact Hrs|]. by intros f (? & ? & _).
    + rewrite Heq. apply Forall_app. split; [destruct Hps as [->| ->]; by repeat constructor|].
      eapply Forall_impl; [exact Hrs|]. by intros f (_ & _ & ?).
    + etransitivity; [|exact Hsize]. clear. induction (status_fields _ _ _) as [|f fs IH]; [done|].
      change (Size f + total_size fs <= rfc_size f + foldr (fun f n => rfc_size f + n) 0 fs). enough (Size f <= rfc_size f) by lia. unfold Size, uint32. apply Z.mod_le; [|lia].
      pose proof (rfc_size_pos f). unfold rfc_size in *. lia.
  - unfold status_fields. by destruct (headersSent a).
  - destruct (rfc_sizes (status_fields (headersSent a) (answer_status a) (trailer a))) as [Hall _].
    eapply Forall_impl; [exact Hall|]. intros f Hf.
    change client_limit with 16777216 in Hsize. unfold http2InitHeaderTableSize. simpl in Hf. lia.
Qed.

(** ** Both sides *)

(** The frames of a list of calls that succeed. *)
Lemma write_calls_ok {W} `{BufferedWriter W} cs (f f' : framer W) :
  bw_ok (wr f) -> bw_failed (wr f) = false -> write_calls cs f = (None, f') ->
  bw_ok (wr f') /\ bw_failed (wr f') = false /\
  bw_delivered (wr f') ++ bw_pending (wr f') = bw_delivered (wr f) ++ bw_pending (wr f) ++ frames_bytes (snd <$> cs) /\
  (last (fst <$> cs) = Some true -> bw_pending (wr f') = []).
Proof.
  revert f. induction cs as [|[b c] cs IH]; intros f Hok Hnf; cbn [write_calls].
  { intros [= <-]. unfold frames_bytes. simpl. by rewrite app_nil_r. }
  pose proof (framer_call_spec b c f Hok Hnf) as Hc. destruct (framer_call b c f) as [[e|] f1]; [done|].
  destruct Hc as (Hok1 & _ & _ & Hnf1 & Heq & Hfl). intros Hrun. destruct (IH f1 Hok1 Hnf1 Hrun) as (Hok' & Hnf' & Heq' & Hlast).
  split; [done|]. split; [done|]. rewrite fmap_cons, frames_bytes_cons, Heq'. cbn [snd]. split.
  - rewrite (app_assoc (bw_delivered (wr f1))), Heq. by rewrite <- !app_assoc.
  - rewrite fmap_cons, last_cons. destruct (last (fst <$> cs)) eqn:Hl; [exact Hlast|]. intros [= ->].
    destruct cs as [|x cs]; [|rewrite fmap_cons, last_cons in Hl; by destruct (last _)]. injection Hrun as <-. by apply Hfl.
Qed.

Lemma block_calls_flushed fuel first id es b :
  (length b <= fuel)%nat -> last (fst <$> block_calls fuel first id es b) = Some true.
Proof.
  revert first b. induction fuel as [|fuel IH]; intros first b Hf; cbn [block_calls].
  { assert (b = []) as -> by (destruct b; simpl in Hf; [done|lia]). done. }
  destruct (Z.leb_spec (slen b) http2MaxFrameLen) as [Hl|Hl]; [done|]. rewrite fmap_cons, last_cons.
  rewrite IH; [done|]. rewrite length_drop. unfold http2MaxFrameLen, slen in *. lia.
Qed.

(** The client reads [n] frames. *)
Fixpoint read_blocks (fuel n : nat) : RM (list Frame) :=
  match n with
  | O => mret []
  | S n => f ← ReadFrame fuel; fs ← read_blocks fuel n; mret (f :: fs)
  end.

Lemma frames_bytes_length cs : (length cs <= length (frames_bytes cs))%nat.
Proof.
  induction cs as [|c cs IH]; [done|]. rewrite frames_bytes_cons, length_app. cbn [length].
  enough (0 < length (call_bytes c))%nat by lia. unfold call_bytes. destruct (wire_of c) as [[[t fl] id] p]. simpl. lia.
Qed.

Lemma header_calls_length id es out : (length (header_calls id es out) <= length (frames_bytes (snd <$> header_calls id es out)))%nat.
Proof. etransitivity; [|apply frames_bytes_length]. by rewrite length_fmap. Qed.

(** A client of the grpc package: no limit of its own on lists of fields. *)
Definition grpc_reader (e : Encoder) (fr : Framer) : Prop := block_reader e fr /\ MaxHeaderListSize fr = 0.

Lemma grpc_reader_limit e fr : grpc_reader e fr -> maxHeaderListSize fr = client_limit.
Proof. intros [_ H]. unfold maxHeaderListSize. by rewrite H. Qed.

Section sides.
Context (unmarshalStatus : list byte -> res string Status).

(** One answer, by a reader in step. *)
Lemma read_answer e fr a e' out tail fuel :
  grpc_reader e fr -> answer_ok a -> added (table (HpackEncoder.dynTab e)) + client_limit < 2 ^ 61 ->
  run_ops (E:=hpack_error) e (OpField <$> answer_fields a) = Ok (e', out) ->
  let bytes := frames_bytes (snd <$> header_calls (answer_id a) true out) in
  rest (r fr) = bytes ++ tail -> (length bytes < fuel)%nat ->
  exists f fr', ReadFrame fuel fr = (Ok f, fr') /\ answered unmarshalStatus a f /\ grpc_reader e' fr' /\
    r fr' = mkReader tail (rerr (r fr)).
Proof.
  intros Hg Ha Hadd Hrun bytes Hr Hf. pose proof (grpc_reader_limit e fr Hg) as Hlim. destruct Hg as [Hbr Hmh].
  pose proof (answer_block a Ha) as Hblock. pose proof (ok_id a Ha). pose proof (ok_code a Ha) as Hcode.
  destruct (block_sizes client_limit (answer_fields a) ltac:(done) Hblock) as (_ & _ & _ & Hlen).
  destruct (read_block (E:=hpack_error) e fr (answer_fields a) Hbr) as (e2 & out2 & Hrun2 & _ & Hread); [by rewrite Hlim|lia|].
  rewrite Hrun in Hrun2. injection Hrun2 as <- <-.
  destruct (Hread (r fr) (answer_id a) true tail fuel) as (h & fr' & Hrd & Hid & Hes & Hr' & Hbr' & Hmh'); [done|done| |].
  { pose proof (header_calls_length (answer_id a) true out). unfold bytes in Hf. lia. }
  assert (set_r fr (r fr) = fr) as Hset by (by destruct fr). rewrite Hset in Hrd.
  exists (MetaHeadersFrame h noPriority (answer_fields a) false), fr'. split; [done|]. split; [|split; [split; [done|by rewrite Hmh']|done]].
  exists h, (answer_fields a). split; [done|]. split; [done|]. split; [done|].
  destruct (status_received unmarshalStatus (headersSent a) (answer_status a) (trailer a) Hcode) as (d & ? & ? & _ & _ & ?).
  by exists d.
Qed.

Lemma write_answers_read {W} `{BufferedWriter W} answers : forall e (f : framer W),
  (exists fr, grpc_reader e fr) -> bw_ok (wr f) -> bw_failed (wr f) = false -> bw_pending (wr f) = [] ->
  Forall answer_ok answers -> added (table (HpackEncoder.dynTab e)) + client_limit * slen answers < 2 ^ 61 ->
  exists err f', write_answers e f answers = Ok (err, f') /\
    (err = None ->
     exists bytes, bw_delivered (wr f') = bw_delivered (wr f) ++ bytes /\
       forall fr tail fuel, grpc_reader e fr -> rest (r fr) = bytes ++ tail -> (length bytes < fuel)%nat ->
       exists fs fr', read_blocks fuel (length answers) fr = (Ok fs, fr') /\
         r fr' = mkReader tail (rerr (r fr)) /\ Forall2 (answered unmarshalStatus) answers fs).
Proof.
  induction answers as [|a answers IH]; intros e f (fr0 & Hg0) Hok Hnf Hpend Hall Hadd; cbn [write_answers].
  { exists None, f. split; [done|]. intros _. exists []. rewrite app_nil_r. split; [done|].
    intros fr tail fuel _ Hr _. exists [], fr. split; [done|]. split; [|by constructor].
    simpl in Hr. destruct (r fr). simpl in *. by subst. }
  apply Forall_cons_1 in Hall as [Ha Hall]. rewrite slen_cons in Hadd. pose proof (slen_nonneg answers).
  pose proof (answer_block a Ha) as Hblock. assert (0 < client_limit) by done.
  destruct (block_sizes client_limit (answer_fields a) ltac:(done) Hblock) as (_ & _ & _ & Hlen).
  destruct (read_block (E:=hpack_error) e fr0 (answer_fields a) (proj1 Hg0)) as (e' & out & Hrun & Hadd' & _).
  { by rewrite (grpc_reader_limit e fr0 Hg0). } { nia. }
  rewrite Hrun. cbn [mbind res_bind]. destruct (write_calls (header_calls (answer_id a) true out) f) as [[err|] f1] eqn:Hw.
  { by exists (Some err), f1. }
  destruct (write_calls_ok _ f f1 Hok Hnf Hw) as (Hok1 & Hnf1 & Hd1 & Hp1).
  specialize (Hp1 (block_calls_flushed _ true (answer_id a) true out (le_n _))). rewrite Hp1, Hpend, app_nil_r in Hd1.
  cbn [app] in Hd1. set (b1 := frames_bytes _) in Hd1.
  assert (forall fr tail fuel, grpc_reader e fr -> rest (r fr) = b1 ++ tail -> (length b1 < fuel)%nat ->
    exists f fr', ReadFrame fuel fr = (Ok f, fr') /\ answered unmarshalStatus a f /\ grpc_reader e' fr' /\
      r fr' = mkReader tail (rerr (r fr))) as Hread.
  { intros fr tail fuel Hg Hr Hf. eapply read_answer; [done..|nia|done|done|done]. }
  destruct (Hread (set_r fr0 (mkReader b1 EOF)) [] (S (length b1))) as (_ & fr1 & _ & _ & Hg1 & _).
  { by destruct Hg0 as [[] ?]. } { by rewrite app_nil_r. } { lia. }
  destruct (IH e' f1) as (err & f' & Hrest & Hdec); [by eexists|done..|nia|].
  exists err, f'. split; [exact Hrest|]. intros Herr. destruct (Hdec Herr) as (b2 & Hd2 & Hb2).
  exists (b1 ++ b2). rewrite Hd2, Hd1, app_assoc. split; [done|]. intros fr tail fuel Hg Hr Hf.
  rewrite <- app_assoc in Hr. rewrite length_app in Hf.
  destruct (Hread fr (b2 ++ tail) fuel Hg Hr) as (fa & fra & Hrd & Han & Hga & Hra); [lia|].
  destruct (Hb2 fra tail fuel Hga) as (fs & fr' & Hrds & Hr' & Hans); [by rewrite Hra|lia|].
  exists (fa :: fs), fr'. cbn [length read_blocks]. rewrite RM_bind_eq, Hrd, RM_bind_eq, Hrds.
  split; [done|]. split; [by rewrite Hr', Hra|]. by constructor.
Qed.
End sides.

(** A new framer and a new encoder are in step. *)
Lemma newFramer_reader {C} (conn : C) rd :
  exists e f, NewEncoder (E:=hpack_error) = Ok e /\ newFramer conn rd = Ok f /\
    fr_write f = mkFramerW (NewWriterSize conn http2IOBufSize) [] false /\
    grpc_reader e (fr_read f) /\ r (fr_read f) = rd /\ added (table (HpackEncoder.dynTab e)) = 0.
Proof.
  unfold newFramer. destruct (new_in_sync (E:=http2.error) http2InitHeaderTableSize no_emit (mkMeta [] false 0 false None) 0 ltac:(done))
    as (e & d & He & Hd & Hs & Hal & Ha).
  destruct (new_in_sync (E:=hpack_error) http2InitHeaderTableSize no_emit (mkMeta [] false 0 false None) 0 ltac:(done))
    as (e2 & _ & He2 & _).
  assert (e2 = e) as -> by (vm_compute in He, He2; congruence).
  rewrite Hd. cbn [mbind res_bind]. eexists e, _. split; [done|]. split; [reflexivity|]. split; [done|].
  split; [|done]. split; [|done]. split; [done|done|vm_compute; discriminate|done|].
  exists d. split; [done|]. split; [|done]. destruct Hs; by split.
Qed.

Section answers.
Context {C : Type} (conn_Write : C -> list byte -> option (Z * go_error) * C) (sent : C -> list byte).

(** C8: What a server answers, its client understands: the statuses of any number of calls, each with its code,
    its message (with bytes that may not stand in a header) and the user's trailer, binary values included, cross
    the connection unchanged.  The server's side is [WriteStatus]'s header fields, the HPACK encoder with its table,
    the cutting of a block into frames of 16 KB, and the buffered framer on a connection that keeps to the
    contract of [io.Writer]; the client's side is [ReadFrame], HPACK, the checks of pseudo header
    fields and [processHeaderField].  If no write fails the client reads, for each answer, one joined HEADERS frame that
    ends the answer's stream and has its status and trailer, and then the end of the input.  (A trailer has lower-case names
    and printable or binary values, and an answer's fields are within the client's 16 MB.  Statuses have no
    details.) *)
Theorem status_over_http2 (Hconn : conn_law conn_Write sent) unmarshalStatus (conn : C) rd answers :
  sent conn = [] -> Forall answer_ok answers -> slen answers < 2 ^ 36 ->
  let writer := bufio_writer conn_Write sent Hconn in
  exists e server err server',
    NewEncoder (E:=hpack_error) = Ok e /\ newFramer conn rd = Ok server /\
    write_answers e server answers = Ok (err, server') /\
    (err = None -> forall cconn rerr,
     let wire := sent (bw_wr (w (fr_write server'))) in
     exists client fs fr', newFramer (C:=C) cconn (mkReader wire rerr) = Ok client /\
       read_blocks (S (length wire)) (length answers) (fr_read client) = (Ok fs, fr') /\
       Forall2 (answered unmarshalStatus) answers fs /\ (ReadFrame 1 fr').1 = Err (http2.io rerr)).
Proof.
  intros Hsent Hok Hlen writer. destruct (newFramer_reader conn rd) as (e & server & He & Hf & Hw & Hg & _ & Hadd).
  destruct (write_answers_read unmarshalStatus answers e server) as (err & server' & Hrun & Hread).
  { by eexists. } { unfold wr. by rewrite Hw. } { unfold wr. by rewrite Hw. } { unfold wr. by rewrite Hw. } { done. }
  { rewrite Hadd. change client_limit with 16777216. lia. }
  exists e, server, err, server'. do 3 (split; [done|]). intros Herr cconn rerr wire.
  destruct (Hread Herr) as (bytes & Hd & Hcl).
  assert (wire = bytes) as ->.
  { change (wire = delivered sent (w (fr_write server)) ++ bytes) in Hd. rewrite Hd, Hw. unfold delivered. simpl. by rewrite Hsent. }
  destruct (newFramer_reader (C:=C) cconn (mkReader bytes rerr)) as (e2 & client & He2 & Hc & _ & Hg2 & Hr & _).
  rewrite He in He2. injection He2 as <-.
  destruct (Hcl (fr_read client) [] (S (length bytes)) Hg2) as (fs & fr' & Hrds & Hr' & Hans); [by rewrite Hr, app_nil_r|lia|].
  exists client, fs, fr'. split; [done|]. split; [done|]. split; [done|].
  rewrite ReadFrame_end by (by rewrite Hr'). by rewrite Hr', Hr.
Qed.
End answers.

(** A connection that takes everything, and two calls: one fails with a message that is not ASCII and a binary trailer. *)
Definition list_conn (c b : list byte) : option (Z * go_error) * list byte := (None, c ++ b).

Lemma list_conn_law : conn_law list_conn id.
Proof. done. Qed.

Definition two_answers : list answer :=
  [ mkAnswer 1 false (mkStatus codes.Unimplemented "unknown service 100%") [];
    mkAnswer 3 true (mkStatus codes.Internal (string_of [x0a; xff; x25; x34; x31]))
      [(bytes_of "trace-bin", [[x00; xff]; [x01]]); (bytes_of "te", [bytes_of "dropped"])] ].

Lemma status_over_http2_witness :
  exists e server err server',
    NewEncoder (E:=hpack_error) = Ok e /\ newFramer (C:=list byte) [] (mkReader [] EOF) = Ok server /\
    @write_answers _ (bufio_writer list_conn id list_conn_law) e server two_answers = Ok (err, server') /\
    (err = None -> forall cconn rerr,
     let wire := id (bw_wr (w (fr_write server'))) in
     exists client fs fr', newFramer (C:=list byte) cconn (mkReader wire rerr) = Ok client /\
       read_blocks (S (length wire)) (length two_answers) (fr_read client) = (Ok fs, fr') /\
       Forall2 (answered (fun _ => Err "")) two_answers fs /\ (ReadFrame 1 fr').1 = Err (http2.io rerr)).
Proof.
  apply (status_over_http2 list_conn id list_conn_law (fun _ => Err "") [] (mkReader [] EOF) two_answers); [done| |done].
  repeat apply Forall_cons_2; try apply Forall_nil_2; (split; [done|done| |vm_compute; discriminate]).
  - constructor.
  - repeat apply Forall_cons_2; try apply Forall_nil_2; [right|by left]. split; [by vm_compute|by left; vm_compute].
Defined.

(** These two are written. *)
Example two_answers_written :
  match NewEncoder (E:=hpack_error), newFramer (C:=list byte) [] (mkReader [] EOF) with
  | Ok e, Ok server =>
      match @write_answers _ (bufio_writer list_conn id list_conn_law) e server two_answers with
      | Ok (err, server') => err = None /\ length (bw_wr (w (fr_write server'))) = 107%nat
      | _ => False
      end
  | _, _ => False
  end.
Proof. vm_compute. by split. Qed.
