(* ===== verification/Threads.v ===== *)
(** * Goroutines that share a state

    The concurrent parts of the program as goroutines over a shared state.  A program is a tree of
    atomic steps: a step sees the state and the number of its goroutine, may block, may choose between
    several outcomes (a [select] with more than one case ready, the iteration over a map), may panic,
    and passes its result on.  The number lets a step note who did something; nothing in the code depends on it.

    The rules of this file reduce a property of all interleavings to properties of the steps: each
    goroutine relies on what the others leave alone and guarantees the same to them. *)

From stdpp Require Import base list relations.
From Stdlib Require Import ZArith Lia.
From S2P Require Import Prelude.

(** ** Programs *)

(** What an atomic step comes to; [Goes []] blocks. *)
Inductive result (X : Type) : Type :=
| Crashes            (* a panic or a fatal error *)
| Diverges           (* a loop without end *)
| Goes (l : list X).
Arguments Crashes {X}.
Arguments Diverges {X}.
Arguments Goes {X} l.

Inductive prog (W A : Type) : Type :=
| Ret (a : A)
| Do {B : Type} (f : nat -> W -> result (B * W)) (k : B -> prog W A).
Arguments Ret {W A} a.
Arguments Do {W A B} f k.

Fixpoint prog_bind {W A B} (k : A -> prog W B) (p : prog W A) : prog W B :=
  match p with
  | Ret a => k a
  | Do f g => Do f (fun b => prog_bind k (g b))
  end.

#[export] Instance prog_ret {W} : MRet (prog W) := fun A a => Ret a.
#[export] Instance prog_mbind {W} : MBind (prog W) := fun A B k p => prog_bind k p.

(** A single step; one that only reads; one that only writes; a choice. *)
Definition act {W B} (f : nat -> W -> result (B * W)) : prog W B := Do f Ret.
Definition reads {W B} (g : W -> B) : prog W B := act (fun _ w => Goes [(g w, w)]).
Definition writes {W} (g : W -> W) : prog W unit := act (fun _ w => Goes [(tt, g w)]).
Definition choose {W B} (l : list B) : prog W B := act (fun _ w => Goes ((fun b => (b, w)) <$> l)).
Definition crash {W B} : prog W B := act (fun _ _ => Crashes).
Definition diverge {W B} : prog W B := act (fun _ _ => Diverges).

Definition when {W} (b : bool) (p : prog W unit) : prog W unit := if b then p else mret tt.

(** [for _, x := range l] *)
Fixpoint each {W A} (f : A -> prog W unit) (l : list A) : prog W unit :=
  match l with
  | [] => mret tt
  | x :: l => _ ← f x; each f l
  end.

(** What a program comes to when nothing interferes: the results and the states after. *)
Fixpoint runs {W A} (tid : nat) (p : prog W A) (w : W) : list (A * W) :=
  match p with
  | Ret a => [(a, w)]
  | Do f k => match f tid w with Goes l => l ≫= (fun '(b, w) => runs tid (k b) w) | _ => [] end
  end.

(** ** Goroutines *)

(** A loop: its state is passed from round to round until there is none; [pc] is what is left
    of the round. *)
Inductive thread (W : Type) : Type :=
| Thread {St : Type} (body : St -> prog W (option St)) (pc : prog W (option St)).
Arguments Thread {W St} body pc.

(** A goroutine without a loop. *)
Definition once {W} (p : prog W unit) : thread W :=
  Thread (St:=Empty_set) (fun s => match s with end) (_ ← p; mret None).

Inductive thread_step {W} (tid : nat) : thread W -> W -> thread W -> W -> Prop :=
| step_do St (body : St -> prog W (option St)) B (f : nat -> W -> result (B * W)) k w l b w' :
    f tid w = Goes l -> (b, w') ∈ l -> thread_step tid (Thread body (Do f k)) w (Thread body (k b)) w'
| step_round St (body : St -> prog W (option St)) s w :
    thread_step tid (Thread body (Ret (Some s))) w (Thread body (body s)) w.

Definition thread_result {W} (tid : nat) (t : thread W) (w : W) : result unit :=
  match t with
  | Thread _ (Ret _) => Goes []
  | Thread _ (Do f _) => match f tid w with Crashes => Crashes | Diverges => Diverges | Goes l => Goes ((fun _ => tt) <$> l) end
  end.

(** The next step blocks. *)
Definition blocks {W} (tid : nat) (t : thread W) (w : W) : Prop :=
  match t with
  | Thread _ (Do f _) => f tid w = Goes []
  | Thread _ (Ret _) => False
  end.

Lemma blocks_step {W} tid (t : thread W) w t' w' : blocks tid t w -> ~ thread_step tid t w t' w'.
Proof.
  intros Hb Hstep. revert Hb. destruct Hstep as [St body B f k w l b w' Hf Hin|]; simpl; [|done].
  rewrite Hf. intros [= ->]. by apply not_elem_of_nil in Hin.
Qed.

Section pool.
Context {W : Type} (environment : W -> W -> Prop) (client : W -> thread W -> Prop).

(** The goroutines run in any order, the environment changes the state, and new goroutines start. *)
Inductive pool_step : W * list (thread W) -> W * list (thread W) -> Prop :=
| pool_thread w ts tid t t' w' :
    ts !! tid = Some t -> thread_step tid t w t' w' -> pool_step (w, ts) (w', <[tid := t']> ts)
| pool_env w ts w' : environment w w' -> pool_step (w, ts) (w', ts)
| pool_spawn w ts t : client w t -> pool_step (w, ts) (w, ts ++ [t]).

(** A goroutine is about to panic, or in a loop without end. *)
Definition goes_wrong (c : result unit) (s : W * list (thread W)) : Prop :=
  exists tid t, s.2 !! tid = Some t /\ thread_result tid t s.1 = c.

(** ** Rely and guarantee *)

(** [inv] holds between the steps; [rely tid] is what [tid] may count on when others run.
    nothing is promised of steps in states that are [exempt]. *)
Context (inv : W -> Prop) (rely : nat -> W -> W -> Prop) (exempt : W -> Prop).
Context `{rely_pre : forall tid, PreOrder (rely tid)}.

Definition guarantee (tid : nat) (w w' : W) : Prop := forall tid', tid' <> tid -> rely tid' w w'.

(** From [w], [tid] runs [p] without going wrong, keeps [inv] and its guarantee, and what it ends with satisfies
    [Q], whatever the others do. *)
Fixpoint wp {A} (tid : nat) (p : prog W A) (Q : A -> W -> Prop) (w : W) : Prop :=
  match p with
  | Ret a => forall w', rely tid w w' -> inv w' -> Q a w'
  | Do f k => forall w', rely tid w w' -> inv w' ->
      match f tid w' with
      | Goes l => forall b w'', (b, w'') ∈ l -> inv w'' /\ guarantee tid w' w'' /\ wp tid (k b) Q w''
      | Crashes | Diverges => exempt w'
      end
  end.

Lemma wp_stable {A} tid (p : prog W A) Q w w' : rely tid w w' -> wp tid p Q w -> wp tid p Q w'.
Proof. intros Hr. destruct p; simpl; intros Hp w2 Hr2; apply Hp; by etransitivity. Qed.

Lemma wp_ret {A} tid (a : A) (Q : A -> W -> Prop) w :
  (forall w', rely tid w w' -> inv w' -> Q a w') -> wp tid (Ret a) Q w.
Proof. done. Qed.

Lemma wp_conseq {A} tid (p : prog W A) (Q Q' : A -> W -> Prop) w :
  (forall a w, inv w -> Q a w -> Q' a w) -> wp tid p Q w -> wp tid p Q' w.
Proof.
  intros HQ. revert w. induction p as [a|B f k IH]; simpl; intros w Hp w' Hr Hi; [by eauto|].
  specialize (Hp w' Hr Hi). destruct (f tid w'); [done..|]. intros b w2 Hin. destruct (Hp b w2 Hin) as (? & ? & ?). eauto.
Qed.

Lemma wp_seq {A B} tid (p : prog W A) (k : A -> prog W B) Q w :
  wp tid p (fun a w => wp tid (k a) Q w) w -> wp tid (prog_bind k p) Q w.
Proof.
  revert w. induction p as [a|C f g IH]; simpl; intros w Hp.
  - assert (forall w', rely tid w w' -> inv w' -> wp tid (k a) Q w') as Hk by done.
    destruct (k a); simpl in *; intros w' Hr Hi; by apply (Hk w' Hr Hi w').
  - intros w' Hr Hi. specialize (Hp w' Hr Hi). destruct (f tid w'); [done..|].
    intros b w2 Hin. destruct (Hp b w2 Hin) as (? & ? & ?). eauto.
Qed.

(** A step, then the rest. *)
Lemma wp_act {A B} tid (f : nat -> W -> result (B * W)) (k : B -> prog W A) Q w :
  (forall w', rely tid w w' -> inv w' ->
     match f tid w' with
     | Goes l => forall b w'', (b, w'') ∈ l -> inv w'' /\ guarantee tid w' w'' /\ wp tid (k b) Q w''
     | Crashes | Diverges => exempt w'
     end) ->
  wp tid (prog_bind k (act f)) Q w.
Proof. done. Qed.

Lemma wp_when tid (b : bool) p (Q : unit -> W -> Prop) w :
  (b = true -> wp tid p Q w) -> (b = false -> forall w', rely tid w w' -> inv w' -> Q tt w') -> wp tid (when b p) Q w.
Proof. destruct b; simpl; eauto. Qed.

(** An invariant of the goroutine for a loop over a list. *)
Lemma wp_each {A} tid (f : A -> prog W unit) (l : list A) (J : W -> Prop) (Q : unit -> W -> Prop) w :
  J w -> (forall w w', rely tid w w' -> inv w' -> J w -> J w') ->
  (forall x w, x ∈ l -> J w -> wp tid (f x) (fun _ => J) w) ->
  (forall w, inv w -> J w -> Q tt w) -> wp tid (each f l) Q w.
Proof.
  intros HJ Hst Hf HQ. revert w HJ. induction l as [|x l IH]; intros w HJ; cbn [each].
  - intros w' Hr Hi. apply HQ; [done|]. by eapply Hst.
  - apply wp_seq. eapply wp_conseq; [|apply Hf; [by left|done]].
    intros [] w1 Hi1 HJ1. apply IH; [|done]. intros y w2 Hy. apply Hf. by right.
Qed.

(** ** All goroutines *)

Definition thread_ok (tid : nat) (t : thread W) (w : W) : Prop :=
  match t with
  | @Thread _ St body pc =>
      exists J : St -> W -> Prop,
        let Q o w := match o with Some s => J s w | None => True end in
        (forall s w, inv w -> J s w -> wp tid (body s) Q w) /\ wp tid pc Q w
  end.

Lemma thread_ok_stable tid t w w' : rely tid w w' -> thread_ok tid t w -> thread_ok tid t w'.
Proof. destruct t as [St body pc]. intros Hr (J & Hb & Hpc). exists J. split; [done|]. by eapply wp_stable. Qed.

Lemma once_ok tid p w : wp tid p (fun _ _ => True) w -> thread_ok tid (once p) w.
Proof.
  intros Hp. unfold thread_ok, once. exists (fun (_ : Empty_set) _ => True). split; [by intros []|]. apply wp_seq. eapply wp_conseq; [|exact Hp]. by intros.
Qed.

Lemma thread_step_ok tid t w t' w' :
  inv w -> thread_ok tid t w -> thread_step tid t w t' w' -> inv w' /\ guarantee tid w w' /\ thread_ok tid t' w'.
Proof.
  intros Hi Hok Hstep. revert Hi Hok. destruct Hstep as [St body B f k w0 l b w1 Hf Hin|St body s w0]; intros Hi (J & Hb & Hpc).
  - cbn [wp] in Hpc. specialize (Hpc w0 (reflexivity w0) Hi). rewrite Hf in Hpc.
    destruct (Hpc b w1 Hin) as (Hi1 & Hg & Hk). split; [done|]. split; [done|]. by exists J.
  - split; [done|]. split; [by intros tid' _|]. exists J. split; [done|]. apply Hb; [done|]. by apply Hpc.
Qed.

(** There are at least [known] goroutines; the rules say nothing of what those may be that are started later
    under a smaller number. *)
Context (known : nat).

Definition pool_ok (s : W * list (thread W)) : Prop :=
  inv s.1 /\ (known <= length s.2)%nat /\ forall tid t, s.2 !! tid = Some t -> thread_ok tid t s.1.

Context (env_ok : forall w w', inv w -> environment w w' -> inv w' /\ forall tid, rely tid w w').
Context (client_ok : forall w t tid, (known <= tid)%nat -> inv w -> client w t -> thread_ok tid t w).

Lemma pool_step_ok s s' : pool_ok s -> pool_step s s' -> pool_ok s'.
Proof.
  intros Hok Hstep. revert Hok.
  destruct Hstep as [w ts tid t t' w' Ht Hstep|w ts w' Henv|w ts t Hc]; intros (Hi & Hn & Hts); simpl in *.
  - destruct (thread_step_ok tid t w t' w' Hi (Hts tid t Ht) Hstep) as (Hi' & Hg & Hok). split; [done|]. simpl.
    rewrite length_insert. split; [done|].
    intros tid2 t2. destruct (decide (tid = tid2)) as [<-|Hne].
    + rewrite list_lookup_insert_eq by (by eapply lookup_lt_Some). by intros [= <-].
    + rewrite list_lookup_insert_ne by done. intros Ht2. eapply thread_ok_stable; [|by eapply Hts]. by apply Hg.
  - destruct (env_ok w w' Hi Henv) as [Hi' Hr]. split; [done|]. split; [done|]. simpl. intros tid t Ht.
    eapply thread_ok_stable; [|by eapply Hts]. apply Hr.
  - split; [done|]. simpl. rewrite length_app. split; [lia|].
    intros tid t2 [Ht|[Hge Ht]]%lookup_app_Some; [by apply Hts|].
    apply list_lookup_singleton_Some in Ht as [_ <-]. apply client_ok; [lia|done..].
Qed.

Lemma pool_steps_ok s s' : pool_ok s -> rtc pool_step s s' -> pool_ok s'.
Proof. intros Hok Hrun. induction Hrun; eauto using pool_step_ok. Qed.

Lemma goes_wrong_exempt (s : W * list (thread W)) :
  inv s.1 -> (forall tid t, s.2 !! tid = Some t -> thread_ok tid t s.1) ->
  goes_wrong Crashes s \/ goes_wrong Diverges s -> exempt s.1.
Proof.
  intros Hi Hts. assert (forall tid t, s.2 !! tid = Some t ->
    thread_result tid t s.1 = Crashes \/ thread_result tid t s.1 = Diverges -> exempt s.1) as Hall.
  { intros tid t Ht. specialize (Hts tid t Ht). destruct t as [St body [a|B f k]], Hts as (J & _ & Hpc); [by intros []|].
    cbn [wp] in Hpc. specialize (Hpc _ (reflexivity s.1) Hi). simpl. destruct (f tid s.1); [done..|by intros []]. }
  intros [(tid & t & Ht & Hres)|(tid & t & Ht & Hres)]; eapply Hall; eauto.
Qed.

(** In every state that the goroutines reach the invariant holds, and no step goes wrong that is not
    exempt. *)
Lemma pool_sound s s' :
  pool_ok s -> rtc pool_step s s' ->
  inv s'.1 /\ (goes_wrong Crashes s' \/ goes_wrong Diverges s' -> exempt s'.1).
Proof.
  intros Hok Hrun. destruct (pool_steps_ok s s' Hok Hrun) as (Hi & _ & Hts). split; [done|]. by apply goes_wrong_exempt.
Qed.

(** ** Goroutines that start later

    What holds of a number as long as no goroutine has it, as a new one finds it. *)
Section later.
Context (idle : nat -> W -> Prop) (idle_rely : forall tid w w', rely tid w w' -> idle tid w -> idle tid w').
Context (starts_ok : forall w t tid, inv w -> client w t -> idle tid w -> thread_ok tid t w).

Definition pool_idle (s : W * list (thread W)) : Prop :=
  inv s.1 /\ (forall tid t, s.2 !! tid = Some t -> thread_ok tid t s.1) /\ forall tid, (length s.2 <= tid)%nat -> idle tid s.1.

Lemma pool_idle_step s s' : pool_idle s -> pool_step s s' -> pool_idle s'.
Proof.
  intros Hok Hstep. revert Hok.
  destruct Hstep as [w ts tid t t' w' Ht Hstep|w ts w' Henv|w ts t Hc]; intros (Hi & Hts & Hid); simpl in *.
  - destruct (thread_step_ok tid t w t' w' Hi (Hts tid t Ht) Hstep) as (Hi' & Hg & Hok). split; [done|]. simpl. split.
    + intros tid2 t2. destruct (decide (tid = tid2)) as [<-|Hne].
      * rewrite list_lookup_insert_eq by (by eapply lookup_lt_Some). by intros [= <-].
      * rewrite list_lookup_insert_ne by done. intros Ht2. eapply thread_ok_stable; [|by eapply Hts]. by apply Hg.
    + rewrite length_insert. intros tid2 Hge. eapply idle_rely; [|by apply Hid]. apply Hg. apply lookup_lt_Some in Ht. lia.
  - destruct (env_ok w w' Hi Henv) as [Hi' Hr]. split; [done|]. simpl. split.
    + intros tid t Ht. eapply thread_ok_stable; [|by eapply Hts]. apply Hr.
    + intros tid Hge. eapply idle_rely; [apply Hr|by apply Hid].
  - split; [done|]. simpl. split.
    + intros tid t2 [Ht|[Hge Ht]]%lookup_app_Some; [by apply Hts|]. apply list_lookup_singleton_Some in Ht as [_ <-]. by apply starts_ok, Hid.
    + rewrite length_app. intros tid Hge. apply Hid. lia.
Qed.

Lemma pool_idle_sound s s' :
  pool_idle s -> rtc pool_step s s' -> inv s'.1 /\ (goes_wrong Crashes s' \/ goes_wrong Diverges s' -> exempt s'.1).
Proof.
  intros Hok Hrun. assert (pool_idle s') as (Hi & Hts & _) by (clear - env_ok starts_ok idle_rely rely_pre Hok Hrun; induction Hrun; eauto using pool_idle_step).
  split; [done|]. by apply goes_wrong_exempt.
Qed.
End later.

(** What every step of a goroutine and of the environment respects, all of them do. *)
Lemma pool_steps_respect (G : W -> W -> Prop) `{!PreOrder G} s s' :
  (forall tid w w', guarantee tid w w' -> G w w') -> (forall w w', inv w -> environment w w' -> G w w') ->
  pool_ok s -> rtc pool_step s s' -> G s.1 s'.1.
Proof.
  intros Hg He Hok Hrun. induction Hrun as [s|s s1 s2 Hstep Hrun IH]; [done|].
  transitivity s1.1; [|apply IH; by eapply pool_step_ok]. clear IH Hrun. revert Hok.
  destruct Hstep as [w ts tid t t' w' Ht Hstep|w ts w' Henv|w ts t Hc]; intros (Hi & _ & Hts); simpl in *.
  - destruct (thread_step_ok tid t w t' w' Hi (Hts tid t Ht) Hstep) as (_ & Hgu & _). by eapply Hg.
  - by apply He.
  - done.
Qed.

(** A goroutine that blocks in every state that the others leave it never goes on. *)
Lemma pool_blocked tid t (X : W -> Prop) s s' :
  (forall w w', X w -> rely tid w w' -> X w') -> (forall w, X w -> blocks tid t w) ->
  pool_ok s -> X s.1 -> s.2 !! tid = Some t -> rtc pool_step s s' -> X s'.1 /\ s'.2 !! tid = Some t.
Proof.
  intros HX Hb Hok Hs Ht Hrun. induction Hrun as [s|s s1 s2 Hstep Hrun IH]; [done|].
  assert (X s1.1 /\ s1.2 !! tid = Some t) as [? ?]; [|apply IH; [by eapply pool_step_ok|done..]].
  clear IH Hrun. revert Hok Hs Ht.
  destruct Hstep as [w ts tid2 t2 t' w' Ht2 Hstep|w ts w' Henv|w ts t2 Hc]; intros (Hi & _ & Hts) Hs Ht; simpl in *.
  - destruct (thread_step_ok tid2 t2 w t' w' Hi (Hts tid2 t2 Ht2) Hstep) as (_ & Hg & _).
    destruct (decide (tid = tid2)) as [<-|Hne].
    + destruct (blocks_step tid t2 w t' w'); [|done]. apply Hb in Hs. congruence.
    + rewrite list_lookup_insert_ne by done. split; [|done]. eapply HX; [done|]. by apply Hg.
  - destruct (env_ok w w' Hi Henv) as [_ Hr]. split; [|done]. by eapply HX.
  - split; [done|]. rewrite lookup_app_l; [done|]. by eapply lookup_lt_Some.
Qed.

(** ** Running the goroutines by a schedule *)

(** The next goroutine to run, and which of its outcomes is taken. *)
Definition run_thread (tid choice : nat) (s : W * list (thread W)) : option (W * list (thread W)) :=
  let '(w, ts) := s in
  match ts !! tid with
  | Some (Thread body (Do f k)) =>
      match f tid w with
      | Goes l => '(b, w') ← l !! choice; Some (w', <[tid := Thread body (k b)]> ts)
      | _ => None
      end
  | Some (Thread body (Ret (Some s))) => Some (w, <[tid := Thread body (body s)]> ts)
  | _ => None
  end.

Fixpoint run_schedule (sched : list (nat * nat)) (s : W * list (thread W)) : option (W * list (thread W)) :=
  match sched with
  | [] => Some s
  | (tid, choice) :: sched => s ← run_thread tid choice s; run_schedule sched s
  end.

Lemma run_thread_step tid choice s s' : run_thread tid choice s = Some s' -> pool_step s s'.
Proof.
  destruct s as [w ts]. simpl. destruct (ts !! tid) as [[St body [[x|]|B f k]]|] eqn:Ht; try done.
  - intros [= <-]. eapply pool_thread; [done|]. constructor.
  - destruct (f tid w) as [| |l] eqn:Hf; try done. destruct (l !! choice) as [[b w']|] eqn:Hl; [|done].
    intros [= <-]. eapply pool_thread; [done|]. econstructor; [done|]. by eapply list_elem_of_lookup_2.
Qed.

Lemma run_schedule_steps sched s s' : run_schedule sched s = Some s' -> rtc pool_step s s'.
Proof.
  revert s. induction sched as [|[tid choice] sched IH]; intros s; simpl; [by intros [= <-]|].
  destruct (run_thread tid choice s) as [s1|] eqn:H1; [|done]. intros H2.
  eapply rtc_l; [by eapply run_thread_step|by apply IH].
Qed.
End pool.
