(* ===== verification/ServerState.v ===== *)
(** * The server's HTTP/2 transport: its state and its steps

    http2_server.go: the fields of [http2Server] and of its streams, the items of its control
    buffer, and the atomic steps that its goroutines are made of.  A step is an access to an object that has
    a lock of its own ([recvBuffer], [quotaPool], [inFlow]), an operation on a channel, an atomic
    variable, or a section under a mutex that touches nothing else.  Longer sections take the mutex and
    give it back in steps of their own.

    A pointer to a stream is its place in [streams].  What the goroutines note for the proofs is in [notes]: no step
    looks at it. *)

From stdpp Require Import base list strings gmap.
From Stdlib Require Import ZArith Strings.Byte Lia.
From S2P Require Import Prelude GoStrings GrpcStatus GrpcTransport.
From S2P Require Import Hpack HpackEncoder HpackSync HpackDecoder H2Errors GrpcHeaders H2Frame H2Framer H2Calls.
From S2P Require Import GrpcFramer Threads.
Open Scope Z_scope.

(** ** control.go *)

Definition defaultWindowSize : Z := 65535.
Definition initialWindowSize : Z := defaultWindowSize.
Definition initialConnWindowSize : Z := defaultWindowSize * 16.
Definition infinity : Z := max_int64.
Definition defaultMaxConnectionIdle : Z := infinity.
Definition defaultMaxConnectionAge : Z := infinity.
Definition defaultMaxConnectionAgeGrace : Z := infinity.
Definition defaultServerKeepaliveTime : Z := 2 * time.Hour.
Definition defaultServerKeepaliveTimeout : Z := 20 * time.Second.
Definition defaultKeepalivePolicyMinTime : Z := 5 * time.Minute.

(** The items of the control buffer. *)
Inductive item : Type :=
| windowUpdate (streamID increment : Z)
| settings (ack : bool) (ss : list Setting)
| resetStream (streamID code : Z)
| goAway (code : Z) (debugData : list byte)
| flushIO
| ping (ack : bool) (data : list byte).

(** ** Parameters *)

(** Of the package keepalive; durations are in nanoseconds. *)
Record ServerParameters : Type := mkServerParameters {
  MaxConnectionIdle : Z;
  MaxConnectionAge : Z;
  MaxConnectionAgeGrace : Z;
  Time : Z;
  Timeout : Z;
}.

Record EnforcementPolicy : Type := mkEnforcementPolicy {
  MinTime : Z;
  PermitWithoutStream : bool;
}.

(** The fields of the transport that never change.  The tap handle says whether it lets a method
    pass. *)
Record setup : Type := mkSetup {
  maxStreams : Z;
  kp : ServerParameters;
  kep : EnforcementPolicy;
  inTapHandle : option (list byte -> bool);
}.

(** ** The connection

    A writer that can be closed: what was delivered stays delivered. *)
Class Connection (W : Type) `{BufferedWriter W} : Type := {
  bw_Close : W -> option go_error * W;
  bw_Close_spec w : bw_ok w ->
    let w' := (bw_Close w).2 in
    bw_ok w' /\ bw_delivered w' = bw_delivered w /\ bw_pending w' = bw_pending w /\ bw_failed w' = bw_failed w;
}.

Definition errNetClosing : go_error := errorString "use of closed network connection".

(** What the reader may still get after the connection was closed: all of it, or what had arrived. *)
Definition cut_reader (rd : reader) : list reader :=
  rd :: ((fun n => H2Framer.mkReader (take n (rest rd)) errNetClosing) <$> seq 0 (S (length (rest rd)))).

(** ** The state *)

Inductive transportState : Type := reachable | unreachable | closing | draining.
Inductive streamState : Type := streamActive | streamWriteDone | streamReadDone | streamDone.

#[export] Instance transportState_eq_dec : EqDecision transportState.
Proof. solve_decision. Defined.
#[export] Instance streamState_eq_dec : EqDecision streamState.
Proof. solve_decision. Defined.

Definition MD : Type := gmap (list byte) (list (list byte)).

Record Stream : Type := mkStream {
  s_id : Z;
  s_method : list byte;
  s_recvCompress : list byte;
  s_mdata : MD;  (* the metadata in the context *)
  s_deadline : option Z;  (* of the context *)
  s_sendCompress : list byte;
  s_dec : recvBufferReader;  (* dec, with buf and the context's error *)
  s_fc : inFlow;
  s_sendQuotaPool : quotaPool;
  s_header : MD;
  s_trailer : MD;
  s_mu : option nat;  (* the goroutine that holds it *)
  s_headerOk : bool;
  s_state : streamState;
}.

Definition set_s_sendCompress (x : list byte) (s : Stream) : Stream :=
  mkStream (s_id s) (s_method s) (s_recvCompress s) (s_mdata s) (s_deadline s) x (s_dec s) (s_fc s)
    (s_sendQuotaPool s) (s_header s) (s_trailer s) (s_mu s) (s_headerOk s) (s_state s).
Definition set_s_dec (x : recvBufferReader) (s : Stream) : Stream :=
  mkStream (s_id s) (s_method s) (s_recvCompress s) (s_mdata s) (s_deadline s) (s_sendCompress s) x (s_fc s)
    (s_sendQuotaPool s) (s_header s) (s_trailer s) (s_mu s) (s_headerOk s) (s_state s).
Definition set_s_fc (x : inFlow) (s : Stream) : Stream :=
  mkStream (s_id s) (s_method s) (s_recvCompress s) (s_mdata s) (s_deadline s) (s_sendCompress s) (s_dec s) x
    (s_sendQuotaPool s) (s_header s) (s_trailer s) (s_mu s) (s_headerOk s) (s_state s).
Definition set_s_sendQuotaPool (x : quotaPool) (s : Stream) : Stream :=
  mkStream (s_id s) (s_method s) (s_recvCompress s) (s_mdata s) (s_deadline s) (s_sendCompress s) (s_dec s) (s_fc s)
    x (s_header s) (s_trailer s) (s_mu s) (s_headerOk s) (s_state s).
Definition set_s_header (x : MD) (s : Stream) : Stream :=
  mkStream (s_id s) (s_method s) (s_recvCompress s) (s_mdata s) (s_deadline s) (s_sendCompress s) (s_dec s) (s_fc s)
    (s_sendQuotaPool s) x (s_trailer s) (s_mu s) (s_headerOk s) (s_state s).
Definition set_s_trailer (x : MD) (s : Stream) : Stream :=
  mkStream (s_id s) (s_method s) (s_recvCompress s) (s_mdata s) (s_deadline s) (s_sendCompress s) (s_dec s) (s_fc s)
    (s_sendQuotaPool s) (s_header s) x (s_mu s) (s_headerOk s) (s_state s).
Definition set_s_mu (x : option nat) (s : Stream) : Stream :=
  mkStream (s_id s) (s_method s) (s_recvCompress s) (s_mdata s) (s_deadline s) (s_sendCompress s) (s_dec s) (s_fc s)
    (s_sendQuotaPool s) (s_header s) (s_trailer s) x (s_headerOk s) (s_state s).
Definition set_s_headerOk (x : bool) (s : Stream) : Stream :=
  mkStream (s_id s) (s_method s) (s_recvCompress s) (s_mdata s) (s_deadline s) (s_sendCompress s) (s_dec s) (s_fc s)
    (s_sendQuotaPool s) (s_header s) (s_trailer s) (s_mu s) x (s_state s).
Definition set_s_state (x : streamState) (s : Stream) : Stream :=
  mkStream (s_id s) (s_method s) (s_recvCompress s) (s_mdata s) (s_deadline s) (s_sendCompress s) (s_dec s) (s_fc s)
    (s_sendQuotaPool s) (s_header s) (s_trailer s) (s_mu s) (s_headerOk s) x.

(** Notes for the proofs: the frames that were written; the header fields that were encoded, and the size of
    the largest; the connection's quota that the peer granted, and what each goroutine has taken of it and
    not used; the goroutine that set the state to [closing]; and, for each goroutine, the frames that it
    wrote and what the writing methods that it called returned. *)
Record aux : Type := mkAux {
  wire : list call;
  encoded : Z;
  largest : Z;
  granted : Z;
  held : gmap nat Z;
  closer : option nat;
  log : gmap nat (list call);
  outcomes : gmap nat (list (option go_error));
}.

Section server.
Context {W : Type} `{Connection W}.

Record server : Type := mkServer {
  maxStreamID : Z;
  writableChan : option nat;  (* None: the value is in the channel; else the goroutine that took it *)
  shutdownChan : bool;  (* it is closed *)
  fr : framer W;
  hEnc : Encoder;
  controlBuf : recvBuffer item;
  fc : inFlow;
  sendQuotaPool : quotaPool;
  activity : bool;
  lastPingAt : option Z;  (* None: the zero time *)
  pingStrikes : Z;
  resetPingStrikes : bool;
  mu : option nat;  (* the goroutine that holds it *)
  state : transportState;
  activeStreams : option (gmap Z nat);  (* None: nil; the streams by their place in [streams] *)
  streamSendQuota : Z;
  idle : option Z;  (* None: the zero time *)
  streams : list Stream;  (* all that were ever accepted, in that order *)
  now : Z;  (* the clock *)
  handled : list nat;  (* the streams that were given to the handler *)
  notes : aux;
}.

Definition set_maxStreamID (x : Z) (w : server) : server :=
  mkServer x (writableChan w) (shutdownChan w) (fr w) (hEnc w) (controlBuf w) (fc w) (sendQuotaPool w) (activity w)
    (lastPingAt w) (pingStrikes w) (resetPingStrikes w) (mu w) (state w) (activeStreams w) (streamSendQuota w)
    (idle w) (streams w) (now w) (handled w) (notes w).
Definition set_writableChan (x : option nat) (w : server) : server :=
  mkServer (maxStreamID w) x (shutdownChan w) (fr w) (hEnc w) (controlBuf w) (fc w) (sendQuotaPool w) (activity w)
    (lastPingAt w) (pingStrikes w) (resetPingStrikes w) (mu w) (state w) (activeStreams w) (streamSendQuota w)
    (idle w) (streams w) (now w) (handled w) (notes w).
Definition set_shutdownChan (x : bool) (w : server) : server :=
  mkServer (maxStreamID w) (writableChan w) x (fr w) (hEnc w) (controlBuf w) (fc w) (sendQuotaPool w) (activity w)
    (lastPingAt w) (pingStrikes w) (resetPingStrikes w) (mu w) (state w) (activeStreams w) (streamSendQuota w)
    (idle w) (streams w) (now w) (handled w) (notes w).
Definition set_fr (x : framer W) (w : server) : server :=
  mkServer (maxStreamID w) (writableChan w) (shutdownChan w) x (hEnc w) (controlBuf w) (fc w) (sendQuotaPool w)
    (activity w) (lastPingAt w) (pingStrikes w) (resetPingStrikes w) (mu w) (state w) (activeStreams w)
    (streamSendQuota w) (idle w) (streams w) (now w) (handled w) (notes w).
Definition set_hEnc (x : Encoder) (w : server) : server :=
  mkServer (maxStreamID w) (writableChan w) (shutdownChan w) (fr w) x (controlBuf w) (fc w) (sendQuotaPool w)
    (activity w) (lastPingAt w) (pingStrikes w) (resetPingStrikes w) (mu w) (state w) (activeStreams w)
    (streamSendQuota w) (idle w) (streams w) (now w) (handled w) (notes w).
Definition set_controlBuf (x : recvBuffer item) (w : server) : server :=
  mkServer (maxStreamID w) (writableChan w) (shutdownChan w) (fr w) (hEnc w) x (fc w) (sendQuotaPool w) (activity w)
    (lastPingAt w) (pingStrikes w) (resetPingStrikes w) (mu w) (state w) (activeStreams w) (streamSendQuota w)
    (idle w) (streams w) (now w) (handled w) (notes w).
Definition set_fc (x : inFlow) (w : server) : server :=
  mkServer (maxStreamID w) (writableChan w) (shutdownChan w) (fr w) (hEnc w) (controlBuf w) x (sendQuotaPool w)
    (activity w) (lastPingAt w) (pingStrikes w) (resetPingStrikes w) (mu w) (state w) (activeStreams w)
    (streamSendQuota w) (idle w) (streams w) (now w) (handled w) (notes w).
Definition set_sendQuotaPool (x : quotaPool) (w : server) : server :=
  mkServer (maxStreamID w) (writableChan w) (shutdownChan w) (fr w) (hEnc w) (controlBuf w) (fc w) x (activity w)
    (lastPingAt w) (pingStrikes w) (resetPingStrikes w) (mu w) (state w) (activeStreams w) (streamSendQuota w)
    (idle w) (streams w) (now w) (handled w) (notes w).
Definition set_activity (x : bool) (w : server) : server :=
  mkServer (maxStreamID w) (writableChan w) (shutdownChan w) (fr w) (hEnc w) (controlBuf w) (fc w) (sendQuotaPool w)
    x (lastPingAt w) (pingStrikes w) (resetPingStrikes w) (mu w) (state w) (activeStreams w)
    (streamSendQuota w) (idle w) (streams w) (now w) (handled w) (notes w).
Definition set_lastPingAt (x : option Z) (w : server) : server :=
  mkServer (maxStreamID w) (writableChan w) (shutdownChan w) (fr w) (hEnc w) (controlBuf w) (fc w) (sendQuotaPool w)
    (activity w) x (pingStrikes w) (resetPingStrikes w) (mu w) (state w) (activeStreams w) (streamSendQuota w)
    (idle w) (streams w) (now w) (handled w) (notes w).
Definition set_pingStrikes (x : Z) (w : server) : server :=
  mkServer (maxStreamID w) (writableChan w) (shutdownChan w) (fr w) (hEnc w) (controlBuf w) (fc w) (sendQuotaPool w)
    (activity w) (lastPingAt w) x (resetPingStrikes w) (mu w) (state w) (activeStreams w) (streamSendQuota w)
    (idle w) (streams w) (now w) (handled w) (notes w).
Definition set_resetPingStrikes (x : bool) (w : server) : server :=
  mkServer (maxStreamID w) (writableChan w) (shutdownChan w) (fr w) (hEnc w) (controlBuf w) (fc w) (sendQuotaPool w)
    (activity w) (lastPingAt w) (pingStrikes w) x (mu w) (state w) (activeStreams w) (streamSendQuota w)
    (idle w) (streams w) (now w) (handled w) (notes w).
Definition set_mu (x : option nat) (w : server) : server :=
  mkServer (maxStreamID w) (writableChan w) (shutdownChan w) (fr w) (hEnc w) (controlBuf w) (fc w) (sendQuotaPool w)
    (activity w) (lastPingAt w) (pingStrikes w) (resetPingStrikes w) x (state w) (activeStreams w)
    (streamSendQuota w) (idle w) (streams w) (now w) (handled w) (notes w).
Definition set_state (x : transportState) (w : server) : server :=
  mkServer (maxStreamID w) (writableChan w) (shutdownChan w) (fr w) (hEnc w) (controlBuf w) (fc w) (sendQuotaPool w)
    (activity w) (lastPingAt w) (pingStrikes w) (resetPingStrikes w) (mu w) x (activeStreams w)
    (streamSendQuota w) (idle w) (streams w) (now w) (handled w) (notes w).
Definition set_activeStreams (x : option (gmap Z nat)) (w : server) : server :=
  mkServer (maxStreamID w) (writableChan w) (shutdownChan w) (fr w) (hEnc w) (controlBuf w) (fc w) (sendQuotaPool w)
    (activity w) (lastPingAt w) (pingStrikes w) (resetPingStrikes w) (mu w) (state w) x (streamSendQuota w)
    (idle w) (streams w) (now w) (handled w) (notes w).
Definition set_streamSendQuota (x : Z) (w : server) : server :=
  mkServer (maxStreamID w) (writableChan w) (shutdownChan w) (fr w) (hEnc w) (controlBuf w) (fc w) (sendQuotaPool w)
    (activity w) (lastPingAt w) (pingStrikes w) (resetPingStrikes w) (mu w) (state w) (activeStreams w) x
    (idle w) (streams w) (now w) (handled w) (notes w).
Definition set_idle (x : option Z) (w : server) : server :=
  mkServer (maxStreamID w) (writableChan w) (shutdownChan w) (fr w) (hEnc w) (controlBuf w) (fc w) (sendQuotaPool w)
    (activity w) (lastPingAt w) (pingStrikes w) (resetPingStrikes w) (mu w) (state w) (activeStreams w)
    (streamSendQuota w) x (streams w) (now w) (handled w) (notes w).
Definition set_streams (x : list Stream) (w : server) : server :=
  mkServer (maxStreamID w) (writableChan w) (shutdownChan w) (fr w) (hEnc w) (controlBuf w) (fc w) (sendQuotaPool w)
    (activity w) (lastPingAt w) (pingStrikes w) (resetPingStrikes w) (mu w) (state w) (activeStreams w)
    (streamSendQuota w) (idle w) x (now w) (handled w) (notes w).
Definition set_now (x : Z) (w : server) : server :=
  mkServer (maxStreamID w) (writableChan w) (shutdownChan w) (fr w) (hEnc w) (controlBuf w) (fc w) (sendQuotaPool w)
    (activity w) (lastPingAt w) (pingStrikes w) (resetPingStrikes w) (mu w) (state w) (activeStreams w)
    (streamSendQuota w) (idle w) (streams w) x (handled w) (notes w).
Definition set_handled (x : list nat) (w : server) : server :=
  mkServer (maxStreamID w) (writableChan w) (shutdownChan w) (fr w) (hEnc w) (controlBuf w) (fc w) (sendQuotaPool w)
    (activity w) (lastPingAt w) (pingStrikes w) (resetPingStrikes w) (mu w) (state w) (activeStreams w)
    (streamSendQuota w) (idle w) (streams w) (now w) x (notes w).
Definition set_notes (x : aux) (w : server) : server :=
  mkServer (maxStreamID w) (writableChan w) (shutdownChan w) (fr w) (hEnc w) (controlBuf w) (fc w) (sendQuotaPool w)
    (activity w) (lastPingAt w) (pingStrikes w) (resetPingStrikes w) (mu w) (state w) (activeStreams w)
    (streamSendQuota w) (idle w) (streams w) (now w) (handled w) x.

Definition note_wire (tid : nat) (c : call) (a : aux) : aux :=
  mkAux (wire a ++ [c]) (encoded a) (largest a) (granted a) (held a) (closer a)
    (<[tid := default [] (log a !! tid) ++ [c]]> (log a)) (outcomes a).
Definition note_encoded (fs : list HeaderField) (a : aux) : aux :=
  mkAux (wire a) (encoded a + slen fs) (foldr Z.max (largest a) (rfc_size <$> fs)) (granted a) (held a) (closer a)
    (log a) (outcomes a).
Definition note_granted (n : Z) (a : aux) : aux :=
  mkAux (wire a) (encoded a) (largest a) (granted a + n) (held a) (closer a) (log a) (outcomes a).
Definition note_held (tid : nat) (n : Z) (a : aux) : aux :=
  mkAux (wire a) (encoded a) (largest a) (granted a) (<[tid := default 0 (held a !! tid) + n]> (held a)) (closer a)
    (log a) (outcomes a).
Definition note_closer (tid : nat) (a : aux) : aux :=
  mkAux (wire a) (encoded a) (largest a) (granted a) (held a) (Some tid) (log a) (outcomes a).
Definition note_outcome (tid : nat) (err : option go_error) (a : aux) : aux :=
  mkAux (wire a) (encoded a) (largest a) (granted a) (held a) (closer a) (log a)
    (<[tid := default [] (outcomes a !! tid) ++ [err]]> (outcomes a)).

#[local] Abbreviation step := (prog server).

(** ** Steps on the transport *)

(** [t.mu]: a section of one step, and the two ends of a longer one. *)
Definition section {A} (f : nat -> server -> result (A * server)) : step A :=
  act (fun tid w => match mu w with None => f tid w | Some _ => Goes [] end).
Definition lock_mu : step unit :=
  act (fun tid w => match mu w with None => Goes [(tt, set_mu (Some tid) w)] | Some _ => Goes [] end).
Definition unlock_mu : step unit :=
  act (fun _ w => match mu w with Some _ => Goes [(tt, set_mu None w)] | None => Crashes end).

(** [t.controlBuf.put(i)] *)
Definition put (i : item) : step unit := writes (fun w => set_controlBuf (recvBuffer_put (controlBuf w) i) w).

(** [t.fc.onData(n)], and [if w := t.fc.onRead(n); w > 0 { t.controlBuf.put(&windowUpdate{0, w}) }] *)
Definition fc_onData (n : Z) : step (option go_error) :=
  act (fun _ w => let '(err, f) := onData (fc w) n in Goes [(err, set_fc f w)]).
Definition fc_onRead (n : Z) : step Z := act (fun _ w => let '(u, f) := onRead (fc w) n in Goes [(u, set_fc f w)]).
Definition release (n : Z) : step unit := u ← fc_onRead n; when (0 <? u) (put (windowUpdate 0 u)).

(** [t.sendQuotaPool.add(v)], by the peer, and by a goroutine that gives back what it took. *)
Definition grant (v : Z) : step unit :=
  writes (fun w => set_notes (note_granted v (notes w)) (set_sendQuotaPool (quotaPool_add (sendQuotaPool w) v) w)).
Definition give_back (v : Z) : step unit :=
  act (fun tid w => Goes [(tt, set_notes (note_held tid (- v) (notes w))
                                 (set_sendQuotaPool (quotaPool_add (sendQuotaPool w) v) w))]).

(** [t.writableChan <- 0] *)
Definition send_writable : step unit :=
  act (fun _ w => match writableChan w with Some _ => Goes [(tt, set_writableChan None w)] | None => Goes [] end).

(** [close(t.shutdownChan)] *)
Definition close_shutdown : step unit :=
  act (fun _ w => if shutdownChan w then Crashes else Goes [(tt, set_shutdownChan true w)]).

(** [t.conn.Close()] *)
Definition with_w (f : framer W) (x : W) : framer W :=
  with_write f (H2Write.mkFramerW x (H2Write.wbuf (fr_write f)) (H2Write.AllowIllegalWrites (fr_write f))).
Definition with_r (f : framer W) (x : reader) : framer W :=
  mk_framer (numWriters f) (fr_write f) (set_r (fr_read f) x).
Definition conn_Close : step (option go_error) :=
  act (fun _ w =>
    let '(err, x) := bw_Close (H2Write.w (fr_write (fr w))) in
    Goes ((fun rd => (err, set_fr (with_r (with_w (fr w) x) rd) w)) <$> cut_reader (r (fr_read (fr w))))).

(** ** Steps on the framer *)

(** A frame that was written is noted; a data frame uses quota. *)
Definition quota_used (c : call) : Z := match c with CData _ _ data _ => slen data | _ => 0 end.
Definition note_frame (tid : nat) (c : call) (err : option http2.error) (a : aux) : aux :=
  match err with
  | None => let a := note_wire tid c a in if quota_used c =? 0 then a else note_held tid (- quota_used c) a
  | Some _ => a
  end.

Definition framer_write (forceFlush : bool) (c : call) : step (option http2.error) :=
  act (fun tid w =>
    let '(err, f) := framer_call forceFlush c (fr w) in
    Goes [(err, set_notes (note_frame tid c err (notes w)) (set_fr f w))]).
Definition framer_flush : step (option http2.error) :=
  act (fun _ w => let '(err, f) := flushWrite (fr w) in Goes [(err, set_fr f w)]).
Definition framer_adjust (i : Z) : step Z :=
  act (fun _ w => let '(n, f) := adjustNumWriters (fr w) i in Goes [(n, set_fr f w)]).

(** A read that has not ended after as many rounds as there are bytes would not end. *)
Definition framer_read : step (res http2.error Frame) :=
  act (fun _ w =>
    let fuel := S (length (rest (r (fr_read (fr w))))) in
    match readFrame fuel (fr w) with
    | (Panic, _) => Crashes
    | (Diverge, _) => Diverges
    | (x, f) => Goes [(x, set_fr f w)]
    end).

(** The fields through [t.hEnc] into the empty [t.hBuf], which takes all that it is given: the block. *)
Definition encode (fs : list HeaderField) : step (list byte) :=
  _ ← writes (fun w => set_notes (note_encoded fs (notes w)) w);
  act (fun _ w =>
    match run_ops (E:=hpack_error) (hEnc w) (OpField <$> fs) with
    | Ok (e, out) => Goes [(out, set_hEnc e w)]
    | Err _ | Panic => Crashes
    | Diverge => Diverges
    end).

(** ** Steps on a stream *)

Definition on_stream {A} (p : nat) (f : nat -> Stream -> result (A * Stream)) : step A :=
  act (fun tid w =>
    match streams w !! p with
    | None => Crashes
    | Some s =>
        match f tid s with
        | Goes l => Goes ((fun '(a, s) => (a, set_streams (<[p := s]> (streams w)) w)) <$> l)
        | Crashes => Crashes
        | Diverges => Diverges
        end
    end).

Definition stream_get {A} (p : nat) (g : Stream -> A) : step A := on_stream p (fun _ s => Goes [(g s, s)]).
Definition stream_set (p : nat) (g : Stream -> Stream) : step unit := on_stream p (fun _ s => Goes [(tt, g s)]).

(** [s.mu]: a section of one step, and the two ends of a longer one. *)
Definition stream_section {A} (p : nat) (f : Stream -> A * Stream) : step A :=
  on_stream p (fun _ s => match s_mu s with None => Goes [f s] | Some _ => Goes [] end).
Definition stream_lock (p : nat) : step unit :=
  on_stream p (fun tid s => match s_mu s with None => Goes [(tt, set_s_mu (Some tid) s)] | Some _ => Goes [] end).
Definition stream_unlock (p : nat) : step unit :=
  on_stream p (fun _ s => match s_mu s with Some _ => Goes [(tt, set_s_mu None s)] | None => Crashes end).

(** [s.cancel()]: the first cause stays. *)
Definition set_done (e : go_error) (s : Stream) : Stream :=
  match reader_done (s_dec s) with
  | Some _ => s
  | None => set_s_dec (GrpcTransport.mkReader (Some e) (reader_goAway (s_dec s)) (reader_recv (s_dec s))
                         (reader_last (s_dec s)) (reader_err (s_dec s))) s
  end.
Definition cancel (p : nat) : step unit := stream_set p (set_done ErrCanceled).

(** [s.write(m)] *)
Definition set_buf (b : recvBuffer recvMsg) (s : Stream) : Stream :=
  set_s_dec (set_last (s_dec s) b (reader_last (s_dec s)) (reader_err (s_dec s))) s.
Definition stream_write (p : nat) (m : recvMsg) : step unit :=
  stream_set p (fun s => set_buf (recvBuffer_put (reader_recv (s_dec s)) m) s).

(** [s.fc.onData(n)], [s.fc.onRead(n)] and [s.sendQuotaPool.add(v)] *)
Definition stream_onData (p : nat) (n : Z) : step (option go_error) :=
  on_stream p (fun _ s => let '(err, f) := onData (s_fc s) n in Goes [(err, set_s_fc f s)]).
Definition stream_onRead (p : nat) (n : Z) : step Z :=
  on_stream p (fun _ s => let '(u, f) := onRead (s_fc s) n in Goes [(u, set_s_fc f s)]).
Definition stream_add (p : nat) (v : Z) : step unit :=
  stream_set p (fun s => set_s_sendQuotaPool (quotaPool_add (s_sendQuotaPool s) v) s).

(** ** [wait]

    The cases that are ready: the stream's context is done, the transport is closing, or [proceed]
    has a value. *)
Definition wait {A} (p : nat) (proceed : nat -> server -> list (A * server)) : step (go_error + A) :=
  act (fun tid w =>
    match streams w !! p with
    | None => Crashes
    | Some s =>
        match from_option ContextErr (Err EOF) (reader_done (s_dec s)) with
        | Panic => Crashes
        | Diverge => Diverges
        | x =>
            Goes (match x with Ok e => [(inl e, w)] | _ => [] end ++
                  (if shutdownChan w then [(inl ErrConnClosing, w)] else []) ++
                  ((fun '(a, w) => (inr a, w)) <$> proceed tid w))
        end
    end).

(** [t.writableChan], [s.sendQuotaPool.acquire()] and [t.sendQuotaPool.acquire()] *)
Definition take_writable (tid : nat) (w : server) : list (unit * server) :=
  match writableChan w with None => [(tt, set_writableChan (Some tid) w)] | Some _ => [] end.
Definition acquire_stream (p : nat) (tid : nat) (w : server) : list (Z * server) :=
  match streams w !! p with
  | Some s =>
      match quotaPool_acquire (s_sendQuotaPool s) with
      | Some (n, q) => [(n, set_streams (<[p := set_s_sendQuotaPool q s]> (streams w)) w)]
      | None => []
      end
  | None => []
  end.
Definition acquire_conn (tid : nat) (w : server) : list (Z * server) :=
  match quotaPool_acquire (sendQuotaPool w) with
  | Some (n, q) => [(n, set_notes (note_held tid n (notes w)) (set_sendQuotaPool q w))]
  | None => []
  end.
End server.
Arguments server W : clear implicits.
