(* ===== verification/ServerTransport.v ===== *)
(** * The server's HTTP/2 transport: its operations

    http2_server.go, method by method, as programs over the steps of ServerState.v: what a stream's
    handler calls, what the goroutines of the transport do, and the goroutines themselves.  The order in which
    a loop over a map goes is chosen when it starts.

    The service gives its server no credentials and no stats handler, so that [authInfo] and [stats]
    are nil. *)

From stdpp Require Import base list strings gmap.
From Stdlib Require Import ZArith Strings.Byte Lia.
From S2P Require Import Prelude GoStrings GrpcStatus GrpcTransport.
From S2P Require Import Hpack HpackEncoder HpackDecoder H2Errors GrpcHeaders H2Frame H2Framer H2Calls.
From S2P Require Import GrpcFramer Threads ServerState.
Open Scope Z_scope.

(** [metadata.Join] of two. *)
Definition Join (md1 md2 : MD) : MD :=
  union_with (fun vv1 vv2 => Some (vv1 ++ vv2)) md1 md2.

(** [range md] *)
Definition orders {A} (l : list A) : list (list A) := permutations l.

Section transport.
Context {W : Type} `{Connection W} (cf : setup).
#[local] Abbreviation step := (prog (server W)).

(** ** Closing *)

Definition errAlreadyClosed : go_error := errorString "transport: Close() was already called".

(** The streams of the map that [Close] takes, or nothing. *)
Definition Close_section (tid : nat) (w : server W) : result (option (list nat) * server W) :=
  if bool_decide (state w = closing) then Goes [(None, w)] else
  let ps := (map_to_list (default ∅ (activeStreams w))).*2 in
  Goes [(Some ps, set_notes (note_closer tid (notes w)) (set_activeStreams None (set_state closing w)))].

Definition Close : step (option go_error) :=
  streams ← section Close_section;
  match streams with
  | None => mret (Some errAlreadyClosed)
  | Some streams =>
      _ ← close_shutdown;
      err ← conn_Close;
      streams ← choose (orders streams);
      _ ← each cancel streams;
      mret err
  end.

(** Whether the deferred [t.Close()] is due. *)
Definition closeStream_section (id : Z) (_ : nat) (w : server W) : result (bool * server W) :=
  let active := delete id <$> activeStreams w in
  let w := set_activeStreams active w in
  let empty := bool_decide (default ∅ active = ∅) in
  let w := if empty then set_idle (Some (now w)) w else w in
  Goes [(bool_decide (state w = draining) && empty, w)].

Definition closeStream (p : nat) : step unit :=
  id ← stream_get p s_id;
  last ← section (closeStream_section id);
  _ ← cancel p;
  _ ← stream_lock p;
  q ← on_stream p (fun _ s => let '(q, f) := resetPendingData (s_fc s) in Goes [(q, set_s_fc f s)]);
  _ ← when (0 <? q) (release q);
  _ ← stream_set p (set_s_state streamDone);
  _ ← stream_unlock p;
  when last (_ ← Close; mret tt).

Definition Drain : step unit := put (goAway http2.ErrCodeNo []).

(** ** Writing *)

(** The loop over the frames of a block, see [block_calls] for the frames. *)
Fixpoint write_frames (cs : list (bool * call)) : step (option go_error) :=
  match cs with
  | [] => mret None
  | (forceFlush, c) :: cs =>
      err ← framer_write forceFlush c;
      match err with
      | Some err =>
          _ ← Close;
          mret (Some (ConnectionError ("transport: " +:+ http2.Error err) true))
      | None => write_frames cs
      end
  end.

Definition server_writeHeaders (p : nat) (b : list byte) (endStream : bool) : step (option go_error) :=
  id ← stream_get p s_id;
  err ← write_frames (header_calls id endStream b);
  _ ← when (bool_decide (err = None)) (writes (set_resetPingStrikes true));
  mret err.

Definition ErrIllegalHeaderWrite : go_error :=
  errorString "transport: the stream is done or WriteHeader was already called".

(** The metadata to send, if it may be sent. *)
Definition WriteHeader_section (md : MD) (s : Stream) : (go_error + MD) * Stream :=
  if s_headerOk s || bool_decide (s_state s = streamDone) then (inl ErrIllegalHeaderWrite, s) else
  let s := set_s_headerOk true s in
  let s :=
    if bool_decide (md = ∅) then s
    else if bool_decide (s_header s = ∅) then set_s_header md s
    else set_s_header (Join (s_header s) md) s in
  (inr (s_header s), s).

Definition WriteHeader (p : nat) (md : MD) : step (option go_error) :=
  md ← stream_section p (WriteHeader_section md);
  match md with
  | inl err => mret (Some err)
  | inr md =>
      w ← wait p take_writable;
      match w with
      | inl err => mret (Some err)
      | inr _ =>
          sendCompress ← stream_get p s_sendCompress;
          md ← choose (orders (map_to_list md));
          b ← encode (header_fields sendCompress md);
          err ← server_writeHeaders p b false;
          match err with
          | Some err => mret (Some err)
          | None => _ ← send_writable; mret None
          end
      end
  end.

(** [headersSent] and [hasHeader], unless the stream is done. *)
Definition WriteStatus_section (s : Stream) : option (bool * bool) * Stream :=
  (if bool_decide (s_state s = streamDone) then None
   else Some (s_headerOk s, negb (bool_decide (s_header s = ∅))), s).

Definition WriteStatus (p : nat) (st : Status) : step (option go_error) :=
  x ← stream_section p WriteStatus_section;
  match x with
  | None => mret None
  | Some (headersSent, hasHeader) =>
      let pending := negb headersSent && hasHeader in
      _ ← when pending (_ ← WriteHeader p ∅; mret tt);
      w ← wait p take_writable;
      match w with
      | inl err => mret (Some err)
      | inr _ =>
          trailer ← stream_get p s_trailer;
          trailer ← choose (orders (map_to_list trailer));
          b ← encode (status_fields (headersSent || pending) st trailer);
          err ← server_writeHeaders p b true;
          match err with
          | Some err => _ ← Close; mret (Some err)
          | None =>
              _ ← closeStream p;
              _ ← send_writable;
              mret None
          end
      end
  end.

(** A writer that leaves: the last one of its batch asks for the flush. *)
Definition leave_writers : step unit :=
  n ← framer_adjust (-1);
  when (n =? 0) (put flushIO).

Definition is_StreamError (e : go_error) : bool := match e with StreamError _ _ => true | _ => false end.

(** What is done with the quota in hand: [ps] bytes [chunk] of the stream [id], [rest] to follow.
    [Some] ends the call of [Write]. *)
Definition write_chunk (p : nat) (id : Z) (last : bool) (chunk rest : list byte) : step (option go_error) :=
  let ps := slen chunk in
  _ ← framer_adjust 1;
  w ← wait p take_writable;
  match w with
  | inl err =>
      _ ← when (is_StreamError err) (give_back ps);
      _ ← leave_writers;
      mret (Some err)
  | inr _ =>
      done ← stream_get p (fun s => reader_done (s_dec s));
      match done with
      | Some err =>
          _ ← give_back ps;
          _ ← leave_writers;
          _ ← send_writable;
          match ContextErr err with Ok err => mret (Some err) | _ => crash end
      | None =>
          alone ← (if bool_decide (rest = []) then n ← framer_adjust 0; mret (n =? 1) else mret false);
          err ← framer_write (alone && negb last) (CData id false chunk None);
          match err with
          | Some err =>
              _ ← Close;
              mret (Some (ConnectionError ("transport: " +:+ http2.Error err) true))
          | None =>
              n ← framer_adjust (-1);
              _ ← when (n =? 0) (_ ← framer_flush; mret tt);
              _ ← send_writable;
              mret None
          end
      end
  end.

(** Every round sends something, so that there are no more rounds than bytes. *)
Fixpoint write_loop (fuel : nat) (p : nat) (id : Z) (last : bool) (r : list byte) : step (option go_error) :=
  if bool_decide (r = []) then mret None else
  match fuel with
  | O => diverge
  | S fuel =>
      sq ← wait p (acquire_stream p);
      match sq with
      | inl err => mret (Some err)
      | inr sq =>
          tq ← wait p acquire_conn;
          match tq with
          | inl err => mret (Some err)
          | inr tq =>
              let size := http2MaxFrameLen in
              let size := if sq <? size then sq else size in
              let size := if tq <? size then tq else size in
              let chunk := take (Z.to_nat size) r in
              let r := drop (Z.to_nat size) r in
              let ps := slen chunk in
              _ ← when (ps <? sq) (stream_add p (sq - ps));
              _ ← when (ps <? tq) (give_back (tq - ps));
              err ← write_chunk p id last chunk r;
              match err with
              | Some err => mret (Some err)
              | None => write_loop fuel p id last r
              end
          end
      end
  end.

(** The error, or whether [writeHeaderFrame] is set. *)
Definition Write_section (s : Stream) : (go_error + bool) * Stream :=
  (if bool_decide (s_state s = streamDone) then inl (StreamError codes.Unknown "the stream has been done")
   else inr (negb (s_headerOk s)), s).

(** [last] is the field of the options. *)
Definition Write (p : nat) (data : list byte) (last : bool) : step (option go_error) :=
  x ← stream_section p Write_section;
  match x with
  | inl err => mret (Some err)
  | inr writeHeaderFrame =>
      _ ← when writeHeaderFrame (_ ← WriteHeader p ∅; mret tt);
      id ← stream_get p s_id;
      err ← write_loop (length data) p id last data;
      _ ← when (bool_decide (err = None)) (writes (set_resetPingStrikes true));
      mret err
  end.

(** ** Reading from a stream *)

Definition updateWindow (p : nat) (n : Z) : step unit :=
  _ ← stream_lock p;
  st ← stream_get p s_state;
  if bool_decide (st = streamDone) then stream_unlock p else
  _ ← release n;
  u ← stream_onRead p n;
  id ← stream_get p s_id;
  _ ← when (0 <? u) (put (windowUpdate id u));
  stream_unlock p.

(** [Stream.Read] of transport.go into a slice of [n] bytes.  A read that blocks takes no step; [choice]
    is the case that its [select] takes when several are ready. *)
Definition read_step (choice n : nat) (s : Stream) : result (read_result * Stream) :=
  match Reader_Read choice n (s_dec s) with
  | (Blocked, _) => Goes []
  | (Panicked, _) => Crashes
  | (x, d) => Goes [(x, set_s_dec d s)]
  end.

Definition Stream_Read (p choice n : nat) : step (go_error + list byte) :=
  x ← on_stream p (fun _ => read_step choice n);
  match x with
  | Bytes b => _ ← updateWindow p (slen b); mret (inr b)
  | Failed e => mret (inl e)
  | _ => crash
  end.

(** [SetHeader], [SetTrailer] and [SetSendCompress] of transport.go. *)
Definition SetHeader (p : nat) (md : MD) : step (option go_error) :=
  stream_section p (fun s =>
    if s_headerOk s || bool_decide (s_state s = streamDone) then (Some ErrIllegalHeaderWrite, s) else
    if bool_decide (md = ∅) then (None, s) else
    (None, set_s_header (Join (s_header s) md) s)).

Definition SetTrailer (p : nat) (md : MD) : step (option go_error) :=
  if bool_decide (md = ∅) then mret None else
  stream_section p (fun s => (None, set_s_trailer (Join (s_trailer s) md) s)).

Definition SetSendCompress (p : nat) (str : list byte) : step unit := stream_set p (set_s_sendCompress str).
End transport.
