(* ===== verification/ServerLoops.v ===== *)
(** * The server's HTTP/2 transport: its goroutines

    http2_server.go: the reader ([HandleStreams] and its handlers of frames), the [controller], which
    writes what the control buffer holds, [keepalive], [newHTTP2Server], and all of them together with the
    goroutines of the streams' handlers, which may call any method on any stream at any time. *)

From stdpp Require Import base list strings gmap.
From Stdlib Require Import ZArith Strings.Byte Lia.
From S2P Require Import Prelude GoStrings GrpcStatus GrpcTransport.
From S2P Require Import Hpack HpackEncoder HpackDecoder H2Errors GrpcHeaders H2Frame H2Framer H2Calls.
From S2P Require Import GrpcFramer Threads ServerState ServerTransport.
Open Scope Z_scope.

Definition maxPingStrikes : Z := 2.
Definition defaultPingTimeout : Z := 2 * time.Hour.

(** [http2.ClientPreface] *)
Definition clientPreface : list byte :=
  bytes_of "PRI * HTTP/2.0" ++ [x0d; x0a; x0d; x0a] ++ bytes_of "SM" ++ [x0d; x0a; x0d; x0a].

Section loops.
Context {W : Type} `{Connection W} (cf : setup) (unmarshalStatus : list byte -> res string Status).
#[local] Abbreviation step := (prog (server W)).

(** ** The frames of the reader *)

(** What the section under [t.mu] of [operateHeaders] comes to. *)
Inductive admission : Type := NotReachable | TooMany | IllegalID | Accepted (p : nat).

Definition is_done (d : option Z) (now : Z) : option go_error :=
  match d with Some d => if d <=? now then Some ErrDeadlineExceeded else None | None => None end.

(** The stream of a header block; [st] is what its fields say. *)
Definition new_stream (id : Z) (ended : bool) (st : decodeState) (start : Z) : Stream :=
  let deadline := if timeoutSet st then Some (start + timeout st) else None in
  mkStream id (method st) (encoding st) (mdata st) deadline []
    (GrpcTransport.mkReader (is_done deadline start) false newRecvBuffer [] None)
    (mkInFlow initialWindowSize 0 0) (newQuotaPool 0) ∅ ∅ None false
    (if ended then streamReadDone else streamActive).

Definition admit_section (s : Stream) (_ : nat) (w : server W) : result (admission * server W) :=
  if negb (bool_decide (state w = reachable)) then Goes [(NotReachable, w)] else
  let active := default ∅ (activeStreams w) in
  if maxStreams cf <=? uint32 (Z.of_nat (size active)) then Goes [(TooMany, w)] else
  if negb (s_id s mod 2 =? 1) || (s_id s <=? maxStreamID w) then Goes [(IllegalID, w)] else
  match activeStreams w with
  | None => Crashes (* an assignment to an entry of a nil map *)
  | Some active =>
      let p := length (streams w) in
      let s := set_s_sendQuotaPool (newQuotaPool (streamSendQuota w)) s in
      let active := <[s_id s := p]> active in
      let w := set_streams (streams w ++ [s]) (set_activeStreams (Some active) (set_maxStreamID (s_id s) w)) in
      Goes [(Accepted p, if bool_decide (size active = 1%nat) then set_idle None w else w)]
  end.

(** Whether the transport is to be closed.  [handle] starts a goroutine for the stream. *)
Definition operateHeaders (h : FrameHeader) (fields : list HeaderField) : step bool :=
  let id := StreamID h in
  match processHeaderFields unmarshalStatus decodeState_zero fields with
  | Panic => crash
  | Diverge => diverge
  | Err e =>
      _ ← match reset_code e with Some code => put (resetStream id code) | None => mret tt end;
      mret false
  | Ok st =>
      start ← reads now;
      let s := new_stream id (Has (Flags h) FlagHeadersEndStream) st start in
      if negb (from_option (fun tap => tap (method st)) true (inTapHandle cf)) then
        _ ← put (resetStream id http2.ErrCodeRefusedStream);
        mret false
      else
        x ← section (admit_section s);
        match x with
        | NotReachable => mret false
        | TooMany => _ ← put (resetStream id http2.ErrCodeRefusedStream); mret false
        | IllegalID => mret true
        | Accepted p => _ ← writes (fun w => set_handled (handled w ++ [p]) w); mret false
        end
  end.

(** A look-up in a nil map finds nothing. *)
Definition getStream (id : Z) : step (option nat) :=
  section (fun _ w => Goes [(default ∅ (activeStreams w) !! id, w)]).

(** The end of [handleData]: the data and the end of the stream go to the handler. *)
Definition deliver (p : nat) (data : list byte) : step unit :=
  when (negb (bool_decide (data = []))) (stream_write p (mkRecvMsg data None)).
Definition deliver_end (p : nat) : step unit :=
  _ ← stream_section p (fun s => (tt, if bool_decide (s_state s = streamDone) then s else set_s_state streamReadDone s));
  stream_write p (mkRecvMsg [] (Some EOF)).

(** The accounts of a data frame of [size] bytes that is not empty, and its data; whether it is to be
    handled further. *)
Definition account (p : nat) (h : FrameHeader) (data : list byte) : step bool :=
  let size := Length h in
  let padding := uint32 (size - slen data) in
  let padded := Has (Flags h) FlagDataPadded in
  _ ← when padded (release padding);
  _ ← stream_lock p;
  st ← stream_get p s_state;
  if bool_decide (st = streamDone) then
    _ ← stream_unlock p;
    _ ← release size;
    mret false
  else
    id ← stream_get p s_id;
    err ← stream_onData p size;
    match err with
    | Some _ =>
        _ ← stream_unlock p;
        _ ← closeStream p;
        _ ← put (resetStream id http2.ErrCodeFlowControl);
        mret false
    | None =>
        _ ← when padded (u ← stream_onRead p padding; when (0 <? u) (put (windowUpdate id u)));
        _ ← stream_unlock p;
        _ ← deliver p data;
        mret true
    end.

Definition handleData (f : Frame) : step unit :=
  let h := Header f in
  err ← fc_onData (Length h);
  match err with
  | Some _ => _ ← Close; mret tt
  | None =>
      s ← getStream (StreamID h);
      match s with
      | None => release (Length h)
      | Some p =>
          match octets (E:=http2.error) f with
          | Ok data =>
              further ← (if 0 <? Length h then account p h data else mret true);
              when (further && Has (Flags h) FlagDataEndStream) (deliver_end p)
          | _ => crash
          end
      end
  end.

Definition handleRSTStream (id : Z) : step unit :=
  s ← getStream id;
  match s with
  | Some p => closeStream p
  | None => mret tt
  end.

Definition handleSettings (h : FrameHeader) (payload : list byte) : step unit :=
  if Has (Flags h) FlagSettingsAck then mret tt else
  match ForeachSetting h payload (fun s ss => Ok (ss ++ [s])) [] with
  | Ok ss => put (settings true ss)
  | _ => crash
  end.

(** [lastPingAt.Add(d).After(now)]; the zero time is long ago. *)
Definition pinged_within (last : option Z) (d now : Z) : bool :=
  match last with Some t => now <? t + d | None => false end.

Definition handlePing (h : FrameHeader) (data : list byte) : step unit :=
  if Has (Flags h) FlagPingAck then mret tt else
  _ ← put (ping true data);
  t ← reads now;
  reset ← act (fun _ w => Goes [(resetPingStrikes w, set_resetPingStrikes false w)]);
  _ ← (if (reset : bool) then writes (set_pingStrikes 0)
       else
         ns ← section (fun _ w => Goes [(size (default ∅ (activeStreams w)), w)]);
         let within := if (Z.of_nat ns <? 1) && negb (PermitWithoutStream (kep cf)) then defaultPingTimeout
                       else MinTime (kep cf) in
         _ ← writes (fun w => if pinged_within (lastPingAt w) within t
                              then set_pingStrikes (uint8 (pingStrikes w + 1)) w else w);
         strikes ← reads pingStrikes;
         when (maxPingStrikes <? strikes)
           (put (goAway http2.ErrCodeEnhanceYourCalm (bytes_of "too_many_pings"))));
  writes (set_lastPingAt (Some t)).

Definition handleWindowUpdate (id incr : Z) : step unit :=
  if id =? 0 then grant incr else
  s ← getStream id;
  match s with
  | Some p => stream_add p incr
  | None => mret tt
  end.

(** ** The reader *)

(** The [switch] on the type of the frame. *)
Definition handle_frame (f : Frame) : step unit :=
  match f with
  | MetaHeadersFrame h _ fields _ =>
      close ← operateHeaders h fields;
      when close (_ ← Close; mret tt)
  | DataFrame _ _ => handleData f
  | RSTStreamFrame h _ => handleRSTStream (StreamID h)
  | SettingsFrame h p => handleSettings h p
  | PingFrame h data => handlePing h data
  | WindowUpdateFrame h incr => handleWindowUpdate (StreamID h) incr
  | _ => mret tt
  end.

(** A round of the loop of [HandleStreams]; [None] ends it. *)
Definition reader_round (_ : unit) : step (option unit) :=
  frame ← framer_read;
  _ ← writes (set_activity true);
  match frame with
  | Ok f => _ ← handle_frame f; mret (Some tt)
  | Err (http2.StreamError id code _) =>
      s ← getStream id;
      _ ← match s with Some p => closeStream p | None => mret tt end;
      _ ← put (resetStream id code);
      mret (Some tt)
  | _ => _ ← Close; mret None
  end.

(** Before the loop: the preface of the client and its first settings. *)
Definition read_preface : step bool :=
  act (fun _ w =>
    let '(x, rd) := ReadFull (r (fr_read (fr w))) (slen clientPreface) in
    let w := set_fr (with_r (fr w) rd) w in
    Goes [(match x with Ok b => bool_decide (b = clientPreface) | _ => false end, w)]).

Definition HandleStreams : step (option unit) :=
  ok ← read_preface;
  if negb (ok : bool) then _ ← Close; mret None else
  frame ← framer_read;
  match frame with
  | Ok f =>
      _ ← writes (set_activity true);
      match f with
      | SettingsFrame h p => _ ← handleSettings h p; mret (Some tt)
      | _ => _ ← Close; mret None
      end
  | _ => _ ← Close; mret None
  end.

(** ** The controller *)

(** [int(s.Val - t.streamSendQuota)] for every stream.  The unlocking is deferred: the mutex is held
    until the function returns. *)
Fixpoint apply_settings (ss : list Setting) (locked : bool) : step unit :=
  match ss with
  | [] => when locked unlock_mu
  | s :: ss =>
      if Setting_ID s =? SettingInitialWindowSize then
        _ ← lock_mu;
        active ← reads (fun w => (map_to_list (default ∅ (activeStreams w))).*2);
        active ← choose (orders active);
        quota ← reads streamSendQuota;
        _ ← each (fun p => stream_add p (uint32 (Setting_Val s - quota))) active;
        _ ← writes (set_streamSendQuota (Setting_Val s));
        apply_settings ss true
      else apply_settings ss locked
  end.
Definition applySettings (ss : list Setting) : step unit := apply_settings ss false.

Definition goAway_section (_ : nat) (w : server W) : result (option Z * server W) :=
  if bool_decide (state w = closing) then Goes [(None, w)]
  else Goes [(Some (maxStreamID w), set_state draining w)].

(** The [switch] on the type of the item; [false] if the goroutine ends. *)
Definition control (i : item) : step bool :=
  match i with
  | windowUpdate id incr => _ ← framer_write true (CWindowUpdate id incr); mret true
  | settings true ss => _ ← framer_write true CSettingsAck; _ ← applySettings ss; mret true
  | settings false ss => _ ← framer_write true (CSettings ss); mret true
  | resetStream id code => _ ← framer_write true (CRSTStream id code); mret true
  | goAway code debugData =>
      sid ← section goAway_section;
      match sid with
      | None => mret false
      | Some sid =>
          _ ← framer_write true (CGoAway sid code debugData);
          _ ← when (code =? http2.ErrCodeEnhanceYourCalm) (_ ← Close; mret tt);
          mret true
      end
  | flushIO => _ ← framer_flush; mret true
  | ping ack data => _ ← framer_write true (CPing ack data); mret true
  end.

(** The two [select]s: an item, and the right to write. *)
Definition next_item : step (option item) :=
  act (fun _ w =>
    Goes (match recvBuffer_receive (controlBuf w) with
          | Some (i, b) => [(Some i, set_controlBuf (recvBuffer_load b) w)]
          | None => []
          end ++ (if shutdownChan w then [(None, w)] else []))).
Definition next_turn : step bool :=
  act (fun tid w => Goes (((fun '(_, w) => (true, w)) <$> take_writable tid w) ++
                          (if shutdownChan w then [(false, w)] else []))).

Definition controller (_ : unit) : step (option unit) :=
  i ← next_item;
  match i with
  | None => mret None
  | Some i =>
      turn ← next_turn;
      if negb turn then mret None else
      continues ← control i;
      if (continues : bool) then _ ← send_writable; mret (Some tt) else mret None
  end.

(** ** [keepalive] *)

(** A timer: when it fires; [None] if it did and its channel was drained. *)
Definition timer : Type := option Z.
Definition reset_timer (now d : Z) : timer := Some (Z.min (now + d) max_int64).
Definition fired (t : timer) (now : Z) : bool := match t with Some d => d <=? now | None => false end.

Record timers : Type := mkTimers {
  maxIdle : timer;
  maxAge : timer;
  keepalive_timer : timer;
  pingSent : bool;
  grace : bool;  (* waiting for the end of the grace period *)
}.

Inductive wakeup : Type := MaxIdle | MaxAge | Keepalive | Shutdown.

(** The cases of the [select]s. *)
Definition wakeups (k : timers) (w : server W) : list wakeup :=
  (if negb (grace k) && fired (maxIdle k) (now w) then [MaxIdle] else []) ++
  (if fired (maxAge k) (now w) then [MaxAge] else []) ++
  (if negb (grace k) && fired (keepalive_timer k) (now w) then [Keepalive] else []) ++
  (if shutdownChan w then [Shutdown] else []).

(** [Reset]: the clock is read once more. *)
Definition reset (d : Z) : step timer := t ← reads now; mret (reset_timer t d).

(** The deferred cleaning up: a timer that was drained and not reset blocks. *)
Definition stop_timers (k : timers) : step (option timers) :=
  act (fun _ w => match maxIdle k, maxAge k, keepalive_timer k with
                  | Some _, Some _, Some _ => Goes [(None, w)]
                  | _, _, _ => Goes []
                  end).

(** Under [t.mu]: how much longer the connection may be idle, when it is; [None] if it is to be drained. *)
Definition idle_section (_ : nat) (w : server W) : result (option Z * server W) :=
  match idle w with
  | None => Goes [(Some (MaxConnectionIdle (kp cf)), w)]
  | Some t =>
      let val := int64 (MaxConnectionIdle (kp cf) - (now w - t)) in
      if val <=? 0 then Goes [(None, set_state draining w)] else Goes [(Some val, w)]
  end.

Definition keepalive (k : timers) : step (option timers) :=
  case ← act (fun _ w => Goes ((fun c => (c, w)) <$> wakeups k w));
  match case with
  | MaxIdle =>
      val ← section idle_section;
      match val with
      | Some val =>
          t ← reset val;
          mret (Some (mkTimers t (maxAge k) (keepalive_timer k) (pingSent k) false))
      | None =>
          _ ← Drain;
          t ← reset infinity;
          stop_timers (mkTimers t (maxAge k) (keepalive_timer k) (pingSent k) false)
      end
  | MaxAge =>
      if grace k then
        _ ← Close;
        t ← reset infinity;
        stop_timers (mkTimers (maxIdle k) t (keepalive_timer k) (pingSent k) false)
      else
        _ ← section (fun _ w => Goes [(tt, set_state draining w)]);
        _ ← Drain;
        t ← reset (MaxConnectionAgeGrace (kp cf));
        mret (Some (mkTimers (maxIdle k) t (keepalive_timer k) (pingSent k) true))
  | Keepalive =>
      active ← act (fun _ w => Goes [(activity w, set_activity false w)]);
      if (active : bool) then
        t ← reset (Time (kp cf));
        mret (Some (mkTimers (maxIdle k) (maxAge k) t false false))
      else if pingSent k then
        _ ← Close;
        t ← reset infinity;
        stop_timers (mkTimers (maxIdle k) (maxAge k) t true false)
      else
        _ ← put (ping false (replicate 8 x00));
        t ← reset (Timeout (kp cf));
        mret (Some (mkTimers (maxIdle k) (maxAge k) t true false))
  | Shutdown => stop_timers k
  end.

(** The goroutine: the timers, then the loop. *)
Definition start_keepalive : step (option timers) :=
  t ← reset (MaxConnectionIdle (kp cf));
  u ← reset (MaxConnectionAge (kp cf));
  v ← reset (Time (kp cf));
  mret (Some (mkTimers t u v false false)).

(** ** All goroutines *)

(** What a handler may call on its stream, and the server on its transport. *)
Inductive operation : Type :=
| OpWriteHeader (md : MD)
| OpWrite (data : list byte) (last : bool)
| OpWriteStatus (st : Status)
| OpRead (choice n : nat)
| OpSetHeader (md : MD)
| OpSetTrailer (md : MD)
| OpSetSendCompress (str : list byte).

(** What a method that writes returned is noted. *)
Definition report (err : option go_error) : step unit :=
  act (fun tid w => Goes [(tt, set_notes (note_outcome tid err (notes w)) w)]).

Definition run_operation (p : nat) (o : operation) : step unit :=
  match o with
  | OpWriteHeader md => err ← WriteHeader p md; report err
  | OpWrite data last => err ← Write p data last; report err
  | OpWriteStatus st => err ← WriteStatus p st; report err
  | OpRead choice n => _ ← Stream_Read p choice n; mret tt
  | OpSetHeader md => _ ← SetHeader p md; mret tt
  | OpSetTrailer md => _ ← SetTrailer p md; mret tt
  | OpSetSendCompress str => SetSendCompress p str
  end.

(** The code of a status is a [uint32]. *)
Definition operation_typed (o : operation) : Prop :=
  match o with OpWriteStatus st => 0 <= Status_Code st < 2 ^ 32 | _ => True end.

(** The goroutines that the program starts: handlers, which call one method after the other on a stream that
    was handed over, and those that stop the transport. *)
Inductive client : server W -> thread (server W) -> Prop :=
| client_stream w p os : p ∈ handled w -> Forall operation_typed os -> client w (once (each (run_operation p) os))
| client_Close w : client w (once (_ ← Close; mret tt))
| client_Drain w : client w (once Drain).

(** The clock goes on, and the deadlines of the contexts pass. *)
Inductive environment : server W -> server W -> Prop :=
| env_clock w d : 0 <= d -> now w + d < max_int64 -> environment w (set_now (now w + d) w)
| env_deadline w p s d :
    streams w !! p = Some s -> s_deadline s = Some d -> d <= now w ->
    environment w (set_streams (<[p := set_done ErrDeadlineExceeded s]> (streams w)) w).

Definition goroutines : list (thread (server W)) :=
  [Thread reader_round HandleStreams; Thread controller (mret (Some tt)); Thread keepalive start_keepalive].

Definition serves : server W * list (thread (server W)) -> server W * list (thread (server W)) -> Prop :=
  pool_step environment client.
End loops.

(** ** [newHTTP2Server] *)

Record ServerConfig : Type := mkServerConfig {
  MaxStreams : Z;
  KeepaliveParams : ServerParameters;
  KeepalivePolicy : EnforcementPolicy;
  InTapHandle : option (list byte -> bool);
}.

(** [Int63n] of the generator panics if its argument is not positive. *)
Definition getJitter {E} (Int63n : Z -> Z) (v : Z) : res E Z :=
  if v =? infinity then Ok 0 else
  let r := Z.quot v 10 in
  let n := int64 (2 * r) in
  if n <=? 0 then Panic else Ok (int64 (Int63n n - r)).

Definition or_default (v d : Z) : Z := if v =? 0 then d else v.

(** The constants of the transport. *)
Definition configure {E} (Int63n : Z -> Z) (config : ServerConfig) : res E setup :=
  let kp := KeepaliveParams config in
  let age := or_default (MaxConnectionAge kp) defaultMaxConnectionAge in
  jitter ← getJitter Int63n age;
  Ok (mkSetup (or_default (MaxStreams config) (2 ^ 32 - 1))
        (mkServerParameters (or_default (MaxConnectionIdle kp) defaultMaxConnectionIdle)
           (int64 (age + jitter))
           (or_default (MaxConnectionAgeGrace kp) defaultMaxConnectionAgeGrace)
           (or_default (Time kp) defaultServerKeepaliveTime)
           (or_default (Timeout kp) defaultServerKeepaliveTimeout))
        (mkEnforcementPolicy (or_default (MinTime (KeepalivePolicy config)) defaultKeepalivePolicyMinTime)
           (PermitWithoutStream (KeepalivePolicy config)))
        (InTapHandle config)).

Section new.
Context {W : Type} `{Connection W}.

Definition connectionErrorf (e : http2.error) : go_error := ConnectionError ("transport: " +:+ http2.Error e) true.

(** The frames that open the connection. *)
Definition opening_settings (config : ServerConfig) : list Setting :=
  (if MaxStreams config =? 0 then [] else [mkSetting SettingMaxConcurrentStreams (MaxStreams config)]) ++
  (if negb (initialWindowSize =? defaultWindowSize)
   then [mkSetting SettingInitialWindowSize (uint32 initialWindowSize)] else []).
Definition opening (config : ServerConfig) : list (bool * call) :=
  let delta := uint32 (initialConnWindowSize - defaultWindowSize) in
  (true, CSettings (opening_settings config)) ::
  (if 0 <? delta then [(true, CWindowUpdate 0 delta)] else []).

(** The transport of a framer that has written these frames. *)
Definition new_server (f : framer W) (hEnc : Encoder) (start : Z) (wire : list call) : server W :=
  {| maxStreamID := 0; writableChan := None; shutdownChan := false; fr := f; hEnc := hEnc;
     controlBuf := newRecvBuffer; fc := mkInFlow initialConnWindowSize 0 0;
     sendQuotaPool := newQuotaPool defaultWindowSize; activity := false; lastPingAt := None; pingStrikes := 0;
     resetPingStrikes := false; mu := None; state := reachable; activeStreams := Some ∅;
     streamSendQuota := defaultWindowSize; idle := Some start; streams := []; now := start; handled := [];
     notes := mkAux wire 0 0 defaultWindowSize ∅ None ∅ ∅ |}.

(** The transport when [newHTTP2Server] returns; [f] is [newFramer(conn)].  The goroutines that it
    starts are in [goroutines]. *)
Definition newHTTP2Server (Int63n : Z -> Z) (f : framer W) (start : Z) (config : ServerConfig)
  : res go_error (setup * server W) :=
  match write_calls (opening config) f with
  | (Some err, _) => Err (connectionErrorf err)
  | (None, f) =>
      cf ← configure Int63n config;
      match NewEncoder (E:=hpack_error) with
      | Ok hEnc => Ok (cf, new_server f hEnc start ((opening config).*2))
      | _ => Panic
      end
  end.
End new.
