(* ===== verification/ServerInv.v ===== *)
(** * The server's HTTP/2 transport: its invariant

    What holds of a transport between any two steps of its goroutines, what a goroutine owns - the right
    to write, a mutex, quota that it has taken - and may rely on while others run, and the rules by which the
    methods are shown to respect both. *)

From stdpp Require Import base list strings gmap sorting relations.
From Stdlib Require Import ZArith Strings.Byte Lia.
From S2P Require Import Prelude GoStrings GrpcStatus GrpcTransport.
From S2P Require Import Hpack HpackTable HpackEncoder HpackDecoder HpackSync H2Errors GrpcHeaders H2Frame H2Framer H2Calls.
From S2P Require Import H2Order H2Parse H2ReadTotal GrpcFramer GrpcFramerProps Threads ServerState ServerTransport.
Open Scope Z_scope.

(** ** Pieces of the invariant *)

(** The quota in the hands of the goroutines, and the quota that the frames [cs] used. *)
Definition held_sum (m : gmap nat Z) : Z := map_fold (fun _ v s => v + s) 0 m.
Definition sent (cs : list call) : Z := foldr (fun c n => quota_used c + n) 0 cs.

(** Where the sequence of frames [cs] stands: the stream whose header block is open, or 0. *)
Definition stands (cs : list call) : option Z := order_run 0 (frame_of <$> cs).

(** What a pool offers is positive. *)
Definition offers (q : quotaPool) : Prop := forall n, quotaPool_c q = Some n -> 0 < n.

(** The errors that the package context knows. *)
Definition context_error (e : go_error) : Prop := e = ErrCanceled \/ e = ErrDeadlineExceeded.

Record stream_ok (s : Stream) : Prop := {
  so_id : 0 < s_id s < 2 ^ 31 /\ s_id s mod 2 = 1;
  so_done : forall e, reader_done (s_dec s) = Some e -> context_error e;
  so_pool : offers (s_sendQuotaPool s);
}.

Section inv.
Context {W : Type} `{Connection W} (cf : setup) (base : list byte).
#[local] Abbreviation server := (server W).

(** Nothing ever closes a connection that is idle or old: the default. *)
Definition default_keepalive : bool := (MaxConnectionIdle (kp cf) =? infinity) && (MaxConnectionAge (kp cf) =? infinity).

(** More header fields than the encoder's counters can count, or one that is larger than 2 GB. *)
Definition too_much (w : server) : Prop := 2 ^ 60 <= encoded (notes w) \/ 2 ^ 31 <= largest (notes w).
Definition exempt (w : server) : Prop := default_keepalive = false \/ too_much w.

(** The bytes of the frames [cs] on the connection, after [base].  A frame that could not be written
    is the last one, and there may be some of it. *)
Definition written (x : W) (cs : list call) : Prop :=
  bw_ok x /\
  if bw_failed x then
    exists c, is_Some (stands (cs ++ [c])) /\ bw_delivered x `prefix_of` base ++ frames_bytes (cs ++ [c])
  else bw_delivered x ++ bw_pending x = base ++ frames_bytes cs.

(** The streams that are active are streams of the transport, by their ids. *)
Definition active_ok (active : gmap Z nat) (ss : list Stream) : Prop :=
  Z.of_nat (base.size active) <= maxStreams cf /\
  forall id p, active !! id = Some p -> exists s, ss !! p = Some s /\ s_id s = id.

(** The peer granted what is in the pool, in the hands of the goroutines, and sent. *)
Definition quota_ok (pool : quotaPool) (a : aux) : Prop :=
  granted a < 2 ^ 62 ->
  exists n, 0 <= n /\ pool = newQuotaPool n /\ n + held_sum (held a) + sent (wire a) <= granted a.

(** The encoder can go on, in step with some decoder. *)
Definition encoder_ok (e : Encoder) (n : Z) : Prop :=
  exists d : Decoder (list HeaderField), in_sync e d /\ emit d = collect /\ maxStrLen d = 0 /\ allowedMaxSize (HpackDecoder.dynTab d) = http2InitHeaderTableSize /\
    added (table (HpackEncoder.dynTab e)) <= n.

Record server_ok (w : server) : Prop := {
  ok_clock : 0 <= now w < max_int64;
  ok_written : written (wr (fr w)) (wire (notes w));
  ok_stands : exists l, stands (wire (notes w)) = Some l /\ (writableChan w = None -> l = 0);
  ok_chunks : Forall (fun c => quota_used c <= http2MaxFrameLen) (wire (notes w));
  ok_goaway : forall id code debug, CGoAway id code debug ∈ wire (notes w) -> state w <> reachable /\ id = maxStreamID w;
  ok_streams : forall p s, streams w !! p = Some s -> stream_ok s;
  ok_ids : StronglySorted Z.lt (s_id <$> streams w);
  ok_max : maxStreamID w = default 0 (last (s_id <$> streams w));
  ok_active : forall active, activeStreams w = Some active -> active_ok active (streams w);
  ok_nil : activeStreams w = None -> state w <> reachable;
  ok_closing : default_keepalive = true -> activeStreams w = None <-> state w = closing;
  ok_closer : default_keepalive = true -> state w = closing <-> is_Some (closer (notes w));
  ok_shutdown : default_keepalive = true -> shutdownChan w = true -> state w = closing;
  ok_handled : forall p, p ∈ handled w -> (p < length (streams w))%nat;
  ok_pool : offers (sendQuotaPool w);
  ok_held : forall tid n, held (notes w) !! tid = Some n -> 0 <= n;
  ok_quota : quota_ok (sendQuotaPool w) (notes w);
  ok_encoder : encoded (notes w) < 2 ^ 60 -> largest (notes w) < 2 ^ 31 -> encoder_ok (hEnc w) (encoded (notes w));
  ok_counts : 0 <= encoded (notes w) /\ 0 <= granted (notes w);
  ok_reader : framer_safe (fr_read (fr w));
}.

(** ** What goroutines rely on *)

(** What every step respects. *)
Record grows (w w' : server) : Prop := {
  g_streams : forall p s, streams w !! p = Some s -> exists s', streams w' !! p = Some s' /\ s_id s' = s_id s;
  g_state : state w <> reachable -> state w' <> reachable /\ maxStreamID w' = maxStreamID w;
  g_shutdown : shutdownChan w = true -> shutdownChan w' = true;
  g_closing : default_keepalive = true -> state w = closing -> state w' = closing;
}.

(** What the steps of others leave to [tid]: what it owns. *)
Record keeps (tid : nat) (w w' : server) : Prop := {
  k_stream : forall p s, streams w !! p = Some s -> s_mu s = Some tid ->
    exists s', streams w' !! p = Some s' /\ s_mu s' = Some tid;
  k_token : writableChan w = Some tid ->
    writableChan w' = Some tid /\ wire (notes w') = wire (notes w) /\ hEnc w' = hEnc w /\
    encoded (notes w') = encoded (notes w) /\ largest (notes w') = largest (notes w);
  k_held : held (notes w') !! tid = held (notes w) !! tid;
  k_mu : mu w = Some tid -> mu w' = Some tid;
  k_closer : default_keepalive = true -> closer (notes w) = Some tid -> shutdownChan w = false ->
    closer (notes w') = Some tid /\ shutdownChan w' = false;
}.

Definition rely (tid : nat) (w w' : server) : Prop := grows w w' /\ keeps tid w w'.

#[export] Instance grows_preorder : PreOrder grows.
Proof.
  split.
  - intros w. split; [by eauto|done|done|done].
  - intros w1 w2 w3 [A1 B1 C1 D1] [A2 B2 C2 D2]. split.
    + intros p s Hs. destruct (A1 p s Hs) as (s2 & Hs2 & Hid). destruct (A2 p s2 Hs2) as (s3 & Hs3 & Hid3).
      exists s3. split; [done|congruence].
    + intros Hst. destruct (B1 Hst) as [Hst2 Hm]. destruct (B2 Hst2) as [Hst3 Hm3]. split; [done|congruence].
    + auto.
    + auto.
Qed.

#[export] Instance rely_preorder tid : PreOrder (rely tid).
Proof.
  split.
  - intros w. split; [done|]. split; eauto.
  - intros w1 w2 w3 [G1 [A1 B1 C1 D1 E1]] [G2 [A2 B2 C2 D2 E2]]. split; [by etransitivity|]. split.
    + intros p s Hs Hmu. destruct (A1 p s Hs Hmu) as (s2 & Hs2 & Hmu2). eauto.
    + intros Ht. destruct (B1 Ht) as (Ht2 & ? & ? & ? & ?). destruct (B2 Ht2) as (Ht3 & ? & ? & ? & ?).
      repeat split; congruence.
    + congruence.
    + auto.
    + intros Hd Hc Hs. destruct (E1 Hd Hc Hs). auto.
Qed.

#[local] Abbreviation wp := (Threads.wp server_ok rely exempt).
#[local] Abbreviation guarantee := (Threads.guarantee rely).

(** Every step that respects its guarantee lets the transport grow. *)
Lemma guarantee_grows tid w w' : guarantee tid w w' -> grows w w'.
Proof. intros Hg. apply (Hg (S tid)). lia. Qed.

(** ** What a goroutine owns *)

Record own : Type := mkOwn {
  o_token : option Z;   (* the right to write, in a sequence of frames that stands there *)
  o_held : Z;           (* that much quota of the connection *)
  o_mu : bool;          (* t.mu *)
  o_smu : option nat;   (* the mutex of that stream *)
}.

Definition nothing : own := mkOwn None 0 false None.

Record owns (tid : nat) (o : own) (w : server) : Prop := {
  own_token : forall l, o_token o = Some l -> writableChan w = Some tid /\ stands (wire (notes w)) = Some l;
  own_held : o_held o <= default 0 (held (notes w) !! tid);
  own_mu : o_mu o = true -> mu w = Some tid;
  own_smu : forall p, o_smu o = Some p -> exists s, streams w !! p = Some s /\ s_mu s = Some tid;
}.

Lemma owns_stable tid o w w' : rely tid w w' -> owns tid o w -> owns tid o w'.
Proof.
  intros [_ [A B C D _]] [Ht Hh Hm Hs]. split.
  - intros l Hl. destruct (Ht l Hl) as [H1 H2]. destruct (B H1) as (-> & -> & _). done.
  - by rewrite C.
  - auto.
  - intros p Hp. destruct (Hs p Hp) as (s & H1 & H2). eauto.
Qed.

(** Facts that stay. *)
Class Persistent (P : server -> Prop) : Prop := persistent w w' : grows w w' -> P w -> P w'.

Definition is_stream (p : nat) (w : server) : Prop := (p < length (streams w))%nat.
Definition stream_id (p : nat) (id : Z) (w : server) : Prop := exists s, streams w !! p = Some s /\ s_id s = id.
Definition frozen (id : Z) (w : server) : Prop := state w <> reachable /\ maxStreamID w = id.
Definition shut (w : server) : Prop := shutdownChan w = true.

Lemma is_stream_lookup p w : is_stream p w <-> is_Some (streams w !! p).
Proof. unfold is_stream. by rewrite lookup_lt_is_Some. Qed.

#[export] Instance is_stream_persistent p : Persistent (is_stream p).
Proof. intros w w' [A _ _ _] [s Hs]%is_stream_lookup. apply is_stream_lookup. destruct (A p s Hs) as (s' & Hs' & _). eauto. Qed.
#[export] Instance stream_id_persistent p id : Persistent (stream_id p id).
Proof. intros w w' [A _ _ _] (s & Hs & <-). destruct (A p s Hs) as (s' & Hs' & Hid). by exists s'. Qed.
#[export] Instance frozen_persistent id : Persistent (frozen id).
Proof. intros w w' [_ B _ _] [Hst <-]. by apply B. Qed.
#[export] Instance shut_persistent : Persistent shut.
Proof. intros w w' [_ _ C _] Hw. by apply C. Qed.
#[export] Instance pure_persistent (P : Prop) : Persistent (fun _ => P).
Proof. by intros w w' _. Qed.
#[export] Instance and_persistent P Q : Persistent P -> Persistent Q -> Persistent (fun w => P w /\ Q w).
Proof. intros HP HQ w w' Hg [? ?]. split; [by eapply HP|by eapply HQ]. Qed.
#[export] Instance forall_persistent {A} (P : A -> server -> Prop) :
  (forall x, Persistent (P x)) -> Persistent (fun w => forall x, P x w).
Proof. intros HP w w' Hg Hw x. by eapply HP. Qed.
#[export] Instance Forall_persistent {A} (P : A -> server -> Prop) l :
  (forall x, Persistent (P x)) -> Persistent (fun w => Forall (fun x => P x w) l).
Proof. intros HP w w' Hg Hw. eapply Forall_impl; [done|]. intros x. by apply HP. Qed.
#[export] Instance impl_persistent (A : Prop) P : Persistent P -> Persistent (fun w => A -> P w).
Proof. intros HP w w' Hg Hw Ha. eapply HP; [done|auto]. Qed.

(** ** Specifications

    From what it owns and what it knows, [tid] runs [p] to what it owns and knows then. *)
Definition spec {A} (tid : nat) (o : own) (P : server -> Prop) (p : prog server A)
  (o' : A -> own) (E : A -> server -> Prop) : Prop :=
  forall w, server_ok w -> owns tid o w -> P w -> wp tid p (fun a w => owns tid (o' a) w /\ E a w) w.

Lemma wp_keep {A} tid (p : prog server A) Q P w :
  Persistent P -> P w -> wp tid p Q w -> wp tid p (fun a w => Q a w /\ P w) w.
Proof.
  intros HP. revert w. induction p as [a|B f k IH]; simpl; intros w Hw Hp w' Hr Hi; specialize (Hp w' Hr Hi).
  - split; [done|]. eapply HP; [apply Hr|done].
  - destruct (f tid w'); [done..|]. intros b w2 Hin. destruct (Hp b w2 Hin) as (? & Hg & ?).
    split; [done|]. split; [done|]. apply IH; [|done].
    eapply HP; [eapply guarantee_grows, Hg|]. eapply HP; [apply Hr|done].
Qed.

Lemma spec_bind {A B} tid o P (p : prog server A) o1 E1 (k : A -> prog server B) o2 E2 :
  Persistent P -> spec tid o P p o1 E1 ->
  (forall a, spec tid (o1 a) (fun w => P w /\ E1 a w) (k a) o2 E2) ->
  spec tid o P (p ≫= k) o2 E2.
Proof.
  intros HP Hp Hk w Hi Ho Hw. apply wp_seq. { apply _. }
  eapply wp_conseq; [|eapply wp_keep; [exact HP|exact Hw|apply Hp; done]].
  intros a w' Hi' [[Ho' HE] HP']. by apply Hk.
Qed.

Lemma spec_ret {A} tid o P (a : A) E :
  Persistent P -> (forall w, server_ok w -> P w -> E a w) -> spec tid o P (mret a) (fun _ => o) E.
Proof.
  intros HP HE w Hi Ho Hw w' Hr Hi'. split; [by eapply owns_stable|]. apply HE; [done|]. eapply HP; [apply Hr|done].
Qed.

Lemma spec_weaken {A} tid o o' P P' (p : prog server A) q q' E E' :
  spec tid o' P' p q' E' ->
  (forall w, server_ok w -> owns tid o w -> P w -> owns tid o' w /\ P' w) ->
  (forall a w, server_ok w -> owns tid (q' a) w -> E' a w -> owns tid (q a) w /\ E a w) ->
  spec tid o P p q E.
Proof.
  intros Hs Hpre Hpost w Hi Ho Hw. destruct (Hpre w Hi Ho Hw) as [Ho' Hw'].
  eapply wp_conseq; [|by apply Hs]. intros a w' Hi' [? ?]. by apply Hpost.
Qed.

Lemma spec_pre {A} tid o P P' (p : prog server A) q E :
  spec tid o P' p q E -> (forall w, server_ok w -> P w -> P' w) -> spec tid o P p q E.
Proof. intros Hs HP w Hi Ho Hw. apply Hs; auto. Qed.

Lemma spec_post {A} tid o P (p : prog server A) q q' E E' :
  spec tid o P p q' E' -> (forall a w, server_ok w -> owns tid (q' a) w /\ E' a w -> owns tid (q a) w /\ E a w) ->
  spec tid o P p q E.
Proof. intros Hs HP w Hi Ho Hw. eapply wp_conseq; [|by apply Hs]. auto. Qed.

(** What is known of values alone. *)
Lemma spec_fact {A} (F : Prop) tid o P (p : prog server A) q E :
  (forall w, P w -> F) -> (F -> spec tid o P p q E) -> spec tid o P p q E.
Proof. intros HF Hs w Hi Ho Hw. apply Hs; eauto. Qed.

(** A single step. *)
Lemma spec_act {A} tid o P (f : nat -> server -> result (A * server)) o' E :
  Persistent P -> (forall a, Persistent (E a)) ->
  (forall w, server_ok w -> owns tid o w -> P w ->
     match f tid w with
     | Goes l => forall a w', (a, w') ∈ l -> server_ok w' /\ guarantee tid w w' /\ owns tid (o' a) w' /\ E a w'
     | Crashes | Diverges => exempt w
     end) ->
  spec tid o P (act f) o' E.
Proof.
  intros HP HE Hf w Hi Ho Hw w1 Hr Hi1.
  assert (owns tid o w1) as Ho1 by (by eapply owns_stable). assert (P w1) as Hw1 by (eapply HP; [apply Hr|done]).
  specialize (Hf w1 Hi1 Ho1 Hw1). destruct (f tid w1) as [| |l]; [done..|].
  intros a w2 Hin. destruct (Hf a w2 Hin) as (? & ? & ? & ?). split; [done|]. split; [done|].
  intros w3 Hr3 Hi3. split; [by eapply owns_stable|]. eapply HE; [apply Hr3|done].
Qed.

Lemma spec_when tid o P (b : bool) p E :
  Persistent P -> (b = true -> spec tid o P p (fun _ => o) E) ->
  (b = false -> forall w, server_ok w -> P w -> E tt w) -> spec tid o P (when b p) (fun _ => o) E.
Proof. intros HP Ht Hf. destruct b; [by apply Ht|]. by apply spec_ret; auto. Qed.

(** A loop whose rounds leave everything as it was. *)
Lemma spec_each {A} tid o P (f : A -> prog server unit) l :
  Persistent P -> (forall x, x ∈ l -> spec tid o P (f x) (fun _ => o) (fun _ _ => True)) ->
  spec tid o P (each f l) (fun _ => o) (fun _ _ => True).
Proof.
  intros HP Hf. induction l as [|x l IH]; cbn [each]; [by apply spec_ret|].
  eapply spec_bind; [done|apply Hf; by left|]. intros []. eapply spec_pre; [apply IH|by intros w _ [? _]].
  intros y Hy. apply Hf. by right.
Qed.

(** ** Steps that touch nothing of this *)

Definition relevant (w : server) :=
  (maxStreamID w, writableChan w, shutdownChan w, wr (fr w), fr_read (fr w), hEnc w, sendQuotaPool w, mu w, state w,
   activeStreams w, streams w, now w, handled w, notes w).

Ltac same_relevant Heq :=
  unfold relevant in Heq;
  match type of Heq with (_, _) = (_, _) => injection Heq; clear Heq; intros end.

Lemma relevant_ok w w' : relevant w = relevant w' -> server_ok w -> server_ok w'.
Proof.
  intros Heq [????????????????????]. same_relevant Heq.
  split; repeat match goal with E : _ = ?x w' |- _ => rewrite <- E end; try done.
  all: match goal with E : wr _ = wr _ |- _ => rewrite <- E | E : fr_read _ = fr_read _ |- _ => rewrite <- E end; done.
Qed.

Lemma relevant_rely tid w w' : relevant w = relevant w' -> rely tid w w'.
Proof.
  intros Heq. same_relevant Heq.
  split; split; repeat match goal with E : _ = ?x w' |- _ => rewrite <- E end; eauto 10.
Qed.

Lemma relevant_step tid o w w' :
  relevant w = relevant w' -> server_ok w -> owns tid o w ->
  server_ok w' /\ guarantee tid w w' /\ owns tid o w'.
Proof.
  intros Heq Hi Ho. split; [by eapply relevant_ok|]. split; [intros ? _; by apply relevant_rely|].
  eapply owns_stable; [|done]. by apply relevant_rely.
Qed.

(** A step like that, whatever it returns. *)
Lemma spec_quiet {A} tid o P (f : nat -> server -> result (A * server)) (E : A -> server -> Prop) :
  Persistent P -> (forall a, Persistent (E a)) ->
  (forall w, server_ok w -> P w ->
     exists l, f tid w = Goes l /\ forall a w', (a, w') ∈ l -> relevant w = relevant w' /\ E a w') ->
  spec tid o P (act f) (fun _ => o) E.
Proof.
  intros HP HE Hf. apply spec_act; [done|done|]. intros w Hi Ho Hw. destruct (Hf w Hi Hw) as (l & -> & Hl).
  intros a w' Hin. destruct (Hl a w' Hin) as [Heq HEa]. destruct (relevant_step tid o w w' Heq Hi Ho) as (? & ? & ?). done.
Qed.
End inv.
