(* ===== verification/ServerSteps.v ===== *)
(** * The server's HTTP/2 transport: its steps keep the invariant

    A specification for every step of ServerState.v. *)

From stdpp Require Import base list strings gmap sorting relations.
From Stdlib Require Import ZArith Strings.Byte Lia.
From S2P Require Import Prelude GoStrings GrpcStatus GrpcTransport.
From S2P Require Import Hpack HpackTable HpackEncoder HpackDecoder HpackSync H2Errors GrpcHeaders H2Frame H2Framer H2Calls.
From S2P Require Import H2Order H2Parse H2ReadTotal GrpcFramer GrpcFramerProps Threads ServerState ServerTransport ServerInv.
Open Scope Z_scope.

(** ** Quota *)

Lemma held_sum_insert m i v : held_sum (<[i := v]> m) = held_sum m - default 0 (m !! i) + v.
Proof.
  unfold held_sum. destruct (m !! i) as [x|] eqn:Hi; simpl.
  - rewrite <- (insert_delete_id m i x) at 2 by done. rewrite <- insert_delete_eq.
    rewrite !map_fold_insert_L by (try (intros; lia); apply lookup_delete_eq). lia.
  - rewrite map_fold_insert_L by (try (intros; lia); done). lia.
Qed.

Lemma held_sum_nonneg m : (forall i n, m !! i = Some n -> 0 <= n) -> 0 <= held_sum m.
Proof.
  unfold held_sum. induction m as [|i x m Hi IH] using map_ind; intros Hm; [by rewrite map_fold_empty|].
  rewrite map_fold_insert_L by (try (intros; lia); done).
  assert (0 <= x) by (apply (Hm i); by rewrite lookup_insert_eq). enough (0 <= map_fold (fun _ v s => v + s) 0 m) by lia.
  apply IH. intros j n Hj. apply (Hm j). rewrite lookup_insert_ne; [done|]. intros ->. by rewrite Hi in Hj.
Qed.

Lemma sent_app cs1 cs2 : sent (cs1 ++ cs2) = sent cs1 + sent cs2.
Proof. induction cs1 as [|c cs IH]; [done|]. cbn [app sent foldr] in *. unfold sent in *. lia. Qed.

Lemma quota_used_nonneg c : 0 <= quota_used c.
Proof. destruct c; try done. apply slen_nonneg. Qed.

Lemma sent_nonneg cs : 0 <= sent cs.
Proof. induction cs as [|c cs IH]; [done|]. cbn [sent foldr]. pose proof (quota_used_nonneg c). unfold sent in IH. lia. Qed.

Lemma add_offers q v : offers (quotaPool_add q v).
Proof. intros n. unfold quotaPool_add. zcases; simpl; [done|]. intros [= <-]. lia. Qed.

Lemma new_offers n : offers (newQuotaPool n).
Proof. intros m. unfold newQuotaPool. zcases; simpl; [|done]. intros [= <-]. lia. Qed.

Lemma acquire_offers q n q' : quotaPool_acquire q = Some (n, q') -> offers q -> 0 < n /\ offers q'.
Proof.
  unfold quotaPool_acquire. destruct (quotaPool_c q) as [m|] eqn:Hm; [|done]. intros [= <- <-] Ho.
  split; [by apply Ho|by intros].
Qed.

Lemma add_new n v : 0 <= n -> 0 <= n + v < 2 ^ 63 -> - 2 ^ 62 < v < 2 ^ 63 -> n < 2 ^ 63 ->
  quotaPool_add (newQuotaPool n) v = newQuotaPool (n + v).
Proof.
  intros Hn Hs Hv Hn2. unfold quotaPool_add, newQuotaPool. destruct (Z.ltb_spec 0 n); simpl.
  - rewrite (int64_small (0 + n)) by lia. rewrite int64_small by lia. zcases; try lia; f_equal; lia.
  - assert (n = 0) as -> by lia. rewrite int64_small by lia. zcases; try lia; f_equal; lia.
Qed.

Lemma acquire_new n m q : 0 <= n -> quotaPool_acquire (newQuotaPool n) = Some (m, q) -> m = n /\ q = newQuotaPool 0.
Proof. intros Hn. unfold newQuotaPool at 1. destruct (Z.ltb_spec 0 n); [|done]. by intros [= <- <-]. Qed.

(** ** Streams *)

Lemma insert_ids (ss : list Stream) p s s' :
  ss !! p = Some s -> s_id s' = s_id s -> s_id <$> <[p := s']> ss = s_id <$> ss.
Proof. intros Hs Hid. rewrite list_fmap_insert, Hid. apply list_insert_id. by rewrite list_lookup_fmap, Hs. Qed.

Lemma done_stream_ok s e : stream_ok s -> context_error e -> stream_ok (set_done e s).
Proof.
  intros [Hid Hd Hp] He. unfold set_done. destruct (reader_done (s_dec s)) eqn:Hr; [by split; rewrite ?Hr|].
  split; [done| |done]. simpl. by intros ? [= <-].
Qed.

Lemma done_same s e : s_id (set_done e s) = s_id s /\ s_mu (set_done e s) = s_mu s.
Proof. unfold set_done. by destruct (reader_done (s_dec s)). Qed.

Section steps.
Context {W : Type} `{Connection W} (cf : setup) (base : list byte).
#[local] Abbreviation server := (server W).
#[local] Abbreviation server_ok := (server_ok cf base).
#[local] Abbreviation spec := (spec cf base).
#[local] Abbreviation guarantee := (Threads.guarantee (rely cf)).
#[local] Abbreviation exempt := (exempt cf).
#[local] Abbreviation Persistent := (ServerInv.Persistent cf).

Lemma set_stream_ok (w : server) p s s' :
  server_ok w -> streams w !! p = Some s -> s_id s' = s_id s -> stream_ok s' ->
  server_ok (set_streams (<[p := s']> (streams w)) w).
Proof.
  intros [] Hs Hid Hok. split; try done; cbn [streams set_streams maxStreamID activeStreams handled].
  - intros q s2. destruct (decide (p = q)) as [<-|Hne].
    + rewrite list_lookup_insert_eq by (by eapply lookup_lt_Some). by intros [= <-].
    + rewrite list_lookup_insert_ne by done. by apply ok_streams.
  - by erewrite insert_ids.
  - by erewrite insert_ids.
  - intros active Ha. destruct (ok_active active Ha) as [Hsz Hact]. split; [done|]. intros id q Hq.
    destruct (Hact id q Hq) as (s2 & Hs2 & <-). destruct (decide (p = q)) as [<-|Hne].
    + rewrite list_lookup_insert_eq by (by eapply lookup_lt_Some). exists s'. split; [done|congruence].
    + rewrite list_lookup_insert_ne by done. by exists s2.
  - intros q Hq. rewrite length_insert. by apply ok_handled.
Qed.

Lemma set_stream_rely tid (w : server) p s s' :
  streams w !! p = Some s -> s_id s' = s_id s -> (s_mu s = Some tid -> s_mu s' = Some tid) ->
  rely cf tid w (set_streams (<[p := s']> (streams w)) w).
Proof.
  intros Hs Hid Hmu. assert (p < length (streams w))%nat by (by eapply lookup_lt_Some).
  split; split; try done; cbn [streams set_streams].
  - intros q s2 Hs2. destruct (decide (p = q)) as [<-|Hne].
    + rewrite list_lookup_insert_eq by done. exists s'. split; [done|congruence].
    + rewrite list_lookup_insert_ne by done. by exists s2.
  - intros q s2 Hs2 Hm. destruct (decide (p = q)) as [<-|Hne].
    + rewrite list_lookup_insert_eq by done. exists s'. split; [done|]. apply Hmu. congruence.
    + rewrite list_lookup_insert_ne by done. by exists s2.
Qed.

(** A step on a stream that leaves the mutex alone. *)
Definition stream_step {A} (tid : nat) (f : nat -> Stream -> result (A * Stream)) (E : A -> Prop) : Prop :=
  forall s, stream_ok s ->
    exists l, f tid s = Goes l /\
      forall a s', (a, s') ∈ l -> s_id s' = s_id s /\ stream_ok s' /\ s_mu s' = s_mu s /\ E a.

Lemma spec_on_stream {A} tid o P p (f : nat -> Stream -> result (A * Stream)) E :
  Persistent P -> (forall w, P w -> is_stream p w) -> stream_step tid f E ->
  spec tid o P (on_stream p f) (fun _ => o) (fun a _ => E a).
Proof.
  intros HP Hv Hf. apply spec_act; [done|intros; apply _|]. intros w Hi Ho Hw.
  apply Hv, is_stream_lookup in Hw as [s Hs]. rewrite Hs. destruct (Hf s (ok_streams _ _ _ Hi p s Hs)) as (l & -> & Hl).
  intros a w' Hin. apply list_elem_of_fmap in Hin as ([a' s'] & [= -> ->] & Hin).
  destruct (Hl a' s' Hin) as (Hid & Hok & Hmu & HE). split; [by eapply set_stream_ok|].
  assert (forall t, rely cf t w (set_streams (<[p := s']> (streams w)) w)) as Hr.
  { intros t. eapply set_stream_rely; [done|done|congruence]. }
  split; [intros t _; apply Hr|]. split; [eapply owns_stable; [apply Hr|exact Ho]|done].
Qed.

Lemma spec_stream_set tid o P p g :
  Persistent P -> (forall w, P w -> is_stream p w) ->
  (forall s, stream_ok s -> s_id (g s) = s_id s /\ stream_ok (g s) /\ s_mu (g s) = s_mu s) ->
  spec tid o P (stream_set p g) (fun _ => o) (fun _ _ => True).
Proof.
  intros HP Hv Hg. apply (spec_on_stream tid o P p _ (fun _ => True)); [done|done|]. intros s Hs.
  eexists. split; [done|]. intros a s' [= -> ->]%list_elem_of_singleton. destruct (Hg s Hs) as (? & ? & ?). done.
Qed.

Lemma spec_stream_get {A} tid o P p (g : Stream -> A) (E : A -> Prop) :
  Persistent P -> (forall w, P w -> is_stream p w) -> (forall s, stream_ok s -> E (g s)) ->
  spec tid o P (stream_get p g) (fun _ => o) (fun a _ => E a).
Proof.
  intros HP Hv Hg. apply (spec_on_stream tid o P p _ E); [done|done|]. intros s Hs.
  eexists. split; [done|]. intros a s' [= -> ->]%list_elem_of_singleton. auto.
Qed.

(** The identity of a stream. *)
Lemma spec_stream_id tid o P p :
  Persistent P -> (forall w, P w -> is_stream p w) ->
  spec tid o P (stream_get p s_id) (fun _ => o) (fun id w => stream_id p id w /\ 0 < id < 2 ^ 31).
Proof.
  intros HP Hv. apply spec_act; [done|intros; apply _|]. intros w Hi Ho Hw.
  apply Hv, is_stream_lookup in Hw as [s Hs]. rewrite Hs. intros a w'. cbn [fmap list_fmap].
  intros [= -> ->]%list_elem_of_singleton. pose proof (ok_streams _ _ _ Hi p s Hs) as Hok.
  assert (forall t, rely cf t w (set_streams (<[p := s]> (streams w)) w)) as Hr.
  { intros t. by eapply set_stream_rely. }
  split; [by eapply set_stream_ok|]. split; [intros t _; apply Hr|]. split; [eapply owns_stable; [apply Hr|exact Ho]|].
  split; [|by apply Hok]. exists s. cbn [streams set_streams].
  split; [|done]. rewrite list_lookup_insert_eq; [done|]. by eapply lookup_lt_Some.
Qed.

Lemma spec_stream_section {A} tid o P p (f : Stream -> A * Stream) E :
  Persistent P -> (forall w, P w -> is_stream p w) ->
  (forall s, stream_ok s -> let '(a, s') := f s in s_id s' = s_id s /\ stream_ok s' /\ s_mu s' = s_mu s /\ E a) ->
  spec tid o P (stream_section p f) (fun _ => o) (fun a _ => E a).
Proof.
  intros HP Hv Hf. apply spec_on_stream; [done|done|]. intros s Hs. destruct (s_mu s) eqn:Hmu.
  - exists []. split; [done|]. intros a s' Hin. by apply not_elem_of_nil in Hin.
  - eexists. split; [done|]. intros a s' Hin%list_elem_of_singleton. specialize (Hf s Hs). destruct (f s).
    injection Hin as -> ->. by rewrite Hmu in Hf.
Qed.

Definition with_smu (o : own) (p : option nat) : own := mkOwn (o_token o) (o_held o) (o_mu o) p.

Lemma spec_stream_lock tid o P p :
  Persistent P -> (forall w, P w -> is_stream p w) -> o_smu o = None ->
  spec tid o P (stream_lock p) (fun _ => with_smu o (Some p)) (fun _ _ => True).
Proof.
  intros HP Hv Hno. apply spec_act; [done|intros; apply _|]. intros w Hi Ho Hw.
  apply Hv, is_stream_lookup in Hw as [s Hs]. rewrite Hs. destruct (s_mu s) eqn:Hmu.
  { intros a w' Hin. by apply not_elem_of_nil in Hin. }
  intros a w'. cbn [fmap list_fmap]. intros [= -> ->]%list_elem_of_singleton.
  pose proof (ok_streams _ _ _ Hi p s Hs) as Hok.
  assert (forall t, rely cf t w (set_streams (<[p := set_s_mu (Some tid) s]> (streams w)) w)) as Hr.
  { intros t. eapply set_stream_rely; [done|done|]. by rewrite Hmu. }
  split; [eapply set_stream_ok; [done|done|done|by destruct Hok]|]. split; [intros t _; apply Hr|].
  split; [|done]. destruct (owns_stable cf tid o _ _ (Hr tid) Ho) as [A1 B1 C1 _]. split; [done..|].
  intros q [= <-]. exists (set_s_mu (Some tid) s). split; [|done]. cbn. rewrite list_lookup_insert_eq; [done|].
  by eapply lookup_lt_Some.
Qed.

Lemma spec_stream_unlock tid o P p :
  Persistent P -> o_smu o = Some p ->
  spec tid o P (stream_unlock p) (fun _ => with_smu o None) (fun _ _ => True).
Proof.
  intros HP Hown. apply spec_act; [done|intros; apply _|]. intros w Hi Ho Hw.
  destruct (own_smu _ _ _ Ho p Hown) as (s & Hs & Hmu). rewrite Hs, Hmu.
  intros a w'. cbn [fmap list_fmap]. intros [= -> ->]%list_elem_of_singleton.
  pose proof (ok_streams _ _ _ Hi p s Hs) as Hok.
  assert (forall t, t <> tid -> rely cf t w (set_streams (<[p := set_s_mu None s]> (streams w)) w)) as Hr.
  { intros t Ht. eapply set_stream_rely; [done|done|]. rewrite Hmu. congruence. }
  split; [eapply set_stream_ok; [done|done|done|by destruct Hok]|]. split; [done|].
  split; [|done]. destruct Ho as [A1 B1 C1 _]. by split.
Qed.

(** ** Quiet steps *)

Ltac quiet := intros; eexists; split; [reflexivity|]; intros ? ? [= -> ->]%list_elem_of_singleton; by split.

Lemma spec_put tid o P i : Persistent P -> spec tid o P (put i) (fun _ => o) (fun _ _ => True).
Proof. intros HP. apply spec_quiet; [done|apply _|]. quiet. Qed.

Lemma spec_writes tid o P g :
  Persistent P -> (forall w, relevant w = relevant (g w)) -> spec tid o P (writes g) (fun _ => o) (fun _ _ => True).
Proof.
  intros HP Hg. apply spec_quiet; [done|apply _|]. intros. eexists. split; [done|].
  intros ? ? [= -> ->]%list_elem_of_singleton. by split.
Qed.

Lemma spec_reads {A} tid o P (g : server -> A) (E : A -> Prop) :
  Persistent P -> (forall w, server_ok w -> P w -> E (g w)) -> spec tid o P (reads g) (fun _ => o) (fun a _ => E a).
Proof.
  intros HP HE. apply spec_quiet; [done|apply _|]. intros. eexists. split; [done|].
  intros ? ? [= -> ->]%list_elem_of_singleton. auto.
Qed.

Lemma spec_choose {A} tid o P (l : list A) :
  Persistent P -> spec tid o P (choose l) (fun _ => o) (fun a _ => a ∈ l).
Proof.
  intros HP. apply spec_quiet; [done|apply _|]. intros. eexists. split; [done|].
  intros a w' (b & [= -> ->] & Hb)%list_elem_of_fmap. done.
Qed.

Lemma spec_fc_onData tid o P n : Persistent P -> spec tid o P (fc_onData n) (fun _ => o) (fun _ _ => True).
Proof.
  intros HP. apply spec_quiet; [done|apply _|]. intros w _ _. destruct (onData (fc w) n). quiet.
Qed.

Lemma spec_release tid o P n : Persistent P -> spec tid o P (release n) (fun _ => o) (fun _ _ => True).
Proof.
  intros HP. eapply (spec_bind cf base tid o P _ (fun _ => o) (fun _ _ => True)); [done| |].
  - apply spec_quiet; [done|apply _|]. intros w _ _. destruct (onRead (fc w) n). quiet.
  - intros u. apply spec_when; [apply _|intros _; apply spec_put, _|done].
Qed.

Lemma spec_adjust tid o P i : Persistent P -> spec tid o P (framer_adjust i) (fun _ => o) (fun _ _ => True).
Proof. intros HP. apply spec_quiet; [done|apply _|]. quiet. Qed.

(** A step that reads a flag and changes nothing relevant. *)
Lemma spec_flag {A} tid o P (g : server -> A) h :
  Persistent P -> (forall w, relevant w = relevant (h w)) ->
  spec tid o P (act (fun _ w => Goes [(g w, h w)])) (fun _ => o) (fun _ _ => True).
Proof.
  intros HP Hh. apply spec_quiet; [done|apply _|]. intros. eexists. split; [done|].
  intros ? ? [= -> ->]%list_elem_of_singleton. by split.
Qed.

(** ** [t.mu] *)

Lemma spec_section {A} tid o P (f : nat -> server -> result (A * server)) E :
  Persistent P -> (forall a, Persistent (E a)) ->
  (forall w, server_ok w -> owns tid o w -> P w ->
     match f tid w with
     | Goes l => forall a w', (a, w') ∈ l -> server_ok w' /\ guarantee tid w w' /\ owns tid o w' /\ E a w'
     | Crashes | Diverges => exempt w
     end) ->
  spec tid o P (section f) (fun _ => o) E.
Proof.
  intros HP HE Hf. apply spec_act; [done|done|]. intros w Hi Ho Hw. destruct (mu w); [|by apply Hf].
  intros a w' Hin. by apply not_elem_of_nil in Hin.
Qed.

Definition with_mu (o : own) (b : bool) : own := mkOwn (o_token o) (o_held o) b (o_smu o).

(** Only [mu] changes. *)
Lemma set_mu_ok (w : server) x : server_ok w -> server_ok (set_mu x w).
Proof. intros []. by split. Qed.
Lemma set_mu_rely tid (w : server) x : (mu w = Some tid -> x = Some tid) -> rely cf tid w (set_mu x w).
Proof. intros Hx. split; split; eauto. Qed.

Lemma spec_lock_mu tid o P :
  Persistent P -> spec tid o P lock_mu (fun _ => with_mu o true) (fun _ _ => True).
Proof.
  intros HP. apply spec_act; [done|intros; apply _|]. intros w Hi Ho Hw. destruct (mu w) eqn:Hmu.
  { intros a w' Hin. by apply not_elem_of_nil in Hin. }
  intros a w' [= -> ->]%list_elem_of_singleton. split; [by apply set_mu_ok|].
  split; [intros t _; apply set_mu_rely; by rewrite Hmu|]. split; [|done]. by destruct Ho.
Qed.

Lemma spec_unlock_mu tid o P :
  Persistent P -> o_mu o = true -> spec tid o P unlock_mu (fun _ => with_mu o false) (fun _ _ => True).
Proof.
  intros HP Hown. apply spec_act; [done|intros; apply _|]. intros w Hi Ho Hw.
  pose proof (own_mu _ _ _ Ho Hown) as Hmu. rewrite Hmu.
  intros a w' [= -> ->]%list_elem_of_singleton. split; [by apply set_mu_ok|].
  split; [intros t Ht; apply set_mu_rely; rewrite Hmu; congruence|]. split; [|done]. by destruct Ho.
Qed.

(** ** The right to write *)

Definition with_token (o : own) (t : option Z) : own := mkOwn t (o_held o) (o_mu o) (o_smu o).

Lemma set_writable_ok (w : server) x :
  server_ok w -> (x = None -> stands (wire (notes w)) = Some 0) -> server_ok (set_writableChan x w).
Proof.
  intros [] Hx. split; try done. destruct ok_stands as (l & Hl & _). exists l. split; [done|]. cbn. intros Hnone.
  specialize (Hx Hnone). congruence.
Qed.

Lemma set_writable_rely tid (w : server) x : (writableChan w = Some tid -> x = Some tid) -> rely cf tid w (set_writableChan x w).
Proof. intros Hx. split; split; eauto. cbn. intros Hw. auto. Qed.

Lemma take_writable_spec tid o w a w' :
  server_ok w -> owns tid o w -> (a, w') ∈ take_writable tid w ->
  server_ok w' /\ guarantee tid w w' /\ owns tid (with_token o (Some 0)) w'.
Proof.
  intros Hi Ho. unfold take_writable. destruct (writableChan w) eqn:Hw; [by intros ?%not_elem_of_nil|].
  intros [= -> ->]%list_elem_of_singleton. destruct (ok_stands _ _ _ Hi) as (l & Hl & Hz). specialize (Hz Hw) as ->.
  split; [by apply set_writable_ok|]. split; [intros t _; apply set_writable_rely; by rewrite Hw|].
  destruct Ho as [A1 B1 C1 D1]. split; try done. cbn. by intros l [= <-].
Qed.

Lemma spec_send_writable tid o P :
  Persistent P -> o_token o = Some 0 -> spec tid o P send_writable (fun _ => with_token o None) (fun _ _ => True).
Proof.
  intros HP Hown. apply spec_act; [done|intros; apply _|]. intros w Hi Ho Hw.
  destruct (own_token _ _ _ Ho 0 Hown) as [Htok Hst]. rewrite Htok.
  intros a w' [= -> ->]%list_elem_of_singleton. split; [by apply set_writable_ok|].
  split; [intros t Ht; apply set_writable_rely; rewrite Htok; congruence|]. split; [|done]. by destruct Ho.
Qed.
End steps.
