(* ===== verification/ServerFrames.v ===== *)
(** * The server's HTTP/2 transport: quota and frames

    Specifications for the steps that move quota, write frames and header blocks, and read frames. *)

From stdpp Require Import base list strings gmap sorting relations.
From Stdlib Require Import ZArith Strings.Byte Lia.
From S2P Require Import Prelude GoStrings GrpcStatus GrpcTransport.
From S2P Require Import Hpack HpackTable HpackEncoder HpackDecoder HpackSync H2Errors GrpcHeaders H2Frame H2Framer H2Calls.
From S2P Require Import H2Order H2Parse H2ReadTotal GrpcFramer GrpcFramerProps Threads ServerState ServerTransport ServerInv ServerSteps.
Open Scope Z_scope.

Lemma frames_bytes_app cs1 cs2 : frames_bytes (cs1 ++ cs2) = frames_bytes cs1 ++ frames_bytes cs2.
Proof. unfold frames_bytes. by rewrite fmap_app, concat_app. Qed.

Lemma stands_snoc cs c l l' :
  stands cs = Some l -> order_next l (frame_of c) = Some l' -> stands (cs ++ [c]) = Some l'.
Proof.
  unfold stands. intros Hl Hl'. rewrite fmap_app, order_run_app, Hl. cbn [mbind option_bind order_run fmap list_fmap].
  by rewrite Hl'.
Qed.

Section frames.
Context {W : Type} `{Connection W} (cf : setup) (base : list byte).
#[local] Abbreviation server := (server W).
#[local] Abbreviation server_ok := (server_ok cf base).
#[local] Abbreviation spec := (spec cf base).
#[local] Abbreviation rely := (rely cf).
#[local] Abbreviation guarantee := (Threads.guarantee rely).
#[local] Abbreviation exempt := (exempt cf).
#[local] Abbreviation Persistent := (ServerInv.Persistent cf).

(** ** Quota of the connection *)

Definition with_held (o : own) (n : Z) : own := mkOwn (o_token o) n (o_mu o) (o_smu o).

(** The pool and what [tid] holds change. *)
Lemma set_quota_ok tid (w : server) q v :
  server_ok w -> offers q -> 0 <= default 0 (held (notes w) !! tid) + v ->
  quota_ok q (note_held tid v (notes w)) ->
  server_ok (set_notes (note_held tid v (notes w)) (set_sendQuotaPool q w)).
Proof.
  intros [] Hq Hv Hok. split; try done. cbn. intros t n. destruct (decide (tid = t)) as [<-|Hne].
  - rewrite lookup_insert_eq. by intros [= <-].
  - rewrite lookup_insert_ne by done. apply ok_held.
Qed.

Lemma set_quota_rely tid t (w : server) q v :
  t <> tid -> rely t w (set_notes (note_held tid v (notes w)) (set_sendQuotaPool q w)).
Proof.
  intros Hne. split; split; eauto; try done; cbn. by rewrite lookup_insert_ne.
Qed.

Lemma set_quota_owns tid o (w : server) q v :
  owns tid o w -> owns tid (with_held o (o_held o + v)) (set_notes (note_held tid v (notes w)) (set_sendQuotaPool q w)).
Proof. intros [A1 B1 C1 D1]. split; try done. cbn. rewrite lookup_insert_eq. simpl. lia. Qed.

Lemma spec_grant tid o P v :
  Persistent P -> 0 <= v < 2 ^ 31 -> spec tid o P (grant v) (fun _ => o) (fun _ _ => True).
Proof.
  intros HP Hv. apply spec_act; [done|intros; apply _|]. intros w Hi Ho Hw a w' [= -> ->]%list_elem_of_singleton.
  set (w' := set_notes _ _).
  assert (forall t, rely t w w') as Hr by (intros t; split; split; eauto).
  split; [|split; [intros t _; apply Hr|split; [eapply owns_stable; [apply Hr|exact Ho]|done]]].
  pose proof (held_sum_nonneg _ (ok_held _ _ _ Hi)) as Hh. pose proof (sent_nonneg (wire (notes w))) as Hs.
  destruct Hi. split; try done; cbn.
  - apply add_offers.
  - intros Hg. destruct ok_quota as (n & Hn & Hp & Hle); [simpl in Hg; lia|]. simpl in Hg.
    exists (n + v). rewrite Hp. split; [lia|]. split; [|simpl; lia]. apply add_new; lia.
  - lia.
Qed.

Lemma spec_give_back tid o P v :
  Persistent P -> 0 <= v <= o_held o -> spec tid o P (give_back v) (fun _ => with_held o (o_held o - v)) (fun _ _ => True).
Proof.
  intros HP Hv. apply spec_act; [done|intros; apply _|]. intros w Hi Ho Hw a w' [= -> ->]%list_elem_of_singleton.
  pose proof (own_held _ _ _ Ho) as Hown. pose proof (held_sum_nonneg _ (ok_held _ _ _ Hi)) as Hh.
  pose proof (sent_nonneg (wire (notes w))) as Hs. split; [|split; [intros t Ht; by apply set_quota_rely|]].
  - apply set_quota_ok; [done|apply add_offers|lia|]. intros Hg. simpl in Hg.
    destruct (ok_quota _ _ _ Hi) as (n & Hn & Hp & Hle); [done|].
    assert (0 <= held_sum (<[tid := default 0 (held (notes w) !! tid) + - v]> (held (notes w)))) as Hh'.
    { apply held_sum_nonneg. intros t m. destruct (decide (tid = t)) as [<-|Hne].
      - rewrite lookup_insert_eq. intros [= <-]. lia.
      - rewrite lookup_insert_ne by done. apply (ok_held _ _ _ Hi). }
    rewrite held_sum_insert in Hh'. exists (n + v). rewrite Hp. split; [lia|]. cbn -[sent]. rewrite held_sum_insert.
    split; [|lia]. apply add_new; lia.
  - split; [|done]. replace (o_held o - v) with (o_held o + - v) by lia. by apply set_quota_owns.
Qed.

Lemma acquire_conn_spec tid o (w : server) n w' :
  server_ok w -> owns tid o w -> (n, w') ∈ acquire_conn tid w ->
  server_ok w' /\ guarantee tid w w' /\ owns tid (with_held o (o_held o + n)) w' /\ 0 < n.
Proof.
  intros Hi Ho. unfold acquire_conn. destruct (quotaPool_acquire _) as [[m q]|] eqn:Ha; [|by intros ?%not_elem_of_nil].
  intros [= -> ->]%list_elem_of_singleton. destruct (acquire_offers _ _ _ Ha (ok_pool _ _ _ Hi)) as [Hm Hq].
  pose proof (own_held _ _ _ Ho) as Hown. split; [|split; [intros t Ht; by apply set_quota_rely|]].
  - apply set_quota_ok; [done|done| |].
    { destruct (held (notes w) !! tid) as [x|] eqn:Hx; simpl; [pose proof (ok_held _ _ _ Hi tid x Hx)|]; lia. }
    intros Hg. simpl in Hg. destruct (ok_quota _ _ _ Hi) as (n & Hn & Hp & Hle); [done|]. rewrite Hp in Ha.
    destruct (acquire_new n m q Hn Ha) as [-> ->]. exists 0. split; [done|]. split; [done|]. cbn -[sent]. rewrite held_sum_insert. lia.
  - split; [|done]. by apply set_quota_owns.
Qed.

Lemma acquire_stream_spec tid o (w : server) p n w' :
  server_ok w -> owns tid o w -> (n, w') ∈ acquire_stream p tid w ->
  server_ok w' /\ guarantee tid w w' /\ owns tid o w' /\ 0 < n.
Proof.
  intros Hi Ho. unfold acquire_stream. destruct (streams w !! p) as [s|] eqn:Hs; [|by intros ?%not_elem_of_nil].
  destruct (quotaPool_acquire _) as [[m q]|] eqn:Ha; [|by intros ?%not_elem_of_nil].
  intros [= -> ->]%list_elem_of_singleton. pose proof (ok_streams _ _ _ Hi p s Hs) as [Hid Hd Hp].
  destruct (acquire_offers _ _ _ Ha Hp) as [Hm Hq].
  assert (forall t, rely t w (set_streams (<[p := set_s_sendQuotaPool q s]> (streams w)) w)) as Hr.
  { intros t. by eapply set_stream_rely. }
  split; [by eapply set_stream_ok|]. split; [intros t _; apply Hr|]. split; [|done].
  eapply owns_stable; [apply Hr|exact Ho].
Qed.

(** ** [wait] *)

(** An error of the stream's context, or of a transport that is closing. *)
Lemma spec_wait {A} tid o P p (proceed : nat -> server -> list (A * server)) (q : A -> own) (E : A -> Prop) :
  Persistent P -> (forall w, P w -> is_stream p w) ->
  (forall w a w', server_ok w -> owns tid o w -> (a, w') ∈ proceed tid w ->
     server_ok w' /\ guarantee tid w w' /\ owns tid (q a) w' /\ E a) ->
  spec tid o P (wait p proceed) (fun x => match x with inl _ => o | inr a => q a end)
    (fun x _ => match x with inl _ => True | inr a => E a end).
Proof.
  intros HP Hv Hproc. apply spec_act; [done|intros; apply _|]. intros w Hi Ho Hw.
  apply Hv, is_stream_lookup in Hw as [s Hs]. rewrite Hs. pose proof (ok_streams _ _ _ Hi p s Hs) as [_ Hd _].
  assert (forall x w', (x, w') ∈ (if shutdownChan w then [(inl ErrConnClosing, w)] else []) ++
      ((fun '(a, w) => (inr a, w)) <$> proceed tid w) ->
    server_ok w' /\ guarantee tid w w' /\ owns tid (match x with inl _ => o | inr a => q a end) w' /\
    match x with inl _ => True | inr a => E a end) as Hrest.
  { intros x w' [Hin|Hin]%elem_of_app.
    - destruct (shutdownChan w); [|by apply not_elem_of_nil in Hin]. apply list_elem_of_singleton in Hin as [= -> ->].
      split; [done|]. split; [intros t _; reflexivity|]. done.
    - apply list_elem_of_fmap in Hin as ([a w2] & [= -> ->] & Hin). by apply Hproc. }
  destruct (reader_done (s_dec s)) as [e|] eqn:He; simpl.
  2: { intros x w' Hin. by apply Hrest. }
  destruct (Hd e eq_refl) as [-> | ->]; cbn [ContextErr];
    (intros x w' [[= -> ->]|Hin]%elem_of_cons; [|by apply Hrest]);
    (split; [done|]; split; [intros t _; reflexivity|done]).
Qed.

Lemma spec_wait_writable tid o P p :
  Persistent P -> (forall w, P w -> is_stream p w) ->
  spec tid o P (wait p take_writable) (fun x => match x with inl _ => o | inr _ => with_token o (Some 0) end)
    (fun _ _ => True).
Proof.
  intros HP Hv. eapply spec_post; [apply (spec_wait tid o P p _ (fun _ => with_token o (Some 0)) (fun _ => True))|].
  - done.
  - done.
  - intros w a w' Hi Ho Hin. destruct (take_writable_spec cf base tid o w a w' Hi Ho Hin) as (? & ? & ?). done.
  - intros [e|a] w _ [? _]; done.
Qed.

(** ** Frames *)

(** The framer's writer changes. *)
Lemma set_fr_ok (w : server) f :
  server_ok w -> written base (wr f) (wire (notes w)) -> fr_read f = fr_read (fr w) -> server_ok (set_fr f w).
Proof. intros [] Hwr Hrd. split; try done. cbn. by rewrite Hrd. Qed.

Lemma set_fr_rely tid (w : server) f : rely tid w (set_fr f w).
Proof. split; split; eauto. Qed.

(** What a call of the framer does to the connection. *)
Lemma framer_call_written forceFlush c (f : framer W) cs l l' :
  written base (wr f) cs -> stands cs = Some l -> order_next l (frame_of c) = Some l' ->
  let '(err, f') := framer_call forceFlush c f in
  fr_read f' = fr_read f /\
  match err with
  | None => written base (wr f') (cs ++ [c])
  | Some _ => written base (wr f') cs
  end.
Proof.
  intros [Hok Hwr] Hl Hl'. destruct (bw_failed (wr f)) eqn:Hf.
  { destruct (framer_call_stuck forceFlush c f Hf) as (e & f' & -> & Heq & Hr). split; [done|]. rewrite Heq.
    split; [done|]. by rewrite Hf. }
  pose proof (framer_call_spec forceFlush c f Hok Hf) as Hspec. destruct (framer_call forceFlush c f) as [err f'].
  destruct Hspec as (Hok' & Hr & _ & Hspec). split; [done|]. destruct err as [e|].
  - destruct Hspec as [Heq|[Hf' Hp]]; [rewrite Heq; split; [done|by rewrite Hf]|]. split; [done|]. rewrite Hf'.
    exists c. split; [by rewrite (stands_snoc cs c l l' Hl Hl')|].
    rewrite frames_bytes_app, (app_assoc base), <- Hwr. unfold frames_bytes at 1. cbn. rewrite app_nil_r.
    by rewrite <- app_assoc.
  - destruct Hspec as (Hf' & Heq & _). split; [done|]. rewrite Hf', Heq, frames_bytes_app, (app_assoc base), <- Hwr.
    unfold frames_bytes. cbn. by rewrite app_nil_r, <- app_assoc.
Qed.

Lemma spec_framer_write tid o P forceFlush c l l' :
  Persistent P -> o_token o = Some l -> order_next l (frame_of c) = Some l' ->
  quota_used c <= o_held o -> quota_used c <= http2MaxFrameLen ->
  (forall w id code debug, P w -> c = CGoAway id code debug -> frozen id w) ->
  spec tid o P (framer_write forceFlush c)
    (fun err => match err with
                | None => mkOwn (Some l') (o_held o - quota_used c) (o_mu o) (o_smu o)
                | Some _ => o
                end) (fun _ _ => True).
Proof.
  intros HP Htok Hnext Hheld Hmax Hgo. apply spec_act; [done|intros; apply _|]. intros w Hi Ho Hw.
  destruct (own_token _ _ _ Ho l Htok) as [Hw1 Hst]. pose proof (own_held _ _ _ Ho) as Hh.
  pose proof (framer_call_written forceFlush c (fr w) _ l l' (ok_written _ _ _ Hi) Hst Hnext) as Hc.
  destruct (framer_call forceFlush c (fr w)) as [err f]. destruct Hc as [Hr Hc].
  intros a w' [= -> ->]%list_elem_of_singleton. destruct err as [e|]; cbn [note_frame].
  { assert (forall t, rely t w (set_notes (notes w) (set_fr f w))) as Hre by (intros t; split; split; eauto).
    split; [|split; [intros t _; apply Hre|split; [eapply owns_stable; [apply Hre|exact Ho]|done]]].
    destruct Hi. split; try done. cbn. by rewrite Hr. }
  set (a' := if quota_used c =? 0 then _ else _).
  assert (wire a' = wire (notes w) ++ [c] /\ encoded a' = encoded (notes w) /\ largest a' = largest (notes w) /\
          granted a' = granted (notes w) /\ closer a' = closer (notes w) /\
          (forall t, t <> tid -> held a' !! t = held (notes w) !! t) /\
          default 0 (held a' !! tid) = default 0 (held (notes w) !! tid) - quota_used c /\
          held_sum (held a') = held_sum (held (notes w)) - quota_used c) as (Ew & Ee & El & Eg & Ec & Eo & Eh & Es).
  { unfold a'. destruct (Z.eqb_spec (quota_used c) 0) as [Hz|Hz]; cbn; repeat split; try done; try lia.
    - intros t Ht. by rewrite lookup_insert_ne.
    - rewrite lookup_insert_eq. simpl. lia.
    - rewrite held_sum_insert. lia. }
  clearbody a'. split; [|split; [|split; [|done]]].
  - pose proof (sent_nonneg (wire (notes w))). destruct Hi. split; try done; cbn; rewrite ?Ew, ?Ee, ?El, ?Eg, ?Ec; try done.
    + exists l'. split; [by eapply stands_snoc|]. by rewrite Hw1.
    + apply Forall_app. split; [done|]. by constructor.
    + intros id code debug [Hin|Hin]%elem_of_app; [by eapply ok_goaway|]. apply list_elem_of_singleton in Hin as <-.
      destruct (Hgo w id code debug Hw eq_refl) as [? ?]. by subst.
    + intros t n Hn. destruct (decide (t = tid)) as [->|Hne]; [|rewrite (Eo t Hne) in Hn; by eapply ok_held].
      rewrite Hn in Eh. simpl in Eh. lia.
    + intros Hg. rewrite Eg in Hg. destruct (ok_quota Hg) as (n & Hn & Hp & Hle). exists n. split; [done|]. split; [done|].
      rewrite Ew, Eg, Es, sent_app. cbn [sent foldr]. lia.
    + by rewrite Hr.
  - intros t Ht. split; split; eauto; cbn; rewrite ?Ec; try done.
    rewrite Hw1. congruence.
  - destruct Ho as [A1 B1 C1 D1]. split; cbn; try done.
    + intros l2 [= <-]. rewrite Ew. split; [done|]. by eapply stands_snoc.
    + rewrite Eh. lia.
Qed.

Lemma spec_framer_flush tid o P :
  Persistent P -> spec tid o P framer_flush (fun _ => o) (fun _ _ => True).
Proof.
  intros HP. apply spec_act; [done|intros; apply _|]. intros w Hi Ho Hw.
  assert (let '(err, f) := flushWrite (fr w) in written base (wr f) (wire (notes w)) /\ fr_read f = fr_read (fr w)) as Hf.
  { destruct (ok_written _ _ _ Hi) as [Hok Hwr]. unfold flushWrite.
    change (H2Write.w (fr_write (fr w))) with (wr (fr w)). destruct (bw_failed (wr (fr w))) eqn:Hf.
    - destruct (bw_stuck _ [] Hf) as [_ (e & ->)]. split; [|done]. split; [done|]. cbn. by rewrite Hf.
    - pose proof (bw_Flush_spec _ Hok Hf) as Hs. destruct (bw_Flush _) as [err x]. destruct Hs as [Hok' Hs].
      split; [|done]. split; [done|]. cbn. destruct err as [e|]; cbn.
      + destruct Hs as [-> Hp]. 
        destruct (ok_stands _ _ _ Hi) as (l & Hl & _).
        set (id := if decide (l = 0) then 1 else l).
        exists (if decide (l = 0) then CSettingsAck else CContinuation l true []). split.
        * case_decide; eexists; (eapply stands_snoc; [done|]); unfold order_next; subst; [done|].
          cbn. destruct (Z.eqb_spec l 0); [done|]. rewrite Z.eqb_refl. done.
        * rewrite frames_bytes_app, (app_assoc base), <- Hwr. by apply prefix_app_r.
      + destruct Hs as (-> & -> & ->). by rewrite app_nil_r, Hwr. }
  destruct (flushWrite (fr w)) as [err f]. destruct Hf as [Hwr Hr].
  intros a w' [= -> ->]%list_elem_of_singleton. split; [by apply set_fr_ok|].
  split; [intros t _; apply set_fr_rely|]. split; [|done]. eapply owns_stable; [apply (set_fr_rely tid)|exact Ho].
Qed.

(** ** Reading *)

Lemma cut_rest rd x : x ∈ cut_reader rd -> slen (rest x) <= slen (rest rd).
Proof.
  unfold cut_reader. intros [->|(n & -> & _)%list_elem_of_fmap]%elem_of_cons; [lia|]. simpl.
  unfold slen. rewrite length_take. lia.
Qed.

Lemma framer_safe_shorter (f : Framer) x : framer_safe f -> slen (rest x) <= slen (rest (r f)) -> framer_safe (set_r f x).
Proof.
  intros [Ho Hok Hl Ht] Hle. split; [done|done|done|]. intros d Hd. destruct (Ht d Hd) as [? ?]. split; [done|]. cbn. lia.
Qed.

Lemma set_reader_ok (w : server) f :
  server_ok w -> wr f = wr (fr w) -> framer_safe (fr_read f) -> server_ok (set_fr f w).
Proof. intros [] Hwr Hrd. split; try done. cbn. by rewrite Hwr. Qed.

Definition frame_read (x : res http2.error Frame) : Prop :=
  match x with
  | Ok f => frame_wf f /\ match f with MetaHeadersFrame _ _ _ _ => True | _ => valid (Header f) = true end
  | _ => True
  end.

Lemma spec_framer_read tid o P :
  Persistent P -> spec tid o P framer_read (fun _ => o) (fun x _ => frame_read x).
Proof.
  intros HP. apply spec_act; [done|intros; apply _|]. intros w Hi Ho Hw. unfold readFrame.
  set (fuel := S (length (rest (r (fr_read (fr w)))))).
  destruct (ReadFrame_safe fuel _ (ok_reader _ _ _ Hi)) as (x & fr' & -> & Hsafe & Hx).
  { unfold slen, fuel. lia. }
  destruct x as [f|e| |]; [| |done|done]; intros a w' [= -> ->]%list_elem_of_singleton;
    (split; [by apply set_reader_ok|]); (split; [intros t _; apply set_fr_rely|]);
    (split; [eapply owns_stable; [apply (set_fr_rely tid)|exact Ho]|]); [|done].
  destruct Hx as [(Hwf & _ & Hv) _]. split; [done|]. destruct f; try done. by destruct Hv.
Qed.

(** ** Header blocks *)

Lemma foldr_max_ge (l : list Z) b : b <= foldr Z.max b l.
Proof. induction l as [|x l IH]; cbn [foldr]; lia. Qed.

Lemma foldr_max_all (l : list Z) b : Forall (fun x => x <= foldr Z.max b l) l.
Proof.
  induction l as [|x l IH]; [done|]. constructor; cbn [foldr]; [lia|]. eapply Forall_impl; [exact IH|]. simpl. lia.
Qed.

Lemma encoder_step e n fs big :
  encoder_ok e n -> n + slen fs < 2 ^ 60 -> big < 2 ^ 31 -> Forall (fun f => rfc_size f <= big) fs ->
  exists e' out, run_ops (E:=hpack_error) e (OpField <$> fs) = Ok (e', out) /\ encoder_ok e' (n + slen fs).
Proof.
  intros (d & Hsync & Hem & Hmax & Hal & Hadd) Hn Hbig Hfs.
  destruct (run_ops_step (E:=hpack_error) (OpField <$> fs) e d (env d ++ fs) Hsync) as
    (e' & out & d' & Hrun & Hsync' & Hem' & _ & Hmax' & Hal' & Hadd' & _).
  - rewrite Hem, fields_OpField. apply emit_all_collect.
  - apply Forall_fmap. eapply Forall_impl; [exact Hfs|]. intros f Hf. unfold compose, op_ok. rewrite Hmax, Hal.
    unfold rfc_size, http2InitHeaderTableSize in *. pose proof (slen_nonneg (Name f)). pose proof (slen_nonneg (Value f)).
    split; [split; [lia|by left]|]. split; [split; [lia|by left]|lia].
  - unfold slen in *. rewrite length_fmap. lia.
  - exists e', out. split; [done|]. exists d'. rewrite Hem', Hmax', Hal'. repeat split; try done; try apply Hsync'.
    unfold slen in *. rewrite length_fmap in Hadd'. lia.
Qed.

Lemma set_hEnc_rely tid (w : server) e t : writableChan w = Some tid -> t <> tid -> rely t w (set_hEnc e w).
Proof. intros Htok Hne. split; split; eauto. intros Hw. congruence. Qed.

Lemma spec_encode tid o P fs l :
  Persistent P -> o_token o = Some l -> spec tid o P (encode fs) (fun _ => o) (fun _ _ => True).
Proof.
  intros HP Htok w Hi0 Ho0 Hw0. apply wp_seq. { apply _. }
  intros w1 Hr1 Hi1. assert (owns tid o w1) as Ho1 by (eapply owns_stable; [exact Hr1|exact Ho0]).
  destruct (own_token _ _ _ Ho1 l Htok) as [Hw1 Hst1].
  intros [] w2 [= ->]%list_elem_of_singleton. set (w2 := set_notes _ _).
  pose proof (foldr_max_ge (rfc_size <$> fs) (largest (notes w1))) as Hge.
  assert (0 <= slen fs) as Hfs0 by apply slen_nonneg.
  assert (server_ok w2) as Hi2.
  { destruct Hi1. split; try done; cbn.
    - intros He Hl. destruct (ok_encoder ltac:(lia) ltac:(lia)) as (d & ? & ? & ? & ? & ?). exists d.
      do 4 (split; [done|]). lia.
    - lia. }
  split; [done|]. split. { intros t Ht. split; split; eauto. cbn. intros Hc. congruence. }
  assert (owns tid o w2) as Ho2 by (by destruct Ho1).
  assert (encoder_ok (hEnc w1) (encoded (notes w1)) \/ too_much w2) as Henc.
  { destruct (decide (encoded (notes w2) < 2 ^ 60)) as [He|He]; [|right; left; lia].
    destruct (decide (largest (notes w2) < 2 ^ 31)) as [Hl|Hl]; [|right; right; lia].
    left. cbn in He, Hl. apply (ok_encoder _ _ _ Hi1); lia. }
  assert (stands (wire (notes w2)) = Some l) as Hst2 by done.
  intros w2' Hr2 _ w3 Hr3' Hi3. assert (rely tid w2 w3) as Hr3 by (by etransitivity). clear w2' Hr2 Hr3'.
  pose proof (owns_stable cf tid o _ _ Hr3 Ho2) as Ho3.
  destruct Hr3 as [_ [_ Htok3 _ _ _]]. destruct (Htok3 Hw1) as (Hw3 & Hwire3 & Henc3 & Hen3 & Hla3).
  assert (too_much w2 -> exempt w3) as Hex.
  { intros Htm. right. unfold too_much in *. by rewrite Hen3, Hla3. }
  assert (too_much w2 \/ exists e out, run_ops (E:=hpack_error) (hEnc w3) (OpField <$> fs) = Ok (e, out) /\
            encoder_ok e (encoded (notes w3))) as Hf.
  { destruct Henc as [Henc|?]; [|by left]. destruct (decide (too_much w2)) as [Htm|Htm]; [by left|right].
    rewrite Henc3, Hen3. change (hEnc w2) with (hEnc w1). unfold too_much in Htm. cbn in Htm.
    apply (encoder_step (hEnc w1) (encoded (notes w1)) fs (largest (notes w2))); [done|lia|cbn; lia|].
    pose proof (foldr_max_all (rfc_size <$> fs) (largest (notes w1))) as Hall. rewrite (Forall_fmap rfc_size) in Hall. exact Hall. }
  assert (match run_ops (E:=hpack_error) (hEnc w3) (OpField <$> fs) with
          | Ok (e, _) => encoded (notes w3) < 2 ^ 60 -> largest (notes w3) < 2 ^ 31 -> encoder_ok e (encoded (notes w3))
          | _ => exempt w3 end) as Hrun.
  { destruct Hf as [Htm|(e & out & -> & He)]; [|done]. destruct (run_ops _ _) as [[e out]| | |]; try by apply Hex.
    rewrite Hen3, Hla3. destruct Htm; lia. }
  destruct (run_ops _ _) as [[e out]| | |]; [|exact Hrun..]. intros b w4 [= -> ->]%list_elem_of_singleton.
  assert (server_ok (set_hEnc e w3)) as Hi4 by (destruct Hi3; by split).
  split; [done|]. split; [intros t Ht; by eapply set_hEnc_rely|].
  intros w5 Hr5 Hi5. split; [|done]. eapply owns_stable; [exact Hr5|]. by destruct Ho3.
Qed.
End frames.
