(* ===== verification/ServerClose.v ===== *)
(** * The server's HTTP/2 transport: closing

    [Close] keeps the invariant: of the goroutines that call it, only the one that set the state to closing
    closes [shutdownChan]. *)

From stdpp Require Import base list strings gmap sorting relations.
From Stdlib Require Import ZArith Strings.Byte Lia.
From S2P Require Import Prelude GoStrings GrpcStatus GrpcTransport.
From S2P Require Import Hpack HpackTable HpackEncoder HpackDecoder HpackSync H2Errors GrpcHeaders H2Frame H2Framer H2Calls.
From S2P Require Import H2Order H2Parse H2ReadTotal GrpcFramer GrpcFramerProps Threads ServerState ServerTransport ServerInv ServerSteps ServerFrames.
Open Scope Z_scope.

Section close.
Context {W : Type} `{Connection W} (cf : setup) (base : list byte).
#[local] Abbreviation server := (server W).
#[local] Abbreviation server_ok := (server_ok cf base).
#[local] Abbreviation spec := (spec cf base).
#[local] Abbreviation rely := (rely cf).
#[local] Abbreviation guarantee := (Threads.guarantee rely).
#[local] Abbreviation exempt := (exempt cf).
#[local] Abbreviation Persistent := (ServerInv.Persistent cf).
#[local] Abbreviation default_keepalive := (default_keepalive cf).

(** ** [Close] *)

Lemma spec_cancel tid o P p :
  Persistent P -> (forall w, P w -> is_stream p w) -> spec tid o P (cancel p) (fun _ => o) (fun _ _ => True).
Proof.
  intros HP Hv. apply spec_stream_set; [done|done|]. intros s Hs. destruct (done_same s ErrCanceled) as [-> ->].
  split; [done|]. split; [|done]. apply done_stream_ok; [done|by left].
Qed.

Lemma spec_conn_Close tid o P : Persistent P -> spec tid o P conn_Close (fun _ => o) (fun _ _ => True).
Proof.
  intros HP. apply spec_act; [done|intros; apply _|]. intros w Hi Ho Hw.
  destruct (ok_written _ _ _ Hi) as [Hok Hwr]. pose proof (bw_Close_spec _ Hok) as Hc.
  change (H2Write.w (fr_write (fr w))) with (wr (fr w)). destruct (bw_Close (wr (fr w))) as [err x].
  destruct Hc as (Hok' & Hd & Hp & Hf). simpl in Hok', Hd, Hp, Hf.
  intros a w' (rd & [= -> ->] & Hrd)%list_elem_of_fmap. set (f := with_r _ rd).
  split; [|split; [intros t _; apply set_fr_rely|split; [eapply owns_stable; [apply (set_fr_rely cf tid)|exact Ho]|done]]].
  assert (written base (wr f) (wire (notes w))) as Hwr'.
  { unfold f, wr, with_r, with_w, with_write. cbn. split; [done|]. by rewrite Hf, Hd, Hp. }
  apply cut_rest in Hrd. pose proof (framer_safe_shorter _ rd (ok_reader _ _ _ Hi) Hrd) as Hsafe.
  destruct Hi. by split.
Qed.

(** Who sets the state to [closing] may close the channel. *)
Lemma Close_section_ok tid o (w : server) a w' :
  server_ok w -> owns tid o w -> Close_section tid w = Goes [(a, w')] ->
  server_ok w' /\ guarantee tid w w' /\ owns tid o w' /\
  match a with
  | None => True
  | Some ps => Forall (fun p => is_stream p w') ps /\
      (default_keepalive = true -> closer (notes w') = Some tid /\ shutdownChan w' = false)
  end.
Proof.
  intros Hi Ho. unfold Close_section. destruct (bool_decide_reflect (state w = closing)) as [Hc|Hc]; intros [= <- <-].
  { split; [done|]. split; [intros t _; reflexivity|done]. }
  set (w' := set_notes _ _).
  assert (forall t, rely t w w') as Hr.
  { intros t. split; split; eauto; try done. intros Hd Hcl _. destruct Hc. apply (ok_closer _ _ _ Hi Hd). by rewrite Hcl. }
  split; [|split; [intros t _; apply Hr|split; [eapply owns_stable; [apply Hr|exact Ho]|split]]].
  - destruct Hi. split; try done; cbn.
    intros id code debug Hin. destruct (ok_goaway id code debug Hin). done.
  - apply Forall_forall. intros p Hp. apply list_elem_of_fmap in Hp as ([id q] & -> & Hq). apply elem_of_map_to_list in Hq.
    destruct (activeStreams w) as [active|] eqn:Ha; [|simpl in Hq; by apply lookup_empty_Some in Hq].
    destruct (ok_active _ _ _ Hi active Ha) as [_ Hact]. destruct (Hact id q Hq) as (s & Hs & _).
    apply is_stream_lookup. by exists s.
  - intros Hd. split; [done|]. cbn. destruct (shutdownChan w) eqn:Hs; [|done]. destruct Hc. by apply (ok_shutdown _ _ _ Hi).
Qed.

Lemma close_shutdown_ok tid o (w : server) :
  server_ok w -> owns tid o w -> (default_keepalive = true -> closer (notes w) = Some tid /\ shutdownChan w = false) ->
  shutdownChan w = false ->
  server_ok (set_shutdownChan true w) /\ guarantee tid w (set_shutdownChan true w) /\ owns tid o (set_shutdownChan true w).
Proof.
  intros Hi Ho Hcl Hs.
  assert (guarantee tid w (set_shutdownChan true w)) as Hg.
  { intros t Ht. split; split; eauto; try done. intros Hd Hc. destruct (Hcl Hd). congruence. }
  split; [|split; [done|by destruct Ho]]. destruct Hi. split; try done. cbn. intros Hd _. apply (ok_closer Hd).
  destruct (Hcl Hd) as [-> _]. by eexists.
Qed.

Lemma spec_Close tid o P : Persistent P -> spec tid o P Close (fun _ => o) (fun _ _ => True).
Proof.
  intros HP w Hi Ho Hw. apply wp_act. intros w1 Hr1 Hi1.
  pose proof (owns_stable cf tid o _ _ Hr1 Ho) as Ho1. destruct (mu w1).
  { intros a w' Hin. by apply not_elem_of_nil in Hin. }
  assert (exists a w2, Close_section tid w1 = Goes [(a, w2)]) as (a & w2 & Hsec).
  { unfold Close_section. case_bool_decide; eauto. }
  rewrite Hsec. intros b w2' [= -> ->]%list_elem_of_singleton.
  destruct (Close_section_ok tid o w1 a w2 Hi1 Ho1 Hsec) as (Hi2 & Hg2 & Ho2 & Ha). split; [done|]. split; [done|].
  destruct a as [ps|].
  2: { intros w3 Hr3 Hi3. split; [|done]. eapply owns_stable; [exact Hr3|exact Ho2]. }
  destruct Ha as [Hps Hcl]. apply wp_act. intros w3 Hr3 Hi3.
  pose proof (owns_stable cf tid o _ _ Hr3 Ho2) as Ho3.
  assert (default_keepalive = true -> closer (notes w3) = Some tid /\ shutdownChan w3 = false) as Hcl3.
  { intros Hd. destruct (Hcl Hd). destruct Hr3 as [_ [_ _ _ _ Hk]]. auto. }
  destruct (shutdownChan w3) eqn:Hs3.
  { left. destruct default_keepalive; [|done]. destruct (Hcl3 eq_refl). done. }
  intros b w4 [= -> ->]%list_elem_of_singleton.
  destruct (close_shutdown_ok tid o w3 Hi3 Ho3) as (Hi4 & Hg4 & Ho4); [by rewrite Hs3|done|].
  split; [done|]. split; [done|].
  assert (Forall (fun p => is_stream p (set_shutdownChan true w3)) ps) as Hps4.
  { eapply Forall_impl; [exact Hps|]. intros p Hp. exact (is_stream_persistent cf p w2 w3 (proj1 Hr3) Hp). }
  revert Hi4 Ho4 Hps4. generalize (set_shutdownChan true w3). intros w5 Hi5 Ho5 Hps5.
  apply (spec_bind cf base tid o (fun w => Forall (fun p => is_stream p w) ps) _ (fun _ => o) (fun _ _ => True));
    [apply _|apply spec_conn_Close, _| |done..].
  intros err. eapply spec_bind; [apply _|apply spec_choose, _|]. intros ps'.
  eapply (spec_bind _ _ _ _ _ _ (fun _ => o) (fun _ _ => True)); [apply _| |intros []; by apply spec_ret; [apply _|]].
  apply spec_each; [apply _|]. intros p Hp. apply spec_cancel; [apply _|]. intros w6 [[Hall _] Hperm].
  apply permutations_Permutation in Hperm. rewrite Forall_forall in Hall. apply Hall. by rewrite Hperm.
Qed.
End close.
