(* ===== verification/ServerWrites.v ===== *)
(** * The server's HTTP/2 transport: what a handler calls

    [closeStream], [WriteHeader], [WriteStatus], [Write], [Read] and the rest keep the invariant, write only
    with the right to write, and send only quota that they hold. *)

From stdpp Require Import base list strings gmap sorting relations.
From Stdlib Require Import ZArith Strings.Byte Lia.
From S2P Require Import Prelude GoStrings GrpcStatus GrpcTransport.
From S2P Require Import Hpack HpackTable HpackEncoder HpackDecoder HpackSync H2Errors GrpcHeaders H2Frame H2Framer H2Calls.
From S2P Require Import H2Order H2Parse H2ReadTotal GrpcFramer H2Blocks GrpcFramerProps.
From S2P Require Import Threads ServerState ServerTransport ServerInv ServerSteps ServerFrames ServerClose.
Open Scope Z_scope.

(** Side conditions: the stream is known. *)
Ltac known := let w := fresh "w" in intros w; cbn beta; intros; repeat match goal with H : _ /\ _ |- _ => destruct H end; assumption.

(** ** The frames of a header block *)

(** The frames of a block continue where the last one stopped. *)
Fixpoint stands_at (l : Z) (cs : list (bool * call)) : Prop :=
  match cs with
  | [] => l = 0
  | (_, c) :: cs => exists l', order_next l (frame_of c) = Some l' /\ quota_used c = 0 /\
      (forall id code debug, c <> CGoAway id code debug) /\ stands_at l' cs
  end.

Lemma continuation_next id e p : id <> 0 -> order_next id (frame_of (CContinuation id e p)) = Some (if e then 0 else id).
Proof. intros Hid. rewrite order_continues; [by destruct e|done|done]. Qed.

Lemma block_calls_stand fuel (first : bool) id es b :
  0 < id -> (length b <= fuel)%nat -> stands_at (if first then 0 else id) (block_calls fuel first id es b).
Proof.
  intros Hid. revert first b. induction fuel as [|fuel IH]; intros first b Hf; cbn [block_calls stands_at].
  - assert (b = []) as -> by (destruct b; simpl in Hf; [done|lia]). exists 0.
    destruct first; (split; [|split; [done|split; [done|done]]]).
    + by apply (order_headers 0 _ id [] es true).
    + by apply (continuation_next id true []); lia.
  - set (eh := slen b <=? http2MaxFrameLen). set (frag := take _ b). exists (if eh then 0 else id). split; [|split; [|split]].
    + destruct first; [by apply (order_headers 0 _ id frag es eh)|by apply (continuation_next id eh frag); lia].
    + by destruct first.
    + by destruct first.
    + unfold eh. destruct (Z.leb_spec (slen b) http2MaxFrameLen) as [Hl|Hl]; [done|].
      apply (IH false). rewrite length_drop. unfold http2MaxFrameLen, slen in *. lia.
Qed.

Section writes.
Context {W : Type} `{Connection W} (cf : setup) (base : list byte).
#[local] Abbreviation server := (server W).
#[local] Abbreviation server_ok := (server_ok cf base).
#[local] Abbreviation spec := (spec cf base).
#[local] Abbreviation rely := (rely cf).
#[local] Abbreviation guarantee := (Threads.guarantee rely).
#[local] Abbreviation exempt := (exempt cf).
#[local] Abbreviation Persistent := (ServerInv.Persistent cf).

(** The next step by its specification [H]. *)
Ltac next H := eapply spec_bind; [apply _|apply H; try apply _; try known; try done|].
(** The end of a program. *)
Ltac finish := apply spec_ret; [apply _|done].

(** What is owned can be forgotten. *)
Lemma owns_less tid o o' (w : server) :
  server_ok w -> owns tid o w -> (o_token o' = o_token o \/ o_token o' = None) -> o_held o' <= o_held o ->
  o_mu o' = o_mu o -> o_smu o' = o_smu o -> owns tid o' w.
Proof.
  intros Hi [A B C D] Ht Hh Hm Hs. split; [|lia|by rewrite Hm|by rewrite Hs].
  destruct Ht as [-> | ->]; [done|done].
Qed.

Lemma owns_nothing tid (w : server) : server_ok w -> owns tid nothing w.
Proof.
  intros Hi. split; try done. destruct (held (notes w) !! tid) as [n|] eqn:Hn; simpl; [|done]. by eapply ok_held.
Qed.

(** ** [closeStream] *)

Lemma closeStream_section_ok tid o id (w : server) a w' :
  server_ok w -> owns tid o w -> closeStream_section id tid w = Goes [(a, w')] ->
  server_ok w' /\ guarantee tid w w' /\ owns tid o w'.
Proof.
  intros Hi Ho. unfold closeStream_section. intros [= <- <-].
  set (w1 := set_activeStreams _ w).
  assert (server_ok w1) as Hi1.
  { destruct Hi. split; try done; cbn.
    - intros active' Ha. destruct (activeStreams w) as [active|]; [|done]. injection Ha as <-.
      destruct (ok_active active eq_refl) as [Hsz Hact]. split.
      + pose proof (map_size_delete id active) as Hd. destruct (active !! id); [|unfold Datatypes.id in Hd]; lia.
      + intros i p Hp. apply lookup_delete_Some in Hp as [_ Hp]. by apply Hact.
    - destruct (activeStreams w); [done|intros _; by apply ok_nil].
    - intros Hd. rewrite <- (ok_closing Hd). by destruct (activeStreams w). }
  assert (forall t, rely t w w1) as Hr by (intros t; split; split; eauto).
  assert (owns tid o w1) as Ho1 by (eapply owns_stable; [apply Hr|exact Ho]).
  case_bool_decide; [|split; [done|split; [intros t _; apply Hr|done]]].
  destruct (relevant_step cf base tid o w1 (set_idle (Some (now w)) w1) eq_refl Hi1 Ho1) as (Hi2 & Hg2 & Ho2).
  split; [done|]. split; [|done]. intros t Ht. etransitivity; [apply Hr|by apply Hg2].
Qed.

Lemma spec_closeStream tid o P p :
  Persistent P -> (forall w, P w -> is_stream p w) -> o_smu o = None ->
  spec tid o P (closeStream p) (fun _ => o) (fun _ _ => True).
Proof.
  intros HP Hv Hno.
  assert (Hv2 : forall E w, P w /\ E -> is_stream p w) by (intros E w [? _]; auto).
  next spec_stream_id. intros id.
  eapply (spec_bind _ _ _ _ _ _ (fun _ => o) (fun _ _ => True)); [apply _| |].
  { apply spec_section; [apply _|apply _|]. intros w Hi Ho Hw.
    destruct (closeStream_section id tid w) as [| |l] eqn:Hs; [done|done|].
    assert (exists a w', l = [(a, w')]) as (a & w' & ->) by (unfold closeStream_section in Hs; injection Hs as <-; eauto).
    intros b w2 [= -> ->]%list_elem_of_singleton. destruct (closeStream_section_ok tid o id w a w' Hi Ho Hs) as (? & ? & ?). done. }
  intros last. eapply spec_bind; [apply _|apply spec_cancel; [apply _|]|]. { intros w [[? _] _]. auto. }
  intros []. eapply spec_bind; [apply _|apply spec_stream_lock; [apply _| |done]|]. { intros w [[[? _] _] _]. auto. }
  intros []. eapply (spec_bind _ _ _ _ _ _ (fun _ => with_smu o (Some p)) (fun _ _ => True)); [apply _| |].
  { apply (spec_on_stream cf base tid _ _ p _ (fun _ => True)); [apply _| |].
    - intros w [[[[? _] _] _] _]. auto.
    - intros s Hs. eexists. split; [reflexivity|]. intros a s' [= -> ->]%list_elem_of_singleton. by destruct Hs. }
  intros q. eapply spec_bind; [apply _|apply spec_when; [apply _|intros _; apply spec_release, _|done]|].
  intros []. eapply spec_bind; [apply _|apply spec_stream_set; [apply _| |]|].
  { intros w [[[[[[? _] _] _] _] _] _]. auto. } { intros s []. by split. }
  intros []. eapply spec_bind; [apply _|apply spec_stream_unlock; [apply _|done]|].
  intros []. destruct o as [tok h m smu]. cbn in Hno. subst smu.
  unfold with_smu; cbn [o_token o_held o_mu o_smu]. unfold when. destruct last; [|by apply spec_ret; [apply _|]].
  eapply spec_bind; [apply _|apply spec_Close, _|]. intros err. by apply spec_ret; [apply _|].
Qed.

(** ** Header blocks *)

(** After an error the right to write is lost. *)
Definition writing (l : Z) (h : Z) : own := mkOwn (Some l) h false None.
Definition holding (h : Z) : own := mkOwn None h false None.
Definition after (h : Z) (err : option go_error) : own := match err with None => writing 0 h | Some _ => holding h end.

Lemma spec_drop {A} tid P (p : prog server A) o E l h :
  spec tid (holding h) P p o E -> spec tid (writing l h) P p o E.
Proof. intros Hp w Hi Ho Hw. apply Hp; [done| |done]. by eapply owns_less; [done|exact Ho|right|..]. Qed.

Lemma spec_write_frames tid P h cs l :
  Persistent P -> 0 <= h -> stands_at l cs ->
  spec tid (writing l h) P (write_frames cs) (after h) (fun _ _ => True).
Proof.
  intros HP Hh. revert l P HP. induction cs as [|[b c] cs IH]; intros l P HP Hcs; cbn [write_frames].
  { cbn in Hcs. subst l. by apply (spec_ret cf base tid (writing 0 h)). }
  destruct Hcs as (l' & Hnext & Hq & Hgo & Hcs).
  eapply spec_bind; [apply _|apply (spec_framer_write cf base tid (writing l h) _ b c l l'); try done; cbn; try lia|].
  { rewrite Hq. done. } { intros w id code debug _ Hc. by destruct (Hgo id code debug). }
  intros [err|].
  - apply spec_drop. eapply spec_bind; [apply _|apply spec_Close, _|]. intros ?. by apply (spec_ret cf base tid (holding h)); [apply _|].
  - rewrite Hq. replace (mkOwn _ _ _ _) with (writing l' h) by (unfold writing; f_equal; cbn; lia). by apply IH; [apply _|].
Qed.

Lemma spec_server_writeHeaders tid P h p b es :
  Persistent P -> (forall w, P w -> is_stream p w) -> 0 <= h ->
  spec tid (writing 0 h) P (server_writeHeaders p b es) (after h) (fun _ _ => True).
Proof.
  intros HP Hv Hh. next spec_stream_id. intros id.
  apply (spec_fact cf base (0 < id)); [intros w [_ [_ ?]]; lia|intros Hid].
  eapply spec_bind; [apply _|apply spec_write_frames; [apply _|done|]|].
  { apply (block_calls_stand (length b) true); lia. }
  intros err. eapply (spec_bind _ _ _ _ _ _ _ (fun _ _ => True)); [apply _|apply spec_when; [apply _| |done]|].
  { intros _. by apply spec_writes; [apply _|]. }
  intros []. by apply (spec_ret cf base tid (after h err)); [apply _|].
Qed.

Lemma spec_WriteHeader tid P h p md :
  Persistent P -> (forall w, P w -> is_stream p w) -> 0 <= h ->
  spec tid (holding h) P (WriteHeader p md) (fun _ => holding h) (fun _ _ => True).
Proof.
  intros HP Hv Hh. eapply spec_bind; [apply _|apply (spec_stream_section cf base tid _ _ p _ (fun _ => True)); [done|done|]|].
  { intros s Hs. unfold WriteHeader_section. destruct (s_headerOk s || _); [done|].
    destruct Hs. repeat case_bool_decide; (split; [done|]); (split; [by split|done]). }
  intros [err|md2]; [finish|].
  eapply spec_bind; [apply _|apply spec_wait_writable; [apply _|]|]. { intros w [? _]. auto. }
  intros [err|[]]; [finish|]. cbn [with_token].
  eapply spec_bind; [apply _|apply (spec_stream_get cf base tid _ _ p _ (fun _ => True)); [apply _| |done]|].
  { intros w [[? _] _]. auto. }
  intros sc. eapply spec_bind; [apply _|apply spec_choose, _|]. intros md3.
  eapply spec_bind; [apply _|by eapply spec_encode; [apply _|]|]. intros b.
  eapply spec_bind; [apply _|apply (spec_server_writeHeaders tid _ h); [apply _| |done]|].
  { intros w [[[[[? _] _] _] _] _]. auto. }
  intros [err|]; [finish|]. cbn [after].
  eapply spec_bind; [apply _|by apply spec_send_writable; [apply _|]|]. intros []. finish.
Qed.

Lemma spec_WriteStatus tid P p st :
  Persistent P -> (forall w, P w -> is_stream p w) ->
  spec tid nothing P (WriteStatus p st) (fun _ => nothing) (fun _ _ => True).
Proof.
  intros HP Hv. eapply spec_bind; [apply _|apply (spec_stream_section cf base tid _ _ p _ (fun _ => True)); [done|done|]|].
  { by intros s Hs. }
  intros [[hs hh]|]; [|finish]. change nothing with (holding 0).
  eapply (spec_bind _ _ _ _ _ _ _ (fun _ _ => True)); [apply _|apply spec_when; [apply _| |done]|].
  { intros _. eapply spec_bind; [apply _|apply spec_WriteHeader; [apply _| |done]|]. { intros w [? _]. auto. }
    intros err. finish. }
  intros []. eapply spec_bind; [apply _|apply spec_wait_writable; [apply _|]|]. { intros w [[? _] _]. auto. }
  intros [err|[]]; [finish|]. cbn [with_token].
  eapply spec_bind; [apply _|apply (spec_stream_get cf base tid _ _ p _ (fun _ => True)); [apply _| |done]|].
  { intros w [[[? _] _] _]. auto. }
  intros tr. eapply spec_bind; [apply _|apply spec_choose, _|]. intros tr2.
  eapply spec_bind; [apply _|by eapply spec_encode; [apply _|]|]. intros b.
  eapply spec_bind; [apply _|apply (spec_server_writeHeaders tid _ 0); [apply _| |done]|].
  { intros w [[[[[[? _] _] _] _] _] _]. auto. }
  intros [err|]; cbn [after].
  { eapply spec_bind; [apply _|apply spec_Close, _|]. intros ?. finish. }
  eapply spec_bind; [apply _|apply spec_closeStream; [apply _| |done]|].
  { intros w [[[[[[[? _] _] _] _] _] _] _]. auto. }
  intros []. eapply spec_bind; [apply _|by apply spec_send_writable; [apply _|]|]. intros []. finish.
Qed.

(** ** Data *)

Lemma spec_less_held {A} tid P (p : prog server A) q E h h' :
  h' <= h -> spec tid (holding h') P p q E -> spec tid (holding h) P p q E.
Proof.
  intros Hle Hp w Hi Ho Hw. apply Hp; [done| |done]. eapply owns_less; [done|exact Ho|by left|done..].
Qed.

Lemma spec_leave_writers tid o P : Persistent P -> spec tid o P leave_writers (fun _ => o) (fun _ _ => True).
Proof.
  intros HP. eapply spec_bind; [apply _|apply spec_adjust, _|]. intros n.
  apply spec_when; [apply _|intros _; apply spec_put, _|done].
Qed.

(** Quota that a writer has taken for [chunk] is given back, sent, or lost with the connection. *)
Lemma spec_write_chunk tid P h p id last chunk rest :
  Persistent P -> (forall w, P w -> is_stream p w) -> 0 <= h -> slen chunk <= http2MaxFrameLen ->
  spec tid (holding (h + slen chunk)) P (write_chunk p id last chunk rest) (fun _ => holding h) (fun _ _ => True).
Proof.
  intros HP Hv Hh Hmax. pose proof (slen_nonneg chunk) as Hps. unfold write_chunk.
  eapply spec_bind; [apply _|apply spec_adjust, _|]. intros n0.
  eapply spec_bind; [apply _|apply spec_wait_writable; [apply _|]|]. { intros w [? _]. auto. }
  intros [err|[]].
  { eapply (spec_bind _ _ _ _ _ _ (fun _ => holding h) (fun _ _ => True)); [apply _| |].
    { destruct (is_StreamError err); [|apply (spec_less_held _ _ _ _ _ _ h); [lia|finish]].
      eapply spec_post; [apply spec_give_back; [apply _|cbn; lia]|]. intros [] w _ [Ho _]. split; [|done].
      revert Ho. unfold with_held. cbn. by replace (h + slen chunk - slen chunk) with h by lia. }
    intros []. eapply spec_bind; [apply _|apply spec_leave_writers, _|]. intros []. finish. }
  cbn [with_token]. eapply spec_bind; [apply _|apply (spec_stream_get cf base tid _ _ p _ (fun d => forall e, d = Some e -> context_error e))|].
  { apply _. } { intros w [[? _] _]. auto. } { intros s [_ Hd _]. done. }
  intros [err|].
  { eapply spec_bind; [apply _|apply spec_give_back; [apply _|cbn; lia]|]. intros [].
    eapply spec_bind; [apply _|apply spec_leave_writers, _|]. intros [].
    eapply spec_bind; [apply _|apply spec_send_writable; [apply _|done]|]. intros [].
    apply (spec_fact cf base (context_error err)). { intros w [[[[_ He] _] _] _]. by apply He. }
    intros Herr. replace (with_token _ _) with (holding h) by (unfold holding, with_token, with_held; f_equal; cbn; lia).
    destruct Herr as [-> | ->]; cbn [ContextErr]; finish. }
  eapply (spec_bind _ _ _ _ _ _ (fun _ => writing 0 (h + slen chunk)) (fun _ _ => True)); [apply _| |].
  { case_bool_decide; [|finish]. eapply spec_bind; [apply _|apply spec_adjust, _|]. intros n. finish. }
  intros alone. eapply spec_bind; [apply _|apply (spec_framer_write cf base tid _ _ _ _ 0 0)|];
    [apply _|done|done|cbn; lia|done|done|].
  intros [err|].
  { apply spec_drop. apply (spec_less_held _ _ _ _ _ _ h); [lia|].
    eapply spec_bind; [apply _|apply spec_Close, _|]. intros ?. finish. }
  replace (mkOwn _ _ _ _) with (writing 0 h) by (unfold writing; f_equal; cbn; lia).
  eapply spec_bind; [apply _|apply spec_adjust, _|]. intros n.
  eapply (spec_bind _ _ _ _ _ _ _ (fun _ _ => True)); [apply _|apply spec_when; [apply _| |done]|].
  { intros _. eapply spec_bind; [apply _|apply spec_framer_flush, _|]. intros ?. finish. }
  intros []. eapply spec_bind; [apply _|apply spec_send_writable; [apply _|done]|]. intros []. finish.
Qed.

Lemma spec_write_loop tid P fuel p id last r :
  Persistent P -> (forall w, P w -> is_stream p w) -> (length r <= fuel)%nat ->
  spec tid (holding 0) P (write_loop fuel p id last r) (fun _ => holding 0) (fun _ _ => True).
Proof.
  revert P r. induction fuel as [|fuel IH]; intros P r HP Hv Hf; cbn [write_loop].
  { destruct r; [|simpl in Hf; lia]. finish. }
  case_bool_decide as Hr; [finish|].
  eapply spec_bind; [apply _|apply (spec_wait cf base tid _ _ p _ (fun _ => holding 0) (fun n => 0 < n)); [done|done|]|].
  { intros w n w' Hi Ho Hin. by apply (acquire_stream_spec cf base tid _ w p). }
  intros [err|sq]; [finish|]. apply (spec_fact cf base (0 < sq)); [by intros w [_ ?]|intros Hsq].
  eapply spec_bind; [apply _|apply (spec_wait cf base tid _ _ p _ (fun n => holding n) (fun n => 0 < n))|].
  { apply _. } { intros w [? _]. auto. }
  { intros w n w' Hi Ho Hin. destruct (acquire_conn_spec cf base tid _ w n w' Hi Ho Hin) as (? & ? & Ho' & ?). done. }
  intros [err|tq]; [finish|]. apply (spec_fact cf base (0 < tq)); [by intros w [_ ?]|intros Htq].
  set (size := if sq <? http2MaxFrameLen then sq else http2MaxFrameLen).
  set (size' := if tq <? size then tq else size). cbv zeta.
  assert (0 < size' <= http2MaxFrameLen /\ size' <= tq /\ size' <= sq) as (Hsz & Hstq & Hssq).
  { unfold size', size, http2MaxFrameLen. repeat case_match; lia. }
  assert (0 < slen (take (Z.to_nat size') r) <= size') as Hps.
  { unfold slen. rewrite length_take. destruct r; [done|]. simpl. lia. }
  set (chunk := take _ r) in *. set (r' := drop _ r).
  assert (length r' <= fuel)%nat as Hr'.
  { unfold r'. rewrite length_drop. lia. }
  clearbody chunk r' size' size.
  eapply (spec_bind _ _ _ _ _ _ _ (fun _ _ => True)); [apply _|apply spec_when; [apply _| |done]|].
  { intros _. apply spec_stream_set; [apply _| |]. { intros w [[? _] _]. auto. }
    intros s []. split; [done|]. split; [|done]. split; [done|done|]. apply add_offers. }
  intros []. eapply (spec_bind _ _ _ _ _ _ (fun _ => holding (0 + slen chunk)) (fun _ _ => True)); [apply _| |].
  { destruct (Z.ltb_spec (slen chunk) tq) as [Hlt|Hge].
    - eapply spec_post; [apply spec_give_back; [apply _|cbn; lia]|]. intros [] w _ [Ho _]. split; [|done].
      revert Ho. unfold with_held. cbn. by replace (tq - (tq - slen chunk)) with (0 + slen chunk) by lia.
    - replace (0 + slen chunk) with tq by lia. finish. }
  intros []. eapply spec_bind; [apply _|apply spec_write_chunk; [apply _| |done|lia]|]. { intros w [[[[? _] _] _] _]. auto. }
  intros [err|]; [finish|]. apply IH; [apply _| |done]. intros w [[[[[? _] _] _] _] _]. auto.
Qed.

Lemma spec_Write tid P p data last :
  Persistent P -> (forall w, P w -> is_stream p w) ->
  spec tid nothing P (Write p data last) (fun _ => nothing) (fun _ _ => True).
Proof.
  intros HP Hv. eapply spec_bind; [apply _|apply (spec_stream_section cf base tid _ _ p _ (fun _ => True)); [done|done|]|].
  { by intros s Hs. }
  intros [err|need]; [finish|]. change nothing with (holding 0).
  eapply (spec_bind _ _ _ _ _ _ _ (fun _ _ => True)); [apply _|apply spec_when; [apply _| |done]|].
  { intros _. eapply spec_bind; [apply _|apply spec_WriteHeader; [apply _| |done]|]. { intros w [? _]. auto. }
    intros err. finish. }
  intros []. eapply spec_bind; [apply _|apply spec_stream_id; [apply _|]|]. { intros w [[? _] _]. auto. }
  intros id. eapply spec_bind; [apply _|apply spec_write_loop; [apply _| |done]|]. { intros w [[[? _] _] _]. auto. }
  intros err. eapply (spec_bind _ _ _ _ _ _ _ (fun _ _ => True)); [apply _|apply spec_when; [apply _| |done]|].
  { intros _. by apply spec_writes; [apply _|]. }
  intros []. finish.
Qed.

(** ** Reading, and the metadata *)

Lemma spec_updateWindow tid o P p n :
  Persistent P -> (forall w, P w -> is_stream p w) -> o_smu o = None ->
  spec tid o P (updateWindow p n) (fun _ => o) (fun _ _ => True).
Proof.
  intros HP Hv Hno. destruct o as [tok h m smu]. cbn in Hno. subst smu.
  eapply spec_bind; [apply _|apply spec_stream_lock; done|].
  intros []. eapply spec_bind; [apply _|apply (spec_stream_get cf base tid _ _ p _ (fun _ => True)); [apply _| |done]|].
  { intros w [? _]. auto. }
  intros st. case_bool_decide. { eapply spec_post; [apply spec_stream_unlock; [apply _|done]|done]. }
  eapply spec_bind; [apply _|apply spec_release, _|]. intros [].
  eapply spec_bind; [apply _|apply (spec_on_stream cf base tid _ _ p _ (fun _ => True)); [apply _| |]|].
  { intros w [[[? _] _] _]. auto. }
  { intros s Hs. destruct (onRead (s_fc s) n) as [u f]. eexists. split; [reflexivity|].
    intros a s' [= -> ->]%list_elem_of_singleton. by destruct Hs. }
  intros u. eapply spec_bind; [apply _|apply spec_stream_id; [apply _|]|]. { intros w [[[[? _] _] _] _]. auto. }
  intros id. eapply (spec_bind _ _ _ _ _ _ _ (fun _ _ => True)); [apply _|apply spec_when; [apply _|intros _; apply spec_put, _|done]|].
  intros []. eapply spec_post; [apply spec_stream_unlock; [apply _|done]|done].
Qed.

(** A read does not panic: the context's errors are known. *)
Lemma read_step_ok choice n s :
  stream_ok s ->
  exists l, read_step choice n s = Goes l /\
    forall x s', (x, s') ∈ l -> s_id s' = s_id s /\ stream_ok s' /\ s_mu s' = s_mu s /\
      match x with Bytes _ | Failed _ => True | _ => False end.
Proof.
  intros [Hid Hd Hp]. unfold read_step. destruct (Reader_Read choice n (s_dec s)) as [x d] eqn:Hread.
  assert (reader_done d = reader_done (s_dec s) /\ x <> Panicked) as [Hdone Hx].
  { revert Hread. unfold Reader_Read. destruct (reader_err (s_dec s)); [by intros [= <- <-]|].
    destruct (reader_last (s_dec s)) as [|b l].
    2: { unfold bytes_Read. by intros [= <- <-]. }
    destruct (ready _ !! _) as [[e| |]|] eqn:Hr; [| | |by intros [= <- <-]].
    - assert (reader_done (s_dec s) = Some e) as He.
      { apply list_elem_of_lookup_2 in Hr. unfold ready in Hr. rewrite !elem_of_app in Hr.
        destruct Hr as [Hr|[Hr|Hr]].
        - destruct (reader_done (s_dec s)); [|by apply not_elem_of_nil in Hr]. apply list_elem_of_singleton in Hr as [= ->]. done.
        - destruct (reader_goAway (s_dec s)); [|by apply not_elem_of_nil in Hr]. by apply list_elem_of_singleton in Hr.
        - destruct (recvBuffer_c _); [|by apply not_elem_of_nil in Hr]. by apply list_elem_of_singleton in Hr. }
      destruct (Hd e He) as [-> | ->]; cbn [ContextErr]; by intros [= <- <-].
    - by intros [= <- <-].
    - destruct (recvBuffer_receive _) as [[m b]|]; [|by intros [= <- <-]]. destruct (recvMsg_err m); [by intros [= <- <-]|].
      unfold bytes_Read. destruct (recvMsg_data m); by intros [= <- <-]. }
  assert (stream_ok (set_s_dec d s)) as Hok by (split; [done|cbn; by rewrite Hdone|done]).
  destruct x as [b|e| |]; [| | |done]; eexists; (split; [reflexivity|]); intros x s'.
  1-2: intros [= -> ->]%list_elem_of_singleton; by repeat (split; [done|]).
  intros Hin. by apply not_elem_of_nil in Hin.
Qed.

Lemma spec_Stream_Read tid P p choice n :
  Persistent P -> (forall w, P w -> is_stream p w) ->
  spec tid nothing P (Stream_Read p choice n) (fun _ => nothing) (fun _ _ => True).
Proof.
  intros HP Hv. eapply spec_bind; [apply _|apply (spec_on_stream cf base tid _ _ p _ (fun x => match x with Bytes _ | Failed _ => True | _ => False end)); [done|done|]|].
  { intros s Hs. by apply read_step_ok. }
  intros [b|e| |].
  - eapply spec_bind; [apply _|apply spec_updateWindow; [apply _| |done]|]. { intros w [? _]. auto. }
    intros []. finish.
  - finish.
  - apply (spec_fact cf base False); [by intros w [_ ?]|done].
  - apply (spec_fact cf base False); [by intros w [_ ?]|done].
Qed.

Lemma spec_metadata tid P p (f : Stream -> option go_error * Stream) :
  Persistent P -> (forall w, P w -> is_stream p w) ->
  (forall s, stream_ok s -> let '(_, s') := f s in s_id s' = s_id s /\ stream_ok s' /\ s_mu s' = s_mu s) ->
  spec tid nothing P (stream_section p f) (fun _ => nothing) (fun _ _ => True).
Proof.
  intros HP Hv Hf. apply (spec_stream_section cf base tid _ _ p _ (fun _ => True)); [done|done|].
  intros s Hs. specialize (Hf s Hs). destruct (f s). by destruct Hf as (? & ? & ?).
Qed.

Lemma spec_SetHeader tid P p md :
  Persistent P -> (forall w, P w -> is_stream p w) ->
  spec tid nothing P (SetHeader p md) (fun _ => nothing) (fun _ _ => True).
Proof.
  intros HP Hv. apply spec_metadata; [done|done|]. intros s Hs. destruct (s_headerOk s || _); [done|].
  case_bool_decide; [done|]. destruct Hs. split; [done|]. split; [by split|done].
Qed.

Lemma spec_SetTrailer tid P p md :
  Persistent P -> (forall w, P w -> is_stream p w) ->
  spec tid nothing P (SetTrailer p md) (fun _ => nothing) (fun _ _ => True).
Proof.
  intros HP Hv. unfold SetTrailer. case_bool_decide; [finish|]. apply spec_metadata; [done|done|]. intros s Hs.
  destruct Hs. split; [done|]. split; [by split|done].
Qed.

Lemma spec_SetSendCompress tid P p str :
  Persistent P -> (forall w, P w -> is_stream p w) ->
  spec tid nothing P (SetSendCompress p str) (fun _ => nothing) (fun _ _ => True).
Proof.
  intros HP Hv. apply spec_stream_set; [done|done|]. intros s Hs. destruct Hs. split; [done|]. split; [by split|done].
Qed.
End writes.
