(* ===== verification/ServerReads.v ===== *)
(** * The server's HTTP/2 transport: the reader, the controller and keepalive

    The goroutines of ServerLoops.v keep the invariant. *)

From stdpp Require Import base list strings gmap sorting relations.
From Stdlib Require Import ZArith Strings.Byte Lia.
From S2P Require Import Prelude GoStrings GrpcStatus GrpcTransport.
From S2P Require Import Hpack HpackTable HpackEncoder HpackDecoder HpackSync H2Errors GrpcHeaders H2Frame H2Framer H2Calls.
From S2P Require Import H2Order H2Parse H2ReadTotal GoBytes GrpcHeaderProps GrpcFramer GrpcFramerProps.
From S2P Require Import Threads ServerState ServerTransport ServerLoops ServerInv ServerSteps ServerFrames ServerClose ServerWrites.
Open Scope Z_scope.

Lemma sorted_snoc (l : list Z) x :
  StronglySorted Z.lt l -> (forall y, last l = Some y -> y < x) -> StronglySorted Z.lt (l ++ [x]).
Proof.
  intros Hs Hlast. apply StronglySorted_app_2; [|done|by repeat constructor].
  intros y z Hy ->%list_elem_of_singleton. destruct (last l) as [m|] eqn:Hm.
  2: { apply last_None in Hm as ->. by apply not_elem_of_nil in Hy. }
  specialize (Hlast m eq_refl). apply last_Some in Hm as (l' & ->). apply elem_of_app in Hy as [Hy|Hy].
  - apply StronglySorted_app_1_elem_of with (x1:=y) (x2:=m) in Hs; [lia|done|by left].
  - apply list_elem_of_singleton in Hy. lia.
Qed.

(** ** The fields of a header block

    Taking them in neither panics nor runs on. *)

Definition returns {E A} (x : res E A) : Prop := match x with Ok _ | Err _ => True | _ => False end.

Lemma returns_bind {E A B} (x : res E A) (k : A -> res E B) : returns x -> (forall a, returns (k a)) -> returns (x ≫= k).
Proof. destruct x; simpl; auto. Qed.

Lemma returns_wrap {E A} (msg : E -> string) code (x : res E A) : returns x -> returns (wrap msg code x).
Proof. by destruct x. Qed.

Lemma parse_digits_returns b max n s : returns (parse_digits b max n s).
Proof. revert n. induction s as [|c s IH]; intros n; cbn [parse_digits]; [done|]. by repeat case_match. Qed.

Lemma ParseInt_returns s : returns (ParseInt s).
Proof.
  unfold ParseInt. destruct (match s with [] => _ | _ => _ end) as [neg digits]. apply returns_bind.
  - unfold ParseUint. destruct digits; [done|apply parse_digits_returns].
  - intros un. by repeat case_match.
Qed.

Lemma decodeTimeout_returns s : returns (decodeTimeout s).
Proof.
  unfold decodeTimeout. destruct (Z.ltb_spec (slen s) 2) as [Hs|Hs]; [done|]. apply returns_bind.
  - unfold index. destruct (Z.ltb_spec (slen s - 1) 0); [lia|].
    destruct (lookup_lt_is_Some_2 s (Z.to_nat (slen s - 1))) as [x ->]; [unfold slen in *; lia|done].
  - intros u. destruct (timeoutUnitToDuration u); [|done]. apply returns_bind.
    + unfold slice. zcases; try done; lia.
    + intros ds. pose proof (ParseInt_returns ds). by destruct (ParseInt ds).
Qed.

Lemma processHeaderFields_returns us d fs :
  (forall b, returns (us b)) -> returns (processHeaderFields us d fs).
Proof.
  intros Hus. revert d. induction fs as [|f fs IH]; intros d; cbn [processHeaderFields]; [done|].
  apply returns_bind; [|done]. clear IH. unfold processHeaderField. repeat case_match; try done.
  - apply returns_bind; [|done]. apply returns_wrap. unfold Atoi. pose proof (ParseInt_returns (Value f)).
    by destruct (ParseInt (Value f)).
  - apply returns_bind; [|intros v; apply returns_bind; [|done]; apply returns_wrap, Hus].
    apply returns_wrap. pose proof (base64_decode_returns) as Hb. unfold decodeBinHeader, DecodeString.
    repeat case_match; match goal with |- returns (base64_decode ?p ?i ?s) =>
      destruct (Hb p i s) as [? ?]; by destruct (base64_decode p i s) end.
  - apply returns_bind; [|done]. apply returns_wrap, decodeTimeout_returns.
  - by destruct (decodeMetadataHeader_returns (Name f) (Value f)).
  - by destruct (decodeMetadataHeader_returns (Name f) (Value f)).
Qed.

Section reads.
Context {W : Type} `{Connection W} (cf : setup) (base : list byte) (unmarshalStatus : list byte -> res string Status).
Context (Hmax : 0 <= maxStreams cf < 2 ^ 32).
(** What the parameter [unmarshalStatus] may do: an error, but no panic. *)
Context (Hunmarshal : forall b, returns (unmarshalStatus b)).
#[local] Abbreviation server := (server W).
#[local] Abbreviation server_ok := (server_ok cf base).
#[local] Abbreviation spec := (spec cf base).
#[local] Abbreviation rely := (rely cf).
#[local] Abbreviation guarantee := (Threads.guarantee rely).
#[local] Abbreviation exempt := (exempt cf).
#[local] Abbreviation Persistent := (ServerInv.Persistent cf).

Ltac finish := apply spec_ret; [apply _|done].
Ltac step H := eapply spec_bind; [apply _|H|].

(** ** [operateHeaders] *)

Lemma admit_section_ok tid o s (w : server) :
  server_ok w -> owns tid o w -> (s_id s mod 2 = 1 -> forall q, offers q -> stream_ok (set_s_sendQuotaPool q s)) ->
  match admit_section cf s tid w with
  | Goes l => forall a w', (a, w') ∈ l ->
      server_ok w' /\ guarantee tid w w' /\ owns tid o w' /\ (forall p, a = Accepted p -> is_stream p w')
  | _ => exempt w
  end.
Proof.
  intros Hi Ho Hs. unfold admit_section.
  assert (forall a, (forall p, a <> Accepted p) -> forall b w', (b, w') ∈ [(a, w)] ->
    server_ok w' /\ guarantee tid w w' /\ owns tid o w' /\ (forall p, b = Accepted p -> is_stream p w')) as Hsame.
  { intros a Ha b w' [= -> ->]%list_elem_of_singleton. split; [done|]. split; [intros t _; reflexivity|].
    split; [done|]. intros p ->. by destruct (Ha p). }
  case_bool_decide as Hst; cbn [negb]; [|by apply Hsame].
  destruct (Z.leb_spec (maxStreams cf) (uint32 (Z.of_nat (base.size (default ∅ (activeStreams w)))))) as [Hn|Hn]; [by apply Hsame|].
  destruct (negb (s_id s mod 2 =? 1) || (s_id s <=? maxStreamID w)) eqn:Hid; [by apply Hsame|]. clear Hsame.
  apply orb_false_iff in Hid as [Hodd Hlt]. apply negb_false_iff in Hodd.
  destruct (activeStreams w) as [active|] eqn:Hact; [|by destruct (ok_nil _ _ _ Hi Hact)].
  set (p := length (streams w)). set (s' := set_s_sendQuotaPool _ s).
  assert (stream_ok s') as Hs' by (apply Hs, new_offers; lia). change (default ∅ (Some active)) with active in Hn.
  set (w1 := set_streams _ _).
  assert (last (s_id <$> streams w) = None \/ exists y, last (s_id <$> streams w) = Some y /\ y < s_id s) as Hlast.
  { pose proof (ok_max _ _ _ Hi) as Hm. destruct (last (s_id <$> streams w)) as [y|]; [right|by left].
    exists y. simpl in Hm. split; [done|lia]. }
  assert (server_ok w1) as Hi1.
  { pose proof Hi as Hi'. destruct Hi'. split; try done; cbn.
    - intros id code debug Hin. by destruct (ok_goaway id code debug Hin).
    - intros q s2 [Hq|[Hge Hq]]%lookup_app_Some; [by eapply ok_streams|].
      apply list_lookup_singleton_Some in Hq as [_ <-]. done.
    - rewrite fmap_app. apply sorted_snoc; [done|]. intros y Hy.
      destruct Hlast as [Hl|(y' & Hl & ?)]; [congruence|]. rewrite Hl in Hy. by injection Hy as <-.
    - rewrite fmap_app. cbn [fmap list_fmap]. by rewrite last_snoc.
    - intros active' [= <-]. destruct (ok_active active Hact) as [Hsz Hok]. split.
      + pose proof (map_size_insert (s_id s) p active) as Hins. unfold uint32 in Hn. rewrite Z.mod_small in Hn by lia.
        rewrite Hins. destruct (active !! s_id s); unfold Datatypes.id; lia.
      + intros id q. destruct (decide (s_id s = id)) as [<-|Hne].
        * rewrite lookup_insert_eq. intros [= <-]. exists s'. split; [|done]. by rewrite lookup_app_r, Nat.sub_diag by lia.
        * rewrite lookup_insert_ne by done. intros Hq. destruct (Hok id q Hq) as (s2 & Hs2 & <-). exists s2.
          split; [|done]. rewrite lookup_app_l; [done|]. by eapply lookup_lt_Some.
    - intros Hd. rewrite Hst. split; [done|]. intros Hc. done.
    - intros q Hq. rewrite length_app. specialize (ok_handled q Hq). simpl. lia. }
  assert (forall t, rely t w w1) as Hr.
  { intros t. split; split; eauto; try done; cbn.
    - intros q s2 Hq. exists s2. split; [|done]. rewrite lookup_app_l; [done|]. by eapply lookup_lt_Some.
    - intros q s2 Hq Hm. exists s2. split; [|done]. rewrite lookup_app_l; [done|]. by eapply lookup_lt_Some. }
  assert (owns tid o w1) as Ho1 by (eapply owns_stable; [apply Hr|exact Ho]).
  assert (is_stream p w1) as Hp by (unfold is_stream; cbn; rewrite length_app; simpl; lia).
  intros a w' [= -> ->]%list_elem_of_singleton. case_bool_decide.
  - destruct (relevant_step cf base tid o w1 (set_idle None w1) eq_refl Hi1 Ho1) as (Hi2 & Hg2 & Ho2).
    split; [done|]. split; [intros t Ht; etransitivity; [apply Hr|by apply Hg2]|]. split; [done|]. by intros q [= <-].
  - split; [done|]. split; [intros t _; apply Hr|]. split; [done|]. by intros q [= <-].
Qed.

Lemma new_stream_ok id ended st start q :
  0 < id < 2 ^ 31 -> id mod 2 = 1 -> offers q -> stream_ok (set_s_sendQuotaPool q (new_stream id ended st start)).
Proof.
  intros Hid Hodd Hq. split; [done| |done]. cbn. intros e. unfold is_done.
  destruct (if timeoutSet st then _ else None) as [d|]; [|done]. destruct (d <=? start); [|done]. intros [= <-]. by right.
Qed.

(** A stream that the handler is given. *)
Lemma spec_handle tid o P p :
  Persistent P -> (forall w, P w -> is_stream p w) ->
  spec tid o P (Threads.writes (fun w => set_handled (handled w ++ [p]) w)) (fun _ => o) (fun _ _ => True).
Proof.
  intros HP Hv. apply spec_act; [done|intros; apply _|]. intros w Hi Ho Hw a w' [= -> ->]%list_elem_of_singleton.
  assert (forall t, rely t w (set_handled (handled w ++ [p]) w)) as Hr by (intros t; split; split; eauto).
  split; [|split; [intros t _; apply Hr|split; [eapply owns_stable; [apply Hr|exact Ho]|done]]].
  destruct Hi. split; try done. cbn. intros q [Hq| ->%list_elem_of_singleton]%elem_of_app; [by apply ok_handled|by apply Hv].
Qed.

Lemma spec_operateHeaders tid P h fields :
  Persistent P -> 0 < StreamID h < 2 ^ 31 ->
  spec tid nothing P (operateHeaders cf unmarshalStatus h fields) (fun _ => nothing) (fun _ _ => True).
Proof.
  intros HP Hid. unfold operateHeaders.
  pose proof (processHeaderFields_returns unmarshalStatus decodeState_zero fields Hunmarshal) as Hret.
  destruct (processHeaderFields unmarshalStatus decodeState_zero fields) as [st|e| |]; [|clear Hret|done|done].
  2: { eapply (spec_bind _ _ _ _ _ _ (fun _ => nothing) (fun _ _ => True)); [apply _| |intros []; finish].
       destruct (reset_code e); [apply spec_put, _|finish]. }
  step ltac:(apply (spec_reads cf base tid _ _ _ (fun _ => True)); [apply _|done]). intros start. cbv zeta.
  destruct (negb _). { step ltac:(apply spec_put, _). intros []. finish. }
  step ltac:(apply (spec_section cf base tid _ _ _ (fun x w => forall p, x = Accepted p -> is_stream p w));
    [apply _|intros; apply _|]).
  { intros w Hi Ho _. apply admit_section_ok; [done|done|]. intros Hodd q Hq. by apply new_stream_ok. }
  intros [| | |p]; [finish| |finish|].
  - step ltac:(apply spec_put, _). intros []. finish.
  - step ltac:(apply (spec_handle tid _ _ p); [apply _|]). { intros w [_ Hp]. by apply Hp. } intros []. finish.
Qed.

(** ** The handlers of frames *)

Lemma getStream_ok tid o P id :
  Persistent P ->
  spec tid o P (getStream id) (fun _ => o) (fun x w => forall p, x = Some p -> is_stream p w).
Proof.
  intros HP. apply spec_section; [done|intros; apply _|]. intros w Hi Ho Hw a w' [= -> ->]%list_elem_of_singleton.
  split; [done|]. split; [intros t _; reflexivity|]. split; [done|]. intros p Hp.
  destruct (activeStreams w) as [active|] eqn:Ha; simpl in Hp; [|by apply lookup_empty_Some in Hp].
  destruct (ok_active _ _ _ Hi active Ha) as [_ Hact]. destruct (Hact id p Hp) as (s & Hs & _).
  apply is_stream_lookup. by exists s.
Qed.

(** The stream is known from one of the facts so far. *)
Ltac find_stream Hw :=
  first [ solve [auto]
        | let Hr := fresh in destruct Hw as [Hw Hr]; first [ solve [apply Hr; reflexivity] | find_stream Hw ] ].
Ltac stream_known := let w := fresh in let Hw := fresh in intros w Hw; cbn beta in Hw; find_stream Hw.

Lemma spec_deliver tid o P p data :
  Persistent P -> (forall w, P w -> is_stream p w) -> spec tid o P (deliver p data) (fun _ => o) (fun _ _ => True).
Proof.
  intros HP Hv. apply spec_when; [done| |done]. intros _. apply spec_stream_set; [done|done|]. by intros s [].
Qed.

Lemma spec_deliver_end tid o P p :
  Persistent P -> (forall w, P w -> is_stream p w) -> spec tid o P (deliver_end p) (fun _ => o) (fun _ _ => True).
Proof.
  intros HP Hv. step ltac:(apply (spec_stream_section cf base tid _ _ p _ (fun _ => True)); [done|done|]).
  { intros s Hs. case_bool_decide; [done|]. by destruct Hs. }
  intros []. apply spec_stream_set; [apply _|stream_known|]. by intros s [].
Qed.

Lemma spec_account tid P p h data :
  Persistent P -> (forall w, P w -> is_stream p w) ->
  spec tid nothing P (account p h data) (fun _ => nothing) (fun _ _ => True).
Proof.
  intros HP Hv. unfold account. cbv zeta.
  eapply (spec_bind _ _ _ _ _ _ _ (fun _ _ => True)); [apply _|apply spec_when; [apply _|intros _; apply spec_release, _|done]|].
  intros []. step ltac:(apply spec_stream_lock; [apply _|stream_known|done]).
  intros []. step ltac:(apply (spec_stream_get cf base tid _ _ p _ (fun _ => True)); [apply _|stream_known|done]).
  intros st. case_bool_decide.
  { step ltac:(apply spec_stream_unlock; [apply _|done]). intros []. step ltac:(apply spec_release, _). intros []. finish. }
  step ltac:(apply spec_stream_id; [apply _|stream_known]).
  intros id. step ltac:(apply (spec_on_stream cf base tid _ _ p _ (fun _ => True)); [apply _|stream_known|]).
  { intros s Hs. destruct (onData (s_fc s) (Length h)) as [e f]. eexists. split; [reflexivity|].
    intros a s' [= -> ->]%list_elem_of_singleton. by destruct Hs. }
  intros [err|].
  { step ltac:(apply spec_stream_unlock; [apply _|done]). intros [].
    step ltac:(apply (spec_closeStream cf base tid (with_smu _ None)); [apply _|stream_known|done]). intros [].
    step ltac:(apply spec_put, _). intros []. finish. }
  eapply (spec_bind _ _ _ _ _ _ _ (fun _ _ => True)); [apply _|apply spec_when; [apply _| |done]|].
  { intros _. step ltac:(apply (spec_on_stream cf base tid _ _ p _ (fun _ => True)); [apply _|stream_known|]).
    { intros s Hs. destruct (onRead (s_fc s) _) as [u f]. eexists. split; [reflexivity|].
      intros a s' [= -> ->]%list_elem_of_singleton. by destruct Hs. }
    intros u. apply spec_when; [apply _|intros _; apply spec_put, _|done]. }
  intros []. step ltac:(apply spec_stream_unlock; [apply _|done]). intros [].
  step ltac:(apply spec_deliver; [apply _|stream_known]). intros []. finish.
Qed.

Lemma spec_handleData tid P f :
  Persistent P -> valid (Header f) = true ->
  spec tid nothing P (handleData f) (fun _ => nothing) (fun _ _ => True).
Proof.
  intros HP Hval. step ltac:(apply spec_fc_onData, _). intros [err|].
  { step ltac:(apply spec_Close, _). intros ?. finish. }
  step ltac:(apply getStream_ok, _). intros [p|]; [|apply spec_release, _].
  unfold octets, checkValid. rewrite Hval. cbn [mbind res_bind].
  eapply (spec_bind _ _ _ _ _ _ (fun _ => nothing) (fun _ _ => True)); [apply _| |].
  { destruct (0 <? Length (Header f)); [|finish]. apply spec_account; [apply _|stream_known]. }
  intros further. apply spec_when; [apply _| |done]. intros _. apply spec_deliver_end; [apply _|stream_known].
Qed.

(** Closing the stream of an id, if there is one. *)
Lemma spec_close_id tid P id :
  Persistent P ->
  spec tid nothing P (s ← getStream id; match s with Some p => closeStream p | None => mret tt end)
    (fun _ => nothing) (fun _ _ => True).
Proof.
  intros HP. step ltac:(apply getStream_ok, _). intros [p|]; [|finish]. apply spec_closeStream; [apply _|stream_known|done].
Qed.

Lemma each_setting_ok {A} p (g : Setting -> A -> A) x :
  slen p mod 6 = 0 -> exists y, each_setting (A:=A) p (fun s x => Ok (g s x)) x = Ok y.
Proof.
  intros Hp. assert (exists k, length p = 6 * k)%nat as [k Hk].
  { exists (Z.to_nat (slen p / 6)). pose proof (Z_div_mod_eq_full (slen p) 6). unfold slen in *. lia. }
  clear Hp. revert p x Hk. induction k as [|k IH]; intros p x Hk.
  - destruct p; [by exists x|simpl in Hk; lia].
  - do 6 (destruct p as [|? p]; [simpl in Hk; lia|]). cbn [each_setting mbind res_bind]. apply IH. simpl in Hk. lia.
Qed.

Lemma spec_handleSettings tid P h payload :
  Persistent P -> valid h = true -> slen payload mod 6 = 0 ->
  spec tid nothing P (handleSettings h payload) (fun _ => nothing) (fun _ _ => True).
Proof.
  intros HP Hval Hlen. unfold handleSettings. destruct (Has _ _); [finish|].
  unfold ForeachSetting, checkValid. rewrite Hval. cbn [mbind res_bind].
  destruct (each_setting_ok payload (fun s ss => ss ++ [s]) [] Hlen) as (ss & ->). apply spec_put, _.
Qed.

Lemma spec_handlePing tid P h data :
  Persistent P -> spec tid nothing P (handlePing cf h data) (fun _ => nothing) (fun _ _ => True).
Proof.
  intros HP. unfold handlePing. destruct (Has _ _); [finish|]. step ltac:(apply spec_put, _). intros [].
  step ltac:(apply (spec_reads cf base tid _ _ _ (fun _ => True)); [apply _|done]). intros t.
  step ltac:(apply spec_flag; [apply _|done]). intros reset.
  eapply (spec_bind _ _ _ _ _ _ (fun _ => nothing) (fun _ _ => True)); [apply _| |].
  { destruct reset; [by apply spec_writes; [apply _|]|].
    step ltac:(apply (spec_quiet cf base tid _ _ _ (fun _ _ => True)); [apply _|intros; apply _|]).
    { intros w _ _. destruct (mu w).
      - eexists. split; [reflexivity|]. intros a w' Hin. by apply not_elem_of_nil in Hin.
      - eexists. split; [reflexivity|]. by intros a w' [= -> ->]%list_elem_of_singleton. }
    intros ns. step ltac:(apply spec_writes; [apply _|]). { intros w. by destruct (pinged_within _ _ _). }
    intros []. step ltac:(apply (spec_reads cf base tid _ _ _ (fun _ => True)); [apply _|done]). intros strikes.
    apply spec_when; [apply _|intros _; apply spec_put, _|done]. }
  intros []. by apply spec_writes; [apply _|].
Qed.

Lemma spec_handleWindowUpdate tid P id incr :
  Persistent P -> 0 < incr < 2 ^ 31 ->
  spec tid nothing P (handleWindowUpdate id incr) (fun _ => nothing) (fun _ _ => True).
Proof.
  intros HP Hincr. unfold handleWindowUpdate. destruct (id =? 0); [apply spec_grant; [apply _|lia]|].
  step ltac:(apply getStream_ok, _). intros [p|]; [|finish].
  apply spec_stream_set; [apply _|stream_known|]. intros s []. split; [done|]. split; [|done].
  split; [done|done|]. apply add_offers.
Qed.

(** ** The reader *)

Lemma spec_handle_frame tid P f :
  Persistent P -> frame_read (Ok f) ->
  spec tid nothing P (handle_frame cf unmarshalStatus f) (fun _ => nothing) (fun _ _ => True).
Proof.
  intros HP [Hwf Hval]. pose proof Hwf as (Hid & _ & Hf).
  destruct f as [h d|h p b|h p|h c|h p|h i b|h b|h i c b|h i|h b|h p|h p fs t]; cbn [handle_frame]; try finish.
  - by apply spec_handleData.
  - by apply spec_close_id.
  - destruct Hf as (_ & _ & _ & Hlen & _). by apply spec_handleSettings.
  - by apply spec_handlePing.
  - destruct Hf as [_ Hincr]. by apply spec_handleWindowUpdate.
  - cbn in Hf, Hid. step ltac:(apply spec_operateHeaders; [apply _|lia]). intros close.
    apply spec_when; [apply _| |done]. intros _. step ltac:(apply spec_Close, _). intros ?. finish.
Qed.

Lemma spec_reader_round tid P :
  Persistent P -> spec tid nothing P (reader_round cf unmarshalStatus tt) (fun _ => nothing) (fun _ _ => True).
Proof.
  intros HP. step ltac:(apply spec_framer_read, _). intros x. step ltac:(by apply spec_writes; [apply _|]). intros [].
  apply (spec_fact cf base (frame_read x)); [by intros w [[_ ?] _]|intros Hx].
  assert (forall P', Persistent P' ->
    spec tid nothing P' (_ ← Close; mret None) (fun _ => nothing) (fun (_ : option unit) _ => True)) as Hclose.
  { intros P' HP'. step ltac:(apply spec_Close, _). intros ?. finish. }
  destruct x as [f|e| |]; [| |apply Hclose, _|apply Hclose, _].
  - step ltac:(apply spec_handle_frame; [apply _|done]). intros []. finish.
  - destruct e; try apply Hclose, _. step ltac:(apply getStream_ok, _). intros [p|].
    + step ltac:(apply spec_closeStream; [apply _|stream_known|done]). intros [].
      step ltac:(apply spec_put, _). intros []. finish.
    + step ltac:(apply (spec_ret cf base tid _ _ tt (fun _ _ => True)); [apply _|done]). intros [].
      step ltac:(apply spec_put, _). intros []. finish.
Qed.

Lemma ReadFull_shorter rd n : slen (rest (ReadFull rd n).2) <= slen (rest rd).
Proof.
  unfold ReadFull. destruct (n <=? slen (rest rd)); simpl; [|destruct (rest rd); simpl; pose proof (slen_nonneg (rest rd)); unfold slen in *; simpl; lia].
  unfold slen. rewrite length_drop. lia.
Qed.

Lemma spec_read_preface tid P :
  Persistent P -> spec tid nothing P read_preface (fun _ => nothing) (fun _ _ => True).
Proof.
  intros HP. apply spec_act; [done|intros; apply _|]. intros w Hi Ho Hw.
  pose proof (ReadFull_shorter (r (fr_read (fr w))) (slen clientPreface)) as Hle. destruct (ReadFull _ _) as [x rd].
  intros a w' [= -> ->]%list_elem_of_singleton. split; [|split; [intros t _; apply set_fr_rely|]].
  - apply set_reader_ok; [done|done|]. apply framer_safe_shorter; [apply (ok_reader _ _ _ Hi)|done].
  - split; [|done]. eapply owns_stable; [apply (set_fr_rely cf tid)|exact Ho].
Qed.

Lemma spec_HandleStreams tid P :
  Persistent P -> spec tid nothing P HandleStreams (fun _ => nothing) (fun _ _ => True).
Proof.
  intros HP. assert (forall P', Persistent P' ->
    spec tid nothing P' (_ ← Close; mret None) (fun _ => nothing) (fun (_ : option unit) _ => True)) as Hclose.
  { intros P' HP'. step ltac:(apply spec_Close, _). intros ?. finish. }
  step ltac:(apply spec_read_preface, _). intros [|]; cbn [negb]; [|apply Hclose, _].
  step ltac:(apply spec_framer_read, _). intros x.
  apply (spec_fact cf base (frame_read x)); [by intros w [_ ?]|intros Hx].
  destruct x as [f|e| |]; try apply Hclose, _. step ltac:(by apply spec_writes; [apply _|]). intros [].
  destruct f; try apply Hclose, _. destruct Hx as ((_ & _ & _ & _ & _ & Hlen & _) & Hval).
  step ltac:(apply spec_handleSettings; [apply _|done|done]). intros []. finish.
Qed.

(** ** The controller *)

Lemma spec_applySettings tid P ss locked :
  Persistent P ->
  spec tid (with_mu (writing 0 0) locked) P (apply_settings ss locked) (fun _ => writing 0 0) (fun _ _ => True).
Proof.
  revert P locked. induction ss as [|s ss IH]; intros P locked HP; cbn [apply_settings].
  { destruct locked; cbn [when]; [|finish]. eapply spec_post; [apply spec_unlock_mu; done|done]. }
  destruct (_ =? _); [|by apply IH]. step ltac:(apply spec_lock_mu, _). intros [].
  step ltac:(apply (spec_quiet cf base tid _ _ _ (fun ps w => Forall (fun p => is_stream p w) ps)); [apply _|intros; apply _|]).
  { intros w Hi _. eexists. split; [reflexivity|]. intros ps w' [= -> ->]%list_elem_of_singleton. split; [done|].
    apply Forall_forall. intros p Hp. apply list_elem_of_fmap in Hp as ([id q] & -> & Hq). apply elem_of_map_to_list in Hq.
    destruct (activeStreams w) as [active|] eqn:Ha; [|simpl in Hq; by apply lookup_empty_Some in Hq].
    destruct (ok_active _ _ _ Hi active Ha) as [_ Hact]. destruct (Hact id q Hq) as (s2 & Hs2 & _).
    apply is_stream_lookup. by exists s2. }
  intros ps. step ltac:(apply spec_choose, _). intros ps'.
  step ltac:(apply (spec_reads cf base tid _ _ _ (fun _ => True)); [apply _|done]). intros quota.
  step ltac:(apply spec_each; [apply _|]).
  { intros p Hp. apply spec_stream_set; [apply _| |].
    - intros w [[[_ Hall] Hperm] _]. apply permutations_Permutation in Hperm. rewrite Forall_forall in Hall.
      apply Hall. by rewrite Hperm.
    - intros s2 []. split; [done|]. split; [|done]. split; [done|done|]. apply add_offers. }
  intros []. step ltac:(by apply spec_writes; [apply _|]). intros []. apply (IH _ true), _.
Qed.

(** What the controller writes is no data, and a GOAWAY carries the id of the last stream. *)
Lemma spec_control_write tid P b c :
  Persistent P -> order_next 0 (frame_of c) = Some 0 -> quota_used c = 0 ->
  (forall w id code debug, P w -> c = CGoAway id code debug -> frozen id w) ->
  spec tid (writing 0 0) P (framer_write b c) (fun _ => writing 0 0) (fun _ _ => True).
Proof.
  intros HP Ho Hq Hgo. eapply spec_post; [apply (spec_framer_write cf base tid _ _ _ _ 0 0); try done; cbn; rewrite ?Hq; done|].
  intros [err|] w _ [Hown _]; (split; [|done]); [done|]. revert Hown. by rewrite Hq.
Qed.

Definition turn (b : bool) : own := if b then writing 0 0 else nothing.

Lemma spec_control tid P i :
  Persistent P -> spec tid (writing 0 0) P (control i) turn (fun _ _ => True).
Proof.
  intros HP. assert (forall P' c, Persistent P' -> order_next 0 (frame_of c) = Some 0 -> quota_used c = 0 ->
    (forall id code debug, c <> CGoAway id code debug) ->
    spec tid (writing 0 0) P' (_ ← framer_write true c; mret true) turn (fun _ _ => True)) as Hwrite.
  { intros P' c HP' Ho Hq Hgo. step ltac:(apply spec_control_write; [apply _|done|done|]).
    { intros w id code debug _ ->. by destruct (Hgo id code debug). }
    intros ?. by apply (spec_ret cf base tid (turn true)); [apply _|]. }
  destruct i as [id incr|ack ss|id code|code debug| |ack data]; cbn [control]; try by apply Hwrite.
  - destruct ack; [|by apply Hwrite]. step ltac:(apply spec_control_write; [apply _|done|done|done]). intros ?.
    step ltac:(apply (spec_applySettings tid _ ss false), _). intros [].
    by apply (spec_ret cf base tid (turn true)); [apply _|].
  - step ltac:(apply (spec_section cf base tid _ _ _ (fun x w => forall id, x = Some id -> frozen id w)); [apply _|intros; apply _|]).
    { intros w Hi Ho _. unfold goAway_section. case_bool_decide as Hc; intros a w' [= -> ->]%list_elem_of_singleton.
      { split; [done|]. split; [intros t _; reflexivity|]. by split. }
      assert (forall t, rely t w (set_state draining w)) as Hr by (intros t; split; split; eauto; done).
      split; [|split; [intros t _; apply Hr|split; [eapply owns_stable; [apply Hr|exact Ho]|by intros id [= <-]]]].
      destruct Hi. split; try done; cbn.
      - intros id code' debug' Hin. by destruct (ok_goaway id code' debug' Hin).
      - intros Hd. destruct (ok_closing Hd) as [Hc1 Hc2]. split; [intros Hn; by destruct (Hc (Hc1 Hn))|done].
      - intros Hd. destruct (ok_closer Hd) as [Hc1 Hc2]. split; [done|]. intros Hn. by destruct (Hc (Hc2 Hn)).
      - intros Hd Hs. by destruct (Hc (ok_shutdown Hd Hs)). }
    intros [sid|].
    2: { apply (spec_drop cf base). by apply (spec_ret cf base tid nothing); [apply _|]. }
    step ltac:(apply spec_control_write; [apply _|done|done|]).
    { intros w id code' debug' [_ Hf] [= <- <- <-]. by apply Hf. }
    intros ?. eapply (spec_bind _ _ _ _ _ _ (fun _ => writing 0 0) (fun _ _ => True)); [apply _| |].
    + apply spec_when; [apply _| |done]. intros _. step ltac:(apply spec_Close, _). intros ?. finish.
    + intros []. by apply (spec_ret cf base tid (turn true)); [apply _|].
  - step ltac:(apply spec_framer_flush, _). intros ?. by apply (spec_ret cf base tid (turn true)); [apply _|].
Qed.

Lemma spec_controller tid P :
  Persistent P -> spec tid nothing P (controller tt) (fun _ => nothing) (fun _ _ => True).
Proof.
  intros HP. step ltac:(apply (spec_quiet cf base tid _ _ _ (fun _ _ => True)); [apply _|intros; apply _|]).
  { intros w _ _. eexists. split; [reflexivity|]. intros a w' [Hin|Hin]%elem_of_app.
    - destruct (recvBuffer_receive _) as [[i b]|]; [|by apply not_elem_of_nil in Hin].
      by apply list_elem_of_singleton in Hin as [= -> ->].
    - destruct (shutdownChan w); [|by apply not_elem_of_nil in Hin]. by apply list_elem_of_singleton in Hin as [= -> ->]. }
  intros [i|]; [|finish].
  eapply (spec_bind _ _ _ _ _ _ turn (fun _ _ => True)); [apply _| |].
  { apply spec_act; [apply _|intros; apply _|]. intros w Hi Ho _ a w' [Hin|Hin]%elem_of_app.
    - apply list_elem_of_fmap in Hin as ([[] w2] & [= -> ->] & Hin).
      destruct (take_writable_spec cf base tid nothing w tt w2 Hi Ho Hin) as (? & ? & ?). done.
    - destruct (shutdownChan w); [|by apply not_elem_of_nil in Hin]. apply list_elem_of_singleton in Hin as [= -> ->].
      split; [done|]. split; [intros t _; reflexivity|done]. }
  intros [|]; cbn [negb turn]; [|finish]. step ltac:(apply spec_control, _). intros [|]; cbn [turn]; [|finish].
  step ltac:(apply spec_send_writable; [apply _|done]). intros []. finish.
Qed.

(** ** [keepalive] *)

(** By default the timers for connections that are idle or old never fire. *)
Definition timers_ok (k : timers) : Prop :=
  default_keepalive cf = true -> maxIdle k = Some max_int64 /\ maxAge k = Some max_int64.

Definition alive (k : option timers) : Prop := match k with Some k => timers_ok k | None => True end.

Lemma spec_reset tid P d (E : timer -> Prop) :
  Persistent P -> (forall t, 0 <= t -> E (reset_timer t d)) ->
  spec tid nothing P (reset d) (fun _ => nothing) (fun t _ => E t).
Proof.
  intros HP HE. step ltac:(apply (spec_reads cf base tid _ _ _ (fun t => 0 <= t)); [apply _|]).
  { intros w Hi _. apply (ok_clock _ _ _ Hi). }
  intros t. apply spec_ret; [apply _|]. intros w _ [_ Ht]. by apply HE.
Qed.

Lemma spec_stop tid P k :
  Persistent P -> spec tid nothing P (stop_timers k) (fun _ => nothing) (fun k _ => alive k).
Proof.
  intros HP. apply (spec_quiet cf base tid _ _ _ (fun k _ => alive k)); [apply _|intros; apply _|]. intros w _ _.
  destruct (maxIdle k), (maxAge k), (keepalive_timer k); eexists; (split; [reflexivity|]); intros a w' Hin;
    try (by apply not_elem_of_nil in Hin). by apply list_elem_of_singleton in Hin as [= -> ->].
Qed.

(** The transport is told to drain: this is not the default. *)
Lemma set_draining_ok tid o (w : server) :
  default_keepalive cf = false -> server_ok w -> owns tid o w ->
  server_ok (set_state draining w) /\ guarantee tid w (set_state draining w) /\ owns tid o (set_state draining w).
Proof.
  intros Hd Hi Ho. assert (forall t, rely t w (set_state draining w)) as Hr.
  { intros t. split; split; eauto; try done; by rewrite Hd. }
  split; [|split; [intros t _; apply Hr|eapply owns_stable; [apply Hr|exact Ho]]].
  destruct Hi. split; try done; cbn; rewrite ?Hd; try done. intros id code debug Hin. by destruct (ok_goaway id code debug Hin).
Qed.

Lemma spec_keepalive tid P k :
  Persistent P -> timers_ok k -> spec tid nothing P (keepalive cf k) (fun _ => nothing) (fun k _ => alive k).
Proof.
  intros HP Hk. unfold keepalive.
  step ltac:(apply (spec_quiet cf base tid _ _ _
    (fun c _ => match c with MaxIdle | MaxAge => default_keepalive cf = false | _ => True end)); [apply _|intros []; apply _|]).
  { intros w Hi _. eexists. split; [reflexivity|]. intros c w' (c' & [= -> ->] & Hc)%list_elem_of_fmap. split; [done|].
    pose proof (ok_clock _ _ _ Hi) as Hclock.
    destruct c'; try done; (destruct (default_keepalive cf) eqn:Hd; [|done]); destruct (Hk Hd) as [Hk1 Hk2]; exfalso;
      unfold wakeups, fired in Hc; rewrite Hk1, Hk2 in Hc;
      (destruct (Z.leb_spec max_int64 (now w)); [lia|]); rewrite andb_false_r in Hc;
      rewrite !elem_of_app in Hc; destruct Hc as [Hc|[Hc|[Hc|Hc]]]; try (by apply not_elem_of_nil in Hc);
      repeat case_match; try (by apply not_elem_of_nil in Hc); by apply list_elem_of_singleton in Hc. }
  intros c. destruct c.
  - apply (spec_fact cf base (default_keepalive cf = false)); [by intros w [_ ?]|intros Hd].
    assert (forall k, timers_ok k) as Hall by (intros k' Hk'; congruence).
    step ltac:(apply (spec_section cf base tid _ _ _ (fun _ _ => True)); [apply _|intros; apply _|]).
    { intros w Hi Ho _. unfold idle_section. destruct (idle w) as [t|].
      2: { intros a w' [= -> ->]%list_elem_of_singleton. split; [done|]. split; [intros t _; reflexivity|done]. }
      destruct (_ <=? 0); intros a w' [= -> ->]%list_elem_of_singleton.
      - by destruct (set_draining_ok tid nothing w Hd Hi Ho) as (? & ? & ?).
      - split; [done|]. split; [intros t' _; reflexivity|done]. }
    intros [val|].
    + step ltac:(apply (spec_reset tid _ _ (fun _ => True)); [apply _|done]). intros t. apply spec_ret; [apply _|].
      intros; apply Hall.
    + step ltac:(apply spec_put, _). intros []. step ltac:(apply (spec_reset tid _ _ (fun _ => True)); [apply _|done]).
      intros t. apply spec_stop, _.
  - apply (spec_fact cf base (default_keepalive cf = false)); [by intros w [_ ?]|intros Hd].
    assert (forall k, timers_ok k) as Hall by (intros k' Hk'; congruence). destruct (grace k).
    + step ltac:(apply spec_Close, _). intros ?. step ltac:(apply (spec_reset tid _ _ (fun _ => True)); [apply _|done]).
      intros t. apply spec_stop, _.
    + step ltac:(apply (spec_section cf base tid _ _ _ (fun _ _ => True)); [apply _|intros; apply _|]).
      { intros w Hi Ho _ a w' [= -> ->]%list_elem_of_singleton.
        by destruct (set_draining_ok tid nothing w Hd Hi Ho) as (? & ? & ?). }
      intros []. step ltac:(apply spec_put, _). intros [].
      step ltac:(apply (spec_reset tid _ _ (fun _ => True)); [apply _|done]). intros t. apply spec_ret; [apply _|].
      intros; apply Hall.
  - step ltac:(apply spec_flag; [apply _|done]). intros active. destruct active; [|destruct (pingSent k)].
    + step ltac:(apply (spec_reset tid _ _ (fun _ => True)); [apply _|done]). intros t. by apply spec_ret; [apply _|].
    + step ltac:(apply spec_Close, _). intros ?. step ltac:(apply (spec_reset tid _ _ (fun _ => True)); [apply _|done]).
      intros t. apply spec_stop, _.
    + step ltac:(apply spec_put, _). intros []. step ltac:(apply (spec_reset tid _ _ (fun _ => True)); [apply _|done]).
      intros t. by apply spec_ret; [apply _|].
  - apply spec_stop, _.
Qed.

Lemma reset_infinity t : 0 <= t -> reset_timer t infinity = Some max_int64.
Proof. intros Ht. unfold reset_timer, infinity. f_equal. lia. Qed.

Lemma spec_start_keepalive tid P :
  Persistent P -> spec tid nothing P (start_keepalive cf) (fun _ => nothing) (fun k _ => alive k).
Proof.
  intros HP. assert (default_keepalive cf = true -> MaxConnectionIdle (kp cf) = infinity /\ MaxConnectionAge (kp cf) = infinity) as Hd.
  { unfold default_keepalive. intros [H1 H2]%andb_true_iff. lia. }
  step ltac:(apply (spec_reset tid _ _ (fun t => default_keepalive cf = true -> t = Some max_int64)); [apply _|]).
  { intros t Ht Hk. destruct (Hd Hk) as [-> _]. by apply reset_infinity. }
  intros t. step ltac:(apply (spec_reset tid _ _ (fun t => default_keepalive cf = true -> t = Some max_int64)); [apply _|]).
  { intros u Hu Hk. destruct (Hd Hk) as [_ ->]. by apply reset_infinity. }
  intros u. step ltac:(apply (spec_reset tid _ _ (fun _ => True)); [apply _|done]). intros v.
  apply spec_ret; [apply _|]. intros w _ [[[_ Ht] Hu] _] Hk. by split; [apply Ht|apply Hu].
Qed.
End reads.
