(* ===== verification/ServerSound.v ===== *)
(** * The server's HTTP/2 transport: all interleavings

    Each goroutine of a transport that [newHTTP2Server] has set up respects the invariant and what the others rely
    on, so that the invariant holds in every state they reach. *)

From stdpp Require Import base list strings gmap relations.
From Stdlib Require Import ZArith Strings.Byte Lia.
From S2P Require Import Prelude GoStrings GrpcStatus GrpcTransport.
From S2P Require Import Hpack HpackTable HpackEncoder HpackDecoder HpackSync H2Errors GrpcHeaders H2Frame H2Write H2Framer H2Calls.
From S2P Require Import H2Order H2Parse H2ReadTotal GrpcFramer GrpcFramerProps GrpcAnswers Threads ServerState ServerTransport.
From S2P Require Import ServerLoops ServerInv ServerSteps ServerFrames ServerClose ServerWrites ServerReads.
Open Scope Z_scope.

(** A connection before [newHTTP2Server], a clock and a configuration within their types; all the bytes that the
    peer will send are fewer than 2^62. *)
Record fresh {W : Type} `{Connection W} (f : framer W) (start : Z) (config : ServerConfig) : Prop := {
  fresh_writer : bw_ok (wr f) /\ bw_failed (wr f) = false;
  fresh_reader : framer_safe (fr_read f);
  fresh_clock : 0 <= start < max_int64;
  fresh_streams : 0 <= MaxStreams config < 2 ^ 32;
}.

(** [newFramer] gives one. *)
Lemma newFramer_safe {C} (conn : C) rd f :
  newFramer conn rd = Ok f -> slen (rest rd) < 2 ^ 62 ->
  framer_safe (fr_read f) /\ fr_write f = mkFramerW (NewWriterSize conn http2IOBufSize) [] false.
Proof.
  unfold newFramer. destruct (NewDecoder (E:=http2.error) http2InitHeaderTableSize no_emit (mkMeta [] false 0 false None)) as [d| | |] eqn:Hd;
    cbn [mbind res_bind]; [|done..].
  intros [= <-] Hlen. split; [|done]. revert Hlen. vm_compute in Hd. injection Hd as <-. intros Hlen.
  split; [done|by intros []|done|]. intros d [= <-]. split; [done|exact Hlen].
Qed.

Lemma write_calls_reader {W} `{BufferedWriter W} cs (f : framer W) : fr_read (write_calls cs f).2 = fr_read f.
Proof.
  revert f. induction cs as [|[b c] cs IH]; intros f; cbn [write_calls]; [done|].
  rewrite framer_call_run. unfold then_flush, flushWrite.
  destruct (run_call bw_Write (fr_write f) c) as [[e|] fw]; [done|]. destruct b; [|by rewrite IH].
  destruct (bw_Flush _) as [[e|] w']; [done|]. cbn [fmap option_fmap option_map]. by rewrite IH.
Qed.

Section sound.
Context {W : Type} `{Connection W} (cf : setup) (base : list byte) (unmarshalStatus : list byte -> res string Status).
Context (Hmax : 0 <= maxStreams cf < 2 ^ 32) (Hunmarshal : forall b, returns (unmarshalStatus b)).
#[local] Abbreviation server := (server W).
#[local] Abbreviation server_ok := (server_ok cf base).
#[local] Abbreviation spec := (spec cf base).
#[local] Abbreviation rely := (rely cf).
#[local] Abbreviation exempt := (exempt cf).
#[local] Abbreviation thread_ok := (Threads.thread_ok server_ok rely exempt).

Lemma spec_run {A} tid P (p : prog server A) o E (w : server) :
  spec tid nothing P p o E -> server_ok w -> P w -> wp server_ok rely exempt tid p (fun a w => E a w) w.
Proof.
  intros Hs Hi Hw. eapply wp_conseq; [|apply Hs; [done|by eapply owns_nothing|done]]. by intros a w' _ [_ HE].
Qed.

Lemma once_spec tid P (p : prog server unit) o E (w : server) :
  spec tid nothing P p o E -> server_ok w -> P w -> thread_ok tid (once p) w.
Proof.
  intros Hs Hi Hw. apply once_ok; [intros; apply _|]. eapply wp_conseq; [|by eapply spec_run]. done.
Qed.

(** ** The goroutines of the transport *)

Lemma reader_thread tid (w : server) :
  server_ok w -> thread_ok tid (Thread (reader_round cf unmarshalStatus) HandleStreams) w.
Proof.
  intros Hi. exists (fun _ _ => True). split.
  - intros [] w1 Hi1 _. eapply wp_conseq; [|eapply (spec_run tid (fun _ => True)); [by apply spec_reader_round, _|done|done]].
    by intros [] ? _ _.
  - eapply wp_conseq; [|eapply (spec_run tid (fun _ => True)); [by apply spec_HandleStreams, _|done|done]]. by intros [] ? _ _.
Qed.

Lemma controller_thread tid (w : server) : server_ok w -> thread_ok tid (Thread controller (mret (Some tt))) w.
Proof.
  intros Hi. exists (fun _ _ => True). split; [|done].
  intros [] w1 Hi1 _. eapply wp_conseq; [|eapply (spec_run tid (fun _ => True)); [by apply spec_controller, _|done|done]].
  by intros [] ? _ _.
Qed.

Lemma keepalive_thread tid (w : server) : server_ok w -> thread_ok tid (Thread (keepalive cf) (start_keepalive cf)) w.
Proof.
  intros Hi. exists (fun k _ => timers_ok cf k). split.
  - intros k w1 Hi1 Hk. eapply wp_conseq; [|eapply (spec_run tid (fun _ => True)); [by apply spec_keepalive; [apply _|]|done|done]].
    by intros [] ? _ ?.
  - eapply wp_conseq; [|eapply (spec_run tid (fun _ => True)); [by apply spec_start_keepalive, _|done|done]]. by intros [] ? _ ?.
Qed.

Lemma spec_report tid P err :
  Persistent cf P -> spec tid nothing P (report err) (fun _ => nothing) (fun _ _ => True).
Proof.
  intros HP. apply spec_act; [done|intros; apply _|]. intros w Hi Ho _ a w' [= -> ->]%list_elem_of_singleton.
  split; [by destruct Hi|]. split; [|by destruct Ho]. intros t _. split; split; eauto.
Qed.

Lemma spec_operation tid p o :
  operation_typed o ->
  spec tid nothing (is_stream p) (run_operation p o) (fun _ => nothing) (fun _ _ => True).
Proof.
  intros Ho. assert (forall A (q : prog server A),
    spec tid nothing (is_stream p) q (fun _ => nothing) (fun _ _ => True) ->
    spec tid nothing (is_stream p) (_ ← q; mret tt) (fun _ => nothing) (fun _ _ => True)) as Hret.
  { intros A q Hq. eapply spec_bind; [apply _|exact Hq|]. intros a. by apply spec_ret; [apply _|]. }
  assert (forall q : prog server (option go_error),
    spec tid nothing (is_stream p) q (fun _ => nothing) (fun _ _ => True) ->
    spec tid nothing (is_stream p) (err ← q; report err) (fun _ => nothing) (fun _ _ => True)) as Hrep.
  { intros q Hq. eapply spec_bind; [apply _|exact Hq|]. intros err. apply spec_report, _. }
  destruct o; cbn [run_operation].
  - apply Hrep. by apply (spec_WriteHeader cf base tid _ 0); [apply _| |].
  - apply Hrep. by apply spec_Write; [apply _|].
  - apply Hrep. by apply spec_WriteStatus; [apply _|].
  - apply Hret. by apply spec_Stream_Read; [apply _|].
  - apply Hret. by apply spec_SetHeader; [apply _|].
  - apply Hret. by apply spec_SetTrailer; [apply _|].
  - by apply spec_SetSendCompress; [apply _|].
Qed.

Lemma client_thread (w : server) t tid : server_ok w -> client w t -> thread_ok tid t w.
Proof.
  intros Hi Hc. revert Hi. destruct Hc as [w p os Hp Hos|w|w]; intros Hi.
  - eapply (once_spec tid (is_stream p)); [|done|by apply (ok_handled _ _ _ Hi)].
    apply (spec_each cf base tid nothing); [apply _|]. intros o Ho. apply spec_operation. by eapply Forall_forall.
  - apply (once_spec tid (fun _ => True) _ (fun _ => nothing) (fun _ _ => True)); [|done|done].
    eapply spec_bind; [apply _|apply spec_Close, _|]. intros a. by apply spec_ret; [apply _|].
  - apply (once_spec tid (fun _ => True) _ (fun _ => nothing) (fun _ _ => True)); [|done|done]. apply spec_put, _.
Qed.

Lemma environment_ok (w w' : server) :
  server_ok w -> environment w w' -> server_ok w' /\ forall tid, rely tid w w'.
Proof.
  intros Hi He. revert Hi. destruct He as [w d Hd Hn|w p s d Hs Hdl Hle]; intros Hi.
  - split; [|intros tid; split; split; eauto]. destruct Hi. split; try done. cbn. lia.
  - pose proof (ok_streams _ _ _ Hi p s Hs) as Hok. destruct (done_same s ErrDeadlineExceeded) as [Hid Hmu]. split.
    + eapply set_stream_ok; try done. apply done_stream_ok; [done|by right].
    + intros tid. eapply set_stream_rely; try done. by rewrite Hmu.
Qed.

(** ** The first state *)

Lemma new_server_ok (f0 f : framer W) hEnc start config :
  fresh f0 start config -> base = bw_delivered (wr f0) ++ bw_pending (wr f0) ->
  write_calls (opening config) f0 = (None, f) -> NewEncoder (E:=hpack_error) = Ok hEnc ->
  server_ok (new_server f hEnc start ((opening config).*2)).
Proof.
  intros [[Hok Hnf] Hrd Hclk _] Hbase Hrun He.
  destruct (write_calls_ok _ f0 f Hok Hnf Hrun) as (Hok' & Hnf' & Heq & _).
  assert (fr_read f = fr_read f0) as Hread by (by (pose proof (write_calls_reader (opening config) f0) as Hr; by rewrite Hrun in Hr)).
  unfold new_server. split; cbn.
  - done.
  - split; [done|]. by rewrite Hnf', Heq, Hbase, app_assoc.
  - exists 0. split; [|done]. done.
  - unfold opening. cbn. by repeat constructor.
  - intros id code debug Hin. unfold opening in Hin. cbn in Hin. set_solver.
  - done.
  - constructor.
  - done.
  - intros active [= <-]. split; [rewrite map_size_empty; lia|]. intros id p Hp. by rewrite lookup_empty in Hp.
  - done.
  - done.
  - intros _. split; [done|by intros []].
  - done.
  - intros p Hp. by apply elem_of_nil in Hp.
  - exact (new_offers defaultWindowSize).
  - intros tid n Hn. by rewrite lookup_empty in Hn.
  - intros _. exists defaultWindowSize. split; [done|]. split; [done|]. unfold held_sum. cbn [held]. rewrite map_fold_empty. done.
  - intros _ _. destruct (new_in_sync (E:=hpack_error) http2InitHeaderTableSize collect ([] : list HeaderField) 0 ltac:(done))
      as (e & d & He' & Hd & Hs & Hal & Ha).
    assert (e = hEnc) as -> by congruence. exists (SetMaxStringLength d 0). split; [done|].
    vm_compute in Hd. injection Hd as <-. split; [done|]. split; [done|]. split; [done|]. lia.
  - done.
  - by rewrite Hread.
Qed.
End sound.
