(* ===== verification/ServerDemo.v ===== *)
(** * The server's HTTP/2 transport: concrete runs

    A connection that takes everything, what a client sends, and the states that the goroutines of a
    transport for it reach in orders of their steps that are written out; on them the properties of the transport are
    tried. *)

From stdpp Require Import base list strings gmap relations.
From Stdlib Require Import ZArith Strings.Byte Lia.
From S2P Require Import Prelude GoStrings GrpcStatus GrpcTransport.
From S2P Require Import Hpack HpackTable HpackEncoder HpackSync HpackDecoder H2Errors GrpcHeaders H2Frame H2Write H2Framer H2Calls.
From S2P Require Import GrpcFramer GrpcFramerProps Threads ServerState ServerTransport ServerLoops.
Open Scope Z_scope.

Definition open_conn (c b : list byte) : option (Z * go_error) * list byte := (None, c ++ b).
Lemma open_conn_law : conn_law open_conn id.
Proof. intros c p. done. Qed.

#[export] Instance open_writer : BufferedWriter (bufioWriter (list byte)) := bufio_writer open_conn id open_conn_law.
#[export] Program Instance open_connection : Connection (bufioWriter (list byte)) := {| bw_Close w := (None, w) |}.
Next Obligation. by intros w Hw. Qed.

Abbreviation demo_server := (server (bufioWriter (list byte))).

(** ** What the client sends *)

Definition demo_fields : list HeaderField :=
  [mkHeaderField (bytes_of ":method") (bytes_of "POST") false; mkHeaderField (bytes_of ":path") (bytes_of "/a/b") false;
   mkHeaderField (bytes_of "content-type") (bytes_of "application/grpc") false].

Definition demo_encoder : Encoder :=
  match NewEncoder (E:=hpack_error) with Ok e => e | _ => mkEncoder (mkDynamicTable init_table 0 0 0) 0 0 false [] end.
Definition demo_block : list byte :=
  match run_ops (E:=hpack_error) demo_encoder (OpField <$> demo_fields) with Ok (_, b) => b | _ => [] end.

Definition demo_request (id : Z) : list byte :=
  frames_bytes (header_calls id false demo_block).*2 ++ call_bytes (CData id true [x00; x01; x02] None).

(** The preface, settings, and two calls. *)
Definition demo_input : list byte := clientPreface ++ call_bytes (CSettings []) ++ demo_request 1 ++ demo_request 3.

(** ** The transport *)

Definition demo_framer (input : list byte) : framer (bufioWriter (list byte)) :=
  match newFramer [] (mkReader input EOF) with
  | Ok f => f
  | _ => mk_framer 0 (mkFramerW (NewWriterSize [] http2IOBufSize) [] false) (NewFramer (mkReader input EOF))
  end.

Definition demo_config (age : Z) : ServerConfig :=
  mkServerConfig 100 (mkServerParameters 0 age 0 0 0) (mkEnforcementPolicy 0 false) None.

(** No header carries a status. *)
Definition no_status (b : list byte) : res string Status := Err "no status"%string.
Definition no_jitter (n : Z) : Z := 0.

Definition demo (input : list byte) (config : ServerConfig) : setup * demo_server :=
  match newHTTP2Server no_jitter (demo_framer input) 1000 config with
  | Ok x => x
  | _ => (mkSetup 0 (KeepaliveParams config) (KeepalivePolicy config) None, new_server (demo_framer input) demo_encoder 0 [])
  end.

Definition demo_pool (input : list byte) (config : ServerConfig) : demo_server * list (thread demo_server) :=
  ((demo input config).2, goroutines (demo input config).1 no_status).

(** What happens: the first outcome of [n] steps of a goroutine, or another one; a handler makes a call,
    or the server stops the transport; the clock goes on. *)
Inductive event : Type :=
| Steps (tid n : nat)
| Choose (tid choice : nat)
| Handles (p : nat) (os : list operation)
| Closes
| Drains
| Passes (d : Z).

Definition typed_operation (o : operation) : bool :=
  match o with OpWriteStatus st => (0 <=? Status_Code st) && (Status_Code st <? 2 ^ 32) | _ => true end.

Definition happens (e : event) (s : demo_server * list (thread demo_server)) : option (demo_server * list (thread demo_server)) :=
  match e with
  | Steps tid n => run_schedule (replicate n (tid, 0%nat)) s
  | Choose tid choice => run_thread tid choice s
  | Handles p os =>
      if bool_decide (p ∈ handled s.1) && forallb typed_operation os
      then Some (s.1, s.2 ++ [once (each (run_operation p) os)]) else None
  | Closes => Some (s.1, s.2 ++ [once (_ ← Close; mret tt)])
  | Drains => Some (s.1, s.2 ++ [once Drain])
  | Passes d => if (0 <=? d) && (now s.1 + d <? max_int64) then Some (set_now (now s.1 + d) s.1, s.2) else None
  end.

Fixpoint story (es : list event) (s : demo_server * list (thread demo_server)) : option (demo_server * list (thread demo_server)) :=
  match es with
  | [] => Some s
  | e :: es => s ← happens e s; story es s
  end.

Lemma happens_steps e s s' : happens e s = Some s' -> rtc serves s s'.
Proof.
  destruct s as [w ts], e as [tid n|tid choice|p os| | |d]; cbn [happens fst snd]; intros Hs.
  - by eapply run_schedule_steps.
  - apply rtc_once. by eapply run_thread_step.
  - destruct (bool_decide_reflect (p ∈ handled w)) as [Hp|]; [|done]. destruct (forallb typed_operation os) eqn:Hos; [|done].
    apply (inj Some) in Hs as <-. apply rtc_once, pool_spawn. constructor; [done|].
    apply Forall_forall. intros o Ho. eapply forallb_forall in Hos; [|by apply list_elem_of_In]. destruct o; try done.
    apply andb_true_iff in Hos. unfold operation_typed. lia.
  - apply (inj Some) in Hs as <-. apply rtc_once, pool_spawn, client_Close.
  - apply (inj Some) in Hs as <-. apply rtc_once, pool_spawn, client_Drain.
  - destruct (Z.leb_spec 0 d); [|done]. destruct (Z.ltb_spec (now w + d) max_int64); [|done]. apply (inj Some) in Hs as <-.
    apply rtc_once, pool_env. by apply env_clock.
Qed.

Lemma story_steps es s s' : story es s = Some s' -> rtc serves s s'.
Proof.
  revert s. induction es as [|e es IH]; intros s; simpl; [by intros [= <-]|].
  destruct (happens e s) as [s1|] eqn:Hs1; [|done]. intros Hs'. etransitivity; [by eapply happens_steps|by apply IH].
Qed.

(** The state after a story that can happen. *)
Definition after_story (es : list event) (s : demo_server * list (thread demo_server)) : demo_server * list (thread demo_server) :=
  default s (story es s).

Lemma after_steps es s : rtc serves s (after_story es s).
Proof. unfold after_story. destruct (story es s) as [s'|] eqn:Hs; [|done]. by eapply story_steps. Qed.

Definition is_ok {E A} (x : res E A) : bool := match x with Ok _ => true | _ => false end.
