(* ===== verification/ServerProps.v ===== *)
(** * The server's HTTP/2 transport: its properties

    What holds in every state that the goroutines of a transport reach from [newHTTP2Server], for every order of
    their steps, every input of the peer, every handler and every moment at which the connection fails. *)

From stdpp Require Import base list strings gmap sorting relations.
From Stdlib Require Import ZArith Strings.Byte Lia.
From S2P Require Import Prelude GoStrings GrpcStatus GrpcTransport.
From S2P Require Import Hpack HpackTable HpackEncoder HpackDecoder HpackSync H2Errors GrpcHeaders H2Frame H2Write H2Framer H2Calls.
From S2P Require Import H2Order H2Parse H2ReadTotal GrpcFramer GrpcFramerProps GrpcAnswers Threads ServerState ServerTransport.
From S2P Require Import ServerLoops ServerInv ServerSteps ServerFrames ServerClose ServerWrites ServerReads ServerSound ServerDemo.
Open Scope Z_scope.

Section props.
Context {W : Type} `{Connection W} (Int63n : Z -> Z) (unmarshalStatus : list byte -> res string Status).
Context (Hunmarshal : forall b, returns (unmarshalStatus b)).
#[local] Abbreviation server := (server W).
#[local] Abbreviation pool := (server * list (thread server))%type.

(** [s] is reached from a new transport over [f]. *)
Definition served (f : framer W) (start : Z) (config : ServerConfig) (cf : setup) (s : pool) : Prop :=
  fresh f start config /\
  exists w0, newHTTP2Server Int63n f start config = Ok (cf, w0) /\ rtc serves (w0, goroutines cf unmarshalStatus) s.

(** What is on the connection when [newHTTP2Server] gets it. *)
Definition before (f : framer W) : list byte := bw_delivered (wr f) ++ bw_pending (wr f).

(** Connections are not closed for being idle or old. *)
Definition keeps_connections (config : ServerConfig) : Prop :=
  (MaxConnectionIdle (KeepaliveParams config) = 0 \/ MaxConnectionIdle (KeepaliveParams config) = infinity) /\
  (MaxConnectionAge (KeepaliveParams config) = 0 \/ MaxConnectionAge (KeepaliveParams config) = infinity).

Lemma configure_setup config cf :
  0 <= MaxStreams config < 2 ^ 32 -> configure (E:=go_error) Int63n config = Ok cf ->
  0 <= maxStreams cf < 2 ^ 32 /\ (keeps_connections config -> default_keepalive cf = true).
Proof.
  intros Hmax. unfold configure. destruct (getJitter Int63n _) as [j| | |] eqn:Hj; [|done..]. cbn [mbind res_bind].
  intros [= <-]. cbn. split; [unfold or_default; destruct (MaxStreams config =? 0); lia|].
  intros [Hi Ha]. unfold default_keepalive. cbn. unfold getJitter in Hj. apply andb_true_iff. split.
  - destruct Hi as [-> | ->]; done.
  - revert Hj. destruct Ha as [-> | ->]; cbn; by intros [= <-].
Qed.

(** Where every run starts. *)
Lemma served_start f start config cf (s : pool) :
  served f start config cf s ->
  0 <= maxStreams cf < 2 ^ 32 /\ (keeps_connections config -> default_keepalive cf = true) /\
  exists s0, pool_ok (server_ok cf (before f)) (rely cf) (exempt cf) 0 s0 /\ rtc serves s0 s.
Proof.
  intros (Hf & w0 & Hnew & Hrun). unfold newHTTP2Server in Hnew.
  destruct (write_calls (opening config) f) as [[err|] f1] eqn:Hw; [done|].
  destruct (configure Int63n config) as [cf1| | |] eqn:Hcf; cbn [mbind res_bind] in Hnew; [|done..].
  destruct (NewEncoder (E:=hpack_error)) as [hEnc| | |] eqn:He; [|done..]. injection Hnew as <- <-.
  destruct (configure_setup _ _ (fresh_streams _ _ _ Hf) Hcf) as [Hmax Hk]. split; [done|]. split; [done|].
  eexists. split; [|exact Hrun].
  assert (server_ok cf1 (before f) (new_server f1 hEnc start (opening config).*2)) as Hi by (by eapply new_server_ok).
  split; [done|]. split; [cbn; lia|]. intros tid t Ht. cbn [fst snd] in *. unfold goroutines in Ht.
  destruct tid as [|[|[|tid]]]; cbn in Ht; try (injection Ht as <-).
  - by apply reader_thread.
  - by apply controller_thread.
  - by apply keepalive_thread.
  - done.
Qed.

Lemma served_ok f start config cf (s : pool) :
  served f start config cf s ->
  (keeps_connections config -> default_keepalive cf = true) /\ pool_ok (server_ok cf (before f)) (rely cf) (exempt cf) 0 s.
Proof.
  intros Hs. destruct (served_start _ _ _ _ _ Hs) as (_ & Hk & s0 & Hok & Hrun). split; [done|].
  eapply (pool_steps_ok environment client (server_ok cf (before f)) (rely cf) (exempt cf) 0); [| |exact Hok|exact Hrun].
  - intros w w'. by apply environment_ok.
  - intros w t tid _. apply client_thread.
Qed.

(** The steps from one reachable state to another. *)
Lemma served_steps f start config cf (s s' : pool) :
  served f start config cf s -> rtc serves s s' -> served f start config cf s' /\ grows cf s.1 s'.1.
Proof.
  intros Hs Hrun. destruct (served_ok _ _ _ _ _ Hs) as [_ Hok].
  split. { destruct Hs as (Hf & w0 & Hnew & Hrun1). split; [done|]. exists w0. split; [done|]. by etransitivity. }
  eapply (pool_steps_respect environment client (server_ok cf (before f)) (rely cf) (exempt cf) 0);
    [| |apply _|apply guarantee_grows| |exact Hok|exact Hrun].
  - intros w w'. by apply environment_ok.
  - intros w t tid _. apply client_thread.
  - intros w w' Hi He. destruct (environment_ok cf (before f) w w' Hi He) as [_ Hr]. apply (Hr 0%nat).
Qed.

Lemma server_sound f start config cf (s : pool) :
  served f start config cf s ->
  server_ok cf (before f) s.1 /\ (goes_wrong Crashes s \/ goes_wrong Diverges s -> exempt cf s.1).
Proof.
  intros Hs. destruct (served_ok _ _ _ _ _ Hs) as [_ Hok].
  eapply (pool_sound environment client (server_ok cf (before f)) (rely cf) (exempt cf) 0); [| |exact Hok|done].
  - intros w w'. by apply environment_ok.
  - intros w t tid _. apply client_thread.
Qed.

Lemma served_blocked cf base tid t (X : server -> Prop) (s s' : pool) :
  pool_ok (server_ok cf base) (rely cf) (exempt cf) 0 s ->
  (forall w w', X w -> rely cf tid w w' -> X w') -> (forall w, X w -> blocks tid t w) ->
  X s.1 -> s.2 !! tid = Some t -> rtc serves s s' -> X s'.1 /\ s'.2 !! tid = Some t.
Proof.
  intros Hok HX Hb. apply (pool_blocked environment client (server_ok cf base) (rely cf) (exempt cf) 0); try done.
  - intros w w'. by apply environment_ok.
  - intros w t' tid' _. apply client_thread.
Qed.

(** C14: The streams of a transport are numbered as the protocol asks: odd, within 31 bits, in the order
    in which they come; [maxStreamID] is the last; those that are active are found under their ids and are
    no more than the limit; the handlers work on streams of the transport; and the map is nil only
    when the transport takes no more streams. *)
Theorem server_well_formed f start config cf (s : pool) :
  served f start config cf s ->
  let w := s.1 in
  StronglySorted Z.lt (s_id <$> streams w) /\
  (forall p st, streams w !! p = Some st -> 0 < s_id st < 2 ^ 31 /\ s_id st mod 2 = 1) /\
  maxStreamID w = default 0 (last (s_id <$> streams w)) /\
  match activeStreams w with
  | Some active =>
      Z.of_nat (base.size active) <= maxStreams cf /\
      forall id p, active !! id = Some p -> exists st, streams w !! p = Some st /\ s_id st = id
  | None => state w <> reachable
  end /\
  (forall p, p ∈ handled w -> (p < length (streams w))%nat).
Proof.
  intros Hs w. destruct (server_sound _ _ _ _ _ Hs) as [Hi _]. fold w in Hi. destruct Hi.
  split; [done|]. split; [intros p st Hp; apply (so_id _ (ok_streams p st Hp))|]. split; [done|]. split; [|done].
  destruct (activeStreams w) as [active|]; [by apply ok_active|by apply ok_nil].
Qed.

(** C4: With the keepalive parameters that are set by default no goroutine ever panics or loops
    for ever, whatever the peer sends, unless the handlers have sent 2^60 header fields or one of 2 GB. *)
Theorem server_never_panics f start config cf (s : pool) :
  served f start config cf s -> keeps_connections config ->
  encoded (notes s.1) < 2 ^ 60 -> largest (notes s.1) < 2 ^ 31 ->
  ~ goes_wrong Crashes s /\ ~ goes_wrong Diverges s.
Proof.
  intros Hs Hk He Hl. destruct (server_sound _ _ _ _ _ Hs) as [_ Hw].
  destruct (served_ok _ _ _ _ _ Hs) as [Hd _]. specialize (Hd Hk).
  assert (~ exempt cf s.1) as Hno by (intros [Hx|[Hx|Hx]]; [congruence|lia..]).
  split; intros Hgo; apply Hno, Hw; auto.
Qed.

(** C5: What is on the connection are whole frames, in the order in which they were written, and they can
    be completed to a sequence in which the frames of each header block are contiguous, although the goroutines
    write in turns; when nobody has the right to write, they are one.  If the
    connection has failed, the last frame may be cut. *)
Theorem server_frames f start config cf (s : pool) :
  served f start config cf s ->
  let x := wr (fr s.1) in
  let cs := wire (notes s.1) in
  exists l, order_run 0 (frame_of <$> cs) = Some l /\ (writableChan s.1 = None -> l = 0) /\
  if bw_failed x then
    exists c, is_Some (order_run 0 (frame_of <$> cs ++ [c])) /\ bw_delivered x `prefix_of` before f ++ frames_bytes (cs ++ [c])
  else bw_delivered x ++ bw_pending x = before f ++ frames_bytes cs.
Proof.
  intros Hs x cs. destruct (server_sound _ _ _ _ _ Hs) as [Hi _]. destruct (ok_stands _ _ _ Hi) as (l & Hl & Hno).
  exists l. split; [done|]. split; [done|]. apply (ok_written _ _ _ Hi).
Qed.

(** C15: The data on the connection never exceeds the window of the connection: what the protocol starts
    with and what the peer's WINDOW_UPDATE frames have added; and no frame of data exceeds the
    size that every peer accepts. *)
Theorem server_flow_control f start config cf (s : pool) :
  served f start config cf s ->
  Forall (fun c => quota_used c <= http2MaxFrameLen) (wire (notes s.1)) /\
  (granted (notes s.1) < 2 ^ 62 -> sent (wire (notes s.1)) <= granted (notes s.1)).
Proof.
  intros Hs. destruct (server_sound _ _ _ _ _ Hs) as [Hi _]. split; [apply (ok_chunks _ _ _ Hi)|].
  intros Hg. destruct (ok_quota _ _ _ Hi Hg) as (n & Hn & _ & Hle).
  pose proof (held_sum_nonneg _ (ok_held _ _ _ Hi)). lia.
Qed.

Lemma grows_ids cf (w w' : server) : grows cf w w' -> s_id <$> streams w `prefix_of` s_id <$> streams w'.
Proof.
  intros [Hg _ _ _]. revert Hg. generalize (streams w) (streams w'). intros l. induction l as [|s l IH]; intros k Hg.
  { apply prefix_nil. }
  destruct (Hg 0%nat s eq_refl) as (s' & Hs' & Hid). destruct k as [|s2 k]; [done|]. injection Hs' as ->.
  rewrite !fmap_cons, Hid. apply prefix_cons, IH. intros p. apply (Hg (S p)).
Qed.

(** Streams are only added with larger ids. *)
Lemma same_last (ids ids' : list Z) :
  StronglySorted Z.lt ids' -> Forall (fun id => 0 < id) ids' -> ids `prefix_of` ids' ->
  default 0 (last ids) = default 0 (last ids') -> ids' = ids.
Proof.
  intros Hs Hpos [more ->] Hlast. destruct more as [|x more _] using rev_ind; [by rewrite app_nil_r|exfalso].
  rewrite (app_assoc ids), last_snoc in Hlast. cbn in Hlast.
  destruct ids as [|y ids _] using rev_ind.
  - cbn in Hlast. apply Forall_app in Hpos as [_ Hx]. apply Forall_app in Hx as [_ Hx]. apply Forall_cons_1 in Hx as [Hx _]. lia.
  - rewrite last_snoc in Hlast. cbn in Hlast. subst x.
    assert (y < y); [|lia]. apply (StronglySorted_app_1_elem_of Z.lt (ids ++ [y]) (more ++ [y])); [done|set_solver..].
Qed.

(** C13: A GOAWAY frame tells the truth: from when it is written no stream is added any more, and the
    id that it carries is the one of the last stream. *)
Theorem goaway_covers f start config cf (s s' : pool) id code debug :
  served f start config cf s -> CGoAway id code debug ∈ wire (notes s.1) -> rtc serves s s' ->
  id = default 0 (last (s_id <$> streams s.1)) /\ s_id <$> streams s'.1 = s_id <$> streams s.1.
Proof.
  intros Hs Hin Hrun. destruct (server_sound _ _ _ _ _ Hs) as [Hi _].
  destruct (served_steps _ _ _ _ _ _ Hs Hrun) as [Hs' Hg]. destruct (server_sound _ _ _ _ _ Hs') as [Hi' _].
  destruct (ok_goaway _ _ _ Hi id code debug Hin) as [Hst ->]. destruct (g_state _ _ _ Hg Hst) as [_ Hm].
  split; [apply (ok_max _ _ _ Hi)|]. apply same_last.
  - apply (ok_ids _ _ _ Hi').
  - apply Forall_fmap, Forall_lookup. intros p st Hp. apply (so_id _ (ok_streams _ _ _ Hi' p st Hp)).
  - by eapply grows_ids.
  - by rewrite <- (ok_max _ _ _ Hi), <- (ok_max _ _ _ Hi').
Qed.
End props.

(** ** The properties on concrete runs *)

(** A transport for what a client has sent. *)
Lemma demo_served input config es :
  0 <= MaxStreams config < 2 ^ 32 -> slen input < 2 ^ 62 ->
  is_ok (newHTTP2Server no_jitter (demo_framer input) 1000 config) = true ->
  served no_jitter no_status (demo_framer input) 1000 config (demo input config).1 (after_story es (demo_pool input config)).
Proof.
  intros Hmax Hlen Hnew. split.
  - destruct (newFramer_reader ([] : list byte) (mkReader input EOF)) as (_ & f & _ & Hf & _ & _ & Hr & _).
    destruct (newFramer_safe _ _ _ Hf Hlen) as [Hsafe Hw]. unfold demo_framer. rewrite Hf.
    split; [|done|done|done]. unfold wr. by rewrite Hw.
  - exists (demo input config).2. split; [|apply after_steps]. revert Hnew. unfold demo.
    by destruct (newHTTP2Server _ _ _ _) as [[cf w]| | |].
Qed.

Lemma no_status_returns b : returns (no_status b).
Proof. done. Qed.

(** The first call comes in, its handler answers with three bytes, the transport drains, and the second call
    comes in. *)
Definition answer_events : list event :=
  [Steps 0 10; Handles 0 [OpWrite [x01; x02; x03] false]; Steps 3 25; Drains; Steps 4 1; Steps 1 12]%nat.
Definition late_events : list event := [Steps 0 20]%nat.

Definition answered := after_story answer_events (demo_pool demo_input (demo_config 0)).

Lemma demo_answered :
  served no_jitter no_status (demo_framer demo_input) 1000 (demo_config 0) (demo demo_input (demo_config 0)).1 answered.
Proof. apply demo_served; vm_compute; done. Qed.

Lemma server_well_formed_witness :
  let w := answered.1 in
  (s_id <$> streams w = [1] /\ handled w = [0]%nat /\ is_Some (activeStreams w)) /\
  StronglySorted Z.lt (s_id <$> streams w) /\
  (forall p st, streams w !! p = Some st -> 0 < s_id st < 2 ^ 31 /\ s_id st mod 2 = 1) /\
  maxStreamID w = default 0 (last (s_id <$> streams w)) /\
  match activeStreams w with
  | Some active =>
      Z.of_nat (base.size active) <= maxStreams (demo demo_input (demo_config 0)).1 /\
      forall id p, active !! id = Some p -> exists st, streams w !! p = Some st /\ s_id st = id
  | None => state w <> reachable
  end /\
  (forall p, p ∈ handled w -> (p < length (streams w))%nat).
Proof.
  split. { vm_compute. repeat split. by eexists. }
  exact (server_well_formed no_jitter no_status no_status_returns _ _ _ _ answered demo_answered).
Defined.

Lemma server_never_panics_witness :
  (length (wire (notes answered.1)) = 6 /\ length answered.2 = 5)%nat /\
  ~ goes_wrong Crashes answered /\ ~ goes_wrong Diverges answered.
Proof.
  split; [vm_compute; done|].
  apply (server_never_panics no_jitter no_status no_status_returns (demo_framer demo_input) 1000 (demo_config 0) _ answered demo_answered);
    [split; by left|vm_compute; done..].
Defined.

Lemma server_frames_witness :
  let x := wr (fr answered.1) in
  let cs := wire (notes answered.1) in
  exists l, order_run 0 (frame_of <$> cs) = Some l /\ (writableChan answered.1 = None -> l = 0) /\
  if bw_failed x then
    exists c, is_Some (order_run 0 (frame_of <$> cs ++ [c])) /\ bw_delivered x `prefix_of` before (demo_framer demo_input) ++ frames_bytes (cs ++ [c])
  else bw_delivered x ++ bw_pending x = before (demo_framer demo_input) ++ frames_bytes cs.
Proof. exact (server_frames no_jitter no_status no_status_returns _ _ _ _ answered demo_answered). Defined.

Lemma server_flow_control_witness :
  (sent (wire (notes answered.1)) = 3 /\ granted (notes answered.1) = 65535) /\
  Forall (fun c => quota_used c <= http2MaxFrameLen) (wire (notes answered.1)) /\
  (granted (notes answered.1) < 2 ^ 62 -> sent (wire (notes answered.1)) <= granted (notes answered.1)).
Proof.
  split; [by vm_compute|]. exact (server_flow_control no_jitter no_status no_status_returns _ _ _ _ answered demo_answered).
Defined.

Lemma answered_goaway : wire (notes answered.1) !! 5%nat = Some (CGoAway 1 http2.ErrCodeNo []).
Proof. vm_compute. reflexivity. Qed.

Lemma goaway_covers_witness :
  1 = default 0 (last (s_id <$> streams answered.1)) /\
  s_id <$> streams (after_story late_events answered).1 = s_id <$> streams answered.1.
Proof.
  exact (goaway_covers no_jitter no_status no_status_returns (demo_framer demo_input) 1000 (demo_config 0)
    (demo demo_input (demo_config 0)).1 answered (after_story late_events answered) 1 http2.ErrCodeNo [] demo_answered
    (list_elem_of_lookup_2 _ _ _ answered_goaway) (after_steps late_events answered)).
Defined.

(** ** What goes wrong *)

(** The client's settings give two initial windows. *)
Definition two_windows : list byte :=
  clientPreface ++ call_bytes (CSettings [mkSetting SettingInitialWindowSize 100; mkSetting SettingInitialWindowSize 200]).
Definition stuck := after_story [Steps 0 5; Steps 1 9]%nat (demo_pool two_windows (demo_config 0)).

Lemma stuck_holds : mu stuck.1 = Some 1%nat /\ writableChan stuck.1 = Some 1%nat.
Proof. split; vm_compute; reflexivity. Qed.

Lemma stuck_blocks (w : demo_server) :
  mu w = Some 1%nat -> match stuck.2 !! 1%nat with Some t => blocks 1 t w | None => False end.
Proof. destruct w. cbn. intros ->. vm_compute. reflexivity. Qed.

(** C26: [applySettings] unlocks [t.mu] when it returns, and locks it once for every INITIAL_WINDOW_SIZE:
    a client that sends two of them in one SETTINGS frame stops the controller for ever, which holds the mutex and
    the right to write, so that no stream is accepted, no frame is written and the transport
    cannot be closed. *)
Theorem applySettings_deadlock :
  served no_jitter no_status (demo_framer two_windows) 1000 (demo_config 0) (demo two_windows (demo_config 0)).1 stuck /\
  forall s, rtc serves stuck s -> (mu s.1 = Some 1%nat /\ writableChan s.1 = Some 1%nat) /\ s.2 !! 1%nat = stuck.2 !! 1%nat.
Proof.
  assert (served no_jitter no_status (demo_framer two_windows) 1000 (demo_config 0) (demo two_windows (demo_config 0)).1 stuck) as Hs
    by (apply demo_served; vm_compute; done).
  split; [done|]. intros s Hrun.
  destruct (served_ok no_jitter no_status no_status_returns _ _ _ _ _ Hs) as [_ Hok].
  pose proof stuck_blocks as Hb.
  pose proof stuck_holds as Hx.
  destruct (stuck.2 !! 1%nat) as [t|] eqn:Ht; [|by destruct (Hb stuck.1 (proj1 Hx))].
  apply (served_blocked _ _ _ _
    (fun w => mu w = Some 1%nat /\ writableChan w = Some 1%nat) stuck s Hok); [| |exact Hx|exact Ht|exact Hrun].
  - intros w w' [Hmu Htok] [_ Hkeeps]. split; [by apply Hkeeps|by apply Hkeeps].
  - intros w [Hmu _]. by apply Hb.
Qed.

(** A connection that may live for 1000 ns; the client sends its settings and closes it. *)
Definition short_input : list byte := clientPreface ++ call_bytes (CSettings []).
Definition short_config : ServerConfig := demo_config 1000.
Definition crashed :=
  after_story [Steps 2 4; Steps 0 11; Passes 1000; Steps 2 3; Closes; Steps 3 1]%nat (demo_pool short_input short_config).

(** C27: [keepalive] sets the state to draining without asking whether the transport is closed.  When the
    age of a connection is limited and the timer fires after the reader has closed the transport, the [Close]
    that [serveStreams] defers closes [shutdownChan] a second time: the program panics. *)
Theorem keepalive_reopens :
  served no_jitter no_status (demo_framer short_input) 1000 short_config (demo short_input short_config).1 crashed /\
  goes_wrong Crashes crashed.
Proof.
  split; [apply demo_served; vm_compute; done|].
  exists 3%nat. assert (match crashed.2 !! 3%nat with Some t => thread_result 3 t crashed.1 | None => Goes [] end = Crashes) as Hc
    by (vm_compute; reflexivity).
  destruct (crashed.2 !! 3%nat) as [t|]; [|done]. by exists t.
Qed.

(** [applySettings] subtracts windows as [uint32]: a client that makes the window of its streams smaller
    by [d] bytes, as RFC 7540 allows, gives a stream that is active 2^32 - [d] bytes more. *)
Theorem applySettings_lowered {W} `{Connection W} tid (w : server W) id p s v :
  mu w = None -> activeStreams w = Some {[ id := p ]} -> streams w !! p = Some s ->
  0 <= v < streamSendQuota w -> streamSendQuota w < 2 ^ 32 ->
  exists w', runs tid (applySettings [mkSetting SettingInitialWindowSize v]) w = [(tt, w')] /\
    streamSendQuota w' = v /\
    streams w' !! p = Some (set_s_sendQuotaPool (quotaPool_add (s_sendQuotaPool s) (2 ^ 32 - (streamSendQuota w - v))) s).
Proof.
  intros Hmu Hact Hs Hv Hq. unfold applySettings.
  assert (uint32 (v - streamSendQuota w) = 2 ^ 32 - (streamSendQuota w - v)) as Hsub.
  { unfold uint32. rewrite <- (Z_mod_plus_full _ 1), Z.mod_small by lia. lia. }
  cbn [apply_settings Setting_ID Setting_Val]. rewrite Z.eqb_refl.
  cbn -[uint32 quotaPool_add permutations map_to_list singletonM]. rewrite Hmu.
  cbn -[uint32 quotaPool_add permutations map_to_list singletonM]. rewrite Hact.
  cbn -[uint32 quotaPool_add permutations singletonM]. rewrite map_to_list_singleton.
  cbn -[uint32 quotaPool_add]. rewrite Hs. cbn -[uint32 quotaPool_add].
  eexists. split; [reflexivity|]. cbn -[uint32 quotaPool_add]. split; [done|].
  rewrite list_lookup_insert_eq by (by eapply lookup_lt_Some). by rewrite Hsub.
Qed.

Definition first_call := after_story [Steps 0 10]%nat (demo_pool demo_input (demo_config 0)).
Definition first_stream : Stream := default (new_stream 0 true decodeState_zero 0) (streams first_call.1 !! 0%nat).

Lemma applySettings_lowered_witness :
  exists w', runs 1 (applySettings [mkSetting SettingInitialWindowSize 100]) first_call.1 = [(tt, w')] /\
    streamSendQuota w' = 100 /\
    streams w' !! 0%nat = Some (set_s_sendQuotaPool
      (quotaPool_add (s_sendQuotaPool first_stream) (2 ^ 32 - (streamSendQuota first_call.1 - 100))) first_stream).
Proof.
  apply (applySettings_lowered 1 first_call.1 1 0 first_stream 100).
  - vm_compute. reflexivity.
  - vm_compute. reflexivity.
  - vm_compute. reflexivity.
  - vm_compute. split; [discriminate|reflexivity].
  - vm_compute. reflexivity.
Defined.
