(* ===== verification/ServerLog.v ===== *)
(** * The server's HTTP/2 transport: who writes what

    Every step leaves alone what the others have written and what their calls returned, and the ids of
    the streams; only [framer_write] and [report] add to the goroutine's own. *)

From stdpp Require Import base list strings gmap relations.
From Stdlib Require Import ZArith Strings.Byte Lia.
From S2P Require Import Prelude GoStrings GrpcStatus GrpcTransport.
From S2P Require Import Hpack HpackEncoder HpackDecoder H2Errors GrpcHeaders H2Frame H2Framer H2Calls.
From S2P Require Import GrpcFramer Threads ServerState ServerTransport ServerLoops.
Open Scope Z_scope.

Create HintDb log discriminated.

#[export] Instance Goes_inj {X} : Inj eq eq (Goes (X:=X)).
Proof. by intros x y [= ->]. Qed.

Section log.
Context {W : Type} `{Connection W}.
#[local] Abbreviation server := (server W).

(** What the calls of [tid] returned, and the frames that it wrote. *)
Definition own_at (tid : nat) (w : server) : list (option go_error) * list call :=
  (default [] (outcomes (notes w) !! tid), default [] (log (notes w) !! tid)).

Definition ids_kept (w w' : server) : Prop :=
  forall p s, streams w !! p = Some s -> exists s', streams w' !! p = Some s' /\ s_id s' = s_id s.

#[export] Instance ids_kept_preorder : PreOrder ids_kept.
Proof.
  split.
  - intros w p s Hs. eauto.
  - intros w1 w2 w3 H1 H2 p s Hs. destruct (H1 p s Hs) as (s2 & Hs2 & Hid2). destruct (H2 p s2 Hs2) as (s3 & Hs3 & Hid3).
    exists s3. split; [done|congruence].
Qed.

(** Every frame that a goroutine wrote is on the wire, in its order. *)
Definition wired (w : server) : Prop := forall tid, default [] (log (notes w) !! tid) `sublist_of` wire (notes w).

Definition kept (w w' : server) : Prop := ids_kept w w' /\ (wired w -> wired w').

#[export] Instance kept_preorder : PreOrder kept.
Proof.
  split; [done|]. intros w1 w2 w3 [Hi1 Hw1] [Hi2 Hw2]. split; [by etransitivity|auto].
Qed.

Lemma ids_kept_kept w w' : ids_kept w w' -> notes w' = notes w -> kept w w'.
Proof. intros Hi Hn. split; [done|]. unfold wired. by rewrite Hn. Qed.

(** [loud] programs may add to their own. *)
Definition step_respects (loud : bool) {B} (f : nat -> server -> result (B * server)) : Prop :=
  forall tid w l b w', f tid w = Goes l -> (b, w') ∈ l ->
    kept w w' /\ forall t, loud = false \/ t <> tid -> own_at t w' = own_at t w.

Fixpoint respects (loud : bool) {A} (p : prog server A) : Prop :=
  match p with
  | Ret _ => True
  | Do f k => step_respects loud f /\ forall b, respects loud (k b)
  end.

Lemma respects_ret loud {A} (a : A) : respects loud (mret a).
Proof. done. Qed.

Lemma respects_bind loud {A B} (p : prog server A) (k : A -> prog server B) :
  respects loud p -> (forall a, respects loud (k a)) -> respects loud (p ≫= k).
Proof.
  intros Hp Hk. unfold mbind, prog_mbind. induction p as [a|C f g IH]; cbn [prog_bind respects] in *; [apply Hk|].
  destruct Hp as [Hf Hg]. split; [done|]. intros b. apply IH, Hg.
Qed.

Lemma respects_act loud {B} (f : nat -> server -> result (B * server)) : step_respects loud f -> respects loud (act f).
Proof. done. Qed.

Lemma respects_crash loud {B} : respects loud (crash (W:=server) (B:=B)).
Proof. by split. Qed.
Lemma respects_diverge loud {B} : respects loud (diverge (W:=server) (B:=B)).
Proof. by split. Qed.

Lemma respects_when loud b p : respects loud p -> respects loud (when b p).
Proof. by destruct b. Qed.

Lemma respects_each loud {A} (f : A -> prog server unit) l : (forall x, respects loud (f x)) -> respects loud (each f l).
Proof. intros Hf. induction l as [|x l IH]; cbn [each]; [done|]. by apply respects_bind; [|intros _]. Qed.

(** ** Steps *)

(** A step from [w] changes neither the streams nor the notes that matter here. *)
Definition unlogged (w w' : server) : Prop :=
  streams w' = streams w /\ wire (notes w') = wire (notes w) /\ log (notes w') = log (notes w) /\
  outcomes (notes w') = outcomes (notes w).

Lemma unlogged_kept w w' : unlogged w w' -> kept w w' /\ forall t, own_at t w' = own_at t w.
Proof.
  intros (Hs & Hwire & Hlog & Hout). split.
  - split; [|unfold wired; by rewrite Hwire, Hlog]. intros p s. rewrite Hs. eauto.
  - intros t. unfold own_at. by rewrite Hlog, Hout.
Qed.

Lemma unlogged_respects loud {B} (f : nat -> server -> result (B * server)) :
  (forall tid w l b w', f tid w = Goes l -> (b, w') ∈ l -> unlogged w w') -> step_respects loud f.
Proof. intros Hf tid w l b w' Hl Hin. destruct (unlogged_kept w w' (Hf tid w l b w' Hl Hin)). auto. Qed.

Lemma respects_reads loud {B} (g : server -> B) : respects loud (reads g).
Proof. apply respects_act, unlogged_respects. by intros tid w l b w' [= <-] [= -> ->]%list_elem_of_singleton. Qed.

Lemma respects_writes loud g : (forall w, unlogged w (g w)) -> respects loud (writes g).
Proof. intros Hg. apply respects_act, unlogged_respects. by intros tid w l b w' [= <-] [= -> ->]%list_elem_of_singleton. Qed.

Lemma respects_choose loud {B} (xs : list B) : respects loud (choose (W:=server) xs).
Proof.
  apply respects_act, unlogged_respects. intros tid w l b w' [= <-] (x & [= -> ->] & _)%list_elem_of_fmap. done.
Qed.

Lemma respects_section loud {A} (f : nat -> server -> result (A * server)) : step_respects loud f -> respects loud (section f).
Proof.
  intros Hf. apply respects_act. intros tid w l b w'. destruct (mu w); [|apply Hf].
  intros [= <-] Hin. by apply not_elem_of_nil in Hin.
Qed.

Lemma respects_on_stream loud {A} p (f : nat -> Stream -> result (A * Stream)) :
  (forall tid s l a s', f tid s = Goes l -> (a, s') ∈ l -> s_id s' = s_id s) -> respects loud (on_stream (W:=W) p f).
Proof.
  intros Hf. apply respects_act. intros tid w l b w'. destruct (streams w !! p) as [s|] eqn:Hs; [|done].
  destruct (f tid s) as [| |l2] eqn:Hl; [done..|]. intros [= <-] ([a s'] & [= -> ->] & Hin)%list_elem_of_fmap.
  pose proof (Hf tid s l2 a s' Hl Hin) as Hid. split; [|done]. apply ids_kept_kept; [|done]. intros p2 s2 Hs2. cbn.
  destruct (decide (p = p2)) as [<-|Hne].
  - rewrite list_lookup_insert_eq by (by eapply lookup_lt_Some). exists s'. split; [done|congruence].
  - rewrite list_lookup_insert_ne by done. eauto.
Qed.

End log.

(** A step whose outcomes are written out. *)
Ltac unlogged :=
  apply respects_act, unlogged_respects; let Hl := fresh in let Hin := fresh in
  intros tid w l b w' Hl Hin; cbv beta zeta in Hl; repeat (case_match; try done); apply (inj Goes) in Hl; subst l;
  repeat match type of Hin with
    | _ ∈ _ ++ _ => apply elem_of_app in Hin as [Hin|Hin]
    | _ ∈ [_] => apply list_elem_of_singleton in Hin; injection Hin as -> ->; by split
    | _ ∈ [] => by apply not_elem_of_nil in Hin
    | _ ∈ _ <$> _ => let E := fresh in apply list_elem_of_fmap in Hin as (? & E & Hin); try (injection E as -> ->; by split)
    end.

Section steps.
Context {W : Type} `{Connection W}.
#[local] Abbreviation server := (server W).

Lemma respects_lock_mu loud : respects loud (lock_mu (W:=W)).
Proof. unlogged. Qed.
Lemma respects_unlock_mu loud : respects loud (unlock_mu (W:=W)).
Proof. unlogged. Qed.
Lemma respects_put loud i : respects loud (put (W:=W) i).
Proof. by apply respects_writes. Qed.
Lemma respects_fc_onData loud n : respects loud (fc_onData (W:=W) n).
Proof. unlogged. Qed.
Lemma respects_fc_onRead loud n : respects loud (fc_onRead (W:=W) n).
Proof. unlogged. Qed.
Lemma respects_grant loud n : respects loud (grant (W:=W) n).
Proof. by apply respects_writes. Qed.
Lemma respects_give_back loud n : respects loud (give_back (W:=W) n).
Proof. unlogged. Qed.
Lemma respects_send_writable loud : respects loud (send_writable (W:=W)).
Proof. unlogged. Qed.
Lemma respects_close_shutdown loud : respects loud (close_shutdown (W:=W)).
Proof. unlogged. Qed.
Lemma respects_conn_Close loud : respects loud (conn_Close (W:=W)).
Proof. unlogged. Qed.
Lemma respects_framer_flush loud : respects loud (framer_flush (W:=W)).
Proof. unlogged. Qed.
Lemma respects_framer_adjust loud i : respects loud (framer_adjust (W:=W) i).
Proof. unlogged. Qed.
Lemma respects_framer_read loud : respects loud (framer_read (W:=W)).
Proof. unlogged. Qed.
Lemma respects_encode loud fs : respects loud (encode (W:=W) fs).
Proof. apply respects_bind; [by apply respects_writes|intros _]. unlogged. Qed.

(** *** On a stream *)

Lemma respects_stream_get loud {A} p (g : Stream -> A) : respects loud (stream_get (W:=W) p g).
Proof. apply respects_on_stream. by intros tid s l a s' [= <-] [= -> ->]%list_elem_of_singleton. Qed.
Lemma respects_stream_set loud p g : (forall s, s_id (g s) = s_id s) -> respects loud (stream_set (W:=W) p g).
Proof. intros Hg. apply respects_on_stream. intros tid s l a s' [= <-] [= -> ->]%list_elem_of_singleton. apply Hg. Qed.
Lemma respects_stream_section loud {A} p (f : Stream -> A * Stream) :
  (forall s, s_id (f s).2 = s_id s) -> respects loud (stream_section (W:=W) p f).
Proof.
  intros Hf. apply respects_on_stream. intros tid s l a s' Hl Hin. destruct (s_mu s); injection Hl as <-.
  - by apply not_elem_of_nil in Hin.
  - apply list_elem_of_singleton in Hin. specialize (Hf s). by rewrite <- Hin in Hf.
Qed.
Lemma respects_stream_lock loud p : respects loud (stream_lock (W:=W) p).
Proof.
  apply respects_on_stream. intros tid s l a s' Hl Hin. destruct (s_mu s); injection Hl as <-.
  - by apply not_elem_of_nil in Hin.
  - by apply list_elem_of_singleton in Hin as [= -> ->].
Qed.
Lemma respects_stream_unlock loud p : respects loud (stream_unlock (W:=W) p).
Proof.
  apply respects_on_stream. intros tid s l a s' Hl Hin. destruct (s_mu s); [|done]. injection Hl as <-.
  by apply list_elem_of_singleton in Hin as [= -> ->].
Qed.
Lemma respects_cancel loud p : respects loud (cancel (W:=W) p).
Proof. apply respects_stream_set. intros s. unfold set_done. by destruct (reader_done (s_dec s)). Qed.
Lemma respects_stream_write loud p m : respects loud (stream_write (W:=W) p m).
Proof. by apply respects_stream_set. Qed.
Lemma respects_stream_onData loud p n : respects loud (stream_onData (W:=W) p n).
Proof.
  apply respects_on_stream. intros tid s l a s' Hl Hin. destruct (onData (s_fc s) n). injection Hl as <-.
  by apply list_elem_of_singleton in Hin as [= -> ->].
Qed.
Lemma respects_stream_onRead loud p n : respects loud (stream_onRead (W:=W) p n).
Proof.
  apply respects_on_stream. intros tid s l a s' Hl Hin. destruct (onRead (s_fc s) n). injection Hl as <-.
  by apply list_elem_of_singleton in Hin as [= -> ->].
Qed.
Lemma respects_stream_add loud p v : respects loud (stream_add (W:=W) p v).
Proof. by apply respects_stream_set. Qed.

(** *** [wait] *)

Lemma respects_wait loud {A} p (proceed : nat -> server -> list (A * server)) :
  (forall tid w a w', (a, w') ∈ proceed tid w -> kept w w' /\ forall t, own_at t w' = own_at t w) ->
  respects loud (wait p proceed).
Proof.
  intros Hp. apply respects_act. intros tid w l b w' Hl Hin. destruct (streams w !! p) as [s|]; [|done].
  assert (kept w w' /\ forall t, own_at t w' = own_at t w) as [? Hown]; [|split; [done|intros t _; apply Hown]].
  assert ((b, w') ∈ (if shutdownChan w then [(inl ErrConnClosing, w)] else []) ++ ((fun '(a, w) => (inr a, w)) <$> proceed tid w) ->
    kept w w' /\ forall t, own_at t w' = own_at t w) as Hrest.
  { intros [Hi|Hi]%elem_of_app.
    - destruct (shutdownChan w); [|by apply not_elem_of_nil in Hi]. apply list_elem_of_singleton in Hi as [= -> ->]. done.
    - apply list_elem_of_fmap in Hi as ([a w2] & [= -> ->] & Hi). by apply (Hp tid w a w2). }
  destruct (from_option ContextErr (Err EOF) (reader_done (s_dec s))) as [e|e| |]; try done; injection Hl as <-.
  - apply elem_of_cons in Hin as [[= -> ->]|Hin]; [done|auto].
  - auto.
Qed.

Lemma respects_wait_writable loud p : respects loud (wait (W:=W) p take_writable).
Proof.
  apply respects_wait. intros tid w a w' Hin. unfold take_writable in Hin. destruct (writableChan w).
  - by apply not_elem_of_nil in Hin.
  - apply list_elem_of_singleton in Hin as [= -> ->]. by apply unlogged_kept.
Qed.
Lemma respects_wait_conn loud p : respects loud (wait (W:=W) p acquire_conn).
Proof.
  apply respects_wait. intros tid w a w' Hin. unfold acquire_conn in Hin. destruct (quotaPool_acquire _) as [[n q]|].
  - apply list_elem_of_singleton in Hin as [= -> ->]. by apply unlogged_kept.
  - by apply not_elem_of_nil in Hin.
Qed.
Lemma respects_wait_stream loud p q : respects loud (wait (W:=W) p (acquire_stream q)).
Proof.
  apply respects_wait. intros tid w a w' Hin. unfold acquire_stream in Hin.
  destruct (streams w !! q) as [s|] eqn:Hs; [|by apply not_elem_of_nil in Hin].
  destruct (quotaPool_acquire _) as [[n q']|]; [|by apply not_elem_of_nil in Hin].
  apply list_elem_of_singleton in Hin as [= -> ->]. split; [|done]. apply ids_kept_kept; [|done]. intros p2 s2 Hs2. cbn.
  destruct (decide (q = p2)) as [<-|Hne].
  - rewrite list_lookup_insert_eq by (by eapply lookup_lt_Some). eexists. split; [done|]. cbn. congruence.
  - rewrite list_lookup_insert_ne by done. eauto.
Qed.
End steps.

#[export] Hint Resolve respects_lock_mu respects_unlock_mu respects_put respects_fc_onData respects_fc_onRead respects_grant
  respects_give_back respects_send_writable respects_close_shutdown respects_conn_Close respects_framer_flush
  respects_framer_adjust respects_framer_read respects_encode respects_stream_get respects_stream_section
  respects_stream_lock respects_stream_unlock respects_cancel respects_stream_write respects_stream_onData
  respects_stream_onRead respects_stream_add respects_wait_writable respects_wait_conn respects_wait_stream
  respects_crash respects_diverge respects_reads respects_choose : log.

(** Through a program, case by case; what is left are steps that are not in the hints. *)
Ltac respects :=
  repeat (intros; match goal with
    | |- respects _ (_ ≫= _) => apply respects_bind
    | |- respects _ (mret _) => apply respects_ret
    | |- respects _ (when _ _) => apply respects_when
    | |- respects _ (each _ _) => apply respects_each
    | |- respects _ (match ?x with _ => _ end) => destruct x
    | |- respects _ _ => solve [auto with log]
    end); intros.

(** ** The methods *)

Section methods.
Context {W : Type} `{Connection W} (cf : setup) (unmarshalStatus : list byte -> res string Status).
#[local] Abbreviation server := (server W).

(** A section whose outcomes are written out. *)
Ltac quiet_section :=
  apply respects_section, unlogged_respects; let Hl := fresh in let Hin := fresh in
  intros tid w l b w' Hl Hin; cbv beta zeta in Hl; repeat (case_match; try done); apply (inj Goes) in Hl; subst l;
  apply list_elem_of_singleton in Hin; injection Hin as -> ->; by split.

Lemma respects_release loud n : respects loud (release (W:=W) n).
Proof. unfold release. respects. Qed.
Lemma respects_Close loud : respects loud (Close (W:=W)).
Proof.
  unfold Close. apply respects_bind.
  { unfold Close_section. quiet_section. }
  respects.
Qed.
Hint Resolve respects_release respects_Close : log.

Lemma respects_closeStream loud p : respects loud (closeStream (W:=W) p).
Proof.
  unfold closeStream. respects.
  - unfold closeStream_section. quiet_section.
  - apply respects_on_stream. intros tid s l b s' Hl Hin. destruct (resetPendingData (s_fc s)). injection Hl as <-.
    by apply list_elem_of_singleton in Hin as [= -> ->].
  - by apply respects_stream_set.
Qed.
Lemma respects_Drain loud : respects loud (Drain (W:=W)).
Proof. unfold Drain. respects. Qed.
Hint Resolve respects_closeStream respects_Drain : log.

(** The steps that add to the goroutine's own. *)
Lemma write_kept tid c err f (w : server) : kept w (set_notes (note_frame tid c err (notes w)) (set_fr f w)).
Proof.
  split; [intros p s; eauto|]. unfold wired, note_frame. destruct err as [err|]; [done|]. intros Hw t. specialize (Hw t).
  assert (default [] ((<[tid := default [] (log (notes w) !! tid) ++ [c]]> (log (notes w))) !! t)
    `sublist_of` wire (notes w) ++ [c]) as Ht.
  { destruct (decide (tid = t)) as [->|Hne]; [rewrite lookup_insert_eq; by apply sublist_app|].
    rewrite lookup_insert_ne by done. by apply sublist_inserts_r. }
  by destruct (quota_used c =? 0).
Qed.
Lemma report_kept tid err (w : server) : kept w (set_notes (note_outcome tid err (notes w)) w).
Proof. split; [intros p s; eauto|done]. Qed.

Lemma respects_framer_write b c : respects true (framer_write (W:=W) b c).
Proof.
  apply respects_act. intros tid w l err w' Hl Hin. destruct (framer_call b c (fr w)) as [e f]. injection Hl as <-.
  apply list_elem_of_singleton in Hin as [= -> ->]. split; [apply write_kept|]. intros t [|Hne]; [done|].
  unfold own_at, note_frame, note_wire. destruct e; [done|].
  destruct (quota_used c =? 0); cbn; by rewrite lookup_insert_ne.
Qed.
Lemma respects_report err : respects true (report (W:=W) err).
Proof.
  apply respects_act. intros tid w l b w' [= <-] [= -> ->]%list_elem_of_singleton. split; [apply report_kept|].
  intros t [|Hne]; [done|]. unfold own_at. cbn. by rewrite lookup_insert_ne.
Qed.
Hint Resolve respects_framer_write respects_report : log.

Lemma respects_write_frames cs : respects true (write_frames (W:=W) cs).
Proof. induction cs as [|[b c] cs IH]; cbn [write_frames]; respects. Qed.
Hint Resolve respects_write_frames : log.

Lemma respects_server_writeHeaders p b es : respects true (server_writeHeaders (W:=W) p b es).
Proof. unfold server_writeHeaders. respects. by apply respects_writes. Qed.
Hint Resolve respects_server_writeHeaders : log.

Lemma respects_WriteHeader p md : respects true (WriteHeader (W:=W) p md).
Proof.
  unfold WriteHeader. respects. apply respects_stream_section. intros s. unfold WriteHeader_section. by repeat case_match.
Qed.
Hint Resolve respects_WriteHeader : log.

Lemma respects_WriteStatus p st : respects true (WriteStatus (W:=W) p st).
Proof. unfold WriteStatus. respects. Qed.
Lemma respects_leave_writers loud : respects loud (leave_writers (W:=W)).
Proof. unfold leave_writers. respects. Qed.
Hint Resolve respects_WriteStatus respects_leave_writers : log.

Lemma respects_write_loop fuel p id last r : respects true (write_loop (W:=W) fuel p id last r).
Proof.
  revert r. induction fuel as [|fuel IH]; intros r; cbn [write_loop]; [respects|]. unfold write_chunk. respects.
Qed.
Hint Resolve respects_write_loop : log.

Lemma respects_Write p data last : respects true (Write (W:=W) p data last).
Proof. unfold Write. respects. by apply respects_writes. Qed.
Lemma respects_updateWindow loud p n : respects loud (updateWindow (W:=W) p n).
Proof. unfold updateWindow. respects. Qed.
Hint Resolve respects_Write respects_updateWindow : log.

Lemma respects_Stream_Read loud p choice n : respects loud (Stream_Read (W:=W) p choice n).
Proof.
  unfold Stream_Read. respects. apply respects_on_stream. intros tid s l x s' Hl Hin. unfold read_step in Hl.
  destruct (Reader_Read _ _ _) as [[| | |] d]; try done; injection Hl as <-;
    [by apply list_elem_of_singleton in Hin as [= -> ->]..|by apply not_elem_of_nil in Hin].
Qed.
Lemma respects_SetHeader loud p md : respects loud (SetHeader (W:=W) p md).
Proof. apply respects_stream_section. intros s. by repeat case_match. Qed.
Lemma respects_SetTrailer loud p md : respects loud (SetTrailer (W:=W) p md).
Proof. unfold SetTrailer. respects. Qed.
Lemma respects_SetSendCompress loud p str : respects loud (SetSendCompress (W:=W) p str).
Proof. by apply respects_stream_set. Qed.
Hint Resolve respects_Stream_Read respects_SetHeader respects_SetTrailer respects_SetSendCompress : log.

Lemma respects_run_operation p o : respects true (run_operation (W:=W) p o).
Proof. destruct o; cbn [run_operation]; respects. Qed.

(** ** The goroutines of the transport *)

Lemma admit_section_respects loud s : step_respects loud (admit_section (W:=W) cf s).
Proof.
  intros tid w l b w' Hl Hin. assert (kept w w' /\ forall t, own_at t w' = own_at t w) as [? Ho]; [|auto].
  unfold admit_section in Hl. cbv zeta in Hl.
  repeat match type of Hl with
    | (if ?c then Goes _ else _) = _ =>
        destruct c; [injection Hl as <-; apply list_elem_of_singleton in Hin; injection Hin as -> ->; by apply unlogged_kept|]
    end.
  destruct (activeStreams w) as [active|]; [|done]. apply (inj Goes) in Hl. subst l.
  apply list_elem_of_singleton in Hin. injection Hin as -> ->. split; [|by case_bool_decide].
  apply ids_kept_kept; [|by case_bool_decide]. intros p s2 Hs2. exists s2. split; [|done]. case_bool_decide; cbn; rewrite lookup_app_l; try done; by eapply lookup_lt_Some.
Qed.

Lemma respects_operateHeaders loud h fields : respects loud (operateHeaders (W:=W) cf unmarshalStatus h fields).
Proof.
  unfold operateHeaders. respects; [apply respects_section, admit_section_respects|by apply respects_writes].
Qed.
Lemma respects_getStream loud id : respects loud (getStream (W:=W) id).
Proof. unfold getStream. quiet_section. Qed.
Hint Resolve respects_operateHeaders respects_getStream : log.
Lemma respects_deliver loud p data : respects loud (deliver (W:=W) p data).
Proof. unfold deliver. respects. Qed.
Lemma respects_deliver_end loud p : respects loud (deliver_end (W:=W) p).
Proof. unfold deliver_end. respects. apply respects_stream_section. intros s. by case_bool_decide. Qed.
Hint Resolve respects_deliver respects_deliver_end : log.
Lemma respects_account loud p h data : respects loud (account (W:=W) p h data).
Proof. unfold account. respects. Qed.
Hint Resolve respects_account : log.
Lemma respects_handleData loud f : respects loud (handleData (W:=W) f).
Proof. unfold handleData. respects. Qed.
Lemma respects_handleRSTStream loud id : respects loud (handleRSTStream (W:=W) id).
Proof. unfold handleRSTStream. respects. Qed.
Lemma respects_handleSettings loud h payload : respects loud (handleSettings (W:=W) h payload).
Proof. unfold handleSettings. respects. Qed.
Lemma respects_handlePing loud h data : respects loud (handlePing (W:=W) cf h data).
Proof.
  unfold handlePing. respects; try (apply respects_writes; intros w; by repeat case_match); [unlogged|quiet_section].
Qed.
Lemma respects_handleWindowUpdate loud id incr : respects loud (handleWindowUpdate (W:=W) id incr).
Proof. unfold handleWindowUpdate. respects. Qed.
Hint Resolve respects_handleData respects_handleRSTStream respects_handleSettings respects_handlePing
  respects_handleWindowUpdate : log.
Lemma respects_handle_frame loud f : respects loud (handle_frame (W:=W) cf unmarshalStatus f).
Proof. destruct f; cbn [handle_frame]; respects. Qed.
Hint Resolve respects_handle_frame : log.
Lemma respects_reader_round loud u : respects loud (reader_round (W:=W) cf unmarshalStatus u).
Proof. unfold reader_round. respects. by apply respects_writes. Qed.
Lemma respects_read_preface loud : respects loud (read_preface (W:=W)).
Proof. unfold read_preface. unlogged. Qed.
Hint Resolve respects_read_preface : log.
Lemma respects_HandleStreams loud : respects loud (HandleStreams (W:=W)).
Proof. unfold HandleStreams. respects. by apply respects_writes. Qed.

Lemma respects_apply_settings loud ss locked : respects loud (apply_settings (W:=W) ss locked).
Proof. revert locked. induction ss as [|s ss IH]; intros locked; cbn [apply_settings]; respects; try (by apply respects_writes); apply IH. Qed.
Hint Resolve respects_apply_settings : log.
Lemma respects_control i : respects true (control (W:=W) i).
Proof. destruct i; cbn [control]; unfold applySettings; respects. unfold goAway_section. quiet_section. Qed.
Hint Resolve respects_control : log.
Lemma respects_controller u : respects true (controller (W:=W) u).
Proof.
  unfold controller. respects; [unfold next_item; unlogged|]. unfold next_turn.
  apply respects_act, unlogged_respects. intros tid w l b w' [= <-] [Hin|Hin]%elem_of_app.
  - apply list_elem_of_fmap in Hin as ([[] w2] & [= -> ->] & Hin). unfold take_writable in Hin.
    destruct (writableChan w); [by apply not_elem_of_nil in Hin|]. by apply list_elem_of_singleton in Hin as [= ->].
  - destruct (shutdownChan w); [|by apply not_elem_of_nil in Hin]. by apply list_elem_of_singleton in Hin as [= -> ->].
Qed.

Lemma respects_stop_timers loud k : respects loud (stop_timers (W:=W) k).
Proof. unfold stop_timers. unlogged. Qed.
Lemma respects_reset loud d : respects loud (reset (W:=W) d).
Proof. unfold reset. respects. Qed.
Hint Resolve respects_stop_timers respects_reset : log.
Lemma respects_keepalive loud k : respects loud (keepalive (W:=W) cf k).
Proof.
  unfold keepalive. respects; try unlogged; unfold idle_section; quiet_section.
Qed.
Lemma respects_start_keepalive loud : respects loud (start_keepalive (W:=W) cf).
Proof. unfold start_keepalive. respects. Qed.
End methods.

#[export] Hint Resolve respects_release respects_Close respects_closeStream respects_Drain respects_framer_write
  respects_report respects_write_frames respects_server_writeHeaders respects_WriteHeader respects_WriteStatus
  respects_leave_writers respects_write_loop respects_Write respects_updateWindow respects_Stream_Read
  respects_SetHeader respects_SetTrailer respects_SetSendCompress respects_run_operation respects_reader_round
  respects_HandleStreams respects_controller respects_keepalive respects_start_keepalive : log.
