(* ===== verification/ServerSends.v ===== *)
(** * The server's HTTP/2 transport: what a handler puts on the connection

    The frames that a goroutine writes while it calls one method after the other on a stream, in every
    interleaving with the rest of the transport. *)

From stdpp Require Import base list strings gmap relations.
From Stdlib Require Import ZArith Strings.Byte Lia.
From S2P Require Import Prelude GoStrings GrpcStatus GrpcTransport.
From S2P Require Import Hpack HpackEncoder HpackSync HpackDecoder H2Errors GrpcHeaders H2Frame H2Framer H2Calls.
From S2P Require Import GrpcFramer Threads ServerState ServerTransport ServerLoops ServerLog.
Open Scope Z_scope.

(** ** The frames of an operation *)

(** The frames of a block of these fields, as some state of the encoder wrote it. *)
Definition block_of (id : Z) (endStream : bool) (fs : list HeaderField) (cs : list call) : Prop :=
  exists e e' b, run_ops (E:=hpack_error) e (OpField <$> fs) = Ok (e', b) /\ cs = (header_calls id endStream b).*2.

Definition header_block (id : Z) (cs : list call) : Prop := exists sendCompress md, block_of id false (header_fields sendCompress md) cs.
Definition status_block (id : Z) (st : Status) (cs : list call) : Prop :=
  exists headersSent trailer, block_of id true (status_fields headersSent st trailer) cs.

(** The beginning of one, or nothing. *)
Definition part_of (block : list call -> Prop) (fs : list call) : Prop := fs = [] \/ exists cs, block cs /\ fs `prefix_of` cs.

Definition data_frames (id : Z) (chunks : list (list byte)) : list call := (fun c => CData id false c None) <$> chunks.

(** What an operation has written: while it runs ([None]) and when it has returned. *)
Definition op_frames (id : Z) (o : operation) (returned : option (option go_error)) (fs : list call) : Prop :=
  match o with
  | OpWriteHeader _ => part_of (header_block id) fs /\ (returned = Some None -> header_block id fs)
  | OpWrite data _ =>
      exists hs chunks, part_of (header_block id) hs /\ fs = hs ++ data_frames id chunks /\
        Forall (fun c => slen c <= http2MaxFrameLen) chunks /\ concat chunks `prefix_of` data /\
        (returned = Some None -> concat chunks = data)
  | OpWriteStatus st =>
      exists hs ts, part_of (header_block id) hs /\ part_of (status_block id st) ts /\ fs = hs ++ ts /\
        (returned = Some None -> fs = [] \/ status_block id st ts)
  | _ => fs = []
  end.

Definition reports (o : operation) : bool :=
  match o with OpWriteHeader _ | OpWrite _ _ | OpWriteStatus _ => true | _ => false end.

(** The log of a goroutine that performs the operations, all of which report. *)
Inductive ops_log (id : Z) : list operation -> list (option go_error) -> list call -> Prop :=
| log_done : ops_log id [] [] []
| log_running o os fs : op_frames id o None fs -> ops_log id (o :: os) [] fs
| log_returned o os r rs fs fs' :
    op_frames id o (Some r) fs -> ops_log id os rs fs' -> ops_log id (o :: os) (r :: rs) (fs ++ fs').

Lemma part_of_nil block : part_of block [].
Proof. by left. Qed.

Lemma op_frames_nil id o : op_frames id o None [].
Proof.
  destruct o; cbn; try done.
  - split; [apply part_of_nil|done].
  - exists [], []. split; [apply part_of_nil|]. split; [done|]. split; [done|]. split; [apply prefix_nil|done].
  - exists [], []. repeat split; try apply part_of_nil. done.
Qed.

(** Operations that have all returned. *)
Definition ops_done (id : Z) (os : list operation) (rs : list (option go_error)) (l : list call) : Prop :=
  ops_log id os rs l /\ length rs = length os.

Lemma ops_done_app id os rs l os' rs' l' : ops_done id os rs l -> ops_log id os' rs' l' -> ops_log id (os ++ os') (rs ++ rs') (l ++ l').
Proof.
  intros [Hl Hlen] Hl'. induction Hl as [|o os fs|o os r rs fs fs' Hfs Hl IH]; [done|done|].
  cbn. rewrite <- app_assoc. apply log_returned; [done|]. apply IH. by injection Hlen.
Qed.

Lemma ops_log_start id os : ops_log id os [] [].
Proof. destruct os; constructor. apply op_frames_nil. Qed.

Lemma ops_done_snoc id os rs l o r fs :
  ops_done id os rs l -> op_frames id o (Some r) fs -> ops_done id (os ++ [o]) (rs ++ [r]) (l ++ fs).
Proof.
  intros Hd Hfs. split.
  - apply (ops_done_app id os rs l); [done|]. rewrite <- (app_nil_r fs). apply log_returned; [done|constructor].
  - rewrite !length_app. destruct Hd as [_ ->]. done.
Qed.

(** ** Rules *)

Section sends.
Context {W : Type} `{Connection W} (me p : nat) (id : Z) (I : list (option go_error) -> list call -> Prop).
#[local] Abbreviation server := (server W).

(** [I] holds of what [me] has written at every moment. *)
Definition log_inv (w : server) : Prop := I (own_at me w).1 (own_at me w).2.
Definition log_rely (t : nat) (w w' : server) : Prop := kept w w' /\ (t = me -> own_at me w' = own_at me w).
Definition anything (w : server) : Prop := True.

#[export] Instance log_rely_preorder t : PreOrder (log_rely t).
Proof.
  split; [done|]. intros w1 w2 w3 [Hk1 Ho1] [Hk2 Ho2]. split; [by etransitivity|]. intros Ht. by rewrite Ho2, Ho1.
Qed.

#[local] Abbreviation wp := (Threads.wp log_inv log_rely anything).

Definition stands_at (o : list (option go_error)) (l : list call) (w : server) : Prop :=
  own_at me w = (o, l) /\ exists s, streams w !! p = Some s /\ s_id s = id.

Lemma stands_at_stable o l w w' : log_rely me w w' -> stands_at o l w -> stands_at o l w'.
Proof.
  intros [Hk Ho] [Hown (s & Hs & Hid)]. split; [by rewrite Ho|]. destruct (proj1 Hk p s Hs) as (s' & Hs' & Hid').
  exists s'. split; [done|congruence].
Qed.

(** From the log [l], [me] runs [c] to a result and a log. *)
Definition sends {A} (o : list (option go_error)) (l : list call) (c : prog server A) (Q : A -> list call -> Prop) : Prop :=
  forall w, stands_at o l w -> wp me c (fun a w => exists l', stands_at o l' w /\ Q a l') w.

Lemma sends_ret {A} o l (a : A) (Q : A -> list call -> Prop) : Q a l -> sends o l (mret a) Q.
Proof. intros HQ w Hw w' Hr _. exists l. split; [by eapply stands_at_stable|done]. Qed.

Lemma sends_bind {A B} o l (c : prog server A) (k : A -> prog server B) Q1 Q :
  sends o l c Q1 -> (forall a l', Q1 a l' -> sends o l' (k a) Q) -> sends o l (c ≫= k) Q.
Proof.
  intros Hc Hk w Hw. apply wp_seq; [apply _|]. eapply wp_conseq; [|by apply Hc].
  intros a w' _ (l' & Hw' & HQ). by apply (Hk a l' HQ).
Qed.

Lemma sends_mono {A} o l (c : prog server A) (Q Q' : A -> list call -> Prop) :
  (forall a l', Q a l' -> Q' a l') -> sends o l c Q -> sends o l c Q'.
Proof. intros HQ Hc w Hw. eapply wp_conseq; [|by apply Hc]. intros a w' _ (l' & Hw' & Ha). eauto. Qed.

Lemma guarantee_me w w' : kept w w' -> guarantee log_rely me w w'.
Proof. intros Hk t Ht. by split. Qed.

Lemma sends_silent {A} o l (c : prog server A) : respects false c -> sends o l c (fun _ l' => l' = l).
Proof.
  induction c as [a|B f k IH]; intros Hc w Hw; cbn [Threads.wp].
  - intros w' Hr _. exists l. split; [by eapply stands_at_stable|done].
  - destruct Hc as [Hf Hk]. intros w' Hr Hi. pose proof (stands_at_stable _ _ _ _ Hr Hw) as Hw'.
    destruct (f me w') as [| |outs] eqn:Hout; [done..|]. intros b w'' Hin.
    destruct (Hf me w' outs b w'' Hout Hin) as [Hids Hown]. specialize (Hown me (or_introl eq_refl)).
    split; [unfold log_inv; by rewrite Hown|]. split; [by apply guarantee_me|]. apply IH; [apply Hk|].
    eapply stands_at_stable; [|exact Hw']. by split.
Qed.

Lemma sends_skip {A B} o l (c : prog server A) (k : A -> prog server B) Q :
  respects false c -> (forall a, sends o l (k a) Q) -> sends o l (c ≫= k) Q.
Proof. intros Hc Hk. eapply sends_bind; [by apply sends_silent|]. intros a l' ->. apply Hk. Qed.

Lemma sends_skip_when {B} o l b (c : prog server unit) (k : unit -> prog server B) Q :
  respects false c -> (forall a, sends o l (k a) Q) -> sends o l (when b c ≫= k) Q.
Proof. intros Hc. apply sends_skip. by apply respects_when. Qed.

(** A step that is known to end in some of these ways. *)
Lemma sends_act {A} o l (f : nat -> server -> result (A * server)) (Q : A -> list call -> Prop) :
  (forall w, stands_at o l w -> log_inv w ->
     match f me w with
     | Goes outs => forall a w', (a, w') ∈ outs -> log_inv w' /\ kept w w' /\ exists l', stands_at o l' w' /\ Q a l'
     | _ => True
     end) ->
  sends o l (act f) Q.
Proof.
  intros Hf w Hw w1 Hr Hi. pose proof (stands_at_stable _ _ _ _ Hr Hw) as Hw1. specialize (Hf w1 Hw1 Hi).
  destruct (f me w1) as [| |outs]; [done..|]. intros a w2 Hin. destruct (Hf a w2 Hin) as (Hi2 & Hk & l' & Hw2 & HQ).
  split; [done|]. split; [by apply guarantee_me|]. intros w3 Hr3 _. exists l'. split; [by eapply stands_at_stable|done].
Qed.

Lemma sends_framer_write o l b c :
  I o (l ++ [c]) -> sends o l (framer_write b c) (fun err l' => l' = match err with None => l ++ [c] | Some _ => l end).
Proof.
  intros HI. apply sends_act. intros w [Hown Hs] Hi. destruct (framer_call b c (fr w)) as [err f].
  intros a w' [= -> ->]%list_elem_of_singleton. unfold log_inv in *. rewrite Hown in Hi. cbn in Hi.
  assert (own_at me (set_notes (note_frame me c err (notes w)) (set_fr f w)) = (o, match err with None => l ++ [c] | Some _ => l end)) as Hown'.
  { destruct err as [err|]; [exact Hown|]. unfold own_at in *. injection Hown as <- <-. unfold note_frame.
    destruct (quota_used c =? 0); cbn; by rewrite lookup_insert_eq. }
  rewrite Hown'. split; [by destruct err|]. split; [apply write_kept|]. eexists. split; [by split|done].
Qed.

Lemma sends_report o l err : I (o ++ [err]) l -> forall w, stands_at o l w ->
  wp me (report err) (fun _ w => stands_at (o ++ [err]) l w) w.
Proof.
  intros HI w Hw w1 Hr Hi. destruct (stands_at_stable _ _ _ _ Hr Hw) as [Hown Hs]. cbn.
  intros [] w2 [= ->]%list_elem_of_singleton.
  assert (own_at me (set_notes (note_outcome me err (notes w1)) w1) = (o ++ [err], l)) as Hown'.
  { unfold own_at in *. injection Hown as <- <-. cbn. by rewrite lookup_insert_eq. }
  split; [unfold log_inv; by rewrite Hown'|]. split; [apply guarantee_me, report_kept|].
  intros w3 Hr3 _. eapply stands_at_stable; [exact Hr3|]. by split.
Qed.

Lemma sends_encode o l fs :
  sends o l (encode fs) (fun b l' => l' = l /\ exists e e', run_ops (E:=hpack_error) e (OpField <$> fs) = Ok (e', b)).
Proof.
  apply sends_skip; [by apply respects_writes|]. intros []. apply sends_act. intros w Hw Hi.
  destruct (run_ops _ _) as [[e out]| | |] eqn:Hrun; [|done..].
  intros b w' [= -> ->]%list_elem_of_singleton. split; [done|]. split; [apply ids_kept_kept; [intros q s Hq; by exists s|done]|].
  exists l. split; [exact Hw|]. eauto.
Qed.

Lemma sends_id o l : sends o l (stream_get p s_id) (fun a l' => a = id /\ l' = l).
Proof.
  apply sends_act. intros w [Hown (s & Hs & Hid)] Hi. rewrite Hs. intros a w' Hin. cbn in Hin.
  apply list_elem_of_singleton in Hin as [= -> ->].
  assert (set_streams (<[p:=s]> (streams w)) w = w) as Heq by (rewrite list_insert_id by done; by destruct w).
  rewrite Heq. split; [done|]. split; [done|]. exists l. split; [by split; [|exists s]|done].
Qed.

(** ** The methods *)

Ltac skip := (apply sends_skip || apply sends_skip_when); [solve [respects]|intros ?].

Lemma sends_write_frames o l cs :
  (forall fs, fs `prefix_of` cs.*2 -> I o (l ++ fs)) ->
  sends o l (write_frames cs) (fun err l' => match err with
    | None => l' = l ++ cs.*2
    | Some _ => exists fs, fs `prefix_of` cs.*2 /\ l' = l ++ fs end).
Proof.
  revert l. induction cs as [|[b c] cs IH]; intros l HI; cbn [write_frames].
  { apply sends_ret. cbn. by rewrite app_nil_r. }
  eapply sends_bind; [apply (sends_framer_write o l b c)|].
  { apply HI. exists cs.*2. done. }
  intros [err|] l' ->; cbv beta iota.
  - skip. apply sends_ret. exists []. split; [apply prefix_nil|by rewrite app_nil_r].
  - eapply sends_mono; [|apply IH].
    + intros [err|] l'; cbn; [|by rewrite <- app_assoc]. intros (fs & Hfs & ->). exists (c :: fs).
      split; [by apply prefix_cons|by rewrite <- app_assoc].
    + intros fs Hfs. rewrite <- app_assoc. apply HI. by apply prefix_cons.
Qed.

Lemma sends_writeHeaders o l b es :
  (forall fs, fs `prefix_of` (header_calls id es b).*2 -> I o (l ++ fs)) ->
  sends o l (server_writeHeaders p b es) (fun err l' => match err with
    | None => l' = l ++ (header_calls id es b).*2
    | Some _ => exists fs, fs `prefix_of` (header_calls id es b).*2 /\ l' = l ++ fs end).
Proof.
  intros HI. eapply sends_bind; [apply sends_id|]. intros a l' [-> ->].
  eapply sends_bind; [by apply sends_write_frames|]. intros err l' Hl'.
  apply sends_skip_when; [by apply respects_writes|]. intros []. by apply sends_ret.
Qed.

Lemma sends_WriteHeader o l md :
  (forall fs, part_of (header_block id) fs -> I o (l ++ fs)) ->
  sends o l (WriteHeader p md) (fun err l' => exists fs, part_of (header_block id) fs /\ l' = l ++ fs /\ (err = None -> header_block id fs)).
Proof.
  intros HI. assert (forall err : go_error, exists fs, part_of (header_block id) fs /\ l = l ++ fs /\ (Some err = None -> header_block id fs)) as Hnone.
  { intros err. exists []. split; [apply part_of_nil|]. by rewrite app_nil_r. }
  unfold WriteHeader. apply sends_skip.
  { apply respects_stream_section. intros s. unfold WriteHeader_section. by repeat case_match. }
  intros [err|md']; [by apply sends_ret|]. skip. case_match; [by apply sends_ret|]. skip. skip.
  eapply sends_bind; [apply sends_encode|]. intros b l' (-> & e & e' & Hrun).
  assert (header_block id (header_calls id false b).*2) as Hblock by (eexists _, _; by exists e, e', b).
  eapply sends_bind; [apply sends_writeHeaders|].
  { intros fs Hfs. apply HI. right. by exists (header_calls id false b).*2. }
  intros [err|] l'; cbv beta iota.
  - intros (fs & Hfs & ->). apply sends_ret. exists fs. split; [|done]. right. by exists (header_calls id false b).*2.
  - intros ->. skip. apply sends_ret. eexists. split; [|done]. right. by eexists.
Qed.

(** [Some]: nothing was written. *)
Lemma sends_write_chunk o l last chunk rest :
  I o (l ++ [CData id false chunk None]) ->
  sends o l (write_chunk p id last chunk rest)
    (fun err l' => l' = match err with None => l ++ [CData id false chunk None] | Some _ => l end).
Proof.
  intros HI. unfold write_chunk. cbv zeta. skip. skip. case_match.
  { skip. skip. by apply sends_ret. }
  skip. case_match.
  { skip. skip. skip. destruct (ContextErr _); [by apply sends_ret|by intros w Hw w' Hr Hi..]. }
  skip. eapply sends_bind; [by apply sends_framer_write|]. intros [err|] l' ->; cbv beta iota.
  - skip. by apply sends_ret.
  - skip. skip. skip. by apply sends_ret.
Qed.

Lemma data_frames_cons c chunks : data_frames id (c :: chunks) = CData id false c None :: data_frames id chunks.
Proof. done. Qed.

(** The chunks of the data [r] that were sent. *)
Definition sent_of (r : list byte) (complete : bool) (fs : list call) : Prop :=
  exists chunks, fs = data_frames id chunks /\ Forall (fun c => slen c <= http2MaxFrameLen) chunks /\
    concat chunks `prefix_of` r /\ (complete = true -> concat chunks = r).

Lemma sent_of_nil r : sent_of r false [].
Proof. exists []. split; [done|]. split; [done|]. split; [apply prefix_nil|done]. Qed.

Lemma sent_of_cons n r complete fs :
  n <= http2MaxFrameLen -> sent_of (drop (Z.to_nat n) r) complete fs ->
  sent_of r complete (CData id false (take (Z.to_nat n) r) None :: fs).
Proof.
  intros Hn (chunks & -> & Hall & Hpre & Heq). exists (take (Z.to_nat n) r :: chunks). split; [done|].
  split. { constructor; [|done]. unfold slen. rewrite length_take. unfold http2MaxFrameLen in *. lia. }
  cbn [concat]. rewrite <- (take_drop (Z.to_nat n) r) at 2. split; [by apply prefix_app|].
  intros Hc. rewrite (Heq Hc). apply take_drop.
Qed.

Lemma sends_write_loop o fuel last r l :
  (forall fs, sent_of r false fs -> I o (l ++ fs)) ->
  sends o l (write_loop fuel p id last r)
    (fun err l' => exists fs, sent_of r (bool_decide (err = None)) fs /\ l' = l ++ fs).
Proof.
  revert r l. induction fuel as [|fuel IH]; intros r l HI; cbn [write_loop]; case_bool_decide as Hr.
  - apply sends_ret. exists []. rewrite app_nil_r. split; [|done]. exists []. subst r. by repeat split.
  - by intros w Hw w' Hr' Hi.
  - apply sends_ret. exists []. rewrite app_nil_r. split; [|done]. exists []. subst r. by repeat split.
  - assert (forall err : go_error, exists fs, sent_of r (bool_decide (Some err = None)) fs /\ l = l ++ fs) as Hnone.
    { intros err. exists []. rewrite app_nil_r. split; [apply sent_of_nil|done]. }
    skip. case_match; [by apply sends_ret|]. skip. case_match; [by apply sends_ret|]. cbv zeta.
    set (size := if _ <? (if _ <? _ then _ else _) then _ else _).
    assert (size <= http2MaxFrameLen) as Hsize by (unfold size; repeat case_match; lia). clearbody size.
    skip. skip. eapply sends_bind; [apply sends_write_chunk|].
    { apply HI. apply sent_of_cons; [done|apply sent_of_nil]. }
    intros [err|] l' ->; cbv beta iota; [by apply sends_ret|].
    eapply sends_mono; [|apply IH].
    + intros err l' (fs & Hfs & ->). exists (CData id false (take (Z.to_nat size) r) None :: fs).
      split; [by apply sent_of_cons|by rewrite <- app_assoc].
    + intros fs Hfs. rewrite <- app_assoc. apply HI. by apply sent_of_cons.
Qed.

Lemma sent_frames r complete hs fs returned last :
  part_of (header_block id) hs -> sent_of r complete fs -> (returned = Some None -> complete = true) ->
  op_frames id (OpWrite r last) returned (hs ++ fs).
Proof.
  intros Hhs (chunks & -> & Hall & Hpre & Heq) Hc. exists hs, chunks. split; [done|]. split; [done|]. split; [done|].
  split; [done|]. auto.
Qed.

Lemma sends_Write o l data last :
  (forall fs, op_frames id (OpWrite data last) None fs -> I o (l ++ fs)) ->
  sends o l (Write p data last) (fun err l' => exists fs, op_frames id (OpWrite data last) (Some err) fs /\ l' = l ++ fs).
Proof.
  intros HI. unfold Write. skip. destruct a as [err|need].
  { apply sends_ret. exists []. rewrite app_nil_r. split; [|done].
    apply (sent_frames data false [] []); [apply part_of_nil|apply sent_of_nil|done]. }
  apply (sends_bind _ _ _ _ (fun _ l' => exists hs, part_of (header_block id) hs /\ l' = l ++ hs)).
  { destruct need; cbn [when]; [|apply sends_ret; exists []; by rewrite app_nil_r; split; [apply part_of_nil|]].
    eapply sends_bind; [apply sends_WriteHeader|].
    - intros hs Hhs. apply HI. rewrite <- (app_nil_r hs).
      apply (sent_frames data false hs []); [done|apply sent_of_nil|done].
    - intros err l' (hs & Hhs & -> & _). apply sends_ret. by exists hs. }
  intros _ l' (hs & Hhs & ->). eapply sends_bind; [apply sends_id|]. intros x l' [-> ->].
  eapply sends_bind; [apply sends_write_loop|].
  { intros fs Hfs. rewrite <- app_assoc. apply HI. by apply (sent_frames data false). }
  intros err l' (fs & Hfs & ->). apply sends_skip_when; [by apply respects_writes|]. intros _. apply sends_ret.
  exists (hs ++ fs). rewrite app_assoc. split; [|done]. eapply sent_frames; [done|exact Hfs|]. intros [= ->]. done.
Qed.

Lemma sends_WriteStatus o l st :
  (forall fs, op_frames id (OpWriteStatus st) None fs -> I o (l ++ fs)) ->
  sends o l (WriteStatus p st) (fun err l' => exists fs, op_frames id (OpWriteStatus st) (Some err) fs /\ l' = l ++ fs).
Proof.
  intros HI. unfold WriteStatus. skip. destruct a as [[headersSent hasHeader]|].
  2: { apply sends_ret. exists []. rewrite app_nil_r. split; [|done]. exists [], [].
       split; [apply part_of_nil|]. split; [apply part_of_nil|]. split; [done|]. by left. }
  cbv zeta. apply (sends_bind _ _ _ _ (fun _ l' => exists hs, part_of (header_block id) hs /\ l' = l ++ hs)).
  { destruct (negb headersSent && hasHeader); cbn [when]; [|apply sends_ret; exists []; by rewrite app_nil_r; split; [apply part_of_nil|]].
    eapply sends_bind; [apply sends_WriteHeader|].
    - intros hs Hhs. apply HI. exists hs, []. split; [done|]. split; [apply part_of_nil|]. by rewrite app_nil_r.
    - intros err l' (hs & Hhs & -> & _). apply sends_ret. by exists hs. }
  intros _ l' (hs & Hhs & ->).
  assert (forall (err : go_error) ts, part_of (status_block id st) ts ->
    exists fs, op_frames id (OpWriteStatus st) (Some (Some err)) fs /\ (l ++ hs) ++ ts = l ++ fs) as Hfail.
  { intros err ts Hts. exists (hs ++ ts). rewrite app_assoc. split; [|done]. by exists hs, ts. }
  skip. case_match. { apply sends_ret. rewrite <- (app_nil_r (l ++ hs)). apply Hfail, part_of_nil. }
  skip. skip. eapply sends_bind; [apply sends_encode|]. intros b l' (-> & e & e' & Hrun).
  assert (status_block id st (header_calls id true b).*2) as Hblock by (eexists _, _; by exists e, e', b).
  eapply sends_bind; [apply sends_writeHeaders|].
  { intros ts Hts. rewrite <- app_assoc. apply HI. exists hs, ts. split; [done|]. split; [right; by eexists|done]. }
  intros [err|] l'; cbv beta iota.
  - intros (ts & Hts & ->). skip. apply sends_ret. apply Hfail. right. by eexists.
  - intros ->. skip. skip. apply sends_ret. exists (hs ++ (header_calls id true b).*2). rewrite app_assoc. split; [|done].
    exists hs, (header_calls id true b).*2. split; [done|]. split; [right; by eexists|]. split; [done|]. by right.
Qed.
End sends.

(** ** A handler *)

Section handler.
Context {W : Type} `{Connection W} (me p : nat) (id : Z) (os : list operation).
#[local] Abbreviation server := (server W).
#[local] Abbreviation I := (ops_log id os).
#[local] Abbreviation wp := (Threads.wp (log_inv me I) (log_rely me) anything).

Lemma reported past op rest rs l (c : prog server (option go_error)) w :
  os = past ++ op :: rest -> ops_done id past rs l -> stands_at me p id rs l w ->
  ((forall fs, op_frames id op None fs -> I rs (l ++ fs)) ->
   sends me p id I rs l c (fun err l' => exists fs, op_frames id op (Some err) fs /\ l' = l ++ fs)) ->
  wp me (err ← c; report err) (fun _ w' => exists rs' l', stands_at me p id rs' l' w' /\ ops_done id (past ++ [op]) rs' l') w.
Proof.
  intros Hos Hd Hw Hc. apply wp_seq; [apply _|]. eapply wp_conseq; [|apply Hc; [|exact Hw]].
  - intros err w' _ (l' & Hw' & fs & Hfs & ->). pose proof (ops_done_snoc id past rs l op err fs Hd Hfs) as Hd'.
    eapply wp_conseq; [|apply sends_report; [|exact Hw']].
    + intros [] w2 _ Hw2. eauto.
    + rewrite Hos. change (op :: rest) with ([op] ++ rest). rewrite (app_assoc past).
      rewrite <- (app_nil_r (rs ++ [err])), <- (app_nil_r (l ++ fs)). apply ops_done_app; [done|apply ops_log_start].
  - intros fs Hfs. rewrite Hos, <- (app_nil_r rs). apply ops_done_app; [done|]. by constructor.
Qed.

Lemma run_operation_sends past op rest rs l w :
  os = past ++ List.filter reports [op] ++ rest -> ops_done id past rs l -> stands_at me p id rs l w ->
  wp me (run_operation p op)
    (fun _ w' => exists rs' l', stands_at me p id rs' l' w' /\ ops_done id (past ++ List.filter reports [op]) rs' l') w.
Proof.
  intros Hos Hd Hw.
  assert (respects false (run_operation (W:=W) p op) -> reports op = false ->
    wp me (run_operation p op) (fun _ w' => exists rs' l', stands_at me p id rs' l' w' /\
      ops_done id (past ++ List.filter reports [op]) rs' l') w) as Hsilent.
  { intros Hr Hrep. eapply wp_conseq; [|by apply (sends_silent me p id I rs l _ Hr)].
    intros [] w' _ (l' & Hw' & ->). cbn [List.filter]. rewrite Hrep, app_nil_r. eauto. }
  destruct op; cbn [List.filter reports app] in *; try (apply Hsilent; [cbn [run_operation]; respects|done]).
  - eapply reported; [done..|]. intros HI. eapply sends_mono; [|apply sends_WriteHeader].
    + intros err l' (fs & Hfs & -> & Hn). exists fs. split; [|done]. split; [done|]. intros [= ->]. by apply Hn.
    + intros fs Hfs. by apply HI.
  - eapply reported; [done..|]. apply sends_Write.
  - eapply reported; [done..|]. apply sends_WriteStatus.
Qed.

Lemma operations_send ops past rs l w :
  os = past ++ List.filter reports ops -> ops_done id past rs l -> stands_at me p id rs l w ->
  wp me (each (run_operation p) ops) (fun _ _ => True) w.
Proof.
  revert past rs l w. induction ops as [|op ops IH]; intros past rs l w Hos Hd Hw; cbn [each]; [done|].
  change (op :: ops) with ([op] ++ ops) in Hos. rewrite List.filter_app in Hos.
  apply wp_seq; [apply _|]. eapply wp_conseq; [|by eapply run_operation_sends].
  intros [] w' _ (rs' & l' & Hw' & Hd'). eapply IH; [|exact Hd'|exact Hw']. by rewrite Hos, app_assoc.
Qed.
End handler.

(** ** All goroutines *)

Section pool.
Context {W : Type} `{Connection W} (cf : setup) (unmarshalStatus : list byte -> res string Status).
#[local] Abbreviation server := (server W).

Definition polite (t : thread server) : Prop :=
  match t with Thread body pc => (forall s, respects true (body s)) /\ respects true pc end.

Lemma once_polite (c : prog server unit) : respects true c -> polite (once c).
Proof. intros Hc. split; [by intros []|]. by apply respects_bind. Qed.

Lemma client_polite (w : server) t : client w t -> polite t.
Proof. destruct 1; apply once_polite; respects. Qed.

Lemma goroutines_polite t : t ∈ goroutines cf unmarshalStatus (W:=W) -> polite t.
Proof.
  intros Hin. unfold goroutines in Hin. rewrite !elem_of_cons, elem_of_nil in Hin.
  destruct Hin as [Hin|[Hin|[Hin|[]]]]; subst t; split; intros; respects.
Qed.

Lemma polite_step tid t (w : server) t' w' :
  thread_step tid t w t' w' -> polite t -> polite t' /\ kept w w' /\ forall t, t <> tid -> own_at t w' = own_at t w.
Proof.
  destruct 1 as [St body B f k w l b w' Hf Hin|St body s w]; intros [Hb Hp].
  - destruct Hp as [Hf' Hk]. destruct (Hf' tid w l b w' Hf Hin) as [Hids Hown]. split; [by split|]. split; [done|]. auto.
  - split; [by split|]. done.
Qed.

Lemma environment_kept (w w' : server) : environment w w' -> kept w w' /\ forall t, own_at t w' = own_at t w.
Proof.
  destruct 1 as [w d Hd Hn|w q s d Hs Hdl Hle]; [by apply unlogged_kept|]. split; [|done]. apply ids_kept_kept; [|done]. intros q2 s2 Hs2. cbn.
  destruct (decide (q = q2)) as [<-|Hne].
  - rewrite list_lookup_insert_eq by (by eapply lookup_lt_Some). eexists. split; [done|].
    assert (s_id (set_done ErrDeadlineExceeded s) = s_id s) as -> by (unfold set_done; by destruct (reader_done _)). congruence.
  - rewrite list_lookup_insert_ne by done. eauto.
Qed.

(** All goroutines are polite, and those to come have written nothing. *)
Definition polite_pool (s : server * list (thread server)) : Prop :=
  Forall polite s.2 /\ wired s.1 /\ forall tid, (length s.2 <= tid)%nat -> own_at tid s.1 = ([], []).

Lemma polite_pool_spawn (w : server) ts t : polite t -> polite_pool (w, ts) -> polite_pool (w, ts ++ [t]).
Proof.
  intros Ht (Hts & Hw & Hown). split; [apply Forall_app; by split; [|apply Forall_singleton]|]. split; [done|].
  cbn [fst snd]. rewrite length_app. intros tid Hge. apply Hown. cbn [snd]. lia.
Qed.

Lemma polite_pool_steps s s' : polite_pool s -> rtc serves s s' -> polite_pool s'.
Proof.
  intros Hp Hrun. induction Hrun as [s|s s1 s2 Hstep Hrun IH]; [done|]. apply IH. clear IH Hrun. revert Hp.
  destruct Hstep as [w ts tid t t' w' Ht Hstep|w ts w' Henv|w ts t Hc]; [intros (Hts & Hw & Hown)..|];
    [| |by apply polite_pool_spawn, (client_polite w)]; cbn [fst snd] in *.
  - assert (polite t) as Hpt by (eapply Forall_lookup_1; [exact Hts|exact Ht]).
    destruct (polite_step tid t w t' w' Hstep Hpt) as (Hpt' & [_ Hw'] & Hk).
    split; cbn [fst snd]; [by apply Forall_insert|]. split; [auto|]. rewrite length_insert. intros tid2 Hge.
    rewrite Hk; [by apply Hown|]. apply lookup_lt_Some in Ht. lia.
  - destruct (environment_kept w w' Henv) as [[_ Hw'] Ho]. split; cbn [fst snd]; [done|]. split; [auto|].
    intros tid Hge. rewrite Ho. by apply Hown.
Qed.

Section one.
Context (me p : nat) (id : Z) (os : list operation).
#[local] Abbreviation inv := (log_inv (W:=W) me (ops_log id os)).
#[local] Abbreviation rely := (log_rely (W:=W) me).

Lemma polite_wp {A} tid (c : prog server A) w : tid <> me -> respects true c -> Threads.wp inv rely anything tid c (fun _ _ => True) w.
Proof.
  intros Hne. revert w. induction c as [a|B f k IH]; intros w Hc; cbn [Threads.wp]; [done|].
  destruct Hc as [Hf Hk]. intros w' Hr Hi. destruct (f tid w') as [| |l] eqn:Hl; [done..|]. intros b w2 Hin.
  destruct (Hf tid w' l b w2 Hl Hin) as [Hids Hown]. split; [unfold log_inv; rewrite Hown; [done|by right]|].
  split; [|by apply IH]. intros t Ht. split; [done|]. intros ->. apply Hown. by right.
Qed.

Lemma polite_ok tid t w : tid <> me -> polite t -> Threads.thread_ok inv rely anything tid t w.
Proof.
  destruct t as [St body pc]. intros Hne [Hb Hpc]. exists (fun _ _ => True). split.
  - intros s w' _ _. eapply wp_conseq; [|by apply polite_wp]. by intros [].
  - eapply wp_conseq; [|by apply polite_wp]. by intros [].
Qed.
End one.

(** What a handler that starts in the pool [s] has written and been told, at every moment. *)
Lemma handler_log p st ops s s' :
  polite_pool s -> streams s.1 !! p = Some st -> rtc serves (s.1, s.2 ++ [once (each (run_operation p) ops)]) s' ->
  ops_log (s_id st) (List.filter reports ops) (own_at (length s.2) s'.1).1 (own_at (length s.2) s'.1).2 /\ wired s'.1.
Proof.
  intros (Hts & Hw & Hown) Hst Hrun. split.
  2: { eapply polite_pool_steps; [|exact Hrun]. apply polite_pool_spawn; [apply once_polite; respects|by destruct s]. }
  set (me := length s.2). set (os := List.filter reports ops).
  assert (pool_ok (log_inv (W:=W) me (ops_log (s_id st) os)) (log_rely me) anything (S me)
            (s.1, s.2 ++ [once (each (run_operation p) ops)])) as Hok.
  { assert (own_at me s.1 = ([], [])) as Hme by (by apply Hown).
    split; [unfold log_inv; cbn [fst snd]; rewrite Hme; apply ops_log_start|]. cbn [fst snd]. rewrite length_app.
    split; [cbn; unfold me; lia|]. intros tid t [Ht|[Hge Ht]]%lookup_app_Some.
    - apply polite_ok; [apply lookup_lt_Some in Ht; unfold me; lia|]. eapply Forall_lookup_1; [exact Hts|exact Ht].
    - apply list_lookup_singleton_Some in Ht as [Hz <-]. replace tid with me by (unfold me; lia).
      apply once_ok; [apply _|]. eapply (operations_send me p (s_id st) os ops [] [] []); [done|split; [constructor|done]|].
      split; [done|]. by exists st. }
  assert (log_inv (W:=W) me (ops_log (s_id st) os) s'.1 /\ (goes_wrong Crashes s' \/ goes_wrong Diverges s' -> anything s'.1)) as [Hinv _];
    [|exact Hinv].
  eapply (pool_sound environment client (log_inv (W:=W) me (ops_log (s_id st) os)) (log_rely me) anything (S me));
    [| |exact Hok|exact Hrun].
  - intros w w' Hi He. destruct (environment_kept w w' He) as [Hids Ho]. split; [unfold log_inv; by rewrite Ho|].
    intros tid. by split.
  - intros w t tid Hge _ Hc. apply polite_ok; [lia|by eapply client_polite].
Qed.
End pool.
