(* ===== verification/ApiService.v ===== *)
(** * The services of the device plugin API

    The gRPC part of api.pb.go: the server interfaces [DevicePluginServer] and
    [RegistrationServer] (type classes here), the handlers that decode a request,
    go through the interceptor if there is one and call the interface, the service
    descriptors, the registration of a service with a server, and the client stubs.

    What the interface promises its clients is stated once, for any
    implementation: a request frame on a stream routed to a unary method yields
    exactly the response frame of what the implementation returns, followed by
    the status. *)

From stdpp Require Import base list strings gmap.
From Stdlib Require Import ZArith Strings.Byte Lia.
From S2P Require Import Prelude GoStrings Wire Api ApiTotal ApiRegistry GrpcStatus.
From S2P Require Import GrpcTransport GrpcRpc GrpcCodec GrpcServer.
Open Scope Z_scope.

(** ** Server interfaces *)

(** [Send] of the stream that [ListAndWatch] is given. *)
Definition ListAndWatchServer : Type := ListAndWatchResponse -> rpc unit.

Class DevicePluginServer (P : Type) : Type := {
  GetDevicePluginOptions : P -> Empty -> res stop DevicePluginOptions;
  ListAndWatch : P -> Empty -> ListAndWatchServer -> rpc unit;
  Allocate : P -> AllocateRequest -> res stop AllocateResponse;
  PreStartContainer : P -> PreStartContainerRequest -> res stop PreStartContainerResponse;
}.

Class RegistrationServer (P : Type) : Type := {
  Register : P -> RegisterRequest -> res stop Empty;
}.

(** ** Handlers *)

(** [req.( *T)]: a failed type assertion panics. *)
Definition assert_type (t : message_type) (x : sigT message) : res stop (message t) :=
  match decide (projT1 x = t) with
  | left e => Ok (eq_rect (projT1 x) message (projT2 x) t e)
  | right _ => Panic
  end.

(** What the generator emits for a unary method. *)
Definition unary_handler {P} (tin tout : message_type) (fullMethod : string)
  (method : P -> message tin -> res stop (message tout)) : methodHandler :=
  fun srv dec interceptor =>
    x ← dec tin (Reset tin);
    match interceptor with
    | None => y ← method srv x; Ok (existT tout y)
    | Some interceptor =>
        let info := {| info_Server := srv; info_FullMethod := fullMethod |} in
        let handler (req : sigT message) :=
          x ← assert_type tin req; y ← method srv x; Ok (existT tout y) in
        interceptor (existT tin x) info handler
    end.

Section handlers.
Context {P : Type} `{DevicePluginServer P}.

Definition DevicePlugin_GetDevicePluginOptions_Handler : methodHandler :=
  unary_handler TEmpty TDevicePluginOptions "/v1beta1.DevicePlugin/GetDevicePluginOptions"
    (GetDevicePluginOptions (P:=P)).

Definition DevicePlugin_Allocate_Handler : methodHandler :=
  unary_handler TAllocateRequest TAllocateResponse "/v1beta1.DevicePlugin/Allocate" (Allocate (P:=P)).

Definition DevicePlugin_PreStartContainer_Handler : methodHandler :=
  unary_handler TPreStartContainerRequest TPreStartContainerResponse
    "/v1beta1.DevicePlugin/PreStartContainer" (PreStartContainer (P:=P)).

(** [x.ServerStream.SendMsg(m)] *)
Definition devicePluginListAndWatchServer_Send (r : ranges) (ss : serverStream) : ListAndWatchServer :=
  fun m => SendMsg (H:=proto_codec r) ss (existT TListAndWatchResponse m).

(** The type assertion on a nil implementation panics. *)
Definition DevicePlugin_ListAndWatch_Handler (r : ranges) : StreamHandler :=
  fun (srv : option P) ss =>
    m ← RecvMsg (H:=proto_codec r) ss TEmpty Empty_Reset;
    match srv with
    | Some srv => ListAndWatch srv m (devicePluginListAndWatchServer_Send r ss)
    | None => rpc_lift Panic
    end.

Definition DevicePlugin_serviceDesc (r : ranges) : ServiceDesc message P := {|
  ServiceName := "v1beta1.DevicePlugin";
  Methods := [
    {| MethodName := "GetDevicePluginOptions"; Handler := DevicePlugin_GetDevicePluginOptions_Handler |};
    {| MethodName := "Allocate"; Handler := DevicePlugin_Allocate_Handler |};
    {| MethodName := "PreStartContainer"; Handler := DevicePlugin_PreStartContainer_Handler |}];
  Streams := [
    {| StreamName := "ListAndWatch"; StreamDesc_Handler := DevicePlugin_ListAndWatch_Handler r;
       ServerStreams := true; ClientStreams := false |}];
  Metadata := "api.proto";
|}.

Definition RegisterDevicePluginServer (r : ranges) (s : Server message P) (srv : P) : res stop (Server message P) :=
  RegisterService s (DevicePlugin_serviceDesc r) srv.
End handlers.

Section registration.
Context {P : Type} `{RegistrationServer P}.

Definition Registration_Register_Handler : methodHandler :=
  unary_handler TRegisterRequest TEmpty "/v1beta1.Registration/Register" (Register (P:=P)).

Definition Registration_serviceDesc : ServiceDesc message P := {|
  ServiceName := "v1beta1.Registration";
  Methods := [{| MethodName := "Register"; Handler := Registration_Register_Handler |}];
  Streams := [];
  Metadata := "api.proto";
|}.

Definition RegisterRegistrationServer (s : Server message P) (srv : P) : res stop (Server message P) :=
  RegisterService s Registration_serviceDesc srv.
End registration.

(** ** Client stubs *)

(** [grpc.Invoke] on a connection: method, request, and the reply to fill in. *)
Definition ClientConn : Type := string -> sigT message -> forall t, message t -> res stop (message t).

Definition registrationClient_Register (cc : ClientConn) (x : RegisterRequest) : res stop Empty :=
  cc "/v1beta1.Registration/Register" (existT TRegisterRequest x) TEmpty Empty_Reset.

Definition devicePluginClient_GetDevicePluginOptions (cc : ClientConn) (x : Empty) : res stop DevicePluginOptions :=
  cc "/v1beta1.DevicePlugin/GetDevicePluginOptions" (existT TEmpty x) TDevicePluginOptions DevicePluginOptions_Reset.

Definition devicePluginClient_Allocate (cc : ClientConn) (x : AllocateRequest) : res stop AllocateResponse :=
  cc "/v1beta1.DevicePlugin/Allocate" (existT TAllocateRequest x) TAllocateResponse AllocateResponse_Reset.

Definition devicePluginClient_PreStartContainer (cc : ClientConn) (x : PreStartContainerRequest)
  : res stop PreStartContainerResponse :=
  cc "/v1beta1.DevicePlugin/PreStartContainer" (existT TPreStartContainerRequest x)
    TPreStartContainerResponse PreStartContainerResponse_Reset.

(** A client stream: code that sends, half-closes and receives. *)
Record ClientStream : Type := {
  cs_SendMsg : sigT message -> res stop unit;
  cs_CloseSend : res stop unit;
  cs_RecvMsg : forall t, message t -> res stop (message t);
}.

Definition devicePluginClient_ListAndWatch (newClientStream : string -> res stop ClientStream) (x : Empty)
  : res stop ClientStream :=
  stream ← newClientStream "/v1beta1.DevicePlugin/ListAndWatch"%string;
  _ ← cs_SendMsg stream (existT TEmpty x);
  _ ← cs_CloseSend stream;
  Ok stream.

Definition devicePluginListAndWatchClient_Recv (stream : ClientStream) : res stop ListAndWatchResponse :=
  cs_RecvMsg stream TListAndWatchResponse ListAndWatchResponse_Reset.

(** ** The server of a device plugin *)

Section device_plugin_server.
Context {P : Type} `{DevicePluginServer P} (r : ranges) (impl : P).

(** [NewServer] without options, with the service registered. *)
Definition fresh_server : Server message P :=
  mkServer (mkOptions None None defaultMaxMsgSize None None 0 None) (Some ∅) (Some ∅) false false ∅.

Definition plugin_server : Server message P :=
  mkServer (mkOptions None None defaultMaxMsgSize None None 0 None) (Some ∅) (Some ∅) false false
    {[ "v1beta1.DevicePlugin"%string := new_service (DevicePlugin_serviceDesc r) impl ]}.

Lemma NewServer_registered :
  NewServer (msg:=message) (Impl:=P) [] ≫= (fun s => RegisterDevicePluginServer r s impl) = Ok plugin_server.
Proof. done. Qed.

(** Registering the service again ends the process. *)
Lemma RegisterDevicePluginServer_twice : RegisterDevicePluginServer r plugin_server impl = Err (Exit 1).
Proof. done. Qed.

(** The unary methods of the service. *)
Inductive unary_method : string -> forall tin tout, (P -> message tin -> res stop (message tout)) -> Prop :=
| unary_GetDevicePluginOptions :
    unary_method "GetDevicePluginOptions" TEmpty TDevicePluginOptions (GetDevicePluginOptions (P:=P))
| unary_Allocate : unary_method "Allocate" TAllocateRequest TAllocateResponse (Allocate (P:=P))
| unary_PreStartContainer :
    unary_method "PreStartContainer" TPreStartContainerRequest TPreStartContainerResponse (PreStartContainer (P:=P)).

Lemma route_unary name tin tout f :
  unary_method name tin tout f ->
  exists d, route plugin_server ("/v1beta1.DevicePlugin/" +:+ name) =
      Some (new_service (DevicePlugin_serviceDesc r) impl, inl d) /\
    Handler d = unary_handler tin tout ("/v1beta1.DevicePlugin/" +:+ name) f.
Proof. intros []; by eexists. Qed.

Lemma route_ListAndWatch :
  exists d, route plugin_server "/v1beta1.DevicePlugin/ListAndWatch" =
      Some (new_service (DevicePlugin_serviceDesc r) impl, inr d) /\
    StreamDesc_Handler d = DevicePlugin_ListAndWatch_Handler r.
Proof. by eexists. Qed.

(** The status line that ends a call. *)
Definition call_result (out : res stop (sigT message)) (c : call) : res stop unit * call :=
  match out with
  | Ok (existT t y) =>
      (Ok tt, acted (acted c (AWrite (frame (enc t r y)) true)) (AWriteStatus (New codes.OK "")))
  | Err (Raise e) => (Ok tt, acted c (AWriteStatus (error_status e)))
  | Err e => (Err e, c)
  | Panic => (Panic, c)
  | Diverge => (Diverge, c)
  end.

Lemma return_err_status e E c :
  exists x, return_err (Status_Err (error_status e)) E c = (x, c) /\
    (x = Ok tt \/ exists e', x = Err (Raise e')).
Proof. unfold return_err. destruct (Status_Err _); eexists; split; eauto. Qed.

Lemma handle_request_result (d : MethodDesc message P) E c b out :
  healthy E ->
  Handler d impl (decode_request (H:=proto_codec r) plugin_server compressionNone b) None = out ->
  (forall t y, out = Ok (existT t y) -> slen (enc t r y) < 2 ^ 32) ->
  ignore (handle_request (H:=proto_codec r) plugin_server (new_service (DevicePlugin_serviceDesc r) impl) d
    compressionNone b) E c = call_result out c.
Proof.
  intros HE Hout Hfit. destruct out as [[t y]|[e| |code]| |]; simpl.
  - specialize (Hfit t y eq_refl).
    erewrite ignore_result; [|eapply (handle_request_reply (H:=proto_codec r)); try done].
    + done.
    + simpl. rewrite Marshal_ok; [done|]. unfold fits, max_slice. lia.
  - destruct (return_err_status e E (acted c (AWriteStatus (error_status e)))) as (x & Hx & Hres).
    rewrite (ignore_result _ _ _ x (acted c (AWriteStatus (error_status e)))).
    + by destruct Hres as [->|[e' ->]].
    + rewrite <- Hx. by apply (handle_request_error (H:=proto_codec r)).
  - unfold ignore, try, handle_request, mbind, rpc_bind, rpc_lift. simpl. by rewrite Hout.
  - unfold ignore, try, handle_request, mbind, rpc_bind, rpc_lift. simpl. by rewrite Hout.
  - by rewrite (ignore_result _ _ _ Panic c) by by apply (handle_request_panic (H:=proto_codec r)).
  - unfold ignore, try, handle_request, mbind, rpc_bind, rpc_lift. simpl. by rewrite Hout.
Qed.

(** The outcome of a unary method on request bytes. *)
Definition unary_outcome {tin tout} (f : P -> message tin -> res stop (message tout)) (b : list byte)
  : res stop (sigT message) :=
  x ← wrap (api_res (Unmarshal tin (Reset tin) b)) codes.Internal "grpc: error unmarshalling request: ";
  y ← f impl x;
  Ok (existT tout y).

Lemma unary_call name tin tout f b rest fin E c :
  unary_method name tin tout f -> healthy E ->
  Stream_method (call_stream c) = ("/v1beta1.DevicePlugin/" +:+ name)%string ->
  stream_holds (call_stream c) (frame b ++ rest) fin -> slen b <= defaultMaxMsgSize ->
  (forall t y, unary_outcome f b = Ok (existT t y) -> slen (enc t r y) < 2 ^ 32) ->
  exists st, stream_holds st rest fin /\
    handleStream (H:=proto_codec r) plugin_server E c =
      call_result (unary_outcome f b) (mkCall st (call_actions c) (call_selects c)).
Proof.
  intros Hu HE Hm Hs Hlen Hfit. destruct (route_unary name tin tout f Hu) as (d & Hr & Hd).
  destruct (processUnaryRPC_request (H:=proto_codec r) plugin_server
    (new_service (DevicePlugin_serviceDesc r) impl) d E c b rest fin) as (st & Hst & Hp);
    [done|done|unfold defaultMaxMsgSize in *; simpl; unfold defaultMaxMsgSize; lia|].
  exists st. split; [done|].
  pose proof (handleStream_call (H:=proto_codec r) plugin_server E c) as Hh. rewrite Hm, Hr in Hh.
  rewrite Hh by done. unfold ignore at 1, try at 1, mbind at 1, rpc_bind at 1. rewrite Hp.
  rewrite <- (handle_request_result d E _ b (unary_outcome f b)); [done|done| |done].
  rewrite Hd. unfold unary_handler, unary_outcome.
  by rewrite (decode_request_plain (H:=proto_codec r)) by done.
Qed.
End device_plugin_server.

