(* ===== verification/World.v ===== *)
(** * The process and its environment

    The data of server.go ([Device], [DevicePlugin], [DevicePluginManager]), the state
    of the process (heaps of plugins, gRPC servers, listeners and channels, the
    files that it creates) and the monad in which the main goroutine of the
    service is modelled.

    The environment answers every request to the outside: the n-th interaction
    of the process gets the n-th answer.  The theorems hold for all environments,
    so for every order of failures, events and signals.  What the process does is
    recorded in its [trace]. *)

From stdpp Require Import base list strings gmap.
From Stdlib Require Import ZArith Strings.Byte Lia.
From S2P Require Import Prelude GoStrings Wire Api ApiRegistry GrpcStatus.
From S2P Require Import GrpcTransport GrpcRpc GrpcCodec GrpcServer ApiService.
Open Scope Z_scope.

(** ** The data of server.go *)

Record Device : Type := mkDevice {
  Device_devName : string;
  Device_permissions : string;
}.

(** Pointers and channels are indices into the heaps of [world]; [None] is nil. *)
Record DevicePlugin : Type := mkDevicePlugin {
  devName : string;
  permissions : string;
  baseName : string;
  resourceName : string;
  unixSockPath : string;
  unixSock : option nat;
  gRpcServer : option nat;
  devInstances : list Api.Device;
  isRigistered : bool;
  stopChan : nat;
}.

Record DevicePluginManager : Type := mkManager {
  devs : list Device;
  devPlugins : list nat;
}.

(** ** Events of the main loop *)

(** fsnotify's [Event]. *)
Record Event : Type := mkEvent { Event_Name : string; Event_Op : Z }.

Inductive main_event : Type :=
| FsError (err : go_error)
| FsEvent (event : Event)
| Signal (sig : Z).

(** ** The environment *)

(** What became of [initHostDevice]'s command: whether it started, what each [Read]
    of its standard error returned before one failed, and whether [Wait] reported
    an error. *)
Record cmd_run : Type := {
  cmd_Start : bool;
  cmd_stderr : list (list byte);
  cmd_Wait : bool;
}.

Record env : Type := {
  env_ranges : ranges;                        (* the order in which maps are visited *)
  pid : Z;
  num_cpu : Z;                                (* runtime.NumCPU() *)
  command : nat -> string -> cmd_run;
  stat_error : nat -> bool;                   (* os.Stat fails, and not for want of the file *)
  create_ok : nat -> bool;
  write_ok : nat -> bool;
  remove_ok : nat -> bool;
  listen_ok : nat -> bool;
  dial : nat -> string -> option ClientConn;
  serve_first : nat -> bool;                  (* Serve is entered before the server is stopped *)
  new_watcher_ok : nat -> bool;
  watch_ok : nat -> bool;
  next_event : nat -> option main_event;      (* None: nothing ever happens again *)
}.

(** ** The process *)

Inductive trace_event : Type :=
| TCommand (cmd : string)
| TCreate (path : string)
| TRemove (path : string)
| TWatch (path : string)
| TCloseWatcher
| TNotify
| TListen (path : string)
| TServe (server : nat)
| TDial (path : string) (ok : bool)
| TConnClose (path : string)
| TRegister (request : RegisterRequest) (ok : bool)
| TStop (server : nat)
| TCloseChan (chan : nat)
| TSleep (ns : Z)
| TSelect (event : option main_event)
| TFatal (msg : string).

Record world : Type := mkWorld {
  clock : nat;
  trace : list trace_event;
  files : gmap string string;
  plugins : list DevicePlugin;
  servers : list (Server message DevicePlugin);
  listeners : list string;                    (* the path of every listener *)
  chans : list bool;                          (* whether the channel is closed *)
}.

(** How the process came to an end, or that it has not within the fuel given. *)
Inductive halt : Type := HExit (code : Z) | HPanic | HBlock | HFuel.

Inductive outcome (A : Type) : Type :=
| Ret (a : A) (w : world)
| Halt (h : halt) (w : world).
Arguments Ret {A} a w.
Arguments Halt {A} h w.

Definition M (A : Type) : Type := env -> world -> outcome A.

#[export] Instance M_ret : MRet M := fun A a E w => Ret a w.
#[export] Instance M_bind : MBind M := fun A B f x E w =>
  match x E w with
  | Ret a w => f a E w
  | Halt h w => Halt h w
  end.

Definition halts {A} (h : halt) : M A := fun E w => Halt h w.

(** Code that may panic, exit or block but does not touch the process, with the
    error it may return. *)
Definition run_res {A} (r : res stop A) : M (go_error + A) := fun E w =>
  match r with
  | Ok a => Ret (inr a) w
  | Err (Raise e) => Ret (inl e) w
  | Err Block => Halt HBlock w
  | Err (Exit n) => Halt (HExit n) w
  | Panic => Halt HPanic w
  | Diverge => Halt HFuel w
  end.

(** [defer f()]: [f] runs when the code returns or panics, not when it exits. *)
Definition deferring {A} (f : M unit) (x : M A) : M A := fun E w =>
  match x E w with
  | Ret a w => match f E w with Ret _ w => Ret a w | Halt h w => Halt h w end
  | Halt HPanic w => match f E w with Ret _ w => Halt HPanic w | Halt h w => Halt h w end
  | Halt h w => Halt h w
  end.

(** ** State *)

Definition gets {A} (f : world -> A) : M A := fun E w => Ret (f w) w.
Definition modify (f : world -> world) : M unit := fun E w => Ret tt (f w).

Definition with_trace (f : list trace_event -> list trace_event) (w : world) : world :=
  mkWorld (clock w) (f (trace w)) (files w) (plugins w) (servers w) (listeners w) (chans w).
Definition with_files (f : gmap string string -> gmap string string) (w : world) : world :=
  mkWorld (clock w) (trace w) (f (files w)) (plugins w) (servers w) (listeners w) (chans w).
Definition with_plugins (f : list DevicePlugin -> list DevicePlugin) (w : world) : world :=
  mkWorld (clock w) (trace w) (files w) (f (plugins w)) (servers w) (listeners w) (chans w).
Definition with_servers (f : list (Server message DevicePlugin) -> list (Server message DevicePlugin))
  (w : world) : world :=
  mkWorld (clock w) (trace w) (files w) (plugins w) (f (servers w)) (listeners w) (chans w).
Definition with_listeners (f : list string -> list string) (w : world) : world :=
  mkWorld (clock w) (trace w) (files w) (plugins w) (servers w) (f (listeners w)) (chans w).
Definition with_chans (f : list bool -> list bool) (w : world) : world :=
  mkWorld (clock w) (trace w) (files w) (plugins w) (servers w) (listeners w) (f (chans w)).
Definition tick (w : world) : world :=
  mkWorld (S (clock w)) (trace w) (files w) (plugins w) (servers w) (listeners w) (chans w).

Definition emit (a : trace_event) : M unit := modify (with_trace (fun t => t ++ [a])).

(** The next answer of the environment. *)
Definition ask {A} (f : env -> nat -> A) : M A := fun E w => Ret (f E (clock w)) (tick w).

(** A dereference of a nil or dangling pointer panics. *)
Definition deref {A} (x : option A) : M A :=
  match x with Some a => mret a | None => halts HPanic end.

Definition get_plugin (p : nat) : M DevicePlugin := gets (fun w => plugins w !! p) ≫= deref.
Definition set_plugin (p : nat) (f : DevicePlugin -> DevicePlugin) : M unit :=
  modify (with_plugins (alter f p)).

Definition set_unixSock (l : nat) (x : DevicePlugin) : DevicePlugin :=
  mkDevicePlugin (devName x) (permissions x) (baseName x) (resourceName x) (unixSockPath x) (Some l)
    (gRpcServer x) (devInstances x) (isRigistered x) (stopChan x).
Definition set_gRpcServer (s : option nat) (x : DevicePlugin) : DevicePlugin :=
  mkDevicePlugin (devName x) (permissions x) (baseName x) (resourceName x) (unixSockPath x) (unixSock x)
    s (devInstances x) (isRigistered x) (stopChan x).
Definition set_isRigistered (b : bool) (x : DevicePlugin) : DevicePlugin :=
  mkDevicePlugin (devName x) (permissions x) (baseName x) (resourceName x) (unixSockPath x) (unixSock x)
    (gRpcServer x) (devInstances x) b (stopChan x).

(** ** The operating system and the runtime *)

(** [os.Remove]; its error is ignored by every caller. *)
Definition os_Remove (path : string) : M unit :=
  emit (TRemove path) ≫= fun _ =>
  ok ← ask remove_ok;
  if ok : bool then modify (with_files (delete path)) else mret tt.

(** [net.Listen("unix", path)] creates the socket file, and fails if the file is
    there already. *)
Definition net_Listen (path : string) : M (option nat) :=
  ok ← ask listen_ok;
  taken ← gets (fun w => files w !! path);
  match ok, taken with
  | true, None =>
      emit (TListen path) ≫= fun _ =>
      modify (with_files <[path := ""%string]>) ≫= fun _ =>
      l ← gets (fun w => length (listeners w));
      modify (with_listeners (fun ls => ls ++ [path])) ≫= fun _ =>
      mret (Some l)
  | _, _ => mret None
  end.

(** Closing a Unix listener removes its socket file. *)
Definition unlink_listeners (ls : list nat) (w : world) : world :=
  with_files (fun fs => foldr (fun l fs => match listeners w !! l with Some p => delete p fs | None => fs end) fs ls) w.

Definition make_chan : M nat :=
  c ← gets (fun w => length (chans w));
  modify (with_chans (fun cs => cs ++ [false])) ≫= fun _ =>
  mret c.

(** Closing a closed channel panics. *)
Definition close_chan (c : nat) : M unit :=
  closed ← gets (fun w => chans w !! c) ≫= deref;
  if closed : bool then halts HPanic
  else
    emit (TCloseChan c) ≫= fun _ =>
    modify (with_chans <[c := true]>).

Definition time_Sleep (ns : Z) : M unit := emit (TSleep ns).

(** [log.Fatal] exits with code 1 and runs no deferred function. *)
Definition log_Fatal {A} (msg : string) : M A := emit (TFatal msg) ≫= fun _ => halts (HExit 1).

(** [for _, x := range l { err := f(x); if err != nil { return err } }; return nil] *)
Fixpoint each {A} (f : A -> M (option go_error)) (l : list A) : M (option go_error) :=
  match l with
  | [] => mret None
  | x :: l =>
      err ← f x;
      match err with
      | Some e => mret (Some e)
      | None => each f l
      end
  end.

(** [for _, x := range l { f(x) }] *)
Fixpoint iter_each {A} (f : A -> M unit) (l : list A) : M unit :=
  match l with
  | [] => mret tt
  | x :: l => f x ≫= fun _ => iter_each f l
  end.
