(* ===== verification/Plugin.v ===== *)
(** * The device plugin service: server.go

    The plugins and their manager: construction, starting and stopping the gRPC
    servers, registration with the kubelet, and the four methods of the device
    plugin API, which make [DevicePlugin] an instance of [DevicePluginServer].

    The handlers are called with the plugin as it was when it was registered
    with its server: the code passes a pointer, but the fields that the
    handlers read ([devName], [permissions], [devInstances], [stopChan]) are never
    assigned after construction ([same_device] below). *)

From stdpp Require Import base list strings gmap.
From Stdlib Require Import ZArith Strings.Byte Lia.
From S2P Require Import Prelude GoStrings Wire Api ApiRegistry GrpcStatus.
From S2P Require Import GrpcTransport GrpcRpc GrpcCodec GrpcServer ApiService World.
Open Scope Z_scope.

Definition Second : Z := 1000000000.

(** ** The methods of the API *)

(** [Allocate]: the first device of the first container decides. *)
Definition plugin_Allocate (plugin : DevicePlugin) (r : AllocateRequest) : res stop AllocateResponse :=
  let hostPath := devName plugin in
  request ← index (AllocateRequest_ContainerRequests r) 0;
  devId ← index (ContainerAllocateRequest_DevicesIDs request) 0;
  let envs := ∅ in
  let '(hostPath, envs) :=
    if Contains devId "binder"
    then (("/dev/" +:+ devId)%string, <["ANDROID_BINDER_IDX"%string := Trim devId "binder"]> envs)
    else (hostPath, envs) in
  let devSpec := {| DeviceSpec_HostPath := hostPath;
                    DeviceSpec_ContainerPath := devName plugin;
                    DeviceSpec_Permissions := permissions plugin |} in
  let devicesList := [{| ContainerAllocateResponse_Envs := envs;
                         ContainerAllocateResponse_Annotations := ∅;
                         ContainerAllocateResponse_Devices := [devSpec];
                         ContainerAllocateResponse_Mounts := [] |}] in
  Ok (AllocateResponse_set_ContainerResponses devicesList AllocateResponse_Reset).

Definition plugin_GetDevicePluginOptions (plugin : DevicePlugin) (e : Empty) : res stop DevicePluginOptions :=
  Ok {| DevicePluginOptions_PreStartRequired := false |}.

Definition plugin_PreStartContainer (plugin : DevicePlugin) (r : PreStartContainerRequest)
  : res stop PreStartContainerResponse :=
  Ok PreStartContainerResponse_Reset.

(** The loop of [ListAndWatch]: case 0 is [plugin.stopChan], case 1 the ticker. *)
Fixpoint ListAndWatch_loop (fuel : nat) (plugin : DevicePlugin) (Send : ListAndWatchServer) : rpc unit :=
  match fuel with
  | O => rpc_lift Diverge
  | S fuel =>
      k ← do_select 2;
      match k with
      | 0%nat => mret tt
      | _ =>
          ignore (Send {| ListAndWatchResponse_Devices := devInstances plugin |}) ≫= fun _ =>
          ListAndWatch_loop fuel plugin Send
      end
  end.

Definition plugin_ListAndWatch (plugin : DevicePlugin) (e : Empty) (Send : ListAndWatchServer) : rpc unit :=
  ignore (Send {| ListAndWatchResponse_Devices := devInstances plugin |}) ≫= fun _ =>
  with_fuel (fun fuel => ListAndWatch_loop fuel plugin Send).

#[export] Instance plugin_DevicePluginServer : DevicePluginServer DevicePlugin := {|
  GetDevicePluginOptions := plugin_GetDevicePluginOptions;
  ListAndWatch := plugin_ListAndWatch;
  Allocate := plugin_Allocate;
  PreStartContainer := plugin_PreStartContainer;
|}.

(** ** Construction *)

Definition resourceNamePrefix : string := "openvmi/".

Definition devList : list Device := [
  mkDevice "/dev/fuse" "rwm";
  mkDevice "/dev/ashmem" "rwm";
  mkDevice "/dev/binder" "rwm"].

(** The device [i] of a plugin, counted from 0. *)
Definition instance (baseName : string) (i : nat) : Api.Device :=
  Api.mkDevice (baseName +:+ Itoa (Z.of_nat i + 1)) Healthy.

(** [make] with a negative length panics. *)
Definition newDevicePlugin (dev : Device) (devNum : Z) : M nat :=
  let baseName := Base (Device_devName dev) in
  if devNum <? 0 then halts HPanic else
  let devInstances := instance baseName <$> seq 0 (Z.to_nat devNum) in
  c ← make_chan;
  p ← gets (fun w => length (plugins w));
  modify (with_plugins (fun ps => ps ++ [{|
    devName := Device_devName dev;
    permissions := Device_permissions dev;
    baseName := baseName;
    resourceName := (resourceNamePrefix +:+ baseName)%string;
    unixSockPath := (DevicePluginPath +:+ baseName +:+ ".sock")%string;
    unixSock := None;
    gRpcServer := None;
    devInstances := devInstances;
    isRigistered := false;
    stopChan := c |}])) ≫= fun _ =>
  mret p.

(** [newDevicePlugin] never returns an error. *)
Fixpoint newDevicePlugins (ds : list Device) (devNum : Z) : M (list nat) :=
  match ds with
  | [] => mret []
  | dev :: ds =>
      p ← newDevicePlugin dev devNum;
      ps ← newDevicePlugins ds devNum;
      mret (p :: ps)
  end.

Definition initPluginManager (devNum : Z) : M DevicePluginManager :=
  ps ← newDevicePlugins devList devNum;
  mret (mkManager devList ps).

(** ** The gRPC server of a plugin *)

Definition connectGrpcServer (unixSocketPath : string) : M (option ClientConn) :=
  conn ← ask (fun E n => dial E n unixSocketPath);
  emit (TDial unixSocketPath (match conn with Some _ => true | None => false end)) ≫= fun _ =>
  mret conn.

Definition errListen : go_error := errorString "listen".
Definition errDial : go_error := errorString "context deadline exceeded".

(** [startGrpcServer] of a plugin.  The goroutine of [Serve] enters it at some time
    before or after a later stop of the server; the environment says which. *)
Definition plugin_startGrpcServer (p : nat) : M (option go_error) :=
  plugin ← get_plugin p;
  os_Remove (unixSockPath plugin) ≫= fun _ =>
  sock ← net_Listen (unixSockPath plugin);
  match sock with
  | None => mret (Some errListen)
  | Some sock =>
      set_plugin p (set_unixSock sock) ≫= fun _ =>
      s ← gets (fun w => length (servers w));
      r ← ask (fun E _ => env_ranges E);
      srv ← run_res (NewServer (msg:=message) (Impl:=DevicePlugin) [] ≫= fun srv =>
                     RegisterDevicePluginServer r srv plugin);
      match srv with
      | inl e => mret (Some e)
      | inr srv =>
          modify (with_servers (fun ss => ss ++ [srv])) ≫= fun _ =>
          set_plugin p (set_gRpcServer (Some s)) ≫= fun _ =>
          emit (TServe s) ≫= fun _ =>
          entered ← ask serve_first;
          modify (with_servers (alter (fun srv => if entered : bool then (Serve_enter srv sock).2 else srv) s)) ≫= fun _ =>
          conn ← connectGrpcServer (unixSockPath plugin);
          match conn with
          | None => mret (Some errDial)
          | Some _ => emit (TConnClose (unixSockPath plugin)) ≫= fun _ => mret None
          end
      end
  end.

Definition manager_startGrpcServer (mgr : DevicePluginManager) : M (option go_error) :=
  each plugin_startGrpcServer (devPlugins mgr).

(** [stopGrpcServer] of a plugin.  [Stop] closes the listeners that [Serve] took. *)
Definition plugin_stopGrpcServer (p : nat) : M unit :=
  plugin ← get_plugin p;
  match gRpcServer plugin with
  | None => mret tt
  | Some s =>
      srv ← gets (fun w => servers w !! s) ≫= deref;
      let '(ls, _, srv) := Stop srv in
      emit (TStop s) ≫= fun _ =>
      modify (with_servers <[s := srv]>) ≫= fun _ =>
      modify (unlink_listeners (elements ls)) ≫= fun _ =>
      set_plugin p (set_gRpcServer None) ≫= fun _ =>
      set_plugin p (set_isRigistered false) ≫= fun _ =>
      close_chan (stopChan plugin) ≫= fun _ =>
      os_Remove (unixSockPath plugin)
  end.

Definition manager_stopGrpcServer (mgr : DevicePluginManager) : M unit :=
  iter_each plugin_stopGrpcServer (devPlugins mgr).

(** ** Registration with the kubelet *)

Definition register_request (plugin : DevicePlugin) : RegisterRequest := {|
  RegisterRequest_Version := Version;
  RegisterRequest_Endpoint := Base (unixSockPath plugin);
  RegisterRequest_ResourceName := resourceName plugin;
  RegisterRequest_Options := None;
|}.

Definition plugin_registerToKubelet (p : nat) : M (option go_error) :=
  conn ← connectGrpcServer KubeletSocket;
  match conn with
  | None => mret (Some errDial)
  | Some conn =>
      deferring (emit (TConnClose KubeletSocket)) (
        plugin ← get_plugin p;
        let request := register_request plugin in
        r ← run_res (registrationClient_Register conn request);
        match r with
        | inl err =>
            emit (TRegister request false) ≫= fun _ =>
            set_plugin p (set_isRigistered false) ≫= fun _ =>
            mret (Some err)
        | inr _ =>
            emit (TRegister request true) ≫= fun _ =>
            set_plugin p (set_isRigistered true) ≫= fun _ =>
            mret None
        end)
  end.

Definition manager_registerToKubelet (mgr : DevicePluginManager) : M (option go_error) :=
  each (fun p =>
    plugin ← get_plugin p;
    if isRigistered plugin then mret None else plugin_registerToKubelet p) (devPlugins mgr).

(** ** [initHostDevice] *)

Inductive init_error : Type :=
| StartFailed (msg : string)
| CommandFailed (format : string).  (* fmt.Errorf with this as its format *)

(** The reads of the standard error: the buffer of 1024 bytes starts with what was
    read, and all but the last of these bytes are kept. *)
Fixpoint read_stderr (reads : list (list byte)) (errMsg : string) : M string :=
  match reads with
  | [] => mret errMsg
  | b :: reads =>
      let buf := b ++ repeat x00 (1024 - length b) in
      match slice (E:=stop) buf 0 (slen b - 1) with
      | Ok s => read_stderr reads (errMsg +:+ string_of s)
      | _ => halts HPanic
      end
  end.

Definition initHostDevice (devInstanceNum : Z) : M (option init_error) :=
  let str := ("/opt/openvmi/k8s-plugins/k8s-dev-init.sh " +:+ Itoa devInstanceNum)%string in
  run ← ask (fun E n => command E n str);
  emit (TCommand str) ≫= fun _ =>
  if cmd_Start run then
    errMsg ← read_stderr (cmd_stderr run) "";
    if cmd_Wait run then mret (Some (CommandFailed errMsg)) else mret None
  else mret (Some (StartFailed ("failed to start cmd: " +:+ str +:+ "."))).
