(* ===== verification/PluginSpec.v ===== *)
(** * What the plugins and their manager do

    A weakest precondition for the process monad, the invariant of the process
    (every running plugin has its own open server, channel and socket), and the
    specification of starting, stopping and registering plugins; the theorems on
    [Allocate] and [ListAndWatch]. *)

From stdpp Require Import base list strings gmap.
From Stdlib Require Import ZArith Strings.Byte Lia.
From S2P Require Import Prelude GoStrings Wire Api ApiRegistry GrpcStatus.
From S2P Require Import GrpcTransport GrpcRpc GrpcCodec GrpcServer ApiService World.
From S2P Require Import Plugin.
Open Scope Z_scope.

(** ** Weakest preconditions *)

Definition wpM {A} (E : env) (x : M A) (w : world) (Q : A -> world -> Prop) (X : halt -> world -> Prop) : Prop :=
  match x E w with
  | Ret a w => Q a w
  | Halt h w => X h w
  end.

Section wpM.
Context (E : env).

Lemma wpM_bind {A B} (x : M A) (f : A -> M B) w Q X :
  wpM E x w (fun a w => wpM E (f a) w Q X) X -> wpM E (x ≫= f) w Q X.
Proof. unfold wpM, mbind, M_bind. by destruct (x E w). Qed.

Lemma wpM_mono {A} (x : M A) w (Q Q' : A -> world -> Prop) (X X' : halt -> world -> Prop) :
  wpM E x w Q X -> (forall a w, Q a w -> Q' a w) -> (forall h w, X h w -> X' h w) -> wpM E x w Q' X'.
Proof. unfold wpM. destruct (x E w); auto. Qed.

Lemma wpM_and {A} (x : M A) w (Q Q' : A -> world -> Prop) (X X' : halt -> world -> Prop) :
  wpM E x w Q X -> wpM E x w Q' X' ->
  wpM E x w (fun a w => Q a w /\ Q' a w) (fun h w => X h w /\ X' h w).
Proof. unfold wpM. destruct (x E w); auto. Qed.

Lemma wpM_ret {A} (a : A) w (Q : A -> world -> Prop) X : Q a w -> wpM E (mret a) w Q X.
Proof. done. Qed.

Lemma wpM_gets {A} (f : world -> A) w Q X : Q (f w) w -> wpM E (gets f) w Q X.
Proof. done. Qed.

Lemma wpM_modify f w Q X : Q tt (f w) -> wpM E (modify f) w Q X.
Proof. done. Qed.

Lemma wpM_emit a w Q X : Q tt (with_trace (fun t => t ++ [a]) w) -> wpM E (emit a) w Q X.
Proof. done. Qed.

Lemma wpM_ask {A} (f : env -> nat -> A) w Q X : Q (f E (clock w)) (tick w) -> wpM E (ask f) w Q X.
Proof. done. Qed.

Lemma wpM_get_plugin p x w Q X : plugins w !! p = Some x -> Q x w -> wpM E (get_plugin p) w Q X.
Proof. intros Hp HQ. unfold get_plugin. apply wpM_bind, wpM_gets. by rewrite Hp. Qed.

Lemma wpM_set_plugin p f w Q X : Q tt (with_plugins (alter f p) w) -> wpM E (set_plugin p f) w Q X.
Proof. done. Qed.

Lemma wpM_each {A} (f : A -> M (option go_error)) (I : list A -> world -> Prop) (J : world -> Prop) l w X :
  I l w ->
  (forall x l w, I (x :: l) w -> wpM E (f x) w (fun r w' => if r is Some _ then J w' else I l w') X) ->
  wpM E (each f l) w (fun r w' => if r is Some _ then J w' else I [] w') X.
Proof.
  intros Hw Hf. revert w Hw. induction l as [|x l IH]; intros w Hw; simpl; [by apply wpM_ret|].
  apply wpM_bind. eapply wpM_mono; [by apply Hf| |done].
  intros [e|] w' Hw'; [by apply wpM_ret|by apply IH].
Qed.

Lemma wpM_iter_each {A} (f : A -> M unit) (I : list A -> world -> Prop) l w X :
  I l w ->
  (forall x l w, I (x :: l) w -> wpM E (f x) w (fun _ w' => I l w') X) ->
  wpM E (iter_each f l) w (fun _ w' => I [] w') X.
Proof.
  intros Hw Hf. revert w Hw. induction l as [|x l IH]; intros w Hw; simpl; [by apply wpM_ret|].
  apply wpM_bind. eapply wpM_mono; [by apply Hf| |done]. auto.
Qed.
End wpM.

(** One step of symbolic execution. *)
Ltac wp_step :=
  lazymatch goal with
  | |- wpM _ (_ ≫= _) _ _ _ => apply wpM_bind
  | |- wpM _ (mret _) _ _ _ => apply wpM_ret
  | |- wpM _ (gets _) _ _ _ => apply wpM_gets
  | |- wpM _ (modify _) _ _ _ => apply wpM_modify
  | |- wpM _ (emit _) _ _ _ => apply wpM_emit
  | |- wpM _ (ask _) _ _ _ => apply wpM_ask
  | |- wpM _ (set_plugin _ _) _ _ _ => apply wpM_set_plugin
  end; cbv beta iota.
Ltac wp_steps := repeat wp_step.

(** ** The invariant *)

(** The fields that are never assigned after construction. *)
Definition same_device (x y : DevicePlugin) : Prop :=
  devName x = devName y /\ permissions x = permissions y /\ baseName x = baseName y /\
  resourceName x = resourceName y /\ unixSockPath x = unixSockPath y /\
  devInstances x = devInstances y /\ stopChan x = stopChan y.

#[export] Instance same_device_equiv : Equivalence same_device.
Proof. unfold same_device. split; red; intros; destruct_and?; split_and!; congruence. Qed.

Record inv (w : world) : Prop := mkInv {
  inv_chans : length (chans w) = length (plugins w);
  inv_stopChan p x : plugins w !! p = Some x -> stopChan x = p;
  inv_server p x s : plugins w !! p = Some x -> gRpcServer x = Some s ->
    chans w !! p = Some false /\
    (exists srv, servers w !! s = Some srv /\ lis srv <> None /\
      forall l, l ∈ default ∅ (lis srv) -> listeners w !! l = Some (unixSockPath x)) /\
    files w !! unixSockPath x = Some ""%string;
  inv_distinct p q x y : plugins w !! p = Some x -> plugins w !! q = Some y ->
    gRpcServer x <> None -> gRpcServer y <> None ->
    gRpcServer x = gRpcServer y \/ unixSockPath x = unixSockPath y -> p = q;
  inv_registered p x : plugins w !! p = Some x -> isRigistered x = true -> gRpcServer x <> None;
}.

(** Nothing but the plugin [p], its server and its socket changes. *)
Definition only (p : nat) (w w' : world) : Prop :=
  length (plugins w') = length (plugins w) /\
  (forall q, q <> p -> plugins w' !! q = plugins w !! q) /\
  (forall q, q <> p -> chans w' !! q = chans w !! q).

Lemma only_refl p w : only p w w.
Proof. done. Qed.

(** The plugin that [newDevicePlugin] makes. *)
Definition new_plugin (dev : Device) (devNum : Z) (c : nat) : DevicePlugin :=
  let b := Base (Device_devName dev) in
  mkDevicePlugin (Device_devName dev) (Device_permissions dev) b (resourceNamePrefix +:+ b)
    (DevicePluginPath +:+ b +:+ ".sock") None None (instance b <$> seq 0 (Z.to_nat devNum)) false c.

Definition no_halt : halt -> world -> Prop := fun _ _ => False.

Section specs.
Context (E : env).

Lemma wpM_os_Remove path w (Q : unit -> world -> Prop) X :
  (forall fs, fs = files w \/ fs = delete path (files w) ->
    (remove_ok E (clock w) = true -> fs = delete path (files w)) ->
    Q tt (tick (with_files (fun _ => fs) (with_trace (fun t => t ++ [TRemove path]) w)))) ->
  wpM E (os_Remove path) w Q X.
Proof.
  intros HQ. unfold os_Remove. wp_steps.
  change (clock (with_trace _ w)) with (clock w).
  destruct (remove_ok E (clock w)); wp_steps.
  - specialize (HQ (delete path (files w)) (or_intror eq_refl) (fun _ => eq_refl)). exact HQ.
  - specialize (HQ (files w) (or_introl eq_refl)). exact (HQ (fun H => ltac:(discriminate H))).
Qed.

(** [newDevicePlugin] *)
Lemma newDevicePlugin_spec dev devNum w :
  inv w -> 0 <= devNum ->
  wpM E (newDevicePlugin dev devNum) w (fun p w' =>
    p = length (plugins w) /\ inv w' /\ plugins w' = plugins w ++ [new_plugin dev devNum p] /\
    chans w' = chans w ++ [false] /\ servers w' = servers w /\ files w' = files w) no_halt.
Proof.
  intros [I1 I2 I3 I4 I5] Hn. unfold newDevicePlugin, make_chan.
  destruct (Z.ltb_spec devNum 0); [lia|]. wp_steps. simpl.
  split; [done|]. split; [|by rewrite I1].
  assert (forall p x, (plugins w ++ [new_plugin dev devNum (length (plugins w))]) !! p = Some x ->
    plugins w !! p = Some x \/ (p = length (plugins w) /\ x = new_plugin dev devNum (length (plugins w)))) as Hlk.
  { intros p x Hp. apply lookup_app_Some in Hp as [Hp|[Hp1 Hp2]]; [by left|right].
    apply list_lookup_singleton_Some in Hp2 as [??]. split; [lia|done]. }
  fold (new_plugin dev devNum (length (chans w))). rewrite I1.
  constructor; simpl.
  - rewrite !length_app. simpl. lia.
  - intros p x [Hp|[-> ->]]%Hlk; [by apply I2|done].
  - intros p x s [Hp|[-> ->]]%Hlk Hs; [|done]. destruct (I3 p x s Hp Hs) as (Hc & Hr).
    split; [|done]. by apply lookup_app_l_Some.
  - intros p q x y [Hp|[-> ->]]%Hlk [Hq|[-> ->]]%Hlk; try done. by apply I4.
  - intros p x [Hp|[-> ->]]%Hlk; [by eapply I5|done].
Qed.

(** The files other than [path] are as they were. *)
Definition other_files (path : string) (w w' : world) : Prop :=
  forall q, q <> path -> files w' !! q = files w !! q.

(** The invariant after the plugin [p] got a new server [srv]. *)
Lemma inv_new_server w w' p x x' srv :
  inv w -> plugins w !! p = Some x -> chans w !! p = Some false -> gRpcServer x = None ->
  (forall q y, plugins w !! q = Some y -> gRpcServer y <> None -> unixSockPath y <> unixSockPath x) ->
  only p w w' -> chans w' = chans w -> plugins w' !! p = Some x' -> same_device x x' ->
  gRpcServer x' = Some (length (servers w)) -> isRigistered x' = isRigistered x ->
  servers w' = servers w ++ [srv] -> lis srv <> None ->
  (forall l, l ∈ default ∅ (lis srv) -> l = length (listeners w)) ->
  listeners w' = listeners w ++ [unixSockPath x] ->
  files w' !! unixSockPath x = Some ""%string -> other_files (unixSockPath x) w w' ->
  inv w'.
Proof.
  intros [I1 I2 I3 I4 I5] Hp Hc Hs Hpaths (Hlen & Hother & _) Hch Hp' Hsame Hs' Hreg Hsrv Hlis Hl Hls Hf Hfs.
  destruct Hsame as (_ & _ & _ & _ & Hpath & _ & Hstop).
  assert (forall q y, plugins w' !! q = Some y -> (q = p /\ y = x') \/ (q <> p /\ plugins w !! q = Some y)) as Hlk.
  { intros q y Hq. destruct (decide (q = p)) as [->|Hne]; [left; split; congruence|right].
    rewrite <- Hother by done. done. }
  constructor.
  - congruence.
  - intros q y [[-> ->]|[Hne Hq]]%Hlk; [rewrite <- Hstop; by apply I2|by apply I2].
  - intros q y s [[-> ->]|[Hne Hq]]%Hlk Hsy.
    + rewrite Hch. split; [done|]. rewrite Hs' in Hsy. simplify_eq. rewrite <- Hpath. split; [|done].
      exists srv. rewrite Hsrv. split; [by apply list_lookup_middle|]. split; [done|].
      intros l ->%Hl. rewrite Hls. by apply list_lookup_middle.
    + destruct (I3 q y s Hq Hsy) as (Hc' & (srv' & Hsrv' & Hlis' & Hll) & Hff). rewrite Hch. split; [done|].
      split; [|rewrite Hfs; [done|]; eapply Hpaths; [done|by rewrite Hsy]].
      exists srv'. rewrite Hsrv. split; [by apply lookup_app_l_Some|]. split; [done|].
      intros l Hin. rewrite Hls. apply lookup_app_l_Some. auto.
  - assert (forall q y, plugins w !! q = Some y -> gRpcServer y <> None ->
      gRpcServer y <> Some (length (servers w))) as Hfresh.
    { intros q y Hq Hny Heq. destruct (I3 q y _ Hq Heq) as (_ & (srv' & Hlk' & _) & _).
      apply lookup_lt_Some in Hlk'. lia. }
    intros q1 q2 y1 y2 [[-> ->]|[Hne1 Hq1]]%Hlk [[-> ->]|[Hne2 Hq2]]%Hlk Hn1 Hn2 Hor; [done| | |by eapply I4].
    + destruct Hor as [Hor|Hor]; [rewrite Hs' in Hor; by destruct (Hfresh q2 y2)|].
      rewrite <- Hpath in Hor. by destruct (Hpaths q2 y2).
    + destruct Hor as [Hor|Hor]; [rewrite Hs' in Hor; by destruct (Hfresh q1 y1)|].
      rewrite <- Hpath in Hor. by destruct (Hpaths q1 y1).
  - intros q y [[-> ->]|[Hne Hq]]%Hlk Hr; [by rewrite Hs'|by eapply I5].
Qed.

(** The invariant after changes to the files and the trace only. *)
Lemma inv_files w w' x p :
  inv w -> plugins w !! p = Some x -> plugins w' = plugins w -> chans w' = chans w ->
  servers w' = servers w -> listeners w' = listeners w -> other_files (unixSockPath x) w w' ->
  (forall q y, plugins w !! q = Some y -> gRpcServer y <> None -> unixSockPath y <> unixSockPath x) ->
  inv w'.
Proof.
  intros [I1 I2 I3 I4 I5] Hp Hpl Hch Hsrv Hls Hfs Hpaths. constructor; rewrite ?Hpl, ?Hch; try done.
  intros q y s Hq Hs. rewrite Hsrv, Hls. destruct (I3 q y s Hq Hs) as (? & ? & Hff).
  split; [done|split; [done|]]. rewrite Hfs; [done|]. eapply Hpaths; [done|by rewrite Hs].
Qed.

Lemma alter_only p f w :
  only p w (with_plugins (alter f p) w).
Proof.
  split; [apply length_alter|]. split; [|done]. intros q Hne. simpl. by rewrite list_lookup_alter_ne.
Qed.

Lemma only_trans p w1 w2 w3 : only p w1 w2 -> only p w2 w3 -> only p w1 w3.
Proof. intros (?&H1&H2) (?&H3&H4). split; [congruence|split]; intros q Hq; [rewrite H3|rewrite H4]; auto. Qed.

Lemma wpM_net_Listen path w (Q : option nat -> world -> Prop) X :
  Q None (tick w) ->
  (files w !! path = None ->
   Q (Some (length (listeners w)))
     (with_listeners (fun ls => ls ++ [path]) (with_files <[path := ""%string]>
        (with_trace (fun t => t ++ [TListen path]) (tick w))))) ->
  wpM E (net_Listen path) w Q X.
Proof.
  intros Hfail Hok. unfold net_Listen. do 4 wp_step. change (files (tick w)) with (files w).
  destruct (listen_ok E (clock w)), (files w !! path); wp_steps; auto.
Qed.

Lemma wpM_connectGrpcServer path w (Q : option ClientConn -> world -> Prop) X :
  (forall conn, conn = dial E (clock w) path ->
   Q conn (with_trace (fun t => t ++ [TDial path (match conn with Some _ => true | None => false end)]) (tick w))) ->
  wpM E (connectGrpcServer path) w Q X.
Proof. intros HQ. unfold connectGrpcServer. wp_steps. by apply HQ. Qed.

Lemma wpM_run_res {A} (r : res stop A) w (Q : go_error + A -> world -> Prop) X :
  match r with
  | Ok a => Q (inr a) w
  | Err (Raise e) => Q (inl e) w
  | Err Block => X HBlock w
  | Err (Exit n) => X (HExit n) w
  | Panic => X HPanic w
  | Diverge => X HFuel w
  end -> wpM E (run_res r) w Q X.
Proof. unfold wpM, run_res. by destruct r as [|[]| |]. Qed.

Lemma alter_last {A} (f : A -> A) l x : alter f (length l) (l ++ [x]) = l ++ [f x].
Proof. induction l as [|y l IH]; [done|]. simpl. f_equal. exact IH. Qed.

(** [startGrpcServer] of a plugin that is not running.  It returns no error only if
    the plugin runs then; whatever happens, the invariant is kept and nothing but
    the plugin changes.  A socket file left by an earlier run does not prevent the
    start if it can be removed. *)
Lemma startGrpcServer_spec p x w :
  inv w -> plugins w !! p = Some x -> gRpcServer x = None -> chans w !! p = Some false ->
  (forall q y, plugins w !! q = Some y -> gRpcServer y <> None -> unixSockPath y <> unixSockPath x) ->
  wpM E (plugin_startGrpcServer p) w (fun r w' =>
    inv w' /\ only p w w' /\ chans w' = chans w /\
    exists x', plugins w' !! p = Some x' /\ same_device x x' /\ isRigistered x' = false /\
      (r = None -> gRpcServer x' <> None)) no_halt.
Proof.
  intros Hinv Hp Hs Hc Hpaths.
  assert (isRigistered x = false) as Hreg.
  { destruct (isRigistered x) eqn:Hr; [|done]. by destruct (inv_registered w Hinv p x Hp Hr). }
  unfold plugin_startGrpcServer. wp_step. eapply wpM_get_plugin; [done|].
  wp_step. apply wpM_os_Remove. intros fs Hfs _.
  assert (forall q, q <> unixSockPath x -> fs !! q = files w !! q) as Hother.
  { intros q Hq. destruct Hfs as [->| ->]; [done|by rewrite lookup_delete_ne]. }
  wp_step. apply wpM_net_Listen.
  { wp_step. split; [by eapply (inv_files w)|]. split; [done|]. split; [done|]. by exists x. }
  intros Hfree. wp_steps. apply wpM_run_res. rewrite NewServer_registered. cbv beta iota.
  wp_steps. apply wpM_connectGrpcServer. intros conn _.
  set (srv := plugin_server (env_ranges E) x).
  assert (forall r w', plugins w' = alter (set_gRpcServer (Some (length (servers w)))) p
      (alter (set_unixSock (length (listeners w))) p (plugins w)) ->
    chans w' = chans w -> listeners w' = listeners w ++ [unixSockPath x] ->
    servers w' = alter (fun srv => if serve_first E (S (S (S (clock w)))) then (Serve_enter srv (length (listeners w))).2 else srv)
      (length (servers w)) (servers w ++ [srv]) ->
    files w' = <[unixSockPath x := ""%string]> fs ->
    inv w' /\ only p w w' /\ chans w' = chans w /\
    exists x', plugins w' !! p = Some x' /\ same_device x x' /\ isRigistered x' = false /\
      (r = @None go_error -> gRpcServer x' <> None)) as Hpost.
  { intros r w' Hpl Hch Hls Hsrv Hf. rewrite alter_last in Hsrv.
    assert (plugins w' !! p = Some (set_gRpcServer (Some (length (servers w))) (set_unixSock (length (listeners w)) x)))
      as Hp' by (rewrite Hpl, !list_lookup_alter_eq, Hp; done).
    assert (only p w w') as Honly.
    { split; [by rewrite Hpl, !length_alter|]. split; [|by rewrite Hch].
      intros q Hq. by rewrite Hpl, !list_lookup_alter_ne. }
    split; [|split; [done|split; [done|]]].
    - eapply (inv_new_server w w' p x); try done.
      + by destruct (serve_first E _).
      + destruct (serve_first E _); simpl; set_solver.
      + by rewrite Hf, lookup_insert_eq.
      + intros q Hq. rewrite Hf, lookup_insert_ne by done. by apply Hother.
    - eexists. split; [done|]. split; [done|]. split; [done|]. done. }
  destruct conn; wp_steps; apply Hpost; done.
Qed.

(** Closing listeners that are on [path] removes at most that file. *)
Lemma unlink_files path ls w :
  (forall l, l ∈ ls -> listeners w !! l = Some path) ->
  forall q, q <> path -> files (unlink_listeners ls w) !! q = files w !! q.
Proof.
  intros Hls q Hq. unfold unlink_listeners. simpl. induction ls as [|l ls IH]; [done|]. simpl.
  rewrite (Hls l) by (left). rewrite lookup_delete_ne by done. apply IH. intros. apply Hls. by right.
Qed.

(** The invariant after the plugin [p], which ran the server [s], was stopped. *)
Lemma inv_stopped w w' p x s srv :
  inv w -> plugins w !! p = Some x -> gRpcServer x = Some s ->
  plugins w' = alter (set_isRigistered false) p (alter (set_gRpcServer None) p (plugins w)) ->
  chans w' = <[p := true]> (chans w) -> servers w' = <[s := srv]> (servers w) ->
  listeners w' = listeners w -> other_files (unixSockPath x) w w' -> inv w'.
Proof.
  intros Hinv Hp Hs Hpl Hch Hsrv Hls Hfs. pose proof Hinv as [I1 I2 I3 I4 I5].
  assert (forall q y, plugins w' !! q = Some y ->
    (q = p /\ y = set_isRigistered false (set_gRpcServer None x)) \/ (q <> p /\ plugins w !! q = Some y)) as Hlk.
  { intros q y. rewrite Hpl. destruct (decide (q = p)) as [->|Hne].
    - rewrite !list_lookup_alter_eq, Hp. intros [= <-]. by left.
    - rewrite !list_lookup_alter_ne by done. by right. }
  constructor.
  - by rewrite Hch, Hpl, length_insert, !length_alter.
  - intros q y [[-> ->]|[Hne Hq]]%Hlk; [exact (I2 p x Hp)|by apply I2].
  - intros q y s' [[-> ->]|[Hne Hq]]%Hlk Hsy; [done|].
    destruct (I3 q y s' Hq Hsy) as (Hc & (srv' & Hsrv' & Hr) & Hf).
    assert (s' <> s) as Hss.
    { intros ->. apply Hne. apply (I4 q p y x); try done; [by rewrite Hsy|by rewrite Hs|left; congruence]. }
    rewrite Hch, list_lookup_insert_ne by done. split; [done|]. split.
    + exists srv'. rewrite Hsrv, list_lookup_insert_ne, Hls by done. done.
    + rewrite Hfs; [done|]. intros Heq. apply Hne.
      apply (I4 q p y x); try done; [by rewrite Hsy|by rewrite Hs|by right].
  - intros q1 q2 y1 y2 [[-> ->]|[Hne1 Hq1]]%Hlk [[-> ->]|[Hne2 Hq2]]%Hlk; try done. by apply I4.
  - intros q y [[-> ->]|[Hne Hq]]%Hlk; [done|by eapply I5].
Qed.

(** [stopGrpcServer] of any plugin never panics, stops the plugin's server and
    closes its channel if it runs, does nothing if not, and leaves the rest alone. *)
Lemma stopGrpcServer_spec p x w :
  inv w -> plugins w !! p = Some x ->
  wpM E (plugin_stopGrpcServer p) w (fun _ w' =>
    inv w' /\ only p w w' /\ other_files (unixSockPath x) w w' /\
    (exists x', plugins w' !! p = Some x' /\ same_device x x' /\ gRpcServer x' = None /\ isRigistered x' = false) /\
    match gRpcServer x with
    | None => w' = w
    | Some s => chans w' !! p = Some true /\
        (exists srv, servers w' !! s = Some srv /\ lis srv = None /\ conns srv = None) /\
        (forall s', s' <> s -> servers w' !! s' = servers w !! s') /\
        ((forall n, remove_ok E n = true) -> files w' !! unixSockPath x = None)
    end) no_halt.
Proof.
  intros Hinv Hp. unfold plugin_stopGrpcServer. wp_step. eapply wpM_get_plugin; [done|].
  destruct (gRpcServer x) as [s|] eqn:Hs.
  2:{ wp_step. split; [done|]. split; [done|]. split; [done|]. split; [|done]. exists x.
      split; [done|]. split; [done|]. split; [done|].
      destruct (isRigistered x) eqn:Hr; [|done]. by destruct (inv_registered w Hinv p x Hp Hr). }
  destruct (inv_server w Hinv p x s Hp Hs) as (Hc & (srv & Hsrv & Hlis & Hll) & Hf).
  wp_steps. rewrite Hsrv. unfold deref. wp_step. unfold Stop. wp_steps. unfold close_chan.
  pose proof (inv_stopChan w Hinv p x Hp) as Hst. wp_steps.
  rewrite Hst. cbn [chans with_plugins with_servers with_trace with_files unlink_listeners].
  rewrite Hc. unfold deref. wp_steps. apply wpM_os_Remove. intros fs Hfs Hrm. cbv beta.
  set (w' := tick _).
  assert (other_files (unixSockPath x) w w') as Hother.
  { intros q Hq. change (fs !! q = files w !! q).
    assert (files (unlink_listeners (elements (default ∅ (lis srv))) w) !! q = files w !! q) as Hun.
    { apply (unlink_files (unixSockPath x)); [|done]. intros l Hl. apply Hll. by apply elem_of_elements. }
    destruct Hfs as [->| ->]; [exact Hun|]. rewrite lookup_delete_ne by done. exact Hun. }
  assert (plugins w' = alter (set_isRigistered false) p (alter (set_gRpcServer None) p (plugins w))) as Hpl by done.
  assert (inv w') as Hinv' by by eapply (inv_stopped w w' p x s).
  assert (p < length (chans w))%nat as Hlt by by eapply lookup_lt_Some.
  split; [done|]. split; [|split; [done|split]].
  - split; [by rewrite Hpl, !length_alter|]. split; intros q Hq.
    + by rewrite Hpl, !list_lookup_alter_ne.
    + change (<[p := true]> (chans w) !! q = chans w !! q). by rewrite list_lookup_insert_ne.
  - eexists. rewrite Hpl, !list_lookup_alter_eq, Hp. split; [done|]. done.
  - split; [|split; [|split]].
    + change (<[p := true]> (chans w) !! p = Some true). by rewrite list_lookup_insert_eq.
    + eexists. split; [apply list_lookup_insert_eq; by eapply lookup_lt_Some|done].
    + intros s' Hne. exact (list_lookup_insert_ne _ _ _ _ (not_eq_sym Hne)).
    + intros Hr. change (fs !! unixSockPath x = None). rewrite Hrm by apply Hr. by apply lookup_delete_eq.
Qed.

Lemma wpM_deferring {A} (f : M unit) (x : M A) w (Q : A -> world -> Prop) (X : halt -> world -> Prop) :
  wpM E x w (fun a w => wpM E f w (fun _ w => Q a w) X)
    (fun h w => match h with HPanic => wpM E f w (fun _ w => X HPanic w) X | _ => X h w end) ->
  wpM E (deferring f x) w Q X.
Proof.
  unfold wpM, deferring. destruct (x E w) as [a w'|[] w']; simpl; try done; by destruct (f E w').
Qed.

(** The invariant does not depend on whether a running plugin is registered. *)
Lemma inv_set_registered w w' p x b :
  inv w -> plugins w !! p = Some x -> (b = true -> gRpcServer x <> None) ->
  plugins w' = alter (set_isRigistered b) p (plugins w) -> chans w' = chans w ->
  servers w' = servers w -> listeners w' = listeners w -> files w' = files w -> inv w'.
Proof.
  intros [I1 I2 I3 I4 I5] Hp Hb Hpl Hch Hsrv Hls Hfs.
  assert (forall q y, plugins w' !! q = Some y -> exists y0, plugins w !! q = Some y0 /\
    stopChan y = stopChan y0 /\ gRpcServer y = gRpcServer y0 /\ unixSockPath y = unixSockPath y0 /\
    (isRigistered y = true -> gRpcServer y <> None)) as Hlk.
  { intros q y. rewrite Hpl. destruct (decide (q = p)) as [->|Hne].
    - rewrite list_lookup_alter_eq, Hp. intros [= <-]. exists x. done.
    - rewrite list_lookup_alter_ne by done. intros Hq. exists y. split_and!; try done. by eapply I5. }
  constructor.
  - by rewrite Hch, Hpl, length_alter.
  - intros q y (y0 & Hq & -> & _)%Hlk. by apply I2.
  - intros q y s (y0 & Hq & _ & Hs & Hpath & _)%Hlk Hsy. rewrite Hch, Hsrv, Hls, Hfs, Hpath. apply I3; congruence.
  - intros q1 q2 y1 y2 (z1 & Hq1 & _ & -> & -> & _)%Hlk (z2 & Hq2 & _ & -> & -> & _)%Hlk. by apply I4.
  - intros q y (y0 & _ & _ & _ & _ & Hr)%Hlk. done.
Qed.

Lemma inv_quiet w w' :
  inv w -> plugins w' = plugins w -> chans w' = chans w -> servers w' = servers w ->
  listeners w' = listeners w -> files w' = files w -> inv w'.
Proof.
  intros [I1 I2 I3 I4 I5] Hpl Hch Hsrv Hls Hf. constructor; rewrite ?Hpl, ?Hch, ?Hsrv, ?Hls, ?Hf; done.
Qed.

(** What grpc.Invoke does: it returns, with an error or without, or blocks. *)
Definition conn_ok (conn : ClientConn) : Prop :=
  forall method x t y, match conn method x t y with Ok _ | Err (Raise _) | Err Block => True | _ => False end.
Definition env_ok : Prop := forall n path conn, dial E n path = Some conn -> conn_ok conn.

Definition blocks : halt -> world -> Prop := fun h _ => h = HBlock.

(** [registerToKubelet] of a running plugin: it is marked as registered exactly if
    the kubelet accepted its request. *)
Lemma registerToKubelet_spec p x w :
  env_ok -> inv w -> plugins w !! p = Some x -> gRpcServer x <> None -> isRigistered x = false ->
  wpM E (plugin_registerToKubelet p) w (fun r w' =>
    inv w' /\ only p w w' /\ chans w' = chans w /\ servers w' = servers w /\
    exists x', plugins w' !! p = Some x' /\ same_device x x' /\ gRpcServer x' = gRpcServer x /\
      isRigistered x' = bool_decide (r = None)) blocks.
Proof.
  intros HE Hinv Hp Hs Hreg. unfold plugin_registerToKubelet. wp_step. apply wpM_connectGrpcServer.
  intros conn Hconn. destruct conn as [conn|].
  2:{ wp_step. split; [by eapply (inv_quiet w)|]. split; [done|]. split; [done|]. split; [done|]. by exists x. }
  pose proof (HE _ _ _ (eq_sym Hconn)) as Hok. apply wpM_deferring. wp_step. eapply wpM_get_plugin; [done|].
  wp_step. apply wpM_run_res. unfold registrationClient_Register.
  specialize (Hok "/v1beta1.Registration/Register"%string (existT TRegisterRequest (register_request x)) TEmpty Empty_Reset).
  assert (forall b w', (b = true -> gRpcServer x <> None) -> plugins w' = alter (set_isRigistered b) p (plugins w) ->
    chans w' = chans w -> servers w' = servers w -> listeners w' = listeners w -> files w' = files w ->
    inv w' /\ only p w w' /\ chans w' = chans w /\ servers w' = servers w /\
    exists x', plugins w' !! p = Some x' /\ same_device x x' /\ gRpcServer x' = gRpcServer x /\ isRigistered x' = b) as Hpost.
  { intros b w' Hb Hpl Hch Hsrv Hls Hf. split; [by eapply inv_set_registered|].
    split; [|split; [done|split; [done|]]].
    - split; [by rewrite Hpl, length_alter|]. split; [|by rewrite Hch]. intros q Hq. by rewrite Hpl, list_lookup_alter_ne.
    - eexists. rewrite Hpl, list_lookup_alter_eq, Hp. by split. }
  destruct (conn _ _ _ _) as [a|[e| |n]| |]; try done; wp_steps; by apply Hpost.
Qed.
End specs.
