(* ===== verification/ManagerSpec.v ===== *)
(** * What the manager does to all the plugins

    Specifications of [initPluginManager], [startGrpcServer], [registerToKubelet] and
    [stopGrpcServer] of the manager, by invariants of their loops over the plugins. *)

From stdpp Require Import base list strings gmap.
From Stdlib Require Import ZArith Strings.Byte Lia.
From S2P Require Import Prelude GoStrings Wire Api ApiRegistry GrpcStatus.
From S2P Require Import GrpcTransport GrpcRpc GrpcCodec GrpcServer ApiService World.
From S2P Require Import Plugin PluginSpec.
Open Scope Z_scope.

(** No plugin runs. *)
Definition idle (w : world) : Prop :=
  forall p x, plugins w !! p = Some x -> gRpcServer x = None.

(** No plugin but those of [ps] runs. *)
Definition idle_but (ps : list nat) (w : world) : Prop :=
  forall p x, plugins w !! p = Some x -> p ∉ ps -> gRpcServer x = None.

(** The same plugins, up to the fields that change. *)
Definition same_plugins (w w' : world) : Prop := Forall2 same_device (plugins w) (plugins w').

Lemma same_plugins_lookup w w' p x' :
  same_plugins w w' -> plugins w' !! p = Some x' -> exists x, plugins w !! p = Some x /\ same_device x x'.
Proof. intros Hs Hp. eapply Forall2_lookup_r in Hs as (x & ? & ?); eauto. Qed.

Lemma same_plugins_lookup_l w w' p x :
  same_plugins w w' -> plugins w !! p = Some x -> exists x', plugins w' !! p = Some x' /\ same_device x x'.
Proof. intros Hs Hp. eapply Forall2_lookup_l in Hs as (x' & ? & ?); eauto. Qed.

Lemma only_same p x x' w w' :
  only p w w' -> plugins w !! p = Some x -> plugins w' !! p = Some x' -> same_device x x' -> same_plugins w w'.
Proof.
  intros (Hlen & Hother & _) Hp Hp' Hsame. apply Forall2_same_length_lookup_2; [done|].
  intros q y y' Hy Hy'. destruct (decide (q = p)) as [->|Hne]; [by simplify_eq|].
  rewrite Hother in Hy' by done. simplify_eq. done.
Qed.

Lemma same_plugins_trans w1 w2 w3 : same_plugins w1 w2 -> same_plugins w2 w3 -> same_plugins w1 w3.
Proof. unfold same_plugins. intros. by etrans. Qed.

(** Different plugins of [ps] have different sockets. *)
Definition distinct_paths (ps : list nat) (w : world) : Prop :=
  forall p q x y, p ∈ ps -> q ∈ ps -> plugins w !! p = Some x -> plugins w !! q = Some y ->
    unixSockPath x = unixSockPath y -> p = q.

Lemma distinct_paths_same ps w w' : same_plugins w w' -> distinct_paths ps w -> distinct_paths ps w'.
Proof.
  intros Hs Hd p q x y Hp Hq Hx Hy Heq.
  destruct (same_plugins_lookup _ _ _ _ Hs Hx) as (x0 & Hx0 & ?&?&?&?&Hpx&_).
  destruct (same_plugins_lookup _ _ _ _ Hs Hy) as (y0 & Hy0 & ?&?&?&?&Hpy&_).
  apply (Hd p q x0 y0); congruence.
Qed.

(** The manager that [initPluginManager] makes in a process with [k] plugins. *)
Definition manager_at (k : nat) : DevicePluginManager := mkManager devList (seq k (length devList)).

Definition new_plugins (devNum : Z) (k : nat) : list DevicePlugin :=
  imap (fun i dev => new_plugin dev devNum (k + i)) devList.

Section specs.
Context (E : env).

Lemma newDevicePlugins_spec ds devNum w :
  inv w -> 0 <= devNum ->
  wpM E (newDevicePlugins ds devNum) w (fun ps w' =>
    ps = seq (length (plugins w)) (length ds) /\ inv w' /\
    plugins w' = plugins w ++ imap (fun i dev => new_plugin dev devNum (length (plugins w) + i)) ds /\
    chans w' = chans w ++ repeat false (length ds) /\ files w' = files w) no_halt.
Proof.
  intros Hinv Hn. revert w Hinv. induction ds as [|dev ds IH]; intros w Hinv; simpl.
  - wp_step. rewrite !app_nil_r. done.
  - wp_step. eapply wpM_mono; [by apply newDevicePlugin_spec| |done].
    intros p w1 (-> & Hinv1 & Hpl & Hch & _ & Hf). wp_step.
    eapply wpM_mono; [by apply IH| |done]. intros ps w2 (-> & Hinv2 & Hpl2 & Hch2 & Hf2). wp_step.
    assert (length (plugins w1) = S (length (plugins w))) as Hlen
      by (rewrite Hpl, length_app; simpl; lia).
    rewrite Hlen in *. split; [done|]. split; [done|]. split; [|split; [|congruence]].
    + rewrite Hpl2, Hpl, <- app_assoc. f_equal. simpl. rewrite Nat.add_0_r. f_equal.
      apply imap_ext. intros. simpl. by rewrite Nat.add_succ_r.
    + by rewrite Hch2, Hch, <- app_assoc.
Qed.

(** The manager has one fresh plugin for every device of [devList]. *)
Lemma initPluginManager_spec devNum w :
  inv w -> 0 <= devNum -> idle w ->
  wpM E (initPluginManager devNum) w (fun mgr w' =>
    mgr = manager_at (length (plugins w)) /\ inv w' /\ idle w' /\
    plugins w' = plugins w ++ new_plugins devNum (length (plugins w)) /\
    chans w' = chans w ++ repeat false (length devList) /\ files w' = files w) no_halt.
Proof.
  intros Hinv Hn Hidle. unfold initPluginManager. wp_step.
  eapply wpM_mono; [by apply newDevicePlugins_spec| |done].
  intros ps w1 (-> & Hinv1 & Hpl & Hch & Hf). wp_step.
  split; [done|]. split; [done|]. split; [|done].
  intros p x. rewrite Hpl. intros [Hp|[_ Hp]]%lookup_app_Some; [by eapply Hidle|].
  apply list_lookup_imap_Some in Hp as (dev & _ & ->). done.
Qed.

Section manager.
Context (mgr : DevicePluginManager).
Local Abbreviation ps := (devPlugins mgr).

(** The loop of [startGrpcServer]: the plugins of [l] are still to be started. *)
Definition starting (w0 : world) (l : list nat) (w : world) : Prop :=
  inv w /\ same_plugins w0 w /\ idle_but ps w /\ l `suffix_of` ps /\
  forall p, p ∈ ps -> exists x, plugins w !! p = Some x /\ isRigistered x = false /\
    (if decide (p ∈ l) then gRpcServer x = None /\ chans w !! p = Some false else gRpcServer x <> None).

Lemma manager_startGrpcServer_spec w0 w :
  NoDup ps -> distinct_paths ps w0 -> starting w0 ps w ->
  wpM E (manager_startGrpcServer mgr) w (fun r w' =>
    if r is Some _ then inv w' else starting w0 [] w') no_halt.
Proof.
  intros Hnd Hpaths Hst. unfold manager_startGrpcServer. apply (wpM_each E _ (starting w0) inv); [done|].
  clear w Hst. intros p l w (Hinv & Hsame & Hidle & [pre Hpre] & Hps).
  assert (p ∈ ps) as Hin by (rewrite Hpre; set_solver).
  destruct (Hps p Hin) as (x & Hp & Hr & Hx). rewrite decide_True in Hx by (left). destruct Hx as [Hs Hc].
  eapply wpM_mono; [apply (startGrpcServer_spec E p x); try done| |done].
  - intros q y Hq Hy Heq. destruct (decide (q ∈ ps)) as [Hqin|Hqn]; [|by apply Hy, (Hidle q y)].
    assert (q = p) as -> by by eapply (distinct_paths_same _ _ _ Hsame Hpaths).
    simplify_eq.
  - intros r w' (Hinv' & Honly & Hch & x' & Hp' & Hsd & Hr' & Hrun). destruct r as [e|]; [done|].
    pose proof (only_same _ _ _ _ _ Honly Hp Hp' Hsd) as Hsame'.
    destruct Honly as (Hlen & Hother & _).
    assert (p ∉ l) as Hpl by (rewrite Hpre in Hnd; apply NoDup_app in Hnd as (_ & _ & Hnd); by inversion Hnd).
    split; [done|]. split; [by eapply same_plugins_trans|]. split; [|split].
    + intros q y Hq Hnin. rewrite Hother in Hq by (intros ->; done). by eapply Hidle.
    + exists (pre ++ [p]). by rewrite <- app_assoc.
    + intros q Hq. destruct (decide (q = p)) as [->|Hne].
      * exists x'. rewrite decide_False by done. auto.
      * destruct (Hps q Hq) as (y & Hy & Hyr & Hyl). exists y. rewrite Hother, Hch by done. split; [done|split; [done|]].
        destruct (decide (q ∈ l)); destruct (decide (q ∈ p :: l)); set_solver.
Qed.

(** All plugins of the manager run, and no others. *)
Definition running (w0 w : world) : Prop :=
  inv w /\ same_plugins w0 w /\ idle_but ps w /\
  forall p, p ∈ ps -> exists x, plugins w !! p = Some x /\ gRpcServer x <> None.

(** ... and they are registered but for those of [l]. *)
Definition registering (w0 : world) (l : list nat) (w : world) : Prop :=
  running w0 w /\
  forall p x, p ∈ ps -> p ∉ l -> plugins w !! p = Some x -> isRigistered x = true.

Lemma manager_registerToKubelet_spec w0 w :
  env_ok E -> registering w0 ps w ->
  wpM E (manager_registerToKubelet mgr) w (fun r w' =>
    if r is Some _ then running w0 w' else registering w0 [] w') blocks.
Proof.
  intros HE Hreg. unfold manager_registerToKubelet.
  assert (forall l w, l `suffix_of` ps /\ registering w0 l w ->
    wpM E (each (fun p => plugin ← get_plugin p; if isRigistered plugin then mret None else plugin_registerToKubelet p) l) w
      (fun r w' => if r is Some _ then running w0 w' else [] `suffix_of` ps /\ registering w0 [] w') blocks) as Hloop.
  2:{ eapply wpM_mono; [by apply (Hloop ps w); split| |done]. intros [e|] w' H; [done|]. by destruct H. }
  clear w Hreg. intros l w Hw.
  apply (wpM_each E _ (fun l w => l `suffix_of` ps /\ registering w0 l w) (running w0)); [done|].
  clear l w Hw. intros p l w ([pre Hpre] & (Hinv & Hsame & Hidle & Hrun) & Hreg).
  assert (p ∈ ps) as Hin by (rewrite Hpre; set_solver). destruct (Hrun p Hin) as (x & Hp & Hs).
  assert (l `suffix_of` ps) as Hsuf by (exists (pre ++ [p]); by rewrite <- app_assoc).
  wp_step. eapply wpM_get_plugin; [done|]. destruct (isRigistered x) eqn:Hr.
  - wp_step. split; [done|]. split; [done|]. intros q y Hq Hql Hy.
    destruct (decide (q = p)) as [->|Hne]; [by simplify_eq|]. apply (Hreg q y); set_solver.
  - eapply wpM_mono; [by apply registerToKubelet_spec| |done].
    intros r w' (Hinv' & Honly & Hch & Hsrv & x' & Hp' & Hsd & Hs' & Hr').
    pose proof (only_same _ _ _ _ _ Honly Hp Hp' Hsd) as Hsame'. destruct Honly as (Hlen & Hother & _).
    assert (running w0 w') as Hrun'.
    { split; [done|]. split; [by eapply same_plugins_trans|]. split.
      - intros q y Hq Hnin. rewrite Hother in Hq by (intros ->; done). by eapply Hidle.
      - intros q Hq. destruct (decide (q = p)) as [->|Hne]; [exists x'; split; [done|by rewrite Hs']|].
        rewrite Hother by done. auto. }
    destruct r as [e|]; [done|]. split; [done|]. split; [done|]. intros q y Hq Hql Hy.
    destruct (decide (q = p)) as [->|Hne]; [simplify_eq; by rewrite Hr'|].
    rewrite Hother in Hy by done. apply (Hreg q y); set_solver.
Qed.

(** The loop of [stopGrpcServer]: the plugins of [l] are still to be stopped.  A
    plugin that ran in [w0] and is stopped has its channel closed and its socket
    removed. *)
Definition stopping (w0 : world) (l : list nat) (w : world) : Prop :=
  inv w /\ same_plugins w0 w /\ idle_but l w /\
  forall p x, plugins w0 !! p = Some x ->
    (p ∈ l -> plugins w !! p = Some x) /\
    (p ∉ l -> gRpcServer x <> None -> chans w !! p = Some true /\
      ((forall n, remove_ok E n = true) -> files w !! unixSockPath x = None)).

Lemma manager_stopGrpcServer_spec w0 :
  inv w0 -> NoDup ps -> idle_but ps w0 -> (forall p, p ∈ ps -> is_Some (plugins w0 !! p)) ->
  wpM E (manager_stopGrpcServer mgr) w0 (fun _ w' => stopping w0 [] w') no_halt.
Proof.
  intros Hinv0 Hnd Hidle0 Hps. unfold manager_stopGrpcServer.
  eapply wpM_mono; [apply (wpM_iter_each E _ (fun l w => l `suffix_of` ps /\ stopping w0 l w))| |done];
    [|clear Hidle0|by intros _ w' [_ H]].
  - split; [done|]. split; [done|]. split; [unfold same_plugins; reflexivity|]. split; [done|].
    intros p x Hp. split; [done|]. intros Hnin Hrun. by destruct (Hrun (Hidle0 p x Hp Hnin)).
  - intros p l w ([pre Hpre] & Hinv & Hsame & Hidle & Hst).
    assert (p ∈ ps) as Hin by (rewrite Hpre; set_solver). destruct (Hps p Hin) as [x Hp0].
    assert (l `suffix_of` ps) as Hsuf by (exists (pre ++ [p]); by rewrite <- app_assoc).
    assert (p ∉ l) as Hpl by (rewrite Hpre in Hnd; apply NoDup_app in Hnd as (_ & _ & Hnd); by inversion Hnd).
    destruct (Hst p x Hp0) as [Hp _]. specialize (Hp ltac:(left)).
    eapply wpM_mono; [by apply (stopGrpcServer_spec E p x)| |done].
    intros _ w' (Hinv' & Honly & Hfs & (x' & Hp' & Hsd & Hs' & _) & Hcase). split; [done|].
    pose proof (only_same _ _ _ _ _ Honly Hp Hp' Hsd) as Hsame'. destruct Honly as (Hlen & Hother & Hchans).
    split; [done|]. split; [by eapply same_plugins_trans|]. split.
    + intros q y Hq Hql. destruct (decide (q = p)) as [->|Hne]; [by simplify_eq|].
      rewrite Hother in Hq by done. apply (Hidle q y Hq). set_solver.
    + intros q y Hq. destruct (Hst q y Hq) as [Hql Hqn]. destruct (decide (q = p)) as [->|Hne].
      * simplify_eq. split; [done|]. intros _ Hrun. destruct (gRpcServer x) as [s|]; [|done].
        destruct Hcase as (Hc & _ & _ & Hf). done.
      * rewrite Hother, Hchans by done. split; [intros; apply Hql; by right|].
        intros Hnin Hrun. destruct (Hqn ltac:(set_solver) Hrun) as [Hc Hf]. split; [done|]. intros Hrm.
        destruct (gRpcServer x) as [s|] eqn:Hsx; [|subst; auto].
        rewrite Hfs; [auto|]. intros Heq. apply Hne.
        apply (inv_distinct w0 Hinv0 q p y x); try done; [by rewrite Hsx|by right].
Qed.

Lemma stopping_idle w0 w : stopping w0 [] w -> idle w.
Proof. intros (_ & _ & Hidle & _) p x Hp. eapply Hidle; [done|]. set_solver. Qed.
End manager.
End specs.

(** A process in which nothing has happened yet, on a host with the files [fs]. *)
Definition new_world (fs : gmap string string) : world := mkWorld 0 [] fs [] [] [] [].

Lemma new_world_inv fs : inv (new_world fs).
Proof. by constructor. Qed.

Lemma new_world_idle fs : idle (new_world fs).
Proof. by intros p x Hp. Qed.

(** An environment in which everything succeeds, except that sockets can be created,
    and the kubelet reached, only at the given times; [events] is what happens. *)
Definition host (listens kubelet : nat -> bool) (events : nat -> option main_event) : env := {|
  env_ranges := some_ranges;
  pid := 42;
  num_cpu := 2;
  command _ _ := {| cmd_Start := true; cmd_stderr := []; cmd_Wait := false |};
  stat_error _ := false;
  create_ok _ := true;
  write_ok _ := true;
  remove_ok _ := true;
  listen_ok := listens;
  dial n path := if bool_decide (path = KubeletSocket) && negb (kubelet n) then None
                 else Some (fun _ _ _ y => Ok y);
  serve_first _ := true;
  new_watcher_ok _ := true;
  watch_ok _ := true;
  next_event := events;
|}.

Definition accepting : env := host (fun _ => true) (fun _ => true) (fun _ => None).

Lemma host_env_ok listens kubelet events : env_ok (host listens kubelet events).
Proof. intros n path conn. simpl. destruct (_ && _); [done|]. by intros [= <-] method x t y. Qed.
