(* ===== verification/PluginLifecycle.v ===== *)
(** * The life of a plugin

    Starting and stopping a plugin on its own: the round trip, why a plugin cannot
    be started again, what it tells the kubelet on registration, and what the
    initialisation of the host devices reports. *)

From stdpp Require Import base list strings gmap.
From Stdlib Require Import ZArith Strings.Ascii Strings.Byte Lia.
From S2P Require Import Prelude GoStrings Wire Api ApiRegistry GrpcStatus.
From S2P Require Import GrpcTransport GrpcRpc GrpcCodec GrpcServer ApiService World.
From S2P Require Import Plugin PluginSpec ManagerSpec.
Open Scope Z_scope.

(** ** Paths *)

Definition no_slash (s : string) : bool := all_chars (fun c => negb (bool_decide (c = "/"%char))) s.

Lemma split_slash_none s : no_slash s = true -> split_slash s = [s].
Proof.
  induction s as [|c s IH]; [done|]. unfold no_slash. simpl. intros [Hc Hs]%andb_true_iff.
  apply negb_true_iff in Hc. rewrite Hc. fold (no_slash s) in Hs. by rewrite IH.
Qed.

Lemma split_slash_nonempty s : split_slash s <> [].
Proof. destruct s as [|c s]; simpl; [done|]. by repeat case_match. Qed.

Lemma split_slash_parts s : Forall (fun p => no_slash p = true) (split_slash s).
Proof.
  induction s as [|c s IH]; simpl; [by repeat constructor|].
  case_bool_decide as Hc; [by constructor|].
  assert (no_slash (String c "") = true) as Hcs by (unfold no_slash; simpl; by rewrite bool_decide_eq_false_2).
  destruct (split_slash s) as [|p parts]; [by repeat constructor|]. inversion_clear IH as [|? ? Hp Hps].
  constructor; [|done]. unfold no_slash in *. simpl in *. apply andb_true_iff in Hcs as [-> _]. done.
Qed.

Lemma split_slash_app p q : split_slash (p +:+ String "/" q) = split_slash p ++ split_slash q.
Proof.
  induction p as [|c p IH]; simpl; [done|]. rewrite IH. destruct (bool_decide (c = "/"%char)); [done|].
  pose proof (split_slash_nonempty p). by destruct (split_slash p).
Qed.

Lemma split_slash_last p q : no_slash q = true -> last (split_slash (p +:+ String "/" q)) = Some q.
Proof. intros Hq. by rewrite split_slash_app, (split_slash_none q), last_snoc. Qed.

Lemma TrimRight_app p q cut : q <> ""%string -> TrimRight q cut = q -> TrimRight (p +:+ q) cut = (p +:+ q)%string.
Proof.
  intros Hne Hq. induction p as [|c p IH]; [done|].
  change (TrimRight (String c (p +:+ q)) cut = String c (p +:+ q)). cbn [TrimRight]. rewrite IH.
  destruct (p +:+ q)%string eqn:Hpq; [|done]. destruct p; [by destruct (Hne Hpq)|discriminate Hpq].
Qed.

Lemma no_slash_Trim s : no_slash s = true -> TrimRight s "/" = s.
Proof.
  intros Hs. apply TrimRight_none. eapply all_chars_impl; [|exact Hs]. intros c. simpl. by rewrite orb_false_r.
Qed.

(** The base of a path is what follows its last slash. *)
Lemma Base_last p q : no_slash q = true -> q <> ""%string -> Base (p +:+ String "/" q) = q.
Proof.
  intros Hq Hne. unfold Base. rewrite bool_decide_eq_false_2 by (by destruct p).
  assert (TrimRight (p +:+ String "/" q) "/" = p +:+ String "/" q)%string as ->.
  { apply TrimRight_app; [done|]. simpl. rewrite no_slash_Trim by done. by destruct q. }
  rewrite bool_decide_eq_false_2 by (by destruct p). by rewrite split_slash_last.
Qed.

Lemma Base_no_slash s : Base s = "/"%string \/ no_slash (Base s) = true.
Proof.
  unfold Base. case_bool_decide; [by right|]. case_bool_decide; [by left|]. right.
  destruct (last _) as [q|] eqn:Hq; [|done]. simpl.
  pose proof (split_slash_parts (TrimRight s "/")) as Hp. rewrite Forall_forall in Hp. by apply Hp, last_Some_elem_of.
Qed.

Lemma all_chars_app P s s' : all_chars P (s +:+ s') = all_chars P s && all_chars P s'.
Proof. induction s as [|c s IH]; simpl; [done|]. by rewrite IH, andb_assoc. Qed.

(** ** Registration *)

(** The request that a plugin registers itself with is for this version of the
    API, names the resource after the device, and its endpoint is a file name in
    the kubelet's plugin directory at which the plugin's server listens. *)
Theorem register_request_correct dev n c :
  Base (Device_devName dev) <> "/"%string ->
  let x := new_plugin dev n c in
  let request := register_request x in
  RegisterRequest_Version request = Version /\
  RegisterRequest_ResourceName request = ("openvmi/" +:+ Base (Device_devName dev))%string /\
  (DevicePluginPath +:+ RegisterRequest_Endpoint request)%string = unixSockPath x /\
  no_slash (RegisterRequest_Endpoint request) = true.
Proof.
  intros Hb. destruct (Base_no_slash (Device_devName dev)) as [?|Hns]; [done|]. cbv zeta.
  split; [done|]. split; [done|]. unfold register_request, new_plugin. cbn [RegisterRequest_Endpoint unixSockPath].
  set (b := Base (Device_devName dev)) in *.
  assert (no_slash (b +:+ ".sock") = true) as Hsock by (unfold no_slash in *; by rewrite all_chars_app, Hns).
  change (DevicePluginPath +:+ b +:+ ".sock")%string
    with ("/var/lib/kubelet/device-plugins" +:+ String "/" (b +:+ ".sock"))%string.
  rewrite Base_last; [done|done|by destruct b].
Qed.

Lemma register_request_correct_witness :
  let x := new_plugin (mkDevice "/dev/ashmem" "rwm") 2 7 in
  RegisterRequest_Endpoint (register_request x) = "ashmem.sock"%string /\
  (DevicePluginPath +:+ RegisterRequest_Endpoint (register_request x))%string = unixSockPath x.
Proof.
  split; [reflexivity|]. apply (register_request_correct (mkDevice "/dev/ashmem" "rwm") 2 7). done.
Defined.

(** ** Starting and stopping *)

(** What a plugin's start leaves behind, without the invariant. *)
Lemma startGrpcServer_shape E p x w :
  plugins w !! p = Some x ->
  wpM E (plugin_startGrpcServer p) w (fun r w' => chans w' = chans w /\
    exists x', plugins w' !! p = Some x' /\ stopChan x' = stopChan x /\
      (r = None -> exists s srv, gRpcServer x' = Some s /\ servers w' !! s = Some srv)) no_halt.
Proof.
  intros Hp. unfold plugin_startGrpcServer. wp_step. eapply wpM_get_plugin; [done|].
  wp_step. apply wpM_os_Remove. intros fs _ _. wp_step. apply wpM_net_Listen.
  { wp_step. split; [done|]. by exists x. }
  intros _. wp_steps. apply wpM_run_res. rewrite NewServer_registered. cbv beta iota. wp_steps.
  apply wpM_connectGrpcServer. intros conn _.
  assert (forall (r : option go_error) w', chans w' = chans w ->
    plugins w' = alter (set_gRpcServer (Some (length (servers w)))) p
      (alter (set_unixSock (length (listeners w))) p (plugins w)) ->
    length (servers w') = S (length (servers w)) ->
    chans w' = chans w /\ exists x', plugins w' !! p = Some x' /\ stopChan x' = stopChan x /\
      (r = None -> exists s srv, gRpcServer x' = Some s /\ servers w' !! s = Some srv)) as Hpost.
  { intros r w' Hch Hpl Hlen. split; [done|]. eexists. rewrite Hpl, !list_lookup_alter_eq, Hp.
    split; [done|]. split; [done|]. intros _. destruct (lookup_lt_is_Some_2 (servers w') (length (servers w))) as [srv Hs];
      [lia|]. by exists (length (servers w)), srv. }
  destruct conn; wp_steps; apply Hpost; try done; simpl; rewrite length_alter, length_app; simpl; lia.
Qed.

(** Starting and then stopping a new plugin, whether the start succeeded or not:
    the plugin is as before, no other plugin is affected, and if it did run its
    channel is closed and its socket is gone (if files can be removed). *)
Theorem start_stop E p x w :
  inv w -> plugins w !! p = Some x -> gRpcServer x = None -> chans w !! p = Some false ->
  (forall q y, plugins w !! q = Some y -> gRpcServer y <> None -> unixSockPath y <> unixSockPath x) ->
  wpM E (r ← plugin_startGrpcServer p; plugin_stopGrpcServer p ≫= fun _ => mret r) w (fun r w' =>
    inv w' /\ only p w w' /\
    (exists x', plugins w' !! p = Some x' /\ same_device x x' /\ gRpcServer x' = None /\ isRigistered x' = false) /\
    (r = None -> chans w' !! p = Some true /\
       ((forall n, remove_ok E n = true) -> files w' !! unixSockPath x = None))) no_halt.
Proof.
  intros Hinv Hp Hs Hc Hpaths. wp_step. eapply wpM_mono; [by apply (startGrpcServer_spec E p x w)| |done].
  cbv beta. intros r w1 (Hinv1 & Honly1 & _ & x1 & Hp1 & Hsd1 & _ & Hrun). wp_step.
  eapply wpM_mono; [by apply (stopGrpcServer_spec E p x1 w1)| |done].
  cbv beta. intros _ w2 (Hinv2 & Honly2 & _ & (x2 & Hp2 & Hsd2 & Hs2 & Hr2) & Hcase). wp_step.
  split; [done|]. split; [by eapply only_trans|]. split.
  - exists x2. split; [done|]. split; [by etrans|done].
  - intros Hr. specialize (Hrun Hr). destruct (gRpcServer x1) as [s|]; [|done].
    destruct Hcase as (Hch & _ & _ & Hf). split; [done|].
    destruct Hsd1 as (_ & _ & _ & _ & -> & _). done.
Qed.

(** A plugin cannot be used twice: once it was stopped, its channel is closed for
    good, and if it is started again, the next stop panics.  The main loop makes
    new plugins for every restart. *)
Theorem restart_panics E p x w :
  plugins w !! p = Some x -> chans w !! stopChan x = Some true ->
  wpM E (r ← plugin_startGrpcServer p;
         match r with None => plugin_stopGrpcServer p ≫= fun _ => mret None | Some e => mret (Some e) end) w
    (fun r _ => r <> None) (fun h _ => h = HPanic).
Proof.
  intros Hp Hc. wp_step. eapply wpM_mono; [by apply (startGrpcServer_shape E p x w)| |done].
  cbv beta. intros [e|] w1 (Hch & x1 & Hp1 & Hst & Hrun); [by wp_step|].
  destruct (Hrun eq_refl) as (s & srv & Hs & Hsrv). wp_step. unfold plugin_stopGrpcServer. wp_step.
  eapply wpM_get_plugin; [done|]. rewrite Hs. wp_steps. rewrite Hsrv. unfold deref. wp_step. unfold Stop. wp_steps.
  unfold close_chan. wp_steps. cbn [chans with_plugins with_servers with_trace with_files unlink_listeners].
  rewrite Hch, Hst, Hc. unfold deref. wp_steps. done.
Qed.

Definition one_plugin (closed : bool) : world :=
  mkWorld 0 [] ∅ [new_plugin (mkDevice "/dev/fuse" "rwm") 2 0] [] [] [closed].

Lemma one_plugin_inv closed : inv (one_plugin closed).
Proof.
  constructor; simpl; [done|..].
  - intros p x Hp. apply list_lookup_singleton_Some in Hp as [<- <-]. done.
  - intros p x s Hp. apply list_lookup_singleton_Some in Hp as [<- <-]. done.
  - intros p q x y Hp. apply list_lookup_singleton_Some in Hp as [<- <-]. done.
  - intros p x Hp. apply list_lookup_singleton_Some in Hp as [<- <-]. done.
Qed.

Lemma start_stop_witness :
  wpM accepting (r ← plugin_startGrpcServer 0; plugin_stopGrpcServer 0 ≫= fun _ => mret r) (one_plugin false)
    (fun r w' => inv w' /\ only 0 (one_plugin false) w' /\
      (exists x', plugins w' !! 0%nat = Some x' /\ same_device (new_plugin (mkDevice "/dev/fuse" "rwm") 2 0) x' /\
         gRpcServer x' = None /\ isRigistered x' = false) /\
      (r = None -> chans w' !! 0%nat = Some true /\ ((forall n, remove_ok accepting n = true) ->
         files w' !! "/var/lib/kubelet/device-plugins/fuse.sock"%string = None))) no_halt.
Proof.
  apply (start_stop accepting 0 (new_plugin (mkDevice "/dev/fuse" "rwm") 2 0)); [apply one_plugin_inv|done|done|done|].
  intros q y Hq. apply list_lookup_singleton_Some in Hq as [<- <-]. done.
Defined.

Lemma restart_panics_witness :
  wpM accepting (r ← plugin_startGrpcServer 0;
    match r with None => plugin_stopGrpcServer 0 ≫= fun _ => mret None | Some e => mret (Some e) end) (one_plugin true)
    (fun r _ => r <> None) (fun h _ => h = HPanic).
Proof. eapply (restart_panics accepting 0); reflexivity. Defined.

(** ** Host devices *)

(** What is kept of the standard error: all but the last byte of every read. *)
Definition kept (reads : list (list byte)) : string := string_of (reads ≫= fun b => take (length b - 1) b).

Lemma string_of_app b b' : string_of (b ++ b') = (string_of b +:+ string_of b')%string.
Proof.
  unfold string_of, String.string_of_list_byte. rewrite map_app.
  induction (map Ascii.ascii_of_byte b) as [|c l IH]; [done|]. cbn [app String.string_of_list_ascii].
  by rewrite IH.
Qed.

Lemma string_app_assoc (s1 s2 s3 : string) : (s1 +:+ (s2 +:+ s3) = (s1 +:+ s2) +:+ s3)%string.
Proof. induction s1 as [|c s1 IH]; [done|]. change (String c (s1 +:+ (s2 +:+ s3)) = String c ((s1 +:+ s2) +:+ s3)). by rewrite IH. Qed.

Lemma read_stderr_kept E reads msg w (Q : string -> world -> Prop) X :
  Forall (fun b => b <> [] /\ (length b <= 1024)%nat) reads ->
  Q (msg +:+ kept reads)%string w -> wpM E (read_stderr reads msg) w Q X.
Proof.
  intros Hr. revert msg. induction Hr as [|b reads [Hne Hlen] _ IH]; intros msg HQ; simpl.
  - wp_step. unfold kept in HQ. simpl in HQ. replace msg with (msg +:+ "")%string; [done|].
    clear. induction msg as [|c msg IH]; [done|]. change (String c (msg +:+ "") = String c msg). by rewrite IH.
  - assert (0 < length b)%nat by (destruct b; [done|simpl; lia]).
    unfold slice, slen. rewrite length_app, repeat_length.
    replace (_ && _ && _) with true by (symmetry; rewrite !andb_true_iff, !Z.leb_le; lia).
    apply IH. unfold kept. rewrite <- string_app_assoc, <- string_of_app.
    replace (take _ (drop _ _)) with (take (length b - 1) b); [exact HQ|].
    rewrite drop_0. replace (Z.to_nat _) with (length b - 1)%nat by lia. by rewrite take_app_le by lia.
Qed.

(** Every read of the script's standard error returns some bytes, no more than asked. *)
Definition reads_ok (run : cmd_run) : Prop :=
  Forall (fun b => b <> [] /\ (length b <= 1024)%nat) (cmd_stderr run).

Lemma initHostDevice_spec E n w :
  let cmd := ("/opt/openvmi/k8s-plugins/k8s-dev-init.sh " +:+ Itoa n)%string in
  let run := command E (clock w) cmd in
  reads_ok run ->
  wpM E (initHostDevice n) w (fun r w' =>
    w' = with_trace (fun t => t ++ [TCommand cmd]) (tick w) /\
    match r with
    | None => cmd_Start run = true /\ cmd_Wait run = false
    | Some (StartFailed _) => cmd_Start run = false
    | Some (CommandFailed msg) => cmd_Start run = true /\ cmd_Wait run = true /\ msg = kept (cmd_stderr run)
    end) no_halt.
Proof.
  intros cmd run Hreads. unfold initHostDevice. fold cmd. wp_steps. fold run.
  destruct (cmd_Start run); [|by wp_steps]. wp_step.
  apply read_stderr_kept; [done|]. by destruct (cmd_Wait run); wp_steps.
Qed.

(** [initHostDevice] runs the initialisation script once, for the given number of
    devices, and reports what became of it; the text of a failure is the script's
    standard error without the last byte of every read, however the reads split it. *)
Theorem initHostDevice_outcome E n w :
  let cmd := ("/opt/openvmi/k8s-plugins/k8s-dev-init.sh " +:+ Itoa n)%string in
  let run := command E (clock w) cmd in
  reads_ok run ->
  wpM E (initHostDevice n) w (fun r w' =>
    trace w' = trace w ++ [TCommand cmd] /\ plugins w' = plugins w /\ files w' = files w /\
    match r with
    | None => cmd_Start run = true /\ cmd_Wait run = false
    | Some (StartFailed _) => cmd_Start run = false
    | Some (CommandFailed msg) => cmd_Start run = true /\ cmd_Wait run = true /\ msg = kept (cmd_stderr run)
    end) no_halt.
Proof.
  intros cmd run Hreads. eapply wpM_mono; [by apply initHostDevice_spec| |done]. cbv beta.
  by intros r w' [-> Hr].
Qed.

(** A script that prints a line in two writes. *)
Definition failing_script : env := {|
  env_ranges := env_ranges accepting; pid := 42; num_cpu := 2;
  command _ _ := {| cmd_Start := true; cmd_stderr := [bytes_of "no "; bytes_of "binder."]; cmd_Wait := true |};
  stat_error := stat_error accepting; create_ok := create_ok accepting; write_ok := write_ok accepting;
  remove_ok := remove_ok accepting; listen_ok := listen_ok accepting; dial := dial accepting;
  serve_first := serve_first accepting; new_watcher_ok := new_watcher_ok accepting;
  watch_ok := watch_ok accepting; next_event := next_event accepting |}.

Lemma initHostDevice_outcome_witness :
  kept [bytes_of "no "; bytes_of "binder."] = "nobinder"%string /\
  wpM failing_script (initHostDevice 2) (new_world ∅) (fun r w' =>
    trace w' = [TCommand "/opt/openvmi/k8s-plugins/k8s-dev-init.sh 2"] /\ plugins w' = [] /\ files w' = ∅ /\
    match r with
    | None => true = true /\ true = false
    | Some (StartFailed _) => true = false
    | Some (CommandFailed msg) => true = true /\ true = true /\ msg = kept [bytes_of "no "; bytes_of "binder."]
    end) no_halt.
Proof.
  split; [reflexivity|]. apply (initHostDevice_outcome failing_script 2 (new_world ∅)).
  unfold reads_ok. simpl. repeat constructor; simpl; (done || lia).
Defined.
