(* ===== verification/AllocateSpec.v ===== *)
(** * What the plugins answer to the kubelet

    The device instances that a manager advertises, [ListAndWatch] and [Allocate]
    on them, as functions and as calls on the plugin's gRPC server, from request
    bytes to response bytes. *)

From stdpp Require Import base list strings gmap.
From Stdlib Require Import ZArith Strings.Ascii Strings.Byte Lia.
From S2P Require Import Prelude GoStrings Wire Api ApiUnmarshal ApiTotal ApiRegistry.
From S2P Require Import GrpcStatus GrpcTransport GrpcRpc GrpcCodec GrpcServer.
From S2P Require Import ApiService World Plugin PluginSpec ManagerSpec.
Open Scope Z_scope.

(** The first device ID of the first container of a request. *)
Definition first_id (r : AllocateRequest) : option string :=
  match AllocateRequest_ContainerRequests r with
  | request :: _ => head (ContainerAllocateRequest_DevicesIDs request)
  | [] => None
  end.

(** The contract: what a container gets for the instance [i] of a device, counted
    from 0.  Instances of [/dev/binder] are device nodes of their own. *)
Definition lease (dev : Device) (i : nat) : ContainerAllocateResponse :=
  let number := Itoa (Z.of_nat i + 1) in
  let binder := bool_decide (Device_devName dev = "/dev/binder"%string) in
  {| ContainerAllocateResponse_Envs := if binder then {[ "ANDROID_BINDER_IDX"%string := number ]} else ∅;
     ContainerAllocateResponse_Annotations := ∅;
     ContainerAllocateResponse_Devices := [
       {| DeviceSpec_HostPath := if binder then ("/dev/binder" +:+ number)%string else Device_devName dev;
          DeviceSpec_ContainerPath := Device_devName dev;
          DeviceSpec_Permissions := Device_permissions dev |}];
     ContainerAllocateResponse_Mounts := [] |}.

(** The host devices of a response. *)
Definition host_paths (y : AllocateResponse) : list string :=
  AllocateResponse_ContainerResponses y ≫= fun c => DeviceSpec_HostPath <$> ContainerAllocateResponse_Devices c.

(** ** Lemmas *)

Lemma Allocate_cases x r :
  match first_id r with
  | None => plugin_Allocate x r = Panic
  | Some id =>
      let binder := Contains id "binder" in
      plugin_Allocate x r = Ok (mkAllocateResponse [
        {| ContainerAllocateResponse_Envs :=
             if binder then {[ "ANDROID_BINDER_IDX"%string := Trim id "binder" ]} else ∅;
           ContainerAllocateResponse_Annotations := ∅;
           ContainerAllocateResponse_Devices := [
             {| DeviceSpec_HostPath := if binder then ("/dev/" +:+ id)%string else devName x;
                DeviceSpec_ContainerPath := devName x;
                DeviceSpec_Permissions := permissions x |}];
           ContainerAllocateResponse_Mounts := [] |}])
  end.
Proof.
  destruct r as [[|[[|id ids]] rest]]; [done|done|]. unfold plugin_Allocate. simpl.
  by destruct (Contains id "binder").
Qed.

Lemma Contains_step c s : c <> "b"%char -> Contains (String c s) "binder" = Contains s "binder".
Proof.
  intros Hc. cbn [Contains]. unfold HasPrefix. cbn [String.prefix].
  by destruct (ascii_dec "b" c).
Qed.

Lemma Contains_digits s : all_chars digit s = true -> Contains s "binder" = false.
Proof.
  induction s as [|c s IH]; [done|]. cbn [all_chars]. intros [Hc Hs]%andb_true_iff.
  rewrite Contains_step; [auto|]. intros ->. by vm_compute in Hc.
Qed.

Lemma devList_cases dev : dev ∈ devList ->
  dev = mkDevice "/dev/fuse" "rwm" \/ dev = mkDevice "/dev/ashmem" "rwm" \/ dev = mkDevice "/dev/binder" "rwm".
Proof. unfold devList. rewrite !elem_of_cons. intros [?|[?|[?|[]%not_elem_of_nil]]]; auto. Qed.

(** The IDs of the binder instances, and only they, contain "binder". *)
Lemma instance_binder dev i :
  dev ∈ devList ->
  let id := (Base (Device_devName dev) +:+ Itoa (Z.of_nat i + 1))%string in
  if bool_decide (Device_devName dev = "/dev/binder"%string)
  then Contains id "binder" = true /\ Trim id "binder" = Itoa (Z.of_nat i + 1) /\
       id = ("binder" +:+ Itoa (Z.of_nat i + 1))%string
  else Contains id "binder" = false.
Proof.
  intros Hdev. destruct (Itoa_digits (Z.of_nat i + 1)) as [Hd _]; [lia|]. pose proof (Contains_digits _ Hd) as Hc.
  apply devList_cases in Hdev as [Hdev|[Hdev|Hdev]]; subst dev; cbv zeta.
  - change (Contains (String "f" (String "u" (String "s" (String "e" (Itoa (Z.of_nat i + 1)))))) "binder" = false).
    by rewrite !Contains_step.
  - change (Contains (String "a" (String "s" (String "h" (String "m" (String "e" (String "m" (Itoa (Z.of_nat i + 1))))))))
      "binder" = false). by rewrite !Contains_step.
  - change (Contains ("binder" +:+ Itoa (Z.of_nat i + 1)) "binder" = true /\
      Trim ("binder" +:+ Itoa (Z.of_nat i + 1)) "binder" = Itoa (Z.of_nat i + 1) /\
      ("binder" +:+ Itoa (Z.of_nat i + 1))%string = ("binder" +:+ Itoa (Z.of_nat i + 1))%string).
    split; [apply Contains_prefix|]. split; [|done]. apply Trim_number; [lia|done|done].
Qed.

Lemma Allocate_lease dev n c i d r :
  dev ∈ devList -> devInstances (new_plugin dev n c) !! i = Some d -> first_id r = Some (Device_ID d) ->
  plugin_Allocate (new_plugin dev n c) r = Ok (mkAllocateResponse [lease dev i]).
Proof.
  intros Hdev Hi Hr. pose proof (Allocate_cases (new_plugin dev n c) r) as Ha. rewrite Hr in Ha.
  apply list_lookup_fmap_Some in Hi as (k & -> & Hk). apply lookup_seq in Hk as [-> _].
  rewrite Ha. clear Ha Hr r. pose proof (instance_binder dev i Hdev) as Hb. unfold lease, instance.
  cbn [Device_ID new_plugin devName permissions Nat.add]. cbv zeta in *. case_bool_decide.
  - destruct Hb as (-> & -> & ->). done.
  - by rewrite Hb.
Qed.

(** ** Allocate *)

(** [Allocate] honours the contract: for any request whose first device is the
    instance [i] of the plugin's device, as the plugin advertised it, the
    response has exactly the lease of that instance. *)
Theorem Allocate_refines dev n c i d r :
  dev ∈ devList -> devInstances (new_plugin dev n c) !! i = Some d -> first_id r = Some (Device_ID d) ->
  plugin_Allocate (new_plugin dev n c) r = Ok (mkAllocateResponse [lease dev i]).
Proof. apply Allocate_lease. Qed.

(** C33: Two different instances of a binder are never given the same host device,
    nor the same binder number. *)
Theorem Allocate_exclusive n c c' i j di dj ri rj yi yj :
  let plugin := new_plugin (mkDevice "/dev/binder" "rwm") n in
  devInstances (plugin c) !! i = Some di -> devInstances (plugin c') !! j = Some dj -> i <> j ->
  first_id ri = Some (Device_ID di) -> first_id rj = Some (Device_ID dj) ->
  plugin_Allocate (plugin c) ri = Ok yi -> plugin_Allocate (plugin c') rj = Ok yj ->
  host_paths yi ## host_paths yj /\
  (ContainerAllocateResponse_Envs <$> AllocateResponse_ContainerResponses yi)
    ## (ContainerAllocateResponse_Envs <$> AllocateResponse_ContainerResponses yj).
Proof.
  intros plugin Hdi Hdj Hij Hri Hrj Hyi Hyj.
  assert (mkDevice "/dev/binder" "rwm" ∈ devList) as Hdev by (apply list_elem_of_lookup; by exists 2%nat).
  unfold plugin in *. rewrite (Allocate_lease _ n c i di ri) in Hyi by done.
  rewrite (Allocate_lease _ n c' j dj rj) in Hyj by done. simplify_eq.
  assert (Itoa (Z.of_nat i + 1) <> Itoa (Z.of_nat j + 1)) as Hne by (intros H%Itoa_inj; lia).
  unfold host_paths, lease. simpl. split.
  - intros x Hx%list_elem_of_singleton Hy%list_elem_of_singleton. subst. cbn in Hy. by simplify_eq.
  - intros x Hx%list_elem_of_singleton Hy%list_elem_of_singleton. subst. apply Hne.
    apply (f_equal (fun mp : gmap string string => mp !! "ANDROID_BINDER_IDX"%string)) in Hy.
    rewrite !lookup_singleton_eq in Hy. by simplify_eq.
Qed.

(** [Allocate] looks at nothing but the first device ID of the first container:
    requests that agree on it are answered alike, with exactly one container
    response of one device, however many containers and devices were asked
    for; and a request without one panics, which nothing in the process recovers. *)
Theorem Allocate_first_only x r r' :
  first_id r = first_id r' ->
  plugin_Allocate x r = plugin_Allocate x r' /\
  (plugin_Allocate x r = Panic <-> first_id r = None) /\
  (forall y, plugin_Allocate x r = Ok y ->
     exists a s, AllocateResponse_ContainerResponses y = [a] /\ ContainerAllocateResponse_Devices a = [s]).
Proof.
  intros Heq. pose proof (Allocate_cases x r) as Hr. pose proof (Allocate_cases x r') as Hr'.
  rewrite <- Heq in Hr'. destruct (first_id r) as [id|]; simpl in *.
  - rewrite Hr, Hr'. split; [done|]. split; [done|]. intros y [= <-]. eauto.
  - rewrite Hr, Hr'. split; [done|]. split; [done|]. intros y [=].
Qed.

(** The ID of a device is not checked: any ID that contains "binder" is granted the
    host path of that name, whichever plugin is asked. *)
Theorem Allocate_unchecked x r id pre post :
  first_id r = Some id -> id = (pre +:+ "binder" +:+ post)%string ->
  exists y, plugin_Allocate x r = Ok y /\ host_paths y = [("/dev/" +:+ id)%string].
Proof.
  intros Hr Hid. pose proof (Allocate_cases x r) as Ha. rewrite Hr in Ha.
  assert (Contains id "binder" = true) as Hc.
  { rewrite Hid. clear. induction pre as [|ch pre IH]; [exact (Contains_prefix "binder" post)|].
    change (Contains (String ch (pre +:+ "binder" +:+ post)%string) "binder" = true).
    cbn [Contains]. by rewrite IH, orb_true_r. }
  rewrite Hc in Ha. eexists. split; [exact Ha|]. done.
Qed.

(** ** The advertised instances *)

(** The devices that the plugins of a manager advertise. *)
Definition advertised (w : world) (mgr : DevicePluginManager) : list Api.Device :=
  devPlugins mgr ≫= fun p => default [] (devInstances <$> plugins w !! p).

Lemma string_app_inj (p s1 s2 : string) : (p +:+ s1)%string = (p +:+ s2)%string -> s1 = s2.
Proof. induction p as [|c p IH]; simpl; [done|]. intros [= H]. auto. Qed.

Lemma instances_NoDup b n : NoDup (Device_ID <$> (instance b <$> seq 0 n)).
Proof.
  rewrite <- list_fmap_compose. apply NoDup_fmap_2_strong; [|apply NoDup_seq].
  intros i j _ _ H%string_app_inj%Itoa_inj. lia.
Qed.

Lemma instances_elem b n id : id ∈ Device_ID <$> (instance b <$> seq 0 n) -> exists s, id = (b +:+ s)%string.
Proof. rewrite <- list_fmap_compose. intros (i & -> & _)%list_elem_of_fmap. by eexists. Qed.

(** C36: A new manager advertises, for each of its devices, as many healthy instances
    as it was asked to, and no two instances of any of its devices have the same
    ID. *)
Theorem initPluginManager_advertises E devNum w :
  inv w -> 0 <= devNum -> idle w ->
  wpM E (initPluginManager devNum) w (fun mgr w' =>
    NoDup (Device_ID <$> advertised w' mgr) /\
    length (advertised w' mgr) = (length devList * Z.to_nat devNum)%nat /\
    Forall (fun d => Device_Health d = Healthy) (advertised w' mgr)) no_halt.
Proof.
  intros Hinv Hn Hidle. eapply wpM_mono; [by apply initPluginManager_spec| |done].
  cbv beta. intros mgr w' (-> & _ & _ & Hpl & _). set (k := length (plugins w)) in *.
  assert (forall i dev, devList !! i = Some dev -> plugins w' !! (k + i)%nat = Some (new_plugin dev devNum (k + i))) as Hlk.
  { intros i dev Hi. rewrite Hpl, lookup_app_r by lia. unfold new_plugins.
    replace (k + i - length (plugins w))%nat with i by lia. by rewrite list_lookup_imap, Hi. }
  assert (advertised w' (manager_at k) =
    (instance "fuse" <$> seq 0 (Z.to_nat devNum)) ++ (instance "ashmem" <$> seq 0 (Z.to_nat devNum)) ++
    (instance "binder" <$> seq 0 (Z.to_nat devNum))) as ->.
  { unfold advertised, manager_at. cbn [devPlugins length devList seq mbind list_bind].
    pose proof (Hlk 0%nat _ eq_refl) as H0. pose proof (Hlk 1%nat _ eq_refl) as H1. pose proof (Hlk 2%nat _ eq_refl) as H2.
    replace (k + 0)%nat with k in H0 by lia. replace (k + 1)%nat with (S k) in H1 by lia.
    replace (k + 2)%nat with (S (S k)) in H2 by lia. rewrite H0, H1, H2. by rewrite app_nil_r. }
  split; [|split].
  - rewrite !fmap_app. apply NoDup_app. split; [apply instances_NoDup|]. split.
    + intros id (s & ->)%instances_elem. rewrite elem_of_app.
      intros [(s' & Hs)%instances_elem|(s' & Hs)%instances_elem]; discriminate Hs.
    + apply NoDup_app. split; [apply instances_NoDup|]. split; [|apply instances_NoDup].
      intros id (s & ->)%instances_elem (s' & Hs)%instances_elem. discriminate Hs.
  - rewrite !length_app, !length_fmap, !length_seq. simpl. lia.
  - rewrite !Forall_app, !Forall_fmap. split_and!; by apply Forall_true.
Qed.

(** ** Calls on the plugin's server *)

(** [x] is a running plugin, [r] the orders in which maps are visited. *)
Section calls.
Context (r : ranges) (x : DevicePlugin).

(** [select] number [n] takes case [k] of two. *)
Definition takes (E : call_env) (n k : nat) : Prop :=
  exists j, selected E n = Some j /\ (j mod 2 = k)%nat.

Lemma do_select_takes E c k : takes E (call_selects c) k ->
  do_select 2 E c = (Ok k, mkCall (call_stream c) (call_actions c) (S (call_selects c))).
Proof. intros (j & Hj & <-). unfold do_select. by rewrite Hj. Qed.

Local Abbreviation listed := {| ListAndWatchResponse_Devices := devInstances x |}.
Local Abbreviation sent := (AWrite (frame (enc TListAndWatchResponse r listed)) false).

(** A list is sent whatever the transport says. *)
Lemma Send_ignored ss E c :
  ss_cp ss = None -> slen (enc TListAndWatchResponse r listed) < 2 ^ 32 ->
  ignore (devicePluginListAndWatchServer_Send r ss listed) E c = (Ok tt, acted c sent).
Proof.
  intros Hcp Hlen. unfold devicePluginListAndWatchServer_Send, SendMsg. rewrite Hcp.
  assert (exists z, (out ← try (rpc_lift (encode (H:=proto_codec r) (Some (existT TListAndWatchResponse listed)) None []));
    match out with
    | inl e => rpc_lift (fail codes.Internal ("grpc: " +:+ error_string e))
    | inr out => r ← try (t_Write out false);
        match r with inl e => return_err (toRPCErr (Some e)) | inr _ => mret tt end
    end) E c = (z, acted c sent) /\ (z = Ok tt \/ exists e, z = Err (Raise e))) as (z & Hz & Hor).
  { erewrite rpc_bind_ok.
    2:{ apply try_ok. unfold rpc_lift. rewrite (encode_frame (H:=proto_codec r) _ _ (enc TListAndWatchResponse r listed));
          [done| |done]. simpl. rewrite (Marshal_ok r TListAndWatchResponse); [done|]. unfold fits, max_slice. lia. }
    cbv beta iota. unfold t_Write, action, try, mbind, rpc_bind.
    destruct (action_err E _) as [e|]; [|by eexists; split; [done|left]].
    unfold return_err. destruct (toRPCErr (Some e)); eexists; (split; [done|]); eauto. }
  rewrite (ignore_result _ _ _ _ _ Hz). by destruct Hor as [->|[e ->]].
Qed.

Lemma ListAndWatch_loop_sends ss E k fuel c :
  ss_cp ss = None -> slen (enc TListAndWatchResponse r listed) < 2 ^ 32 ->
  (forall j, (j < k)%nat -> takes E (call_selects c + j) 1) -> takes E (call_selects c + k) 0 -> (k < fuel)%nat ->
  ListAndWatch_loop fuel x (devicePluginListAndWatchServer_Send r ss) E c =
    (Ok tt, mkCall (call_stream c) (call_actions c ++ replicate k sent) (call_selects c + S k)).
Proof.
  intros Hcp Hlen. revert fuel c. induction k as [|k IH]; intros [|fuel] c Hticks Hstop Hfuel; try lia; simpl.
  - rewrite Nat.add_0_r in Hstop. erewrite rpc_bind_ok by by apply do_select_takes.
    rewrite app_nil_r, Nat.add_1_r. done.
  - pose proof (Hticks 0%nat ltac:(lia)) as H0. rewrite Nat.add_0_r in H0.
    erewrite rpc_bind_ok by by apply do_select_takes. cbv beta iota.
    erewrite rpc_bind_ok by by apply Send_ignored. cbv beta.
    rewrite IH; [|intros j Hj|simpl|lia]; simpl.
    + rewrite <- app_assoc. simpl. by replace (call_selects c + S (S k))%nat with (S (call_selects c + S k)) by lia.
    + specialize (Hticks (S j) ltac:(lia)). by rewrite Nat.add_succ_r in Hticks.
    + by rewrite Nat.add_succ_r in Hstop.
Qed.

Lemma plugin_ListAndWatch_sends ss E k c e :
  ss_cp ss = None -> slen (enc TListAndWatchResponse r listed) < 2 ^ 32 ->
  (forall j, (j < k)%nat -> takes E (call_selects c + j) 1) -> takes E (call_selects c + k) 0 -> (k < loop_fuel E)%nat ->
  plugin_ListAndWatch x e (devicePluginListAndWatchServer_Send r ss) E c =
    (Ok tt, mkCall (call_stream c) (call_actions c ++ replicate (S k) sent) (call_selects c + S k)).
Proof.
  intros Hcp Hlen Hticks Hstop Hfuel. unfold plugin_ListAndWatch.
  erewrite rpc_bind_ok by by apply Send_ignored. unfold with_fuel.
  rewrite (ListAndWatch_loop_sends ss E k); try done. simpl. by rewrite <- app_assoc.
Qed.

Lemma DevicePlugin_ListAndWatch_Handler_sends ss E k c b e rest fin :
  ss_cp ss = None -> ss_dc ss = None -> slen b <= ss_maxMsgSize ss < 2 ^ 32 ->
  stream_holds (call_stream c) (frame b ++ rest) fin -> Empty_Unmarshal Empty_Reset b = Ok e ->
  slen (enc TListAndWatchResponse r listed) < 2 ^ 32 ->
  (forall j, (j < k)%nat -> takes E (call_selects c + j) 1) -> takes E (call_selects c + k) 0 -> (k < loop_fuel E)%nat ->
  exists st, stream_holds st rest fin /\
    DevicePlugin_ListAndWatch_Handler r (Some x) ss E c =
      (Ok tt, mkCall st (call_actions c ++ replicate (S k) sent) (call_selects c + S k)).
Proof.
  intros Hcp Hdc Hb Hs He Hlen Hticks Hstop Hfuel.
  destruct (recv_frame (H:=proto_codec r) TEmpty Empty_Reset e b (call_stream c) rest fin (ss_maxMsgSize ss))
    as (st & Hr & Hh & _); [simpl; by rewrite He|done|done|].
  exists st. split; [done|]. unfold DevicePlugin_ListAndWatch_Handler. erewrite rpc_bind_ok.
  2:{ unfold RecvMsg. rewrite Hdc. erewrite rpc_bind_ok; [|apply try_ok; unfold rpc_stream; rewrite Hr; done]. done. }
  cbv beta iota. simpl ListAndWatch. by rewrite (plugin_ListAndWatch_sends ss E k).
Qed.
End calls.

(** C35: A [ListAndWatch] call on the server of a plugin: after [k] ticks and the stop of
    the plugin, the kubelet has been sent the list of the plugin's devices
    [k + 1] times and the status OK, and the call has ended; the list is sent again
    although an earlier write failed. *)
Theorem ListAndWatch_call r x E k c b e rest fin :
  let listed := {| ListAndWatchResponse_Devices := devInstances x |} in
  Stream_method (call_stream c) = "/v1beta1.DevicePlugin/ListAndWatch"%string ->
  stream_holds (call_stream c) (frame b ++ rest) fin -> slen b <= defaultMaxMsgSize ->
  Empty_Unmarshal Empty_Reset b = Ok e ->
  slen (enc TListAndWatchResponse r listed) < 2 ^ 32 ->
  (forall j, (j < k)%nat -> takes E (call_selects c + j) 1) -> takes E (call_selects c + k) 0 -> (k < loop_fuel E)%nat ->
  exists st, stream_holds st rest fin /\
    handleStream (H:=proto_codec r) (plugin_server r x) E c =
      (Ok tt, mkCall st (call_actions c ++ replicate (S k) (AWrite (frame (enc TListAndWatchResponse r listed)) false)
                          ++ [AWriteStatus (New codes.OK "")]) (call_selects c + S k)).
Proof.
  intros listed Hm Hs Hb He Hlen Hticks Hstop Hfuel. destruct (route_ListAndWatch r x) as (d & Hr & Hd).
  pose proof (handleStream_call (H:=proto_codec r) (plugin_server r x) E c eq_refl) as Hh. rewrite Hm, Hr in Hh.
  destruct (DevicePlugin_ListAndWatch_Handler_sends r x (mkServerStream None None defaultMaxMsgSize) E k c b e rest fin)
    as (st & Hst & Hcall); try done.
  exists st. split; [done|]. rewrite Hh. set (c' := mkCall _ _ _) in Hcall.
  assert (exists z, processStreamingRPC (plugin_server r x)
      (Some (new_service (DevicePlugin_serviceDesc r) x)) d E c = (z, acted c' (AWriteStatus (New codes.OK ""))) /\
    (z = Ok tt \/ exists e, z = Err (Raise e))) as (z & Hz & Hor).
  { unfold processStreamingRPC. erewrite rpc_bind_ok by done. simpl. rewrite Hd.
    erewrite rpc_bind_ok by (apply try_ok; exact Hcall). cbv beta iota. unfold t_WriteStatus, action.
    destruct (action_err E _); eexists; (split; [done|]); eauto. }
  rewrite (ignore_result _ _ _ _ _ Hz). unfold acted, c'. simpl. rewrite <- !app_assoc.
  by destruct Hor as [->|[e' ->]].
Qed.

(** The outcome of [Allocate] on the encoding of a request. *)
Lemma unary_outcome_Allocate r x req :
  fits r TAllocateRequest req ->
  unary_outcome x (tin:=TAllocateRequest) (tout:=TAllocateResponse) (Allocate (P:=DevicePlugin)) (enc TAllocateRequest r req) =
    (y ← plugin_Allocate x req; Ok (existT TAllocateResponse y)).
Proof. intros Hfit. unfold unary_outcome. rewrite (Unmarshal_ok r TAllocateRequest) by done. done. Qed.

(** An [Allocate] call for an advertised instance, from the bytes on the wire to the
    bytes on the wire: the framed encoding of the request is answered by the framed
    encoding of the lease and the status OK. *)
Lemma Allocate_call dev n p i d req r E c rest fin :
  let y := mkAllocateResponse [lease dev i] in
  dev ∈ devList -> devInstances (new_plugin dev n p) !! i = Some d -> first_id req = Some (Device_ID d) ->
  healthy E -> Stream_method (call_stream c) = "/v1beta1.DevicePlugin/Allocate"%string ->
  stream_holds (call_stream c) (frame (enc TAllocateRequest r req) ++ rest) fin ->
  slen (enc TAllocateRequest r req) <= defaultMaxMsgSize -> slen (enc TAllocateResponse r y) < 2 ^ 32 ->
  exists st, stream_holds st rest fin /\
    handleStream (H:=proto_codec r) (plugin_server r (new_plugin dev n p)) E c =
      (Ok tt, mkCall st (call_actions c ++ [AWrite (frame (enc TAllocateResponse r y)) true; AWriteStatus (New codes.OK "")])
                (call_selects c)).
Proof.
  intros y Hdev Hd Hreq HE Hm Hs Hlen Hfit.
  assert (unary_outcome (new_plugin dev n p) (tin:=TAllocateRequest) (tout:=TAllocateResponse) (Allocate (P:=DevicePlugin))
    (enc TAllocateRequest r req) = Ok (existT TAllocateResponse y)) as Hout.
  { rewrite unary_outcome_Allocate by (unfold fits, max_slice, defaultMaxMsgSize in *; lia).
    by rewrite (Allocate_lease dev n p i d). }
  destruct (unary_call r (new_plugin dev n p) "Allocate" TAllocateRequest TAllocateResponse _ (enc TAllocateRequest r req)
    rest fin E c unary_Allocate HE Hm Hs Hlen) as (st & Hst & Hh).
  { rewrite Hout. intros t z Heq. assert (existT TAllocateResponse y = existT t z) as Hp by congruence.
    exact (eq_ind (existT TAllocateResponse y) (fun p => slen (enc (projT1 p) r (projT2 p)) < 2 ^ 32) Hfit _ Hp). }
  exists st. split; [done|]. rewrite Hh, Hout. unfold call_result, acted. simpl. by rewrite <- app_assoc.
Qed.

(** C34: An [Allocate] call without a container, or without a device for its first
    container, panics the process of the plugins: nothing is written to the client. *)
Theorem Allocate_call_panics x req r E c rest fin :
  first_id req = None ->
  healthy E -> Stream_method (call_stream c) = "/v1beta1.DevicePlugin/Allocate"%string ->
  stream_holds (call_stream c) (frame (enc TAllocateRequest r req) ++ rest) fin ->
  slen (enc TAllocateRequest r req) <= defaultMaxMsgSize ->
  exists st, handleStream (H:=proto_codec r) (plugin_server r x) E c =
    (Panic, mkCall st (call_actions c) (call_selects c)).
Proof.
  intros Hreq HE Hm Hs Hlen.
  assert (unary_outcome x (tin:=TAllocateRequest) (tout:=TAllocateResponse) (Allocate (P:=DevicePlugin))
    (enc TAllocateRequest r req) = Panic) as Hout.
  { rewrite unary_outcome_Allocate by (unfold fits, max_slice, defaultMaxMsgSize in *; lia).
    pose proof (Allocate_cases x req) as Ha. rewrite Hreq in Ha. by rewrite Ha. }
  destruct (unary_call r x "Allocate" TAllocateRequest TAllocateResponse _ (enc TAllocateRequest r req)
    rest fin E c unary_Allocate HE Hm Hs Hlen) as (st & Hst & Hh).
  { by rewrite Hout. }
  exists st. by rewrite Hh, Hout.
Qed.

(** ** Witnesses *)

Definition binder : Device := mkDevice "/dev/binder" "rwm".
Definition fuse : Device := mkDevice "/dev/fuse" "rwm".

Definition request_of (ids : list string) : AllocateRequest :=
  mkAllocateRequest [mkContainerAllocateRequest ids].

(** A call of [method] whose stream holds the bytes [bs] in one piece. *)
Definition call_of (method : string) (bs : list byte) : call :=
  mkCall (mkStream method "" (mkReader None false (mkRecvBuffer (Some (chunk bs)) []) [] None) (fun n => n) 0 0) [] 0.

Lemma call_of_holds method bs : bs <> [] -> stream_holds (call_stream (call_of method bs)) bs None.
Proof.
  intros Hne. split; [done|]. split; [done|]. split; [done|]. split; [done|].
  exists [bs]. split; [by repeat constructor|]. simpl. by rewrite app_nil_r.
Qed.

(** Nothing fails, three ticks are followed by the stop. *)
Definition calm : call_env :=
  {| action_err _ := None; selected n := Some (if (n <? 3)%nat then 1 else 0)%nat; loop_fuel := 10 |}.

(** The transport fails from the second action on. *)
Definition broken : call_env :=
  {| action_err n := if (n =? 0)%nat then None else Some ErrClientConnClosing;
     selected := selected calm; loop_fuel := 10 |}.

Lemma Allocate_refines_witness :
  plugin_Allocate (new_plugin binder 3 0) (request_of ["binder2"%string; "binder3"%string]) =
    Ok (mkAllocateResponse [lease binder 1]) /\
  plugin_Allocate (new_plugin fuse 3 0) (request_of ["fuse3"%string]) = Ok (mkAllocateResponse [lease fuse 2]).
Proof.
  split; eapply Allocate_refines; try reflexivity; unfold devList, binder, fuse; set_solver.
Defined.

Lemma Allocate_exclusive_witness :
  exists yi yj, plugin_Allocate (new_plugin binder 3 0) (request_of ["binder1"%string]) = Ok yi /\
    plugin_Allocate (new_plugin binder 3 5) (request_of ["binder3"%string]) = Ok yj /\ host_paths yi ## host_paths yj.
Proof.
  eexists _, _. split; [reflexivity|]. split; [reflexivity|].
  apply (Allocate_exclusive 3 0 5 0 2 (instance "binder" 0) (instance "binder" 2)
    (request_of ["binder1"%string]) (request_of ["binder3"%string])); [reflexivity|reflexivity|lia|..]; reflexivity.
Defined.

Lemma Allocate_first_only_witness :
  plugin_Allocate (new_plugin fuse 3 0) (request_of ["fuse1"%string]) =
  plugin_Allocate (new_plugin fuse 3 0) (mkAllocateRequest
    [mkContainerAllocateRequest ["fuse1"%string; "fuse2"%string]; mkContainerAllocateRequest ["fuse3"%string]]).
Proof. apply Allocate_first_only. reflexivity. Defined.

Lemma Allocate_unchecked_witness :
  exists y, plugin_Allocate (new_plugin fuse 3 0) (request_of ["../dev/mem binder"%string]) = Ok y /\
    host_paths y = ["/dev/../dev/mem binder"%string].
Proof.
  apply (Allocate_unchecked (new_plugin fuse 3 0) (request_of ["../dev/mem binder"%string]) "../dev/mem binder"
    "../dev/mem " ""); reflexivity.
Defined.

Lemma initPluginManager_advertises_witness :
  wpM accepting (initPluginManager 4) (new_world ∅) (fun mgr w' =>
    NoDup (Device_ID <$> advertised w' mgr) /\
    length (advertised w' mgr) = 12%nat /\
    Forall (fun d => Device_Health d = Healthy) (advertised w' mgr)) no_halt.
Proof.
  apply (initPluginManager_advertises accepting 4); [apply new_world_inv|lia|apply new_world_idle].
Defined.

Lemma ListAndWatch_call_witness :
  let x := new_plugin binder 2 0 in
  let sent := AWrite (frame (enc TListAndWatchResponse some_ranges
    {| ListAndWatchResponse_Devices := devInstances x |})) false in
  exists st, stream_holds st [x00] None /\
    handleStream (H:=proto_codec some_ranges) (plugin_server some_ranges x) broken
      (call_of "/v1beta1.DevicePlugin/ListAndWatch" (frame [] ++ [x00])) =
    (Ok tt, mkCall st [sent; sent; sent; sent; AWriteStatus (New codes.OK "")] 4).
Proof.
  apply (ListAndWatch_call some_ranges (new_plugin binder 2 0) broken 3
    (call_of "/v1beta1.DevicePlugin/ListAndWatch" (frame [] ++ [x00])) [] Empty_Reset [x00] None).
  - reflexivity.
  - by apply call_of_holds.
  - by vm_compute.
  - reflexivity.
  - by vm_compute.
  - intros j Hj. exists 1%nat. split; [|done]. by destruct j as [|[|[|j]]]; try lia.
  - by exists 0%nat.
  - simpl. lia.
Defined.

Definition request_bytes (ids : list string) : list byte := enc TAllocateRequest some_ranges (request_of ids).

Lemma Allocate_call_witness :
  exists st, stream_holds st [] None /\
    handleStream (H:=proto_codec some_ranges) (plugin_server some_ranges (new_plugin binder 3 0)) calm
      (call_of "/v1beta1.DevicePlugin/Allocate" (frame (request_bytes ["binder2"%string]))) =
    (Ok tt, mkCall st [AWrite (frame (enc TAllocateResponse some_ranges (mkAllocateResponse [lease binder 1]))) true;
                       AWriteStatus (New codes.OK "")] 0).
Proof.
  apply (Allocate_call binder 3 0 1 (instance "binder" 1) (request_of ["binder2"%string]) some_ranges calm
    (call_of "/v1beta1.DevicePlugin/Allocate" (frame (request_bytes ["binder2"%string]))) [] None);
    try reflexivity; try (by vm_compute).
  - unfold devList, binder. set_solver.
  - rewrite app_nil_r. by apply call_of_holds.
Defined.

Lemma Allocate_call_panics_witness :
  exists st, handleStream (H:=proto_codec some_ranges) (plugin_server some_ranges (new_plugin fuse 3 0)) calm
    (call_of "/v1beta1.DevicePlugin/Allocate" (frame [])) =
  (Panic, mkCall st [] 0).
Proof.
  apply (Allocate_call_panics (new_plugin fuse 3 0) (mkAllocateRequest []) some_ranges calm
    (call_of "/v1beta1.DevicePlugin/Allocate" (frame [])) [] None); try reflexivity; try (by vm_compute).
  rewrite app_nil_r. by apply call_of_holds.
Defined.


Lemma handleStream_unroutable_witness :
  exists st, handleStream (H:=proto_codec some_ranges) (plugin_server some_ranges (new_plugin fuse 3 0)) calm
      (call_of "/v1beta1.DevicePlugin/Deallocate" []) =
    (Ok tt, acted (call_of "/v1beta1.DevicePlugin/Deallocate" []) (AWriteStatus st)) /\
    Status_Code st = codes.Unimplemented.
Proof.
  apply (handleStream_unroutable (H:=proto_codec some_ranges) (plugin_server some_ranges (new_plugin fuse 3 0)) calm
    (call_of "/v1beta1.DevicePlugin/Deallocate" [])); reflexivity.
Defined.
