(* ===== verification/ServerAnswers.v ===== *)
(** * What a plugin's answers are on the connection

    The handlers of the plugins' gRPC server on its HTTP/2 transport: what a handler writes, at every moment of
    every interleaving with the rest of the transport, and the answer to [Allocate]. *)

From stdpp Require Import base list strings gmap relations.
From Stdlib Require Import ZArith Strings.Ascii Strings.Byte Lia.
From S2P Require Import Prelude GoStrings Wire Api ApiUnmarshal ApiTotal ApiRegistry.
From S2P Require Import GrpcStatus GrpcTransport GrpcRpc GrpcCodec GrpcServer.
From S2P Require Import ApiService World Plugin PluginSpec ManagerSpec AllocateSpec.
From S2P Require Import Hpack HpackEncoder HpackSync HpackDecoder H2Errors GrpcHeaders H2Frame H2Framer H2Calls GrpcFramer GrpcFramerProps.
From S2P Require Import Threads ServerState ServerTransport ServerLoops ServerDemo ServerProps ServerLog ServerSends.
Open Scope Z_scope.

Section answers.
Context {W : Type} `{Connection W} (Int63n : Z -> Z) (unmarshalStatus : list byte -> res string Status).
#[local] Abbreviation server := (server W).
#[local] Abbreviation pool := (server * list (thread server))%type.

Lemma served_polite f start config cf (s : pool) : served Int63n unmarshalStatus f start config cf s -> polite_pool s.
Proof.
  intros (_ & w0 & Hnew & Hrun). eapply polite_pool_steps; [|exact Hrun]. unfold newHTTP2Server in Hnew.
  destruct (write_calls (opening config) f) as [[err|] f1]; [done|].
  destruct (configure Int63n config) as [cf1| | |]; cbn [mbind res_bind] in Hnew; [|done..].
  destruct (NewEncoder (E:=hpack_error)) as [hEnc| | |]; [|done..]. injection Hnew as <- <-.
  split; [|split].
  - apply Forall_forall. intros t Ht. by eapply goroutines_polite.
  - intros tid. apply sublist_nil_l.
  - done.
Qed.

(** The goroutine that starts in [s] and performs the operations on the stream [p]. *)
Definition handled_by (s : pool) (p : nat) (ops : list operation) : pool := (s.1, s.2 ++ [once (each (run_operation p) ops)]).

(** C16: What a handler writes.  At every moment the frames that it has put on the connection are those of
    its operations, one after the other: the header block or its beginning, the data of each [Write] in
    frames that every peer accepts and in its order - all of it, if [Write] reported no error - and the status block;
    and they are on the wire in this order, whatever the others write in between. *)
Theorem handler_writes f start config cf (s s' : pool) p st ops :
  served Int63n unmarshalStatus f start config cf s -> streams s.1 !! p = Some st -> rtc serves (handled_by s p ops) s' ->
  let own := own_at (length s.2) s'.1 in
  ops_log (s_id st) (List.filter reports ops) own.1 own.2 /\ own.2 `sublist_of` wire (notes s'.1).
Proof.
  intros Hs Hst Hrun. destruct (handler_log p st ops s s' (served_polite _ _ _ _ _ Hs) Hst Hrun) as [Hlog Hw].
  specialize (Hw (length s.2)). unfold own_at in *. by split.
Qed.

(** ** The answer to [Allocate] *)

(** A call on a stream as the server of package grpc sees it. *)
Definition call_of_stream (choices : nat -> nat) (st : ServerState.Stream) : GrpcServer.call :=
  mkCall (GrpcRpc.mkStream (string_of (s_method st)) (string_of (s_recvCompress st)) (s_dec st) choices 0 0) [] 0.

(** The methods of the transport that a call invokes. *)
Definition operation_of (a : taction) : operation :=
  match a with AWrite data last => OpWrite data last | AWriteStatus st => OpWriteStatus st end.

(** The frames of an answer with one message: the header block, the data, and, unless the stream was
    done before, the status. *)
Definition answered_with (id : Z) (data : list byte) (st : Status) (frames : list H2Calls.call) : Prop :=
  exists hs chunks hs' ts, frames = hs ++ data_frames id chunks ++ hs' ++ ts /\
    part_of (header_block id) hs /\ part_of (header_block id) hs' /\ concat chunks = data /\
    Forall (fun c => slen c <= http2MaxFrameLen) chunks /\ (hs' ++ ts = [] \/ status_block id st ts).

Lemma ops_log_answer id data last st l :
  ops_log id [OpWrite data last; OpWriteStatus st] [None; None] l -> answered_with id data st l.
Proof.
  intros Hl. inversion Hl as [| |o os r rs fs fs' Hw Hl2]; subst. inversion Hl2 as [| |o os r rs ts fs2 Hst Hl3]; subst.
  inversion Hl3; subst. destruct Hw as (hs & chunks & Hhs & -> & Hall & _ & Heq). destruct Hst as (hs' & ts' & Hhs' & _ & -> & Hts).
  exists hs, chunks, hs', ts'. rewrite app_nil_r, <- app_assoc. repeat split; auto.
Qed.

End answers.

(** ** On a concrete run *)

Definition allocate_fields : list HeaderField :=
  [mkHeaderField (bytes_of ":method") (bytes_of "POST") false;
   mkHeaderField (bytes_of ":path") (bytes_of "/v1beta1.DevicePlugin/Allocate") false;
   mkHeaderField (bytes_of "content-type") (bytes_of "application/grpc") false].

Definition allocate_block : list byte :=
  match run_ops (E:=hpack_error) demo_encoder (OpField <$> allocate_fields) with Ok (_, b) => b | _ => [] end.

(** The kubelet asks for the second instance of [/dev/binder]. *)
Definition allocate_input : list byte :=
  clientPreface ++ call_bytes (CSettings []) ++ frames_bytes (header_calls 1 false allocate_block).*2
    ++ call_bytes (CData 1 true (frame (request_bytes ["binder2"%string])) None).

Definition binder_answer : list byte := frame (enc TAllocateResponse some_ranges (mkAllocateResponse [lease binder 1])).
Definition binder_operations : list operation := [OpWrite binder_answer true; OpWriteStatus (New codes.OK "")].

(** The request is received; later the handler has answered. *)
Definition asked := after_story [Steps 0 23]%nat (demo_pool allocate_input (demo_config 0)).
Definition answered_binder := after_story [Steps 3 11; Steps 1 5; Steps 3 34]%nat (handled_by asked 0 binder_operations).

Lemma demo_asked :
  served no_jitter no_status (demo_framer allocate_input) 1000 (demo_config 0) (demo allocate_input (demo_config 0)).1 asked.
Proof. apply demo_served; vm_compute; done. Qed.

Lemma asked_goroutines : length asked.2 = 3%nat.
Proof. vm_compute. reflexivity. Qed.
Lemma calm_healthy : healthy calm.
Proof. done. Qed.
Lemma binder_listed : binder ∈ devList.
Proof. unfold devList, binder. set_solver. Qed.

Lemma asked_stream : exists st, streams asked.1 !! 0%nat = Some st /\ s_id st = 1 /\
  s_method st = bytes_of "/v1beta1.DevicePlugin/Allocate" /\ holds (s_dec st) (frame (request_bytes ["binder2"%string]) ++ []) (Some EOF).
Proof.
  eexists. split; [vm_compute; reflexivity|]. split; [reflexivity|]. split; [vm_compute; reflexivity|].
  split; [done|]. split; [done|]. split; [done|]. split; [done|].
  exists [frame (request_bytes ["binder2"%string])]. split; [constructor; [unfold frame; discriminate|done]|]. split; vm_compute; reflexivity.
Qed.

Lemma handler_writes_witness :
  ((own_at 3 answered_binder.1).1 = [None; None] /\ (own_at 3 answered_binder.1).2 !! 1%nat = Some (CData 1 false binder_answer None)) /\
  let own := own_at 3 answered_binder.1 in
  ops_log 1 binder_operations own.1 own.2 /\ own.2 `sublist_of` wire (notes answered_binder.1).
Proof.
  split; [split; vm_compute; reflexivity|].
  destruct asked_stream as (st & Hst & Hid & _). rewrite <- Hid, <- asked_goroutines.
  exact (handler_writes no_jitter no_status _ _ _ _ asked answered_binder 0 st binder_operations demo_asked Hst (after_steps _ _)).
Defined.

