(* ===== verification/Fsnotify.v ===== *)
(** * fsnotify: the watcher of the file system

    inotify.go, inotify_poller.go and fsnotify.go of github.com/fsnotify/fsnotify: the goroutine that
    turns what the kernel writes about inodes into events, and the methods that other goroutines
    call meanwhile, as programs of atomic steps over one state (Threads).  The kernel is an
    interface; an array that is read through an unsafe pointer beyond its end is a crash. *)

From stdpp Require Import base list strings gmap.
From Stdlib Require Import ZArith Strings.Ascii Strings.Byte Lia.
From S2P Require Import Prelude GoStrings GrpcStatus World Threads.
Open Scope Z_scope.

(** ** golang.org/x/sys/unix *)

Module unix.
Definition IN_ATTRIB : Z := 0x4.
Definition IN_CREATE : Z := 0x100.
Definition IN_DELETE : Z := 0x200.
Definition IN_DELETE_SELF : Z := 0x400.
Definition IN_IGNORED : Z := 0x8000.
Definition IN_MASK_ADD : Z := 0x20000000.
Definition IN_MODIFY : Z := 0x2.
Definition IN_MOVED_FROM : Z := 0x40.
Definition IN_MOVED_TO : Z := 0x80.
Definition IN_MOVE_SELF : Z := 0x800.
Definition IN_Q_OVERFLOW : Z := 0x4000.
Definition EPOLLERR : Z := 0x8.
Definition EPOLLHUP : Z := 0x10.
Definition EPOLLIN : Z := 0x1.
Definition EAGAIN : Z := 0xb.
Definition EINTR : Z := 0x4.
Definition SizeofInotifyEvent : Z := 0x10.
Definition PathMax : Z := 0x1000.
End unix.

(** The header of an event, as the kernel writes it. *)
Record InotifyEvent : Type := mkInotifyEvent { raw_Wd : Z; raw_Mask : Z; raw_Cookie : Z; raw_Len : Z }.

Record EpollEvent : Type := mkEpollEvent { ep_Fd : Z; ep_Events : Z }.

(** An error: an error number of the kernel, or another one. *)
Definition error : Type := Z + go_error.

(** The system calls return a number, which is -1 when they fail, and an error number, which is 0 when they do not.
    A call that waits is [None] until it is over. *)
Class Kernel (K : Type) : Type := {
  InotifyInit1 : K -> (Z * Z) * K;
  InotifyAddWatch : Z -> string -> Z -> K -> (Z * Z) * K;
  InotifyRmWatch : Z -> Z -> K -> (Z * Z) * K;
  EpollCreate1 : K -> (Z * Z) * K;
  Pipe2 : K -> (Z * Z * Z) * K;  (* the two ends and the error number *)
  EpollCtl : Z -> Z -> K -> Z * K;
  EpollWait : Z -> list EpollEvent -> K -> option ((Z * Z * list EpollEvent) * K);  (* the array after *)
  ReadInotify : Z -> Z -> K -> option ((Z * Z * list byte) * K);  (* unix.Read; the bytes that were read *)
  ReadPipe : Z -> Z -> K -> (Z * Z) * K;
  WriteByte : Z -> K -> (Z * Z) * K;
  CloseFd : Z -> K -> K;
  missing : string -> K -> bool;  (* os.IsNotExist of the error of os.Lstat *)
  goes_on : K -> K -> Prop;  (* what happens outside *)
}.

(** ** Events: fsnotify.go *)

Module fsnotify.
Definition Create : Z := 1.
Definition Write : Z := 2.
Definition Remove : Z := 4.
Definition Rename : Z := 8.
Definition Chmod : Z := 16.
Definition ErrEventOverflow : error := inr (errorString "fsnotify queue overflow").

(** [Op.String] *)
Definition has (op bit : Z) : bool := Z.land op bit =? bit.
Definition Op_String (op : Z) : string :=
  let b := ((if has op Create then "|CREATE" else "") +:+ (if has op Remove then "|REMOVE" else "")
    +:+ (if has op Write then "|WRITE" else "") +:+ (if has op Rename then "|RENAME" else "")
    +:+ (if has op Chmod then "|CHMOD" else ""))%string in
  match b with EmptyString => EmptyString | String _ b => b end.
End fsnotify.

(** [newEvent] *)
Definition newEvent (name : string) (mask : Z) : Event :=
  let op := 0 in
  let op := if fsnotify.has mask unix.IN_CREATE || fsnotify.has mask unix.IN_MOVED_TO then Z.lor op fsnotify.Create else op in
  let op := if fsnotify.has mask unix.IN_DELETE_SELF || fsnotify.has mask unix.IN_DELETE then Z.lor op fsnotify.Remove else op in
  let op := if fsnotify.has mask unix.IN_MODIFY then Z.lor op fsnotify.Write else op in
  let op := if fsnotify.has mask unix.IN_MOVE_SELF || fsnotify.has mask unix.IN_MOVED_FROM then Z.lor op fsnotify.Rename else op in
  let op := if fsnotify.has mask unix.IN_ATTRIB then Z.lor op fsnotify.Chmod else op in
  mkEvent name op.

(** ** The state *)

Record watch : Type := mkWatch { wd : Z; flags : Z }.
Record fdPoller : Type := mkPoller { poller_fd : Z; epfd : Z; pipe0 : Z; pipe1 : Z }.

(** What became of an event of the kernel: its watch descriptor, mask and name, the path that the
    map [paths] had for it, and whether [Lstat] said that the file was missing. *)
Record report : Type := mkReport {
  rep_wd : Z;
  rep_mask : Z;
  rep_name : list byte;
  rep_dir : option string;
  rep_gone : bool;
}.

Section watcher.
Context {K : Type} `{Kernel K}.

(** The channels by what was received from them.  [handled], and [got], all that was read, are notes. *)
Record Watcher : Type := mkWatcher {
  kernel : K;
  Events : list Event;
  Events_closed : bool;
  Errors : list error;
  Errors_closed : bool;
  fd : Z;
  poller : fdPoller;
  watches : gmap string watch;
  paths : gmap Z string;
  done_ : bool;  (* the channel is closed *)
  doneResp : bool;
  handled : list report;
  got : list byte;
}.

Definition set_kernel (x : K) (w : Watcher) : Watcher :=
  mkWatcher x (Events w) (Events_closed w) (Errors w) (Errors_closed w) (fd w) (poller w) (watches w) (paths w) (done_ w)
    (doneResp w) (handled w) (got w).
Definition set_Events (x : list Event) (w : Watcher) : Watcher :=
  mkWatcher (kernel w) x (Events_closed w) (Errors w) (Errors_closed w) (fd w) (poller w) (watches w) (paths w) (done_ w)
    (doneResp w) (handled w) (got w).
Definition set_Errors (x : list error) (w : Watcher) : Watcher :=
  mkWatcher (kernel w) (Events w) (Events_closed w) x (Errors_closed w) (fd w) (poller w) (watches w) (paths w) (done_ w)
    (doneResp w) (handled w) (got w).
Definition set_Events_closed (w : Watcher) : Watcher :=
  mkWatcher (kernel w) (Events w) true (Errors w) (Errors_closed w) (fd w) (poller w) (watches w) (paths w) (done_ w)
    (doneResp w) (handled w) (got w).
Definition set_Errors_closed (w : Watcher) : Watcher :=
  mkWatcher (kernel w) (Events w) (Events_closed w) (Errors w) true (fd w) (poller w) (watches w) (paths w) (done_ w)
    (doneResp w) (handled w) (got w).
Definition set_maps (ws : gmap string watch) (ps : gmap Z string) (w : Watcher) : Watcher :=
  mkWatcher (kernel w) (Events w) (Events_closed w) (Errors w) (Errors_closed w) (fd w) (poller w) ws ps (done_ w)
    (doneResp w) (handled w) (got w).
Definition set_done (w : Watcher) : Watcher :=
  mkWatcher (kernel w) (Events w) (Events_closed w) (Errors w) (Errors_closed w) (fd w) (poller w) (watches w) (paths w) true
    (doneResp w) (handled w) (got w).
Definition set_doneResp (w : Watcher) : Watcher :=
  mkWatcher (kernel w) (Events w) (Events_closed w) (Errors w) (Errors_closed w) (fd w) (poller w) (watches w) (paths w)
    (done_ w) true (handled w) (got w).
Definition note_handled (r : report) (w : Watcher) : Watcher :=
  mkWatcher (kernel w) (Events w) (Events_closed w) (Errors w) (Errors_closed w) (fd w) (poller w) (watches w) (paths w)
    (done_ w) (doneResp w) (handled w ++ [r]) (got w).
Definition note_got (b : list byte) (w : Watcher) : Watcher :=
  mkWatcher (kernel w) (Events w) (Events_closed w) (Errors w) (Errors_closed w) (fd w) (poller w) (watches w) (paths w)
    (done_ w) (doneResp w) (handled w) (got w ++ b).

#[local] Abbreviation step := (prog Watcher).

(** A system call, and one that may wait. *)
Definition syscall {A} (f : K -> A * K) : step A :=
  act (fun _ w => let '(a, k) := f (kernel w) in Goes [(a, set_kernel k w)]).
Definition syscall_wait {A} (f : K -> option (A * K)) : step A :=
  act (fun _ w => match f (kernel w) with Some (a, k) => Goes [(a, set_kernel k w)] | None => Goes [] end).

(** ** inotify_poller.go *)

(** [newFdPoller]: what it made is closed again when it fails. *)
Definition poller_close (p : fdPoller) (k : K) : K :=
  let k := if pipe1 p =? -1 then k else CloseFd (pipe1 p) k in
  let k := if pipe0 p =? -1 then k else CloseFd (pipe0 p) k in
  if epfd p =? -1 then k else CloseFd (epfd p) k.

Definition newFdPoller (fd : Z) (k : K) : (error + fdPoller) * K :=
  let '((ep, errno), k) := EpollCreate1 k in
  let p := mkPoller fd ep (-1) (-1) in
  let fails p errno k := (inl (inl errno), if errno =? 0 then k else poller_close p k) in
  if ep =? -1 then fails p errno k else
  let '((p0, p1, errno), k) := Pipe2 k in
  let p := mkPoller fd ep p0 p1 in
  if negb (errno =? 0) then fails p errno k else
  let '(errno, k) := EpollCtl ep fd k in
  if negb (errno =? 0) then fails p errno k else
  let '(errno, k) := EpollCtl ep p0 k in
  if negb (errno =? 0) then fails p errno k else
  (inr p, k).

(** [clearWake] *)
Definition clearWake (p : fdPoller) : step (option error) :=
  '(n, errno) ← syscall (ReadPipe (pipe0 p) 100);
  mret (if (n =? -1) && negb (errno =? unix.EAGAIN) then Some (inl errno) else None).

(** [wake] *)
Definition wake (p : fdPoller) : step (option error) :=
  '(n, errno) ← syscall (WriteByte (pipe1 p));
  mret (if (n =? -1) && negb (errno =? unix.EAGAIN) then Some (inl errno) else None).

(** The loop of [wait] over the events that are ready: whether the watcher should read. *)
Fixpoint scan_ready (p : fdPoller) (ready : list EpollEvent) (reads : bool) : step (error + bool) :=
  match ready with
  | [] => mret (inr reads)
  | e :: ready =>
      let bit b := negb (Z.land (ep_Events e) b =? 0) in
      let reads := if ep_Fd e =? poller_fd p
                   then reads || bit unix.EPOLLHUP || bit unix.EPOLLERR || bit unix.EPOLLIN else reads in
      if ep_Fd e =? pipe0 p then
        if bit unix.EPOLLERR then mret (inl (inr (errorString "Error on the pipe descriptor."))) else
        if bit unix.EPOLLIN then
          err ← clearWake p;
          match err with
          | Some err => mret (inl err)
          | None => scan_ready p ready reads
          end
        else scan_ready p ready reads
      else scan_ready p ready reads
  end.

(** A round of the loop of [wait]; [None]: once more. *)
Definition wait_round (p : fdPoller) : step (option (error + bool)) :=
  '(n, errno, events) ← syscall_wait (EpollWait (epfd p) (replicate 7 (mkEpollEvent 0 0)));
  if n =? -1 then mret (if errno =? unix.EINTR then None else Some (inl (inl errno))) else
  if n =? 0 then mret None else
  if 6 <? n then mret (Some (inl (inr (errorString "epoll_wait returned more events than I know what to do with")))) else
  match slice (E:=unit) events 0 n with
  | Ok ready => x ← scan_ready p ready false; mret (Some x)
  | _ => crash
  end.

(** ** inotify.go *)

(** [NewWatcher]; the goroutine that it starts is [readEvents]. *)
Definition NewWatcher (k : K) : (error + Watcher) * K :=
  let '((fd, errno), k) := InotifyInit1 k in
  if fd =? -1 then (inl (inl errno), k) else
  match newFdPoller fd k with
  | (inl err, k) => (inl err, CloseFd fd k)
  | (inr p, k) => (inr (mkWatcher k [] false [] false fd p ∅ ∅ false false [] []), k)
  end.

Definition isClosed : step bool := reads done_.

(** [select { case w.Errors <- err: case <-w.done: }] and the same with an event: whether it was sent. *)
Definition send_error (err : error) : step bool :=
  act (fun _ w =>
    if Errors_closed w then Crashes
    else Goes ((true, set_Errors (Errors w ++ [err]) w) :: (if done_ w then [(false, w)] else []))).
Definition send_event (r : report) (e : Event) : step bool :=
  act (fun _ w =>
    if Events_closed w then Crashes
    else Goes ((true, note_handled r (set_Events (Events w ++ [e]) w)) :: (if done_ w then [(false, w)] else []))).

(** [int32] and [uint32] values in the order of the machine. *)
Definition le32 (b : list byte) : Z := foldr (fun x n => Z_of_byte x + 256 * n) 0 b.

(** The header at [&buf[offset]], and the name behind it, through a pointer to an array of [PathMax] bytes. *)
Definition raw_event (buf : list byte) (offset : Z) : option InotifyEvent :=
  if offset + unix.SizeofInotifyEvent <=? slen buf then
    let at_ i := le32 (take 4 (drop (Z.to_nat (offset + i)) buf)) in
    Some (mkInotifyEvent (int32 (at_ 0)) (at_ 4) (at_ 8) (at_ 12))
  else None.

Definition raw_bytes (buf : list byte) (offset len : Z) : option (list byte) :=
  let start := uint32 (offset + unix.SizeofInotifyEvent) in
  if (start <? slen buf) && (len <=? unix.PathMax) && (start + len <=? slen buf)
  then Some (take (Z.to_nat len) (drop (Z.to_nat start) buf)) else None.

(** [name, ok := w.paths[int(raw.Wd)]], under the mutex: a file that was watched and removed is forgotten. *)
Definition lookup_section (d mask : Z) : step (option string) :=
  act (fun _ w =>
    Goes [match paths w !! d with
          | Some name =>
              (Some name, if fsnotify.has mask unix.IN_DELETE_SELF then set_maps (delete name (watches w)) (delete d (paths w)) w else w)
          | None => (None, w)
          end]).

Definition lstat_missing (name : string) : step bool := reads (fun w => missing name (kernel w)).

(** [ignoreLinux]: whether the event is ignored, and whether its file was found missing. *)
Definition ignoreLinux (e : Event) (mask : Z) : step (bool * bool) :=
  if fsnotify.has mask unix.IN_IGNORED then mret (true, false) else
  if negb (fsnotify.has (Event_Op e) fsnotify.Remove || fsnotify.has (Event_Op e) fsnotify.Rename)
  then m ← lstat_missing (Event_Name e); mret (m, m)
  else mret (false, false).

Definition nul : string := String "000"%char EmptyString.

(** [name += "/" + strings.TrimRight(...)] *)
Definition file_name (dir : string) (name : list byte) : string :=
  match name with
  | [] => dir
  | _ => (dir +:+ "/" +:+ TrimRight (string_of name) nul)%string
  end.

(** The loop over the buffer, of which [n] bytes were read: whether the goroutine goes on. *)
Fixpoint parse_loop (fuel : nat) (buf : list byte) (n offset : Z) : step bool :=
  if negb (offset <=? uint32 (n - unix.SizeofInotifyEvent)) then mret true else
  match fuel with
  | O => diverge
  | S fuel =>
      match raw_event buf offset with
      | None => crash
      | Some raw =>
          let mask := raw_Mask raw in
          let nameLen := raw_Len raw in
          go ← if negb (Z.land mask unix.IN_Q_OVERFLOW =? 0) then send_error fsnotify.ErrEventOverflow else mret true;
          if negb go then mret false else
          dir ← lookup_section (raw_Wd raw) mask;
          match (if 0 <? nameLen then raw_bytes buf offset nameLen else Some []) with
          | None => crash
          | Some bytes =>
              let event := newEvent (file_name (default ""%string dir) bytes) mask in
              '(ignored, gone) ← ignoreLinux event mask;
              let r := mkReport (raw_Wd raw) mask bytes dir gone in
              go ← if ignored : bool then _ ← writes (note_handled r); mret true else send_event r event;
              if negb go then mret false else
              parse_loop fuel buf n (uint32 (offset + (unix.SizeofInotifyEvent + nameLen)))
          end
      end
  end.

(** The deferred calls of [readEvents], last first. *)
Definition close_chan (closed : Watcher -> bool) (set : Watcher -> Watcher) : step unit :=
  act (fun _ w => if closed w then Crashes else Goes [(tt, set w)]).
Definition leave {A} : step (option A) :=
  _ ← writes (fun w => set_kernel (poller_close (poller w) (kernel w)) w);
  _ ← writes (fun w => set_kernel (CloseFd (fd w) (kernel w)) w);
  _ ← close_chan Events_closed set_Events_closed;
  _ ← close_chan Errors_closed set_Errors_closed;
  _ ← close_chan doneResp set_doneResp;
  mret None.

Definition buf_size : Z := unix.SizeofInotifyEvent * 4096.

Definition errShortRead : error := inr (errorString "notify: short read in readEvents()").

(** [unix.Read(w.fd, buf[:])], with the array after. *)
Definition read_events (buf : list byte) : step (Z * Z * list byte) :=
  act (fun _ w =>
    match ReadInotify (fd w) buf_size (kernel w) with
    | Some ((n, errno, b), k) => Goes [((n, errno, b ++ drop (length b) buf), note_got b (set_kernel k w))]
    | None => Goes []
    end).

(** A round of [readEvents]; [waiting]: it is in the loop of [wait].  The result is the next round. *)
Definition readEvents (s : bool * list byte) : step (option (bool * list byte)) :=
  let '(waiting, buf) := s in
  closed ← if waiting : bool then mret false else isClosed;
  if closed : bool then leave else
  p ← reads poller;
  x ← wait_round p;
  match x with
  | None => mret (Some (true, buf))
  | Some (inl err) =>
      sent ← send_error err;
      if sent : bool then mret (Some (false, buf)) else leave
  | Some (inr false) => mret (Some (false, buf))
  | Some (inr true) =>
      '(n, errno, buf) ← read_events buf;
      if errno =? unix.EINTR then mret (Some (false, buf)) else
      closed ← isClosed;
      if closed : bool then leave else
      if n <? unix.SizeofInotifyEvent then
        sent ← send_error (if n =? 0 then inr EOF else if n <? 0 then inl errno else errShortRead);
        if sent : bool then mret (Some (false, buf)) else leave
      else
        go ← parse_loop (Z.to_nat n) buf n 0;
        if go : bool then mret (Some (false, buf)) else leave
  end.

Definition reader : thread Watcher :=
  Thread readEvents (mret (Some (false, replicate (Z.to_nat buf_size) x00))).

Definition agnosticEvents : Z :=
  foldr Z.lor 0 [unix.IN_MOVED_TO; unix.IN_MOVED_FROM; unix.IN_CREATE; unix.IN_ATTRIB; unix.IN_MODIFY; unix.IN_MOVE_SELF;
    unix.IN_DELETE; unix.IN_DELETE_SELF].

(** [Add]: its section under the mutex, and the whole. *)
Definition Add_section (name : string) (w : Watcher) : option error * Watcher :=
  let entry := watches w !! name in
  let fl := match entry with Some e => Z.lor agnosticEvents (Z.lor (flags e) unix.IN_MASK_ADD) | None => agnosticEvents end in
  let '((d, errno), k) := InotifyAddWatch (fd w) name fl (kernel w) in
  let w := set_kernel k w in
  if d =? -1 then (Some (inl errno), w) else
  (None, set_maps (<[name := mkWatch (uint32 d) fl]> (watches w))
    (match entry with Some _ => paths w | None => <[d := name]> (paths w) end) w).

Definition Add (name : string) : step (option error) :=
  let name := Clean name in
  closed ← isClosed;
  if closed : bool then mret (Some (inr (errorString "inotify instance already closed"))) else
  act (fun _ w => Goes [Add_section name w]).

Definition Remove_section (name : string) (w : Watcher) : option error * Watcher :=
  match watches w !! name with
  | None => (Some (inr (errorString ("can't remove non-existent inotify watch for: " +:+ name)%string)), w)
  | Some e =>
      let w := set_maps (delete name (watches w)) (delete (wd e) (paths w)) w in
      let '((success, errno), k) := InotifyRmWatch (fd w) (wd e) (kernel w) in
      (if success =? -1 then Some (inl errno) else None, set_kernel k w)
  end.

Definition Remove (name : string) : step (option error) :=
  let name := Clean name in
  act (fun _ w => Goes [Remove_section name w]).

(** [Close] waits for the goroutine to close its channels. *)
Definition Close : step (option error) :=
  closed ← isClosed;
  if closed : bool then mret None else
  _ ← close_chan done_ set_done;
  p ← reads poller;
  _ ← wake p;
  _ ← act (fun _ w => Goes (if doneResp w then [(tt, w)] else []));
  mret None.

(** ** Who calls them *)

Inductive watch_op : Type := OpAdd (name : string) | OpRemove (name : string).

Definition run_watch_op (o : watch_op) : step unit :=
  match o with OpAdd name => _ ← Add name; mret tt | OpRemove name => _ ← Remove name; mret tt end.

(** A goroutine that uses a watcher and closes it in the end. *)
Definition user (ops : list watch_op) : thread Watcher := once (_ ← each run_watch_op ops; _ ← Close; mret tt).

Inductive outside : Watcher -> Watcher -> Prop :=
| outside_kernel w k : goes_on (kernel w) k -> outside w (set_kernel k w).

Definition watcher_step : Watcher * list (thread Watcher) -> Watcher * list (thread Watcher) -> Prop :=
  pool_step outside (fun _ _ => False).
End watcher.
Arguments Watcher K : clear implicits.
