(* ===== verification/FsnotifySpec.v ===== *)
(** * fsnotify: what the kernel writes

    The bytes of events as inotify(7) describes them, a parser for them that is written as a specification, what the
    watcher relies on of the kernel, and the events that a report of it should become. *)

From stdpp Require Import base list strings gmap.
From Stdlib Require Import ZArith Strings.Ascii Strings.Byte Lia.
From S2P Require Import Prelude GoStrings GrpcStatus World Threads Fsnotify.
Open Scope Z_scope.

(** ** The bytes of an event *)

Definition le_bytes (z : Z) : list byte := [byte_of_Z z; byte_of_Z (Z.shiftr z 8); byte_of_Z (Z.shiftr z 16); byte_of_Z (Z.shiftr z 24)].

Definition raw : Type := InotifyEvent * list byte.
Definition raw_enc (r : raw) : list byte :=
  le_bytes (raw_Wd r.1) ++ le_bytes (raw_Mask r.1) ++ le_bytes (raw_Cookie r.1) ++ le_bytes (raw_Len r.1) ++ r.2.

(** A name is one of a file in a directory, without slashes, with zeros behind it. *)
Definition raw_wf (r : raw) : Prop :=
  - 2 ^ 31 <= raw_Wd r.1 < 2 ^ 31 /\ 0 <= raw_Mask r.1 < 2 ^ 32 /\ 0 <= raw_Cookie r.1 < 2 ^ 32 /\
  raw_Len r.1 = slen r.2 /\ slen r.2 <= 256 /\ "/"%byte ∉ r.2.

Definition raws_enc (rs : list raw) : list byte := concat (raw_enc <$> rs).

(** The parser. *)
Fixpoint raws_loop (fuel : nat) (b : list byte) : list raw :=
  match fuel with
  | O => []
  | S fuel =>
      match raw_event b 0 with
      | None => []
      | Some h => let b := drop 16 b in (h, take (Z.to_nat (raw_Len h)) b) :: raws_loop fuel (drop (Z.to_nat (raw_Len h)) b)
      end
  end.
Definition raws (b : list byte) : list raw := raws_loop (length b) b.

Lemma length_le_bytes z : length (le_bytes z) = 4%nat.
Proof. done. Qed.

Lemma le32_le_bytes z : le32 (le_bytes z) = z mod 2 ^ 32.
Proof.
  unfold le32, le_bytes. cbn [foldr]. rewrite !Z_of_byte_of_Z, !Z.shiftr_div_pow2 by lia. unfold uint8.
  rewrite Z.mul_0_r, Z.add_0_r.
  pose proof (Z.div_mod z (2 ^ 8)) as H1. pose proof (Z.div_mod (z / 2 ^ 8) (2 ^ 8)) as H2.
  pose proof (Z.div_mod (z / 2 ^ 16) (2 ^ 8)) as H3. pose proof (Z.div_mod (z / 2 ^ 24) (2 ^ 8)) as H4.
  assert (z / 2 ^ 8 / 2 ^ 8 = z / 2 ^ 16) as E2 by (rewrite Z.div_div by lia; done).
  assert (z / 2 ^ 16 / 2 ^ 8 = z / 2 ^ 24) as E3 by (rewrite Z.div_div by lia; done).
  assert (z / 2 ^ 24 / 2 ^ 8 = z / 2 ^ 32) as E4 by (rewrite Z.div_div by lia; done).
  rewrite E2 in H2. rewrite E3 in H3. rewrite E4 in H4.
  pose proof (Z.div_mod z (2 ^ 32)) as H5. lia.
Qed.

Lemma length_raw_enc r : length (raw_enc r) = (16 + length r.2)%nat.
Proof. unfold raw_enc. by rewrite !length_app, !length_le_bytes. Qed.

Lemma take_at {A} (pre x post : list A) n m : n = length pre -> m = length x -> take m (drop n (pre ++ x ++ post)) = x.
Proof. intros -> ->. by rewrite drop_app_length, take_app_length. Qed.

Lemma slen_to_nat {A} (l : list A) : Z.to_nat (slen l) = length l.
Proof. unfold slen. lia. Qed.

Lemma raw_event_enc pre r post : raw_wf r -> raw_event (pre ++ raw_enc r ++ post) (slen pre) = Some r.1.
Proof.
  intros (Hwd & Hmask & Hcookie & Hlen & Hs & _). unfold raw_event. rewrite !slen_app. unfold slen at 3. rewrite length_raw_enc.
  pose proof (slen_nonneg post). pose proof (slen_nonneg r.2). unfold unix.SizeofInotifyEvent. destruct (Z.leb_spec (slen pre + 16) (slen pre + (Z.of_nat (16 + length r.2) + slen post))); [|lia].
  f_equal. unfold raw_enc. set (a := le_bytes (raw_Wd r.1)). set (b := le_bytes (raw_Mask r.1)).
  set (c := le_bytes (raw_Cookie r.1)). set (d := le_bytes (raw_Len r.1)).
  assert (length a = 4%nat /\ length b = 4%nat /\ length c = 4%nat /\ length d = 4%nat) as (Ha & Hb & Hc & Hd) by done.
  assert (forall (l : list byte) n, 0 <= n -> Z.to_nat (slen l + n) = (length l + Z.to_nat n)%nat) as Hn by (unfold slen; lia).
  rewrite !Hn by lia. change (Z.to_nat 0) with 0%nat. change (Z.to_nat 4) with 4%nat. change (Z.to_nat 8) with 8%nat. change (Z.to_nat 12) with 12%nat.
  replace (take 4 (drop (length pre + 0) (pre ++ (a ++ b ++ c ++ d ++ r.2) ++ post))) with a
    by (rewrite <- app_assoc; symmetry; apply (take_at pre a); lia).
  replace (take 4 (drop (length pre + 4) (pre ++ (a ++ b ++ c ++ d ++ r.2) ++ post))) with b
    by (rewrite <- !app_assoc, (app_assoc pre a); symmetry; apply (take_at (pre ++ a) b); rewrite ?length_app; lia).
  replace (take 4 (drop (length pre + 8) (pre ++ (a ++ b ++ c ++ d ++ r.2) ++ post))) with c
    by (rewrite <- !app_assoc, (app_assoc pre a), (app_assoc (pre ++ a) b); symmetry; apply (take_at ((pre ++ a) ++ b) c); rewrite ?length_app; lia).
  replace (take 4 (drop (length pre + 12) (pre ++ (a ++ b ++ c ++ d ++ r.2) ++ post))) with d
    by (rewrite <- !app_assoc, (app_assoc pre a), (app_assoc (pre ++ a) b), (app_assoc ((pre ++ a) ++ b) c); symmetry;
        apply (take_at (((pre ++ a) ++ b) ++ c) d); rewrite ?length_app; lia).
  unfold a, b, c, d. rewrite !le32_le_bytes. destruct r as [[w m k l] name]. cbn in *. f_equal; try (apply Z.mod_small; lia).
  unfold int32. rewrite Zplus_mod_idemp_l, Z.mod_small by lia. lia.
Qed.

Lemma raw_bytes_enc pre r post :
  raw_wf r -> slen (pre ++ raw_enc r ++ post) < 2 ^ 31 -> 0 < slen r.2 ->
  raw_bytes (pre ++ raw_enc r ++ post) (slen pre) (raw_Len r.1) = Some r.2.
Proof.
  intros (_ & _ & _ & Hlen & Hs & _) Hsize Hpos. unfold raw_bytes, unix.SizeofInotifyEvent, unix.PathMax. rewrite Hlen.
  assert (slen (raw_enc r) = 16 + slen r.2) as Hr by (unfold slen; rewrite length_raw_enc; lia).
  rewrite !slen_app, Hr in *. pose proof (slen_nonneg pre). pose proof (slen_nonneg post).
  unfold uint32. rewrite Z.mod_small by lia.
  destruct (Z.ltb_spec (slen pre + 16) (slen pre + (16 + slen r.2 + slen post))); [|lia].
  destruct (Z.leb_spec (slen r.2) 0x1000); [|lia].
  destruct (Z.leb_spec (slen pre + 16 + slen r.2) (slen pre + (16 + slen r.2 + slen post))); [|lia]. cbn [andb]. f_equal.
  unfold raw_enc. rewrite !(app_assoc (le_bytes _)), <- !app_assoc, !(app_assoc pre), !app_assoc. rewrite <- (app_assoc _ r.2).
  apply take_at; [|by unfold slen; lia]. rewrite !length_app, !length_le_bytes. unfold slen. lia.
Qed.

Lemma raws_loop_enc rs fuel post :
  Forall raw_wf rs -> (length rs <= fuel)%nat -> (length post < 16)%nat -> raws_loop fuel (raws_enc rs ++ post) = rs.
Proof.
  intros Hrs. revert fuel. induction Hrs as [|r rs Hr Hrs IH]; intros fuel Hf Hpost.
  - destruct fuel; [done|]. cbn. unfold raw_event. unfold slen, unix.SizeofInotifyEvent. by destruct (Z.leb_spec (0 + 16) (Z.of_nat (length post))); [lia|].
  - destruct fuel as [|fuel]; [cbn in Hf; lia|]. cbn [raws_loop].
    assert (raws_enc (r :: rs) ++ post = [] ++ raw_enc r ++ (raws_enc rs ++ post)) as -> by (cbn; by rewrite <- app_assoc).
    pose proof (raw_event_enc [] r (raws_enc rs ++ post) Hr) as He. rewrite slen_nil in He. rewrite He.
    destruct Hr as (_ & _ & _ & Hlen & _). cbn [app]. unfold raw_enc.
    rewrite <- !app_assoc. change 16%nat with (4 + (4 + (4 + 4)))%nat. rewrite <- !drop_drop, !drop_app_length' by done.
    rewrite Hlen, slen_to_nat, take_app_length, drop_app_length. rewrite (IH fuel) by (cbn in Hf; lia || done). by destruct r.
Qed.

Lemma length_raws_enc rs : (length rs <= length (raws_enc rs))%nat.
Proof.
  induction rs as [|r rs IH]; [done|]. change (raws_enc (r :: rs)) with (raw_enc r ++ raws_enc rs).
  rewrite length_app, length_raw_enc. cbn [length]. lia.
Qed.

Lemma raws_raws_enc rs : Forall raw_wf rs -> raws (raws_enc rs) = rs.
Proof.
  intros Hrs. unfold raws. rewrite <- (app_nil_r (raws_enc rs)) at 2. apply raws_loop_enc; [done|apply length_raws_enc|cbn; lia].
Qed.

Lemma raws_enc_app rs rs' : raws_enc (rs ++ rs') = raws_enc rs ++ raws_enc rs'.
Proof. unfold raws_enc. by rewrite fmap_app, concat_app. Qed.

(** ** The kernel *)

(** The watch descriptors of a new instance are those that were added, and events are reported of those and,
    with -1, of the queue; a read returns whole events. *)
Class KernelLaws (K : Type) `{Kernel K} : Type := {
  added : K -> Z -> Prop;
  law_init k x k' : InotifyInit1 k = (x, k') -> forall d, ~ added k' d;
  law_epoll k x k' : EpollCreate1 k = (x, k') -> forall d, added k' d -> added k d;
  law_pipe k x k' : Pipe2 k = (x, k') -> forall d, added k' d -> added k d;
  law_ctl a b k x k' : EpollCtl a b k = (x, k') -> forall d, added k' d -> added k d;
  law_add_watch a name fl k d errno k' :
    InotifyAddWatch a name fl k = ((d, errno), k') -> forall x, added k' x -> added k x \/ d <> -1 /\ x = d;
  law_rm_watch a d k x k' : InotifyRmWatch a d k = (x, k') -> forall x, added k' x -> added k x;
  law_wait a evs k n errno evs' k' :
    EpollWait a evs k = Some ((n, errno, evs'), k') ->
    (n = -1 \/ 0 <= n <= slen evs) /\ length evs' = length evs /\ forall d, added k' d -> added k d;
  law_inotify a size k n errno b k' :
    ReadInotify a size k = Some ((n, errno, b), k') ->
    (forall d, added k' d -> added k d) /\ (n = -1 /\ b = [] \/ n = slen b /\ errno = 0 /\ slen b <= size) /\
    exists rs, b = raws_enc rs /\ Forall (fun r => raw_wf r /\ (raw_Wd r.1 = -1 \/ added k (raw_Wd r.1))) rs;
  law_read_pipe a size k x k' : ReadPipe a size k = (x, k') -> forall d, added k' d -> added k d;
  law_write a k x k' : WriteByte a k = (x, k') -> forall d, added k' d -> added k d;
  law_close a k d : added (CloseFd a k) d -> added k d;
  law_outside k k' : goes_on k k' -> forall d, added k' d -> added k d;
}.

(** ** What becomes of a report *)

Definition rep_raw (r : report) : Z * Z * list byte := (rep_wd r, rep_mask r, rep_name r).
Definition raw_sig (r : raw) : Z * Z * list byte := (raw_Wd r.1, raw_Mask r.1, r.2).

Definition event_of (r : report) : Event := newEvent (file_name (default ""%string (rep_dir r)) (rep_name r)) (rep_mask r).

(** Events that the kernel asks to ignore are not sent, nor is one that tells of a file that is not
    there any more, unless this is what it tells. *)
Definition removal (mask : Z) : bool :=
  existsb (fsnotify.has mask) [unix.IN_DELETE_SELF; unix.IN_DELETE; unix.IN_MOVE_SELF; unix.IN_MOVED_FROM].
Definition is_sent (r : report) : bool :=
  negb (fsnotify.has (rep_mask r) unix.IN_IGNORED) && (removal (rep_mask r) || negb (rep_gone r)).

Lemma newEvent_removal name mask :
  fsnotify.has (Event_Op (newEvent name mask)) fsnotify.Remove || fsnotify.has (Event_Op (newEvent name mask)) fsnotify.Rename = removal mask.
Proof.
  unfold newEvent, removal. cbn [existsb].
  destruct (fsnotify.has mask unix.IN_CREATE || fsnotify.has mask unix.IN_MOVED_TO), (fsnotify.has mask unix.IN_DELETE_SELF),
    (fsnotify.has mask unix.IN_DELETE), (fsnotify.has mask unix.IN_MODIFY), (fsnotify.has mask unix.IN_MOVE_SELF),
    (fsnotify.has mask unix.IN_MOVED_FROM), (fsnotify.has mask unix.IN_ATTRIB); reflexivity.
Qed.

Lemma newEvent_create name mask :
  fsnotify.has (Event_Op (newEvent name mask)) fsnotify.Create = fsnotify.has mask unix.IN_CREATE || fsnotify.has mask unix.IN_MOVED_TO.
Proof.
  unfold newEvent.
  destruct (fsnotify.has mask unix.IN_CREATE || fsnotify.has mask unix.IN_MOVED_TO), (fsnotify.has mask unix.IN_DELETE_SELF || fsnotify.has mask unix.IN_DELETE),
    (fsnotify.has mask unix.IN_MODIFY), (fsnotify.has mask unix.IN_MOVE_SELF || fsnotify.has mask unix.IN_MOVED_FROM), (fsnotify.has mask unix.IN_ATTRIB); reflexivity.
Qed.
