(* ===== verification/FsnotifySound.v ===== *)
(** * fsnotify: the goroutine and the methods respect the invariant

    For every interleaving of [readEvents] with a goroutine that uses the watcher, and every kernel that does what
    is documented. *)

From stdpp Require Import base list strings gmap relations.
From Stdlib Require Import ZArith Strings.Ascii Strings.Byte Lia.
From S2P Require Import Prelude GoStrings GrpcStatus World Threads Fsnotify FsnotifySpec.
Open Scope Z_scope.

Section sound.
Context {K : Type} `{KernelLaws K}.

(** [Some d]: the only use is one [Add] of [d]. *)
Context (dir : option string).
#[local] Abbreviation watcher := (Watcher K).

(** ** The invariant *)

(** The kernel has told that what was watched is gone. *)
Definition lost (w : watcher) : Prop := exists r, r ∈ raws (got w) /\ fsnotify.has (raw_Mask r.1) unix.IN_DELETE_SELF = true.

(** Until then, the path of every report is known. *)
Record knows (d : string) (w : watcher) : Prop := {
  k_paths x p : paths w !! x = Some p -> p = d;
  k_added : lost w \/ (forall x, added (kernel w) x -> paths w !! x = Some d);
  k_dirs : Forall (fun r => rep_dir r = None \/ rep_dir r = Some d) (handled w);
  k_known : lost w \/ Forall (fun r => rep_wd r = -1 \/ rep_dir r = Some d) (handled w);
}.

Record inv (w : watcher) : Prop := {
  i_events : Events w = event_of <$> List.filter is_sent (handled w);
  i_got : exists rs, got w = raws_enc rs /\ Forall raw_wf rs /\ rep_raw <$> handled w `prefix_of` raw_sig <$> rs;
  i_dir d : dir = Some d -> knows d w;
}.

(** What the reader, and the user, find as they left it. *)
Definition reader_rely (w w' : watcher) : Prop :=
  Events_closed w' = Events_closed w /\ Errors_closed w' = Errors_closed w /\ doneResp w' = doneResp w /\
  handled w' = handled w /\ got w' = got w /\
  forall d x, dir = Some d -> paths w !! x = Some d -> paths w' !! x = Some d.
Definition user_rely (w w' : watcher) : Prop :=
  done_ w' = done_ w /\ forall n, watches w !! n = None -> watches w' !! n = None.

Definition rely (tid : nat) (w w' : watcher) : Prop :=
  match tid with 0%nat => reader_rely w w' | 1%nat => user_rely w w' | _ => True end.
Definition never (w : watcher) : Prop := False.

#[export] Instance rely_preorder tid : PreOrder (rely tid).
Proof.
  destruct tid as [|[|tid]]; split; try done; unfold rely, reader_rely, user_rely.
  - intros w1 w2 w3 (A1 & A2 & A3 & A4 & A5 & A6) (B1 & B2 & B3 & B4 & B5 & B6).
    repeat split; try (etransitivity; eassumption). auto.
  - intros w1 w2 w3 [A1 A2] [B1 B2]. split; [by etransitivity|auto].
Qed.

#[local] Abbreviation wp := (Threads.wp inv rely never).
#[local] Abbreviation guarantee := (Threads.guarantee rely).

(** ** The kernel's steps *)

Definition fewer (k k' : K) : Prop := forall d, added k' d -> added k d.

Lemma set_kernel_inv k w : fewer (kernel w) k -> inv w -> inv (set_kernel k w).
Proof.
  intros Hk [He Hg Hd]. split; [done|done|]. intros d Hdir. destruct (Hd d Hdir) as [H1 H2 H3 H4].
  split; [done| |done|done]. destruct H2 as [Hl|H2]; [by left|right]. intros x Hx. by apply H2, Hk.
Qed.

Lemma same_inv w w' :
  kernel w' = kernel w -> Events w' = Events w -> paths w' = paths w -> handled w' = handled w -> got w' = got w -> inv w -> inv w'.
Proof.
  intros E1 E2 E3 E4 E5 [He Hg Hd]. split; rewrite ?E2, ?E4, ?E5; [done|done|]. intros d Hdir.
  destruct (Hd d Hdir) as [H1 H2 H3 H4]. unfold lost in *. by split; unfold lost; rewrite ?E1, ?E3, ?E4, ?E5.
Qed.

Lemma set_kernel_rely k w tid : rely tid w (set_kernel k w).
Proof. destruct tid as [|[|tid]]; done. Qed.

(** Programs that only make system calls. *)
Definition calm_step {B} (f : nat -> watcher -> result (B * watcher)) : Prop :=
  forall tid w, exists l, f tid w = Goes l /\ forall b w', (b, w') ∈ l -> exists k, w' = set_kernel k w /\ fewer (kernel w) k.

Fixpoint calm {A} (p : prog watcher A) : Prop :=
  match p with
  | Ret _ => True
  | Do f k => calm_step f /\ forall b, calm (k b)
  end.

Lemma calm_bind {A B} (p : prog watcher A) (k : A -> prog watcher B) : calm p -> (forall a, calm (k a)) -> calm (p ≫= k).
Proof.
  intros Hp Hk. unfold mbind, prog_mbind. induction p as [a|C f g IH]; cbn [prog_bind calm] in *; [apply Hk|].
  destruct Hp as [Hf Hg]. split; [done|]. intros b. apply IH, Hg.
Qed.

Lemma calm_ret {A} (a : A) : calm (mret a).
Proof. done. Qed.

Lemma calm_syscall {A} (f : K -> A * K) : (forall k, fewer k (f k).2) -> calm (syscall f).
Proof.
  intros Hf. split; [|done]. intros tid w. specialize (Hf (kernel w)). destruct (f (kernel w)) as [a k]. eexists. split; [done|].
  intros b w' [= -> ->]%list_elem_of_singleton. eauto.
Qed.

Lemma wp_calm {A} tid (p : prog watcher A) (J : watcher -> Prop) w :
  (forall w w', rely tid w w' -> J w -> J w') -> (forall k w, J w -> J (set_kernel k w)) -> J w -> calm p ->
  wp tid p (fun _ => J) w.
Proof.
  intros Hst Hk. revert w. induction p as [a|B f g IH]; intros w HJ Hc; cbn [Threads.wp].
  - intros w' Hr _. by eapply Hst.
  - destruct Hc as [Hf Hg]. intros w' Hr Hi. destruct (Hf tid w') as (l & -> & Hl). intros b w2 Hin.
    destruct (Hl b w2 Hin) as (k & -> & Hless). split; [by apply set_kernel_inv|].
    split; [intros tid' _; apply set_kernel_rely|]. apply IH; [|done]. apply Hk. by eapply Hst.
Qed.

Lemma calm_clearWake p : calm (clearWake p).
Proof.
  apply calm_bind; [|by intros [n errno]]. apply calm_syscall. intros k. destruct (ReadPipe (pipe0 p) 100 k) as [x k'] eqn:Hr.
  intros d. by eapply law_read_pipe.
Qed.

Lemma calm_wake p : calm (wake p).
Proof.
  apply calm_bind; [|by intros [n errno]]. apply calm_syscall. intros k. destruct (WriteByte (pipe1 p) k) as [x k'] eqn:Hr.
  intros d. by eapply law_write.
Qed.

Lemma calm_scan_ready p evs b : calm (scan_ready p evs b).
Proof.
  revert b. induction evs as [|e evs IH]; intros b; cbn [scan_ready]; [done|].
  destruct (ep_Fd e =? pipe0 p); [|apply IH]. destruct (negb (Z.land (ep_Events e) unix.EPOLLERR =? 0)); [done|].
  destruct (negb (Z.land (ep_Events e) unix.EPOLLIN =? 0)); [|apply IH].
  apply calm_bind; [apply calm_clearWake|]. by intros [err|].
Qed.

(** ** The reader *)

(** The reader has handled what it read except for [rest]; of [ahead] it is known where they happened. *)
Record stands (rest ahead : list raw) (w : watcher) : Prop := {
  a_Events : Events_closed w = false;
  a_Errors : Errors_closed w = false;
  a_doneResp : doneResp w = false;
  a_got : exists rs, got w = raws_enc rs /\ Forall raw_wf rs /\ raw_sig <$> rs = (rep_raw <$> handled w) ++ (raw_sig <$> rest);
  a_known d : dir = Some d -> lost w \/ Forall (fun r => raw_Wd r.1 = -1 \/ paths w !! raw_Wd r.1 = Some d) ahead;
}.
#[local] Abbreviation at_ rest := (stands rest rest).

Lemma lost_same w w' : got w' = got w -> lost w -> lost w'.
Proof. unfold lost. by intros ->. Qed.

Lemma at_stable rest ahead w w' : rely 0 w w' -> stands rest ahead w -> stands rest ahead w'.
Proof.
  intros (E1 & E2 & E3 & E4 & E5 & Hp) [A1 A2 A3 A4 A5]. split; rewrite ?E1, ?E2, ?E3, ?E4, ?E5; try done.
  intros d Hd. destruct (A5 d Hd) as [Hl|Hall]; [left; by eapply lost_same|right].
  eapply Forall_impl; [exact Hall|]. intros r [Hr|Hr]; [by left|right]. by apply (Hp d).
Qed.

Lemma at_kernel rest ahead k w : stands rest ahead w -> stands rest ahead (set_kernel k w).
Proof. by intros [A1 A2 A3 A4 A5]. Qed.

Lemma wait_round_ok p w : at_ [] w -> wp 0 (wait_round p) (fun _ => at_ []) w.
Proof.
  intros Hw. unfold wait_round, syscall_wait. apply wp_act. intros w1 Hr Hi. apply (at_stable _ _ _ _ Hr) in Hw.
  destruct (EpollWait (epfd p) (replicate 7 (mkEpollEvent 0 0)) (kernel w1)) as [[[[n errno] evs] k]|] eqn:Hwait;
    [|by intros b w2 Hin%not_elem_of_nil].
  destruct (law_wait _ _ _ _ _ _ _ Hwait) as (Hn & Hlen & Hless).
  intros b w2 Hin. apply list_elem_of_singleton in Hin as [= -> ->].
  split; [by apply set_kernel_inv|]. split; [intros tid' _; apply set_kernel_rely|]. apply (at_kernel _ _ k) in Hw.
  assert (forall x : option (error + bool), wp 0 (mret x) (fun _ => at_ []) (set_kernel k w1)) as Hret
    by (intros x w' Hr' _; by eapply at_stable).
  destruct (Z.eqb_spec n (-1)); [destruct (errno =? unix.EINTR); apply Hret|]. destruct (n =? 0); [apply Hret|].
  destruct (6 <? n); [apply Hret|]. destruct Hn as [Hn|Hn]; [done|].
  unfold slice. assert (slen evs = 7) as -> by (unfold slen; by rewrite Hlen).
  change (slen (replicate 7 (mkEpollEvent 0 0))) with 7 in Hn.
  destruct (Z.leb_spec 0 n); [|lia]. destruct (Z.leb_spec n 7); [|lia]. cbn [andb Z.leb].
  apply wp_calm; [apply at_stable|apply at_kernel|done|]. apply calm_bind; [apply calm_scan_ready|done].
Qed.

Lemma user_keeps (w w' : watcher) : user_rely w w' -> guarantee 0 w w'.
Proof. intros Hu [|[|tid]] Hne; done. Qed.

Lemma send_error_ok rest ahead err w : stands rest ahead w -> wp 0 (send_error err) (fun _ => stands rest ahead) w.
Proof.
  intros Hw w1 Hr Hi. apply (at_stable _ _ _ _ Hr) in Hw. rewrite (a_Errors _ _ _ Hw).
  assert (forall b w2, w2 = w1 \/ w2 = set_Errors (Errors w1 ++ [err]) w1 ->
    inv w2 /\ guarantee 0 w1 w2 /\ wp 0 (Ret b) (fun _ : bool => stands rest ahead) w2) as Hboth.
  { intros b w2 Hw2. assert (inv w2 /\ user_rely w1 w2 /\ stands rest ahead w2) as (Hi2 & Hu & Hs).
    { destruct Hw2 as [-> | ->]; [done|]. split; [by apply (same_inv w1)|]. split; [done|]. by destruct Hw. }
    split; [done|]. split; [by apply user_keeps|]. intros w3 Hr3 _. by eapply at_stable. }
  intros b w2 [[= -> ->]|Hin]%elem_of_cons; [apply Hboth; by right|].
  destruct (done_ w1); [|by apply not_elem_of_nil in Hin].
  apply list_elem_of_singleton in Hin as [= -> ->]. apply Hboth. by left.
Qed.

(** What the path of an event is known to be. *)
Definition found (x : raw) (o : option string) (w : watcher) : Prop :=
  forall d, dir = Some d -> (o = None \/ o = Some d) /\ (lost w \/ raw_Wd x.1 = -1 \/ o = Some d).

Lemma found_stable x o w w' : rely 0 w w' -> found x o w -> found x o w'.
Proof.
  intros (_ & _ & _ & _ & E & _) Hf d Hd. destruct (Hf d Hd) as [H1 H2]. split; [done|].
  destruct H2 as [H2|H2]; [left; by eapply lost_same|by right].
Qed.

Lemma raws_got (w : watcher) rs : got w = raws_enc rs -> Forall raw_wf rs -> raws (got w) = rs.
Proof. intros -> Hwf. by apply raws_raws_enc. Qed.

Lemma elem_of_pending x rest ahead (w : watcher) :
  stands (x :: rest) ahead w -> exists y, y ∈ raws (got w) /\ raw_sig y = raw_sig x.
Proof.
  intros Hw. destruct (a_got _ _ _ Hw) as (rs & Hg & Hwf & Heq). rewrite (raws_got w rs Hg Hwf).
  assert (raw_sig x ∈ raw_sig <$> rs) as (y & Hy & Hin)%list_elem_of_fmap; [|eauto].
  rewrite Heq. apply elem_of_app. right. by left.
Qed.

Lemma lookup_section_ok x rest w :
  at_ (x :: rest) w ->
  wp 0 (lookup_section (raw_Wd x.1) (raw_Mask x.1)) (fun o w => stands (x :: rest) rest w /\ found x o w) w.
Proof.
  intros Hw w1 Hr Hi. apply (at_stable _ _ _ _ Hr) in Hw. intros o w2 Hin%list_elem_of_singleton.
  assert (inv w2 /\ user_rely w1 w2 /\ stands (x :: rest) rest w2 /\ found x o w2) as (Hi2 & Hu & Hs & Hf).
  2: { split; [done|]. split; [by apply user_keeps|]. intros w3 Hr3 _. split; [by eapply at_stable|by eapply found_stable]. }
  assert (found x (paths w1 !! raw_Wd x.1) w1) as Hfound.
  { intros d Hd. split.
    - destruct (paths w1 !! raw_Wd x.1) as [p|] eqn:Hp; [right|by left]. f_equal. by eapply k_paths; [apply (i_dir _ Hi d Hd)|].
    - destruct (a_known _ _ _ Hw d Hd) as [Hl|Hall]; [by left|right]. by apply Forall_cons_1 in Hall as [Hx _]. }
  assert (stands (x :: rest) rest w1) as Hw1.
  { destruct Hw as [A1 A2 A3 A4 A5]. split; try done. intros d Hd. destruct (A5 d Hd) as [Hl|Hall]; [by left|right].
    by apply Forall_cons_1 in Hall as [_ Hrest]. }
  destruct (paths w1 !! raw_Wd x.1) as [name|] eqn:Hp; [|by injection Hin as -> ->].
  injection Hin as -> ->. destruct (fsnotify.has (raw_Mask x.1) unix.IN_DELETE_SELF) eqn:Hmask; [|done].
  assert (lost w1) as Hlost.
  { destruct (elem_of_pending _ _ _ _ Hw1) as (y & Hy & [= _ E _]). exists y. split; [done|]. by rewrite E. }
  split; [|split; [|split]].
  - destruct Hi as [I1 I2 I3]. split; [done|done|]. intros d Hd. destruct (I3 d Hd) as [K1 K2 K3 K4].
    split; [|by left|done|by left]. intros y p. cbn. rewrite lookup_delete_Some. intros [_ Hy]. by eapply K1.
  - split; [done|]. intros n Hn. cbn. rewrite lookup_delete_None. by right.
  - destruct Hw1 as [A1 A2 A3 A4 A5]. split; try done. intros d Hd. by left.
  - intros d Hd. destruct (Hfound d Hd) as [H1 H2]. split; [done|]. destruct H2; [by left|by right].
Qed.

(** [w'] is [w] after the report of [x] was dealt with. *)
Definition dealt (r : report) (w : watcher) : watcher :=
  note_handled r (if is_sent r then set_Events (Events w ++ [event_of r]) w else w).

Lemma dealt_ok x rest o gone w :
  inv w -> stands (x :: rest) rest w -> found x o w ->
  let r := mkReport (raw_Wd x.1) (raw_Mask x.1) x.2 o gone in
  inv (dealt r w) /\ guarantee 0 w (dealt r w) /\ at_ rest (dealt r w).
Proof.
  intros Hi Hw Hf r. assert (handled (dealt r w) = handled w ++ [r] /\ got (dealt r w) = got w /\ paths (dealt r w) = paths w /\
    kernel (dealt r w) = kernel w /\ done_ (dealt r w) = done_ w /\ watches (dealt r w) = watches w) as (E1 & E2 & E3 & E4 & E5 & E6)
    by (unfold dealt; by destruct (is_sent r)).
  destruct (a_got _ _ _ Hw) as (rs & Hg & Hwf & Heq).
  split; [|split].
  - destruct Hi as [I1 I2 I3]. split.
    + rewrite E1, List.filter_app, fmap_app. unfold dealt. cbn [List.filter]. destruct (is_sent r); cbn; rewrite I1; [done|by rewrite app_nil_r].
    + exists rs. rewrite E1, E2. split; [done|]. split; [done|]. exists (raw_sig <$> rest). rewrite Heq, fmap_app, <- app_assoc. done.
    + intros d Hd. destruct (I3 d Hd) as [K1 K2 K3 K4], (Hf d Hd) as [H1 H2]. unfold lost in *.
      split; unfold lost; rewrite ?E1, ?E2, ?E3, ?E4; [done|done| |].
      * apply Forall_app. split; [done|]. by apply Forall_singleton.
      * destruct K4 as [K4|K4]; [by left|]. destruct H2 as [H2|H2]; [by left|right]. apply Forall_app. split; [done|].
        by apply Forall_singleton.
  - apply user_keeps. unfold user_rely. rewrite E5, E6. done.
  - destruct Hw as [A1 A2 A3 A4 A5]. split; try (unfold dealt; by destruct (is_sent r)).
    exists rs. rewrite E1, E2. split; [done|]. split; [done|]. by rewrite Heq, fmap_app, <- app_assoc.
Qed.

(** Looking at the state. *)
Lemma wp_look {B} tid (g : watcher -> B) (J : watcher -> Prop) (Q : B -> Prop) w :
  (forall w w', rely tid w w' -> J w -> J w') -> J w -> (forall w, J w -> Q (g w)) -> wp tid (reads g) (fun b w => J w /\ Q b) w.
Proof.
  intros Hst HJ HQ w1 Hr Hi b w2 [= -> ->]%list_elem_of_singleton. split; [done|]. split; [by intros tid' _|].
  intros w3 Hr3 _. split; [|by eapply HQ, Hst]. eapply Hst; [exact Hr3|]. by eapply Hst.
Qed.

Lemma ignoreLinux_ok (J : watcher -> Prop) wdesc name b dir_ mask w :
  (forall w w', rely 0 w w' -> J w -> J w') -> J w ->
  wp 0 (ignoreLinux (newEvent name mask) mask)
    (fun x w => J w /\ is_sent (mkReport wdesc mask b dir_ x.2) = negb x.1) w.
Proof.
  intros Hst HJ. unfold ignoreLinux, is_sent. cbn [rep_mask rep_gone]. rewrite newEvent_removal.
  destruct (fsnotify.has mask unix.IN_IGNORED) eqn:Hig; [intros w' Hr _; split; [by eapply Hst|done]|].
  destruct (removal mask) eqn:Hrem; cbn [negb].
  { intros w' Hr _. split; [by eapply Hst|done]. }
  apply wp_seq; [apply _|]. eapply wp_conseq; [|apply (wp_look 0 _ J (fun _ => True)); done].
  intros m w1 _ [HJ1 _] w2 Hr2 _. split; [by eapply Hst|done].
Qed.

(** A report is ignored or sent. *)
Lemma report_ok x rest o gone ignored w :
  let r := mkReport (raw_Wd x.1) (raw_Mask x.1) x.2 o gone in
  stands (x :: rest) rest w -> found x o w -> is_sent r = negb ignored ->
  wp 0 (if ignored : bool then _ ← writes (note_handled r); mret true else send_event r (event_of r))
    (fun go w => if go : bool then at_ rest w else stands (x :: rest) rest w) w.
Proof.
  intros r Hw Hf Hsent.
  assert (forall w1, rely 0 w w1 -> inv w1 -> inv (dealt r w1) /\ guarantee 0 w1 (dealt r w1) /\ at_ rest (dealt r w1)) as Hdealt.
  { intros w1 Hr Hi. apply dealt_ok; [done|by eapply at_stable|by eapply found_stable]. }
  unfold dealt in Hdealt. rewrite Hsent in Hdealt. destruct ignored.
  - apply wp_act. intros w1 Hr Hi [] w2 [= ->]%list_elem_of_singleton. destruct (Hdealt w1 Hr Hi) as (Hi2 & Hg & Ha).
    split; [done|]. split; [done|]. intros w3 Hr3 _. by eapply at_stable.
  - intros w1 Hr Hi. rewrite (a_Events _ _ _ (at_stable _ _ _ _ Hr Hw)). destruct (Hdealt w1 Hr Hi) as (Hi2 & Hg & Ha).
    intros b w2 [[= -> ->]|Hin]%elem_of_cons.
    + split; [done|]. split; [done|]. intros w3 Hr3 _. by eapply at_stable.
    + destruct (done_ w1); [|by apply not_elem_of_nil in Hin]. apply list_elem_of_singleton in Hin as [= -> ->].
      split; [done|]. split; [by intros tid' _|]. intros w3 Hr3 _. eapply at_stable; [exact Hr3|]. by eapply at_stable.
Qed.

Definition unread (w : watcher) : Prop := exists rest ahead, stands rest ahead w.

Lemma slen_raw_enc r : slen (raw_enc r) = 16 + slen r.2.
Proof. unfold slen. rewrite length_raw_enc. lia. Qed.

Lemma parse_loop_ok rest fuel pre tail w :
  at_ rest w -> Forall raw_wf rest -> (length rest <= fuel)%nat -> 16 <= slen (pre ++ raws_enc rest) ->
  slen (pre ++ raws_enc rest ++ tail) <= buf_size ->
  wp 0 (parse_loop fuel (pre ++ raws_enc rest ++ tail) (slen (pre ++ raws_enc rest)) (slen pre))
    (fun go w => if go : bool then at_ [] w else unread w) w.
Proof.
  intros Hw Hwf. revert fuel pre w Hw. induction Hwf as [|x rest Hx Hwf IH]; intros fuel pre w Hw Hf Hn Hsize.
  all: unfold buf_size, unix.SizeofInotifyEvent in *.
  - change (raws_enc []) with (@nil byte) in *. rewrite app_nil_r in *. rewrite slen_app in Hsize.
    pose proof (slen_nonneg tail). cbn [app] in *.
    assert ((slen pre <=? uint32 (slen pre - 16)) = false) as Hend.
    { unfold uint32. rewrite Z.mod_small by lia. lia. }
    destruct fuel; cbn [parse_loop]; unfold unix.SizeofInotifyEvent; rewrite Hend; intros w' Hr _; by eapply at_stable.
  - destruct fuel as [|fuel]; [cbn in Hf; lia|]. cbn [parse_loop]. unfold unix.SizeofInotifyEvent.
    change (raws_enc (x :: rest)) with (raw_enc x ++ raws_enc rest) in *.
    pose proof (slen_nonneg (raws_enc rest)) as P1. pose proof (slen_nonneg pre) as P2. pose proof (slen_nonneg tail) as P3.
    pose proof (slen_nonneg x.2) as P4.
    assert (slen (pre ++ raw_enc x ++ raws_enc rest) = slen pre + (16 + slen x.2) + slen (raws_enc rest)) as Hlen
      by (rewrite !slen_app, slen_raw_enc; lia).
    assert (slen pre + (16 + slen x.2) + slen (raws_enc rest) + slen tail <= 65536) as Hall
      by (rewrite !slen_app, slen_raw_enc in Hsize; lia).
    assert ((slen pre <=? uint32 (slen (pre ++ raw_enc x ++ raws_enc rest) - 16)) = true) as ->.
    { unfold uint32. rewrite Z.mod_small by lia. lia. }
    cbn [negb]. rewrite <- (app_assoc (raw_enc x)). rewrite raw_event_enc by done. cbv zeta.
    assert ((if 0 <? raw_Len x.1 then raw_bytes (pre ++ raw_enc x ++ raws_enc rest ++ tail) (slen pre) (raw_Len x.1) else Some []) = Some x.2) as ->.
    { pose proof Hx as (_ & _ & _ & Hl & _). destruct (Z.ltb_spec 0 (raw_Len x.1)).
      - apply raw_bytes_enc; [done| |lia]. rewrite !slen_app, slen_raw_enc. lia.
      - destruct x as [h [|b name]]; [done|]. cbn in *. rewrite slen_cons in Hl. pose proof (slen_nonneg name). lia. }
    apply wp_seq; [apply _|]. eapply (wp_conseq _ _ _ _ _ (fun _ => at_ (x :: rest))).
    2: { destruct (negb (Z.land (raw_Mask x.1) unix.IN_Q_OVERFLOW =? 0)); [by apply send_error_ok|]. intros w' Hr _. by eapply at_stable. }
    clear w Hw. intros [] w _ Hw; cbn [negb]; [|intros w' Hr _; eexists _, _; by eapply at_stable].
    apply wp_seq; [apply _|]. eapply wp_conseq; [|by apply lookup_section_ok]. clear w Hw. intros o w _ Hw.
    apply wp_seq; [apply _|]. eapply wp_conseq; [|apply (ignoreLinux_ok (fun w => stands (x :: rest) rest w /\ found x o w) (raw_Wd x.1) _ x.2 o); [|exact Hw]].
    2: { intros w1 w2 Hr [H1 H2]. split; [by eapply at_stable|by eapply found_stable]. }
    clear w Hw. intros [ignored gone] w _ [[Hw Hfound] Hsent]. cbv beta iota. cbn [fst snd] in Hsent.
    apply wp_seq; [apply _|]. eapply wp_conseq; [|by apply report_ok]. clear w Hw Hfound. intros [] w _ Hw; cbn [negb].
    + assert (uint32 (slen pre + (16 + raw_Len x.1)) = slen (pre ++ raw_enc x)) as ->.
      { pose proof Hx as (_ & _ & _ & Hl & _). unfold uint32. rewrite Z.mod_small by lia. rewrite slen_app, slen_raw_enc. lia. }
      rewrite (app_assoc pre), (app_assoc pre). apply IH; [done|cbn in Hf; lia| |]; rewrite !slen_app, ?slen_raw_enc in *; lia.
    + intros w' Hr _. eexists _, _. by eapply at_stable.
Qed.

(** ** A round of the reader *)

Lemma lost_more rs b (w w' : watcher) :
  got w = raws_enc rs -> Forall raw_wf rs -> got w' = got w ++ raws_enc b -> Forall raw_wf b -> lost w -> lost w'.
Proof.
  intros Hg Hwf Hg' Hb (r & Hr & Hm). exists r. split; [|done]. rewrite (raws_got w rs Hg Hwf) in Hr.
  rewrite (raws_got w' (rs ++ b)); [set_solver| |by apply Forall_app]. by rewrite Hg', Hg, raws_enc_app.
Qed.

Definition read_done (buf : list byte) (x : Z * Z * list byte) (w : watcher) : Prop :=
  let '(n, errno, buf') := x in
  n = -1 /\ buf' = buf /\ at_ [] w \/
  errno = 0 /\ exists rs, n = slen (raws_enc rs) /\ buf' = raws_enc rs ++ drop (length (raws_enc rs)) buf /\
    slen (raws_enc rs) <= buf_size /\ Forall raw_wf rs /\ at_ rs w.

Lemma read_events_ok buf w : at_ [] w -> wp 0 (read_events buf) (read_done buf) w.
Proof.
  intros Hw w1 Hr Hi. apply (at_stable _ _ _ _ Hr) in Hw.
  destruct (ReadInotify (fd w1) buf_size (kernel w1)) as [[[[n errno] b] k]|] eqn:Hread; [|by intros x w2 Hin%not_elem_of_nil].
  destruct (law_inotify _ _ _ _ _ _ _ Hread) as (Hless & Hres & brs & -> & Hall).
  intros x w2 [= -> ->]%list_elem_of_singleton. destruct (a_got _ _ _ Hw) as (rs & Hg & Hwf & Heq).
  assert (Forall raw_wf brs) as Hbrs by (eapply Forall_impl; [exact Hall|]; by intros r []).
  set (w2 := note_got (raws_enc brs) (set_kernel k w1)).
  assert (got w2 = raws_enc (rs ++ brs)) as Hg2 by (cbn; by rewrite Hg, raws_enc_app).
  assert (lost w1 -> lost w2) as Hlost by (by eapply (lost_more rs brs)).
  assert (inv w2) as Hi2.
  { destruct Hi as [I1 I2 I3]. split; [done| |].
    - exists (rs ++ brs). split; [done|]. split; [by apply Forall_app|]. exists (raw_sig <$> brs). cbn.
      rewrite fmap_app, Heq. by rewrite app_nil_r.
    - intros d Hd. destruct (I3 d Hd) as [K1 K2 K3 K4]. split; [done| |done|].
      + destruct K2 as [K2|K2]; [by left; auto|right]. intros y Hy. apply K2, Hless, Hy.
      + destruct K4 as [K4|K4]; [by left; auto|by right]. }
  assert (at_ brs w2) as Hat.
  { destruct Hw as [A1 A2 A3 A4 A5]. split; try done.
    - exists (rs ++ brs). split; [done|]. split; [by apply Forall_app|]. by rewrite fmap_app, Heq, app_nil_r.
    - intros d Hd. destruct (k_added d w1 (i_dir _ Hi d Hd)) as [K2|K2]; [left; auto|right].
      eapply Forall_impl; [exact Hall|]. intros r [_ [Hr1|Hr1]]; [by left|right]. by apply K2. }
  split; [done|]. split; [by apply user_keeps|]. intros w3 Hr3 _. cbn [read_done].
  destruct Hres as [[-> Hnil]|(-> & -> & Hsize)].
  - left. rewrite Hnil. cbn [length app]. split; [done|]. rewrite drop_0. split; [done|].
    assert (brs = []) as ->; [|by eapply at_stable].
    destruct brs as [|r brs]; [done|]. change (raws_enc (r :: brs)) with (raw_enc r ++ raws_enc brs) in Hnil.
    apply app_eq_nil in Hnil as [Hnil _]. pose proof (length_raw_enc r) as Hl. rewrite Hnil in Hl. cbn in Hl. lia.
  - right. split; [done|]. exists brs. repeat split; try done. all: by eapply at_stable.
Qed.

Lemma close_chan_ok (closed : watcher -> bool) set (J J' : watcher -> Prop) w :
  (forall w w', rely 0 w w' -> J w -> J w') -> (forall w w', rely 0 w w' -> J' w -> J' w') -> J w ->
  (forall w, J w -> closed w = false) -> (forall w, inv w -> J w -> inv (set w) /\ user_rely w (set w) /\ J' (set w)) ->
  wp 0 (close_chan closed set) (fun _ => J') w.
Proof.
  intros Hst Hst' HJ Hc Hset w1 Hr Hi. pose proof (Hst _ _ Hr HJ) as HJ1. rewrite (Hc _ HJ1).
  intros [] w2 [= ->]%list_elem_of_singleton. destruct (Hset w1 Hi HJ1) as (Hi2 & Hu & HJ2).
  split; [done|]. split; [by apply user_keeps|]. intros w3 Hr3 _. by eapply Hst'.
Qed.

Lemma leave_ok w : unread w -> wp 0 (leave (A:=bool * list byte)) (fun o _ => o = None) w.
Proof.
  intros (rest & ahead & Hw). unfold leave. set (J := stands rest ahead).
  assert (forall f : K -> K, (forall k, fewer k (f k)) -> calm (writes (fun w : watcher => set_kernel (f (kernel w)) w))) as Hcalm.
  { intros f Hf. split; [|done]. intros tid w1. eexists. split; [done|]. intros b w2 [= -> ->]%list_elem_of_singleton. eauto. }
  apply wp_act. intros w1 Hr Hi [] w2 [= ->]%list_elem_of_singleton. apply (at_stable _ _ _ _ Hr) in Hw.
  assert (forall p k, fewer k (poller_close p k)) as Hclose.
  { intros p k d. unfold poller_close. destruct (pipe1 p =? -1), (pipe0 p =? -1), (epfd p =? -1); intros Hd;
      repeat (apply law_close in Hd); done. }
  split; [by apply set_kernel_inv|]. split; [intros tid' _; apply set_kernel_rely|].
  apply (at_kernel _ _ (poller_close (poller w1) (kernel w1))) in Hw. clear Hr Hi.
  apply wp_act. intros w2 Hr Hi [] w3 [= ->]%list_elem_of_singleton. apply (at_stable _ _ _ _ Hr) in Hw.
  split; [apply set_kernel_inv; [intros d; apply law_close|done]|]. split; [intros tid' _; apply set_kernel_rely|].
  apply (at_kernel _ _ (CloseFd (fd w2) (kernel w2))) in Hw. clear Hr Hi.
  apply wp_seq; [apply _|]. eapply wp_conseq.
  2: { apply (close_chan_ok _ _ J (fun w => Errors_closed w = false /\ doneResp w = false)).
    - intros w4 w5. apply at_stable.
    - intros w4 w5 (_ & E2 & E3 & _) [H1 H2]. by rewrite E2, E3.
    - exact Hw.
    - intros w4 Hw4. apply (a_Events _ _ _ Hw4).
    - intros w4 Hi4 Hw4. split; [by apply (same_inv w4)|]. split; [done|]. split; [apply (a_Errors _ _ _ Hw4)|apply (a_doneResp _ _ _ Hw4)]. }
  intros [] w4 _ Hw4. apply wp_seq; [apply _|]. eapply wp_conseq.
  2: { apply (close_chan_ok _ _ (fun w => Errors_closed w = false /\ doneResp w = false) (fun w => doneResp w = false)).
    - intros w5 w6 (_ & E2 & E3 & _) [H1 H2]. by rewrite E2, E3.
    - intros w5 w6 (_ & _ & E3 & _) H2. by rewrite E3.
    - exact Hw4.
    - by intros w5 [].
    - intros w5 Hi5 [_ H2]. split; [by apply (same_inv w5)|]. done. }
  intros [] w5 _ Hw5. apply wp_seq; [apply _|]. eapply wp_conseq.
  2: { apply (close_chan_ok _ _ (fun w => doneResp w = false) (fun _ => True)); try done.
    - intros w6 w7 (_ & _ & E3 & _) H2. by rewrite E3.
    - intros w6 Hi6 _. split; [by apply (same_inv w6)|]. done. }
  intros [] w6 _ _ w7 _ _. done.
Qed.

Definition between (o : option (bool * list byte)) (w : watcher) : Prop :=
  match o with Some (_, buf) => at_ [] w /\ slen buf = buf_size | None => True end.

Lemma next_round b buf w : at_ [] w -> slen buf = buf_size -> wp 0 (mret (Some (b, buf))) between w.
Proof. intros Hw Hb w' Hr _. split; [by eapply at_stable|done]. Qed.

Lemma leaves w : unread w -> wp 0 leave between w.
Proof. intros Hw. eapply wp_conseq; [|by apply leave_ok]. by intros o w' _ ->. Qed.

Lemma report_error err buf w :
  at_ [] w -> slen buf = buf_size ->
  wp 0 (sent ← send_error err; if sent : bool then mret (Some (false, buf)) else leave) between w.
Proof.
  intros Hw Hb. apply wp_seq; [apply _|]. eapply wp_conseq; [|by apply send_error_ok].
  intros [] w' _ Hw'; [by apply next_round|apply leaves; by eexists _, _].
Qed.

Lemma after_read (x : Z * Z * list byte) buf w :
  slen buf = buf_size -> read_done buf x w ->
  wp 0 (let '(n, errno, buf) := x in
        if errno =? unix.EINTR then mret (Some (false, buf)) else
        closed ← isClosed;
        if closed : bool then leave else
        if n <? unix.SizeofInotifyEvent then
          sent ← send_error (if n =? 0 then inr EOF else if n <? 0 then inl errno else errShortRead);
          if sent : bool then mret (Some (false, buf)) else leave
        else
          go ← parse_loop (Z.to_nat n) buf n 0;
          if go : bool then mret (Some (false, buf)) else leave) between w.
Proof.
  destruct x as [[n errno] buf']. intros Hbuf Hx.
  assert (exists rest, at_ rest w) as (rest & Hw) by (destruct Hx as [(_ & _ & Hw)|(_ & rs & _ & _ & _ & _ & Hw)]; eauto).
  destruct (Z.eqb_spec errno unix.EINTR) as [He|_].
  { destruct Hx as [(_ & -> & Hw0)|(He0 & _)]; [by apply next_round|]. rewrite He0 in He. discriminate He. }
  apply wp_seq; [apply _|].
  eapply wp_conseq; [|apply (wp_look 0 _ (read_done buf (n, errno, buf')) (fun _ => True)); [|exact Hx|done]].
  2: { intros w1 w2 Hr [(H1 & H2 & H3)|(H1 & rs & H2 & H3 & H4 & H5 & H6)]; [left|right].
       - split; [done|]. split; [done|]. by eapply at_stable.
       - split; [done|]. exists rs. repeat split; try done. all: by eapply at_stable. }
  clear w Hx rest Hw. intros closed w _ [Hx _].
  assert (exists rest, at_ rest w) as (rest & Hw) by (destruct Hx as [(_ & _ & Hw)|(_ & rs & _ & _ & _ & _ & Hw)]; eauto).
  destruct closed; [apply leaves; by eexists _, _|].
  destruct Hx as [(-> & -> & Hx)|(_ & rs & -> & -> & Hsize & Hwf & Hx)]; [by apply report_error|]. clear Hw.
  assert (slen (raws_enc rs ++ drop (length (raws_enc rs)) buf) = buf_size) as Hlen.
  { rewrite slen_app. unfold slen in *. rewrite length_drop. lia. }
  destruct rs as [|r rs]; [by apply report_error|].
  assert (16 <= slen (raws_enc (r :: rs))) as H16.
  { change (raws_enc (r :: rs)) with (raw_enc r ++ raws_enc rs). rewrite slen_app, slen_raw_enc.
    pose proof (slen_nonneg r.2). pose proof (slen_nonneg (raws_enc rs)). lia. }
  destruct (Z.ltb_spec (slen (raws_enc (r :: rs))) unix.SizeofInotifyEvent); [unfold unix.SizeofInotifyEvent in *; lia|].
  apply wp_seq; [apply _|]. eapply wp_conseq; [|apply (parse_loop_ok (r :: rs) _ [] (drop (length (raws_enc (r :: rs))) buf))].
  - intros [] w' _ Hw'; [by apply next_round|by apply leaves].
  - done.
  - done.
  - rewrite slen_to_nat. apply length_raws_enc.
  - done.
  - cbn [app]. lia.
Qed.

Lemma readEvents_ok s w : between (Some s) w -> wp 0 (readEvents s) between w.
Proof.
  destruct s as [waiting buf]. intros [Hw Hbuf]. unfold readEvents.
  apply wp_seq; [apply _|]. eapply (wp_conseq _ _ _ _ _ (fun _ => at_ [])).
  2: { destruct waiting; [intros w' Hr _; by eapply at_stable|]. eapply wp_conseq; [|apply (wp_look 0 _ (at_ []) (fun _ => True)); [apply at_stable|done|done]].
       by intros b w' _ []. }
  clear w Hw. intros closed w _ Hw. destruct closed; [apply leaves; by eexists _, _|].
  apply wp_seq; [apply _|]. eapply wp_conseq; [|apply (wp_look 0 _ (at_ []) (fun _ => True)); [apply at_stable|exact Hw|done]].
  clear w Hw. intros p w _ [Hw _]. apply wp_seq; [apply _|]. eapply wp_conseq; [|by apply wait_round_ok].
  clear w Hw. intros [[err|[]]|] w _ Hw; [by apply report_error| |by apply next_round..].
  apply wp_seq; [apply _|]. eapply wp_conseq; [|by apply read_events_ok].
  intros x w' _ Hx. by eapply after_read.
Qed.

(** ** The user *)

Definition open_ (w : watcher) : Prop := done_ w = false.

Lemma open_stable w w' : rely 1 w w' -> open_ w -> open_ w'.
Proof. intros [E _]. unfold open_. by rewrite E. Qed.

Lemma reader_keeps (w w' : watcher) : reader_rely w w' -> guarantee 1 w w'.
Proof. intros Hu [|[|tid]] Hne; done. Qed.

(** What [Add] finds when it is the only use. *)
Definition first_use (name : string) (w : watcher) : Prop := forall d, dir = Some d -> name = d /\ watches w !! d = None.

Lemma Add_section_ok name w : inv w -> first_use name w ->
  let w' := (Add_section name w).2 in inv w' /\ reader_rely w w' /\ done_ w' = done_ w.
Proof.
  intros Hi Hf. unfold Add_section. cbv zeta.
  destruct (InotifyAddWatch _ _ _ (kernel w)) as [[d errno] k] eqn:Hadd.
  destruct (Z.eqb_spec d (-1)) as [->|Hd]; cbn [snd].
  { split; [|split; [by repeat split; auto|done]]. apply set_kernel_inv; [|done].
    intros x Hx. destruct (law_add_watch _ _ _ _ _ _ _ Hadd x Hx) as [|[]]; done. }
  assert (forall x e, dir = Some e -> paths w !! x = Some e -> (match watches w !! name with Some _ => paths w | None => <[d:=name]> (paths w) end) !! x = Some e) as Hkeep.
  { intros x e He Hx. destruct (Hf e He) as [-> ->]. destruct (decide (d = x)) as [->|Hne]; [by rewrite lookup_insert_eq|by rewrite lookup_insert_ne]. }
  split; [|split; [|done]].
  2: { repeat split; try done. intros e x He Hx. by apply Hkeep. }
  destruct Hi as [I1 I2 I3]. split; [done|done|]. intros e He. destruct (I3 e He) as [K1 K2 K3 K4]. destruct (Hf e He) as [-> Hnone].
  split; [| |done|done].
  - intros x p. cbn. rewrite Hnone. rewrite lookup_insert_Some. intros [[_ <-]|[_ Hp]]; [done|by eapply K1].
  - destruct K2 as [K2|K2]; [by left|right]. intros x Hx.
    destruct (law_add_watch _ _ _ _ _ _ _ Hadd x Hx) as [Hx'|[_ ->]]; [by apply Hkeep, K2|].
    cbn. rewrite Hnone. by rewrite lookup_insert_eq.
Qed.

Lemma Remove_section_ok name w : inv w -> dir = None ->
  let w' := (Remove_section name w).2 in inv w' /\ reader_rely w w' /\ done_ w' = done_ w.
Proof.
  intros [I1 I2 I3] Hdir. unfold Remove_section. destruct (watches w !! name) as [e|].
  - destruct (InotifyRmWatch _ _ _) as [[n errno] k]. split; [split; [done|done|congruence]|]. split; [|done].
    repeat split; try done. congruence.
  - split; [done|]. split; [|done]. by repeat split; auto.
Qed.

Lemma first_use_stable name w w' : rely 1 w w' -> first_use name w -> first_use name w'.
Proof. intros [_ E] Hf d Hd. destruct (Hf d Hd) as [H1 H2]. split; [done|by apply E]. Qed.

(** A section of the user. *)
Lemma wp_section (f : watcher -> option error * watcher) (J : watcher -> Prop) w :
  (forall w w', rely 1 w w' -> J w -> J w') -> J w -> open_ w ->
  (forall w, inv w -> J w -> inv (f w).2 /\ reader_rely w (f w).2 /\ done_ (f w).2 = done_ w) ->
  wp 1 (act (fun _ w => Goes [f w])) (fun _ => open_) w.
Proof.
  intros Hst HJ Ho Hf w1 Hr Hi err w2 Hin%list_elem_of_singleton.
  destruct (Hf w1 Hi (Hst _ _ Hr HJ)) as (Hi2 & Hrr & Hd). rewrite <- Hin in *. cbn [snd] in *.
  split; [done|]. split; [by apply reader_keeps|]. intros w3 Hr3 _. eapply open_stable; [exact Hr3|].
  unfold open_. rewrite Hd. by eapply open_stable.
Qed.

Definition op_fits (o : watch_op) (w : watcher) : Prop :=
  match o with OpAdd name => first_use (Clean name) w | OpRemove _ => dir = None end.

Lemma run_watch_op_ok o w : open_ w -> op_fits o w -> wp 1 (run_watch_op o) (fun _ => open_) w.
Proof.
  intros Ho Hf. destruct o as [name|name]; cbn [run_watch_op op_fits] in *.
  - apply wp_seq; [apply _|]. eapply (wp_conseq _ _ _ _ _ (fun _ => open_)); [intros err w' _ Ho' w2 Hr _; by eapply open_stable|].
    unfold Add. apply wp_seq; [apply _|].
    eapply wp_conseq; [|apply (wp_look 1 _ (fun w => open_ w /\ first_use (Clean name) w) (fun _ => True)); [|done|done]].
    2: { intros w1 w2 Hr [H1 H2]. split; [by eapply open_stable|by eapply first_use_stable]. }
    intros closed w' _ [[Ho' Hf'] _]. destruct closed; [intros w2 Hr _; by eapply open_stable|].
    eapply wp_section; [|exact Hf'|done|]; [by apply first_use_stable|]. by apply Add_section_ok.
  - apply wp_seq; [apply _|]. eapply (wp_conseq _ _ _ _ _ (fun _ => open_)); [intros err w' _ Ho' w2 Hr _; by eapply open_stable|].
    apply (wp_section _ (fun _ => True)); [done|done|done|]. intros w1 Hi _. by apply Remove_section_ok.
Qed.

Lemma Close_ok w : open_ w -> wp 1 Close (fun _ _ => True) w.
Proof.
  intros Ho. unfold Close. apply wp_seq; [apply _|].
  eapply wp_conseq; [|apply (wp_look 1 _ open_ (fun _ => True)); [by apply open_stable|done|done]].
  clear w Ho. intros closed w _ [Ho _]. destruct closed; [done|].
  apply wp_act. intros w1 Hr Hi. rewrite (open_stable _ _ Hr Ho). intros [] w2 [= ->]%list_elem_of_singleton.
  split; [by apply (same_inv w1)|]. split; [apply reader_keeps; by repeat split; auto|].
  apply wp_seq; [apply _|]. eapply wp_conseq; [|apply (wp_look 1 _ (fun _ => True) (fun _ => True)); done].
  intros p w3 _ _. apply wp_seq; [apply _|]. eapply wp_conseq; [|apply (wp_calm 1 _ (fun _ => True)); [done|done|done|apply calm_wake]].
  intros err w4 _ _. apply wp_act. intros w5 _ Hi5 [] w6 Hin. destruct (doneResp w5); [|by apply not_elem_of_nil in Hin].
  apply list_elem_of_singleton in Hin as [= ->]. split; [done|]. split; [by intros tid _|]. done.
Qed.
End sound.
