(* ===== verification/Main.v ===== *)
(** * The main loop: main.go

    [main] checks the pid file, initialises the host devices, starts the watchers,
    writes the pid file and then serves for ever: it brings the plugins up
    and registers them, waits for an event, and brings everything down again when
    the kubelet's socket is created anew, on SIGHUP, or for good on any other
    signal.  One iteration of the [for] loop is [main_round]; the loop has no
    bound, so [main] takes fuel and the theorems hold for every fuel.

    First the watchers for files and signals, watcher.go.  [newFsWatcher] watches the given paths and closes the watcher
    again if one of them cannot be watched; [newOsWatcher] asks for signals on a channel of capacity one.  What they
    deliver, and when the main loop receives it, is up to the environment. *)

From stdpp Require Import base list strings gmap.
From Stdlib Require Import ZArith Lia.
From S2P Require Import Prelude GoStrings GrpcStatus World.
Open Scope Z_scope.

Definition errWatch : go_error := errorString "inotify".

Fixpoint add_watches (fs : list string) : M (option go_error) :=
  match fs with
  | [] => mret None
  | f :: fs =>
      emit (TWatch f) ≫= fun _ =>
      ok ← ask watch_ok;
      if ok : bool then add_watches fs
      else emit TCloseWatcher ≫= fun _ => mret (Some errWatch)
  end.

Definition newFsWatcher (fs : list string) : M (option go_error) :=
  ok ← ask new_watcher_ok;
  if ok : bool then add_watches fs else mret (Some errWatch).

Definition SIGHUP : Z := 1.
Definition SIGINT : Z := 2.
Definition SIGQUIT : Z := 3.
Definition SIGTERM : Z := 15.

Definition newOsWatcher (sigs : list Z) : M unit := emit TNotify.

(** * The main loop *)
From S2P Require Import Fsnotify.
From S2P Require Import Prelude GoStrings Wire Api ApiRegistry GrpcStatus.
From S2P Require Import GrpcTransport GrpcRpc GrpcServer ApiService World Plugin.

Definition pidFile : string := "/run/k8s_dev_plugin_service.pid".

Definition errPid : go_error := errorString "pid file".

(** [os.Create] truncates the file; if writing fails it stays behind, empty. *)
Definition createPidFile : M (option go_error) :=
  ok ← ask create_ok;
  if ok : bool then
    emit (TCreate pidFile) ≫= fun _ =>
    modify (with_files <[pidFile := ""%string]>) ≫= fun _ =>
    ok ← ask write_ok;
    p ← ask (fun E _ => pid E);
    if ok : bool then
      modify (with_files <[pidFile := Itoa p]>) ≫= fun _ => mret None
    else mret (Some errPid)
  else mret (Some errPid).

Definition deletePidFile : M unit := os_Remove pidFile.

(** A [Stat] that fails for another reason than a missing file counts as a
    running service. *)
Definition appIsRunning : M bool :=
  fails ← ask stat_error;
  file ← gets (fun w => files w !! pidFile);
  mret (fails || match file with Some _ => true | None => false end).

(** ** The loop *)

Inductive next : Type :=
| Continue (restart : bool) (pluginManager : option DevicePluginManager)
| Return.

Definition stop_manager (pluginManager : option DevicePluginManager) : M unit :=
  mgr ← deref pluginManager;
  manager_stopGrpcServer mgr.

(** [if restart { ... }]: the manager in service, or [None] for [continue]. *)
Definition bring_up : M (DevicePluginManager * bool) :=
  devInstanceNum ← ask (fun E _ => num_cpu E);
  pluginManager ← initPluginManager devInstanceNum;
  err ← manager_startGrpcServer pluginManager;
  match err with
  | Some e => log_Fatal ("Failed to start grpc server. error: " +:+ error_string e)
  | None =>
      err ← manager_registerToKubelet pluginManager;
      match err with
      | Some e =>
          manager_stopGrpcServer pluginManager ≫= fun _ =>
          time_Sleep (5 * Second) ≫= fun _ =>
          mret (pluginManager, false)
      | None => mret (pluginManager, true)
      end
  end.

Definition is_kubelet_restart (event : Event) : bool :=
  bool_decide (Event_Name event = KubeletSocket) && (Z.land (Event_Op event) fsnotify.Create =? fsnotify.Create).

(** The [select] and the handling of what it received. *)
Definition serve_event (pluginManager : option DevicePluginManager) : M next :=
  ev ← ask next_event;
  emit (TSelect ev) ≫= fun _ =>
  match ev with
  | None => halts HBlock
  | Some (FsError err) => mret (Continue false pluginManager)
  | Some (FsEvent event) =>
      if is_kubelet_restart event then
        stop_manager pluginManager ≫= fun _ => mret (Continue true pluginManager)
      else mret (Continue false pluginManager)
  | Some (Signal sig) =>
      if sig =? SIGHUP then
        stop_manager pluginManager ≫= fun _ => mret (Continue true pluginManager)
      else stop_manager pluginManager ≫= fun _ => mret Return
  end.

Definition main_round (restart : bool) (pluginManager : option DevicePluginManager) : M next :=
  if restart then
    '(mgr, registered) ← bring_up;
    if registered : bool then serve_event (Some mgr) else mret (Continue true (Some mgr))
  else serve_event pluginManager.

Fixpoint main_loop (fuel : nat) (restart : bool) (pluginManager : option DevicePluginManager) : M unit :=
  match fuel with
  | O => halts HFuel
  | S fuel =>
      n ← main_round restart pluginManager;
      match n with
      | Continue restart pluginManager => main_loop fuel restart pluginManager
      | Return => mret tt
      end
  end.

(** After the pid file is written. *)
Definition main_service (fuel : nat) : M unit := deferring deletePidFile (main_loop fuel true None).

Definition main_watching (fuel : nat) : M unit :=
  deferring (emit TCloseWatcher) (
    newOsWatcher [SIGHUP; SIGINT; SIGTERM; SIGQUIT] ≫= fun _ =>
    err ← createPidFile;
    match err with
    | Some e => log_Fatal ("Failed to created app pid file. error: " +:+ error_string e)
    | None => main_service fuel
    end).

Definition main (fuel : nat) : M unit :=
  running ← appIsRunning;
  if running : bool then log_Fatal "app is running." else
  devInstanceNum ← ask (fun E _ => num_cpu E);
  err ← initHostDevice devInstanceNum;
  match err with
  | Some _ => log_Fatal "Failed to init host device. error: "
  | None =>
      err ← newFsWatcher [DevicePluginPath];
      match err with
      | Some e => log_Fatal ("Failed to created FS watcher. error: " +:+ error_string e)
      | None => main_watching fuel
      end
  end.
