(* ===== verification/FsnotifyProps.v ===== *)
(** * fsnotify: the properties of a watcher

    For a watcher that [NewWatcher] made, in every state that its goroutine and the one that uses it reach, and for the
    way in which watcher.go and main.go use it: what the main loop is told of the kubelet's socket. *)

From stdpp Require Import base list strings gmap relations.
From Stdlib Require Import ZArith Strings.Ascii Strings.Byte Lia.
From S2P Require Import Threads Fsnotify FsnotifySpec FsnotifySound.
From S2P Require Import Prelude GoStrings Wire Api GrpcStatus World Main.
Open Scope Z_scope.

Section props.
Context {K : Type} `{KernelLaws K}.
#[local] Abbreviation watcher := (Watcher K).

(** A new watcher, used by one goroutine. *)
Definition watching (k0 : K) (ops : list watch_op) (s : watcher * list (thread watcher)) : Prop :=
  exists w0 k, NewWatcher k0 = (inr w0, k) /\ rtc watcher_step (w0, [reader; user ops]) s.

Lemma newFdPoller_fewer fd (k : K) x k' : newFdPoller fd k = (inr x, k') -> forall d, added k' d -> added k d.
Proof.
  unfold newFdPoller. destruct (EpollCreate1 k) as [[ep e1] k1] eqn:H1. destruct (ep =? -1); [done|].
  destruct (Pipe2 k1) as [[[p0 p1] e2] k2] eqn:H2. destruct (negb (e2 =? 0)); [done|].
  destruct (EpollCtl ep fd k2) as [e3 k3] eqn:H3. destruct (negb (e3 =? 0)); [done|].
  destruct (EpollCtl ep p0 k3) as [e4 k4] eqn:H4. destruct (negb (e4 =? 0)); [done|]. intros [= _ <-] d Hd.
  eapply law_epoll; [exact H1|]. eapply law_pipe; [exact H2|]. eapply law_ctl; [exact H3|]. by eapply law_ctl; [exact H4|].
Qed.

Lemma NewWatcher_ok dir (k0 : K) w0 k :
  NewWatcher k0 = (inr w0, k) -> inv dir w0 /\ stands dir [] [] w0 /\ open_ w0 /\ watches w0 = ∅.
Proof.
  unfold NewWatcher. destruct (InotifyInit1 k0) as [[fd errno] k1] eqn:Hinit. destruct (fd =? -1); [done|].
  destruct (newFdPoller fd k1) as [[err|p] k2] eqn:Hp; [done|]. intros [= <- <-].
  assert (forall d, ~ added k2 d) as Hnone.
  { intros d Hd. eapply law_init; [exact Hinit|]. by eapply newFdPoller_fewer. }
  split; [|split; [|done]].
  - split; [done|by exists []|]. intros d _. split; [done| |done|by right]. right. cbn. intros x Hx. by destruct (Hnone x).
  - split; try done; [by exists []|]. intros d _. by right.
Qed.

(** All uses, or only one [Add]. *)
Definition uses (dir : option string) (ops : list watch_op) : Prop :=
  match dir with Some d => exists name, ops = [OpAdd name] /\ Clean name = d | None => True end.

Lemma user_ok dir ops w : uses dir ops -> open_ w -> watches w = ∅ -> thread_ok (inv dir) (rely dir) never 1 (user ops) w.
Proof.
  intros Hu Ho Hw. apply once_ok; [apply _|]. apply wp_seq; [apply _|]. eapply (wp_conseq _ _ _ _ _ (fun _ => open_)).
  - intros [] w1 _ Ho1. apply wp_seq; [apply _|]. eapply wp_conseq; [|by apply Close_ok]. done.
  - destruct dir as [d|].
    + destruct Hu as (name & -> & <-). cbn [each]. apply wp_seq; [apply _|]. eapply wp_conseq; [|apply run_watch_op_ok; [done|]].
      * intros [] w1 _ Ho1 w2 Hr _. by eapply open_stable.
      * intros d [= <-]. split; [done|]. by rewrite Hw.
    + apply (wp_each _ _ _ 1 run_watch_op ops open_); [done|intros w1 w2 Hr _; by apply (open_stable None)| |done].
      intros o w1 _ Ho1. apply (run_watch_op_ok None); [done|]. by destruct o.
Qed.

Lemma watching_sound dir k0 ops (s : watcher * list (thread watcher)) :
  watching k0 ops s -> uses dir ops -> inv dir s.1 /\ ~ goes_wrong Crashes s /\ ~ goes_wrong Diverges s.
Proof.
  intros (w0 & k & Hnew & Hrun) Hu. destruct (NewWatcher_ok dir k0 w0 k Hnew) as (Hi & Hat & Ho & Hw).
  assert (pool_ok (inv dir) (rely dir) never 0 (w0, [reader; user ops])) as Hok.
  { split; [done|]. split; [cbn; lia|]. intros [|[|tid]] t [= <-]; [|by apply user_ok]. exists (fun x w => between dir (Some x) w).
    cbn zeta. split; [intros x w _ Hx; by apply readEvents_ok|]. apply next_round; [done|]. vm_compute. reflexivity. }
  destruct (pool_sound outside (fun _ _ => False) (inv dir) (rely dir) never 0) with (s := (w0, [reader (K:=K); user ops])) (s' := s)
    as [Hinv Hno]; try done.
  - intros w w' Hiw Hout. destruct Hout as [w k' Hgo]. split; [|intros tid; by apply set_kernel_rely].
    apply set_kernel_inv; [|done]. intros d. by eapply law_outside.
  - split; [done|]. split; intros Hgo; apply Hno; auto.
Qed.


(** C20: The loop over the buffer refines the format of inotify: what was handled are the first of the events that
    the kernel has written, one by one and in its order, and what was sent are those that are not to be ignored. *)
Theorem watcher_reports k0 ops (s : watcher * list (thread watcher)) :
  watching k0 ops s ->
  rep_raw <$> handled s.1 `prefix_of` raw_sig <$> raws (got s.1) /\
  Events s.1 = event_of <$> List.filter is_sent (handled s.1).
Proof.
  intros Hs. destruct (watching_sound None k0 ops s Hs I) as [[He (rs & Hg & Hwf & Hp) _] _].
  by rewrite (raws_got s.1 rs Hg Hwf).
Qed.
End props.

(** ** The kubelet's socket *)

(** The directory that [newFsWatcher] watches, and the report of a new socket in it. *)
Definition plugins_dir : string := "/var/lib/kubelet/device-plugins".
Definition creates_socket (r : report) : bool :=
  bool_decide (TrimRight (string_of (rep_name r)) nul = "kubelet.sock"%string) &&
  (fsnotify.has (rep_mask r) unix.IN_CREATE || fsnotify.has (rep_mask r) unix.IN_MOVED_TO).

Lemma TrimRight_prefix s cut : exists t, s = (TrimRight s cut +:+ t)%string.
Proof.
  induction s as [|c s [t IH]]; [by exists ""%string|]. cbn [TrimRight]. destruct (TrimRight s cut) as [|c' s'] eqn:Ht.
  - destruct (in_set c cut); [by eexists|]. exists s. done.
  - exists t. cbn. f_equal. by rewrite IH at 1.
Qed.

Lemma is_restart_event name mask :
  is_kubelet_restart (newEvent name mask) =
  bool_decide (name = KubeletSocket) && (fsnotify.has mask unix.IN_CREATE || fsnotify.has mask unix.IN_MOVED_TO).
Proof. rewrite <- (newEvent_create name). done. Qed.

Lemma restart_known r : rep_dir r = Some plugins_dir -> is_kubelet_restart (event_of r) = creates_socket r.
Proof.
  intros Hd. unfold event_of, creates_socket. rewrite Hd, is_restart_event. cbn [default]. f_equal. apply bool_decide_ext.
  unfold file_name. destruct (rep_name r) as [|b bs]; [by split|]. set (t := TrimRight _ nul).
  change KubeletSocket with (plugins_dir +:+ "/" +:+ "kubelet.sock")%string. split; [|by intros ->].
  intros Heq. do 2 apply (inj (String.append _)) in Heq. done.
Qed.

Lemma restart_unknown r : rep_dir r = None -> "/"%byte ∉ rep_name r -> is_kubelet_restart (event_of r) = false.
Proof.
  intros Hd Hn. unfold event_of. rewrite Hd, is_restart_event. cbn [default]. apply andb_false_iff. left. apply bool_decide_eq_false.
  unfold file_name. destruct (rep_name r) as [|b bs] eqn:Hb; [done|]. rewrite <- Hb in *. intros Heq.
  destruct (TrimRight_prefix (string_of (rep_name r)) nul) as [t Ht].
  change KubeletSocket with ("" +:+ "/" +:+ "var/lib/kubelet/device-plugins/kubelet.sock")%string in Heq.
  do 2 apply (inj (String.append _)) in Heq. rewrite Heq in Ht. apply Hn. rewrite <- (bytes_of_string_of (rep_name r)), Ht.
  apply (list_elem_of_lookup_2 _ 3). reflexivity.
Qed.

Section kubelet.
Context {K : Type} `{KernelLaws K}.

(** C10: What the main loop is told by the watcher that [newFsWatcher] makes: every event on which it brings the
    plugins down and up again comes from a report of the kernel that the kubelet's socket was created or
    moved there, and every such report becomes one of its events - unless the socket was gone again when the
    watcher looked, or the kernel reported before that the directory itself was removed. *)
Theorem kubelet_socket_watched (k0 : K) s :
  watching k0 [OpAdd DevicePluginPath] s ->
  (forall e, e ∈ Events s.1 -> is_kubelet_restart e = true ->
     exists r, r ∈ handled s.1 /\ is_sent r = true /\ creates_socket r = true /\ e = event_of r) /\
  (~ lost s.1 -> forall r, r ∈ handled s.1 -> rep_wd r <> -1 -> is_sent r = true -> creates_socket r = true ->
     event_of r ∈ Events s.1 /\ is_kubelet_restart (event_of r) = true).
Proof.
  intros Hs. assert (uses (Some plugins_dir) [OpAdd DevicePluginPath]) as Hu by (by exists DevicePluginPath).
  destruct (watching_sound _ _ _ _ Hs Hu) as [[He (rs & Hg & Hwf & Hp) Hd] _].
  destruct (Hd plugins_dir eq_refl) as [_ _ Hdirs Hknown]. rewrite He. split.
  - intros e (r & -> & Hr)%list_elem_of_fmap Hrestart. apply list_elem_of_In, filter_In in Hr as [Hr Hsent].
    apply list_elem_of_In in Hr. exists r. split; [done|]. split; [done|]. split; [|done].
    rewrite Forall_forall in Hdirs. destruct (Hdirs r Hr) as [Hnone|Hsome]; [|by rewrite <- restart_known].
    rewrite restart_unknown in Hrestart; [done..|]. destruct Hp as [more Hp].
    assert (rep_raw r ∈ raw_sig <$> rs) as (x & Hx & Hin)%list_elem_of_fmap.
    { rewrite Hp. apply elem_of_app. left. by apply list_elem_of_fmap_2. }
    rewrite Forall_forall in Hwf. destruct (Hwf x Hin) as (_ & _ & _ & _ & _ & Hslash). by injection Hx as _ _ ->.
  - intros Hlost r Hr Hwd Hsent Hc. destruct Hknown as [|Hknown]; [done|]. rewrite Forall_forall in Hknown.
    destruct (Hknown r Hr) as [|Hdir]; [done|]. split; [|by rewrite restart_known].
    apply list_elem_of_fmap_2. apply list_elem_of_In, filter_In. split; [by apply list_elem_of_In|done].
Qed.
End kubelet.

(** ** A kernel, and a run

    It gives out the descriptors 3 to 6 and the watch descriptors from 1 on, and writes what its script says. *)

Record demo : Type := mkDemo { d_script : list (list raw); d_added : list Z; d_woken : bool; d_gone : list string }.

Definition raw_ok (k : demo) (r : raw) : bool :=
  bool_decide (- 2 ^ 31 <= raw_Wd r.1 < 2 ^ 31) && bool_decide (0 <= raw_Mask r.1 < 2 ^ 32) &&
  bool_decide (0 <= raw_Cookie r.1 < 2 ^ 32) && bool_decide (raw_Len r.1 = slen r.2) && bool_decide (slen r.2 <= 256) &&
  bool_decide ("/"%byte ∉ r.2) && bool_decide (raw_Wd r.1 = -1 \/ raw_Wd r.1 ∈ d_added k).

Definition EIO : Z := 5.

#[export] Instance demo_kernel : Kernel demo := {
  InotifyInit1 k := ((3, 0), mkDemo (d_script k) [] (d_woken k) (d_gone k));
  InotifyAddWatch _ _ _ k :=
    let d := slen (d_added k) + 1 in ((d, 0), mkDemo (d_script k) (d :: d_added k) (d_woken k) (d_gone k));
  InotifyRmWatch _ d k := ((0, 0), mkDemo (d_script k) (base.filter (fun x => x <> d) (d_added k)) (d_woken k) (d_gone k));
  EpollCreate1 k := ((4, 0), k);
  Pipe2 k := ((5, 6, 0), k);
  EpollCtl _ _ k := (0, k);
  EpollWait _ evs k :=
    let first e := match evs with [] => (0, 0, []) | _ :: evs => (1, 0, e :: evs) end in
    match d_script k with
    | _ :: _ => Some (first (mkEpollEvent 3 unix.EPOLLIN), k)
    | [] => if d_woken k then Some (first (mkEpollEvent 5 unix.EPOLLIN), k) else None
    end;
  ReadInotify _ size k :=
    match d_script k with
    | rs :: script =>
        let k' := mkDemo script (d_added k) (d_woken k) (d_gone k) in
        if forallb (raw_ok k) rs && (slen (raws_enc rs) <=? size) then Some ((slen (raws_enc rs), 0, raws_enc rs), k')
        else Some ((-1, EIO, []), k')
    | [] => None
    end;
  ReadPipe _ _ k := ((1, 0), mkDemo (d_script k) (d_added k) false (d_gone k));
  WriteByte _ k := ((1, 0), mkDemo (d_script k) (d_added k) true (d_gone k));
  CloseFd _ k := k;
  missing name k := bool_decide (name ∈ d_gone k);
  goes_on k k' := d_added k' = d_added k;
}.

Lemma raw_ok_wf k r : raw_ok k r = true -> raw_wf r /\ (raw_Wd r.1 = -1 \/ raw_Wd r.1 ∈ d_added k).
Proof. unfold raw_ok, raw_wf. rewrite !andb_true_iff, !bool_decide_eq_true. tauto. Qed.

#[export] Program Instance demo_laws : KernelLaws demo := {| added k d := d ∈ d_added k |}.
Next Obligation. by intros k x k' [= _ <-] d Hd%not_elem_of_nil. Qed.
Next Obligation. by intros k x k' [= _ <-]. Qed.
Next Obligation. by intros k x k' [= _ <-]. Qed.
Next Obligation. by intros a b k x k' [= _ <-]. Qed.
Next Obligation.
  intros a name fl k d errno k' [= <- _ <-] x [->|Hx]%elem_of_cons; [right|by left]. split; [|done].
  pose proof (slen_nonneg (d_added k)). lia.
Qed.
Next Obligation. intros a d k x k' [= _ <-] y Hy. cbn in Hy. by apply list_elem_of_filter in Hy as [_ Hy]. Qed.
Next Obligation.
  intros a evs k n errno evs' k' Hwait. cbn in Hwait.
  assert (forall e, Some (match evs with [] => (0, 0, []) | _ :: evs => (1, 0, e :: evs) end, k) = Some (n, errno, evs', k') ->
    (n = -1 \/ 0 <= n <= slen evs) /\ length evs' = length evs /\ k' = k) as Hfirst.
  { intros e. destruct evs as [|e' evs]; intros [= <- <- <- <-]; (split; [right|done]).
    - done.
    - rewrite slen_cons. pose proof (slen_nonneg evs). lia. }
  destruct (d_script k); [destruct (d_woken k); [|done]|]; destruct (Hfirst _ Hwait) as (H1 & H2 & ->); done.
Qed.
Next Obligation.
  intros a size k n errno b k' Hread. cbn in Hread. destruct (d_script k) as [|rs script]; [done|].
  destruct (forallb (raw_ok k) rs && (slen (raws_enc rs) <=? size)) eqn:Hok; injection Hread as <- <- <- <-; (split; [done|]).
  - apply andb_true_iff in Hok as [Hok Hsize]. split; [right; split; [done|]; split; [done|lia]|]. exists rs. split; [done|].
    apply Forall_forall. intros r Hr. apply raw_ok_wf. eapply forallb_forall; [exact Hok|by apply list_elem_of_In].
  - split; [by left|]. by exists [].
Qed.
Next Obligation. by intros a size k x k' [= _ <-]. Qed.
Next Obligation. by intros a k x k' [= _ <-]. Qed.
Next Obligation. done. Qed.
Next Obligation. intros k k' Hk d. cbn in *. by rewrite Hk. Qed.

(** The kubelet creates its socket; another file in the directory is written to; the queue overflows; and a
    socket is created that is gone at once. *)
Definition named (d mask : Z) (name : string) : raw :=
  let b := bytes_of name ++ replicate (16 - length (bytes_of name) mod 16) x00 in
  (mkInotifyEvent d mask 0 (slen b), b).
Definition demo_script : list (list raw) :=
  [[named 1 unix.IN_CREATE "kubelet.sock"; named 1 unix.IN_MODIFY "fuse.sock"];
   [(mkInotifyEvent (-1) unix.IN_Q_OVERFLOW 0 0, []); named 1 unix.IN_CREATE "binder.sock"]].
Definition demo0 : demo := mkDemo demo_script [] false [""; plugins_dir +:+ "/binder.sock"]%string.
Definition demo_watcher : Watcher demo :=
  match NewWatcher demo0 with (inr w, _) => w | (inl _, k) => mkWatcher k [] false [] false 0 (mkPoller 0 0 0 0) ∅ ∅ false false [] [] end.
Definition demo_start (ops : list watch_op) : Watcher demo * list (thread (Watcher demo)) := (demo_watcher, [reader; user ops]).
Definition demo_after (ops : list watch_op) (sched : list (nat * nat)) : Watcher demo * list (thread (Watcher demo)) :=
  default (demo_start ops) (run_schedule sched (demo_start ops)).

Lemma demo_watching ops sched : watching demo0 ops (demo_after ops sched).
Proof.
  exists demo_watcher, demo0. split; [by vm_compute|]. unfold demo_after.
  destruct (run_schedule sched (demo_start ops)) as [s|] eqn:Hs; [|done]. by eapply run_schedule_steps.
Qed.

Definition watch_plugins : list watch_op := [OpAdd DevicePluginPath].
Definition demo_read : list (nat * nat) := (replicate 2 (1, 0) ++ replicate 25 (0, 0))%nat.
Definition demo_close : list (nat * nat) := (demo_read ++ replicate 3 (1, 0) ++ replicate 7 (0, 0))%nat.


Lemma watcher_reports_witness :
  let s := demo_after watch_plugins demo_read in
  (length (handled s.1) = 4 /\ length (Events s.1) = 2 /\ Errors s.1 = [fsnotify.ErrEventOverflow])%nat /\
  rep_raw <$> handled s.1 `prefix_of` raw_sig <$> raws (got s.1) /\
  Events s.1 = event_of <$> List.filter is_sent (handled s.1).
Proof.
  split; [split; [|split]; vm_compute; reflexivity|].
  exact (watcher_reports demo0 watch_plugins _ (demo_watching watch_plugins demo_read)).
Defined.

Definition socket_report : report :=
  mkReport 1 unix.IN_CREATE (bytes_of "kubelet.sock" ++ replicate 4 x00) (Some plugins_dir) false.

Lemma demo_not_lost : ~ lost (demo_after watch_plugins demo_read).1.
Proof.
  intros (r & Hr & Hm).
  assert (raws (got (demo_after watch_plugins demo_read).1) = concat demo_script) as Heq by (vm_compute; reflexivity).
  rewrite Heq in Hr. revert Hm. cbn [concat demo_script app] in Hr. rewrite !elem_of_cons, elem_of_nil in Hr.
  by destruct Hr as [->|[->|[->|[->|[]]]]].
Qed.

Lemma demo_socket : socket_report ∈ handled (demo_after watch_plugins demo_read).1.
Proof. apply (list_elem_of_lookup_2 _ 0). vm_compute. reflexivity. Qed.

Lemma kubelet_socket_watched_witness :
  let s := demo_after watch_plugins demo_read in
  (forall e, e ∈ Events s.1 -> is_kubelet_restart e = true ->
     exists r, r ∈ handled s.1 /\ is_sent r = true /\ creates_socket r = true /\ e = event_of r) /\
  event_of socket_report ∈ Events s.1 /\ is_kubelet_restart (event_of socket_report) = true.
Proof.
  destruct (kubelet_socket_watched demo0 _ (demo_watching watch_plugins demo_read)) as [H1 H2]. split; [exact H1|].
  apply (H2 demo_not_lost socket_report demo_socket); [done|vm_compute; reflexivity..].
Defined.

(** ** What goes wrong *)

(** [Add] of a path that is watched already stores the descriptor of the new watch in [watches] only: when the
    directory was removed and made again, and the report of that is still in the queue, no path is known for what is
    reported from then on. *)
Lemma Add_forgets_path {K : Type} `{Kernel K} name e (w : Watcher K) d k :
  watches w !! name = Some e ->
  InotifyAddWatch (fd w) name (Z.lor agnosticEvents (Z.lor (flags e) unix.IN_MASK_ADD)) (kernel w) = ((d, 0), k) -> d <> -1 ->
  paths w !! d = None -> (Add_section name w).1 = None /\ paths (Add_section name w).2 !! d = None.
Proof.
  intros He Hadd Hd Hp. unfold Add_section. rewrite He, Hadd. cbv zeta. destruct (Z.eqb_spec d (-1)); [done|]. by split.
Qed.

(** Two goroutines that close a watcher at once: the second panics. *)
Definition two_closers : Watcher demo * list (thread (Watcher demo)) := (demo_watcher, [reader; user []; user []]).
Definition closed_once : Watcher demo * list (thread (Watcher demo)) :=
  default two_closers (run_schedule [(1, 0); (2, 0); (1, 0)]%nat two_closers).

Lemma Close_twice_panics : rtc watcher_step two_closers closed_once /\ goes_wrong Crashes closed_once.
Proof.
  split.
  - unfold closed_once. destruct (run_schedule _ two_closers) as [s|] eqn:Hs; [|done]. by eapply run_schedule_steps.
  - assert (match closed_once.2 !! 2%nat with Some t => thread_result 2 t closed_once.1 | None => Goes [] end = Crashes) as Hres
      by (vm_compute; reflexivity).
    exists 2%nat. destruct (closed_once.2 !! 2%nat) as [t|]; [|done]. by exists t.
Qed.
