(* ===== verification/Frame.v ===== *)
(** * What the code of server.go leaves alone

    Every operation of the plugins and their manager only appends to the trace,
    never turns the clock back, and touches no file but sockets: in particular not
    the pid file, whose fate is main's business alone.  [framed x] says so of
    the code [x]; the lemmas follow the structure of the code. *)

From stdpp Require Import base list strings gmap.
From Stdlib Require Import ZArith Strings.Byte Lia.
From S2P Require Import Prelude GoStrings Wire Api ApiRegistry GrpcStatus.
From S2P Require Import GrpcTransport GrpcRpc GrpcCodec GrpcServer ApiService World.
From S2P Require Import Plugin PluginSpec ManagerSpec Main.
Open Scope Z_scope.

(** A path that a plugin may have: not the pid file, nor the kubelet's socket. *)
Definition own (path : string) : Prop := path <> pidFile /\ path <> KubeletSocket.

(** The listeners and plugins of the process are on such paths. *)
Definition base (w : world) : Prop :=
  (forall l path, listeners w !! l = Some path -> own path) /\
  (forall p x, plugins w !! p = Some x -> own (unixSockPath x)).

(** The events that server.go causes. *)
Definition quiet (a : trace_event) : Prop :=
  match a with TSelect _ | TCreate _ => False | _ => True end.

Section frame.
Context (K : trace_event -> Prop).
Hypothesis HK : forall a, quiet a -> K a.

(** From [w] to [w']: only events of [K], and the pid file is as it was. *)
Definition frame_rel (w w' : world) : Prop :=
  base w' /\ files w' !! pidFile = files w !! pidFile /\ (clock w <= clock w')%nat /\
  exists t, trace w' = trace w ++ t /\ Forall K t.

Lemma frame_refl w : base w -> frame_rel w w.
Proof. intros Hb. split; [done|]. split; [done|]. split; [lia|]. exists []. by rewrite app_nil_r. Qed.

Lemma frame_trans w1 w2 w3 : frame_rel w1 w2 -> frame_rel w2 w3 -> frame_rel w1 w3.
Proof.
  intros (_ & Hf1 & Hc1 & t1 & Ht1 & Hk1) (Hb & Hf2 & Hc2 & t2 & Ht2 & Hk2).
  split; [done|]. split; [congruence|]. split; [lia|]. exists (t1 ++ t2).
  rewrite Ht2, Ht1, <- app_assoc. split; [done|]. by apply Forall_app.
Qed.

Context (E : env).

Definition framed {A} (x : M A) : Prop :=
  forall w, base w -> wpM E x w (fun _ w' => frame_rel w w') (fun _ w' => frame_rel w w').

Lemma framed_bind {A B} (x : M A) (f : A -> M B) : framed x -> (forall a, framed (f a)) -> framed (x ≫= f).
Proof.
  intros Hx Hf w Hb. apply wpM_bind. eapply wpM_mono; [by apply Hx| |done]. cbv beta.
  intros a w1 Hw1. assert (base w1) by apply Hw1.
  eapply wpM_mono; [by apply Hf|..]; intros; by eapply frame_trans.
Qed.

Lemma framed_ret {A} (a : A) : framed (mret a).
Proof. intros w Hb. by apply wpM_ret, frame_refl. Qed.
Lemma framed_halts {A} h : framed (halts (A:=A) h).
Proof. intros w Hb. by apply frame_refl. Qed.
Lemma framed_gets {A} (f : world -> A) : framed (gets f).
Proof. intros w Hb. by apply wpM_gets, frame_refl. Qed.
Lemma framed_deref {A} (x : option A) : framed (deref x).
Proof. destruct x; [apply framed_ret|apply framed_halts]. Qed.
Lemma framed_run_res {A} (r : res stop A) : framed (run_res r).
Proof. intros w Hb. apply wpM_run_res. destruct r as [|[]| |]; by apply frame_refl. Qed.

Lemma framed_emit a : K a -> framed (emit a).
Proof.
  intros Ha w Hb. apply wpM_emit. split; [done|]. split; [done|]. split; [done|]. exists [a]. by repeat constructor.
Qed.

Lemma framed_ask {A} (f : env -> nat -> A) : framed (ask f).
Proof. intros w Hb. apply wpM_ask. split; [done|]. split; [done|]. split; [simpl; lia|]. exists []. by rewrite app_nil_r. Qed.

(** A change of the state that keeps the listeners' and plugins' paths and the pid
    file. *)
Lemma framed_modify (f : world -> world) :
  (forall w, base w -> base (f w) /\ files (f w) !! pidFile = files w !! pidFile /\
     clock (f w) = clock w /\ trace (f w) = trace w) ->
  framed (modify f).
Proof.
  intros Hf w Hb. apply wpM_modify. destruct (Hf w Hb) as (Hb' & Hp & Hc & Ht).
  split; [done|]. split; [done|]. split; [by rewrite Hc|]. exists []. by rewrite app_nil_r.
Qed.

Lemma framed_servers f : framed (modify (with_servers f)).
Proof. by apply framed_modify. Qed.
Lemma framed_chans f : framed (modify (with_chans f)).
Proof. by apply framed_modify. Qed.
Lemma framed_delete path : own path -> framed (modify (with_files (delete path))).
Proof. intros [Hp _]. apply framed_modify. intros w Hb. split; [done|]. split; [|done]. simpl. by rewrite lookup_delete_ne. Qed.
Lemma framed_insert path c : own path -> framed (modify (with_files <[path := c]>)).
Proof. intros [Hp _]. apply framed_modify. intros w Hb. split; [done|]. split; [|done]. simpl. by rewrite lookup_insert_ne. Qed.

Lemma framed_listener path : own path -> framed (modify (with_listeners (fun ls => ls ++ [path]))).
Proof.
  intros Hp. apply framed_modify. intros w [Hl Hx]. split; [|done]. split; [|done]. simpl.
  intros l q [Hq|[_ Hq]]%lookup_app_Some; [by eapply Hl|]. by apply list_lookup_singleton_Some in Hq as [_ <-].
Qed.

Lemma framed_new_plugin x : own (unixSockPath x) -> framed (modify (with_plugins (fun ps => ps ++ [x]))).
Proof.
  intros Hp. apply framed_modify. intros w [Hl Hx]. split; [|done]. split; [done|]. simpl.
  intros p y [Hy|[_ Hy]]%lookup_app_Some; [by eapply Hx|]. by apply list_lookup_singleton_Some in Hy as [_ <-].
Qed.

Lemma framed_set_plugin p f : (forall x, unixSockPath (f x) = unixSockPath x) -> framed (set_plugin p f).
Proof.
  intros Hf. apply framed_modify. intros w [Hl Hx]. split; [|done]. split; [done|]. simpl.
  intros q y. destruct (decide (q = p)) as [->|Hne].
  - rewrite list_lookup_alter_eq. intros (z & Hz & ->)%fmap_Some. rewrite Hf. by eapply Hx.
  - rewrite list_lookup_alter_ne by done. by apply Hx.
Qed.

Lemma framed_unlink ls : framed (modify (unlink_listeners ls)).
Proof.
  apply framed_modify. intros w Hb. split; [done|]. split; [|done]. simpl. destruct Hb as [Hl _].
  induction ls as [|l ls IH]; [done|]. simpl. destruct (listeners w !! l) as [path|] eqn:Hp; [|done].
  rewrite lookup_delete_ne; [done|]. by eapply (proj1 (Hl _ _ Hp)).
Qed.

Lemma framed_get_plugin {B} p (f : DevicePlugin -> M B) :
  (forall x, own (unixSockPath x) -> framed (f x)) -> framed (get_plugin p ≫= f).
Proof.
  intros Hf w Hb. apply wpM_bind. unfold get_plugin. apply wpM_bind, wpM_gets.
  destruct (plugins w !! p) as [x|] eqn:Hp; [|by apply frame_refl]. apply wpM_ret.
  apply Hf; [|done]. by eapply Hb.
Qed.

Lemma framed_deferring {A} (f : M unit) (x : M A) : framed f -> framed x -> framed (deferring f x).
Proof.
  intros Hf Hx w Hb. apply wpM_deferring. eapply wpM_mono; [by apply Hx|..]; cbv beta.
  - intros a w1 Hw1. assert (base w1) by apply Hw1. eapply wpM_mono; [by apply Hf|..]; intros; by eapply frame_trans.
  - intros [] w1 Hw1; try done. assert (base w1) by apply Hw1.
    eapply wpM_mono; [by apply Hf|..]; intros; by eapply frame_trans.
Qed.

Lemma framed_each {A} (f : A -> M (option go_error)) l : (forall x, framed (f x)) -> framed (each f l).
Proof.
  intros Hf. induction l as [|x l IH]; simpl; [apply framed_ret|].
  apply framed_bind; [done|]. intros [e|]; [apply framed_ret|done].
Qed.

Lemma framed_iter_each {A} (f : A -> M unit) l : (forall x, framed (f x)) -> framed (iter_each f l).
Proof. intros Hf. induction l as [|x l IH]; simpl; [apply framed_ret|]. by apply framed_bind. Qed.
End frame.

(** ** The operations *)

Create HintDb framed discriminated.
#[export] Hint Resolve framed_ret framed_halts framed_gets framed_deref framed_run_res framed_ask
  framed_servers framed_chans framed_unlink framed_delete framed_insert framed_listener framed_new_plugin : framed.
#[export] Hint Extern 1 (framed _ _ (emit _)) => apply framed_emit; auto : framed.
#[export] Hint Extern 1 (framed _ _ (set_plugin _ _)) => apply framed_set_plugin; reflexivity : framed.

(** Follow the structure of the code. *)
Ltac framed_step :=
  cbv beta;
  lazymatch goal with
  | |- framed _ _ (get_plugin _ ≫= _) => apply framed_get_plugin; intros
  | |- framed _ _ (_ ≫= _) => apply framed_bind; [|intros]
  | |- framed _ _ (deferring _ _) => apply framed_deferring
  | |- framed _ _ (each _ _) => apply framed_each; intros
  | |- framed _ _ (iter_each _ _) => apply framed_iter_each; intros
  | |- framed _ _ (match ?x with _ => _ end) => destruct x
  | |- framed _ _ ((match ?x with _ => _ end) _) => destruct x
  | |- framed _ _ _ => solve [auto with framed]
  end.
Ltac framed := repeat framed_step.

Section operations.
Context (K : trace_event -> Prop) (HK : forall a, quiet a -> K a) (E : env).

Lemma quiet_K a : quiet a -> K a.
Proof. apply HK. Qed.
Hint Extern 2 (K _) => apply HK; exact I : core.

Lemma framed_os_Remove path : own path -> framed K E (os_Remove path).
Proof. intros. unfold os_Remove. framed. Qed.

Lemma framed_net_Listen path : own path -> framed K E (net_Listen path).
Proof. intros. unfold net_Listen. framed. Qed.

Lemma framed_close_chan c : framed K E (close_chan c).
Proof. unfold close_chan. framed. Qed.

Lemma framed_connectGrpcServer path : framed K E (connectGrpcServer path).
Proof. unfold connectGrpcServer. framed. Qed.

Lemma framed_log_Fatal {A} msg : framed K E (log_Fatal (A:=A) msg).
Proof. unfold log_Fatal. framed. Qed.

Hint Resolve framed_os_Remove framed_net_Listen framed_close_chan framed_connectGrpcServer framed_log_Fatal : framed.

Lemma framed_newDevicePlugin dev n :
  own (DevicePluginPath +:+ Base (Device_devName dev) +:+ ".sock") -> framed K E (newDevicePlugin dev n).
Proof. intros. unfold newDevicePlugin, make_chan. framed. Qed.

Lemma framed_initPluginManager n : framed K E (initPluginManager n).
Proof.
  unfold initPluginManager. apply framed_bind; [|intros; apply framed_ret].
  assert (Forall (fun dev => own (DevicePluginPath +:+ Base (Device_devName dev) +:+ ".sock")) devList) as Hds
    by (repeat constructor; discriminate).
  induction Hds as [|dev ds Hdev _ IH]; simpl; [apply framed_ret|].
  apply framed_bind; [by apply framed_newDevicePlugin|intros]. apply framed_bind; [done|intros; apply framed_ret].
Qed.

Lemma framed_plugin_startGrpcServer p : framed K E (plugin_startGrpcServer p).
Proof. unfold plugin_startGrpcServer. framed. Qed.

Lemma framed_plugin_stopGrpcServer p : framed K E (plugin_stopGrpcServer p).
Proof. unfold plugin_stopGrpcServer. framed. Qed.

Lemma framed_plugin_registerToKubelet p : framed K E (plugin_registerToKubelet p).
Proof. unfold plugin_registerToKubelet. framed. Qed.

Hint Resolve framed_initPluginManager framed_plugin_startGrpcServer framed_plugin_stopGrpcServer
  framed_plugin_registerToKubelet : framed.

Lemma framed_manager_startGrpcServer mgr : framed K E (manager_startGrpcServer mgr).
Proof. unfold manager_startGrpcServer. framed. Qed.

Lemma framed_manager_stopGrpcServer mgr : framed K E (manager_stopGrpcServer mgr).
Proof. unfold manager_stopGrpcServer. framed. Qed.

Lemma framed_manager_registerToKubelet mgr : framed K E (manager_registerToKubelet mgr).
Proof. unfold manager_registerToKubelet. framed. Qed.

Hint Resolve framed_manager_startGrpcServer framed_manager_stopGrpcServer framed_manager_registerToKubelet : framed.

Lemma framed_bring_up : framed K E bring_up.
Proof. unfold bring_up, time_Sleep. framed. Qed.

Lemma framed_stop_manager mgr : framed K E (stop_manager mgr).
Proof. unfold stop_manager. framed. Qed.

Lemma framed_initHostDevice n : framed K E (initHostDevice n).
Proof.
  assert (forall reads msg, framed K E (read_stderr reads msg)) as Hr.
  { induction reads as [|b reads IH]; intros; simpl; framed. }
  unfold initHostDevice. framed.
Qed.

Lemma framed_newFsWatcher fs : framed K E (newFsWatcher fs).
Proof. unfold newFsWatcher. framed. induction fs as [|f fs IH]; simpl; framed. Qed.
End operations.

#[export] Hint Resolve framed_bring_up framed_stop_manager framed_initHostDevice framed_newFsWatcher framed_log_Fatal : framed.
