(* ===== verification/MainSpec.v ===== *)
(** * What the service does

    The invariant of the main loop, by induction on its rounds: while the service
    waits for events exactly the three plugins of its current manager run, all
    registered with the kubelet, and while it restarts none does.  From it: the
    service never panics, a signal stops everything, and the fate of the pid
    file. *)

From stdpp Require Import base list strings gmap.
From Stdlib Require Import ZArith Strings.Byte Lia.
From S2P Require Import Prelude GoStrings Wire Api ApiRegistry GrpcStatus.
From S2P Require Import GrpcTransport GrpcRpc GrpcCodec GrpcServer ApiService World.
From S2P Require Import Plugin PluginSpec ManagerSpec Main Frame.
Open Scope Z_scope.

(** The manager in service: a plugin of [devNum] instances for each device of
    [devList], running and registered, and no other plugin running. *)
Definition ready (devNum : Z) (mgr : DevicePluginManager) (w : world) : Prop :=
  exists k, mgr = manager_at k /\ inv w /\ idle_but (devPlugins mgr) w /\
    forall i dev, devList !! i = Some dev -> exists x, plugins w !! (k + i)%nat = Some x /\
      same_device (new_plugin dev devNum (k + i)) x /\ gRpcServer x <> None /\ isRigistered x = true.

(** The state of the loop before a round. *)
Definition loop_inv (devNum : Z) (restart : bool) (mgr : option DevicePluginManager) (w : world) : Prop :=
  if restart then inv w /\ idle w
  else exists m, mgr = Some m /\ ready devNum m w.

(** Every plugin that ran in [w] is stopped in [w']: its server is gone, its channel
    closed, its socket removed if files can be removed. *)
Definition all_stopped (E : env) (w w' : world) : Prop :=
  inv w' /\ idle w' /\
  forall p x, plugins w !! p = Some x -> gRpcServer x <> None ->
    chans w' !! p = Some true /\ ((forall n, remove_ok E n = true) -> files w' !! unixSockPath x = None).

(** No plugin runs, and if files can be removed no device has a socket. *)
Definition clean (E : env) (w : world) : Prop :=
  inv w /\ idle w /\
  ((forall n, remove_ok E n = true) -> forall dev, dev ∈ devList -> files w !! unixSockPath (new_plugin dev 0 0) = None).

(** The ways in which the main goroutine can end without returning. *)
Definition exits : halt -> world -> Prop := fun h _ => h = HExit 1 \/ h = HBlock.

Lemma manager_at_elem k p :
  p ∈ devPlugins (manager_at k) <-> exists i dev, devList !! i = Some dev /\ p = (k + i)%nat.
Proof.
  simpl. rewrite !elem_of_cons. split.
  - intros [->|[->|[->|Hn]]]; [exists 0%nat|exists 1%nat|exists 2%nat|by apply elem_of_nil in Hn];
      eexists; (split; [done|lia]).
  - intros (i & dev & Hi & ->). destruct i as [|[|[|i]]]; [left|right; left|right; right; left|done]; lia.
Qed.

Lemma manager_at_NoDup k : NoDup (devPlugins (manager_at k)).
Proof. apply NoDup_seq. Qed.

(** The sockets of different devices are different files. *)
Lemma devList_paths n c c' i j dev dev' :
  devList !! i = Some dev -> devList !! j = Some dev' ->
  unixSockPath (new_plugin dev n c) = unixSockPath (new_plugin dev' n c') -> i = j.
Proof.
  intros Hi Hj. destruct i as [|[|[|i]]]; simplify_eq/=; destruct j as [|[|[|j]]]; simplify_eq/=; done.
Qed.

Lemma same_device_path x y : same_device x y -> unixSockPath x = unixSockPath y.
Proof. by intros (_&_&_&_&?&_). Qed.

(** Lookups of the new plugins after [initPluginManager]. *)
Lemma new_plugins_lookup n w w' i dev :
  plugins w' = plugins w ++ new_plugins n (length (plugins w)) -> devList !! i = Some dev ->
  plugins w' !! (length (plugins w) + i)%nat = Some (new_plugin dev n (length (plugins w) + i)).
Proof.
  intros -> Hi. rewrite lookup_app_r by lia. replace (length (plugins w) + i - length (plugins w))%nat with i by lia.
  unfold new_plugins. by rewrite list_lookup_imap, Hi.
Qed.

Section specs.
Context (E : env).
Hypothesis HE : env_ok E.
Hypothesis Hnum : 0 <= num_cpu E.
Local Abbreviation n := (num_cpu E).

(** A manager all of whose plugins run and are registered is ready. *)
Lemma registering_ready w0 w1 w :
  plugins w1 = plugins w0 ++ new_plugins n (length (plugins w0)) ->
  registering (manager_at (length (plugins w0))) w1 [] w -> ready n (manager_at (length (plugins w0))) w.
Proof.
  intros Hpl [(Hinv & Hsame & Hidle & Hrun) Hreg]. eexists. split; [done|]. split; [done|]. split; [done|].
  intros i dev Hi. assert ((length (plugins w0) + i)%nat ∈ devPlugins (manager_at (length (plugins w0)))) as Hin
    by (apply manager_at_elem; eauto).
  destruct (Hrun _ Hin) as (x & Hx & Hs). exists x. split; [done|].
  destruct (same_plugins_lookup _ _ _ _ Hsame Hx) as (y & Hy & Hsd).
  rewrite (new_plugins_lookup n w0 w1 i dev) in Hy by done. simplify_eq. split; [done|]. split; [done|].
  eapply Hreg; [done| |done]. set_solver.
Qed.

Lemma stop_spec k w :
  inv w -> idle_but (devPlugins (manager_at k)) w ->
  (forall p, p ∈ devPlugins (manager_at k) -> is_Some (plugins w !! p)) ->
  wpM E (manager_stopGrpcServer (manager_at k)) w (fun _ w' => all_stopped E w w') no_halt.
Proof.
  intros Hinv Hidle Hps.
  eapply wpM_mono; [apply (manager_stopGrpcServer_spec E (manager_at k)); [done|apply manager_at_NoDup|done|done]| |done].
  cbv beta. intros _ w' Hst. split; [by destruct Hst as [Hi _]|]. split; [by eapply stopping_idle|].
  intros p x Hp Hs. destruct Hst as (_ & _ & _ & Hst). destruct (Hst p x Hp) as [_ Hq]. apply Hq; [set_solver|done].
Qed.

(** [bring_up] after the servers have started. *)
Definition register_all (mgr : DevicePluginManager) : M (DevicePluginManager * bool) :=
  err ← manager_registerToKubelet mgr;
  match err with
  | Some e =>
      manager_stopGrpcServer mgr ≫= fun _ =>
      time_Sleep (5 * Second) ≫= fun _ =>
      mret (mgr, false)
  | None => mret (mgr, true)
  end.

(** A property that the code of server.go keeps. *)
Definition stable (P : world -> Prop) : Prop :=
  forall A (x : M A) w, framed quiet E x -> P w -> wpM E x w (fun _ w' => P w') (fun _ w' => P w').

(** The manager of new plugins before it registers: all of them run, none is
    registered. *)
Definition started (w0 : world) (mgr : DevicePluginManager) (w : world) : Prop :=
  mgr = manager_at (length (plugins w0)) /\
  (exists w1, plugins w1 = plugins w0 ++ new_plugins n (length (plugins w0)) /\
     registering mgr w1 (devPlugins mgr) w) /\
  forall p, p ∈ devPlugins mgr -> exists x, plugins w !! p = Some x /\ isRigistered x = false.

Lemma initialised_starting w w1 :
  inv w1 -> idle w1 -> length (chans w) = length (plugins w) ->
  plugins w1 = plugins w ++ new_plugins n (length (plugins w)) ->
  chans w1 = chans w ++ repeat false (length devList) ->
  starting (manager_at (length (plugins w))) w1 (devPlugins (manager_at (length (plugins w)))) w1 /\
  distinct_paths (devPlugins (manager_at (length (plugins w)))) w1.
Proof.
  intros Hinv1 Hidle1 Hlen Hpl Hch. set (k := length (plugins w)) in *. split.
  - split; [done|]. split; [unfold same_plugins; reflexivity|]. split; [intros p x Hp _; by eapply Hidle1|].
    split; [done|]. intros p (i & dev & Hi & ->)%manager_at_elem.
    unfold k. rewrite (new_plugins_lookup n w w1 i dev Hpl Hi). eexists. split; [done|]. split; [done|].
    rewrite decide_True by (apply manager_at_elem; eauto). split; [done|].
    rewrite Hch, lookup_app_r by lia. replace (length (plugins w) + i - length (chans w))%nat with i by lia.
    by destruct i as [|[|[|i]]].
  - intros p q x y (i & dev & Hi & ->)%manager_at_elem (j & dev' & Hj & ->)%manager_at_elem.
    unfold k. rewrite !(new_plugins_lookup n w w1 _ _ Hpl) by done. intros [= <-] [= <-] Heq.
    by rewrite (devList_paths n _ _ i j dev dev' Hi Hj Heq).
Qed.

(** [bring_up] starts all the plugins of a new manager and then registers them, or
    exits; or it exits only if some start can fail. *)
Lemma wpM_bring_up (P : world -> Prop) w Q X :
  stable P -> P w -> inv w -> idle w ->
  (forall w', P w' -> (exists p e w1 w2, P w1 /\ plugin_startGrpcServer p E w1 = Ret (Some e) w2) -> X (HExit 1) w') ->
  (forall mgr w2, P w2 -> started w mgr w2 -> wpM E (register_all mgr) w2 Q X) ->
  wpM E bring_up w Q X.
Proof.
  intros HP Hw Hinv Hidle HX HQ. unfold bring_up. wp_step.
  eapply wpM_mono; [apply wpM_and; [apply (HP _ _ w); [apply framed_ask|done]|
    apply (wpM_ask E _ w (fun a w' => a = n /\ w' = tick w) no_halt); done]| |by intros h w' [_ []]].
  cbv beta. intros devNum w' (Hw' & -> & ->).
  wp_step. eapply wpM_mono; [apply wpM_and; [apply (HP _ _ (tick w)); [by apply framed_initPluginManager|done]|
    apply (initPluginManager_spec E n (tick w)); [by eapply inv_quiet|done|done]]| |by intros h w1 [_ []]].
  cbv beta. intros mgr w1 (Hw1 & -> & Hinv1 & Hidle1 & Hpl & Hch & _).
  destruct (initialised_starting w w1) as [Hst Hpaths]; [done|done|apply Hinv|done|done|].
  change (plugins (tick w)) with (plugins w) in *. set (k := length (plugins w)) in *.
  set (failure := exists p e w1 w2, P w1 /\ plugin_startGrpcServer p E w1 = Ret (Some e) w2) in *.
  assert (wpM E (manager_startGrpcServer (manager_at k)) w1 (fun r _ => r <> None -> failure) (fun _ _ => True)) as Hfail.
  { unfold manager_startGrpcServer. eapply wpM_mono; [apply (wpM_each E _ (fun _ => P) (fun _ => failure) _ _
      (fun _ _ => True)); [done|]| |done].
    - intros p l w2 Hw2. eapply wpM_mono; [apply wpM_and; [by apply (HP _ _ w2); [apply framed_plugin_startGrpcServer|]|]| |done].
      + instantiate (1 := fun _ _ => True). instantiate (1 := fun r w3 => plugin_startGrpcServer p E w2 = Ret r w3).
        unfold wpM. by destruct (plugin_startGrpcServer p E w2).
      + cbv beta. intros [e|] w3 [Hw3 Hp]; [|done]. by exists p, e, w2, w3.
    - intros [e|] w2 H; done. }
  wp_step. eapply wpM_mono; [apply wpM_and; [apply wpM_and; [apply (HP _ _ w1); [by apply framed_manager_startGrpcServer|done]|exact Hfail]|
    apply (manager_startGrpcServer_spec E (manager_at k) w1 w1); [apply manager_at_NoDup|done|done]]| |by intros h w2 [_ []]].
  cbv beta. intros r w2 ((Hw2 & Hr) & Hstart). destruct r as [e|].
  - eapply wpM_mono; [apply wpM_and; [apply (HP _ _ w2); [by apply framed_log_Fatal|done]|]|..].
    + instantiate (1 := fun h _ => h = HExit 1). instantiate (1 := fun _ _ => False). done.
    + by intros ? ? [_ []].
    + intros h w3 [Hw3 ->]. apply HX; [done|]. by apply Hr.
  - apply HQ; [done|]. destruct Hstart as (Hinv2 & Hsame2 & Hidle2 & _ & Hps2). split; [done|]. split.
    + exists w1. split; [done|]. split; [|intros p x Hin Hnin; by destruct Hnin].
      split; [done|]. split; [done|]. split; [done|]. intros p Hin. destruct (Hps2 p Hin) as (x & Hx & _ & Hrun).
      rewrite decide_False in Hrun by set_solver. eauto.
    + intros p Hin. destruct (Hps2 p Hin) as (x & Hx & Hreg & _). eauto.
Qed.

(** Registering all, or stopping all again. *)
Lemma register_all_spec w0 mgr w :
  started w0 mgr w ->
  wpM E (register_all mgr) w (fun r w' => if r.2 then ready n r.1 w' else inv w' /\ idle w') blocks.
Proof.
  intros (-> & (w1 & Hpl & Hreg) & _). set (k := length (plugins w0)) in *. unfold register_all. wp_step.
  eapply wpM_mono; [by apply (manager_registerToKubelet_spec E (manager_at k) w1)| |done].
  intros r w3 Hr. destruct r as [e|]; [|wp_steps; by eapply registering_ready].
  destruct Hr as (Hinv3 & Hsame3 & Hidle3 & Hrun3). wp_steps.
  eapply wpM_mono; [apply stop_spec; [done|done|]| |done].
  - intros p Hin. destruct (Hrun3 p Hin) as (x & Hx & _). eauto.
  - intros _ w4 (Hinv4 & Hidle4 & _). unfold time_Sleep. wp_steps. split; [by eapply inv_quiet|done].
Qed.

Lemma stable_True : stable (fun _ => True).
Proof. intros A x w _ _. unfold wpM. by destruct (x E w). Qed.

(** Bringing the plugins up ends with a manager that is ready, or with everything
    stopped again because the kubelet refused, or with the process. *)
Lemma bring_up_spec w :
  inv w -> idle w ->
  wpM E bring_up w (fun r w' => if r.2 then ready n r.1 w' else inv w' /\ idle w') exits.
Proof.
  intros Hinv Hidle. apply (wpM_bring_up (fun _ => True)); try done; [apply stable_True|by left|].
  intros mgr w2 _ Hst. eapply wpM_mono; [by apply (register_all_spec w)|done|]. intros h w' ->. by right.
Qed.

(** What an event does to a manager in service. *)
Definition event_result (mgr : DevicePluginManager) (w : world) (ev : option main_event) (nx : next) (w' : world) : Prop :=
  match ev with
  | None => False
  | Some (FsError _) => nx = Continue false (Some mgr) /\ plugins w' = plugins w /\ servers w' = servers w /\ files w' = files w
  | Some (FsEvent e) =>
      if is_kubelet_restart e then nx = Continue true (Some mgr) /\ all_stopped E w w'
      else nx = Continue false (Some mgr) /\ plugins w' = plugins w /\ servers w' = servers w /\ files w' = files w
  | Some (Signal sig) =>
      nx = (if sig =? SIGHUP then Continue true (Some mgr) else Return) /\ all_stopped E w w'
  end.

Lemma ready_stop mgr w w0 :
  ready n mgr w -> inv w0 -> plugins w0 = plugins w -> chans w0 = chans w -> files w0 = files w ->
  wpM E (stop_manager (Some mgr)) w0 (fun _ w' => all_stopped E w w') no_halt.
Proof.
  intros (k & -> & _ & Hidle & Hps) Hinv Hpl Hch Hf. unfold stop_manager, deref. wp_steps.
  eapply wpM_mono; [apply stop_spec; [done| |]| |done].
  - intros p x. rewrite Hpl. by apply Hidle.
  - intros p (i & dev & Hi & ->)%manager_at_elem. rewrite Hpl. destruct (Hps i dev Hi) as (x & -> & _). eauto.
  - intros _ w' (Hinv' & Hidle' & Hst). split; [done|]. split; [done|]. intros p x. rewrite <- Hpl. by apply Hst.
Qed.

Lemma ready_clean mgr w w' : ready n mgr w -> all_stopped E w w' -> clean E w'.
Proof.
  intros (k & _ & _ & _ & Hps) (Hinv & Hidle & Hst). split; [done|]. split; [done|].
  intros Hrm dev (i & Hi)%list_elem_of_lookup. destruct (Hps i dev Hi) as (x & Hx & Hsd & Hrun & _).
  change (unixSockPath (new_plugin dev 0 0)) with (unixSockPath (new_plugin dev n (k + i))).
  rewrite (same_device_path _ _ Hsd). by apply (Hst (k + i)%nat x).
Qed.

Lemma serve_event_spec mgr w :
  ready n mgr w ->
  wpM E (serve_event (Some mgr)) w
    (fun nx w' => event_result mgr w (next_event E (clock w)) nx w' /\
       match nx with Continue r m => loop_inv n r m w' | Return => clean E w' end)
    (fun h w' => h = HBlock /\ next_event E (clock w) = None).
Proof.
  intros Hready. pose proof Hready as (k & Hk & Hinv & Hidle & Hps). unfold serve_event. wp_steps.
  assert (forall w', plugins w' = plugins w -> chans w' = chans w -> servers w' = servers w ->
    listeners w' = listeners w -> files w' = files w -> ready n mgr w') as Hquiet.
  { intros w' Hpl Hch Hsrv Hls Hf. exists k. split; [done|]. split; [by eapply inv_quiet|].
    split; [intros p x; rewrite Hpl; apply Hidle|]. intros i dev Hi. rewrite Hpl. by apply Hps. }
  set (w0 := with_trace _ _).
  assert (forall r : next, wpM E (stop_manager (Some mgr) ≫= (fun _ => mret r)) w0
    (fun nx w' => nx = r /\ all_stopped E w w') no_halt) as Hstop.
  { intros r. wp_step. eapply wpM_mono; [apply (ready_stop mgr w); try done; by eapply (inv_quiet w)| |done].
    cbv beta. intros _ w' Hst. by wp_step. }
  destruct (next_event E (clock w)) as [[err|e|sig]|]; simpl.
  - wp_steps. split; [done|]. exists mgr. split; [done|]. by apply Hquiet.
  - destruct (is_kubelet_restart e).
    + eapply wpM_mono; [apply (Hstop (Continue true (Some mgr)))| |done]. intros nx w' [-> Hst].
      split; [done|]. by destruct Hst as (? & ? & _).
    + wp_steps. split; [done|]. exists mgr. split; [done|]. by apply Hquiet.
  - destruct (sig =? SIGHUP).
    + eapply wpM_mono; [apply (Hstop (Continue true (Some mgr)))| |done]. intros nx w' [-> Hst].
      split; [done|]. by destruct Hst as (? & ? & _).
    + eapply wpM_mono; [apply (Hstop Return)| |done]. intros nx w' [-> Hst].
      split; [done|]. by eapply ready_clean.
  - done.
Qed.

Lemma main_round_spec restart mgr w :
  loop_inv n restart mgr w ->
  wpM E (main_round restart mgr) w
    (fun nx w' => match nx with Continue r m => loop_inv n r m w' | Return => clean E w' end) exits.
Proof.
  unfold main_round, loop_inv at 1. intros Hinv. destruct restart.
  - destruct Hinv as [Hinv Hidle]. wp_step. eapply wpM_mono; [by apply bring_up_spec| |done].
    intros [m [|]] w1 Hw1; simpl in *.
    + eapply wpM_mono; [by apply serve_event_spec|by intros nx w' [_ H]|]. intros h w' [-> _]. by right.
    + by wp_step.
  - destruct Hinv as (m & -> & Hready).
    eapply wpM_mono; [by apply serve_event_spec|by intros nx w' [_ H]|]. intros h w' [-> _]. by right.
Qed.

Lemma main_loop_spec fuel restart mgr w :
  loop_inv n restart mgr w ->
  wpM E (main_loop fuel restart mgr) w (fun _ w' => clean E w')
    (fun h w' => exits h w' \/ h = HFuel).
Proof.
  revert restart mgr w. induction fuel as [|fuel IH]; intros restart mgr w Hinv; simpl; [by right|].
  wp_step. eapply wpM_mono; [by apply main_round_spec| |by left].
  intros [r m|] w' Hw'; [by apply IH|by wp_step].
Qed.
End specs.
