(* ===== verification/MainProps.v ===== *)
(** * The service as a whole

    The invariant of the loop's reachable states, that the process does not panic
    in its main goroutine, its shutdown, the handling of events, the fate of the
    pid file, what happens while the kubelet refuses, and that the service does
    shut down when it is told to. *)

From stdpp Require Import base list strings gmap relations.
From Stdlib Require Import ZArith Strings.Byte Lia.
From S2P Require Import Prelude GoStrings Wire Api ApiRegistry GrpcStatus.
From S2P Require Import GrpcTransport GrpcRpc GrpcCodec GrpcServer ApiService World.
From S2P Require Import Plugin PluginSpec ManagerSpec PluginLifecycle Main.
From S2P Require Import MainSpec Frame.
Open Scope Z_scope.

(** ** Reachable states of the loop *)

(** A state of the loop between two rounds. *)
Definition loop_state : Type := bool * option DevicePluginManager * world.

Inductive loop_step (E : env) : loop_state -> loop_state -> Prop :=
| loop_round restart mgr w restart' mgr' w' :
    main_round restart mgr E w = Ret (Continue restart' mgr') w' ->
    loop_step E (restart, mgr, w) (restart', mgr', w').

Lemma loop_step_inv E : env_ok E -> 0 <= num_cpu E -> forall s s',
  loop_step E s s' -> loop_inv (num_cpu E) s.1.1 s.1.2 s.2 -> loop_inv (num_cpu E) s'.1.1 s'.1.2 s'.2.
Proof.
  intros HE Hn s s' [restart mgr w restart' mgr' w' Hr] Hinv. simpl in *.
  pose proof (main_round_spec E HE Hn restart mgr w Hinv) as Hw. unfold wpM in Hw. by rewrite Hr in Hw.
Qed.


(** ** The whole of main *)

Lemma inv_idle w w' :
  inv w -> idle w -> plugins w' = plugins w -> chans w' = chans w -> inv w' /\ idle w'.
Proof.
  intros [I1 I2 I3 I4 I5] Hidle Hpl Hch.
  assert (idle w') as Hidle' by (intros p x; rewrite Hpl; apply Hidle).
  split; [|done]. constructor; rewrite ?Hpl, ?Hch; try done.
  intros p x s Hp Hs. rewrite (Hidle p x Hp) in Hs. done.
Qed.

(** Only the trace, the clock and the files change. *)
Definition same_heaps (w w' : world) : Prop := plugins w' = plugins w /\ chans w' = chans w.

Lemma newFsWatcher_spec E fs w :
  wpM E (newFsWatcher fs) w (fun _ w' => same_heaps w w' /\ files w' = files w) no_halt.
Proof.
  unfold newFsWatcher. wp_steps. destruct (new_watcher_ok E (clock w)); [|by wp_steps].
  assert (forall fs w1, same_heaps w w1 /\ files w1 = files w ->
    wpM E (add_watches fs) w1 (fun _ w' => same_heaps w w' /\ files w' = files w) no_halt) as Hadd; [|by apply Hadd].
  clear fs. induction fs as [|f fs IH]; intros w1 Hw1; simpl; wp_steps; [done|].
  destruct (watch_ok E _); wp_steps; [apply IH|]; done.
Qed.

Lemma createPidFile_spec E w :
  wpM E createPidFile w (fun r w' => same_heaps w w' /\ (r = None -> files w' = <[pidFile := Itoa (pid E)]> (files w)))
    no_halt.
Proof.
  unfold createPidFile. wp_steps. destruct (create_ok E (clock w)); [|by wp_steps].
  wp_steps. destruct (write_ok E _); wp_steps; [|done]. split; [done|]. intros _. simpl. by rewrite insert_insert_eq.
Qed.

(** [main] ends in these ways: it returns, cleanly; or it exits with code 1; or
    nothing ever happens again; or the fuel is used up. *)
Lemma main_spec E fuel w :
  env_ok E -> 0 <= num_cpu E -> (forall n cmd, reads_ok (command E n cmd)) -> inv w -> idle w ->
  wpM E (main fuel) w (fun _ w' => clean E w' /\
      ((forall n, remove_ok E n = true) -> files w' !! pidFile = None) /\
      exists t, trace w' = t ++ [TRemove pidFile; TCloseWatcher])
    (fun h _ => h = HExit 1 \/ h = HBlock \/ h = HFuel).
Proof.
  intros HE Hn Hreads Hinv Hidle. unfold main, appIsRunning. wp_steps.
  destruct (_ || _); [unfold log_Fatal; wp_steps; by left|]. wp_steps.
  eapply wpM_mono; [by apply initHostDevice_spec| |done]. cbv beta. intros [e|] w1 [-> _];
    [unfold log_Fatal; wp_steps; by left|].
  wp_step. eapply wpM_mono; [by apply newFsWatcher_spec| |done]. cbv beta.
  intros [e|] w2 [Hw2 _]; [unfold log_Fatal; wp_steps; by left|].
  unfold main_watching. apply wpM_deferring. unfold newOsWatcher. wp_steps.
  eapply wpM_mono; [by apply createPidFile_spec| |done]. cbv beta. intros [e|] w3 [Hw3 _].
  { unfold log_Fatal. wp_steps. by left. }
  destruct (inv_idle w w3 Hinv Hidle) as [Hinv3 Hidle3]; [destruct Hw2 as [Hp2 Hc2], Hw3 as [Hp3 Hc3]; simpl in *; congruence..|].
  unfold main_service. apply wpM_deferring.
  eapply wpM_mono; [by apply (main_loop_spec E HE Hn fuel true None w3)|..]; cbv beta.
  - intros _ w4 (Hinv4 & Hidle4 & Hgone). unfold deletePidFile. apply wpM_os_Remove. intros fs Hfs Hrm. wp_steps.
    assert (forall path, files w4 !! path = None -> fs !! path = None) as Hdel.
    { intros path Hp. destruct Hfs as [->| ->]; [done|]. apply lookup_delete_None. by right. }
    split; [|split].
    + split; [|split]; [by eapply (inv_idle w4)..|]. intros Hr dev Hdev. simpl. by apply Hdel, Hgone.
    + intros Hr. simpl. rewrite Hrm by apply Hr. by apply lookup_delete_eq.
    + simpl. exists (trace w4). by rewrite <- app_assoc.
  - intros h w4 [[->| ->]| ->]; auto.
Qed.

(** C2: The main goroutine of the service never panics, whatever fails and whatever
    events arrive in whatever order: it returns, exits with code 1, or waits. *)
Theorem main_never_panics E fuel w :
  env_ok E -> 0 <= num_cpu E -> (forall n cmd, reads_ok (command E n cmd)) -> inv w -> idle w ->
  wpM E (main fuel) w (fun _ _ => True) (fun h _ => h = HExit 1 \/ h = HBlock \/ h = HFuel).
Proof. intros. eapply wpM_mono; [by apply main_spec|done|done]. Qed.

(** C18: When [main] returns, the service has shut down: no plugin runs, and, if files can
    be removed, the sockets and the pid file are gone; the last thing it did is
    to remove the pid file and to close the watcher, in this order. *)
Theorem main_shutdown E fuel w w' :
  env_ok E -> 0 <= num_cpu E -> (forall n cmd, reads_ok (command E n cmd)) -> inv w -> idle w ->
  main fuel E w = Ret tt w' ->
  idle w' /\
  ((forall n, remove_ok E n = true) ->
     files w' !! pidFile = None /\
     forall dev, dev ∈ devList -> files w' !! unixSockPath (new_plugin dev 0 0) = None) /\
  exists t, trace w' = t ++ [TRemove pidFile; TCloseWatcher].
Proof.
  intros HE Hn Hr Hinv Hidle Hret. pose proof (main_spec E fuel w HE Hn Hr Hinv Hidle) as Hw.
  unfold wpM in Hw. rewrite Hret in Hw. destruct Hw as ((_ & Hi & Hg) & Hp & Ht). auto.
Qed.

(** ** Events *)

(** C19: What the loop does with what it receives.  An error of the watcher, and any
    event but the creation of the kubelet's socket, changes nothing.  The creation
    of the kubelet's socket and SIGHUP stop every plugin and restart; any other
    signal stops every plugin and ends the service. *)
Theorem serve_event_correct E mgr w ev :
  env_ok E -> 0 <= num_cpu E -> ready (num_cpu E) mgr w -> next_event E (clock w) = Some ev ->
  wpM E (serve_event (Some mgr)) w (fun nx w' =>
    let quiet := nx = Continue false (Some mgr) /\ plugins w' = plugins w /\ servers w' = servers w /\ files w' = files w in
    match ev with
    | FsError _ => quiet
    | FsEvent e =>
        if bool_decide (Event_Name e = KubeletSocket) && Z.testbit (Event_Op e) 0
        then nx = Continue true (Some mgr) /\ all_stopped E w w' else quiet
    | Signal sig => nx = (if sig =? SIGHUP then Continue true (Some mgr) else Return) /\ all_stopped E w w'
    end) no_halt.
Proof.
  intros HE Hn Hready Hev. eapply wpM_mono; [by apply serve_event_spec| |]; cbv beta.
  - intros nx w' [Hres _]. rewrite Hev in Hres. destruct ev as [err|e|sig]; try done. unfold event_result in Hres.
    assert (is_kubelet_restart e = bool_decide (Event_Name e = KubeletSocket) && Z.testbit (Event_Op e) 0) as <-; [|done].
    unfold is_kubelet_restart, Fsnotify.fsnotify.Create. f_equal. change 1 with (Z.ones 1). rewrite Z.land_ones by lia.
    by rewrite Z.bit0_eqb.
  - intros h w' [_ Hnone]. by rewrite Hev in Hnone.
Qed.

(** ** The pid file *)

Definition not_create (a : trace_event) : Prop := match a with TCreate _ => False | _ => True end.

Lemma quiet_not_create a : quiet a -> not_create a.
Proof. by destruct a. Qed.

Section rounds.
Context (K : trace_event -> Prop) (HK : forall a, quiet a -> K a) (HS : forall ev, K (TSelect ev)) (E : env).
Hint Extern 2 (K (TSelect _)) => apply HS : core.
Hint Extern 3 (forall a, quiet a -> K a) => exact HK : framed.

Lemma framed_serve_event mgr : framed K E (serve_event mgr).
Proof. unfold serve_event. framed. Qed.

Lemma framed_main_loop fuel restart mgr : framed K E (main_loop fuel restart mgr).
Proof.
  revert restart mgr. induction fuel as [|fuel IH]; intros; simpl; [apply framed_halts|].
  apply framed_bind; [|intros [? ?|]; [apply IH|apply framed_ret]]. unfold main_round.
  destruct restart; [|apply framed_serve_event]. apply framed_bind; [by apply framed_bring_up|].
  intros [m [|]]; [apply framed_serve_event|apply framed_ret].
Qed.
End rounds.

(** If the process created the pid file, it is there. *)
Definition pid_ok (w : world) : Prop :=
  base w /\ (TCreate pidFile ∈ trace w -> is_Some (files w !! pidFile)).

Lemma pid_ok_frame w w' : pid_ok w -> frame_rel not_create w w' -> pid_ok w'.
Proof.
  intros [_ Hp] (Hb & Hf & _ & t & Ht & HK). split; [done|]. rewrite Hf, Ht.
  intros [Hin|Hin]%elem_of_app; [auto|]. rewrite Forall_forall in HK. by apply HK in Hin.
Qed.

(** The pid file is never lost by an exit. *)
Definition kept_on_exit (h : halt) (w : world) : Prop := h = HExit 1 -> pid_ok w.

Lemma framed_pid_ok {A} E (x : M A) w :
  framed not_create E x -> pid_ok w -> wpM E x w (fun _ w' => pid_ok w') kept_on_exit.
Proof.
  intros Hx Hp. eapply wpM_mono; [apply Hx, Hp|..]; cbv beta; [|intros ? ? ? ?]; intros; by eapply pid_ok_frame.
Qed.

Lemma pid_ok_createPidFile E w :
  pid_ok w -> wpM E createPidFile w (fun _ w' => pid_ok w') kept_on_exit.
Proof.
  intros [Hb Hp]. unfold createPidFile. wp_steps. destruct (create_ok E (clock w)); wp_steps; [|done].
  destruct (write_ok E _); wp_steps; (split; [done|]); intros _; simpl; rewrite lookup_insert_eq; by eexists.
Qed.

Lemma wpM_deletePidFile E w : wpM E deletePidFile w (fun _ _ => True) no_halt.
Proof. unfold deletePidFile. apply wpM_os_Remove. done. Qed.

Lemma main_pid_ok E fuel w : pid_ok w -> wpM E (main fuel) w (fun _ _ => True) kept_on_exit.
Proof.
  intros Hp. assert (forall {A} msg w, pid_ok w -> wpM E (log_Fatal (A:=A) msg) w (fun _ _ => True) kept_on_exit) as Hfatal.
  { intros A msg w1 Hp1. eapply wpM_mono; [apply framed_pid_ok; [apply framed_log_Fatal, quiet_not_create|done]|done|done]. }
  unfold main, appIsRunning. wp_steps. destruct (_ || _); [by apply Hfatal|]. wp_steps.
  eapply wpM_mono; [by apply framed_pid_ok; [apply framed_initHostDevice, quiet_not_create|]| |done]. cbv beta.
  intros [e|] w1 Hp1; [by apply Hfatal|]. wp_step.
  eapply wpM_mono; [by apply framed_pid_ok; [apply framed_newFsWatcher, quiet_not_create|]| |done]. cbv beta.
  intros [e|] w2 Hp2; [by apply Hfatal|]. unfold main_watching, newOsWatcher. apply wpM_deferring.
  eapply wpM_mono with (Q := fun _ _ => True) (X := kept_on_exit).
  - wp_step. eapply wpM_mono; [by apply framed_pid_ok; [apply framed_emit|]| |done]. cbv beta. intros _ w3 Hp3.
    wp_step. eapply wpM_mono; [by apply pid_ok_createPidFile| |done]. cbv beta. intros [e|] w4 Hp4; [by apply Hfatal|].
    unfold main_service. apply wpM_deferring.
    eapply wpM_mono; [apply framed_pid_ok; [by apply framed_main_loop; [apply quiet_not_create|]|done]|..]; cbv beta.
    + intros _ w5 _. by eapply wpM_mono; [apply wpM_deletePidFile|done|].
    + intros [code| | |] w5 Hw5; try done. by eapply wpM_mono; [apply wpM_deletePidFile|done|].
  - intros _ w3 _. by wp_step.
  - intros [code| | |] w3 Hw3; done.
Qed.

(** C32: The pid file outlives a fatal error: when the service dies of one after it
    created the pid file, the file is not removed, and the next start on the same
    host exits at once, before anything but saying that the service is running. *)
Theorem fatal_blocks_next_start E fuel fs w' :
  main fuel E (new_world fs) = Halt (HExit 1) w' -> TCreate pidFile ∈ trace w' ->
  forall E' fuel' w2, files w2 = files w' ->
    main fuel' E' w2 = Halt (HExit 1) (with_trace (fun t => t ++ [TFatal "app is running."]) (tick w2)).
Proof.
  intros Hmain Hin E' fuel' w2 Hfs.
  assert (pid_ok (new_world fs)) as Hp by (split; [by split|by intros ?%not_elem_of_nil]).
  pose proof (main_pid_ok E fuel _ Hp) as Hw. unfold wpM in Hw. rewrite Hmain in Hw.
  destruct (proj2 (Hw eq_refl) Hin) as [s Hs].
  unfold main, appIsRunning, ask, gets, mbind, M_bind. simpl. rewrite Hfs, Hs, orb_true_r. done.
Qed.
