(* ===== verification/MainLive.v ===== *)
(** * The service and the kubelet over time

    While the kubelet refuses every registration the service serves no event; and
    once the kubelet accepts and a terminating signal has arrived, the service
    shuts down: [main] returns, within a number of rounds that is known beforehand. *)

From stdpp Require Import base list strings gmap relations.
From Stdlib Require Import ZArith Strings.Byte Lia.
From S2P Require Import Prelude GoStrings Wire Api ApiRegistry GrpcStatus.
From S2P Require Import GrpcTransport GrpcRpc GrpcCodec GrpcServer ApiService World.
From S2P Require Import Plugin PluginSpec ManagerSpec PluginLifecycle Main.
From S2P Require Import Frame MainSpec MainProps.
Open Scope Z_scope.

Lemma framed_register_all K E mgr : (forall a, quiet a -> K a) -> framed K E (register_all mgr).
Proof.
  intros HK. unfold register_all, time_Sleep. apply framed_bind; [by apply framed_manager_registerToKubelet|].
  intros [e|]; [|apply framed_ret]. apply framed_bind; [by apply framed_manager_stopGrpcServer|intros].
  apply framed_bind; [apply framed_emit; by apply HK|intros; apply framed_ret].
Qed.

(** ** A kubelet that refuses *)

Definition no_select (a : trace_event) : Prop := match a with TSelect _ => False | _ => True end.

Lemma quiet_no_select a : quiet a -> no_select a.
Proof. by destruct a. Qed.

(** Nothing was received yet. *)
Definition unserved (w : world) : Prop := base w /\ Forall no_select (trace w).

Lemma unserved_frame w w' : unserved w -> frame_rel no_select w w' -> unserved w'.
Proof. intros [_ Hs] (Hb & _ & _ & t & Ht & HK). split; [done|]. rewrite Ht. by apply Forall_app. Qed.

Lemma framed_unserved {A} E (x : M A) w :
  framed no_select E x -> unserved w -> wpM E x w (fun _ w' => unserved w') (fun _ w' => unserved w').
Proof. intros Hx Hw. eapply wpM_mono; [apply Hx, Hw|..]; cbv beta; intros; by eapply unserved_frame. Qed.

Lemma framed_mono {A} (K K' : trace_event -> Prop) E (x : M A) :
  (forall a, K a -> K' a) -> framed K E x -> framed K' E x.
Proof.
  intros HK Hx w Hb. eapply wpM_mono; [by apply Hx|..]; cbv beta; intros ? w' (? & ? & ? & t & ? & Ht);
    (split; [done|split; [done|split; [done|]]]; exists t; split; [done|]; by eapply Forall_impl).
Qed.

Lemma stable_unserved E : stable E unserved.
Proof. intros A x w Hx Hw. apply framed_unserved; [|done]. eapply framed_mono; [apply quiet_no_select|done]. Qed.

Section refused.
Context (E : env).
Hypothesis Hrefuse : forall n, dial E n KubeletSocket = None.

Lemma registerToKubelet_refused p w :
  wpM E (plugin_registerToKubelet p) w (fun r _ => r <> None) no_halt.
Proof.
  unfold plugin_registerToKubelet. wp_step. apply wpM_connectGrpcServer. intros conn ->. rewrite Hrefuse. by wp_step.
Qed.

(** Stopping never blocks. *)
Lemma stopGrpcServer_no_block mgr w : wpM E (manager_stopGrpcServer mgr) w (fun _ _ => True) (fun h _ => h = HPanic).
Proof.
  unfold manager_stopGrpcServer. apply (wpM_iter_each E _ (fun _ _ => True) _ _ (fun h _ => h = HPanic)); [done|].
  intros p l w1 _. unfold plugin_stopGrpcServer, get_plugin, close_chan. wp_steps.
  destruct (plugins w1 !! p) as [x|]; unfold deref; [wp_step|done]. destruct (gRpcServer x) as [s|]; [|by wp_step].
  wp_steps. destruct (servers w1 !! s) as [srv|]; [wp_step|done]. unfold Stop. wp_steps.
  destruct (chans _ !! _) as [[|]|]; unfold deref; [wp_step; done| |done]. wp_steps. by apply wpM_os_Remove.
Qed.

Lemma register_all_refused w0 mgr w :
  started E w0 mgr w -> wpM E (register_all mgr) w (fun r _ => r.2 = false) (fun h _ => h = HPanic).
Proof.
  intros (-> & _ & Hps). set (k := length (plugins w0)) in *. destruct (Hps k) as (x & Hx & Hr); [by left|].
  unfold register_all. wp_step. unfold manager_registerToKubelet. simpl. do 2 wp_step.
  eapply wpM_get_plugin; [done|]. rewrite Hr.
  eapply wpM_mono; [apply registerToKubelet_refused| |done]. cbv beta. intros [e|] w1 Hw1; [|done]. wp_steps.
  eapply wpM_mono; [apply stopGrpcServer_no_block| |done]. cbv beta. intros _ w2 _. unfold time_Sleep. by wp_steps.
Qed.

Context (HE : env_ok E) (Hn : 0 <= num_cpu E).

Lemma main_loop_refused fuel mgr w :
  inv w -> idle w -> unserved w ->
  wpM E (main_loop fuel true mgr) w (fun _ _ => False) (fun h w' => (h = HFuel \/ h = HExit 1) /\ unserved w').
Proof.
  revert mgr w. induction fuel as [|fuel IH]; intros mgr w Hinv Hidle Hw; simpl; [split; [by left|done]|].
  wp_step. unfold main_round. wp_step.
  eapply (wpM_bring_up E HE Hn unserved); [apply stable_unserved|done|done|done|intros w' Hw' _; split; [by right|done]|].
  intros m w2 Hw2 Hst. eapply wpM_mono; [apply wpM_and; [apply wpM_and; [by eapply register_all_refused|
    by apply framed_unserved; [by apply framed_register_all, quiet_no_select|]]|by eapply register_all_spec]|..]; cbv beta.
  - intros [m' [|]] w3 [[Hr Hw3] Hs]; [done|]. destruct Hs as [Hinv3 Hidle3]. wp_step. by apply IH.
  - intros h w3 [[-> _] [=]].
Qed.
End refused.

Lemma createPidFile_unserved E w : unserved w -> wpM E createPidFile w (fun _ w' => unserved w') no_halt.
Proof.
  intros [Hb Ht]. assert (Forall no_select (trace w ++ [TCreate pidFile])) by (apply Forall_app; by repeat constructor).
  unfold createPidFile. wp_steps. destruct (create_ok E (clock w)); wp_steps; [|done].
  by destruct (write_ok E _); wp_steps.
Qed.

(** As long as the kubelet cannot be reached, the service never receives an event: it
    goes on restarting its plugins until the process is killed or a server cannot
    be started, and in particular no SIGTERM stops it. *)
Theorem refused_never_serves E fuel fs :
  env_ok E -> 0 <= num_cpu E -> (forall n cmd, reads_ok (command E n cmd)) ->
  (forall n, dial E n KubeletSocket = None) ->
  wpM E (main fuel) (new_world fs) (fun _ _ => False)
    (fun h w' => (h = HFuel \/ h = HExit 1) /\ Forall no_select (trace w')).
Proof.
  intros HE Hn Hreads Hrefuse.
  assert (unserved (new_world fs)) as Hw by (split; [by split|by apply Forall_nil]).
  set (X := fun (h : halt) w' => (h = HFuel \/ h = HExit 1) /\ unserved w').
  enough (wpM E (main fuel) (new_world fs) (fun _ _ => False) X) as Hgoal.
  { eapply wpM_mono; [exact Hgoal|done|]. intros h w' [Hh [_ Ht]]. done. }
  assert (forall {A} msg w Q, unserved w -> wpM E (log_Fatal (A:=A) msg) w Q X) as Hfatal.
  { intros A msg w Q [Hb Ht]. unfold log_Fatal. wp_step. split; [by right|]. split; [done|]. simpl.
    apply Forall_app. by repeat constructor. }
  unfold main, appIsRunning. wp_steps. destruct (_ || _); [by apply Hfatal|]. wp_steps.
  eapply wpM_mono; [apply wpM_and; [apply initHostDevice_spec, Hreads|
    by apply framed_unserved; [apply framed_initHostDevice, quiet_no_select|]]| |by intros h w' [[] _]].
  cbv beta. intros [e|] w1 [[-> _] Hw1]; [by apply Hfatal|]. wp_step.
  eapply wpM_mono; [apply wpM_and; [apply newFsWatcher_spec|
    by apply framed_unserved; [apply framed_newFsWatcher, quiet_no_select|]]| |by intros h w' [[] _]].
  cbv beta. intros [e|] w2 [[[Hp2 Hc2] _] Hw2]; [by apply Hfatal|]. unfold main_watching, newOsWatcher.
  apply wpM_deferring. eapply wpM_mono with (Q := fun _ _ => False) (X := X); [|done|].
  2:{ intros h w' [[->| ->] Hw']; split; auto. }
  wp_step. apply wpM_emit.
  assert (unserved (with_trace (fun t => t ++ [TNotify]) w2)) as Hw2'.
  { destruct Hw2 as [Hb Ht]. split; [done|]. simpl. apply Forall_app. by repeat constructor. }
  wp_step. eapply wpM_mono; [apply wpM_and; [by apply createPidFile_spec|by apply createPidFile_unserved]|
    |by intros h w' [[] _]]. cbv beta. intros [e|] w3 [[[Hp3 Hc3] _] Hw3]; [by apply Hfatal|].
  destruct (inv_idle (new_world fs) w3) as [Hinv3 Hidle3];
    [apply new_world_inv|apply new_world_idle|simpl in *; congruence..|].
  unfold main_service. apply wpM_deferring.
  eapply wpM_mono; [by apply (main_loop_refused E Hrefuse HE Hn fuel None w3)|done|]. cbv beta.
  intros h w4 [[->| ->] Hw4]; split; auto.
Qed.

(** ** A kubelet that accepts, and a signal *)

(** From time [T] on the kubelet accepts and the signal [sig] is pending; at any time
    sockets can be created and removed and are dialled, a call returns, and
    something happens eventually. *)
Record obliging (E : env) (T : nat) (sig : Z) : Prop := {
  ob_listen n : listen_ok E n = true;
  ob_remove n : remove_ok E n = true;
  ob_dial n path : path <> KubeletSocket -> is_Some (dial E n path);
  ob_returns n path conn method x t y : dial E n path = Some conn ->
    match conn method x t y with Ok _ | Err (Raise _) => True | _ => False end;
  ob_accepts n : (T <= n)%nat -> exists conn, dial E n KubeletSocket = Some conn /\
    forall method x t y, exists z, conn method x t y = Ok z;
  ob_happens n : is_Some (next_event E n);
  ob_signal n : (T <= n)%nat -> next_event E n = Some (Signal sig);
  ob_terminating : sig <> SIGHUP;
}.

Section obliging.
Context (E : env) (T : nat) (sig : Z) (HO : obliging E T sig) (Hn : 0 <= num_cpu E).

Lemma obliging_env_ok : env_ok E.
Proof.
  intros n path conn Hd method x t y. pose proof (ob_returns E T sig HO n path conn method x t y Hd) as Hr.
  by destruct (conn method x t y) as [|[]| |].
Qed.

(** The state at or after time [c]. *)
Definition after (c : nat) (w : world) : Prop := base w /\ (c <= clock w)%nat.

Lemma stable_after c : stable E (after c).
Proof.
  intros A x w Hx [Hb Hc]. eapply wpM_mono; [by apply Hx|..]; cbv beta; intros ? w' (Hb' & _ & Hc' & _);
    (split; [done|lia]).
Qed.

(** A socket that can be removed can be created again. *)
Lemma startGrpcServer_succeeds p w e w' : base w -> plugin_startGrpcServer p E w <> Ret (Some e) w'.
Proof.
  intros Hb Hr. assert (wpM E (plugin_startGrpcServer p) w (fun r _ => r = None) (fun _ _ => True)) as Hw;
    [|unfold wpM in Hw; by rewrite Hr in Hw]. clear Hr.
  unfold plugin_startGrpcServer. wp_step. unfold get_plugin. wp_steps.
  destruct (plugins w !! p) as [x|] eqn:Hp; [|done]. unfold deref. wp_steps. apply wpM_os_Remove.
  intros fs _ Hrm. wp_step. unfold net_Listen. do 4 wp_step.
  rewrite (ob_listen E T sig HO). cbn [files tick with_files]. rewrite (Hrm (ob_remove E T sig HO _)), lookup_delete_eq. wp_steps.
  apply wpM_run_res. rewrite NewServer_registered. cbv beta iota. wp_steps.
  apply wpM_connectGrpcServer. intros conn ->. destruct (proj2 Hb p x Hp) as [_ Hpath].
  match goal with |- context [dial E ?n ?path] => destruct (ob_dial E T sig HO n path Hpath) as [conn ->] end.
  by wp_steps.
Qed.

Lemma registerToKubelet_accepted p w :
  wpM E (plugin_registerToKubelet p) w (fun r _ => (T <= clock w)%nat -> r = None) (fun h _ => h = HPanic).
Proof.
  unfold plugin_registerToKubelet. wp_step. apply wpM_connectGrpcServer. intros conn Hconn.
  destruct conn as [conn|].
  2:{ wp_step. intros HT. destruct (ob_accepts E T sig HO (clock w) HT) as (conn & Hc & _). congruence. }
  apply wpM_deferring. wp_step. unfold get_plugin. wp_steps. destruct (plugins _ !! p) as [x|]; unfold deref; [|by wp_steps].
  wp_steps. apply wpM_run_res. unfold registrationClient_Register.
  set (args := existT _ _ : sigT message).
  pose proof (ob_returns E T sig HO _ _ conn "/v1beta1.Registration/Register" args TEmpty Empty_Reset (eq_sym Hconn)) as Hret.
  destruct (conn _ args _ _) as [z|[e| |code]| |] eqn:Hz; try done; wp_steps.
  intros HT. destruct (ob_accepts E T sig HO (clock w) HT) as (conn' & Hc & Hok).
  destruct (Hok "/v1beta1.Registration/Register"%string args TEmpty Empty_Reset) as [z Hz']. congruence.
Qed.

Lemma manager_registerToKubelet_accepted mgr w :
  base w -> wpM E (manager_registerToKubelet mgr) w (fun r _ => (T <= clock w)%nat -> r = None) (fun h _ => h = HPanic).
Proof.
  intros Hb. set (late := fun w' => base w' /\ ((T <= clock w)%nat -> (T <= clock w')%nat)).
  eapply wpM_mono; [apply (wpM_each E _ (fun _ => late) (fun _ => ~ (T <= clock w)%nat) _ _ (fun h _ => h = HPanic))| |done].
  - by split.
  - clear Hb. intros p l w1 [Hb Hlate].
    assert (wpM E (plugin_registerToKubelet p) w1 (fun r w' => if r is Some _ then ~ (T <= clock w)%nat else late w')
      (fun h _ => h = HPanic)) as Hreg.
    { eapply wpM_mono; [apply wpM_and; [apply registerToKubelet_accepted|
        by apply (framed_plugin_registerToKubelet quiet (fun a H => H))]| |by intros h w' [-> _]].
      cbv beta. intros [e|] w2 [Hr (Hb2 & _ & Hc2 & _)].
      - intros HT. by specialize (Hr (Hlate HT)).
      - split; [done|]. intros HT. specialize (Hlate HT). lia. }
    unfold get_plugin. wp_steps. destruct (plugins w1 !! p) as [x|]; unfold deref; [|done]. wp_step.
    destruct (isRigistered x); [by wp_step|done].
  - cbv beta. intros [e|] w2 H; [by intros HT|done].
Qed.

Lemma register_all_accepted w0 mgr w : base w -> started E w0 mgr w ->
  wpM E (register_all mgr) w (fun r _ => (T <= clock w)%nat -> r.2 = true) no_halt.
Proof.
  intros Hb Hst. enough (wpM E (register_all mgr) w (fun r _ => (T <= clock w)%nat -> r.2 = true) (fun h _ => h = HPanic)) as Hg.
  { eapply wpM_mono; [apply wpM_and; [exact Hg|by apply (register_all_spec E obliging_env_ok Hn w0)]|..]; cbv beta.
    - by intros r w' [H _].
    - intros h w' [-> [=]]. }
  unfold register_all. wp_step. eapply wpM_mono; [by apply manager_registerToKubelet_accepted| |done].
  cbv beta. intros [e|] w1 Hr; wp_steps; [|done].
  eapply wpM_mono; [apply stopGrpcServer_no_block| |done]. cbv beta. intros _ w2 _. unfold time_Sleep. wp_steps.
  intros HT. by specialize (Hr HT).
Qed.
(** Every round of the loop takes time. *)
Lemma ask_then_framed {A B} (f : env -> nat -> A) (g : A -> M B) w :
  (forall a, framed (fun _ => True) E (g a)) -> base w ->
  wpM E (ask f ≫= g) w (fun _ w' => base w' /\ (S (clock w) <= clock w')%nat) (fun _ _ => True).
Proof.
  intros Hg Hb. do 2 wp_step. eapply wpM_mono; [by apply Hg| |done]. cbv beta. intros b w' (Hb' & _ & Hc & _). done.
Qed.

Lemma serve_event_clock mgr w :
  base w -> wpM E (serve_event mgr) w (fun _ w' => base w' /\ (S (clock w) <= clock w')%nat) (fun _ _ => True).
Proof. intros Hb. unfold serve_event. apply ask_then_framed; [|done]. intros ev. framed. Qed.

Lemma bring_up_clock w :
  base w -> wpM E bring_up w (fun _ w' => base w' /\ (S (clock w) <= clock w')%nat) (fun _ _ => True).
Proof.
  intros Hb. unfold bring_up, time_Sleep. apply ask_then_framed; [|done]. intros ev.
  pose proof (fun mgr => framed_manager_startGrpcServer (fun _ => True) (fun _ _ => I) E mgr).
  pose proof (fun mgr => framed_manager_stopGrpcServer (fun _ => True) (fun _ _ => I) E mgr).
  pose proof (fun mgr => framed_manager_registerToKubelet (fun _ => True) (fun _ _ => I) E mgr).
  pose proof (framed_initPluginManager (fun _ => True) E ev). framed.
Qed.

Lemma bring_up_accepted w :
  base w -> inv w -> idle w -> wpM E bring_up w (fun r _ => (T <= clock w)%nat -> r.2 = true) no_halt.
Proof.
  intros Hb Hinv Hidle. apply (wpM_bring_up E obliging_env_ok Hn (after (clock w))); [apply stable_after|by split|done|done| |].
  - intros w' _ (p & e & w1 & w2 & [Hb1 _] & Hs). by apply startGrpcServer_succeeds in Hs.
  - intros mgr w2 [Hb2 Hc2] Hst. eapply wpM_mono; [by apply (register_all_accepted w)| |done].
    cbv beta. intros r w3 Hr HT. apply Hr. lia.
Qed.

Local Abbreviation n := (num_cpu E).

(** What a round from [w] achieves. *)
Definition progress (w : world) (nx : next) (w' : world) : Prop :=
  base w' /\ (S (clock w) <= clock w')%nat /\ ((T <= clock w)%nat -> nx = Return) /\
  match nx with Continue r m => loop_inv n r m w' | Return => True end.

Lemma serve_event_progress mgr w :
  base w -> ready n mgr w -> wpM E (serve_event (Some mgr)) w (progress w) no_halt.
Proof.
  intros Hb Hready. eapply wpM_mono; [apply wpM_and; [by apply serve_event_clock|
    by apply (serve_event_spec E obliging_env_ok Hn mgr)]|..]; cbv beta.
  - intros nx w' [[Hb' Hc] [Hev Hnx]]. split; [done|]. split; [done|]. split; [|by destruct nx].
    intros HT. rewrite (ob_signal E T sig HO) in Hev by done. destruct Hev as [-> _].
    pose proof (ob_terminating E T sig HO). zcases; done.
  - intros h w' [_ [_ Hnone]]. destruct (ob_happens E T sig HO (clock w)) as [ev Hev]. congruence.
Qed.

Lemma main_round_progress restart mgr w :
  base w -> loop_inv n restart mgr w -> wpM E (main_round restart mgr) w (progress w) no_halt.
Proof.
  intros Hb Hinv. unfold main_round, loop_inv in *. destruct restart.
  - destruct Hinv as [Hinv Hidle]. wp_step. eapply wpM_mono; [apply wpM_and; [by apply bring_up_clock|apply wpM_and;
      [by apply bring_up_accepted|by apply (bring_up_spec E obliging_env_ok Hn)]]| |by intros h w' [_ [[] _]]].
    cbv beta. intros [m registered] w1 [[Hb1 Hc1] [Hacc Hr]]. simpl in *. destruct registered.
    + eapply wpM_mono; [by apply serve_event_progress| |done]. intros nx w2 (Hb2 & Hc2 & Hnx & Hl).
      split; [done|]. split; [lia|]. split; [|done]. intros HT. apply Hnx. lia.
    + wp_step. split; [done|]. split; [lia|]. split; [|done]. intros HT. by specialize (Hacc HT).
  - destruct Hinv as (m & -> & Hready). by apply serve_event_progress.
Qed.

Lemma main_loop_returns fuel restart mgr w :
  base w -> loop_inv n restart mgr w -> (T - clock w < fuel)%nat ->
  wpM E (main_loop fuel restart mgr) w (fun _ _ => True) no_halt.
Proof.
  revert restart mgr w. induction fuel as [|fuel IH]; intros restart mgr w Hb Hinv Hfuel; simpl; [lia|].
  wp_step. eapply wpM_mono; [by apply main_round_progress| |done]. intros [r m|] w' (Hb' & Hc & HT & Hl); [|by wp_step].
  apply IH; [done|done|]. destruct (decide (T <= clock w)%nat) as [Hle|]; [by specialize (HT Hle)|lia].
Qed.
End obliging.

(** An environment in which the service can start. *)
Record startable (E : env) : Prop := {
  st_stat n : stat_error E n = false;
  st_command n cmd : cmd_Start (command E n cmd) = true /\ cmd_Wait (command E n cmd) = false;
  st_watcher n : new_watcher_ok E n = true;
  st_watch n : watch_ok E n = true;
  st_create n : create_ok E n = true;
  st_write n : write_ok E n = true;
}.


(** ** Witnesses *)

Definition sigterm_at (T : nat) : nat -> option main_event := fun n =>
  Some (if (n <? T)%nat then FsError (errorString "overflow") else Signal SIGTERM).

(** The kubelet is unreachable before time 60; after time 100 there is a SIGTERM. *)
Definition late_kubelet : env := host (fun _ => true) (fun n => (60 <=? n)%nat) (sigterm_at 100).

(** Sockets cannot be created. *)
Definition no_sockets : env := host (fun _ => false) (fun _ => true) (sigterm_at 0).

(** Everything succeeds; SIGTERM comes after a watcher error. *)
Definition accepting_events : env := host (fun _ => true) (fun _ => true) (sigterm_at 20).

Definition no_kubelet : env := host (fun _ => true) (fun _ => false) (sigterm_at 0).

Lemma host_reads listens kubelet events n cmd : reads_ok (command (host listens kubelet events) n cmd).
Proof. by constructor. Qed.

(** The first round ends with a manager in service, about to receive [ev]. *)
Definition first_round (E : env) (ev : main_event) : Prop :=
  match main_round true None E (new_world ∅) with
  | Ret (Continue false (Some _)) w => next_event E (clock w) = Some ev
  | _ => False
  end.

Lemma accepting_events_round : first_round accepting_events (Signal SIGTERM).
Proof. vm_compute. reflexivity. Qed.

Lemma first_round_ready E ev :
  env_ok E -> 0 <= num_cpu E -> first_round E ev ->
  exists mgr w, main_round true None E (new_world ∅) = Ret (Continue false (Some mgr)) w /\
    ready (num_cpu E) mgr w /\ next_event E (clock w) = Some ev.
Proof.
  intros HE Hn Hev.
  pose proof (main_round_spec E HE Hn true None (new_world ∅) (conj (new_world_inv ∅) (new_world_idle ∅))) as Hround.
  unfold wpM in Hround. unfold first_round in Hev.
  destruct (main_round true None E (new_world ∅)) as [[[|] [mgr|]|] w'|h w']; try done.
  destruct Hround as (m & [= <-] & Hready). by exists mgr, w'.
Qed.

Lemma accepting_events_ready :
  exists mgr w, main_round true None accepting_events (new_world ∅) = Ret (Continue false (Some mgr)) w /\
    ready (num_cpu accepting_events) mgr w /\ next_event accepting_events (clock w) = Some (Signal SIGTERM).
Proof. apply first_round_ready; [apply host_env_ok|simpl; lia|apply accepting_events_round]. Qed.


Lemma main_never_panics_witness :
  wpM late_kubelet (main 200) (new_world ∅) (fun _ _ => True) (fun h _ => h = HExit 1 \/ h = HBlock \/ h = HFuel).
Proof.
  apply main_never_panics;
    [apply host_env_ok|simpl; lia|apply host_reads|apply new_world_inv|apply new_world_idle].
Defined.

Lemma main_shutdown_witness :
  match main 200 late_kubelet (new_world ∅) with
  | Ret _ w' => idle w' /\ files w' !! pidFile = None /\ exists t, trace w' = t ++ [TRemove pidFile; TCloseWatcher]
  | Halt _ _ => False
  end.
Proof.
  assert (match main 200 late_kubelet (new_world ∅) with Ret _ _ => True | Halt _ _ => False end) as Hret
    by (vm_compute; exact I).
  destruct (main 200 late_kubelet (new_world ∅)) as [[] w'|h w'] eqn:Hr; [|exact Hret].
  destruct (main_shutdown late_kubelet 200 (new_world ∅) w') as (Hi & Hp & Ht);
    [apply host_env_ok|simpl; lia|apply host_reads|apply new_world_inv|apply new_world_idle|exact Hr|].
  split; [exact Hi|]. split; [exact (proj1 (Hp (fun _ => eq_refl)))|exact Ht].
Defined.

Lemma serve_event_correct_witness :
  exists mgr w, wpM accepting_events (serve_event (Some mgr)) w
    (fun nx w' => nx = Return /\ all_stopped accepting_events w w') no_halt.
Proof.
  destruct accepting_events_ready as (mgr & w & _ & Hready & Hev). exists mgr, w.
  apply (serve_event_correct accepting_events mgr w (Signal SIGTERM));
    [apply host_env_ok|simpl; lia|exact Hready|exact Hev].
Defined.

Lemma fatal_blocks_next_start_witness :
  match main 1 no_sockets (new_world ∅) with
  | Halt (HExit 1) w' => forall w2, files w2 = files w' ->
      main 200 late_kubelet w2 = Halt (HExit 1) (with_trace (fun t => t ++ [TFatal "app is running."]) (tick w2))
  | _ => False
  end.
Proof.
  assert (match main 1 no_sockets (new_world ∅) with
    | Halt (HExit 1) w' => existsb (fun a => match a with TCreate p => bool_decide (p = pidFile) | _ => false end) (trace w') = true
    | _ => False
    end) as Hrun by (vm_compute; reflexivity).
  destruct (main 1 no_sockets (new_world ∅)) as [[] w'|[[|[]|]| | |] w'] eqn:Hr; try exact Hrun.
  intros w2 Hfs. apply (fatal_blocks_next_start no_sockets 1 ∅ w' Hr); [|exact Hfs].
  apply existsb_exists in Hrun as (a & Ha & Hp). destruct a as [|path| | | | | | | | | | | | | |]; try discriminate Hp.
  apply bool_decide_eq_true_1 in Hp as ->. by apply list_elem_of_In.
Defined.

Lemma refused_never_serves_witness :
  wpM no_kubelet (main 5) (new_world ∅) (fun _ _ => False)
    (fun h w' => (h = HFuel \/ h = HExit 1) /\ Forall no_select (trace w')).
Proof.
  apply refused_never_serves; [apply host_env_ok|simpl; lia|apply host_reads|reflexivity].
Defined.

