(* ===== verification/ClientConn.v ===== *)
(** * Client connections of grpc

    clientconn.go, and of http2_client.go the way in which a transport is made.  [DialContext], the goroutines that it
    starts and those who use the connection are programs over one state: a [ClientConn] with its [addrConn]s, the
    transports as the connection sees them, and the channels.  A section under a mutex is one step.

    The service gives no balancer and no channel for the service's configuration, and their branches are left out, as
    are event logs.  Every attempt to connect comes to what [net] says; how long it takes, and how long the
    goroutine sleeps after one that failed, is left open.

    Some fields are for the statements only and the code does not look at them: who works on an [addrConn] or
    on a transport, the goroutines that are at work, and those that wait for a transport. *)

From stdpp Require Import base list strings gmap.
From Stdlib Require Import ZArith Lia.
From S2P Require Import Prelude GoStrings Wire GrpcStatus GrpcTransport Threads.
Open Scope Z_scope.

(** ** Errors *)

Definition errNoTransportSecurity : go_error :=
  errorString "grpc: no transport security set (use grpc.WithInsecure() explicitly or set credentials)".
Definition errTransportCredentialsMissing : go_error :=
  errorString "grpc: the credentials require transport level security (use grpc.WithTransportCredentials() to set)".
Definition errCredentialsConflict : go_error :=
  errorString "grpc: transport credentials are set for an insecure connection (grpc.WithTransportCredentials() and grpc.WithInsecure() are both called)".
Definition errNetworkIO : go_error := errorString "grpc: failed with network I/O error".
Definition errConnDrain : go_error := errorString "grpc: the connection is drained".
Definition errConnClosing : go_error := errorString "grpc: the connection is closing".
Definition errConnUnavailable : go_error := errorString "grpc: the connection is unavailable".

(** An error with what [Origin] gives if it is a [ConnectionError], and itself if not. *)
Record dial_error : Type := mkDialError { err : go_error; Origin : go_error }.
Definition plain (e : go_error) : dial_error := mkDialError e e.

Definition connectionErrorf (temp : bool) (origin : option go_error) (desc : string) : dial_error :=
  let e := ConnectionError desc temp in mkDialError e (default e origin).

(** An error of the network or of a handshake, with what its method [Temporary] or [Timeout] says; false if
    it has neither. *)
Record net_error : Type := mkNetError { net_err : go_error; net_Temporary : bool }.

Definition isTemporary (e : net_error) : bool :=
  match net_err e with
  | EOF | ErrDeadlineExceeded => true
  | ConnectionError _ temp => temp
  | _ => net_Temporary e
  end.

(** ** Options *)

Record ConnectOptions : Type := mkConnectOptions {
  UserAgent : string;
  Authority : string;
  Dialer : bool;                          (* one is given *)
  FailOnNonTempDialError_ : bool;
  PerRPCCredentials : list bool;          (* what RequireTransportSecurity says *)
  TransportCredentials : option string;   (* Info().ServerName *)
  KeepaliveParams_Time : Z;
}.

Record dialOptions : Type := mkDialOptions {
  block : bool;
  insecure : bool;
  timeout : Z;
  copts : ConnectOptions;
  maxMsgSize : Z;
}.

Definition DialOption : Type := dialOptions -> dialOptions.

Definition with_copts (f : ConnectOptions -> ConnectOptions) : DialOption := fun o =>
  mkDialOptions (block o) (insecure o) (timeout o) (f (copts o)) (maxMsgSize o).

Definition WithMaxMsgSize (s : Z) : DialOption := fun o => mkDialOptions (block o) (insecure o) (timeout o) (copts o) s.
Definition WithBlock : DialOption := fun o => mkDialOptions true (insecure o) (timeout o) (copts o) (maxMsgSize o).
Definition WithInsecure : DialOption := fun o => mkDialOptions (block o) true (timeout o) (copts o) (maxMsgSize o).
Definition WithTimeout (d : Z) : DialOption := fun o => mkDialOptions (block o) (insecure o) d (copts o) (maxMsgSize o).
Definition WithTransportCredentials (serverName : string) : DialOption := with_copts (fun c =>
  mkConnectOptions (UserAgent c) (Authority c) (Dialer c) (FailOnNonTempDialError_ c) (PerRPCCredentials c) (Some serverName)
    (KeepaliveParams_Time c)).
Definition WithPerRPCCredentials (requireTransportSecurity : bool) : DialOption := with_copts (fun c =>
  mkConnectOptions (UserAgent c) (Authority c) (Dialer c) (FailOnNonTempDialError_ c)
    (PerRPCCredentials c ++ [requireTransportSecurity]) (TransportCredentials c) (KeepaliveParams_Time c)).
Definition WithDialer : DialOption := with_copts (fun c =>
  mkConnectOptions (UserAgent c) (Authority c) true (FailOnNonTempDialError_ c) (PerRPCCredentials c) (TransportCredentials c)
    (KeepaliveParams_Time c)).
Definition FailOnNonTempDialError (f : bool) : DialOption := with_copts (fun c =>
  mkConnectOptions (UserAgent c) (Authority c) (Dialer c) f (PerRPCCredentials c) (TransportCredentials c) (KeepaliveParams_Time c)).
Definition WithUserAgent (s : string) : DialOption := with_copts (fun c =>
  mkConnectOptions s (Authority c) (Dialer c) (FailOnNonTempDialError_ c) (PerRPCCredentials c) (TransportCredentials c)
    (KeepaliveParams_Time c)).
Definition WithKeepaliveParams (time : Z) : DialOption := with_copts (fun c =>
  mkConnectOptions (UserAgent c) (Authority c) (Dialer c) (FailOnNonTempDialError_ c) (PerRPCCredentials c) (TransportCredentials c) time).
Definition WithAuthority (a : string) : DialOption := with_copts (fun c =>
  mkConnectOptions (UserAgent c) a (Dialer c) (FailOnNonTempDialError_ c) (PerRPCCredentials c) (TransportCredentials c)
    (KeepaliveParams_Time c)).

Definition defaultClientMaxMsgSize : Z := 2 ^ 31 - 1.
Definition grpcUA : string := "grpc-go/" +:+ "1.3.0".

(** What [DialContext] makes of its options; its dialer is replaced by one through a proxy if there is none. *)
Definition configure (opts : list DialOption) : dialOptions :=
  let o := mkDialOptions false false 0 (mkConnectOptions "" "" false false [] None 0) defaultClientMaxMsgSize in
  let o := fold_left (fun o opt => opt o) opts o in
  with_copts (fun c =>
    mkConnectOptions (if bool_decide (UserAgent c = ""%string) then grpcUA else UserAgent c +:+ " " +:+ grpcUA) (Authority c) true
      (FailOnNonTempDialError_ c) (PerRPCCredentials c) (TransportCredentials c) (KeepaliveParams_Time c)) o.

Definition authority_of (target : string) (o : dialOptions) : string :=
  match TransportCredentials (copts o) with
  | Some name => if bool_decide (name = ""%string) then
                   if insecure o && negb (bool_decide (Authority (copts o) = ""%string)) then Authority (copts o) else target
                 else name
  | None => if insecure o && negb (bool_decide (Authority (copts o) = ""%string)) then Authority (copts o) else target
  end.

(** What [resetAddrConn] finds wrong with the options. *)
Definition check_security (o : dialOptions) : option go_error :=
  if negb (insecure o) then
    match TransportCredentials (copts o) with None => Some errNoTransportSecurity | Some _ => None end
  else
    match TransportCredentials (copts o) with
    | Some _ => Some errCredentialsConflict
    | None => if existsb id (PerRPCCredentials (copts o)) then Some errTransportCredentialsMissing else None
    end.

(** ** State *)

Inductive ConnectivityState : Type := Idle | Connecting | Ready | TransientFailure | Shutdown.

#[export] Instance ConnectivityState_eq_dec : EqDecision ConnectivityState.
Proof. solve_decision. Defined.

Inductive transportState : Type := reachable | unreachable | closing | draining.

#[export] Instance client_transportState_eq_dec : EqDecision transportState.
Proof. solve_decision. Defined.

Inductive GoAwayReason : Type := Invalid | NoReason | TooManyPings.

(** A transport, by what the connection sees of it: [errorChan] is closed when it is unreachable or closing.  [maker]
    is the goroutine that has made it and not yet handed it on, [owner] the [addrConn] it is made for. *)
Record transport : Type := mkTransport {
  t_state : transportState;
  t_goAway : bool;
  t_reason : GoAwayReason;
  owner : nat;
  maker : option nat;
}.

Definition error_closed (t : transport) : bool := bool_decide (t_state t = unreachable) || bool_decide (t_state t = closing).

(** Where an [addrConn] is: made by a goroutine and not tracked yet, in [conns], taken out by a goroutine that tears it
    down, or given up before it was tracked. *)
Inductive place : Type := Fresh (tid : nat) | Tracked | Leaving (tid : nat) | Dropped.

Record addrConn : Type := mkAddrConn {
  addr : string;
  ac_done : bool;                       (* ac.ctx is cancelled *)
  Time : Z;                             (* of its keepalive parameters *)
  state : ConnectivityState;
  ready : option nat;
  ac_transport : option nat;
  tearDownErr : option go_error;
  at_place : place;
  driver : option nat;                  (* the goroutine that connects or monitors it *)
}.

(** The goroutines that the code starts. *)
Inductive goroutine : Type := GDial | GConnect (a : nat) | GMonitor (a : nat).

#[export] Instance goroutine_eq_dec : EqDecision goroutine.
Proof. solve_decision. Defined.

(** What [Err] of a context returns when it is done. *)
Inductive ctx_error : Type := CtxCanceled | CtxDeadlineExceeded.
Definition ctx_Err (c : ctx_error) : go_error := match c with CtxCanceled => ErrCanceled | CtxDeadlineExceeded => ErrDeadlineExceeded end.

(** A channel of one error that is closed in the end: what was sent, whether it was received; who sends. *)
Record error_chan : Type := mkErrorChan { sent : option go_error; taken : bool; closed : bool; sender : option nat }.

(** A goroutine that waits for the channel [on] of an [addrConn]. *)
Record sleeper : Type := mkSleeper { waits_for : nat; on : nat; failfast_ : bool }.

Record ClientConn : Type := mkClientConn {
  cc_done : bool;                       (* cc.ctx is cancelled *)
  conns : option (gmap string nat);
  mkp_Time : Z;
  acs : list addrConn;
  readies : list (nat * bool);          (* of an addrConn; closed *)
  transports : list transport;
  attempts : nat;
  spawned : list goroutine;
  waitC : error_chan;
  dial_ctx : option ctx_error;          (* of DialContext's context *)
  ctxs : gmap nat ctx_error;            (* and of the contexts of calls *)
  dialled : option (option go_error);   (* what DialContext returned *)
  torn : bool;                          (* a call of Close has returned nil *)
  active : gset nat;
  asleep : gmap nat sleeper;
}.

Definition set_cc_done (x : bool) (w : ClientConn) : ClientConn :=
mkClientConn x (conns w) (mkp_Time w) (acs w) (readies w) (transports w) (attempts w) (spawned w) (waitC w) (dial_ctx
    w) (ctxs w) (dialled w) (torn w) (active w) (asleep w).
Definition set_conns (x : option (gmap string nat)) (w : ClientConn) : ClientConn :=
mkClientConn (cc_done w) x (mkp_Time w) (acs w) (readies w) (transports w) (attempts w) (spawned w) (waitC w) (dial_ctx
    w) (ctxs w) (dialled w) (torn w) (active w) (asleep w).
Definition set_mkp_Time (x : Z) (w : ClientConn) : ClientConn :=
mkClientConn (cc_done w) (conns w) x (acs w) (readies w) (transports w) (attempts w) (spawned w) (waitC w) (dial_ctx w)
    (ctxs w) (dialled w) (torn w) (active w) (asleep w).
Definition set_acs (x : list addrConn) (w : ClientConn) : ClientConn :=
mkClientConn (cc_done w) (conns w) (mkp_Time w) x (readies w) (transports w) (attempts w) (spawned w) (waitC w)
    (dial_ctx w) (ctxs w) (dialled w) (torn w) (active w) (asleep w).
Definition set_readies (x : list (nat * bool)) (w : ClientConn) : ClientConn :=
mkClientConn (cc_done w) (conns w) (mkp_Time w) (acs w) x (transports w) (attempts w) (spawned w) (waitC w) (dial_ctx
    w) (ctxs w) (dialled w) (torn w) (active w) (asleep w).
Definition set_transports (x : list transport) (w : ClientConn) : ClientConn :=
mkClientConn (cc_done w) (conns w) (mkp_Time w) (acs w) (readies w) x (attempts w) (spawned w) (waitC w) (dial_ctx w)
    (ctxs w) (dialled w) (torn w) (active w) (asleep w).
Definition set_attempts (x : nat) (w : ClientConn) : ClientConn :=
mkClientConn (cc_done w) (conns w) (mkp_Time w) (acs w) (readies w) (transports w) x (spawned w) (waitC w) (dial_ctx w)
    (ctxs w) (dialled w) (torn w) (active w) (asleep w).
Definition set_spawned (x : list goroutine) (w : ClientConn) : ClientConn :=
mkClientConn (cc_done w) (conns w) (mkp_Time w) (acs w) (readies w) (transports w) (attempts w) x (waitC w) (dial_ctx
    w) (ctxs w) (dialled w) (torn w) (active w) (asleep w).
Definition set_waitC (x : error_chan) (w : ClientConn) : ClientConn :=
mkClientConn (cc_done w) (conns w) (mkp_Time w) (acs w) (readies w) (transports w) (attempts w) (spawned w) x (dial_ctx
    w) (ctxs w) (dialled w) (torn w) (active w) (asleep w).
Definition set_dial_ctx (x : option ctx_error) (w : ClientConn) : ClientConn :=
mkClientConn (cc_done w) (conns w) (mkp_Time w) (acs w) (readies w) (transports w) (attempts w) (spawned w) (waitC w) x
    (ctxs w) (dialled w) (torn w) (active w) (asleep w).
Definition set_ctxs (x : gmap nat ctx_error) (w : ClientConn) : ClientConn :=
mkClientConn (cc_done w) (conns w) (mkp_Time w) (acs w) (readies w) (transports w) (attempts w) (spawned w) (waitC w)
    (dial_ctx w) x (dialled w) (torn w) (active w) (asleep w).
Definition set_dialled (x : option (option go_error)) (w : ClientConn) : ClientConn :=
mkClientConn (cc_done w) (conns w) (mkp_Time w) (acs w) (readies w) (transports w) (attempts w) (spawned w) (waitC w)
    (dial_ctx w) (ctxs w) x (torn w) (active w) (asleep w).
Definition set_torn (x : bool) (w : ClientConn) : ClientConn :=
mkClientConn (cc_done w) (conns w) (mkp_Time w) (acs w) (readies w) (transports w) (attempts w) (spawned w) (waitC w)
    (dial_ctx w) (ctxs w) (dialled w) x (active w) (asleep w).
Definition set_active (x : gset nat) (w : ClientConn) : ClientConn :=
mkClientConn (cc_done w) (conns w) (mkp_Time w) (acs w) (readies w) (transports w) (attempts w) (spawned w) (waitC w)
    (dial_ctx w) (ctxs w) (dialled w) (torn w) x (asleep w).
Definition set_asleep (x : gmap nat sleeper) (w : ClientConn) : ClientConn :=
mkClientConn (cc_done w) (conns w) (mkp_Time w) (acs w) (readies w) (transports w) (attempts w) (spawned w) (waitC w)
    (dial_ctx w) (ctxs w) (dialled w) (torn w) (active w) x.

Definition with_ac_done (y : bool) (x : addrConn) : addrConn :=
  mkAddrConn (addr x) y (Time x) (state x) (ready x) (ac_transport x) (tearDownErr x) (at_place x) (driver x).
Definition with_state (y : ConnectivityState) (x : addrConn) : addrConn :=
  mkAddrConn (addr x) (ac_done x) (Time x) y (ready x) (ac_transport x) (tearDownErr x) (at_place x) (driver x).
Definition with_ready (y : option nat) (x : addrConn) : addrConn :=
  mkAddrConn (addr x) (ac_done x) (Time x) (state x) y (ac_transport x) (tearDownErr x) (at_place x) (driver x).
Definition with_ac_transport (y : option nat) (x : addrConn) : addrConn :=
  mkAddrConn (addr x) (ac_done x) (Time x) (state x) (ready x) y (tearDownErr x) (at_place x) (driver x).
Definition with_tearDownErr (y : option go_error) (x : addrConn) : addrConn :=
  mkAddrConn (addr x) (ac_done x) (Time x) (state x) (ready x) (ac_transport x) y (at_place x) (driver x).
Definition with_at_place (y : place) (x : addrConn) : addrConn :=
  mkAddrConn (addr x) (ac_done x) (Time x) (state x) (ready x) (ac_transport x) (tearDownErr x) y (driver x).
Definition with_driver (y : option nat) (x : addrConn) : addrConn :=
  mkAddrConn (addr x) (ac_done x) (Time x) (state x) (ready x) (ac_transport x) (tearDownErr x) (at_place x) y.
Definition with_t_state (y : transportState) (t : transport) : transport :=
  mkTransport y (t_goAway t) (t_reason t) (owner t) (maker t).
Definition with_maker (y : option nat) (t : transport) : transport :=
  mkTransport (t_state t) (t_goAway t) (t_reason t) (owner t) y.

Definition set_ac (a : nat) (x : addrConn) (w : ClientConn) : ClientConn := set_acs (<[a := x]> (acs w)) w.
Definition set_transport (i : nat) (t : transport) (w : ClientConn) : ClientConn := set_transports (<[i := t]> (transports w)) w.

(** ** The connection *)

(** What an attempt to connect comes to: dialling, the handshake, the writes of the preface (the bytes written), the settings
    and the window update. *)
Record attempt : Type := mkAttempt {
  at_dial : option net_error;
  at_handshake : option net_error;
  at_preface : Z * option go_error;
  at_settings : option go_error;
  at_window : option go_error;
}.

Section connection.
Context (target : string) (dopts : dialOptions) (net : nat -> attempt).
#[local] Abbreviation step := (prog ClientConn).

(** A section under a mutex; [None]: it panics. *)
Definition sec {B} (f : nat -> ClientConn -> option (list (B * ClientConn))) : step B :=
  act (fun tid w => match f tid w with Some l => Goes l | None => Crashes end).

(** [go] *)
Definition go (g : goroutine) : step unit := sec (fun _ w =>
  let w := set_spawned (spawned w ++ [g]) w in
  match g with
  | GDial => Some [(tt, w)]
  | GConnect a | GMonitor a => x ← acs w !! a; Some [(tt, set_ac a (with_driver None x) w)]
  end).

(** The goroutine begins; it ends, and works on nothing any more. *)
Definition begins (g : goroutine) : step unit := act (fun tid w =>
  if bool_decide (g ∈ spawned w) then
    let w := set_active ({[tid]} ∪ active w) (set_spawned (list_difference (spawned w) [g]) w) in
    match g with
    | GDial => Goes [(tt, set_waitC (mkErrorChan (sent (waitC w)) (taken (waitC w)) (closed (waitC w)) (Some tid)) w)]
    | GConnect a | GMonitor a =>
        match acs w !! a with Some x => Goes [(tt, set_ac a (with_driver (Some tid) x) w)] | None => Crashes end
    end
  else Goes []).
Definition enters : step unit := act (fun tid w => Goes [(tt, set_active ({[tid]} ∪ active w) w)]).

Definition leave_ac (tid : nat) (x : addrConn) : addrConn :=
  with_driver (if bool_decide (driver x = Some tid) then None else driver x) x.
Definition ends : step unit := act (fun tid w => Goes [(tt, set_active (active w ∖ {[tid]}) (set_acs (leave_ac tid <$> acs w) w))]).

(** [close(ac.ready); ac.ready = nil] if there is one. *)
Definition close_ready (a : nat) (w : ClientConn) : option ClientConn :=
  x ← acs w !! a;
  match ready x with
  | None => Some w
  | Some c =>
      '(a', closed) ← readies w !! c;
      if closed : bool then None
      else Some (set_ac a (with_ready None x) (set_readies (<[c := (a', true)]> (readies w)) w))
  end.

(** ** http2_client.go: the making and the closing of a transport *)

Definition closed_transport (t : transport) : transport := with_maker None (with_t_state closing t).

Definition t_Close (i : nat) : step unit := sec (fun _ w =>
  t ← transports w !! i; Some [(tt, set_transport i (closed_transport t) w)]).

(** [GracefulClose]: with streams or without. *)
Definition GracefulClose (t : transport) : list transport :=
  match t_state t with
  | unreachable => [closed_transport t]
  | closing | draining => [t]
  | reachable => [with_t_state draining t; closed_transport t]
  end.

Definition preface_len : Z := 24.

Definition newHTTP2Client (a : nat) : step (dial_error + nat) :=
  n ← act (fun _ w => Goes [(attempts w, set_attempts (S (attempts w)) w)]);
  let fails temp e := mret (M:=prog ClientConn) (inl (connectionErrorf temp (Some (net_err e)) ("transport: " +:+ error_string (net_err e)))) in
  match at_dial (net n) with
  | Some e => fails (if FailOnNonTempDialError_ (copts dopts) then isTemporary e else true) e
  | None =>
      match (match TransportCredentials (copts dopts) with Some _ => at_handshake (net n) | None => None end) with
      | Some e => fails (isTemporary e) e
      | None =>
          i ← act (fun tid w => Goes [(length (transports w),
                set_transports (transports w ++ [mkTransport reachable false Invalid a (Some tid)]) w)]);
          let broken (e : option go_error) desc := _ ← t_Close i; mret (M:=prog ClientConn) (inl (connectionErrorf true e desc)) in
          let '(k, e) := at_preface (net n) in
          match e with
          | Some e => broken (Some e) ("transport: " +:+ error_string e)%string
          | None =>
              if negb (k =? preface_len) then
                broken None ("transport: preface mismatch, wrote " +:+ Itoa k +:+ " bytes; want " +:+ Itoa preface_len)%string
              else
                match at_settings (net n) with
                | Some e => broken (Some e) ("transport: " +:+ error_string e)%string
                | None =>
                    match at_window (net n) with
                    | Some e => broken (Some e) ("transport: " +:+ error_string e)%string
                    | None => mret (inr i)
                    end
                end
          end
      end
  end.

(** ** addrConn *)

(** [tearDown]: the context is cancelled, then a section under the mutex. *)
Definition cancel (a : nat) : step unit := sec (fun _ w => x ← acs w !! a; Some [(tt, set_ac a (with_ac_done true x) w)]).

Definition shut_down (tid a : nat) (e : go_error) (w : ClientConn) : option (list (unit * ClientConn)) :=
  x ← acs w !! a;
  let w := set_ac a (leave_ac tid x) w in
  ws ← (if bool_decide (e = errConnDrain) then
          match ac_transport x with
          | Some i => t ← transports w !! i; Some ((fun t => set_transport i t w) <$> GracefulClose t)
          | None => Some [w]
          end
        else Some [w]);
  if bool_decide (state x = Shutdown) then Some ((fun w => (tt, w)) <$> ws) else
  mapM (fun w =>
    w ← close_ready a w;
    x ← acs w !! a;
    let w := set_ac a (with_tearDownErr (Some e) (with_state Shutdown x)) w in
    match ac_transport x with
    | Some i => if bool_decide (e = errConnDrain) then Some (tt, w)
                else t ← transports w !! i; Some (tt, set_transport i (closed_transport t) w)
    | None => Some (tt, w)
    end) ws.

Definition tearDown (a : nat) (e : go_error) : step unit :=
  _ ← cancel a; sec (fun tid w => shut_down tid a e w).

(** ** resetTransport *)

(** The first section of a round: the transport there was. *)
Definition reset_begin (a : nat) : step (dial_error + option nat) := sec (fun _ w =>
  x ← acs w !! a;
  if bool_decide (state x = Shutdown) then Some [(inl (plain errConnClosing), w)]
  else Some [(inr (ac_transport x), set_ac a (with_state Connecting x) w)]).

(** The section after an attempt that failed: whether to go on. *)
Definition reset_failed (a : nat) : step bool := sec (fun _ w =>
  x ← acs w !! a;
  if bool_decide (state x = Shutdown) then Some [(false, w)] else
  w ← close_ready a (set_ac a (with_state TransientFailure x) w);
  Some [(true, w)]).

(** The section after one that succeeded: whether the transport is taken. *)
Definition reset_ready (a i : nat) : step bool := sec (fun _ w =>
  x ← acs w !! a;
  t ← transports w !! i;
  if bool_decide (state x = Shutdown) then Some [(false, w)] else
  w ← close_ready a (set_ac a (with_ac_transport (Some i) (with_state Ready x)) w);
  Some [(true, set_transport i (with_maker None t) w)]).

(** Whether the context of an [addrConn] is done: it is a child of the connection's. *)
Definition ac_ctx_done (a : nat) (w : ClientConn) : bool :=
  cc_done w || match acs w !! a with Some x => ac_done x | None => false end.

(** A round of the loop: again, or its result. *)
Definition reset_round (a : nat) (closeTransport : bool) : step (option (option dial_error)) :=
  r ← reset_begin a;
  match r with
  | inl e => mret (Some (Some e))
  | inr t =>
      _ ← match t with Some i => when closeTransport (t_Close i) | None => mret tt end;
      r ← newHTTP2Client a;
      match r with
      | inl e =>
          if (match err e with ConnectionError _ temp => negb temp | _ => false end) then mret (Some (Some e)) else
          live ← reset_failed a;
          if negb live then mret (Some (Some (plain errConnClosing))) else
          (* select { case <-time.After(...): case <-ac.ctx.Done(): } *)
          act (fun _ w => Goes ((None, w) :: (if ac_ctx_done a w then [(Some (Some (plain ErrCanceled)), w)] else [])))
      | inr i =>
          taken ← reset_ready a i;
          if taken : bool then mret (Some None)
          else _ ← t_Close i; mret (Some (Some (plain errConnClosing)))
      end
  end.

(** ** resetAddrConn *)

Definition new_ac : step nat := act (fun tid w =>
  Goes [(length (acs w), set_acs (acs w ++ [mkAddrConn target false (mkp_Time w) Idle None None None (Fresh tid) None]) w)]).

(** It is not used: the goroutine gives it up. *)
Definition drop (a : nat) : step unit := sec (fun _ w =>
  x ← acs w !! a; Some [(tt, set_ac a (with_at_place Dropped x) w)]).

(** [cc.conns[ac.addr] = ac], and what was there; [None] if the connection is closed. *)
Definition track (a : nat) : step (option (option nat)) := sec (fun tid w =>
  x ← acs w !! a;
  match conns w with
  | None => Some [(None, w)]
  | Some m =>
      let stale := m !! addr x in
      let w := match stale with
               | Some b => match acs w !! b with Some y => set_ac b (with_driver None (with_at_place (Leaving tid) y)) w | None => w end
               | None => w
               end in
      Some [(Some stale, set_ac a (with_driver (Some tid) (with_at_place Tracked x)) (set_conns (Some (<[addr x := a]> m)) w))]
  end).

(** The part before the transport is made: the error, or the new [addrConn]. *)
Definition resetAddrConn (e : option go_error) : step (go_error + nat) :=
  a ← new_ac;
  match check_security dopts with
  | Some e => _ ← drop a; mret (inl e)
  | None =>
      r ← track a;
      match r with
      | None => _ ← drop a; mret (inl ErrClientConnClosing)
      | Some stale =>
          _ ← match stale with Some b => tearDown b (default errConnDrain e) | None => mret tt end;
          mret (inr a)
      end
  end.

(** Without blocking: a goroutine connects. *)
Definition resetAddrConn_async (e : option go_error) : step (option go_error) :=
  r ← resetAddrConn e;
  match r with
  | inl e => mret (Some e)
  | inr a => _ ← go (GConnect a); mret None
  end.

(** [delete(cc.conns, ac.addr)]: of a nil map too. *)
Definition untrack (a : nat) : step unit := sec (fun tid w =>
  x ← acs w !! a;
  match conns w with
  | None => Some [(tt, w)]
  | Some m => Some [(tt, set_ac a (with_driver None (with_at_place (Leaving tid) x)) (set_conns (Some (delete (addr x) m)) w))]
  end).

(** ** transportMonitor *)

Inductive monitored : Type := CtxDone | GotGoAway (r : GoAwayReason) | GotError.

(** The first [select], and the second, with its default. *)
Definition monitor_select (a i : nat) : step monitored := sec (fun _ w =>
  t ← transports w !! i;
  Some ((fun m => (m, w)) <$>
    (if ac_ctx_done a w then [CtxDone] else []) ++ (if t_goAway t then [GotGoAway (t_reason t)] else []) ++
    (if error_closed t then [GotError] else []))).
Definition monitor_again (a i : nat) : step monitored := sec (fun _ w =>
  t ← transports w !! i;
  let ms := (if ac_ctx_done a w then [CtxDone] else []) ++ (if t_goAway t then [GotGoAway (t_reason t)] else []) in
  Some ((fun m => (m, w)) <$> match ms with [] => [GotError] | _ => ms end)).

Definition has_error (i : nat) : step bool := sec (fun _ w => t ← transports w !! i; Some [(error_closed t, w)]).

Definition adjustParams (a : nat) (r : GoAwayReason) : step unit := sec (fun _ w =>
  match r with
  | TooManyPings =>
      x ← acs w !! a;
      let v := int64 (2 * Time x) in
      Some [(tt, if mkp_Time w <? v then set_mkp_Time v w else w)]
  | _ => Some [(tt, w)]
  end).

(** [TransientFailure], unless it is shut down. *)
Definition monitor_failed (a : nat) : step bool := sec (fun _ w =>
  x ← acs w !! a;
  if bool_decide (state x = Shutdown) then Some [(false, w)]
  else Some [(true, set_ac a (with_state TransientFailure x) w)]).

(** A round: whether the transport is to be made anew; if not the goroutine returns. *)
Definition transportMonitor (a : nat) : step bool :=
  t ← sec (fun _ w => x ← acs w !! a; Some [(ac_transport x, w)]);
  match t with
  | None => crash
  | Some i =>
      m ← monitor_select a i;
      match m with
      | CtxDone =>
          e ← has_error i;
          _ ← when e (t_Close i);
          mret false
      | GotGoAway r =>
          _ ← adjustParams a r;
          e ← has_error i;
          _ ← resetAddrConn_async (Some (if e : bool then errNetworkIO else errConnDrain));
          mret false
      | GotError =>
          m ← monitor_again a i;
          match m with
          | CtxDone => _ ← t_Close i; mret false
          | GotGoAway r => _ ← adjustParams a r; _ ← resetAddrConn_async (Some errNetworkIO); mret false
          | GotError => monitor_failed a
          end
      end
  end.

(** ** The goroutines *)

(** Who called [resetTransport]: [DialContext], with blocking; the goroutine that connects; the monitor. *)
Inductive whence : Type := InDial | InConnect | InMonitor.

Inductive activity : Type :=
| Resetting (a : nat) (closeTransport : bool) (who : whence)
| Monitoring (a : nat).

(** The end of [DialContext]'s goroutine: it sends an error, or not, and closes the channel. *)
Definition finish_dial (e : option go_error) : step unit :=
  _ ← match e with
      | Some e => act (fun _ w =>
          if closed (waitC w) then Crashes
          else match sent (waitC w) with None => Goes [(tt, set_waitC (mkErrorChan (Some e) (taken (waitC w)) false (sender (waitC w))) w)] | Some _ => Goes [] end)
      | None => mret tt
      end;
  act (fun _ w => if closed (waitC w) then Crashes else Goes [(tt, set_waitC (mkErrorChan (sent (waitC w)) (taken (waitC w)) true (sender (waitC w))) w)]).

(** After [resetTransport], by who called it. *)
Definition after_reset (a : nat) (who : whence) (r : option dial_error) : step (option activity) :=
  match who, r with
  | InDial, None => _ ← go (GMonitor a); _ ← finish_dial None; _ ← ends; mret None
  | InDial, Some e =>
      _ ← (if bool_decide (err e = errConnClosing) then mret tt else _ ← untrack a; tearDown a (err e));
      _ ← finish_dial (Some (match err e with ConnectionError _ false => Origin e | _ => err e end));
      _ ← ends; mret None
  | _, None => mret (Some (Monitoring a))
  | _, Some e =>
      _ ← (if bool_decide (err e = errConnClosing) then mret tt else tearDown a (err e));
      _ ← ends; mret None
  end.

Definition turn (s : activity) : step (option activity) :=
  match s with
  | Resetting a close who =>
      r ← reset_round a close;
      match r with
      | None => mret (Some (Resetting a false who))
      | Some r => after_reset a who r
      end
  | Monitoring a =>
      failed ← transportMonitor a;
      if failed : bool then mret (Some (Resetting a true InMonitor)) else _ ← ends; mret None
  end.

Definition dial_goroutine : thread ClientConn := Thread turn (
  _ ← begins GDial;
  r ← resetAddrConn None;
  match r with
  | inl e => _ ← finish_dial (Some e); _ ← ends; mret None
  | inr a =>
      if block dopts then mret (Some (Resetting a false InDial))
      else _ ← go (GConnect a); _ ← finish_dial None; _ ← ends; mret None
  end).
Definition connect_goroutine (a : nat) : thread ClientConn :=
  Thread turn (_ ← begins (GConnect a); mret (Some (Resetting a false InConnect))).
Definition monitor_goroutine (a : nat) : thread ClientConn :=
  Thread turn (_ ← begins (GMonitor a); mret (Some (Monitoring a))).

(** ** Close *)

Definition close_section : step (option (list nat)) := act (fun tid w =>
  match conns w with
  | None => Goes [(None, w)]
  | Some m =>
      let l := (map_to_list m).*2 in
      Goes [(Some l, set_acs (imap (fun a x => if bool_decide (a ∈ l) then with_at_place (Leaving tid) x else x) (acs w)) (set_conns None w))]
  end).

Definition Close : step (option go_error) :=
  _ ← writes (set_cc_done true);
  l ← close_section;
  match l with
  | None => mret (Some ErrClientConnClosing)
  | Some l => _ ← each (fun a => tearDown a ErrClientConnClosing) l; _ ← writes (set_torn true); mret None
  end.

(** ** DialContext *)

(** [select { case <-ctx.Done(): ... case err := <-waitC: ... }] *)
Definition dial_select : step (option go_error) := act (fun _ w =>
  let c := waitC w in
  Goes ((match dial_ctx w with Some e => [(Some (ctx_Err e), w)] | None => [] end) ++
        (match sent c with
         | Some e => if taken c then (if closed c then [(None, w)] else [])
                     else [(Some e, set_waitC (mkErrorChan (sent c) true (closed c) (sender c)) w)]
         | None => if closed c then [(None, w)] else []
         end))).

(** After the options are read: the goroutine, the [select], and the deferred function. *)
Definition dial_context : step unit :=
  _ ← enters;
  _ ← go GDial;
  e ← dial_select;
  late ← reads dial_ctx;
  let e := match late with Some c => Some (ctx_Err c) | None => e end in
  _ ← match e with Some _ => _ ← Close; mret tt | None => mret tt end;
  _ ← ends;
  writes (set_dialled (Some e)).

Definition DialContext : thread ClientConn := once dial_context.

(** ** getTransport and wait *)

(** A transport and an error, as the code returns them. *)
Definition got : Type := option nat * option go_error.
Inductive wait_result : Type := Gets (r : got) | Sleeps.

(** The section of a round of [wait]. *)
Definition wait_section (tid a : nat) (failfast : bool) (w : ClientConn) : option (wait_result * ClientConn) :=
  x ← acs w !! a;
  let sleep c w := Some (Sleeps, set_asleep (<[tid := mkSleeper a c failfast]> (asleep w)) w) in
  match state x with
  | Shutdown => Some (Gets (None, tearDownErr x), w)   (* there is no balancer *)
  | Ready => Some (Gets (ac_transport x, None), w)
  | s =>
      if bool_decide (s = TransientFailure) && failfast then Some (Gets (None, Some errConnUnavailable), w) else
      match ready x with
      | Some c => sleep c w
      | None =>
          let c := length (readies w) in
          sleep c (set_ac a (with_ready (Some c) x) (set_readies (readies w ++ [(a, false)]) w))
      end
  end.

(** [select { case <-ctx.Done(): ... case <-ready: }] *)
Definition wait_select (ctx : nat) : step (option ctx_error) := sec (fun tid w =>
  s ← asleep w !! tid;
  '(_, closed) ← readies w !! on s;
  let w' := set_asleep (delete tid (asleep w)) w in
  Some ((match ctxs w !! ctx with Some e => [(Some e, w')] | None => [] end) ++ (if closed : bool then [(None, w')] else []))).

Definition wait_round (a ctx : nat) (failfast : bool) : step (option got) :=
  r ← sec (fun tid w => x ← wait_section tid a failfast w; Some [x]);
  match r with
  | Gets r => mret (Some r)
  | Sleeps =>
      e ← wait_select ctx;
      match e with
      | Some e => mret (Some (None, toRPCErr (Some (ctx_Err e))))
      | None => mret None
      end
  end.

(** Any [addrConn] of the connection. *)
Definition pick_ac : step (option go_error + nat) := act (fun _ w =>
  match conns w with
  | None => Goes [(inl (toRPCErr (Some ErrClientConnClosing)), w)]
  | Some m => match (map_to_list m).*2 with
              | [] => Goes [(inl (Some errConnClosing), w)]
              | l => Goes ((fun a => (inr a, w)) <$> l)
              end
  end).

(** [getTransport], by a goroutine that goes on with [use]. *)
Definition getTransport (ctx : nat) (failfast : bool) (use : got -> step unit) : thread ClientConn :=
  Thread (fun a : nat =>
    r ← wait_round a ctx failfast;
    match r with Some r => _ ← use r; mret None | None => mret (Some a) end)
  (r ← pick_ac; match r with inl e => _ ← use (None, e); mret None | inr a => mret (Some a) end).

(** The caller makes a stream if there is no error: on nil it panics. *)
Definition use_transport (r : got) : step unit :=
  match r with (None, None) => crash | _ => mret tt end.

(** ** The program *)

(** The goroutines of the code start with a token of [go]; connections are used once [DialContext] has returned one. *)
Inductive caller : ClientConn -> thread ClientConn -> Prop :=
| caller_dial w : caller w dial_goroutine
| caller_connect w a : caller w (connect_goroutine a)
| caller_monitor w a : caller w (monitor_goroutine a)
| caller_close w : dialled w = Some None -> caller w (once (_ ← enters; _ ← Close; ends))
| caller_get w ctx failfast : dialled w = Some None -> caller w (getTransport ctx failfast use_transport).

(** What happens to a transport otherwise: it fails, its last stream ends while it drains, its pings are not
    answered, a GOAWAY comes. *)
Inductive transport_event : transport -> transport -> Prop :=
| transport_fails t : t_state t = reachable -> transport_event t (with_t_state unreachable t)
| transport_closes t : transport_event t (closed_transport t)
| transport_goaway t r : t_state t = reachable \/ t_state t = draining -> r <> Invalid ->
    transport_event t (mkTransport (t_state t) true r (owner t) (maker t)).

(** Whether the context of [DialContext] can be cancelled, and whether it has a deadline or a timeout. *)
Context (cancellable deadline : bool).

Inductive outside : ClientConn -> ClientConn -> Prop :=
| outside_transport w i t t' : transports w !! i = Some t -> transport_event t t' -> outside w (set_transport i t' w)
| outside_cancelled w : cancellable = true -> dial_ctx w = None -> outside w (set_dial_ctx (Some CtxCanceled) w)
| outside_deadline w : deadline = true \/ 0 < timeout dopts -> dial_ctx w = None ->
    outside w (set_dial_ctx (Some CtxDeadlineExceeded) w)
| outside_ctx w c e : ctxs w !! c = None ->
    outside w (set_ctxs (<[c := e]> (ctxs w)) w).

Definition conn_step : ClientConn * list (thread ClientConn) -> ClientConn * list (thread ClientConn) -> Prop :=
  pool_step outside caller.

Definition new_conn : ClientConn :=
  mkClientConn false (Some ∅) (KeepaliveParams_Time (copts dopts)) [] [] [] 0 [] (mkErrorChan None false false None) None ∅ None false ∅ ∅.

Definition dial_start : ClientConn * list (thread ClientConn) := (new_conn, [DialContext]).
End connection.
