(* ===== verification/ClientInv.v ===== *)
(** * Client connections: the invariant, and how the steps keep it

    What holds between the steps of the goroutines of a connection, in four parts: where the [addrConn]s are and who works
    on them; the channels on which calls wait; the transports; and [DialContext].  What each goroutine relies on the
    others for.  Each part comes with the lemmas for the ways in which the steps change it.  Then the
    rules by which the steps of ClientConn keep it, and the first of them: how a transport is made, closed and handed
    over, in a round of [resetTransport]. *)

From stdpp Require Import base list strings gmap relations.
From Stdlib Require Import ZArith Lia.
From S2P Require Import Prelude GoStrings Wire GrpcStatus GrpcTransport Threads ClientConn.
Open Scope Z_scope.

Section inv.
Context (target : string) (dopts : dialOptions) (net : nat -> attempt).

(** ** The addrConns *)

Definition listed (cs : option (gmap string nat)) (a : nat) : Prop := exists m, cs = Some m /\ m !! target = Some a.

Definition token (sp : list goroutine) (a : nat) : Prop := GConnect a ∈ sp \/ GMonitor a ∈ sp.

(** The four places; one that a goroutine works on is in [conns] and alive until the connection is closed. *)
Record placed (cs : option (gmap string nat)) (sp : list goroutine) (act : gset nat) (a : nat) (x : addrConn) : Prop := {
  pl_addr : addr x = target;
  pl_fresh tid : at_place x = Fresh tid ->
    (tid ∈ act) /\ (state x = Idle /\ ac_done x = false) /\ ac_transport x = None /\ driver x = None /\ ~ token sp a;
  pl_tracked : at_place x = Tracked -> state x = Shutdown \/ listed cs a;
  pl_leaving tid : at_place x = Leaving tid -> state x = Shutdown \/ tid ∈ act;
  pl_dropped : at_place x = Dropped -> ac_transport x = None /\ driver x = None /\ ~ token sp a;
  pl_driven : is_Some (driver x) \/ token sp a -> cs = None \/ listed cs a /\ state x <> Shutdown;
  pl_driver tid : driver x = Some tid -> tid ∈ act;
}.

Record connecting (cs : option (gmap string nat)) (x : addrConn) : Prop := {
  cn_driver : driver x = None;
  cn_ctx : ac_done x = true -> cs = None;
  cn_state : state x = Idle \/ state x = Shutdown;
  cn_transport : ac_transport x = None;
}.
Record connected (cs : option (gmap string nat)) (x : addrConn) : Prop := {
  cd_driver : driver x = None;
  cd_ctx : ac_done x = true -> cs = None;
  cd_state : state x = Ready \/ state x = Shutdown;
  cd_transport : is_Some (ac_transport x);
}.

Record places_ok (xs : list addrConn) (cs : option (gmap string nat)) (sp : list goroutine) (act : gset nat) : Prop := {
  po_acs a x : xs !! a = Some x -> placed cs sp act a x;
  po_conns m k a : cs = Some m -> m !! k = Some a -> k = target /\ exists x, xs !! a = Some x /\ at_place x = Tracked;
  po_tokens : NoDup sp;
  po_connect a : GConnect a ∈ sp -> exists x, xs !! a = Some x /\ connecting cs x;
  po_monitor a : GMonitor a ∈ sp -> exists x, xs !! a = Some x /\ connected cs x;
}.

(** ** The channels *)

(** A channel that is open is the one of its [addrConn], which is neither ready nor shut down; a call that fails fast does
    not wait for one that has failed. *)
Record readies_ok (xs : list addrConn) (rd : list (nat * bool)) (sl : gmap nat sleeper) : Prop := {
  ro_ready a x c : xs !! a = Some x -> ready x = Some c -> rd !! c = Some (a, false) /\ state x <> Ready /\ state x <> Shutdown;
  ro_open c a : rd !! c = Some (a, false) -> exists x, xs !! a = Some x /\ ready x = Some c;
  ro_asleep tid s : sl !! tid = Some s -> exists b, rd !! on s = Some (waits_for s, b) /\
    (b = false -> failfast_ s = true ->
     exists x, xs !! waits_for s = Some x /\ (state x = Idle \/ state x = Connecting));
}.

(** ** The transports *)

Definition alive (t : transport) : Prop := t_state t <> closing.

(** The goroutine that makes it has it, or its [addrConn], which is not shut down unless the transport drains. *)
Definition held (xs : list addrConn) (act : gset nat) (i : nat) (t : transport) : Prop :=
  (exists tid, maker t = Some tid /\ tid ∈ act) \/
  maker t = None /\ exists x, xs !! owner t = Some x /\ ac_transport x = Some i /\
    (state x <> Shutdown \/ tearDownErr x = Some errConnDrain /\ t_state t = draining).

Record transports_ok (xs : list addrConn) (ts : list transport) (act : gset nat) : Prop := {
  to_acs a x : xs !! a = Some x ->
    (state x = Ready -> is_Some (ac_transport x)) /\ (state x = Shutdown -> is_Some (tearDownErr x)) /\
    (forall i, ac_transport x = Some i -> exists t, ts !! i = Some t /\ owner t = a /\ maker t = None);
  to_held i t : ts !! i = Some t -> alive t -> held xs act i t;
}.

(** ** DialContext *)

Definition succeeds (n : nat) : Prop :=
  at_dial (net n) = None /\ at_preface (net n) = (preface_len, None) /\ at_settings (net n) = None /\ at_window (net n) = None /\
  (TransportCredentials (copts dopts) = None \/ at_handshake (net n) = None).

(** An error that is not tried again: of dialling, if the options say so, or of the handshake. *)
Definition permanent (n : nat) (e : go_error) : Prop :=
  exists ne, net_err ne = e /\ isTemporary ne = false /\
    (FailOnNonTempDialError_ (copts dopts) = true /\ at_dial (net n) = Some ne \/
     at_dial (net n) = None /\ is_Some (TransportCredentials (copts dopts)) /\ at_handshake (net n) = Some ne).

Definition attempted (n : nat) (P : nat -> Prop) : Prop := exists k, (k < n)%nat /\ P k.

Record dial_ok (c : error_chan) (n : nat) (sp : list goroutine) (is_done : bool) : Prop := {
  do_token : GDial ∈ sp -> sender c = None /\ sent c = None /\ closed c = false;
  do_sent e : sent c = Some e -> is_done = true \/ check_security dopts = Some e \/ attempted n (fun k => permanent k e);
  do_closed : closed c = true -> sent c = None -> block dopts = true -> attempted n succeeds;
}.

(** What [DialContext] returned. *)
Definition returned (w : ClientConn) : Prop :=
  match dialled w with
  | None => True
  | Some None => block dopts = true -> attempted (attempts w) succeeds
  | Some (Some e) => conns w = None /\
      ((exists c, dial_ctx w = Some c /\ e = ctx_Err c) \/ check_security dopts = Some e \/ attempted (attempts w) (fun k => permanent k e))
  end.

Record inv (w : ClientConn) : Prop := {
  i_places : places_ok (acs w) (conns w) (spawned w) (active w);
  i_readies : readies_ok (acs w) (readies w) (asleep w);
  i_transports : transports_ok (acs w) (transports w) (active w);
  i_dial : dial_ok (waitC w) (attempts w) (spawned w) (cc_done w);
  i_first : sender (waitC w) = None -> forall a, ~ listed (conns w) a;
  i_done : conns w = None -> cc_done w = true;
  i_torn : torn w = true -> conns w = None;
  i_returned : returned w;
}.

(** ** What a goroutine relies on *)

(** A goroutine has something to do with it. *)
Definition mine (tid : nat) (x : addrConn) : Prop :=
  at_place x = Fresh tid \/ at_place x = Leaving tid /\ state x <> Shutdown \/ driver x = Some tid.

Record ac_rely (tid : nat) (cs : option (gmap string nat)) (x x' : addrConn) : Prop := {
  ar_driver : driver x = Some tid -> driver x' = Some tid /\ (state x' = state x \/ state x' = Shutdown) /\ ac_transport x' = ac_transport x;
  ar_ctx : driver x = Some tid -> ac_done x' = true -> ac_done x = true \/ cs = None;
  ar_shutdown : state x = Shutdown -> state x' = Shutdown;
  ar_transport : is_Some (ac_transport x) -> is_Some (ac_transport x');
  ar_fresh : at_place x = Fresh tid -> at_place x' = Fresh tid;
  ar_leaving : at_place x = Leaving tid -> at_place x' = Leaving tid;
  ar_mine : mine tid x' -> mine tid x;
  ar_place : at_place x' = Leaving tid -> at_place x = Leaving tid;
}.

Record t_rely (tid : nat) (t t' : transport) : Prop := {
  tr_owner : owner t' = owner t;
  tr_closing : t_state t = closing -> t_state t' = closing;
  tr_maker : maker t = Some tid -> maker t' = Some tid \/ t_state t' = closing;
  tr_mine : maker t' = Some tid -> alive t' -> maker t = Some tid /\ alive t;
}.

Record rely (tid : nat) (w w' : ClientConn) : Prop := {
  r_acs a x : acs w !! a = Some x -> exists x', acs w' !! a = Some x' /\ ac_rely tid (conns w') x x';
  r_transports i t : transports w !! i = Some t -> exists t', transports w' !! i = Some t' /\ t_rely tid t t';
  r_new_ac a x' : acs w' !! a = Some x' -> acs w !! a = None -> ~ mine tid x' /\ at_place x' <> Leaving tid;
  r_new_transport i t' : transports w' !! i = Some t' -> transports w !! i = None -> alive t' -> maker t' <> Some tid;
  r_readies c a b : readies w !! c = Some (a, b) -> exists b', readies w' !! c = Some (a, b') /\ (b = true -> b' = true);
  r_conns : conns w = None -> conns w' = None;
  r_done : cc_done w = true -> cc_done w' = true;
  r_attempts : (attempts w <= attempts w')%nat;
  r_active : (tid ∈ active w) <-> (tid ∈ active w');
  r_asleep : asleep w' !! tid = asleep w !! tid;
  r_sender : sender (waitC w) = Some tid ->
    sender (waitC w') = Some tid /\ sent (waitC w') = sent (waitC w) /\ closed (waitC w') = closed (waitC w);
  r_unlisted : sender (waitC w) = Some tid -> (forall a, ~ listed (conns w) a) -> forall a, ~ listed (conns w') a;
  r_dialled e : dialled w = Some e -> dialled w' = Some e;
  r_ctx e : dial_ctx w = Some e -> dial_ctx w' = Some e;
  r_closed : closed (waitC w) = true -> closed (waitC w') = true /\ sent (waitC w') = sent (waitC w);
  r_sent e : sent (waitC w) = Some e -> sent (waitC w') = Some e;
  r_zero : tid = 0%nat -> dialled w' = dialled w /\ taken (waitC w') = taken (waitC w) /\
    (dialled w = None -> cc_done w' = cc_done w) /\
    (sender (waitC w) = None -> GDial ∉ spawned w -> sender (waitC w') = None /\ (GDial ∉ spawned w') /\ waitC w' = waitC w);
}.

Lemma ac_rely_refl tid cs x : ac_rely tid cs x x.
Proof. split; auto. Qed.

Lemma ac_rely_trans tid cs cs' x y z : (cs = None -> cs' = None) -> ac_rely tid cs x y -> ac_rely tid cs' y z -> ac_rely tid cs' x z.
Proof.
  intros Hcs [A1 A2 A3 A4 A5 A6 A7 A8] [B1 B2 B3 B4 B5 B6 B7 B8]. split; [| |auto..].
  - intros Hd. destruct (A1 Hd) as (Hd' & Hs & Ht). destruct (B1 Hd') as (Hd2 & Hs2 & Ht2). split; [done|]. split; [|congruence].
    destruct Hs2 as [Hs2|Hs2]; [|by right]. destruct Hs as [Hs|Hs]; [left|right]; congruence.
  - intros Hd Hz. destruct (A1 Hd) as (Hd' & _). destruct (B2 Hd' Hz) as [Hy|]; [|by right]. destruct (A2 Hd Hy); auto.
Qed.

Lemma t_rely_refl tid t : t_rely tid t t.
Proof. by split; auto. Qed.

#[export] Instance t_rely_preorder tid : PreOrder (t_rely tid).
Proof.
  split; [by intros t; split; auto|]. intros x y z [A1 A2 A3 A4] [B1 B2 B3 B4]. split; [congruence|auto| |].
  - intros Hm. destruct (A3 Hm); auto.
  - intros Hm Hal. destruct (B4 Hm Hal) as [? ?]. auto.
Qed.

#[export] Instance conn_rely_preorder tid : PreOrder (rely tid).
Proof.
  split.
  - intros w. split; try done; try (intros; eexists; split; [eassumption|done || apply ac_rely_refl]); congruence.
  - intros u v w [A1 A2 A16 A17 A3 A4 A5 A6 A7 A8 A9 A15 A10 A11 A12 A13 A14] [B1 B2 B16 B17 B3 B4 B5 B6 B7 B8 B9 B15 B10 B11 B12 B13 B14].
    split; try by auto.
    + intros a x Hx. destruct (A1 a x Hx) as (y & Hy & Hxy). destruct (B1 a y Hy) as (z & Hz & Hyz). exists z. split; [done|].
      by eapply ac_rely_trans.
    + intros a x Hx. destruct (A2 a x Hx) as (y & Hy & Hxy). destruct (B2 a y Hy) as (z & Hz & Hyz). exists z. split; [done|by etransitivity].
    + intros a z Hz Hu. destruct (acs v !! a) as [y|] eqn:Hy; [|by apply (B16 a)].
      destruct (B1 a y Hy) as (z' & Hz' & Hyz). assert (z' = z) as -> by congruence. destruct (A16 a y Hy Hu) as [N1 N2].
      split; [intros Hm; by eapply N1, ar_mine|intros Hl; by eapply N2, ar_place].
    + intros i z Hz Hu Hal Hm. destruct (transports v !! i) as [y|] eqn:Hy; [|by apply (B17 i z)].
      destruct (B2 i y Hy) as (z' & Hz' & Hyz). assert (z' = z) as -> by congruence.
      destruct (tr_mine _ _ _ Hyz Hm Hal) as [Hmy Haly]. by apply (A17 i y).
    + intros c a b Hc. destruct (A3 c a b Hc) as (b1 & H1 & Hb1). destruct (B3 c a b1 H1) as (b2 & H2 & Hb2). exists b2. auto.
    + lia.
    + by rewrite A7.
    + by rewrite B8.
    + intros Hs. destruct (A9 Hs) as (H1 & H2 & H3). destruct (B9 H1) as (H4 & H5 & H6). split; [done|]. split; congruence.
    + intros Hs Hl. apply B15; [by apply A9|auto].
    + intros Hc. destruct (A12 Hc) as [H1 H2]. destruct (B12 H1) as [H3 H4]. split; [done|congruence].
    + intros Htid. destruct (A14 Htid) as (H1 & H2 & H3 & H4), (B14 Htid) as (H5 & H6 & H7 & H8).
      split; [congruence|]. split; [congruence|]. split; [intros Hd; rewrite H7, H3; congruence|].
      intros Hs Hg. destruct (H4 Hs Hg) as (K1 & K2 & K3). destruct (H8 K1 K2) as (K4 & K5 & K6). split; [done|]. split; [done|congruence].
Qed.

(** ** How the parts change *)

Section places.
Context (xs : list addrConn) (cs : option (gmap string nat)) (sp : list goroutine) (act : gset nat) (Hok : places_ok xs cs sp act).

Lemma no_token a x : xs !! a = Some x -> is_Some (driver x) -> ~ token sp a.
Proof.
  intros Hx [tid Hd] [Hc|Hm].
  - destruct (po_connect _ _ _ _ Hok a Hc) as (y & Hy & [Hn _ _ _]). congruence.
  - destruct (po_monitor _ _ _ _ Hok a Hm) as (y & Hy & [Hn _ _ _]). congruence.
Qed.

Lemma listed_tracked a x : xs !! a = Some x -> listed cs a -> at_place x = Tracked.
Proof.
  intros Hx (m & Hm & Ha). destruct (po_conns _ _ _ _ Hok m _ a Hm Ha) as (_ & y & Hy & Hp). congruence.
Qed.

(** A goroutine that has [a] to itself, or tears it down. *)
Lemma driven_alone a x tid : xs !! a = Some x -> driver x = Some tid \/ at_place x = Leaving tid -> token sp a -> cs = None.
Proof.
  intros Hx [Hd|Hl] Ht.
  - edestruct (no_token a x); [done| |done]. by rewrite Hd.
  - destruct (pl_driven _ _ _ _ _ (po_acs _ _ _ _ Hok a x Hx)) as [|[Hli _]]; [by right|done|].
    rewrite (listed_tracked a x Hx Hli) in Hl. done.
Qed.

Lemma places_set a x x' :
  xs !! a = Some x -> placed cs sp act a x' -> (at_place x = Tracked -> at_place x' = Tracked \/ ~ listed cs a) ->
  (GConnect a ∈ sp -> connecting cs x') -> (GMonitor a ∈ sp -> connected cs x') -> places_ok (<[a := x']> xs) cs sp act.
Proof.
  intros Hx Hp Ht Hc Hm. destruct Hok as [H1 H2 H3 H4 H5]. split; [| |done| |].
  - intros b y Hb. destruct (decide (a = b)) as [<-|Hne].
    + rewrite list_lookup_insert_eq in Hb by (by eapply lookup_lt_Some). congruence.
    + rewrite list_lookup_insert_ne in Hb by done. by apply H1.
  - intros m k b Hcs Hk. destruct (H2 m k b Hcs Hk) as (-> & y & Hy & Hpy). split; [done|].
    destruct (decide (a = b)) as [<-|Hne].
    + rewrite list_lookup_insert_eq by (by eapply lookup_lt_Some). exists x'. split; [done|]. rewrite Hx in Hy. injection Hy as ->.
      destruct (Ht Hpy) as [|Hn]; [done|]. destruct Hn. by exists m.
    + rewrite list_lookup_insert_ne by done. eauto.
  - intros b Hb. destruct (decide (a = b)) as [<-|Hne].
    + rewrite list_lookup_insert_eq by (by eapply lookup_lt_Some). eauto.
    + rewrite list_lookup_insert_ne by done. eauto.
  - intros b Hb. destruct (decide (a = b)) as [<-|Hne].
    + rewrite list_lookup_insert_eq by (by eapply lookup_lt_Some). eauto.
    + rewrite list_lookup_insert_ne by done. eauto.
Qed.

(** Of one that has a goroutine to itself. *)
Lemma places_set_driven a x x' :
  xs !! a = Some x -> is_Some (driver x) -> placed cs sp act a x' -> (at_place x = Tracked -> at_place x' = Tracked \/ ~ listed cs a) ->
  places_ok (<[a := x']> xs) cs sp act.
Proof.
  intros Hx Hd Hp Ht. eapply places_set; [done..| |]; intros Hin; edestruct (no_token a x); try done; [by left|by right].
Qed.

Lemma places_active act' :
  (forall a x tid, xs !! a = Some x -> tid ∈ act ->
     at_place x = Fresh tid \/ at_place x = Leaving tid /\ state x <> Shutdown \/ driver x = Some tid -> tid ∈ act') ->
  places_ok xs cs sp act'.
Proof.
  intros Hact. destruct Hok as [H1 H2 H3 H4 H5]. split; try done. intros a x Hx. destruct (H1 a x Hx) as [P1 P2 P3 P4 P5 P6 P7].
  split; try done.
  - intros tid Hf. destruct (P2 tid Hf) as (Ha & Hrest). split; [|done]. eapply Hact; eauto.
  - intros tid Hl. destruct (decide (state x = Shutdown)) as [|Hs]; [by left|right]. destruct (P4 tid Hl) as [|Ha]; [done|].
    eapply Hact; eauto.
  - intros tid Hd. eapply Hact; eauto.
Qed.

Lemma places_new x tid :
  addr x = target -> at_place x = Fresh tid -> tid ∈ act -> state x = Idle -> ac_done x = false -> ac_transport x = None -> driver x = None ->
  places_ok (xs ++ [x]) cs sp act.
Proof.
  intros Ha Hp Hact Hs Hdone Ht Hd. destruct Hok as [H1 H2 H3 H4 H5].
  assert (forall a y, xs !! a = Some y -> (xs ++ [x]) !! a = Some y) as Hold.
  { intros a y Hy. rewrite lookup_app_l; [done|]. by eapply lookup_lt_Some. }
  split; [| |done| |].
  - intros a y [Hy|[Hlen Hy]]%lookup_app_Some; [by apply H1|]. apply list_lookup_singleton_Some in Hy as [Hz <-].
    assert (~ token sp a) as Hno.
    { intros [Hc|Hm].
      - destruct (H4 a Hc) as (y & Hy & _). apply lookup_lt_Some in Hy. lia.
      - destruct (H5 a Hm) as (y & Hy & _). apply lookup_lt_Some in Hy. lia. }
    split; try congruence.
    + intros tid' Hf. rewrite Hp in Hf. by injection Hf as <-.
    + intros [Hd'|Htok]; [|done]. rewrite Hd in Hd'. by destruct Hd'.
  - intros m k a Hm Hk. destruct (H2 m k a Hm Hk) as (-> & y & Hy & Hpy). eauto.
  - intros a Hin. destruct (H4 a Hin) as (y & Hy & Hc). eauto.
  - intros a Hin. destruct (H5 a Hin) as (y & Hy & Hc). eauto.
Qed.

(** [go], and the beginning of what it starts. *)
Definition starts (g : goroutine) (a : nat) (x : addrConn) : Prop :=
  g = GConnect a /\ connecting cs x \/ g = GMonitor a /\ connected cs x.

Lemma places_go g a x tid :
  xs !! a = Some x -> driver x = Some tid -> starts g a (with_driver None x) -> places_ok (<[a := with_driver None x]> xs) cs (sp ++ [g]) act.
Proof.
  intros Hx Hd Hg. pose proof (no_token a x Hx (mk_is_Some _ _ Hd)) as Hno. destruct Hok as [H1 H2 H3 H4 H5].
  pose proof (lookup_lt_Some _ _ _ Hx) as Hlt.
  assert (forall b, b <> a -> token (sp ++ [g]) b -> token sp b) as Htok.
  { unfold token. intros b Hne. rewrite !elem_of_app, !list_elem_of_singleton. destruct Hg as [[-> _]|[-> _]]; intros [[|[= ->]]|[|[= ->]]]; tauto. }
  assert (forall b, (GConnect b ∈ sp -> b <> a) /\ (GMonitor b ∈ sp -> b <> a)) as Hab.
  { intros b. split; intros Hb ->; apply Hno; [by left|by right]. }
  split.
  - intros b y Hb. destruct (decide (a = b)) as [<-|Hne].
    + rewrite list_lookup_insert_eq in Hb by done. injection Hb as <-. destruct (H1 a x Hx) as [P1 P2 P3 P4 P5 P6 P7]. split; try done.
      * intros tid' Hf. destruct (P2 tid' Hf) as (_ & _ & _ & Hn & _). congruence.
      * intros Hf. destruct (P5 Hf) as (_ & Hn & _). congruence.
      * intros _. apply P6. left. by rewrite Hd.
    + rewrite list_lookup_insert_ne in Hb by done. destruct (H1 b y Hb) as [P1 P2 P3 P4 P5 P6 P7]. split; try done.
      * intros tid' Hf. destruct (P2 tid' Hf) as (? & [? ?] & ? & ? & Hn). repeat split; try done. intros Ht. apply Hn. by apply Htok.
      * intros Hf. destruct (P5 Hf) as (? & ? & Hn). repeat split; try done. intros Ht. apply Hn. by apply Htok.
      * intros [Hd'|Ht]; apply P6; [by left|right]. by apply Htok.
  - intros m k b Hm Hk. destruct (H2 m k b Hm Hk) as (-> & y & Hy & Hp). split; [done|]. destruct (decide (a = b)) as [<-|Hne].
    + exists (with_driver None x). rewrite list_lookup_insert_eq by done. split; [done|]. cbn. congruence.
    + rewrite list_lookup_insert_ne by done. eauto.
  - apply NoDup_app. split; [done|]. split; [|apply NoDup_singleton]. intros g' Hg' ->%list_elem_of_singleton.
    apply Hno. destruct Hg as [[-> _]|[-> _]]; [by left|by right].
  - intros b [Hb|Hb%list_elem_of_singleton]%elem_of_app.
    + rewrite list_lookup_insert_ne by (intros <-; by destruct (proj1 (Hab a) Hb)). eauto.
    + destruct Hg as [[-> Hc]|[-> _]]; [|done]. injection Hb as ->. rewrite list_lookup_insert_eq by done. eauto.
  - intros b [Hb|Hb%list_elem_of_singleton]%elem_of_app.
    + rewrite list_lookup_insert_ne by (intros <-; by destruct (proj2 (Hab a) Hb)). eauto.
    + destruct Hg as [[-> _]|[-> Hc]]; [done|]. injection Hb as ->. rewrite list_lookup_insert_eq by done. eauto.
Qed.

Lemma places_begin g a x tid :
  g = GConnect a \/ g = GMonitor a -> g ∈ sp -> xs !! a = Some x ->
  places_ok (<[a := with_driver (Some tid) x]> xs) cs (list_difference sp [g]) ({[tid]} ∪ act).
Proof.
  intros Hga Hg Hx. pose proof (lookup_lt_Some _ _ _ Hx) as Hlt.
  assert (token sp a) as Htok by (destruct Hga as [-> | ->]; [by left|by right]).
  destruct Hok as [H1 H2 H3 H4 H5].
  assert (forall b, token (list_difference sp [g]) b -> token sp b) as Hless.
  { unfold token. intros b. rewrite !list_elem_of_difference. tauto. }
  assert (forall b, (GConnect b ∈ list_difference sp [g] -> b <> a) /\ (GMonitor b ∈ list_difference sp [g] -> b <> a)) as Hab.
  { assert (GConnect a ∈ sp -> GMonitor a ∈ sp -> False) as Hboth.
    { intros Hc Hm. destruct (H4 a Hc) as (y & Hy & [_ _ _ Hn]), (H5 a Hm) as (z & Hz & [_ _ _ Hs]).
      rewrite Hy in Hz. injection Hz as <-. rewrite Hn in Hs. by destruct Hs. }
    intros b. rewrite !list_elem_of_difference, !list_elem_of_singleton. split; intros [Hb Hn] ->; destruct Hga as [-> | ->]; tauto. }
  split.
  - intros b y Hb. destruct (decide (a = b)) as [<-|Hne].
    + rewrite list_lookup_insert_eq in Hb by done. injection Hb as <-. destruct (H1 a x Hx) as [P1 P2 P3 P4 P5 P6 P7]. split; try done.
      * intros tid' Hf. by destruct (P2 tid' Hf) as (_ & _ & _ & _ & Hn).
      * intros tid' Hl. destruct (P4 tid' Hl); [by left|right]. set_solver.
      * intros Hf. by destruct (P5 Hf) as (_ & _ & Hn).
      * intros _. apply P6. by right.
      * intros tid' [= <-]. set_solver.
    + rewrite list_lookup_insert_ne in Hb by done. destruct (H1 b y Hb) as [P1 P2 P3 P4 P5 P6 P7]. split; try done.
      * intros tid' Hf. destruct (P2 tid' Hf) as (? & [? ?] & ? & ? & Hn). repeat split; try done; [set_solver|]. intros Ht. apply Hn. by apply Hless.
      * intros tid' Hl. destruct (P4 tid' Hl); [by left|right]. set_solver.
      * intros Hf. destruct (P5 Hf) as (? & ? & Hn). repeat split; try done. intros Ht. apply Hn. by apply Hless.
      * intros [Hd'|Ht]; apply P6; [by left|right]. by apply Hless.
      * intros tid' Hd. pose proof (P7 tid' Hd). set_solver.
  - intros m k b Hm Hk. destruct (H2 m k b Hm Hk) as (-> & y & Hy & Hp). split; [done|]. destruct (decide (a = b)) as [<-|Hne].
    + exists (with_driver (Some tid) x). rewrite list_lookup_insert_eq by done. split; [done|]. cbn. congruence.
    + rewrite list_lookup_insert_ne by done. eauto.
  - by apply NoDup_list_difference.
  - intros b Hb. rewrite list_lookup_insert_ne by (intros <-; by destruct (proj1 (Hab a) Hb)). apply H4. by apply list_elem_of_difference in Hb as [? _].
  - intros b Hb. rewrite list_lookup_insert_ne by (intros <-; by destruct (proj2 (Hab a) Hb)). apply H5. by apply list_elem_of_difference in Hb as [? _].
Qed.

(** What is in [conns] is given up by the goroutine that worked on it. *)
Definition without (b : option nat) (tid : nat) : list addrConn :=
  match b with
  | Some b => match xs !! b with Some y => <[b := with_driver None (with_at_place (Leaving tid) y)]> xs | None => xs end
  | None => xs
  end.

Lemma lookup_without b tid c y :
  without b tid !! c = Some y ->
  b <> Some c /\ xs !! c = Some y \/ b = Some c /\ exists y0, xs !! c = Some y0 /\ y = with_driver None (with_at_place (Leaving tid) y0).
Proof.
  unfold without. destruct b as [b|]; [|by left]. destruct (xs !! b) as [y0|] eqn:Hb.
  - destruct (decide (b = c)) as [<-|Hne].
    + rewrite list_lookup_insert_eq by (by eapply lookup_lt_Some). intros [= <-]. right. eauto.
    + rewrite list_lookup_insert_ne by done. left. split; [congruence|done].
  - intros Hc. left. split; [congruence|done].
Qed.

(** One that is not in [conns]. *)
Lemma placed_apart cs' c y :
  cs <> None -> xs !! c = Some y -> ~ listed cs c -> placed cs sp act c y -> placed cs' sp act c y.
Proof.
  intros Hcs Hc Hl [P1 P2 P3 P4 P5 P6 P7]. split; try done.
  - intros Ht. destruct (P3 Ht); [by left|done].
  - intros Hd. destruct (P6 Hd) as [|[Hli _]]; done.
Qed.

Lemma placed_without cs' y tid c :
  cs <> None -> xs !! c = Some y -> listed cs c -> driver y = Some tid -> tid ∈ act ->
  placed cs' sp act c (with_driver None (with_at_place (Leaving tid) y)).
Proof.
  intros Hcs Hc Hl Hd Hact. pose proof (no_token c y Hc (mk_is_Some _ _ Hd)) as Hno.
  destruct (po_acs _ _ _ _ Hok c y Hc) as [P1 P2 P3 P4 P5 P6 P7]. split; try done.
  - intros tid' [= <-]. by right.
  - intros [Hs|Ht]; [by destruct Hs|done].
Qed.

Lemma places_track a x tid m :
  cs = Some m -> xs !! a = Some x -> at_place x = Fresh tid ->
  (forall b, m !! target = Some b -> exists y, xs !! b = Some y /\ driver y = Some tid) ->
  places_ok (<[a := with_driver (Some tid) (with_at_place Tracked x)]> (without (m !! target) tid)) (Some (<[target := a]> m)) sp act.
Proof.
  intros Hcs Hx Hf Hst. destruct (pl_fresh _ _ _ _ _ (po_acs _ _ _ _ Hok a x Hx) tid Hf) as (Hact & [Hs Hnd] & Ht & Hd & Hno).
  assert (~ listed cs a) as Hnl by (intros Hl; pose proof (listed_tracked a x Hx Hl); congruence).
  assert (length (without (m !! target) tid) = length xs) as Hlen.
  { unfold without. destruct (m !! target) as [b|]; [|done]. destruct (xs !! b); [by rewrite length_insert|done]. }
  assert (forall b, listed cs b <-> m !! target = Some b) as Hlisted.
  { intros b. split; [intros (m' & Hm' & Hb); congruence|]. intros Hb. by exists m. }
  assert (forall c, token sp c -> m !! target <> Some c) as Htok.
  { intros c Hc Hm. destruct (Hst c Hm) as (y & Hy & Hdy). by apply (no_token c y Hy (mk_is_Some _ _ Hdy)). }
  split.
  - intros c y Hc. destruct (decide (a = c)) as [<-|Hne].
    + rewrite list_lookup_insert_eq in Hc by (rewrite Hlen; by eapply lookup_lt_Some). injection Hc as <-.
      destruct (po_acs _ _ _ _ Hok a x Hx) as [P1 P2 P3 P4 P5 P6 P7]. split; try done.
      * intros _. right. exists (<[target := a]> m). by rewrite lookup_insert_eq.
      * intros _. right. split; [exists (<[target := a]> m); by rewrite lookup_insert_eq|]. cbn. by rewrite Hs.
      * by intros tid' [= <-].
    + rewrite list_lookup_insert_ne in Hc by done. destruct (lookup_without _ _ _ _ Hc) as [[Hm Hy]|(Hm & y0 & Hy0 & ->)].
      * eapply placed_apart; [by rewrite Hcs|exact Hy|by rewrite Hlisted|by eapply po_acs].
      * destruct (Hst c Hm) as (y1 & Hy1 & Hd1). assert (y1 = y0) as -> by congruence.
        eapply placed_without; [by rewrite Hcs|done|by rewrite Hlisted|done|done].
  - intros m' k c [= <-] Hk. destruct (decide (k = target)) as [->|Hne].
    + rewrite lookup_insert_eq in Hk. injection Hk as <-. split; [done|].
      exists (with_driver (Some tid) (with_at_place Tracked x)). split; [|done].
      rewrite list_lookup_insert_eq; [done|]. rewrite Hlen. by eapply lookup_lt_Some.
    + rewrite lookup_insert_ne in Hk by done. by destruct (po_conns _ _ _ _ Hok m k c Hcs Hk) as (-> & _).
  - apply Hok.
  - intros c Hin. destruct (po_connect _ _ _ _ Hok c Hin) as (y & Hy & [C1 C2 C3 C4]). exists y.
    rewrite list_lookup_insert_ne by (intros <-; apply Hno; by left). split.
    + unfold without. destruct (m !! target) as [b|] eqn:Hb; [|done]. destruct (xs !! b); [|done].
      rewrite list_lookup_insert_ne; [done|]. intros <-. apply (Htok b); [by left|done].
    + split; try done. intros Hdone. apply C2 in Hdone. congruence.
  - intros c Hin. destruct (po_monitor _ _ _ _ Hok c Hin) as (y & Hy & [C1 C2 C3 C4]). exists y.
    rewrite list_lookup_insert_ne by (intros <-; apply Hno; by right). split.
    + unfold without. destruct (m !! target) as [b|] eqn:Hb; [|done]. destruct (xs !! b); [|done].
      rewrite list_lookup_insert_ne; [done|]. intros <-. apply (Htok b); [by right|done].
    + split; try done. intros Hdone. apply C2 in Hdone. congruence.
Qed.

Lemma places_untrack a x tid m :
  cs = Some m -> xs !! a = Some x -> driver x = Some tid ->
  places_ok (<[a := with_driver None (with_at_place (Leaving tid) x)]> xs) (Some (delete target m)) sp act.
Proof.
  intros Hcs Hx Hd. pose proof (no_token a x Hx (mk_is_Some _ _ Hd)) as Hno.
  destruct (po_acs _ _ _ _ Hok a x Hx) as [_ _ _ _ _ P6 P7].
  destruct P6 as [|[(m0 & Hm0 & Ha) _]]; [left; by rewrite Hd|congruence|]. assert (m0 = m) as -> by congruence.
  assert (forall c, listed cs c -> c = a) as Honly by (intros c (m' & Hm' & Hc); congruence).
  split.
  - intros c y Hc. destruct (decide (a = c)) as [<-|Hne].
    + rewrite list_lookup_insert_eq in Hc by (by eapply lookup_lt_Some). injection Hc as <-.
      eapply placed_without; [by rewrite Hcs|done|by exists m|done|by apply P7].
    + rewrite list_lookup_insert_ne in Hc by done. eapply placed_apart; [by rewrite Hcs|done| |by eapply po_acs]. intros Hl. by apply Honly in Hl.
  - intros m' k c [= <-] Hk. apply lookup_delete_Some in Hk as [Hk Hmk]. by destruct (po_conns _ _ _ _ Hok m k c Hcs Hmk) as (-> & _).
  - apply Hok.
  - intros c Hin. destruct (po_connect _ _ _ _ Hok c Hin) as (y & Hy & [C1 C2 C3 C4]). exists y.
    rewrite list_lookup_insert_ne by (intros <-; apply Hno; by left). split; [done|]. split; try done. intros Hdone. apply C2 in Hdone. congruence.
  - intros c Hin. destruct (po_monitor _ _ _ _ Hok c Hin) as (y & Hy & [C1 C2 C3 C4]). exists y.
    rewrite list_lookup_insert_ne by (intros <-; apply Hno; by right). split; [done|]. split; try done. intros Hdone. apply C2 in Hdone. congruence.
Qed.

(** [Close] takes them all. *)
Definition taken_by (l : list nat) (tid : nat) : list addrConn :=
  imap (fun a x => if bool_decide (a ∈ l) then with_at_place (Leaving tid) x else x) xs.

Lemma lookup_taken_by l tid a x :
  xs !! a = Some x -> taken_by l tid !! a = Some (if bool_decide (a ∈ l) then with_at_place (Leaving tid) x else x).
Proof. intros Hx. unfold taken_by. by rewrite list_lookup_imap, Hx. Qed.

Lemma lookup_taken_by_inv l tid a y :
  taken_by l tid !! a = Some y -> exists x, xs !! a = Some x /\ y = (if bool_decide (a ∈ l) then with_at_place (Leaving tid) x else x).
Proof. unfold taken_by. rewrite list_lookup_imap. destruct (xs !! a) as [x|]; [|done]. intros [= <-]. eauto. Qed.

Lemma elem_of_conns m a : cs = Some m -> a ∈ (map_to_list m).*2 <-> listed cs a.
Proof.
  intros Hcs. rewrite list_elem_of_fmap. split.
  - intros ([k b] & -> & Hin). apply elem_of_map_to_list in Hin. destruct (po_conns _ _ _ _ Hok m k b Hcs Hin) as (-> & _). by exists m.
  - intros (m' & Hm' & Ha). assert (m' = m) as -> by congruence. exists (target, a). split; [done|]. by apply elem_of_map_to_list.
Qed.

Lemma places_close tid m : cs = Some m -> tid ∈ act -> places_ok (taken_by (map_to_list m).*2 tid) None sp act.
Proof.
  intros Hcs Hact. destruct Hok as [H1 H2 H3 H4 H5]. split; [|done|done| |].
  - intros a y Hy. destruct (lookup_taken_by_inv _ _ _ _ Hy) as (x & Hx & ->). destruct (H1 a x Hx) as [P1 P2 P3 P4 P5 P6 P7].
    case_bool_decide as Hin.
    + pose proof Hin as Hl. rewrite (elem_of_conns m a Hcs) in Hl. pose proof (listed_tracked a x Hx Hl) as Hp.
      split; try done; [|by left]. intros tid' [= <-]. by right.
    + rewrite (elem_of_conns m a Hcs) in Hin. split; try done; [|by left]. intros Ht. destruct (P3 Ht); [by left|done].
  - intros a Hin. destruct (H4 a Hin) as (x & Hx & [C1 C2 C3 C4]). eexists. split; [by apply lookup_taken_by|].
    by case_bool_decide; split.
  - intros a Hin. destruct (H5 a Hin) as (x & Hx & [C1 C2 C3 C4]). eexists. split; [by apply lookup_taken_by|].
    by case_bool_decide; split.
Qed.
End places.

(** ** The channels on which calls wait *)

Section readies.
Context (xs : list addrConn) (rd : list (nat * bool)) (sl : gmap nat sleeper) (Hok : readies_ok xs rd sl).

Definition early (x : addrConn) : Prop := state x = Idle \/ state x = Connecting.

Lemma readies_set a x x' :
  xs !! a = Some x -> ready x' = ready x -> (is_Some (ready x) -> state x' <> Ready /\ state x' <> Shutdown /\ (early x -> early x')) ->
  readies_ok (<[a := x']> xs) rd sl.
Proof.
  intros Hx Hr Hs. destruct Hok as [H1 H2 H3]. pose proof (lookup_lt_Some _ _ _ Hx) as Hlt. split.
  - intros b y c Hb Hc. destruct (decide (a = b)) as [<-|Hne].
    + rewrite list_lookup_insert_eq in Hb by done. injection Hb as <-. rewrite Hr in Hc. destruct (H1 a x c Hx Hc) as [Ha _].
      split; [done|]. destruct (Hs (mk_is_Some _ _ Hc)) as (? & ? & _). done.
    + rewrite list_lookup_insert_ne in Hb by done. by apply (H1 b).
  - intros c b Hc. destruct (H2 c b Hc) as (y & Hy & Hyc). destruct (decide (a = b)) as [<-|Hne].
    + exists x'. rewrite list_lookup_insert_eq by done. split; [done|]. congruence.
    + exists y. by rewrite list_lookup_insert_ne.
  - intros tid s Hsl. destruct (H3 tid s Hsl) as (o & Ho & Hopen). exists o. split; [done|]. intros -> Hf.
    destruct (Hopen eq_refl Hf) as (y & Hy & He). destruct (decide (a = waits_for s)) as [->|Hne].
    + exists x'. rewrite list_lookup_insert_eq by done. split; [done|]. destruct (H2 _ _ Ho) as (z & Hz & Hzc).
      assert (z = x) as -> by congruence. assert (y = x) as -> by congruence. by apply (Hs (mk_is_Some _ _ Hzc)).
    + exists y. by rewrite list_lookup_insert_ne.
Qed.

Lemma readies_close a x x' c :
  xs !! a = Some x -> ready x = Some c -> ready x' = None -> readies_ok (<[a := x']> xs) (<[c := (a, true)]> rd) sl.
Proof.
  intros Hx Hc Hx'. destruct Hok as [H1 H2 H3]. pose proof (lookup_lt_Some _ _ _ Hx) as Hlt.
  destruct (H1 a x c Hx Hc) as [Hrd _]. pose proof (lookup_lt_Some _ _ _ Hrd) as Hlt2. split.
  - intros b y c' Hb Hc'. destruct (decide (a = b)) as [<-|Hne].
    + rewrite list_lookup_insert_eq in Hb by done. congruence.
    + rewrite list_lookup_insert_ne in Hb by done. destruct (H1 b y c' Hb Hc') as [Hb' ?]. split; [|done].
      rewrite list_lookup_insert_ne; [done|]. intros ->. congruence.
  - intros c' b Hb. destruct (decide (c = c')) as [<-|Hne].
    + by rewrite list_lookup_insert_eq in Hb.
    + rewrite list_lookup_insert_ne in Hb by done. destruct (H2 c' b Hb) as (y & Hy & Hyc). exists y.
      rewrite list_lookup_insert_ne; [done|]. intros ->. congruence.
  - intros tid s Hsl. destruct (H3 tid s Hsl) as (o & Ho & Hopen). destruct (decide (c = on s)) as [->|Hne].
    + exists true. rewrite list_lookup_insert_eq by done. split; [|done]. congruence.
    + exists o. rewrite list_lookup_insert_ne by done. split; [done|]. intros -> Hf. destruct (Hopen eq_refl Hf) as (y & Hy & He).
      exists y. rewrite list_lookup_insert_ne; [done|]. intros ->. destruct (H2 _ _ Ho) as (z & Hz & Hzc). congruence.
Qed.

Lemma readies_new x : ready x = None -> readies_ok (xs ++ [x]) rd sl.
Proof.
  intros Hx. destruct Hok as [H1 H2 H3].
  assert (forall a y, xs !! a = Some y -> (xs ++ [x]) !! a = Some y) as Hold.
  { intros a y Hy. rewrite lookup_app_l; [done|]. by eapply lookup_lt_Some. }
  split.
  - intros a y c [Hy|[_ Hy]]%lookup_app_Some Hc; [by apply (H1 a)|]. apply list_lookup_singleton_Some in Hy as [_ <-]. congruence.
  - intros c a Hc. destruct (H2 c a Hc) as (y & Hy & Hyc). eauto.
  - intros tid s Hsl. destruct (H3 tid s Hsl) as (o & Ho & Hopen). exists o. split; [done|]. intros -> Hf.
    destruct (Hopen eq_refl Hf) as (y & Hy & He). eauto.
Qed.

(** A new channel, which is open. *)
Lemma readies_make a x :
  xs !! a = Some x -> ready x = None -> state x <> Ready -> state x <> Shutdown ->
  readies_ok (<[a := with_ready (Some (length rd)) x]> xs) (rd ++ [(a, false)]) sl.
Proof.
  intros Hx Hr Hs1 Hs2. destruct Hok as [H1 H2 H3]. pose proof (lookup_lt_Some _ _ _ Hx) as Hlt.
  assert (forall c p, rd !! c = Some p -> (rd ++ [(a, false)]) !! c = Some p) as Hold.
  { intros c p Hc. rewrite lookup_app_l; [done|]. by eapply lookup_lt_Some. }
  split.
  - intros b y c Hb Hc. destruct (decide (a = b)) as [<-|Hne].
    + rewrite list_lookup_insert_eq in Hb by done. injection Hb as <-. injection Hc as <-. split; [|done].
      by rewrite lookup_app_r, Nat.sub_diag by lia.
    + rewrite list_lookup_insert_ne in Hb by done. destruct (H1 b y c Hb Hc) as [? ?]. auto.
  - intros c b [Hc|[Hge Hc]]%lookup_app_Some.
    + destruct (H2 c b Hc) as (y & Hy & Hyc). exists y. rewrite list_lookup_insert_ne; [done|]. intros ->. congruence.
    + apply list_lookup_singleton_Some in Hc as [Hz [= <-]]. exists (with_ready (Some (length rd)) x).
      rewrite list_lookup_insert_eq by done. split; [done|]. cbn. f_equal. lia.
  - intros tid s Hsl. destruct (H3 tid s Hsl) as (o & Ho & Hopen). exists o. split; [auto|]. intros -> Hf.
    destruct (Hopen eq_refl Hf) as (y & Hy & He). destruct (decide (a = waits_for s)) as [->|Hne].
    + exists (with_ready (Some (length rd)) x). rewrite list_lookup_insert_eq by done. split; [done|]. cbn. congruence.
    + exists y. by rewrite list_lookup_insert_ne.
Qed.

Lemma readies_sleep tid a x c failfast :
  xs !! a = Some x -> ready x = Some c -> (failfast = true -> early x) -> readies_ok xs rd (<[tid := mkSleeper a c failfast]> sl).
Proof.
  intros Hx Hc Hf. destruct Hok as [H1 H2 H3]. split; [done|done|]. intros tid' s Hsl. destruct (decide (tid = tid')) as [<-|Hne].
  - rewrite lookup_insert_eq in Hsl. injection Hsl as <-. exists false. split; [by apply (H1 a x c)|]. intros _ Hff. exists x. split; [done|by apply Hf].
  - rewrite lookup_insert_ne in Hsl by done. by apply (H3 tid').
Qed.

Lemma readies_wake tid : readies_ok xs rd (delete tid sl).
Proof.
  destruct Hok as [H1 H2 H3]. split; [done|done|]. intros tid' s Hsl. apply lookup_delete_Some in Hsl as [_ Hsl]. by apply (H3 tid').
Qed.
End readies.

(** ** The transports *)

Section transports.
Context (xs : list addrConn) (ts : list transport) (act : gset nat) (Hok : transports_ok xs ts act).

Lemma transports_set a x x' :
  xs !! a = Some x -> ac_transport x' = ac_transport x -> (state x' = Ready -> is_Some (ac_transport x)) ->
  (state x' = Shutdown -> is_Some (tearDownErr x')) ->
  (state x' = Shutdown -> forall i t, ac_transport x = Some i -> ts !! i = Some t -> alive t ->
     (state x = Shutdown /\ tearDownErr x' = tearDownErr x) \/ tearDownErr x' = Some errConnDrain /\ t_state t = draining) ->
  transports_ok (<[a := x']> xs) ts act.
Proof.
  intros Hx Ht Hr Hs Hd. destruct Hok as [H1 H2]. pose proof (lookup_lt_Some _ _ _ Hx) as Hlt. split.
  - intros b y Hb. destruct (decide (a = b)) as [<-|Hne].
    + rewrite list_lookup_insert_eq in Hb by done. injection Hb as <-. destruct (H1 a x Hx) as (_ & _ & H3). rewrite Ht. auto.
    + rewrite list_lookup_insert_ne in Hb by done. by apply H1.
  - intros i t Hi Hal. destruct (H2 i t Hi Hal) as [|(Hm & y & Hy & Hyt & Hys)]; [by left|right]. split; [done|].
    destruct (decide (a = owner t)) as [->|Hne].
    + exists x'. rewrite list_lookup_insert_eq by done. assert (y = x) as -> by congruence. split; [done|]. split; [congruence|].
      destruct (decide (state x' = Shutdown)) as [Hs'|]; [right|by left].
      destruct (Hd Hs' i t Hyt Hi Hal) as [[Hsx Hsame]|]; [|done]. destruct Hys as [|[]]; [done|]. split; congruence.
    + exists y. by rewrite list_lookup_insert_ne.
Qed.

Lemma transports_change i t t' :
  ts !! i = Some t -> owner t' = owner t -> (maker t = None -> maker t' = None) ->
  (alive t' -> alive t /\ maker t' = maker t /\ (t_state t = draining -> t_state t' = draining)) -> transports_ok xs (<[i := t']> ts) act.
Proof.
  intros Hi Ho Hm Hal. destruct Hok as [H1 H2]. pose proof (lookup_lt_Some _ _ _ Hi) as Hlt. split.
  - intros a x Hx. destruct (H1 a x Hx) as (H3 & H4 & H5). split; [done|]. split; [done|]. intros j Hj.
    destruct (H5 j Hj) as (u & Hu & Hou & Hmu). destruct (decide (i = j)) as [<-|Hne].
    + exists t'. rewrite list_lookup_insert_eq by done. assert (u = t) as -> by congruence. split; [done|]. split; [congruence|auto].
    + exists u. by rewrite list_lookup_insert_ne.
  - intros j u Hj Hu. destruct (decide (i = j)) as [<-|Hne].
    + rewrite list_lookup_insert_eq in Hj by done. injection Hj as <-. destruct (Hal Hu) as (Ha & Hmk & Hdr). unfold held.
      rewrite Ho, Hmk. destruct (H2 i t Hi Ha) as [|(? & y & ? & ? & Hy)]; [by left|right]. split; [done|]. exists y.
      split; [done|]. split; [done|]. destruct Hy as [|[]]; [by left|right]. auto.
    + rewrite list_lookup_insert_ne in Hj by done. by apply H2.
Qed.

Lemma transports_close i t : ts !! i = Some t -> transports_ok xs (<[i := closed_transport t]> ts) act.
Proof. intros Hi. eapply transports_change; [done..|]. by intros []. Qed.

Lemma transports_made t tid : maker t = Some tid -> tid ∈ act -> transports_ok xs (ts ++ [t]) act.
Proof.
  intros Hm Hact. destruct Hok as [H1 H2]. split.
  - intros a x Hx. destruct (H1 a x Hx) as (H3 & H4 & H5). split; [done|]. split; [done|]. intros j Hj.
    destruct (H5 j Hj) as (u & Hu & ?). exists u. split; [|done]. rewrite lookup_app_l; [done|]. by eapply lookup_lt_Some.
  - intros j u [Hj|[_ Hj]]%lookup_app_Some Hu; [by apply H2|]. apply list_lookup_singleton_Some in Hj as [_ <-]. left. eauto.
Qed.

Lemma transports_new x : ac_transport x = None -> state x = Idle -> transports_ok (xs ++ [x]) ts act.
Proof.
  intros Ht Hs. destruct Hok as [H1 H2]. split.
  - intros a y [Hy|[_ Hy]]%lookup_app_Some; [by apply H1|]. apply list_lookup_singleton_Some in Hy as [_ <-].
    rewrite Hs. split; [done|]. split; [done|]. congruence.
  - intros j u Hj Hu. destruct (H2 j u Hj Hu) as [|(? & y & Hy & ?)]; [by left|right]. split; [done|]. exists y. split; [|done].
    rewrite lookup_app_l; [done|]. by eapply lookup_lt_Some.
Qed.

(** The new transport takes the place of one that is closed. *)
Lemma transports_take a i x x' t :
  xs !! a = Some x -> ts !! i = Some t -> owner t = a -> (forall j u, ac_transport x = Some j -> ts !! j = Some u -> t_state u = closing) ->
  ac_transport x' = Some i -> state x' = Ready -> transports_ok (<[a := x']> xs) (<[i := with_maker None t]> ts) act.
Proof.
  intros Hx Hi Ho Hq Ht Hs. destruct Hok as [H1 H2]. pose proof (lookup_lt_Some _ _ _ Hx) as Hlt. pose proof (lookup_lt_Some _ _ _ Hi) as Hlt2.
  split.
  - intros b y Hb. destruct (decide (a = b)) as [<-|Hne].
    + rewrite list_lookup_insert_eq in Hb by done. injection Hb as <-. rewrite Ht, Hs. split; [done|]. split; [done|].
      intros j [= <-]. exists (with_maker None t). by rewrite list_lookup_insert_eq.
    + rewrite list_lookup_insert_ne in Hb by done. destruct (H1 b y Hb) as (H3 & H4 & H5). split; [done|]. split; [done|].
      intros j Hj. destruct (H5 j Hj) as (u & Hu & Hou & Hmu). destruct (decide (i = j)) as [<-|Hij].
      * congruence.
      * exists u. by rewrite list_lookup_insert_ne.
  - intros j u Hj Hu. destruct (decide (i = j)) as [<-|Hij].
    + rewrite list_lookup_insert_eq in Hj by done. injection Hj as <-. right. split; [done|]. exists x'. cbn.
      rewrite Ho, list_lookup_insert_eq by done. split; [done|]. split; [done|]. left. by rewrite Hs.
    + rewrite list_lookup_insert_ne in Hj by done. destruct (H2 j u Hj Hu) as [|(Hm & y & Hy & Hyt & Hys)]; [by left|right].
      split; [done|]. destruct (decide (a = owner u)) as [->|Hne].
      * assert (y = x) as -> by congruence. by destruct Hu; eapply Hq.
      * exists y. by rewrite list_lookup_insert_ne.
Qed.

Lemma transports_active act' :
  (forall i t tid, ts !! i = Some t -> alive t -> maker t = Some tid -> tid ∈ act -> tid ∈ act') -> transports_ok xs ts act'.
Proof.
  intros Hact. destruct Hok as [H1 H2]. split; [done|]. intros i t Hi Hal.
  destruct (H2 i t Hi Hal) as [(tid & Hm & Ht)|]; [left|by right]. exists tid. split; [done|]. by eapply Hact.
Qed.
End transports.
End inv.

(** What a step leaves alone. *)
Ltac frame := split; cbn; try done; try (by intros; eexists; split; [done|apply ac_rely_refl || apply t_rely_refl]);
  try (by intros; eexists; split); try congruence.

(** * The steps of a goroutine that connects *)

(** ** Lists that change at one place *)

Lemma insert_pointwise {A} (R : A -> A -> Prop) (l : list A) i x x' :
  (forall y, R y y) -> l !! i = Some x -> R x x' ->
  forall j y, l !! j = Some y -> exists y', <[i := x']> l !! j = Some y' /\ R y y'.
Proof.
  intros Hrefl Hx HR j y Hy. destruct (decide (i = j)) as [<-|Hne].
  - exists x'. rewrite list_lookup_insert_eq by (by eapply lookup_lt_Some). split; [done|]. congruence.
  - exists y. by rewrite list_lookup_insert_ne.
Qed.

Lemma app_pointwise {A} (R : A -> A -> Prop) (l k : list A) :
  (forall y, R y y) -> forall j y, l !! j = Some y -> exists y', (l ++ k) !! j = Some y' /\ R y y'.
Proof. intros Hrefl j y Hy. exists y. split; [|done]. rewrite lookup_app_l; [done|]. by eapply lookup_lt_Some. Qed.

Lemma insert_none {A} (l : list A) i x j : l !! j = None -> <[i := x]> l !! j = None.
Proof. rewrite !lookup_ge_None. by rewrite length_insert. Qed.

Section steps.
Context (target : string) (dopts : dialOptions) (net : nat -> attempt).

#[local] Abbreviation inv := (inv target dopts net).
#[local] Abbreviation rely := (rely target).
#[local] Abbreviation listed := (listed target).
#[local] Abbreviation never := (fun _ : ClientConn => False).
#[local] Abbreviation wp := (Threads.wp inv rely never).
#[local] Abbreviation guarantee := (Threads.guarantee rely).
#[local] Abbreviation attempted_ok w := (attempted (attempts w) (succeeds dopts net)).

(** ** Assertions that the others leave alone *)

Class Stable (tid : nat) (J : ClientConn -> Prop) : Prop := stable : forall w w', rely tid w w' -> inv w' -> J w -> J w'.

#[export] Instance stable_and tid J K : Stable tid J -> Stable tid K -> Stable tid (fun w => J w /\ K w).
Proof. intros HJ HK w w' Hr Hi [? ?]. split; [by eapply HJ|by eapply HK]. Qed.
#[export] Instance stable_or tid J K : Stable tid J -> Stable tid K -> Stable tid (fun w => J w \/ K w).
Proof. intros HJ HK w w' Hr Hi [?|?]; [left; by eapply HJ|right; by eapply HK]. Qed.
#[export] Instance stable_ex {A} tid (J : A -> ClientConn -> Prop) : (forall a, Stable tid (J a)) -> Stable tid (fun w => exists a, J a w).
Proof. intros HJ w w' Hr Hi [a Ha]. exists a. by eapply HJ. Qed.
#[export] Instance stable_impl tid (P : Prop) J : Stable tid J -> Stable tid (fun w => P -> J w).
Proof. intros HJ w w' Hr Hi H HP. by eapply HJ; [..|apply H]. Qed.
#[export] Instance stable_const tid (P : Prop) : Stable tid (fun _ => P).
Proof. by intros w w' _ _. Qed.
#[export] Instance stable_conns tid : Stable tid (fun w => conns w = None).
Proof. intros w w' Hr _. apply Hr. Qed.
#[export] Instance stable_done tid : Stable tid (fun w => cc_done w = true).
Proof. intros w w' Hr _. apply Hr. Qed.
#[export] Instance stable_active tid : Stable tid (fun w => tid ∈ active w).
Proof. intros w w' Hr _. apply Hr. Qed.
#[export] Instance stable_attempted tid P : Stable tid (fun w => attempted (attempts w) P).
Proof. intros w w' Hr _ (k & Hk & HP). exists k. split; [|done]. pose proof (r_attempts _ _ _ _ Hr). lia. Qed.

(** The goroutine has the [addrConn] to itself: but for its being shut down, when the connection is closed. *)
Definition unshut (tid : nat) (x : addrConn) (w : ClientConn) : Prop := (ac_done x = true -> conns w = None) /\ at_place x <> Leaving tid.

Definition drives (tid a : nat) (P : addrConn -> Prop) (w : ClientConn) : Prop :=
  exists x, acs w !! a = Some x /\ driver x = Some tid /\ unshut tid x w /\ P x.

Definition settled (P : addrConn -> Prop) : Prop :=
  forall x x', ac_transport x' = ac_transport x -> state x' = state x \/ state x' = Shutdown -> P x -> P x'.

Lemma stable_drives tid a P : settled P -> Stable tid (drives tid a P).
Proof.
  intros HP w w' Hr _ (x & Hx & Hd & [Hc Hl] & Hpx). destruct (r_acs _ _ _ _ Hr a x Hx) as (x' & Hx' & [R1 R2 R3 R4 R5 R6 R7 R8]).
  destruct (R1 Hd) as (Hd' & Hs & Ht). exists x'. split; [done|]. split; [done|]. split; [|by eapply HP]. split; [|auto].
  intros Hdone. destruct (R2 Hd Hdone) as [Hx0|]; [|done]. eapply r_conns; [done|auto].
Qed.

(** The transport that there was is closed. *)
Definition drives_quiet (tid a : nat) (w : ClientConn) : Prop :=
  exists x, acs w !! a = Some x /\ driver x = Some tid /\ unshut tid x w /\
    forall i, ac_transport x = Some i -> exists u, transports w !! i = Some u /\ t_state u = closing.

#[export] Instance stable_drives_quiet tid a : Stable tid (drives_quiet tid a).
Proof.
  intros w w' Hr Hi (x & Hx & Hd & Hc & Hq).
  destruct (stable_drives tid a (fun y => ac_transport y = ac_transport x)) with w w' as (x' & Hx' & Hd' & Hc' & Ht).
  { intros y y' Hy _ Hyx. congruence. } { done. } { done. } { by exists x. }
  exists x'. split; [done|]. split; [done|]. split; [done|]. intros i Hi'. destruct (Hq i) as (u & Hu & Hcl); [congruence|].
  destruct (r_transports _ _ _ _ Hr i u Hu) as (u' & Hu' & [_ R2 _]). exists u'. auto.
Qed.

(** It has made a transport and not handed it on. *)
Definition made (tid i a : nat) (w : ClientConn) : Prop :=
  exists t, transports w !! i = Some t /\ owner t = a /\ (maker t = Some tid \/ t_state t = closing).

#[export] Instance stable_made tid i a : Stable tid (made tid i a).
Proof.
  intros w w' Hr _ (t & Ht & Ho & Hm). destruct (r_transports _ _ _ _ Hr i t Ht) as (t' & Ht' & [R1 R2 R3]). exists t'.
  split; [done|]. split; [congruence|]. destruct Hm as [Hm|Hm]; auto.
Qed.

Definition valid (i : nat) (w : ClientConn) : Prop := is_Some (transports w !! i).

#[export] Instance stable_valid tid i : Stable tid (valid i).
Proof. intros w w' Hr _ [t Ht]. destruct (r_transports _ _ _ _ Hr i t Ht) as (t' & Ht' & _). by exists t'. Qed.

(** What a goroutine has to do with: the [addrConn]s, and no transport, or one. *)
Definition keeps (tid : nat) (l : list nat) (w : ClientConn) : Prop := forall a x, acs w !! a = Some x -> mine tid x -> a ∈ l.
Definition clean (tid : nat) (w : ClientConn) : Prop := forall i t, transports w !! i = Some t -> alive t -> maker t <> Some tid.
Definition makes (tid i : nat) (w : ClientConn) : Prop :=
  forall j t, transports w !! j = Some t -> alive t -> maker t = Some tid -> j = i.

#[export] Instance stable_keeps tid l : Stable tid (keeps tid l).
Proof.
  intros w w' Hr _ Hk a x' Hx' Hm. destruct (acs w !! a) as [x|] eqn:Hx; [|by destruct (r_new_ac _ _ _ _ Hr a x' Hx' Hx)].
  destruct (r_acs _ _ _ _ Hr a x Hx) as (x2 & Hx2 & Hxx). assert (x2 = x') as -> by congruence. eapply Hk; [done|]. by eapply ar_mine.
Qed.
#[export] Instance stable_makes tid i : Stable tid (makes tid i).
Proof.
  intros w w' Hr _ Hk j t' Ht' Hal Hm. destruct (transports w !! j) as [t|] eqn:Ht; [|by destruct (r_new_transport _ _ _ _ Hr j t' Ht' Ht)].
  destruct (r_transports _ _ _ _ Hr j t Ht) as (t2 & Ht2 & Htt). assert (t2 = t') as -> by congruence.
  destruct (tr_mine _ _ _ Htt Hm Hal). by eapply Hk.
Qed.
#[export] Instance stable_clean tid : Stable tid (clean tid).
Proof.
  intros w w' Hr _ Hk j t' Ht' Hal Hm. destruct (transports w !! j) as [t|] eqn:Ht; [|by destruct (r_new_transport _ _ _ _ Hr j t' Ht' Ht)].
  destruct (r_transports _ _ _ _ Hr j t Ht) as (t2 & Ht2 & Htt). assert (t2 = t') as -> by congruence.
  destruct (tr_mine _ _ _ Htt Hm Hal). by eapply Hk.
Qed.

Lemma keeps_set tid l w w' a x' : acs w' = <[a := x']> (acs w) -> a ∈ l -> keeps tid l w -> keeps tid l w'.
Proof.
  intros Heq Ha Hk b y Hy Hm. destruct (decide (a = b)) as [<-|Hne]; [done|]. rewrite Heq, list_lookup_insert_ne in Hy by done. by eapply Hk.
Qed.

Lemma clean_close tid w i t : clean tid w -> transports w !! i = Some t -> clean tid (set_transport i (closed_transport t) w).
Proof.
  intros Hc Ht j u Hu Hal. cbn in Hu. destruct (decide (i = j)) as [<-|Hne]; [|rewrite list_lookup_insert_ne in Hu by done; by eapply Hc].
  rewrite list_lookup_insert_eq in Hu by (by eapply lookup_lt_Some). injection Hu as <-. by destruct Hal.
Qed.

(** The one transport is closed, or handed on. *)
Lemma makes_clean tid w w' i t :
  transports w' = <[i := t]> (transports w) -> valid i w -> t_state t = closing \/ maker t = None -> makes tid i w -> clean tid w'.
Proof.
  intros Heq [u Hu] Ht Hm j v Hv Hal Hmk. rewrite Heq in Hv. destruct (decide (i = j)) as [<-|Hne].
  - rewrite list_lookup_insert_eq in Hv by (by eapply lookup_lt_Some). injection Hv as <-. destruct Ht; [by destruct Hal|congruence].
  - rewrite list_lookup_insert_ne in Hv by done. apply Hne. symmetry. by eapply Hm.
Qed.

(** ** The rules *)

Lemma wp_step {B} tid (f : nat -> ClientConn -> result (B * ClientConn)) J `{!Stable tid J} (Q : B -> ClientConn -> Prop)
    `{!forall b, Stable tid (Q b)} w :
  J w ->
  (forall w1, inv w1 -> J w1 -> exists l, f tid w1 = Goes l /\ forall b w2, (b, w2) ∈ l -> inv w2 /\ guarantee tid w1 w2 /\ Q b w2) ->
  wp tid (act f) Q w.
Proof.
  intros HJ Hf w1 Hr Hi. destruct (Hf w1 Hi) as (l & -> & Hl); [by eapply Stable0|]. intros b w2 Hin.
  destruct (Hl b w2 Hin) as (Hi2 & Hg & HQ). split; [done|]. split; [done|]. intros w3 Hr3 Hi3. by eapply H.
Qed.

Lemma wp_sec {B} tid (f : nat -> ClientConn -> option (list (B * ClientConn))) J `{!Stable tid J} (Q : B -> ClientConn -> Prop)
    `{!forall b, Stable tid (Q b)} w :
  J w ->
  (forall w1, inv w1 -> J w1 -> exists l, f tid w1 = Some l /\ forall b w2, (b, w2) ∈ l -> inv w2 /\ guarantee tid w1 w2 /\ Q b w2) ->
  wp tid (sec f) Q w.
Proof.
  intros HJ Hf. apply (wp_step tid _ J Q); [done|]. intros w1 Hi HJ1. destruct (Hf w1 Hi HJ1) as (l & -> & Hl). by exists l.
Qed.

Lemma wp_mret {A} tid (a : A) (Q : A -> ClientConn -> Prop) `{!Stable tid (Q a)} w : Q a w -> wp tid (mret a) Q w.
Proof. intros HQ w' Hr Hi. by eapply Stable0. Qed.

Lemma wp_then {A B} tid (p : prog ClientConn A) (k : A -> prog ClientConn B) (R : A -> ClientConn -> Prop) Q w :
  wp tid p R w -> (forall a w, inv w -> R a w -> wp tid (k a) Q w) -> wp tid (p ≫= k) Q w.
Proof. intros Hp Hk. apply wp_seq; [apply _|]. eapply wp_conseq; [|exact Hp]. auto. Qed.

Lemma one {B} (b b' : B) (w w' : ClientConn) : (b, w) ∈ [(b', w')] -> b = b' /\ w = w'.
Proof. intros Hin%list_elem_of_singleton. by injection Hin. Qed.

(** A frame rule, for what the steps of the goroutine respect themselves. *)
Fixpoint preserves {A} (tid : nat) (K : ClientConn -> Prop) (p : prog ClientConn A) : Prop :=
  match p with
  | Ret _ => True
  | Do f k => (forall w l b w', f tid w = Goes l -> (b, w') ∈ l -> K w -> K w') /\ forall b, preserves tid K (k b)
  end.

Lemma preserves_bind {A B} tid K (p : prog ClientConn A) (k : A -> prog ClientConn B) :
  preserves tid K p -> (forall a, preserves tid K (k a)) -> preserves tid K (p ≫= k).
Proof. intros Hp Hk. induction p as [a|C f g IH]; cbn; [apply Hk|]. destruct Hp as [Hf Hg]. split; [done|]. intros b. apply IH, Hg. Qed.

Lemma preserves_sec {B} tid K (f : nat -> ClientConn -> option (list (B * ClientConn))) :
  (forall w l b w', f tid w = Some l -> (b, w') ∈ l -> K w -> K w') -> preserves tid K (sec f).
Proof. intros Hf. split; [|done]. intros w l b w'. destruct (f tid w) as [l'|] eqn:Hl; [|done]. intros [= ->]. by eapply Hf. Qed.

Lemma wp_frame {A} tid (p : prog ClientConn A) (K : ClientConn -> Prop) `{!Stable tid K} Q w :
  K w -> preserves tid K p -> wp tid p Q w -> wp tid p (fun a w => Q a w /\ K w) w.
Proof.
  intros HK Hk. revert w HK. induction p as [a|B f k IH]; intros w HK Hp w1 Hr Hi.
  - split; [by apply Hp|by eapply Stable0].
  - specialize (Hp w1 Hr Hi). destruct Hk as [Hf Hk]. destruct (f tid w1) as [| |l] eqn:Hl; [done..|]. intros b w2 Hin.
    destruct (Hp b w2 Hin) as (Hi2 & Hg & Hw). split; [done|]. split; [done|]. apply IH; [apply Hk| |done].
    eapply Hf; [done..|]. by eapply Stable0.
Qed.

(** ** What the changes look like to the others *)

Lemma rely_set_ac tid w a x x' : acs w !! a = Some x -> ac_rely tid (conns w) x x' -> rely tid w (set_ac a x' w).
Proof.
  intros Hx Hr. frame.
  - apply (insert_pointwise _ _ _ x); [apply ac_rely_refl|done..].
  - intros b y Hy Hn. by rewrite insert_none in Hy.
Qed.

Lemma rely_set_transport tid w i t t' : transports w !! i = Some t -> t_rely tid t t' -> rely tid w (set_transport i t' w).
Proof.
  intros Ht Hr. frame.
  - apply (insert_pointwise _ _ _ t); [apply t_rely_refl|done..].
  - intros b y Hy Hn. by rewrite insert_none in Hy.
Qed.

Definition grown (rd rd' : list (nat * bool)) : Prop :=
  forall c a b, rd !! c = Some (a, b) -> exists b', rd' !! c = Some (a, b') /\ (b = true -> b' = true).

Lemma rely_set_readies tid w rd : grown (readies w) rd -> rely tid w (set_readies rd w).
Proof.
  intros Hg. frame.
Qed.

(** A change that only the goroutine which drives an [addrConn] makes. *)
Lemma keeps_driven tid tid' cs x x' :
  tid' <> tid -> driver x = Some tid -> driver x' = Some tid -> at_place x' = at_place x -> (state x = Shutdown -> state x' = Shutdown) ->
  (is_Some (ac_transport x) -> is_Some (ac_transport x')) -> ac_rely tid' cs x x'.
Proof.
  intros Hne Hd Hd' Hp Hs Ht. split; try congruence; auto. unfold mine. rewrite Hp, Hd'. intros [|[[Hl Hn]|[= ->]]]; [by left| |done].
  right. left. auto.
Qed.

(** ** Parts of the invariant *)

Lemma inv_ac w a x x' :
  inv w -> acs w !! a = Some x ->
  places_ok target (<[a := x']> (acs w)) (conns w) (spawned w) (active w) ->
  readies_ok (<[a := x']> (acs w)) (readies w) (asleep w) ->
  transports_ok (<[a := x']> (acs w)) (transports w) (active w) -> inv (set_ac a x' w).
Proof. intros [H1 H2 H3 H4 H5 H6 H7 H8] Hx P R T. by split. Qed.

Lemma inv_transport w i t t' :
  inv w -> transports w !! i = Some t -> transports_ok (acs w) (<[i := t']> (transports w)) (active w) -> inv (set_transport i t' w).
Proof. intros [H1 H2 H3 H4 H5 H6 H7 H8] Hx T. by split. Qed.

Lemma close_ready_spec w0 w a x y :
  inv w0 -> acs w0 !! a = Some x -> readies w = readies w0 -> acs w !! a = Some y -> ready y = ready x ->
  exists rd, close_ready a w = Some (set_ac a (with_ready None y) (set_readies rd w)) /\ grown (readies w0) rd /\
    forall z, ready z = None -> readies_ok (<[a := z]> (acs w0)) rd (asleep w0).
Proof.
  intros Hi Hx Hrd Hy Hr. pose proof (i_readies _ _ _ _ Hi) as Hok. unfold close_ready. rewrite Hy. cbn [mbind option_bind]. rewrite Hr.
  destruct (ready x) as [c|] eqn:Hc.
  - destruct (ro_ready _ _ _ Hok a x c Hx Hc) as [Hrc _]. rewrite Hrd, Hrc. exists (<[c := (a, true)]> (readies w0)).
    cbn. split; [done|]. split.
    + intros c' a' b Hcb. destruct (decide (c = c')) as [<-|Hne].
      * exists true. rewrite list_lookup_insert_eq by (by eapply lookup_lt_Some). split; [congruence|done].
      * exists b. by rewrite list_lookup_insert_ne.
    + intros z Hz. by eapply readies_close.
  - exists (readies w0). split; [|split].
    + f_equal. unfold set_ac. assert (with_ready None y = y) as -> by (unfold with_ready; destruct y; cbn in *; by subst).
      rewrite <- Hrd. cbn. rewrite list_insert_id by done. by destruct w.
    + intros c' a' b Hcb. eauto.
    + intros z Hz. eapply readies_set; [done|done|congruence|]. rewrite Hc. by intros [].
Qed.

(** ** Making a transport *)

Lemma closed_rely tid t : t_rely tid t (closed_transport t).
Proof. split; cbn; auto. by intros. Qed.

Lemma t_Close_ok tid i J J' `{!Stable tid J} `{!Stable tid J'} w :
  J w -> valid i w -> (forall w t, transports w !! i = Some t -> J w -> J' (set_transport i (closed_transport t) w)) ->
  wp tid (t_Close i) (fun _ w => J' w /\ valid i w) w.
Proof.
  intros HJ Hv HJc. apply (wp_sec tid _ (fun w => J w /\ valid i w) _ w); [done|]. intros w1 Hi [HJ1 [t Ht]]. rewrite Ht. eexists. split; [done|].
  intros [] w2 [_ ->]%one. split; [|split; [|split; [by apply HJc|]]].
  - eapply inv_transport; [done..|]. apply transports_close; [apply Hi|done].
  - intros tid' Hne. eapply rely_set_transport; [done|]. apply closed_rely.
  - exists (closed_transport t). cbn. apply list_lookup_insert_eq. by eapply lookup_lt_Some.
Qed.

(** An error with which the loop ends. *)
Definition dial_fatal (e : dial_error) (w : ClientConn) : Prop :=
  exists desc, err e = ConnectionError desc false /\ attempted (attempts w) (fun k => permanent dopts net k (Origin e)).

Definition is_temporary (e : dial_error) : Prop := exists desc, err e = ConnectionError desc true.

Definition new_transport (tid a : nat) (r : dial_error + nat) (w : ClientConn) : Prop :=
  drives_quiet tid a w /\
  match r with
  | inl e => (is_temporary e \/ dial_fatal e w) /\ clean tid w
  | inr i => made tid i a w /\ attempted_ok w /\ makes tid i w
  end.

#[export] Instance stable_fatal tid e : Stable tid (dial_fatal e).
Proof. unfold dial_fatal. apply _. Qed.
#[export] Instance stable_new_transport tid a r : Stable tid (new_transport tid a r).
Proof. unfold new_transport. destruct r; apply _. Qed.

Lemma fails_ok tid a n temp e w :
  drives_quiet tid a w -> clean tid w -> attempted (attempts w) (fun k => k = n) -> (temp = false -> permanent dopts net n (net_err e)) ->
  wp tid (mret (inl (connectionErrorf temp (Some (net_err e)) ("transport: " +:+ error_string (net_err e))))) (new_transport tid a) w.
Proof.
  intros HJ Hcl (k & Hk & ->) Hp. apply wp_mret; [apply _|]. split; [done|]. split; [|done]. destruct temp; [left; by eexists|right].
  eexists. split; [done|]. exists n. auto.
Qed.

Lemma quiet_close tid a w i u :
  transports w !! i = Some u -> drives_quiet tid a w -> drives_quiet tid a (set_transport i (closed_transport u) w).
Proof.
  intros Hu (x & Hx & Hd & Hc & Hq). exists x. split; [done|]. split; [done|]. split; [done|]. intros j Hj. destruct (Hq j Hj) as (v & Hv & Hcl). cbn.
  apply (insert_pointwise (fun u u' => t_state u = closing -> t_state u' = closing) _ i u (closed_transport u)) with (j := j) in Hv as (v' & Hv' & Hcl'); [|done..].
  exists v'. auto.
Qed.

Lemma close_new_ok tid a i w :
  drives_quiet tid a w -> valid i w -> makes tid i w -> wp tid (t_Close i) (fun _ w => (drives_quiet tid a w /\ clean tid w) /\ valid i w) w.
Proof.
  intros HJ Hv Hm. apply (t_Close_ok tid i (fun w => (drives_quiet tid a w /\ makes tid i w) /\ valid i w) (fun w => drives_quiet tid a w /\ clean tid w)); [done..|].
  clear. intros w t Ht [[HJ Hm] Hv]. split; [by apply quiet_close|]. eapply makes_clean; [done|done|by left|done].
Qed.

Lemma broken_ok tid a i e desc w :
  drives_quiet tid a w -> valid i w -> makes tid i w ->
  wp tid (_ ← t_Close i; mret (inl (connectionErrorf true e desc))) (new_transport tid a) w.
Proof.
  intros HJ Hv Hm. eapply wp_then; [by apply close_new_ok|]. intros [] w1 _ [[HJ1 Hcl] _]. apply wp_mret; [apply _|].
  split; [done|]. split; [|done]. left. by eexists.
Qed.

Lemma newHTTP2Client_ok tid a w : drives_quiet tid a w -> clean tid w -> wp tid (newHTTP2Client dopts net a) (new_transport tid a) w.
Proof.
  intros HJ Hcl. unfold newHTTP2Client.
  eapply (wp_then _ _ _ (fun n w => (drives_quiet tid a w /\ clean tid w) /\ attempted (attempts w) (fun k => k = n))).
  { apply (wp_step tid _ (fun w => drives_quiet tid a w /\ clean tid w)); [apply _|done|]. intros w1 Hi HJ1. eexists. split; [done|]. intros n w2 [-> ->]%one.
    split; [|split; [|split; [done|]]].
    - destruct Hi as [H1 H2 H3 H4 H5 H6 H7 H8]. assert (forall P, attempted (attempts w1) P -> attempted (S (attempts w1)) P) as Hmono.
      { intros P (k & Hk & HP). exists k. split; [lia|done]. }
      split; try done.
      + destruct H4 as [D1 D2 D3]. split; [done| |by auto]. intros e He. destruct (D2 e He) as [|[|]]; auto.
      + unfold returned in *. cbn. destruct (dialled w1) as [[e|]|]; [|by auto|done]. destruct H8 as (Hc & [|[|]]); auto.
    - intros tid' _. frame. lia.
    - exists (attempts w1). split; [cbn; lia|done]. }
  clear w HJ Hcl. intros n w _ [[HJ Hcl] Hn]. cbv zeta.
  destruct (at_dial (net n)) as [e|] eqn:Hdial.
  { apply (fails_ok tid a n); [done..|]. intros Ht. exists e. destruct (FailOnNonTempDialError_ (copts dopts)) eqn:Hf; [|done].
    split; [done|]. split; [done|]. by left. }
  destruct (match TransportCredentials (copts dopts) with Some _ => at_handshake (net n) | None => None end) as [e|] eqn:Hhand.
  { apply (fails_ok tid a n); [done..|]. intros Ht. exists e. split; [done|]. split; [done|]. right.
    destruct (TransportCredentials (copts dopts)); [|done]. eauto. }
  eapply (wp_then _ _ _ (fun i w => (drives_quiet tid a w /\ attempted (attempts w) (fun k => k = n)) /\ made tid i a w /\ makes tid i w)).
  { apply (wp_step tid _ (fun w => (drives_quiet tid a w /\ clean tid w) /\ attempted (attempts w) (fun k => k = n))); [apply _|done|].
    intros w1 Hi [[HJ1 Hcl1] Hn1]. eexists. split; [done|]. intros i w2 [-> ->]%one. split; [|split; [|split; [split|split]]].
    - pose proof HJ1 as (x & Hx & Hd & _). destruct Hi as [H1 H2 H3 H4 H5 H6 H7 H8]. split; try done. cbn.
      apply (transports_made _ _ _ H3 _ tid); [done|]. eapply pl_driver; [by eapply po_acs|done].
    - intros tid' Hne. frame; [by apply app_pointwise; apply t_rely_refl|]. intros j u [Hu|[_ Hu]]%lookup_app_Some Hnone; [congruence|].
      apply list_lookup_singleton_Some in Hu as [_ <-]. intros _ [= ->]. done.
    - destruct HJ1 as (x & Hx & Hd & Hc & Hq). exists x. split; [done|]. split; [done|]. split; [done|]. intros j Hj.
      destruct (Hq j Hj) as (u & Hu & Hclosed). exists u. cbn. split; [|done]. rewrite lookup_app_l; [done|]. by eapply lookup_lt_Some.
    - done.
    - eexists. split; [cbn; by rewrite lookup_app_r, Nat.sub_diag by lia|]. split; [done|by left].
    - intros j t [Hj|[Hge Hj]]%lookup_app_Some Hal Hm; [by destruct (Hcl1 j t)|]. apply list_lookup_singleton_Some in Hj as [Hz _]. lia. }
  clear w HJ Hcl Hn. intros i w _ ([HJ Hn] & Hm & Hmk). assert (valid i w) as Hv by (destruct Hm as (t & Ht & _); by exists t).
  destruct (at_preface (net n)) as [k [e|]] eqn:Hpre; [by apply broken_ok|].
  destruct (k =? preface_len) eqn:Hk; cbn [negb]; [|by apply broken_ok]. apply Z.eqb_eq in Hk as ->.
  destruct (at_settings (net n)) as [e|] eqn:Hset; [by apply broken_ok|].
  destruct (at_window (net n)) as [e|] eqn:Hwin; [by apply broken_ok|].
  apply wp_mret; [apply _|]. split; [done|]. split; [done|]. split; [|done]. destruct Hn as (m & Hlt & ->). exists n. split; [done|].
  repeat split; try done. destruct (TransportCredentials (copts dopts)); [by right|by left].
Qed.

(** ** The sections of resetTransport *)

Lemma placed_driven cs sp act a x x' tid :
  placed target cs sp act a x -> driver x = Some tid -> ~ token sp a -> addr x' = addr x -> at_place x' = at_place x -> driver x' = driver x ->
  (state x' = Shutdown <-> state x = Shutdown) -> placed target cs sp act a x'.
Proof.
  intros [P1 P2 P3 P4 P5 P6 P7] Hd Hno Ha Hp Hd' Hs. split; rewrite ?Ha, ?Hp, ?Hd'; try done.
  - intros t Hf. destruct (P2 t Hf) as (_ & _ & _ & Hn & _). congruence.
  - intros Ht. destruct (P3 Ht); [left; by apply Hs|by right].
  - intros t Ht. destruct (P4 t Ht); [left; by apply Hs|by right].
  - intros Hf. destruct (P5 Hf) as (_ & Hn & _). congruence.
  - intros Hor. destruct (P6 Hor) as [|[Hl Hns]]; [by left|right]. split; [done|]. intros Hx. by apply Hns, Hs.
Qed.

Definition with_parts (xs : list addrConn) (rd : list (nat * bool)) (ts : list transport) (w : ClientConn) : ClientConn :=
  set_transports ts (set_readies rd (set_acs xs w)).

Lemma inv_parts w xs rd ts :
  inv w -> places_ok target xs (conns w) (spawned w) (active w) -> readies_ok xs rd (asleep w) -> transports_ok xs ts (active w) ->
  inv (with_parts xs rd ts w).
Proof. intros [H1 H2 H3 H4 H5 H6 H7 H8] P R T. by split. Qed.

Lemma rely_parts tid w xs rd ts :
  (forall a x, acs w !! a = Some x -> exists x', xs !! a = Some x' /\ ac_rely tid (conns w) x x') -> grown (readies w) rd ->
  (forall i t, transports w !! i = Some t -> exists t', ts !! i = Some t' /\ t_rely tid t t') ->
  length xs = length (acs w) -> length ts = length (transports w) -> rely tid w (with_parts xs rd ts w).
Proof.
  intros H1 H2 H3 H4 H5. split; cbn; try done.
  - intros a x' Hx Hn. rewrite lookup_ge_None in Hn. apply lookup_lt_Some in Hx. lia.
  - intros a x' Hx Hn. rewrite lookup_ge_None in Hn. apply lookup_lt_Some in Hx. lia.
Qed.

Lemma grown_refl rd : grown rd rd.
Proof. intros c a b Hc. eauto. Qed.

(** A driven one is shut down only when the connection is closed. *)
Lemma driven_shutdown w a x tid : inv w -> acs w !! a = Some x -> driver x = Some tid -> state x = Shutdown -> conns w = None.
Proof.
  intros Hi Hx Hd Hs. destruct (pl_driven _ _ _ _ _ _ (po_acs _ _ _ _ _ (i_places _ _ _ _ Hi) a x Hx)) as [|[_ Hn]]; [left; by rewrite Hd|done|].
  by destruct Hn.
Qed.

Lemma driven_placed w a x x' tid :
  inv w -> acs w !! a = Some x -> driver x = Some tid -> addr x' = addr x -> at_place x' = at_place x -> driver x' = driver x ->
  (state x' = Shutdown <-> state x = Shutdown) -> places_ok target (<[a := x']> (acs w)) (conns w) (spawned w) (active w).
Proof.
  intros Hi Hx Hd Ha Hp Hd' Hs. pose proof (i_places _ _ _ _ Hi) as Hok. eapply places_set_driven; [done..|by rewrite Hd| |].
  - eapply placed_driven; [by eapply po_acs|done| |done..]. eapply no_token; [done..|by rewrite Hd].
  - intros Ht. left. congruence.
Qed.

Definition begun (tid a : nat) (r : dial_error + option nat) (w : ClientConn) : Prop :=
  match r with
  | inl e => e = plain errConnClosing /\ conns w = None /\ drives tid a (fun _ => True) w
  | inr t => drives tid a (fun x => ac_transport x = t) w
  end.

Lemma settled_true : settled (fun _ => True).
Proof. done. Qed.
Lemma settled_transport t : settled (fun x => ac_transport x = t).
Proof. intros x x' Ht _ <-. done. Qed.
Lemma settled_state s t : settled (fun x => (state x = s \/ state x = Shutdown) /\ ac_transport x = t).
Proof. intros x x' Ht Hs [Hx <-]. split; [|done]. destruct Hs as [-> | ->]; [done|by right]. Qed.

#[export] Instance stable_drives_true tid a : Stable tid (drives tid a (fun _ => True)).
Proof. apply stable_drives, settled_true. Qed.
#[export] Instance stable_drives_transport tid a t : Stable tid (drives tid a (fun x => ac_transport x = t)).
Proof. apply stable_drives, settled_transport. Qed.
#[export] Instance stable_drives_state tid a s t :
  Stable tid (drives tid a (fun x => (state x = s \/ state x = Shutdown) /\ ac_transport x = t)).
Proof. apply stable_drives, settled_state. Qed.
#[export] Instance stable_begun tid a r : Stable tid (begun tid a r).
Proof. unfold begun. destruct r; apply _. Qed.

Lemma reset_begin_ok tid a (q : Prop) w :
  drives tid a (fun _ => True) w -> (q -> drives_quiet tid a w) ->
  wp tid (reset_begin a) (fun r w => begun tid a r w /\ (q -> drives_quiet tid a w)) w.
Proof.
  intros HJ Hq. apply (wp_sec tid _ (fun w => drives tid a (fun _ => True) w /\ (q -> drives_quiet tid a w))); [apply _|done|].
  clear w HJ Hq. intros w1 Hi [(x & Hx & Hd & Hc & _) Hq]. rewrite Hx. cbn [mbind option_bind].
  case_bool_decide as Hs; eexists; (split; [done|]); intros r w2 [-> ->]%one.
  - split; [done|]. split; [by intros tid' _|]. split; [|done]. split; [done|]. split; [by eapply driven_shutdown|]. by exists x.
  - split; [|split; [|split]].
    + eapply inv_ac; [done..| | |].
      * by eapply driven_placed.
      * eapply readies_set; [apply Hi|done|done|]. intros _. split; [done|]. split; [done|]. intros _. by right.
      * eapply transports_set; [apply Hi|done..].
    + intros tid' Hne. eapply rely_set_ac; [done|]. by eapply keeps_driven.
    + exists (with_state Connecting x). cbn. split; [apply list_lookup_insert_eq; by eapply lookup_lt_Some|done].
    + intros HQ. destruct (Hq HQ) as (x0 & Hx0 & _ & _ & Hquiet). assert (x0 = x) as -> by congruence.
      exists (with_state Connecting x). cbn. split; [apply list_lookup_insert_eq; by eapply lookup_lt_Some|done].
Qed.

Lemma reset_failed_ok tid a w :
  drives_quiet tid a w -> wp tid (reset_failed a) (fun b w => drives_quiet tid a w /\ (b = false -> conns w = None)) w.
Proof.
  intros HJ. apply (wp_sec tid _ (drives_quiet tid a)); [apply _|done|]. intros w1 Hi HJ1. pose proof HJ1 as (x & Hx & Hd & Hc & Hq).
  rewrite Hx. cbn [mbind option_bind]. case_bool_decide as Hs.
  { eexists. split; [done|]. intros r w2 [-> ->]%one. split; [done|]. split; [by intros tid' _|]. split; [done|].
    intros _. by eapply driven_shutdown. }
  destruct (close_ready_spec w1 (set_ac a (with_state TransientFailure x) w1) a x (with_state TransientFailure x)) as (rd & -> & Hg & Hrd);
    [done|done|done| |done|].
  { cbn. apply list_lookup_insert_eq. by eapply lookup_lt_Some. }
  cbn [mbind option_bind]. eexists. split; [done|]. intros r w2 [-> ->]%one. set (x' := with_ready None (with_state TransientFailure x)).
  assert (set_ac a x' (set_readies rd (set_ac a (with_state TransientFailure x) w1)) = with_parts (<[a := x']> (acs w1)) rd (transports w1) w1) as ->.
  { unfold set_ac, with_parts. cbn. by rewrite list_insert_insert_eq. }
  split; [|split; [|split; [|done]]].
  - apply inv_parts; [done| | |].
    + by eapply driven_placed.
    + by apply Hrd.
    + eapply transports_set; [apply Hi|done..].
  - intros tid' Hne. apply rely_parts; [|done| |by rewrite length_insert|done].
    + apply (insert_pointwise _ _ _ x); [apply ac_rely_refl|done|]. by eapply keeps_driven.
    + intros i t Ht. exists t. split; [done|apply t_rely_refl].
  - exists x'. cbn. split; [apply list_lookup_insert_eq; by eapply lookup_lt_Some|done].
Qed.

Definition monitors (tid a i : nat) : ClientConn -> Prop := drives tid a (fun x => (state x = Ready \/ state x = Shutdown) /\ ac_transport x = Some i).

Definition handed (tid a i : nat) (b : bool) (w : ClientConn) : Prop :=
  if b then monitors tid a i w /\ clean tid w else ((drives_quiet tid a w /\ valid i w) /\ makes tid i w) /\ conns w = None.

#[export] Instance stable_monitors tid a i : Stable tid (monitors tid a i).
Proof. apply stable_drives_state. Qed.
#[export] Instance stable_handed tid a i b : Stable tid (handed tid a i b).
Proof. destruct b; apply _. Qed.

Lemma reset_ready_ok tid a i w :
  drives_quiet tid a w -> made tid i a w -> makes tid i w -> attempted_ok w -> wp tid (reset_ready a i) (fun b w => handed tid a i b w /\ attempted_ok w) w.
Proof.
  intros HJ Hm Hms Hat. apply (wp_sec tid _ (fun w => ((drives_quiet tid a w /\ made tid i a w) /\ makes tid i w) /\ attempted_ok w)); [apply _|done|].
  clear w HJ Hm Hms Hat. intros w1 Hi [[[HJ1 (t & Ht & Ho & Hmk)] Hms] Hat]. pose proof HJ1 as (x & Hx & Hd & Hc & Hq).
  rewrite Hx, Ht. cbn [mbind option_bind]. case_bool_decide as Hs.
  { eexists. split; [done|]. intros r w2 [-> ->]%one. split; [done|]. split; [by intros tid' _|]. split; [|done].
    split; [split; [split; [done|by exists t]|done]|]. by eapply driven_shutdown. }
  set (y := with_ac_transport (Some i) (with_state Ready x)).
  destruct (close_ready_spec w1 (set_ac a y w1) a x y) as (rd & -> & Hg & Hrd); [done|done|done| |done|].
  { cbn. apply list_lookup_insert_eq. by eapply lookup_lt_Some. }
  cbn [mbind option_bind]. eexists. split; [done|]. intros r w2 [-> ->]%one. set (x' := with_ready None y).
  assert (set_transport i (with_maker None t) (set_ac a x' (set_readies rd (set_ac a y w1))) =
    with_parts (<[a := x']> (acs w1)) rd (<[i := with_maker None t]> (transports w1)) w1) as ->.
  { unfold set_ac, set_transport, with_parts. cbn. by rewrite list_insert_insert_eq. }
  split; [|split].
  - apply inv_parts; [done| | |].
    + by eapply driven_placed.
    + by apply Hrd.
    + eapply transports_take; [apply Hi|done..| |done|done]. intros j u Hj Hu. destruct (Hq j Hj) as (u' & Hu' & Hcl). congruence.
  - intros tid' Hne. apply rely_parts; [|done| |by rewrite length_insert|by rewrite length_insert].
    + apply (insert_pointwise _ _ _ x); [apply ac_rely_refl|done|]. by eapply keeps_driven.
    + apply (insert_pointwise _ _ _ t); [apply t_rely_refl|done|]. split; [done|done| |done]. intros Hm'.
      destruct Hmk as [Hmk|Hmk]; [congruence|by right].
  - split; [|done]. split.
    + exists x'. cbn. rewrite list_lookup_insert_eq by (by eapply lookup_lt_Some). auto 10.
    + eapply makes_clean; [done|by exists t|by right|done].
Qed.

(** ** A round of resetTransport *)

(** What [resetTransport] returns for an error: the connection is being closed, or the error is not tried again. *)
Definition reset_error (e : dial_error) (w : ClientConn) : Prop := cc_done w = true \/ dial_fatal e w.

Definition round_done (tid a : nat) (r : option (option dial_error)) (w : ClientConn) : Prop :=
  match r with
  | None => drives_quiet tid a w
  | Some None => (exists i, monitors tid a i w) /\ attempted_ok w
  | Some (Some e) => drives tid a (fun _ => True) w /\ reset_error e w
  end.

#[export] Instance stable_round_done tid a r : Stable tid (round_done tid a r).
Proof. unfold round_done, reset_error. destruct r as [[|]|]; apply _. Qed.

Lemma quiet_drives tid a w : drives_quiet tid a w -> drives tid a (fun _ => True) w.
Proof. intros (x & Hx & Hd & Hc & _). by exists x. Qed.

Lemma closed_done w : inv w -> conns w = None -> cc_done w = true.
Proof. intros Hi. apply Hi. Qed.

Lemma drives_close tid a t w i u :
  transports w !! i = Some u -> drives tid a (fun x => ac_transport x = t) w ->
  drives tid a (fun x => ac_transport x = t) (set_transport i (closed_transport u) w).
Proof. intros Hu (x & Hx & Hd & Hc & Ht). by exists x. Qed.

(** The transport there was is closed. *)
Lemma close_old_ok tid a (close : bool) t w :
  drives tid a (fun x => ac_transport x = t) w -> (close = false -> drives_quiet tid a w) -> clean tid w ->
  wp tid (match t with Some i => when close (t_Close i) | None => mret tt end) (fun _ w => drives_quiet tid a w /\ clean tid w) w.
Proof.
  intros HJ Hq Hcl. destruct t as [i|].
  2: { apply wp_mret; [apply _|]. split; [|done]. destruct HJ as (x & Hx & Hd & Hc & Ht). exists x. split; [done|]. split; [done|]. split; [done|]. congruence. }
  destruct close; cbn [when]; [|by apply wp_mret; [apply _|split; [apply Hq|]]].
  apply (wp_sec tid _ (fun w => drives tid a (fun x => ac_transport x = Some i) w /\ clean tid w)); [apply _|done|]. clear w HJ Hq Hcl. intros w1 Hi [HJ1 Hcl].
  pose proof HJ1 as (x & Hx & Hd & Hc & Ht). destruct (to_acs _ _ _ (i_transports _ _ _ _ Hi) a x Hx) as (_ & _ & Hat).
  destruct (Hat i Ht) as (u & Hu & Ho & Hmk). rewrite Hu. eexists. split; [done|]. intros [] w2 [_ ->]%one. split; [|split; [|split]].
  - eapply inv_transport; [done..|]. apply transports_close; [apply Hi|done].
  - intros tid' Hne. eapply rely_set_transport; [done|]. apply closed_rely.
  - exists x. split; [done|]. split; [done|]. split; [done|]. intros j Hj. assert (j = i) as -> by congruence.
    exists (closed_transport u). cbn. split; [|done]. apply list_lookup_insert_eq. by eapply lookup_lt_Some.
  - by apply clean_close.
Qed.

(** What a change of one [addrConn] does not touch. *)
Definition local_to (a : nat) (K : ClientConn -> Prop) : Prop :=
  forall w w' x', acs w' = <[a := x']> (acs w) -> transports w' = transports w -> K w -> K w'.

Lemma local_keeps tid a l : a ∈ l -> local_to a (keeps tid l).
Proof. intros Ha w w' x' Hx _. by eapply keeps_set. Qed.
Lemma local_clean tid a : local_to a (clean tid).
Proof. intros w w' x' _ Ht Hc. unfold clean. by rewrite Ht. Qed.

Lemma preserves_begin tid a K : local_to a K -> preserves tid K (reset_begin a).
Proof.
  intros HK. apply preserves_sec. intros w l b w'. destruct (acs w !! a) as [x|]; [|done]. cbn [mbind option_bind].
  case_bool_decide; intros [= <-] [-> ->]%one; [done|]. by eapply HK.
Qed.

Lemma close_ready_local a w w' y :
  acs w !! a = Some y -> close_ready a w = Some w' -> exists y', acs w' = <[a := y']> (acs w) /\ transports w' = transports w.
Proof.
  intros Hy. unfold close_ready. rewrite Hy. cbn. destruct (ready y) as [c|].
  - destruct (readies w !! c) as [[a' []]|]; [done| |done]. cbn. intros [= <-]. by eexists.
  - intros [= <-]. exists y. by rewrite list_insert_id.
Qed.

Lemma preserves_failed tid a K : local_to a K -> preserves tid K (reset_failed a).
Proof.
  intros HK. apply preserves_sec. intros w l b w'. destruct (acs w !! a) as [x|] eqn:Hx; [|done]. cbn [mbind option_bind].
  case_bool_decide; [intros [= <-] [-> ->]%one; done|].
  destruct (close_ready a _) as [w1|] eqn:Hcl; [|done]. intros [= <-] [-> ->]%one Hw.
  eapply close_ready_local in Hcl as (y' & Hy' & Ht). 2: { cbn. apply list_lookup_insert_eq. by eapply lookup_lt_Some. }
  eapply (HK w); [|by rewrite Ht|exact Hw]. rewrite Hy'. cbn. by rewrite list_insert_insert_eq.
Qed.

Lemma preserves_keeps_ready tid a i l : a ∈ l -> preserves tid (keeps tid l) (reset_ready a i).
Proof.
  intros Ha. apply preserves_sec. intros w l' b w'. destruct (acs w !! a) as [x|] eqn:Hx; [|done]. cbn [mbind option_bind].
  destruct (transports w !! i) as [t|]; [|done]. cbn [mbind option_bind].
  case_bool_decide; [intros [= <-] [-> ->]%one; done|].
  destruct (close_ready a _) as [w1|] eqn:Hcl; [|done]. intros [= <-] [-> ->]%one Hw.
  eapply close_ready_local in Hcl as (y' & Hy' & _). 2: { cbn. apply list_lookup_insert_eq. by eapply lookup_lt_Some. }
  eapply (keeps_set _ _ w); [|exact Ha|exact Hw]. cbn. rewrite Hy'. cbn. by rewrite list_insert_insert_eq.
Qed.

Lemma preserves_keeps_close tid i l : preserves tid (keeps tid l) (t_Close i).
Proof. apply preserves_sec. intros w l' b w'. destruct (transports w !! i); [|done]. intros [= <-] [_ ->]%one. done. Qed.

Lemma preserves_act {B} tid K (f : nat -> ClientConn -> result (B * ClientConn)) :
  (forall w l b w', f tid w = Goes l -> (b, w') ∈ l -> K w -> K w') -> preserves tid K (act f).
Proof. intros Hf. by split. Qed.

Lemma preserves_keeps_new tid a l : preserves tid (keeps tid l) (newHTTP2Client dopts net a).
Proof.
  assert (forall i (e : option go_error) desc,
    preserves tid (keeps tid l) (_ ← t_Close i; mret (M:=prog ClientConn) (inl (B:=nat) (connectionErrorf true e desc)))) as Hbroken.
  { intros i e desc. apply preserves_bind; [apply preserves_keeps_close|done]. }
  unfold newHTTP2Client. apply preserves_bind; [by apply preserves_act; intros w l' b w' [= <-] [-> ->]%one|]. intros n. cbv zeta.
  destruct (at_dial (net n)); [done|]. destruct (match TransportCredentials (copts dopts) with Some _ => _ | None => _ end); [done|].
  apply preserves_bind; [by apply preserves_act; intros w l' b w' [= <-] [-> ->]%one|]. intros i.
  destruct (at_preface (net n)) as [k [e|]]; [apply Hbroken|]. destruct (negb (k =? preface_len)); [apply Hbroken|].
  destruct (at_settings (net n)); [apply Hbroken|]. destruct (at_window (net n)); [apply Hbroken|done].
Qed.

Lemma preserves_keeps_round tid a close l : a ∈ l -> preserves tid (keeps tid l) (reset_round dopts net a close).
Proof.
  intros Ha. unfold reset_round. apply preserves_bind; [by apply preserves_begin, local_keeps|]. intros [e|t]; [done|].
  apply preserves_bind.
  { destruct t as [i|]; [|done]. destruct close; [apply preserves_keeps_close|done]. }
  intros []. apply preserves_bind; [apply preserves_keeps_new|]. intros [e|i].
  - destruct (match err e with ConnectionError _ temp => negb temp | _ => false end); [done|].
    apply preserves_bind; [by apply preserves_failed, local_keeps|]. intros []; cbn [negb]; [|done].
    apply preserves_act. intros w l' b w' [= <-] [[= -> ->]|Hin]%elem_of_cons; [done|].
    destruct (ac_ctx_done a w); [by apply one in Hin as [-> ->]|by apply not_elem_of_nil in Hin].
  - apply preserves_bind; [by apply preserves_keeps_ready|]. intros []; [done|]. apply preserves_bind; [apply preserves_keeps_close|done].
Qed.

(** ** A round *)

Definition alone (tid : nat) (l : list nat) (w : ClientConn) : Prop := keeps tid l w /\ clean tid w.

#[export] Instance stable_alone tid l : Stable tid (alone tid l).
Proof. apply _. Qed.

Lemma after_failure_ok tid a w :
  drives_quiet tid a w -> clean tid w ->
  wp tid (act (fun _ w => Goes ((None, w) :: (if ac_ctx_done a w then [(Some (Some (plain ErrCanceled)), w)] else []))))
    (fun r w => round_done tid a r w /\ clean tid w) w.
Proof.
  intros HJ Hcl. apply (wp_step tid _ (fun w => drives_quiet tid a w /\ clean tid w)); [apply _|done|]. clear w HJ Hcl.
  intros w1 Hi [HJ Hcl]. eexists. split; [done|].
  intros r w2 [[= -> ->]|Hin]%elem_of_cons; [split; [done|]; by split; [intros tid' _|]|].
  destruct (ac_ctx_done a w1) eqn:Hctx; [|by apply not_elem_of_nil in Hin]. apply one in Hin as [-> ->].
  split; [done|]. split; [by intros tid' _|]. split; [|done]. split; [by apply quiet_drives|]. left. destruct HJ as (x & Hx & Hd & [Hc _] & _).
  unfold ac_ctx_done in Hctx. rewrite Hx in Hctx. apply orb_true_iff in Hctx as [|Hdone]; [done|]. by apply closed_done, Hc.
Qed.

Lemma reset_round_clean tid a close w :
  drives tid a (fun _ => True) w -> (close = false -> drives_quiet tid a w) -> clean tid w ->
  wp tid (reset_round dopts net a close) (fun r w => round_done tid a r w /\ clean tid w) w.
Proof.
  intros HJ Hq Hcl. unfold reset_round.
  eapply wp_then; [apply wp_frame; [apply (stable_clean tid)|done|by apply preserves_begin, local_clean|by apply (reset_begin_ok tid a (close = false))]|].
  clear w HJ Hq Hcl. intros [e|t] w Hi [[Hb Hq] Hcl].
  { apply wp_mret; [apply _|]. destruct Hb as (-> & Hc & HJ). split; [|done]. split; [done|]. left. by apply closed_done. }
  eapply wp_then; [by apply close_old_ok|]. clear w Hi Hb Hq Hcl. intros [] w _ [HJ Hcl].
  eapply wp_then; [by apply newHTTP2Client_ok|]. clear w HJ Hcl. intros [e|i] w _ [HJ Hr].
  - destruct Hr as [[[desc He]|Hf] Hcl].
    + rewrite He. cbn [negb]. eapply wp_then; [apply wp_frame; [apply (stable_clean tid)|done|by apply preserves_failed, local_clean|by apply reset_failed_ok]|].
      clear w HJ Hcl. intros [] w Hi [[HJ Hc] Hcl]; cbn [negb].
      * by apply after_failure_ok.
      * apply wp_mret; [apply _|]. split; [|done]. split; [by apply quiet_drives|]. left. by apply closed_done, Hc.
    + pose proof Hf as (desc & He & _). rewrite He. cbn [negb]. apply wp_mret; [apply _|]. split; [|done]. split; [by apply quiet_drives|]. by right.
  - destruct Hr as (Hm & Hs & Hms). eapply wp_then; [by apply reset_ready_ok|]. clear w HJ Hm Hs Hms. intros [] w Hi [HJ Hs].
    + apply wp_mret; [apply _|]. destruct HJ as [HJ Hcl]. split; [|done]. split; [by exists i|done].
    + destruct HJ as [[[HJ Hv] Hm] Hc]. eapply wp_then.
      { apply (t_Close_ok tid i (fun w => ((drives_quiet tid a w /\ valid i w) /\ makes tid i w) /\ conns w = None)
          (fun w => (drives_quiet tid a w /\ clean tid w) /\ conns w = None)); [done..|].
        clear. intros w t Ht [[[HJ Hv] Hm] Hc]. split; [|done]. split; [by apply quiet_close|]. eapply makes_clean; [done|done|by left|done]. }
      clear w HJ Hv Hm Hc Hs Hi. intros [] w Hi [[[HJ Hcl] Hc] _]. apply wp_mret; [apply _|]. split; [|done]. split; [by apply quiet_drives|].
      left. by apply closed_done.
Qed.

Lemma reset_round_ok tid a close w :
  drives tid a (fun _ => True) w -> (close = false -> drives_quiet tid a w) -> alone tid [a] w ->
  wp tid (reset_round dopts net a close) (fun r w => round_done tid a r w /\ alone tid [a] w) w.
Proof.
  intros HJ Hq [Hk Hcl]. eapply wp_conseq.
  2: { apply wp_frame; [apply (stable_keeps tid [a])|done|apply preserves_keeps_round; by left|by apply reset_round_clean]. }
  intros r w1 _ [[Hr Hc] Hk']. done.
Qed.
End steps.
