(* ===== verification/ClientTear.v ===== *)
(** * Client connections: tearing down and setting up

    [tearDown], and how an [addrConn] is made, put into [conns] and taken out again. *)

From stdpp Require Import base list strings gmap relations.
From Stdlib Require Import ZArith Lia.
From S2P Require Import Prelude GoStrings Wire GrpcStatus GrpcTransport Threads ClientConn ClientInv.
Open Scope Z_scope.

Section tear.
Context (target : string) (dopts : dialOptions) (net : nat -> attempt).

#[local] Abbreviation inv := (inv target dopts net).
#[local] Abbreviation rely := (rely target).
#[local] Abbreviation listed := (listed target).
#[local] Abbreviation never := (fun _ : ClientConn => False).
#[local] Abbreviation wp := (Threads.wp inv rely never).
#[local] Abbreviation guarantee := (Threads.guarantee rely).
#[local] Abbreviation Stable := (ClientInv.Stable target dopts net).

(** ** tearDown *)

(** It works on it, or has taken it out of [conns]. *)
Definition tears (tid a : nat) (w : ClientConn) : Prop :=
  exists x, acs w !! a = Some x /\ (driver x = Some tid \/ at_place x = Leaving tid).

#[export] Instance stable_tears tid a : Stable tid (tears tid a).
Proof.
  intros w w' Hr _ (x & Hx & Ht). destruct (r_acs _ _ _ _ Hr a x Hx) as (x' & Hx' & [R1 R2 R3 R4 R5 R6 R7 R8]). exists x'. split; [done|].
  destruct Ht as [Hd|Hl]; [left; by apply R1|right; auto].
Qed.

Lemma tears_driver w a x tid t :
  inv w -> acs w !! a = Some x -> driver x = Some tid \/ at_place x = Leaving tid -> driver x = Some t -> t = tid \/ conns w = None.
Proof.
  intros Hi Hx [Hd|Hl] Hd'; [left; congruence|right]. pose proof (i_places _ _ _ _ Hi) as Hok.
  destruct (pl_driven _ _ _ _ _ _ (po_acs _ _ _ _ _ Hok a x Hx)) as [|[Hli _]]; [left; by rewrite Hd'|done|].
  rewrite (listed_tracked _ _ _ _ _ Hok a x Hx Hli) in Hl. done.
Qed.

Lemma tears_place w a x tid :
  inv w -> acs w !! a = Some x -> driver x = Some tid \/ at_place x = Leaving tid ->
  (forall t, at_place x <> Fresh t) /\ at_place x <> Dropped.
Proof.
  intros Hi Hx Ht. destruct (po_acs _ _ _ _ _ (i_places _ _ _ _ Hi) a x Hx) as [P1 P2 P3 P4 P5 P6 P7]. split.
  - intros t Hf. destruct (P2 t Hf) as (_ & _ & _ & Hn & _). destruct Ht; congruence.
  - intros Hf. destruct (P5 Hf) as (_ & Hn & _). destruct Ht; congruence.
Qed.

(** What a change of one [addrConn] in its place leaves alone. *)
Definition steady (a : nat) (K : ClientConn -> Prop) : Prop :=
  forall w w' x x', acs w !! a = Some x -> acs w' = <[a := x']> (acs w) -> at_place x' = at_place x -> conns w' = conns w ->
    waitC w' = waitC w -> K w -> K w'.

Lemma cancel_ok tid a l K `{!Stable tid K} w :
  tears tid a w -> alone tid l w -> K w -> steady a K -> wp tid (cancel a) (fun _ w => (tears tid a w /\ alone tid l w) /\ K w) w.
Proof.
  intros HJ Hal HK HKs. apply (wp_sec target dopts net tid _ (fun w => (tears tid a w /\ alone tid l w) /\ K w)); [apply _|done|]. clear w HJ Hal HK.
  intros w1 Hi [[HJ Hal] HK]. destruct HJ as (x & Hx & Ht). rewrite Hx. eexists. split; [done|]. intros [] w2 [_ ->]%one.
  pose proof (i_places _ _ _ _ Hi) as Hok. pose proof (driven_alone _ _ _ _ _ Hok a x tid Hx Ht) as Htok.
  split; [|split; [|split; [|by eapply HKs]; split]].
  - eapply inv_ac; [done..| | |].
    + eapply places_set; [done..| | | |]; [|by left| |].
      * destruct (po_acs _ _ _ _ _ Hok a x Hx) as [P1 P2 P3 P4 P5 P6 P7]. split; try done.
        intros t Hf. by destruct (proj1 (tears_place _ _ _ _ Hi Hx Ht) t).
      * intros Hin. destruct (po_connect _ _ _ _ _ Hok a Hin) as (y & Hy & [C1 C2 C3 C4]). assert (y = x) as -> by congruence.
        split; try done. intros _. apply Htok. by left.
      * intros Hin. destruct (po_monitor _ _ _ _ _ Hok a Hin) as (y & Hy & [C1 C2 C3 C4]). assert (y = x) as -> by congruence.
        split; try done. intros _. apply Htok. by right.
    + eapply readies_set; [apply Hi|done|done|]. intros [c Hc]. destruct (ro_ready _ _ _ (i_readies _ _ _ _ Hi) a x c Hx Hc) as (_ & ? & ?). done.
    + destruct (to_acs _ _ _ (i_transports _ _ _ _ Hi) a x Hx) as (T1 & T2 & _). eapply transports_set; [apply Hi|done..|]. intros Hs i t _ _ _. by left.
  - intros tid' Hne. eapply rely_set_ac; [done|]. split; cbn; auto. intros Hd _. right.
    destruct (tears_driver _ _ _ _ _ Hi Hx Ht Hd); done.
  - exists (with_ac_done true x). cbn. split; [|done]. apply list_lookup_insert_eq. by eapply lookup_lt_Some.
  - destruct Hal as [Hk Hcl]. split; [|done]. intros b y Hy Hm. cbn in Hy. destruct (decide (a = b)) as [<-|Hne].
    + rewrite list_lookup_insert_eq in Hy by (by eapply lookup_lt_Some). injection Hy as <-. by eapply Hk.
    + rewrite list_lookup_insert_ne in Hy by done. by eapply Hk.
Qed.

Lemma GracefulClose_spec t t' :
  t' ∈ GracefulClose t ->
  owner t' = owner t /\ (maker t = None -> maker t' = None) /\ (t_state t = closing -> t_state t' = closing) /\
  (alive t' -> alive t /\ t_state t' = draining /\ maker t' = maker t).
Proof.
  unfold GracefulClose, alive. destruct t as [s g r o m]; destruct s; cbn; intros Hin;
    repeat apply elem_of_cons in Hin as [->|Hin]; try (by apply not_elem_of_nil in Hin); cbn; naive_solver.
Qed.

(** What becomes of the transports. *)
Record closes (xs : list addrConn) (ts ts' : list transport) (act : gset nat) (x : addrConn) (e : go_error) : Prop := {
  cl_ok : transports_ok xs ts' act;
  cl_length : length ts' = length ts;
  cl_rely tid i t : ts !! i = Some t -> exists t', ts' !! i = Some t' /\ t_rely tid t t';
  cl_clean tid : (forall i t, ts !! i = Some t -> alive t -> maker t <> Some tid) -> forall i t, ts' !! i = Some t -> alive t -> maker t <> Some tid;
  cl_gone i t : state x <> Shutdown -> ac_transport x = Some i -> ts' !! i = Some t -> alive t -> e = errConnDrain /\ t_state t = draining;
}.

Lemma closes_same xs ts act x e : transports_ok xs ts act -> (state x = Shutdown \/ ac_transport x = None) -> closes xs ts ts act x e.
Proof.
  intros Hok Hx. split; try done.
  - intros tid i t Ht. exists t. split; [done|apply t_rely_refl].
  - intros i t Hs Hi. destruct Hx; congruence.
Qed.

Lemma closes_set xs ts act x e i t t' :
  transports_ok xs ts act -> ac_transport x = Some i -> ts !! i = Some t -> owner t' = owner t -> maker t = None -> maker t' = None ->
  (t_state t = closing -> t_state t' = closing) -> (alive t' -> alive t /\ t_state t' = draining /\ e = errConnDrain) ->
  closes xs ts (<[i := t']> ts) act x e.
Proof.
  intros Hok Hx Ht Ho Hm Hm' Hc Hal. pose proof (lookup_lt_Some _ _ _ Ht) as Hlt. split.
  - eapply transports_change; [done|done|done|done|]. intros Ha. destruct (Hal Ha) as (? & ? & _). split; [done|]. split; [congruence|done].
  - by rewrite length_insert.
  - intros tid. apply (insert_pointwise _ _ _ t); [apply t_rely_refl|done|]. split; [done|done|congruence|congruence].
  - intros tid Hcl j u Hu Hua. destruct (decide (i = j)) as [<-|Hne].
    + rewrite list_lookup_insert_eq in Hu by done. congruence.
    + rewrite list_lookup_insert_ne in Hu by done. by eapply Hcl.
  - intros j u _ Hj Hu Hua. assert (j = i) as -> by congruence. rewrite list_lookup_insert_eq in Hu by done. injection Hu as <-.
    destruct (Hal Hua) as (_ & ? & ?). done.
Qed.

Definition shut_ac (tid : nat) (e : go_error) (x : addrConn) : addrConn :=
  if bool_decide (state x = Shutdown) then leave_ac tid x
  else with_tearDownErr (Some e) (with_state Shutdown (with_ready None (leave_ac tid x))).

Definition shut (tid a : nat) (e : go_error) (x : addrConn) (w w2 : ClientConn) : Prop :=
  exists rd ts, w2 = with_parts (<[a := shut_ac tid e x]> (acs w)) rd ts w /\ closes (acs w) (transports w) ts (active w) x e /\
    grown (readies w) rd /\ readies_ok (<[a := shut_ac tid e x]> (acs w)) rd (asleep w).

(** The part of [shut_down] after [GracefulClose]: [ts] are the transports then. *)
Lemma shut_down_rest tid a e x w ts :
  inv w -> acs w !! a = Some x -> state x <> Shutdown ->
  exists rd, close_ready a (set_transports ts (set_ac a (leave_ac tid x) w)) =
    Some (set_ac a (with_ready None (leave_ac tid x)) (set_readies rd (set_transports ts (set_ac a (leave_ac tid x) w)))) /\
    forall ts', closes (acs w) (transports w) ts' (active w) x e ->
      shut tid a e x w (with_parts (<[a := shut_ac tid e x]> (acs w)) rd ts' w).
Proof.
  intros Hi Hx Hs. edestruct (close_ready_spec target dopts net w (set_transports ts (set_ac a (leave_ac tid x) w)) a x (leave_ac tid x))
    as (rd & Heq & Hg & Hrd); [done|done|done| |done|].
  { cbn. apply list_lookup_insert_eq. by eapply lookup_lt_Some. }
  exists rd. split; [exact Heq|]. intros ts' Hcl. exists rd, ts'. split; [done|]. split; [done|]. split; [done|].
  apply Hrd. unfold shut_ac. by case_bool_decide.
Qed.

Lemma shut_down_spec tid a e x w :
  inv w -> acs w !! a = Some x -> exists l, shut_down tid a e w = Some l /\ forall b w2, (b, w2) ∈ l -> shut tid a e x w w2.
Proof.
  intros Hi Hx. unfold shut_down. rewrite Hx. cbn [mbind option_bind]. cbv zeta. set (w0 := set_ac a (leave_ac tid x) w).
  pose proof (i_transports _ _ _ _ Hi) as Hok. destruct (to_acs _ _ _ Hok a x Hx) as (_ & _ & Hat).
  (* the states after GracefulClose *)
  assert (exists tss, (if bool_decide (e = errConnDrain) then
      match ac_transport x with
      | Some i => t ← transports w0 !! i; Some ((fun t => set_transport i t w0) <$> GracefulClose t)
      | None => Some [w0]
      end else Some [w0]) = Some ((fun ts => set_transports ts w0) <$> tss) /\
      forall ts, ts ∈ tss -> if bool_decide (e = errConnDrain) then closes (acs w) (transports w) ts (active w) x e else ts = transports w) as (tss & -> & Htss).
  { assert (w0 = set_transports (transports w) w0) as Hw0 by (by destruct w). case_bool_decide as He; [|].
    - destruct (ac_transport x) as [i|] eqn:Hxi.
      + destruct (Hat i eq_refl) as (t & Ht & Ho & Hm). cbn. rewrite Ht. cbn.
        exists ((fun t => <[i := t]> (transports w)) <$> GracefulClose t). split; [by rewrite <- list_fmap_compose|].
        intros ts (t' & -> & Hin)%list_elem_of_fmap. destruct (GracefulClose_spec t t' Hin) as (H1 & H2 & H3 & H4).
        eapply closes_set; try done; [by apply H2|]. intros Ha. destruct (H4 Ha) as (? & ? & _). done.
      + exists [transports w]. split; [by rewrite Hw0 at 1|]. intros ts ->%list_elem_of_singleton. apply closes_same; [done|by right].
    - exists [transports w]. split; [by rewrite Hw0 at 1|]. by intros ts ->%list_elem_of_singleton. }
  cbn [mbind option_bind]. destruct (decide (state x = Shutdown)) as [Hs|Hs].
  - rewrite bool_decide_eq_true_2 by done. eexists. split; [done|]. intros b w2 (w1 & [= -> ->] & Hin)%list_elem_of_fmap.
    apply list_elem_of_fmap in Hin as (ts & -> & Hin). exists (readies w), ts. unfold shut_ac. rewrite bool_decide_eq_true_2 by done.
    split; [done|]. split; [|split; [apply grown_refl|]].
    + specialize (Htss ts Hin). case_bool_decide; [done|]. subst ts. apply closes_same; [done|by left].
    + eapply readies_set; [apply Hi|done|done|]. intros [c Hc]. destruct (ro_ready _ _ _ (i_readies _ _ _ _ Hi) a x c Hx Hc) as (_ & ? & ?). done.
  - rewrite bool_decide_eq_false_2 by done. set (f := fun w1 : ClientConn => _).
    assert (forall ts, ts ∈ tss -> exists w2, f (set_transports ts w0) = Some (tt, w2) /\ shut tid a e x w w2) as Hf.
    { intros ts Hin. specialize (Htss ts Hin). destruct (shut_down_rest tid a e x w ts Hi Hx Hs) as (rd & Heq & Hshut).
      unfold f. fold w0 in Heq. rewrite Heq. cbn. rewrite list_lookup_insert_eq.
      2: { rewrite length_insert. by eapply lookup_lt_Some. }
      cbn. unfold shut_ac in Hshut. rewrite bool_decide_eq_false_2 in Hshut by done.
      case_bool_decide as He.
      - eexists. split; [by destruct (ac_transport x)|]. specialize (Hshut ts Htss). revert Hshut.
        unfold with_parts, set_ac, w0. cbn. by rewrite !list_insert_insert_eq.
      - subst ts. destruct (ac_transport x) as [i|] eqn:Hxi.
        + destruct (Hat i eq_refl) as (t & Ht & Ho & Hm). unfold w0. cbn. rewrite Ht. cbn. eexists. split; [done|].
          specialize (Hshut (<[i := closed_transport t]> (transports w))). revert Hshut. unfold with_parts, set_ac, set_transport. cbn.
          rewrite !list_insert_insert_eq. intros Hshut. apply Hshut. by eapply closes_set.
        + eexists. split; [done|]. specialize (Hshut (transports w)). revert Hshut. unfold with_parts, set_ac, w0. cbn.
          rewrite !list_insert_insert_eq. intros Hshut. apply Hshut. apply closes_same; [done|by right]. }
    destruct (mapM_is_Some_2 f ((fun ts => set_transports ts w0) <$> tss)) as [l Hl].
    { apply Forall_fmap, Forall_forall. intros ts Hin. destruct (Hf ts Hin) as (w2 & Hw2 & _). by exists (tt, w2). }
    exists l. split; [exact Hl|]. intros b w2 Hin. apply mapM_Some_1 in Hl. apply list_elem_of_lookup in Hin as [k Hk].
    destruct (Forall2_lookup_r _ _ _ _ _ Hl Hk) as (w1 & Hw1 & Heq). apply list_elem_of_lookup_2, list_elem_of_fmap in Hw1 as (ts & -> & Hin).
    destruct (Hf ts Hin) as (w2' & Hw2' & Hsh). rewrite Hw2' in Heq. by injection Heq as _ <-.
Qed.

Lemma shut_ac_spec tid e x :
  let x' := shut_ac tid e x in
  state x' = Shutdown /\ addr x' = addr x /\ at_place x' = at_place x /\ ac_transport x' = ac_transport x /\ ac_done x' = ac_done x /\
  driver x' = (if bool_decide (driver x = Some tid) then None else driver x) /\
  (state x = Shutdown /\ tearDownErr x' = tearDownErr x /\ ready x' = ready x \/ state x <> Shutdown /\ tearDownErr x' = Some e).
Proof. unfold shut_ac. case_bool_decide as Hs; cbn; auto 10. Qed.

Lemma shut_places tid a e x w :
  inv w -> acs w !! a = Some x -> driver x = Some tid \/ at_place x = Leaving tid ->
  places_ok target (<[a := shut_ac tid e x]> (acs w)) (conns w) (spawned w) (active w).
Proof.
  intros Hi Hx Ht. pose proof (i_places _ _ _ _ Hi) as Hok. destruct (shut_ac_spec tid e x) as (E1 & E2 & E3 & E4 & E5 & E6 & E7).
  pose proof (driven_alone _ _ _ _ _ Hok a x tid Hx Ht) as Htok. destruct (tears_place _ _ _ _ Hi Hx Ht) as [Hnf Hnd].
  assert (driver (shut_ac tid e x) = None \/ driver (shut_ac tid e x) = driver x /\ driver x <> Some tid) as Hdr
    by (rewrite E6; case_bool_decide; [by left|by right]).
  eapply places_set; [done..| | | |].
  - destruct (po_acs _ _ _ _ _ Hok a x Hx) as [P1 P2 P3 P4 P5 P6 P7]. split; rewrite ?E2, ?E3.
    + done.
    + intros t Hf. by destruct (Hnf t).
    + intros _. by left.
    + intros t _. by left.
    + done.
    + intros [[t Hd]|Hto]; left; [|by apply Htok]. destruct Hdr as [|[Hd' Hne]]; [congruence|].
      destruct (tears_driver _ _ _ _ t Hi Hx Ht) as [->|]; congruence.
    + intros t Hd. apply P7. destruct Hdr as [|[]]; congruence.
  - intros Hp. left. congruence.
  - intros Hin. destruct (po_connect _ _ _ _ _ Hok a Hin) as (y & Hy & [C1 C2 C3 C4]). assert (y = x) as -> by congruence.
    split; [destruct Hdr as [|[]]; congruence|intros _; apply Htok; by left|by right|congruence].
  - intros Hin. destruct (po_monitor _ _ _ _ _ Hok a Hin) as (y & Hy & [C1 C2 C3 C4]). assert (y = x) as -> by congruence.
    split; [destruct Hdr as [|[]]; congruence|intros _; apply Htok; by right|by right|by rewrite E4].
Qed.

Lemma shut_ok tid a e l K `{!Stable tid K} w :
  tears tid a w -> alone tid (a :: l) w -> K w -> steady a K ->
  wp tid (sec (fun tid w => shut_down tid a e w)) (fun _ w => alone tid l w /\ K w) w.
Proof.
  intros HJ Hal HK HKs. apply (wp_sec target dopts net tid _ (fun w => (tears tid a w /\ alone tid (a :: l) w) /\ K w)); [apply _|done|]. clear w HJ Hal HK.
  intros w1 Hi [[(x & Hx & Ht) [Hk Hcl]] HK]. destruct (shut_down_spec tid a e x w1 Hi Hx) as (ws & -> & Hws). exists ws. split; [done|].
  intros [] w2 Hin. destruct (Hws _ _ Hin) as (rd & ts & -> & Hc & Hg & Hrd). clear Hws Hin.
  destruct (shut_ac_spec tid e x) as (E1 & E2 & E3 & E4 & E5 & E6 & E7). destruct (tears_place _ _ _ _ Hi Hx Ht) as [Hnf Hnd].
  destruct (to_acs _ _ _ (i_transports _ _ _ _ Hi) a x Hx) as (_ & Herr & _).
  split; [|split; [|split; [|by eapply HKs]; split]].
  - apply inv_parts; [done|by apply shut_places|done|]. eapply transports_set; [apply Hc|done|done|congruence| |].
    + intros _. destruct E7 as [(Hs & -> & _)|[_ ->]]; [by apply Herr|done].
    + intros _ i t Hxi Hti Hta. destruct E7 as [(Hs & -> & _)|[Hs ->]]; [by left|right].
      destruct (cl_gone _ _ _ _ _ _ Hc i t Hs Hxi Hti Hta) as [-> ?]. done.
  - intros tid' Hne. apply rely_parts; [|done|apply Hc|by rewrite length_insert|apply Hc].
    apply (insert_pointwise _ _ _ x); [apply ac_rely_refl|done|]. split.
    + intros Hd. rewrite E6, Hd, bool_decide_eq_false_2 by congruence. auto.
    + intros _. rewrite E5. by left.
    + done.
    + by rewrite E4.
    + congruence.
    + congruence.
    + unfold mine. rewrite E1, E3, E6. intros [|[[]|Hd]]; [by left|done|]. case_bool_decide; [done|]. auto.
    + congruence.
  - intros b y Hy Hm. cbn in Hy. destruct (decide (a = b)) as [<-|Hne].
    + rewrite list_lookup_insert_eq in Hy by (by eapply lookup_lt_Some). injection Hy as <-. unfold mine in Hm. rewrite E1, E3, E6 in Hm.
      destruct Hm as [Hf|[[]|Hd]]; [by destruct (Hnf tid)|done|]. by case_bool_decide.
    + rewrite list_lookup_insert_ne in Hy by done. specialize (Hk b y Hy Hm). apply elem_of_cons in Hk as [|]; [congruence|done].
  - intros i t Hti. by eapply cl_clean.
Qed.

Lemma tearDown_ok tid a e l K `{!Stable tid K} w :
  tears tid a w -> alone tid (a :: l) w -> K w -> steady a K -> wp tid (tearDown a e) (fun _ w => alone tid l w /\ K w) w.
Proof.
  intros HJ Hal HK HKs. unfold tearDown. eapply wp_then; [by apply cancel_ok|]. clear w HJ Hal HK. intros [] w _ [[HJ Hal] HK]. by apply shut_ok.
Qed.

(** ** Beginning and ending *)

Lemma idle_alone tid w : inv w -> tid ∉ active w -> alone tid [] w.
Proof.
  intros Hi Hn. split.
  - intros a x Hx Hm. destruct Hn. destruct (po_acs _ _ _ _ _ (i_places _ _ _ _ Hi) a x Hx) as [P1 P2 P3 P4 P5 P6 P7].
    destruct Hm as [Hf|[[Hl Hs]|Hd]]; [by apply P2|by destruct (P4 tid Hl)|by apply P7].
  - intros i t Ht Hal Hm. destruct Hn. destruct (to_held _ _ _ (i_transports _ _ _ _ Hi) i t Ht Hal) as [(t' & Ht' & Hact)|[Hm' _]]; congruence.
Qed.

Lemma inv_active w act :
  inv w -> places_ok target (acs w) (conns w) (spawned w) act -> transports_ok (acs w) (transports w) act -> inv (set_active act w).
Proof. intros [H1 H2 H3 H4 H5 H6 H7 H8] P T. by split. Qed.

Definition idle (tid : nat) (w : ClientConn) : Prop :=
  (tid ∉ active w) /\ forall a x, acs w !! a = Some x -> at_place x <> Leaving tid.

#[export] Instance stable_idle tid : Stable tid (idle tid).
Proof.
  intros w w' Hr _ [Hn Hl]. split; [intros Hin; apply Hn; by apply Hr|]. intros a x' Hx'. destruct (acs w !! a) as [x|] eqn:Hx.
  - destruct (r_acs _ _ _ _ Hr a x Hx) as (x2 & Hx2 & Hxx). assert (x2 = x') as -> by congruence. intros Hp. by eapply Hl, ar_place.
  - by apply (r_new_ac _ _ _ _ Hr a x').
Qed.

Lemma enters_ok tid w : idle tid w -> wp tid enters (fun _ w => alone tid [] w /\ (tid ∈ active w)) w.
Proof.
  intros HJ. apply (wp_step target dopts net tid _ (idle tid)); [apply _|done|]. clear w HJ. intros w1 Hi HJ. eexists. split; [done|].
  intros [] w2 [_ ->]%one. split; [|split; [|split]].
  - apply inv_active; [done| |].
    + eapply places_active; [apply Hi|]. set_solver.
    + eapply transports_active; [apply Hi|]. set_solver.
  - intros tid' Hne. frame. set_solver.
  - exact (idle_alone tid w1 Hi (proj1 HJ)).
  - set_solver.
Qed.

(** What is left to it is only what it drives. *)
Definition parting (tid : nat) (w : ClientConn) : Prop :=
  alone tid [] w \/ exists a, alone tid [a] w /\ drives tid a (fun _ => True) w.

#[export] Instance stable_parting tid : Stable tid (parting tid).
Proof. unfold parting. apply _. Qed.

Lemma parting_mine tid w a x :
  inv w -> parting tid w -> acs w !! a = Some x -> at_place x <> Fresh tid /\ (at_place x = Leaving tid -> state x = Shutdown).
Proof.
  intros Hi Hp Hx. destruct (po_acs _ _ _ _ _ (i_places _ _ _ _ Hi) a x Hx) as [P1 P2 P3 P4 P5 P6 P7].
  destruct (decide (driver x = Some tid)) as [Hd|Hd].
  - split; [intros Hf; destruct (P2 tid Hf) as (_ & _ & _ & Hn & _); congruence|]. intros Hl.
    destruct Hp as [[Hk _]|(b & [Hk _] & y & Hy & _ & [_ Hn] & _)].
    { destruct (not_elem_of_nil a). apply (Hk a x Hx). right. by right. }
    assert (a ∈ [b]) as ->%list_elem_of_singleton by (apply (Hk a x Hx); right; by right). congruence.
  - assert (mine tid x -> False) as Hno.
    { intros Hm. destruct Hp as [[Hk _]|(b & [Hk _] & y & Hy & Hdy & _)]; specialize (Hk a x Hx Hm).
      - by apply not_elem_of_nil in Hk.
      - apply list_elem_of_singleton in Hk as ->. congruence. }
    split; [intros Hf; apply Hno; by left|]. intros Hl. destruct (decide (state x = Shutdown)); [done|]. destruct Hno. right. by left.
Qed.

Lemma parting_clean tid w : parting tid w -> clean tid w.
Proof. by intros [[_ ?]|(a & [_ ?] & _)]. Qed.

Lemma leave_ac_driver tid x t : driver (leave_ac tid x) = Some t <-> driver x = Some t /\ t <> tid.
Proof. unfold leave_ac. cbn. case_bool_decide as Hd; [|naive_solver]. split; [done|]. intros [Ht Hne]. congruence. Qed.

Lemma leave_ac_none tid x : driver x = None -> leave_ac tid x = x.
Proof. intros Hd. destruct x. unfold leave_ac, with_driver. cbn in *. by subst. Qed.

Lemma places_leave w tid :
  inv w -> parting tid w -> places_ok target (leave_ac tid <$> acs w) (conns w) (spawned w) (active w ∖ {[tid]}).
Proof.
  intros Hi Hp. pose proof (i_places _ _ _ _ Hi) as [H1 H2 H3 H4 H5]. split; [| |done| |].
  - intros a x' Hx'. apply list_lookup_fmap_Some in Hx' as (x & -> & Hx). destruct (H1 a x Hx) as [P1 P2 P3 P4 P5 P6 P7].
    destruct (parting_mine tid w a x Hi Hp Hx) as [Hnf Hnl]. split; try done.
    + intros t Hf. cbn in Hf. destruct (P2 t Hf) as (Ha & Hs & Ht & Hd & Hn). rewrite leave_ac_none by done. split; [|done].
      apply elem_of_difference. split; [done|]. intros ->%elem_of_singleton. done.
    + intros t Hl. cbn in *. destruct (decide (t = tid)) as [->|Hne]; [left; auto|]. destruct (P4 t Hl); [by left|right]. set_solver.
    + intros Hf. destruct (P5 Hf) as (Ht & Hd & Hn). by rewrite leave_ac_none.
    + intros [[t Hd%leave_ac_driver]|Ht]; apply P6; [left|by right]. exists t. naive_solver.
    + intros t [Hd Hne]%leave_ac_driver. specialize (P7 t Hd). set_solver.
  - intros m k a Hm Hk. destruct (H2 m k a Hm Hk) as (-> & x & Hx & Hp'). split; [done|]. exists (leave_ac tid x).
    rewrite list_lookup_fmap, Hx. done.
  - intros a Hin. destruct (H4 a Hin) as (x & Hx & Hc). exists x. rewrite list_lookup_fmap, Hx. cbn. rewrite leave_ac_none by apply Hc. done.
  - intros a Hin. destruct (H5 a Hin) as (x & Hx & Hc). exists x. rewrite list_lookup_fmap, Hx. cbn. rewrite leave_ac_none by apply Hc. done.
Qed.

(** A change of places or of who works on them. *)
Definition alike (x x' : addrConn) : Prop :=
  state x' = state x /\ ready x' = ready x /\ ac_transport x' = ac_transport x /\ tearDownErr x' = tearDownErr x.

Lemma readies_alike xs xs' rd sl : Forall2 alike xs xs' -> readies_ok xs rd sl -> readies_ok xs' rd sl.
Proof.
  intros Hal [H1 H2 H3]. split.
  - intros a x' c Hx' Hc. destruct (Forall2_lookup_r _ _ _ _ _ Hal Hx') as (x & Hx & Hs & Hr & _). rewrite Hs. apply (H1 a x c); [done|congruence].
  - intros c a Hc. destruct (H2 c a Hc) as (x & Hx & Hr). destruct (Forall2_lookup_l _ _ _ _ _ Hal Hx) as (x' & Hx' & _ & Hr' & _).
    exists x'. split; [done|congruence].
  - intros t s Hs. destruct (H3 t s Hs) as (b & Hb & Ho). exists b. split; [done|]. intros -> Hf. destruct (Ho eq_refl Hf) as (x & Hx & He).
    destruct (Forall2_lookup_l _ _ _ _ _ Hal Hx) as (x' & Hx' & Hs' & _). exists x'. split; [done|]. by rewrite Hs'.
Qed.

Lemma transports_alike xs xs' ts act : Forall2 alike xs xs' -> transports_ok xs ts act -> transports_ok xs' ts act.
Proof.
  intros Hal [H1 H2]. split.
  - intros a x' Hx'. destruct (Forall2_lookup_r _ _ _ _ _ Hal Hx') as (x & Hx & Hs & _ & Ht & He). rewrite Hs, Ht, He. by apply (H1 a x).
  - intros i t Hi Ha. destruct (H2 i t Hi Ha) as [|(Hm & x & Hx & Ht & Hs)]; [by left|right]. split; [done|].
    destruct (Forall2_lookup_l _ _ _ _ _ Hal Hx) as (x' & Hx' & Hs' & _ & Ht' & He'). exists x'. rewrite Hs', Ht', He'. done.
Qed.

Lemma leave_alike tid xs : Forall2 alike xs (leave_ac tid <$> xs).
Proof. induction xs as [|x xs IH]; [constructor|]. by constructor. Qed.

Lemma ends_ok tid w : parting tid w -> wp tid ends (fun _ _ => True) w.
Proof.
  intros HJ. apply (wp_step target dopts net tid _ (parting tid)); [apply _|done|]. clear w HJ. intros w1 Hi HJ. eexists. split; [done|].
  intros [] w2 [_ ->]%one. split; [|split; [|done]].
  - pose proof (places_leave w1 tid Hi HJ) as HP. destruct Hi as [H1 H2 H3 H4 H5 H6 H7 H8]. split; try done; cbn.
    + eapply readies_alike; [apply leave_alike|done].
    + eapply transports_active; [eapply transports_alike; [apply leave_alike|done]|]. intros i t t' Ht Hal Hm Hact. apply elem_of_difference.
      split; [done|]. intros ->%elem_of_singleton. by apply (parting_clean tid w1 HJ i t).
  - intros tid' Hne. frame; [| |set_solver].
    + intros a x Hx. exists (leave_ac tid x). rewrite list_lookup_fmap, Hx. split; [done|]. split; cbn; try done; try by auto.
      * intros Hd. rewrite bool_decide_eq_false_2 by congruence. auto.
      * unfold mine. cbn. intros [|[|Hd]]; [by left|right; by left|]. case_bool_decide; [done|]. right. by right.
    + intros a x' Hx' Hn. rewrite list_lookup_fmap, Hn in Hx'. done.
Qed.

(** The goroutine that connects, and the monitor. *)
Definition starting (tid a : nat) : ClientConn -> Prop :=
  drives tid a (fun x => (state x = Idle \/ state x = Shutdown) /\ ac_transport x = None).

#[export] Instance stable_starting tid a : Stable tid (starting tid a).
Proof. apply stable_drives, settled_state. Qed.

Definition started (tid : nat) (g : goroutine) (w : ClientConn) : Prop :=
  match g with
  | GDial => sender (waitC w) = Some tid /\ sent (waitC w) = None /\ closed (waitC w) = false /\ (forall a, ~ listed (conns w) a) /\ alone tid [] w /\ (tid ∈ active w)
  | GConnect a => starting tid a w /\ alone tid [a] w
  | GMonitor a => (exists i, monitors tid a i w) /\ alone tid [a] w
  end.

#[export] Instance stable_started tid g : Stable tid (started tid g).
Proof.
  destruct g as [|a|a]; [|apply _..]. intros w w' Hr Hi (H1 & H2 & H3 & H4 & H5 & H6).
  destruct (r_sender _ _ _ _ Hr H1) as (R1 & R2 & R3). split; [done|]. split; [congruence|]. split; [congruence|]. split.
  - by apply (r_unlisted _ _ _ _ Hr).
  - split; [by eapply stable_alone|]. by apply Hr.
Qed.

Lemma elem_of_minus (g g' : goroutine) sp : g ∈ list_difference sp [g'] -> g ∈ sp.
Proof. by intros [? _]%list_elem_of_difference. Qed.

Lemma begins_dial_ok tid w : idle tid w -> wp tid (begins GDial) (fun _ => started tid GDial) w.
Proof.
  intros HJ. apply (wp_step target dopts net tid _ (idle tid)); [apply _|done|]. clear w HJ. intros w1 Hi HJ.
  case_bool_decide as Hg; [|exists []; split; [done|by intros b w2 Hin%not_elem_of_nil]].
  destruct (do_token _ _ _ _ _ _ (i_dial _ _ _ _ Hi) Hg) as (Hs & Hsent & Hcl). eexists. split; [done|].
  intros [] w2 [_ ->]%one. pose proof (idle_alone tid w1 Hi (proj1 HJ)) as Hal. split; [|split].
  - destruct Hi as [H1 H2 H3 H4 H5 H6 H7 H8]. pose proof (po_tokens _ _ _ _ _ H1) as Hnd.
    assert (GDial ∉ list_difference (spawned w1) [GDial]) as Hno by (intros [_ Hn]%list_elem_of_difference; set_solver). split; try done; cbn.
    + eapply (places_active _ _ _ _ (active w1)); [|set_solver]. destruct H1 as [P1 P2 P3 P4 P5]. split; try done.
      * intros a x Hx. destruct (P1 a x Hx) as [Q1 Q2 Q3 Q4 Q5 Q6 Q7].
        assert (token (list_difference (spawned w1) [GDial]) a -> token (spawned w1) a) as Htok by (unfold token; intros []; eauto using elem_of_minus).
        split; try done.
        -- intros t Hf. destruct (Q2 t Hf) as (? & [? ?] & ? & ? & Hn). repeat split; try done. auto.
        -- intros Hf. destruct (Q5 Hf) as (? & ? & Hn). repeat split; try done. auto.
        -- intros [|]; apply Q6; auto.
      * by apply NoDup_list_difference.
      * eauto using elem_of_minus.
      * eauto using elem_of_minus.
    + eapply transports_active; [done|]. set_solver.
    + destruct H4 as [D1 D2 D3]. by split.
  - intros tid' Hne. frame. set_solver.
  - cbn. split; [done|]. split; [done|]. split; [done|]. split; [by apply (i_first _ _ _ _ Hi)|]. split; [exact Hal|set_solver].
Qed.

Lemma alone_set tid l w w' a x' :
  acs w' = <[a := x']> (acs w) -> transports w' = transports w -> a ∈ l -> alone tid l w -> alone tid l w'.
Proof. intros Hx Ht Ha [Hk Hc]. split; [by eapply keeps_set|]. unfold clean. by rewrite Ht. Qed.

Lemma alone_more tid l l' w : (forall a, a ∈ l -> a ∈ l') -> alone tid l w -> alone tid l' w.
Proof. intros Hl [Hk Hc]. split; [|done]. intros a x Hx Hm. apply Hl. by eapply Hk. Qed.

(** The state after a token is taken. *)
Lemma begins_places w tid g a x :
  inv w -> g = GConnect a \/ g = GMonitor a -> g ∈ spawned w -> acs w !! a = Some x ->
  inv (set_ac a (with_driver (Some tid) x) (set_active ({[tid]} ∪ active w) (set_spawned (list_difference (spawned w) [g]) w))).
Proof.
  intros Hi Hg Hin Hx. destruct Hi as [H1 H2 H3 H4 H5 H6 H7 H8]. destruct (to_acs _ _ _ H3 a x Hx) as (T1 & T2 & T3). split; try done; cbn.
  - by apply places_begin.
  - eapply readies_set; [done|done|done|]. intros [c Hc]. destruct (ro_ready _ _ _ H2 a x c Hx Hc) as (_ & ? & ?). done.
  - eapply transports_active; [eapply transports_set; [done..|]|set_solver]. intros Hs i t _ _ _. by left.
  - destruct H4 as [D1 D2 D3]. split; [|done|done]. intros Hd. apply D1. by eapply elem_of_minus.
Qed.

Lemma begins_rely w tid tid' g a x :
  tid' <> tid -> acs w !! a = Some x -> driver x = None -> g = GConnect a \/ g = GMonitor a ->
  rely tid' w (set_ac a (with_driver (Some tid) x) (set_active ({[tid]} ∪ active w) (set_spawned (list_difference (spawned w) [g]) w))).
Proof.
  intros Hne Hx Hd Hg. transitivity (set_active ({[tid]} ∪ active w) (set_spawned (list_difference (spawned w) [g]) w)).
  - frame; [set_solver|]. intros ->. split; [done|]. split; [done|]. split; [done|]. intros Hs Hn. split; [done|]. split; [|done].
    intros Hin. by apply elem_of_minus in Hin.
  - eapply rely_set_ac; [done|]. split; cbn; try done; try congruence; auto. unfold mine. cbn. intros [|[|[= ->]]]; auto. done.
Qed.

Lemma begins_work_ok tid g a w :
  g = GConnect a \/ g = GMonitor a -> idle tid w -> wp tid (begins g) (fun _ => started tid g) w.
Proof.
  intros Hga HJ. apply (wp_step target dopts net tid _ (idle tid)); [apply _|done|]. clear w HJ. intros w1 Hi HJ.
  case_bool_decide as Hg; [|exists []; split; [done|by intros b w2 Hin%not_elem_of_nil]].
  pose proof (idle_alone tid w1 Hi (proj1 HJ)) as Hal.
  assert (exists x, acs w1 !! a = Some x /\ driver x = None /\
    forall w2, acs w2 = <[a := with_driver (Some tid) x]> (acs w1) -> conns w2 = conns w1 -> transports w2 = transports w1 -> started tid g w2)
    as (x & Hx & Hd & Hstarted).
  { assert (forall w2 x, acs w1 !! a = Some x -> acs w2 = <[a := with_driver (Some tid) x]> (acs w1) -> transports w2 = transports w1 -> alone tid [a] w2) as Halone.
    { intros w2 x Hx Hxs Hts. eapply (alone_set _ _ w1); [done|done|by left|]. eapply alone_more; [|exact Hal]. by intros ? ?%not_elem_of_nil. }
    assert (forall x w2, acs w1 !! a = Some x -> conns w2 = conns w1 -> (ac_done x = true -> conns w1 = None) -> unshut tid (with_driver (Some tid) x) w2) as Hun.
    { intros x w2 Hx Hcs Hdone. split; [rewrite Hcs; exact Hdone|]. exact (proj2 HJ a x Hx). }
    destruct Hga as [-> | ->].
    - destruct (po_connect _ _ _ _ _ (i_places _ _ _ _ Hi) a Hg) as (x & Hx & [C1 C2 C3 C4]). exists x. split; [done|]. split; [done|].
      intros w2 Hxs Hcs Hts. split; [|by eapply Halone]. exists (with_driver (Some tid) x).
      rewrite Hxs, list_lookup_insert_eq by (by eapply lookup_lt_Some). split; [done|]. split; [done|]. split; [by apply Hun|done].
    - destruct (po_monitor _ _ _ _ _ (i_places _ _ _ _ Hi) a Hg) as (x & Hx & [C1 C2 C3 [i C4]]). exists x. split; [done|]. split; [done|].
      intros w2 Hxs Hcs Hts. split; [|by eapply Halone]. exists i, (with_driver (Some tid) x).
      rewrite Hxs, list_lookup_insert_eq by (by eapply lookup_lt_Some). split; [done|]. split; [done|]. split; [by apply Hun|done]. }
  assert (match g with GDial => True | GConnect b | GMonitor b => b = a end) as Hb by (destruct Hga as [-> | ->]; done).
  exists [(tt, set_ac a (with_driver (Some tid) x) (set_active ({[tid]} ∪ active w1) (set_spawned (list_difference (spawned w1) [g]) w1)))].
  split; [destruct Hga as [-> | ->]; cbn; by rewrite Hx|]. intros [] w2 [_ ->]%one. split; [|split].
  - by apply begins_places.
  - intros tid' Hne. by apply begins_rely.
  - by apply Hstarted.
Qed.

(** [go], by the goroutine that has worked on it until then. *)
Lemma go_ok tid g a w :
  g = GConnect a /\ starting tid a w \/ g = GMonitor a /\ (exists i, monitors tid a i w) -> alone tid [a] w ->
  wp tid (go g) (fun _ => alone tid []) w.
Proof.
  intros HJ Hal.
  apply (wp_sec target dopts net tid _ (fun w => (g = GConnect a /\ starting tid a w \/ g = GMonitor a /\ (exists i, monitors tid a i w)) /\ alone tid [a] w));
    [apply _|done|]. clear w HJ Hal. intros w1 Hi [HJ Hal].
  assert (exists x, acs w1 !! a = Some x /\ driver x = Some tid /\ at_place x <> Leaving tid /\ starts (conns w1) g a (with_driver None x))
    as (x & Hx & Hd & Hnl & Hst).
  { destruct HJ as [[-> (x & Hx & Hd & [Hc Hl] & Hs & Ht)]|[-> (i & x & Hx & Hd & [Hc Hl] & Hs & Ht)]]; exists x; (split; [done|]; split; [done|]; split; [done|]).
    - left. split; [done|]. by split.
    - right. split; [done|]. split; try done. }
  exists [(tt, set_ac a (with_driver None x) (set_spawned (spawned w1 ++ [g]) w1))].
  split; [destruct HJ as [[-> _]|[-> _]]; cbn; by rewrite Hx|]. intros [] w2 [_ ->]%one. destruct (to_acs _ _ _ (i_transports _ _ _ _ Hi) a x Hx) as (T1 & T2 & T3).
  assert (g <> GDial) as Hng by (destruct Hst as [[-> _]|[-> _]]; done).
  split; [|split; [|split]].
  - destruct Hi as [H1 H2 H3 H4 H5 H6 H7 H8]. split; try done; cbn.
    + by eapply places_go.
    + eapply readies_set; [done|done|done|]. intros [c Hc]. destruct (ro_ready _ _ _ H2 a x c Hx Hc) as (_ & ? & ?). done.
    + eapply transports_set; [done..|]. intros Hs i t _ _ _. by left.
    + destruct H4 as [D1 D2 D3]. split; [|done|done]. intros [|Hin%list_elem_of_singleton]%elem_of_app; [auto|congruence].
  - intros tid' Hne. transitivity (set_spawned (spawned w1 ++ [g]) w1).
    + frame. intros ->. split; [done|]. split; [done|]. split; [done|]. intros Hs Hn. split; [done|]. split; [|done].
      intros [|Hin%list_elem_of_singleton]%elem_of_app; [done|congruence].
    + eapply rely_set_ac; [done|]. split; cbn; try done; try congruence. unfold mine. cbn. intros [|[|]]; auto. done.
  - destruct Hal as [Hk _]. intros b y Hy Hm. cbn in Hy. destruct (decide (a = b)) as [<-|Hne].
    + rewrite list_lookup_insert_eq in Hy by (by eapply lookup_lt_Some). injection Hy as <-.
      destruct (tears_place _ _ _ _ Hi Hx (or_introl Hd)) as [Hnf _]. destruct Hm as [Hf|[[Hl Hs]|]]; [by destruct (Hnf tid)|done..].
    + rewrite list_lookup_insert_ne in Hy by done. specialize (Hk b y Hy Hm). apply list_elem_of_singleton in Hk. congruence.
  - by destruct Hal.
Qed.
End tear.

(** * How an addrConn comes into conns

    [resetAddrConn] in the hands of [DialContext]'s goroutine, which makes the first, and of the monitor, which replaces its own. *)

Section setup.
Context (target : string) (dopts : dialOptions) (net : nat -> attempt).

#[local] Abbreviation inv := (inv target dopts net).
#[local] Abbreviation rely := (rely target).
#[local] Abbreviation listed := (listed target).
#[local] Abbreviation never := (fun _ : ClientConn => False).
#[local] Abbreviation wp := (Threads.wp inv rely never).
#[local] Abbreviation guarantee := (Threads.guarantee rely).
#[local] Abbreviation Stable := (ClientInv.Stable target dopts net).
#[local] Abbreviation started := (started target).

Definition fresh (tid a : nat) (w : ClientConn) : Prop := exists x, acs w !! a = Some x /\ at_place x = Fresh tid.

#[export] Instance stable_fresh tid a : Stable tid (fresh tid a).
Proof.
  intros w w' Hr _ (x & Hx & Hf). destruct (r_acs _ _ _ _ Hr a x Hx) as (x' & Hx' & Hxx). exists x'. split; [done|]. by eapply ar_fresh.
Qed.

Lemma fresh_placed w a x tid :
  inv w -> acs w !! a = Some x -> at_place x = Fresh tid ->
  tid ∈ active w /\ (state x = Idle /\ ac_done x = false) /\ ac_transport x = None /\ driver x = None /\ ~ token (spawned w) a.
Proof. intros Hi Hx. apply (po_acs _ _ _ _ _ (i_places _ _ _ _ Hi) a x Hx). Qed.

Lemma new_ac_ok tid l J `{!Stable tid J} w :
  alone tid l w -> tid ∈ active w -> J w -> (forall w x, J w -> J (set_acs (acs w ++ [x]) w)) ->
  wp tid (new_ac target) (fun a w => (fresh tid a w /\ alone tid (a :: l) w) /\ J w) w.
Proof.
  intros Hal Hact HJ HJa. apply (wp_step target dopts net tid _ (fun w => (alone tid l w /\ (tid ∈ active w)) /\ J w)); [apply _|done|].
  clear w Hal Hact HJ. intros w1 Hi [[[Hk Hcl] Hact] HJ]. eexists. split; [done|]. intros a w2 [-> ->]%one. split; [|split; [|split; [split|]]].
  - destruct Hi as [H1 H2 H3 H4 H5 H6 H7 H8]. split; try done; cbn.
    + by eapply places_new.
    + by apply readies_new.
    + by apply transports_new.
  - intros tid' Hne. frame.
    + apply app_pointwise, ac_rely_refl.
    + intros a x [Hx|[_ Hx]]%lookup_app_Some Hn; [congruence|]. apply list_lookup_singleton_Some in Hx as [_ <-].
      split; [|done]. unfold mine. cbn. intros [[= ->]|[[]|]]; done.
  - eexists. cbn. rewrite lookup_app_r, Nat.sub_diag by lia. by split.
  - split; [|done]. intros b x [Hx|[Hge Hx]]%lookup_app_Some Hm; [right; by eapply Hk|]. apply list_lookup_singleton_Some in Hx as [Hz _].
    apply elem_of_cons. left. lia.
  - by apply HJa.
Qed.

Lemma drop_ok tid a l K `{!Stable tid K} w :
  fresh tid a w -> alone tid (a :: l) w -> K w ->
  (forall w x, acs w !! a = Some x -> K w -> K (set_ac a (with_at_place Dropped x) w)) -> wp tid (drop a) (fun _ w => alone tid l w /\ K w) w.
Proof.
  intros HJ Hal HK HKs. apply (wp_sec target dopts net tid _ (fun w => (fresh tid a w /\ alone tid (a :: l) w) /\ K w)); [apply _|done|]. clear w HJ Hal HK.
  intros w1 Hi [[(x & Hx & Hf) [Hk Hcl]] HK]. rewrite Hx. eexists. split; [done|]. intros [] w2 [_ ->]%one.
  destruct (fresh_placed w1 a x tid Hi Hx Hf) as (Hact & [Hs Hdone] & Ht & Hd & Hno). split; [|split; [|split; [|by apply HKs]; split]].
  - eapply inv_ac; [done..| | |].
    + eapply places_set; [apply Hi|done| | | |].
      * destruct (po_acs _ _ _ _ _ (i_places _ _ _ _ Hi) a x Hx) as [P1 P2 P3 P4 P5 P6 P7]. by split.
      * rewrite Hf. done.
      * intros Hin. destruct Hno. by left.
      * intros Hin. destruct Hno. by right.
    + eapply readies_set; [apply Hi|done|done|]. cbn. rewrite Hs. done.
    + eapply transports_set; [apply Hi|done..| | |]; cbn; rewrite Hs; done.
  - intros tid' Hne. eapply rely_set_ac; [done|]. split; cbn; try congruence; auto. unfold mine. cbn. rewrite Hd. intros [|[[]|]]; done.
  - intros b y Hy Hm. cbn in Hy. destruct (decide (a = b)) as [<-|Hne].
    + rewrite list_lookup_insert_eq in Hy by (by eapply lookup_lt_Some). injection Hy as <-. unfold mine in Hm. cbn in Hm. rewrite Hd in Hm.
      destruct Hm as [|[[]|]]; done.
    + rewrite list_lookup_insert_ne in Hy by done. specialize (Hk b y Hy Hm). apply elem_of_cons in Hk as [|]; [congruence|done].
  - done.
Qed.

(** ** track *)

(** What a goroutine may replace: nothing, if it is [DialContext]'s and the first; its own, if it is a monitor. *)
Definition replaces (tid : nat) (o : option nat) (w : ClientConn) : Prop :=
  match o with
  | None => sender (waitC w) = Some tid /\ forall b, ~ listed (conns w) b
  | Some b => drives tid b (fun _ => True) w
  end.

#[export] Instance stable_replaces tid o : Stable tid (replaces tid o).
Proof.
  destruct o as [b|]; [apply _|]. intros w w' Hr _ [Hs Hl]. split; [by apply Hr|]. by apply (r_unlisted _ _ _ _ Hr).
Qed.

Lemma replaces_listed tid o w m :
  inv w -> replaces tid o w -> conns w = Some m ->
  m !! target = o /\ forall b, o = Some b -> exists y, acs w !! b = Some y /\ driver y = Some tid /\ at_place y = Tracked.
Proof.
  intros Hi Ho Hm. pose proof (i_places _ _ _ _ Hi) as Hok. destruct o as [b|].
  - destruct Ho as (y & Hy & Hd & _). destruct (pl_driven _ _ _ _ _ _ (po_acs _ _ _ _ _ Hok b y Hy)) as [|[(m' & Hm' & Hb) _]];
      [left; by rewrite Hd|congruence|]. split; [congruence|]. intros b' [= <-]. exists y. split; [done|]. split; [done|].
    apply (listed_tracked _ _ _ _ _ Hok b y Hy). by exists m'.
  - destruct Ho as [_ Hl]. split; [|done]. destruct (m !! target) as [b|] eqn:Hb; [|done]. destruct (Hl b). by exists m.
Qed.

Definition tracked (tid a : nat) (o : option nat) (r : option (option nat)) (w : ClientConn) : Prop :=
  alone tid (a :: option_list o) w /\
  match r with
  | None => (fresh tid a w /\ replaces tid o w) /\ conns w = None
  | Some stale => stale = o /\ starting tid a w /\ match o with Some b => b <> a /\ tears tid b w | None => True end
  end.

#[export] Instance stable_tracked tid a o r : Stable tid (tracked tid a o r).
Proof. unfold tracked. destruct r; [|apply _]. destruct o; apply _. Qed.

(** The state after. *)
Definition tracks (w : ClientConn) (m : gmap string nat) (a tid : nat) (x : addrConn) (o : option nat) : ClientConn :=
  set_conns (Some (<[target := a]> m)) (set_acs (<[a := with_driver (Some tid) (with_at_place Tracked x)]> (without (acs w) o tid)) w).

(** What the two changes of [addrConn]s have in common. *)
Lemma tracks_acs w a tid x o (P : addrConn -> Prop) (R : addrConn -> addrConn -> Prop) :
  acs w !! a = Some x -> (forall y, R y y) -> R x (with_driver (Some tid) (with_at_place Tracked x)) ->
  (forall b y, o = Some b -> b <> a -> acs w !! b = Some y -> R y (with_driver None (with_at_place (Leaving tid) y))) ->
  forall c y, acs w !! c = Some y -> exists y', <[a := with_driver (Some tid) (with_at_place Tracked x)]> (without (acs w) o tid) !! c = Some y' /\ R y y'.
Proof.
  intros Hx Hrefl Ha Hb c y Hy. assert (length (without (acs w) o tid) = length (acs w)) as Hlen.
  { unfold without. destruct o as [b|]; [|done]. destruct (acs w !! b); [by rewrite length_insert|done]. }
  destruct (decide (a = c)) as [<-|Hne].
  - eexists. rewrite list_lookup_insert_eq by (rewrite Hlen; by eapply lookup_lt_Some). split; [done|]. congruence.
  - rewrite list_lookup_insert_ne by done. unfold without. destruct o as [b|]; [|eauto]. destruct (acs w !! b) as [z|] eqn:Hz; [|eauto].
    destruct (decide (b = c)) as [<-|Hbc].
    + eexists. rewrite list_lookup_insert_eq by (by eapply lookup_lt_Some). split; [done|]. assert (z = y) as -> by congruence. by apply (Hb b).
    + rewrite list_lookup_insert_ne by done. eauto.
Qed.

Lemma readies_without w o tid : inv w -> readies_ok (without (acs w) o tid) (readies w) (asleep w).
Proof.
  intros Hi. pose proof (i_readies _ _ _ _ Hi) as Hok. unfold without. destruct o as [b|]; [|done]. destruct (acs w !! b) as [y|] eqn:Hy; [|done].
  eapply readies_set; [done|done|done|]. intros [c Hc]. destruct (ro_ready _ _ _ Hok b y c Hy Hc) as (_ & ? & ?). done.
Qed.

Lemma transports_without w o tid : inv w -> transports_ok (without (acs w) o tid) (transports w) (active w).
Proof.
  intros Hi. pose proof (i_transports _ _ _ _ Hi) as Hok. unfold without. destruct o as [b|]; [|done]. destruct (acs w !! b) as [y|] eqn:Hy; [|done].
  destruct (to_acs _ _ _ Hok b y Hy) as (T1 & T2 & T3). eapply transports_set; [done|done|done|done|done|]. intros Hs i t _ _ _. by left.
Qed.

Lemma tracks_inv w m a tid x o :
  inv w -> conns w = Some m -> acs w !! a = Some x -> at_place x = Fresh tid -> replaces tid o w -> inv (tracks w m a tid x o).
Proof.
  intros Hi Hm Hx Hf Ho. destruct (replaces_listed tid o w m Hi Ho Hm) as [Hmo Hob].
  destruct (fresh_placed w a x tid Hi Hx Hf) as (Hact & [Hs Hdone] & Ht & Hd & Hno).
  assert (without (acs w) o tid !! a = Some x) as Hxw.
  { unfold without. destruct o as [b|]; [|done]. destruct (acs w !! b) eqn:Hb; [|done]. rewrite list_lookup_insert_ne; [done|].
    intros ->. destruct (Hob a eq_refl) as (y & Hy & Hdy & _). congruence. }
  pose proof (readies_without w o tid Hi) as Hrd. pose proof (transports_without w o tid Hi) as Hts.
  pose proof Hi as [H1 H2 H3 H4 H5 H6 H7 H8]. split; cbn.
  - rewrite <- Hmo. eapply places_track; [done..|]. intros b Hb. destruct (Hob b) as (y & Hy & Hdy & _); [congruence|]. eauto.
  - eapply readies_set; [done|done|done|]. cbn. by rewrite Hs.
  - eapply transports_set; [done|done|done|cbn; by rewrite Hs..].
  - done.
  - intros Hsn b. destruct o as [b'|]; [|destruct Ho; congruence]. intros _. apply (H5 Hsn b'). exists m. auto.
  - done.
  - intros Htorn. rewrite (H7 Htorn) in Hm. done.
  - unfold returned in *. cbn. destruct (dialled w) as [[e|]|]; [|done..]. destruct H8. congruence.
Qed.

Lemma tracks_rely w m a tid x o tid' :
  tid' <> tid -> inv w -> conns w = Some m -> acs w !! a = Some x -> at_place x = Fresh tid -> replaces tid o w -> rely tid' w (tracks w m a tid x o).
Proof.
  intros Hne Hi Hm Hx Hf Ho. destruct (replaces_listed tid o w m Hi Ho Hm) as [Hmo Hob].
  destruct (fresh_placed w a x tid Hi Hx Hf) as (Hact & [Hs Hdone] & Ht & Hd & Hno). frame.
  - apply tracks_acs; [exact (fun _ => True)|done|apply ac_rely_refl| |].
    + split; cbn; try congruence; auto. unfold mine. cbn. intros [|[[? ?]|[= ->]]]; done.
    + intros b y Hb _ Hy. destruct (Hob b Hb) as (y' & Hy' & Hdy & Hp). assert (y' = y) as -> by congruence.
      split; cbn; try congruence; auto. unfold mine. cbn. intros [|[[[= ->] ?]|]]; done.
  - intros b y Hy Hn. apply lookup_lt_Some in Hy. rewrite length_insert in Hy. rewrite lookup_ge_None in Hn.
    assert (length (without (acs w) o tid) = length (acs w)) as Hlen; [|lia].
    unfold without. destruct o as [c|]; [|done]. destruct (acs w !! c); [by rewrite length_insert|done].
  - intros Hsn Hl. destruct o as [b|]; [|destruct Ho; congruence]. destruct (Hl b). exists m. auto.
Qed.

Lemma track_ok tid a o w :
  fresh tid a w -> alone tid (a :: option_list o) w -> replaces tid o w -> wp tid (track a) (tracked tid a o) w.
Proof.
  intros HJ Hal Ho. apply (wp_sec target dopts net tid _ (fun w => (fresh tid a w /\ alone tid (a :: option_list o) w) /\ replaces tid o w)); [apply _|done|].
  clear w HJ Hal Ho. intros w1 Hi [[(x & Hx & Hf) Hal] Ho]. rewrite Hx. cbn [mbind option_bind].
  destruct (conns w1) as [m|] eqn:Hm.
  2: { eexists. split; [done|]. intros r w2 [-> ->]%one. split; [done|]. split; [by intros tid' _|]. split; [done|]. split; [|done]. split; [by exists x|done]. }
  destruct (replaces_listed tid o w1 m Hi Ho Hm) as [Hmo Hob]. destruct (fresh_placed w1 a x tid Hi Hx Hf) as (Hact & [Hs Hdone] & Ht & Hd & Hno).
  assert (addr x = target) as Haddr by (by apply (po_acs _ _ _ _ _ (i_places _ _ _ _ Hi) a x Hx)). cbv zeta. rewrite Haddr, Hmo.
  eexists. split; [done|]. intros r w2 [-> ->]%one.
  match goal with |- context [tracked _ _ _ _ ?w2] => assert (w2 = tracks w1 m a tid x o) as -> end.
  { unfold tracks, without, set_ac. destruct o as [b|]; [|done]. by destruct (acs w1 !! b). }
  split; [by apply tracks_inv|]. split; [by intros tid' Hne; apply tracks_rely|].
  assert (<[a := with_driver (Some tid) (with_at_place Tracked x)]> (without (acs w1) o tid) !! a = Some (with_driver (Some tid) (with_at_place Tracked x))) as Hxa.
  { apply list_lookup_insert_eq. unfold without. destruct o as [b|]; [|by eapply lookup_lt_Some].
    destruct (acs w1 !! b); [rewrite length_insert|]; by eapply lookup_lt_Some. }
  split; [|split; [done|split]].
  - destruct Hal as [Hk Hcl]. split; [|done]. intros c y Hy Hmine. destruct (decide (a = c)) as [<-|Hne]; [by left|].
    cbn in Hy. rewrite list_lookup_insert_ne in Hy by done. destruct (lookup_without _ _ _ _ _ Hy) as [[Hoc Hy0]|(-> & _)].
    + by eapply Hk.
    + right. cbn. by left.
  - exists (with_driver (Some tid) (with_at_place Tracked x)). cbn. split; [done|]. split; [done|]. split; [|split; [by left|done]].
    split; [|done]. cbn. by rewrite Hdone.
  - destruct o as [b|]; [|done]. destruct (Hob b eq_refl) as (y & Hy & Hdy & Hp). split; [congruence|].
    exists (with_driver None (with_at_place (Leaving tid) y)). split; [|by right]. cbn. rewrite list_lookup_insert_ne by (intros ->; congruence).
    unfold without. rewrite Hy. apply list_lookup_insert_eq. by eapply lookup_lt_Some.
Qed.
(** ** resetAddrConn *)

Lemma replaces_more tid o w x : replaces tid o w -> replaces tid o (set_acs (acs w ++ [x]) w).
Proof.
  destruct o as [b|]; [|done]. intros (y & Hy & Hd & Hu & _). exists y. split; [|done]. cbn. rewrite lookup_app_l; [done|]. by eapply lookup_lt_Some.
Qed.

Lemma replaces_drop tid o a w x : acs w !! a = Some x -> replaces tid o w -> replaces tid o (set_ac a (with_at_place Dropped x) w).
Proof.
  intros Hx. destruct o as [b|]; [|done]. intros (y & Hy & Hd & [Hdone Hl] & _). destruct (decide (a = b)) as [<-|Hne].
  - exists (with_at_place Dropped x). cbn. rewrite list_lookup_insert_eq by (by eapply lookup_lt_Some). assert (y = x) as -> by congruence. done.
  - exists y. cbn. by rewrite list_lookup_insert_ne.
Qed.

Lemma steady_drives tid a b P : a <> b -> steady b (drives tid a P).
Proof.
  intros Hne w w' x x' Hx Hxs Hp Hcs _ (y & Hy & Hd & [Hdone Hl] & HP). exists y. rewrite Hxs, list_lookup_insert_ne by done.
  split; [done|]. split; [done|]. split; [|done]. split; [by rewrite Hcs|done].
Qed.

(** An error leaves everything as it was. *)
Definition set_up (tid : nat) (o : option nat) (r : go_error + nat) (w : ClientConn) : Prop :=
  match r with
  | inl e => alone tid (option_list o) w /\ replaces tid o w /\ (check_security dopts = Some e \/ conns w = None)
  | inr a => starting tid a w /\ alone tid [a] w
  end.

#[export] Instance stable_set_up tid o r : Stable tid (set_up tid o r).
Proof. unfold set_up. destruct r; apply _. Qed.

Lemma dropped_ok tid a o e w :
  (fresh tid a w /\ alone tid (a :: option_list o) w) /\ replaces tid o w -> check_security dopts = Some e \/ conns w = None ->
  wp tid (_ ← drop a; mret (inl e)) (set_up tid o) w.
Proof.
  intros [[HJ Hal] Ho] He. eapply wp_then.
  { apply (drop_ok tid a (option_list o) (fun w => replaces tid o w /\ (check_security dopts = Some e \/ conns w = None))); [done..|].
    intros w1 x Hx [Ho1 He1]. split; [by apply replaces_drop|done]. }
  clear w HJ Hal Ho He. intros [] w _ (Hal & Ho & He). by apply wp_mret; [apply _|].
Qed.

Lemma resetAddrConn_ok tid o e w :
  replaces tid o w -> alone tid (option_list o) w -> tid ∈ active w -> wp tid (resetAddrConn target dopts e) (set_up tid o) w.
Proof.
  intros Ho Hal Hact. unfold resetAddrConn. eapply wp_then.
  { apply (new_ac_ok tid (option_list o) (replaces tid o)); [done..|]. intros w1 x. apply replaces_more. }
  clear w Ho Hal Hact. intros a w _ HJ. destruct (check_security dopts) as [e'|] eqn:He.
  { apply dropped_ok; [done|]. rewrite He. by left. }
  destruct HJ as [[HJ Hal] Ho]. eapply wp_then; [by apply track_ok|]. clear w HJ Hal Ho.
  intros [stale|] w _ [Hal Hr].
  - destruct Hr as (-> & Hst & Ho). eapply (wp_then _ _ _ _ _ _ (fun _ w => alone tid [a] w /\ starting tid a w)).
    + destruct o as [b|]; [|by apply wp_mret; [apply _|]]. destruct Ho as [Hne Ht]. apply tearDown_ok; [apply _|done| |done|by apply steady_drives].
      eapply alone_more; [|exact Hal]. set_solver.
    + clear w Hal Hst Ho. intros [] w _ [Hal Hst]. by apply wp_mret; [apply _|].
  - destruct Hr as ((Hf & Ho) & Hc). apply dropped_ok; [done|]. by right.
Qed.

Lemma resetAddrConn_async_ok tid b e w :
  drives tid b (fun _ => True) w -> alone tid [b] w -> tid ∈ active w -> wp tid (resetAddrConn_async target dopts e) (fun _ w => parting tid w) w.
Proof.
  intros HJ Hal Hact. unfold resetAddrConn_async. eapply wp_then; [by apply (resetAddrConn_ok tid (Some b))|]. clear w HJ Hal Hact.
  intros [e'|a] w _ HJ.
  - apply wp_mret; [apply _|]. destruct HJ as (Hal & Ho & _). right. by exists b.
  - destruct HJ as [Hst Hal]. eapply wp_then; [apply (go_ok target dopts net tid (GConnect a) a); [by left|done]|]. clear w Hst Hal.
    intros [] w _ Hal. apply wp_mret; [apply _|]. by left.
Qed.
End setup.
