(* ===== verification/ClientThreads.v ===== *)
(** * Client connections: the goroutines that connect

    The goroutine of [DialContext], those that connect, and the monitors; [Close], [DialContext] itself, and those who
    wait for a transport: they keep the invariant and none of them panics, in whatever order they take their steps. *)

From stdpp Require Import base list strings gmap relations.
From Stdlib Require Import ZArith Lia.
From S2P Require Import Prelude GoStrings Wire GrpcStatus GrpcTransport Threads ClientConn ClientInv ClientTear.
Open Scope Z_scope.

(** ** What a goroutine that connects does not touch *)

Definition calm (w w' : ClientConn) : Prop :=
  waitC w' = waitC w /\ (attempts w <= attempts w')%nat /\ (cc_done w = true -> cc_done w' = true) /\
  dial_ctx w' = dial_ctx w /\ dialled w' = dialled w.

(** Whatever the steps of a program within [R] leave alone, it leaves alone. *)
Definition within (R : ClientConn -> ClientConn -> Prop) {A} (p : prog ClientConn A) : Prop :=
  forall tid (K : ClientConn -> Prop), (forall w w', R w w' -> K w -> K w') -> preserves tid K p.

Section within.
Context (R : ClientConn -> ClientConn -> Prop).

Lemma within_ret {A} (a : A) : within R (mret a).
Proof. done. Qed.
Lemma within_bind {A B} (p : prog ClientConn A) (k : A -> prog ClientConn B) : within R p -> (forall a, within R (k a)) -> within R (p ≫= k).
Proof. intros Hp Hk tid K HK. apply preserves_bind; [by apply Hp|]. intros a. by apply Hk. Qed.
Lemma within_act {B} (f : nat -> ClientConn -> result (B * ClientConn)) :
  (forall tid w l b w', f tid w = Goes l -> (b, w') ∈ l -> R w w') -> within R (act f).
Proof. intros Hf tid K HK. apply preserves_act. intros w l b w' Hl Hin. apply HK. by eapply Hf. Qed.
Lemma within_sec {B} (f : nat -> ClientConn -> option (list (B * ClientConn))) :
  (forall tid w l b w', f tid w = Some l -> (b, w') ∈ l -> R w w') -> within R (sec f).
Proof. intros Hf tid K HK. apply preserves_sec. intros w l b w' Hl Hin. apply HK. by eapply Hf. Qed.
Lemma within_when b p : within R p -> within R (when b p).
Proof. by destruct b. Qed.
Lemma within_each {A} (f : A -> prog ClientConn unit) l : (forall a, within R (f a)) -> within R (each f l).
Proof. intros Hf. induction l as [|a l IH]; [done|]. by apply within_bind. Qed.
End within.

Lemma within_weaken (R R' : ClientConn -> ClientConn -> Prop) {A} (p : prog ClientConn A) :
  (forall w w', R w w' -> R' w w') -> within R p -> within R' p.
Proof. intros HR Hp tid K HK. apply Hp. eauto. Qed.

Lemma calm_refl w : calm w w.
Proof. by split. Qed.
Lemma calm_trans u v w : calm u v -> calm v w -> calm u w.
Proof. intros (A1 & A2 & A3 & A4 & A5) (B1 & B2 & B3 & B4 & B5). split; [congruence|]. split; [lia|]. split; [auto|]. split; congruence. Qed.

Create HintDb calm.
#[export] Hint Resolve calm_refl within_ret within_bind within_when within_each : calm.

Lemma close_ready_calm a w w' : close_ready a w = Some w' -> calm w w'.
Proof.
  unfold close_ready. destruct (acs w !! a) as [x|]; [|done]. cbn. destruct (ready x) as [c|]; [|by intros [= <-]].
  destruct (readies w !! c) as [[? []]|]; try done. by intros [= <-].
Qed.

(** The cases of a section. *)
Ltac cases :=
  repeat match goal with
  | H : Some (_, _) = Some (_, _) |- _ => injection H as <- <-
  | H : Some _ = Some _ |- _ => injection H as <-
  | H : Goes _ = Goes _ |- _ => injection H as <-
  | H : None = Some _ |- _ => discriminate H
  | H : Crashes = Goes _ |- _ => discriminate H
  | H : (?b, _) ∈ [] |- _ => by apply not_elem_of_nil in H
  | H : (?b, _) ∈ [_] |- _ => apply one in H as [-> ->]
  | H : (?b, _) ∈ _ :: _ |- _ => apply elem_of_cons in H as [[= -> ->]|H]
  | H : close_ready _ _ = Some _ |- _ => apply close_ready_calm in H
  | H : (match ?x with _ => _ end) = _ |- _ => destruct x eqn:?; cbn [mbind option_bind] in H
  | H : (?x ≫= _) = _ |- _ => destruct x eqn:?; cbn [mbind option_bind] in H
  end.

Section threads.
Context (target : string) (dopts : dialOptions) (net : nat -> attempt).

#[local] Abbreviation inv := (inv target dopts net).
#[local] Abbreviation rely := (rely target).
#[local] Abbreviation listed := (listed target).
#[local] Abbreviation never := (fun _ : ClientConn => False).
#[local] Abbreviation wp := (Threads.wp inv rely never).
#[local] Abbreviation thread_ok := (Threads.thread_ok inv rely never).
#[local] Abbreviation guarantee := (Threads.guarantee rely).
#[local] Abbreviation Stable := (ClientInv.Stable target dopts net).
#[local] Abbreviation attempted_ok w := (attempted (attempts w) (succeeds dopts net)).
#[local] Abbreviation calmly := (within calm).

Lemma calmly_Close i : calmly (t_Close i).
Proof. apply within_sec. intros tid w l b w' H Hin. cases. done. Qed.
Lemma calmly_begin a : calmly (reset_begin a).
Proof. apply within_sec. intros tid w l b w' H Hin. cases; done. Qed.
Lemma calmly_failed a : calmly (reset_failed a).
Proof. apply within_sec. intros tid w l b w' H Hin. cases; done. Qed.
Lemma calmly_ready a i : calmly (reset_ready a i).
Proof. apply within_sec. intros tid w l b w' H Hin. cases; done. Qed.
Lemma calmly_new_ac : calmly (new_ac target).
Proof. apply within_act. intros tid w l b w' H Hin. cases. done. Qed.
Lemma calmly_drop a : calmly (drop a).
Proof. apply within_sec. intros tid w l b w' H Hin. cases. done. Qed.
Lemma calmly_cancel a : calmly (cancel a).
Proof. apply within_sec. intros tid w l b w' H Hin. cases. done. Qed.
Lemma calmly_untrack a : calmly (untrack a).
Proof. apply within_sec. intros tid w l b w' H Hin. cases; done. Qed.
Lemma calmly_go g : calmly (go g).
Proof. apply within_sec. intros tid w l b w' H Hin. cbv zeta in H. cases; done. Qed.
Lemma calmly_track a : calmly (track a).
Proof.
  apply within_sec. intros tid w l b w' H Hin. destruct (acs w !! a) as [x|]; [|done]. cbn [mbind option_bind] in H.
  destruct (conns w) as [m|]; cases; [|done]. destruct (m !! addr x) as [c|]; [|done]. by destruct (acs w !! c).
Qed.

Lemma calmly_shut a e : calmly (sec (fun tid w => shut_down tid a e w)).
Proof.
  apply within_sec. intros tid w l b w' H Hin. unfold shut_down in H. destruct (acs w !! a) as [x|]; [|done]. cbn [mbind option_bind] in H.
  match type of H with (?o ≫= _) = _ => destruct o as [ws|] eqn:Hws; [|done] end. cbn [mbind option_bind] in H.
  assert (forall v, v ∈ ws -> calm w v) as Hv.
  { intros v Hin'. destruct (bool_decide (e = errConnDrain)); [|by injection Hws as <-; apply list_elem_of_singleton in Hin' as ->].
    destruct (ac_transport x) as [i|]; [|by injection Hws as <-; apply list_elem_of_singleton in Hin' as ->].
    destruct (transports _ !! i); [|done]. injection Hws as <-. by apply list_elem_of_fmap in Hin' as (? & -> & _). }
  clear Hws. destruct (bool_decide (state x = Shutdown)).
  - injection H as <-. apply list_elem_of_fmap in Hin as (v & [= -> ->] & Hin'). auto.
  - apply mapM_Some_1 in H. apply list_elem_of_lookup in Hin as [k Hk]. destruct (Forall2_lookup_r _ _ _ _ _ H Hk) as (v & Hvk & Heq).
    apply (calm_trans w v); [apply Hv; by eapply list_elem_of_lookup_2|]. clear H Hv Hvk Hk. cases; done.
Qed.

Lemma calmly_tearDown a e : calmly (tearDown a e).
Proof. apply within_bind; [apply calmly_cancel|]. intros []. apply calmly_shut. Qed.

#[local] Hint Resolve calmly_Close calmly_begin calmly_failed calmly_ready calmly_new_ac calmly_drop calmly_untrack calmly_go calmly_track
  calmly_tearDown : calm.

Lemma calmly_new a : calmly (newHTTP2Client dopts net a).
Proof.
  assert (forall i (e : option go_error) desc,
    calmly (_ ← t_Close i; mret (M:=prog ClientConn) (inl (B:=nat) (connectionErrorf true e desc)))) as Hbroken by auto with calm.
  unfold newHTTP2Client. apply within_bind.
  { apply within_act. intros tid w l b w' H Hin. cases. split; [done|]. split; [cbn; lia|done]. }
  intros n. cbv zeta. destruct (at_dial (net n)); [done|]. destruct (match TransportCredentials (copts dopts) with Some _ => _ | None => _ end); [done|].
  apply within_bind; [apply within_act; intros tid w l b w' H Hin; cases; done|]. intros i.
  destruct (at_preface (net n)) as [k [e|]]; [apply Hbroken|]. destruct (negb (k =? preface_len)); [apply Hbroken|].
  destruct (at_settings (net n)); [apply Hbroken|]. destruct (at_window (net n)); [apply Hbroken|done].
Qed.

Lemma calmly_round a close : calmly (reset_round dopts net a close).
Proof.
  unfold reset_round. apply within_bind; [auto with calm|]. intros [e|t]; [done|]. apply within_bind; [destruct t; auto with calm|].
  intros []. apply within_bind; [apply calmly_new|]. intros [e|i].
  - destruct (match err e with ConnectionError _ temp => negb temp | _ => false end); [done|]. apply within_bind; [auto with calm|].
    intros []; cbn [negb]; [|done]. apply within_act. intros tid w l b w' H Hin. cases; [done|]. destruct (ac_ctx_done a w); cases. done.
  - apply within_bind; [auto with calm|]. intros []; auto with calm.
Qed.

Lemma calmly_reset e : calmly (resetAddrConn target dopts e).
Proof.
  unfold resetAddrConn. apply within_bind; [auto with calm|]. intros a. destruct (check_security dopts); [auto with calm|].
  apply within_bind; [auto with calm|]. intros [[b|]|]; auto with calm.
Qed.

Lemma wp_within {A} tid (p : prog ClientConn A) (K : ClientConn -> Prop) `{!Stable tid K} Q w :
  calmly p -> K w -> (forall w w', calm w w' -> K w -> K w') -> wp tid p Q w -> wp tid p (fun a w => Q a w /\ K w) w.
Proof. intros Hp HK Hc Hw. apply wp_frame; [done|done|by apply Hp|done]. Qed.

(** ** The end of DialContext's goroutine *)

Definition sends (tid : nat) (e : option go_error) (w : ClientConn) : Prop :=
  sender (waitC w) = Some tid /\ sent (waitC w) = e /\ closed (waitC w) = false.

#[export] Instance stable_sends tid e : Stable tid (sends tid e).
Proof. intros w w' Hr _ (H1 & H2 & H3). destruct (r_sender _ _ _ _ Hr H1) as (R1 & R2 & R3). split; [done|]. split; congruence. Qed.

Lemma calm_sends tid e w w' : calm w w' -> sends tid e w -> sends tid e w'.
Proof. intros (H & _). unfold sends. by rewrite H. Qed.

(** Why it ends so. *)
Definition reason (e : option go_error) (w : ClientConn) : Prop :=
  match e with
  | Some e => cc_done w = true \/ check_security dopts = Some e \/ attempted (attempts w) (fun k => permanent dopts net k e)
  | None => block dopts = true -> attempted_ok w
  end.

#[export] Instance stable_reason tid e : Stable tid (reason e).
Proof. unfold reason. destruct e; apply _. Qed.

Lemma inv_waits w c : inv w -> dial_ok dopts net c (attempts w) (spawned w) (cc_done w) -> sender c = sender (waitC w) -> inv (set_waitC c w).
Proof. intros [H1 H2 H3 H4 H5 H6 H7 H8] D Hs. split; try done. cbn. by rewrite Hs. Qed.

(** The others do not send. *)
Lemma rely_waits tid tid' w c :
  tid' <> tid -> sender (waitC w) = Some tid -> sender c = Some tid -> taken c = taken (waitC w) ->
  (closed (waitC w) = true -> closed c = true) -> closed (waitC w) = false -> (forall e, sent (waitC w) = Some e -> sent c = Some e) ->
  rely tid' w (set_waitC c w).
Proof. intros Hne Hs Hs' Ht Hc Hcl Hse. frame. intros ->. split; [done|]. split; [done|]. split; [done|]. intros Hn. congruence. Qed.

Lemma finish_dial_ok tid e w :
  sends tid None w -> reason e w -> parting tid w -> wp tid (finish_dial e) (fun _ => parting tid) w.
Proof.
  intros HJ Hw Hp. unfold finish_dial.
  eapply (wp_then _ _ _ _ _ _ (fun _ w => (sends tid e w /\ reason e w) /\ parting tid w)).
  - destruct e as [e|]; [|by apply wp_mret; [apply _|]].
    apply (wp_step target dopts net tid _ (fun w => (sends tid None w /\ reason (Some e) w) /\ parting tid w)); [apply _|done|].
    clear w HJ Hw Hp. intros w1 Hi [[(H1 & H2 & H3) Hw] Hp]. rewrite H2, H3. eexists. split; [done|]. intros [] w2 [_ ->]%one.
    split; [|split; [|by repeat split]].
    + apply inv_waits; [done| |done]. destruct (i_dial _ _ _ _ Hi) as [D1 D2 D3]. split; cbn; [|by intros ? [= <-]|done].
      intros Hg. destruct (D1 Hg). congruence.
    + intros tid' Hne. apply (rely_waits tid); try done; cbn; congruence.
  - clear w HJ Hw Hp. intros [] w _ HJ.
    apply (wp_step target dopts net tid _ (fun w => (sends tid e w /\ reason e w) /\ parting tid w)); [apply _|done|].
    clear w HJ. intros w1 Hi [[(H1 & H2 & H3) Hw] Hp]. rewrite H3. eexists. split; [done|]. intros [] w2 [_ ->]%one.
    split; [|split; [|done]].
    + apply inv_waits; [done| |done]. destruct (i_dial _ _ _ _ Hi) as [D1 D2 D3]. split; cbn; [|done|].
      * intros Hg. destruct (D1 Hg). congruence.
      * intros _ Hs. rewrite H2 in Hs. by rewrite Hs in Hw.
    + intros tid' Hne. by apply (rely_waits tid).
Qed.

(** ** untrack *)

Lemma untrack_ok tid a w :
  drives tid a (fun _ => True) w -> alone tid [a] w -> sends tid None w ->
  wp tid (untrack a) (fun _ w => (tears tid a w /\ alone tid [a] w) /\ sends tid None w) w.
Proof.
  intros HJ Hal Hs. apply (wp_sec target dopts net tid _ (fun w => (drives tid a (fun _ => True) w /\ alone tid [a] w) /\ sends tid None w));
    [apply _|done|]. clear w HJ Hal Hs. intros w1 Hi [[(x & Hx & Hd & Hu & _) Hal] Hs]. rewrite Hx. cbn [mbind option_bind].
  destruct (conns w1) as [m|] eqn:Hm.
  2: { eexists. split; [done|]. intros [] w2 [_ ->]%one. split; [done|]. split; [by intros tid' _|]. split; [|done]. split; [|done].
    exists x. auto. }
  assert (addr x = target) as Haddr by (by apply (po_acs _ _ _ _ _ (i_places _ _ _ _ Hi) a x Hx)). rewrite Haddr.
  eexists. split; [done|]. intros [] w2 [_ ->]%one. split; [|split; [|split; [split|done]]].
  - destruct Hi as [H1 H2 H3 H4 H5 H6 H7 H8]. destruct (to_acs _ _ _ H3 a x Hx) as (T1 & T2 & T3). split; try done; cbn.
    + by eapply places_untrack.
    + eapply readies_set; [done|done|done|]. intros [c Hc]. destruct (ro_ready _ _ _ H2 a x c Hx Hc) as (_ & ? & ?). done.
    + eapply transports_set; [done|done|done|done|done|]. intros Hst i t _ _ _. by left.
    + intros Hsn. destruct Hs. congruence.
    + intros Ht. rewrite (H7 Ht) in Hm. done.
    + unfold returned in *. cbn. destruct (dialled w1) as [[e|]|]; [|done..]. destruct H8. congruence.
  - intros tid' Hne. frame.
    + apply (insert_pointwise _ _ _ x); [exact (fun y => ac_rely_refl _ _ y)|done|]. split; cbn; try congruence; auto.
      * intros Hp. destruct (po_acs _ _ _ _ _ (i_places _ _ _ _ Hi) a x Hx) as [P1 P2 P3 P4 P5 P6 P7].
        destruct (P2 _ Hp) as (_ & _ & _ & Hn & _). congruence.
      * intros Hp. pose proof (i_places _ _ _ _ Hi) as Hok. destruct (pl_driven _ _ _ _ _ _ (po_acs _ _ _ _ _ Hok a x Hx)) as [|[Hl _]];
          [left; by rewrite Hd|congruence|]. rewrite (listed_tracked _ _ _ _ _ Hok a x Hx Hl) in Hp. done.
      * unfold mine. cbn. intros [|[[[= ->] ?]|]]; done.
    + intros b y Hy Hn. by rewrite insert_none in Hy.
    + intros Hsn. destruct Hs. congruence.
  - exists (with_driver None (with_at_place (Leaving tid) x)). split; [|by right]. apply list_lookup_insert_eq. by eapply lookup_lt_Some.
  - by eapply alone_set; [..|exact Hal]; [|done|by left].
Qed.

(** ** The monitor *)

(** What the monitor has while it looks at its transport. *)
Definition watches (tid a i : nat) (w : ClientConn) : Prop := (monitors tid a i w /\ alone tid [a] w) /\ valid i w.

Lemma monitors_drives tid a i w : monitors tid a i w -> drives tid a (fun _ => True) w.
Proof. intros (x & Hx & Hd & Hu & _). by exists x. Qed.

Lemma watches_parting tid a i w : watches tid a i w -> parting tid w.
Proof. intros [[Hm Hal] _]. right. exists a. split; [done|]. by eapply monitors_drives. Qed.

Lemma drives_active tid a P w : inv w -> drives tid a P w -> tid ∈ active w.
Proof. intros Hi (x & Hx & Hd & _). exact (pl_driver _ _ _ _ _ _ (po_acs _ _ _ _ _ (i_places _ _ _ _ Hi) a x Hx) tid Hd). Qed.

#[export] Instance stable_watches tid a i : Stable tid (watches tid a i).
Proof. unfold watches. apply _. Qed.

(** A step of the monitor that only looks. *)
Lemma looks_ok {B} tid a i (f : ClientConn -> transport -> list B) w :
  watches tid a i w ->
  wp tid (sec (fun _ w => t ← transports w !! i; Some ((fun b => (b, w)) <$> f w t))) (fun _ => watches tid a i) w.
Proof.
  intros HJ. apply (wp_sec target dopts net tid _ (watches tid a i)); [apply _|done|]. clear w HJ. intros w1 Hi HJ.
  pose proof HJ as [_ [t Ht]]. rewrite Ht. eexists. split; [done|]. intros b w2 (b' & [= -> ->] & _)%list_elem_of_fmap.
  split; [done|]. split; [by intros tid' _|done].
Qed.

Lemma has_error_ok tid a i w : watches tid a i w -> wp tid (has_error i) (fun _ => watches tid a i) w.
Proof. exact (looks_ok tid a i (fun _ t => [error_closed t]) w). Qed.

Lemma monitor_select_ok tid a i w : watches tid a i w -> wp tid (monitor_select a i) (fun _ => watches tid a i) w.
Proof. apply (looks_ok tid a i (fun w t => _ ++ _ ++ _)). Qed.

Lemma monitor_again_ok tid a i w : watches tid a i w -> wp tid (monitor_again a i) (fun _ => watches tid a i) w.
Proof.
  intros HJ. apply (wp_sec target dopts net tid _ (watches tid a i)); [apply _|done|]. clear w HJ. intros w1 Hi HJ.
  pose proof HJ as [_ [t Ht]]. rewrite Ht. cbn [mbind option_bind]. cbv zeta. eexists. split; [done|]. intros b w2 (b' & [= -> ->] & _)%list_elem_of_fmap.
  split; [done|]. split; [by intros tid' _|done].
Qed.

Lemma adjustParams_ok tid a i r w : watches tid a i w -> wp tid (adjustParams a r) (fun _ => watches tid a i) w.
Proof.
  intros HJ. apply (wp_sec target dopts net tid _ (watches tid a i)); [apply _|done|]. clear w HJ. intros w1 Hi HJ.
  assert (forall v, inv (set_mkp_Time v w1) /\ guarantee tid w1 (set_mkp_Time v w1) /\ watches tid a i (set_mkp_Time v w1)) as Hset.
  { intros v. split; [by destruct Hi|]. split; [|done]. intros tid' Hne. frame. }
  assert (inv w1 /\ guarantee tid w1 w1 /\ watches tid a i w1) as Hsame by (split; [done|]; split; [by intros tid' _|done]).
  destruct r; try (eexists; split; [done|]; by intros [] w2 [_ ->]%one). destruct HJ as [[(x & Hx & _) _] _]. rewrite Hx.
  eexists. split; [done|]. intros [] w2 [_ ->]%one. destruct (mkp_Time w1 <? int64 (2 * Time x)); [apply Hset|done].
Qed.

Lemma monitor_close_ok tid a i w : watches tid a i w -> wp tid (t_Close i) (fun _ => parting tid) w.
Proof.
  intros HJ. eapply wp_conseq.
  2: { apply (t_Close_ok target dopts net tid i (watches tid a i) (fun w => monitors tid a i w /\ alone tid [a] w)); [done|apply HJ|].
       clear w HJ. intros w t Ht [[Hm [Hk Hc]] _]. split; [done|]. split; [done|]. by apply clean_close. }
  intros [] w1 _ [[Hm Hal] _]. right. exists a. split; [done|]. by eapply monitors_drives.
Qed.

Lemma monitor_failed_ok tid a i w :
  watches tid a i w -> wp tid (monitor_failed a) (fun _ w => drives tid a (fun _ => True) w /\ alone tid [a] w) w.
Proof.
  intros HJ. apply (wp_sec target dopts net tid _ (watches tid a i)); [apply _|done|]. clear w HJ. intros w1 Hi [[(x & Hx & Hd & Hu & Hs & Ht) Hal] Hv].
  rewrite Hx. cbn [mbind option_bind]. case_bool_decide as Hst; eexists; (split; [done|]); intros b w2 [-> ->]%one.
  { split; [done|]. split; [by intros tid' _|]. split; [by exists x|done]. }
  destruct Hs as [Hs|]; [|done]. split; [|split; [|split]].
  - eapply inv_ac; [done..| | |].
    + by eapply driven_placed.
    + eapply readies_set; [apply Hi|done|done|]. intros [c Hc]. destruct (ro_ready _ _ _ (i_readies _ _ _ _ Hi) a x c Hx Hc) as (_ & ? & ?). done.
    + eapply transports_set; [apply Hi|done..].
  - intros tid' Hne. eapply rely_set_ac; [done|]. by eapply keeps_driven.
  - exists (with_state TransientFailure x). cbn. split; [apply list_lookup_insert_eq; by eapply lookup_lt_Some|done].
  - eapply alone_set; [done|done| |exact Hal]. by left.
Qed.

Definition monitored_ok (tid a : nat) (failed : bool) (w : ClientConn) : Prop :=
  if failed then drives tid a (fun _ => True) w /\ alone tid [a] w else parting tid w.

#[export] Instance stable_monitored tid a b : Stable tid (monitored_ok tid a b).
Proof. destruct b; apply _. Qed.

Lemma monitor_anew_ok tid a i e w :
  inv w -> watches tid a i w -> wp tid (_ ← resetAddrConn_async target dopts e; mret false) (monitored_ok tid a) w.
Proof.
  intros Hi [[Hm Hal] _]. apply monitors_drives in Hm.
  eapply wp_then; [apply (resetAddrConn_async_ok _ _ _ tid a); [done|done|by eapply drives_active]|].
  intros r w1 _ Hp. by apply wp_mret; [apply _|].
Qed.

Lemma transportMonitor_ok tid a w :
  (exists i, monitors tid a i w) -> alone tid [a] w -> wp tid (transportMonitor target dopts a) (monitored_ok tid a) w.
Proof.
  intros HJ Hal. unfold transportMonitor.
  eapply (wp_then _ _ _ _ _ _ (fun t w => exists i, t = Some i /\ watches tid a i w)).
  { apply (wp_sec target dopts net tid _ (fun w => (exists i, monitors tid a i w) /\ alone tid [a] w)); [apply _|done|]. clear w HJ Hal.
    intros w1 Hi [[i HJ] Hal]. pose proof HJ as (x & Hx & Hd & Hu & Hs & Ht). rewrite Hx. eexists. split; [done|]. intros t w2 [-> ->]%one.
    split; [done|]. split; [by intros tid' _|]. exists i. split; [done|]. split; [done|].
    destruct (to_acs _ _ _ (i_transports _ _ _ _ Hi) a x Hx) as (_ & _ & Hat). destruct (Hat i Ht) as (t & Hti & _). by exists t. }
  clear w HJ Hal. intros t w _ (i & -> & HJ). eapply wp_then; [by apply monitor_select_ok|]. clear w HJ. intros [|r|] w Hi HJ.
  - eapply wp_then; [by apply has_error_ok|]. clear w Hi HJ. intros [] w _ HJ; cbn [when].
    + eapply wp_then; [by eapply monitor_close_ok|]. clear w HJ. intros [] w _ Hp. by apply wp_mret; [apply _|].
    + eapply (wp_then _ _ _ _ _ _ (fun _ => parting tid)).
      * apply wp_mret; [apply _|]. by eapply watches_parting.
      * clear w HJ. intros [] w _ Hp. by apply wp_mret; [apply _|].
  - eapply wp_then; [by apply adjustParams_ok|]. clear w Hi HJ. intros [] w _ HJ.
    eapply wp_then; [by apply has_error_ok|]. clear w HJ. intros b w Hi HJ. by apply (monitor_anew_ok tid a i).
  - eapply wp_then; [by apply monitor_again_ok|]. clear w Hi HJ. intros [|r|] w Hi HJ.
    + eapply wp_then; [by eapply monitor_close_ok|]. clear w Hi HJ. intros [] w _ Hp. by apply wp_mret; [apply _|].
    + eapply wp_then; [by apply adjustParams_ok|]. clear w Hi HJ. intros [] w Hi HJ. by apply (monitor_anew_ok tid a i).
    + eapply wp_conseq; [|by eapply monitor_failed_ok]. clear w Hi HJ. intros [] w _ HJ; [done|]. right. exists a. destruct HJ. done.
Qed.

(** ** The goroutines *)

Definition at_work (tid : nat) (s : activity) (w : ClientConn) : Prop :=
  match s with
  | Resetting a close who =>
      ((drives tid a (fun _ => True) w /\ (close = false -> drives_quiet tid a w)) /\ alone tid [a] w) /\ (who = InDial -> sends tid None w)
  | Monitoring a => (exists i, monitors tid a i w) /\ alone tid [a] w
  end.
Definition goes_on (tid : nat) (o : option activity) (w : ClientConn) : Prop :=
  match o with Some s => at_work tid s w | None => True end.

#[export] Instance stable_at_work tid s : Stable tid (at_work tid s).
Proof. destruct s; apply _. Qed.
#[export] Instance stable_goes_on tid o : Stable tid (goes_on tid o).
Proof. destruct o; [apply stable_at_work|by intros w w' _ _ _]. Qed.

Lemma return_ok tid w : parting tid w -> wp tid (_ ← ends; mret None) (goes_on tid) w.
Proof. intros Hp. eapply wp_then; [by apply ends_ok|]. intros [] w1 _ _. by apply wp_mret; [apply _|]. Qed.

Lemma finish_ok tid e w :
  sends tid None w -> reason e w -> parting tid w -> wp tid (_ ← finish_dial e; _ ← ends; mret None) (goes_on tid) w.
Proof. intros Hs He Hp. eapply wp_then; [by apply finish_dial_ok|]. intros [] w1 _ Hp1. by apply return_ok. Qed.

(** An error that [DialContext]'s goroutine does not tear down for, or does. *)
Lemma dial_failed_ok tid a e w :
  drives tid a (fun _ => True) w -> alone tid [a] w -> sends tid None w ->
  wp tid (if bool_decide (err e = errConnClosing) then mret tt else _ ← untrack a; tearDown a (err e)) (fun _ w => parting tid w /\ sends tid None w) w.
Proof.
  intros HJ Hal Hs. case_bool_decide.
  - apply wp_mret; [apply _|]. split; [|done]. right. by exists a.
  - eapply wp_then; [by apply untrack_ok|]. clear w HJ Hal Hs. intros [] w _ [[Ht Hal] Hs]. eapply wp_conseq.
    2: { apply (tearDown_ok _ _ _ tid a (err e) [] (sends tid None)); [done..|]. intros w1 w2 x x' _ _ _ _ Heq. unfold sends. by rewrite Heq. }
    intros [] w1 _ [Hal1 Hs1]. split; [by left|done].
Qed.

Lemma work_failed_ok tid a e w :
  drives tid a (fun _ => True) w -> alone tid [a] w ->
  wp tid (if bool_decide (err e = errConnClosing) then mret tt else tearDown a (err e)) (fun _ => parting tid) w.
Proof.
  intros HJ Hal. case_bool_decide.
  - apply wp_mret; [apply _|]. right. by exists a.
  - eapply wp_conseq.
    2: { apply (tearDown_ok _ _ _ tid a (err e) [] (fun _ => True)); [|done..]. destruct HJ as (x & Hx & Hd & _). exists x. auto. }
    intros [] w1 _ [Hal1 _]. by left.
Qed.

Lemma after_reset_ok tid a who r w :
  round_done dopts net tid a (Some r) w -> alone tid [a] w -> (who = InDial -> sends tid None w) ->
  wp tid (after_reset a who r) (goes_on tid) w.
Proof.
  intros HJ Hal Hs. destruct r as [e|].
  - destruct HJ as [HJ He]. assert (who <> InDial -> wp tid (_ ← (if bool_decide (err e = errConnClosing) then mret tt else tearDown a (err e)); _ ← ends; mret None) (goes_on tid) w) as Hwork.
    { intros _. eapply wp_then; [by apply work_failed_ok|]. intros [] w1 _ Hp. by apply return_ok. }
    destruct who; [|by apply Hwork..]. specialize (Hs eq_refl). cbn [after_reset]. eapply wp_then.
    { apply (wp_within tid _ (reset_error dopts net e)); [|done| |by apply dial_failed_ok].
      - case_bool_decide; [done|]. apply within_bind; [apply calmly_untrack|]. intros []. apply calmly_tearDown.
      - intros w1 w2 (_ & Hat & Hd & _) [|(desc & Hf & k & Hk & Hp)]; [left; auto|right]. exists desc. split; [done|]. exists k. split; [lia|done]. }
    clear w HJ Hal Hs He Hwork. intros [] w _ [[Hp Hs] He]. apply finish_ok; [done| |done]. cbn.
    destruct He as [|(desc & Hf & Hat)]; [by left|right; right]. by rewrite Hf.
  - destruct HJ as [HJ Hat]. destruct who; [|by apply wp_mret; [apply _|]..]. specialize (Hs eq_refl). cbn [after_reset]. eapply wp_then.
    { apply (wp_within tid _ (fun w => sends tid None w /\ attempted_ok w)); [apply calmly_go|done| |].
      - intros w1 w2 Hc [Hs1 (k & Hk & Hp)]. split; [by eapply calm_sends|]. destruct Hc as (_ & Hlt & _). exists k. split; [lia|done].
      - apply (go_ok target dopts net tid (GMonitor a) a); [|done]. by right. }
    clear w HJ Hal Hs Hat. intros [] w _ (Hal & Hs & Hat). apply finish_ok; [done|by intros _|by left].
Qed.

Lemma turn_ok tid s w : at_work tid s w -> wp tid (turn target dopts net s) (goes_on tid) w.
Proof.
  destruct s as [a close who|a]; cbn [turn at_work].
  - intros [[[HJ Hq] Hal] Hs]. eapply wp_then.
    { apply (wp_within tid _ (fun w => who = InDial -> sends tid None w)); [apply calmly_round|done| |by apply reset_round_ok].
      intros w1 w2 Hc H Hw. eapply calm_sends; [done|auto]. }
    clear w HJ Hq Hal Hs. intros [r|] w _ [[Hr Hal] Hs]; [by apply after_reset_ok|]. apply wp_mret; [apply _|].
    split; [|done]. split; [|done]. split; [by apply quiet_drives|by intros _].
  - intros [HJ Hal]. eapply wp_then; [by apply transportMonitor_ok|]. clear w HJ Hal. intros [] w _ HJ; [|by apply return_ok].
    apply wp_mret; [apply _|]. destruct HJ. split; [|done]. split; [|done]. by split.
Qed.

Lemma connect_ok tid a w : idle tid w -> thread_ok tid (connect_goroutine target dopts net a) w.
Proof.
  intros Hid. exists (at_work tid). split; [intros s w1 _; apply turn_ok|].
  eapply wp_then; [apply (begins_work_ok _ _ _ tid (GConnect a) a); [by left|done]|]. clear w Hid. intros [] w _ [HJ Hal].
  apply (wp_mret target dopts net tid (Some (Resetting a false InConnect)) (goes_on tid)). split; [|done]. split; [|done].
  destruct HJ as (x & Hx & Hd & Hu & Hs & Ht). split; [by exists x|]. intros _. exists x. split; [done|]. split; [done|]. split; [done|]. congruence.
Qed.

Lemma monitor_ok tid a w : idle tid w -> thread_ok tid (monitor_goroutine target dopts net a) w.
Proof.
  intros Hid. exists (at_work tid). split; [intros s w1 _; apply turn_ok|].
  eapply wp_then; [apply (begins_work_ok _ _ _ tid (GMonitor a) a); [by right|done]|]. clear w Hid. intros [] w _ [HJ Hal].
  by apply (wp_mret target dopts net tid (Some (Monitoring a)) (goes_on tid)).
Qed.

Lemma dial_goroutine_ok tid w : idle tid w -> thread_ok tid (dial_goroutine target dopts net) w.
Proof.
  intros Hid. exists (at_work tid). split; [intros s w1 _; apply turn_ok|].
  eapply wp_then; [by apply begins_dial_ok|]. clear w Hid. intros [] w _ (H1 & H2 & H3 & H4 & H5 & H6).
  eapply wp_then.
  { apply (wp_within tid _ (sends tid None)); [apply calmly_reset|done|by intros w1 w2; apply calm_sends|]. by apply (resetAddrConn_ok _ _ _ tid None). }
  clear w H1 H2 H3 H4 H5 H6. intros [e|a] w Hi [HJ Hs].
  - destruct HJ as (Hal & _ & He). apply finish_ok; [done| |by left]. cbn. destruct He as [|Hc]; [by right; left|left]. by apply (i_done _ _ _ _ Hi).
  - destruct HJ as [HJ Hal]. destruct (block dopts) eqn:Hb.
    + apply (wp_mret target dopts net tid (Some (Resetting a false InDial)) (goes_on tid)). split; [|done]. split; [|done].
      destruct HJ as (x & Hx & Hd & Hu & Hst & Ht). split; [by exists x|]. intros _. exists x. split; [done|]. split; [done|]. split; [done|]. congruence.
    + eapply wp_then.
      { apply (wp_within tid _ (sends tid None)); [apply calmly_go|done|by intros w1 w2; apply calm_sends|].
        apply (go_ok target dopts net tid (GConnect a) a); [|done]. by left. }
      clear w Hi HJ Hal Hs. intros [] w _ [Hal Hs]. apply finish_ok; [done| |by left]. cbn. congruence.
Qed.
End threads.

(** * Every interleaving *)

Section sound.
Context (target : string) (dopts : dialOptions) (net : nat -> attempt).

#[local] Abbreviation inv := (inv target dopts net).
#[local] Abbreviation rely := (rely target).
#[local] Abbreviation listed := (listed target).
#[local] Abbreviation never := (fun _ : ClientConn => False).
#[local] Abbreviation wp := (Threads.wp inv rely never).
#[local] Abbreviation thread_ok := (Threads.thread_ok inv rely never).
#[local] Abbreviation guarantee := (Threads.guarantee rely).
#[local] Abbreviation Stable := (ClientInv.Stable target dopts net).
#[local] Abbreviation calmly := (within calm).
#[local] Abbreviation attempted_ok w := (attempted (attempts w) (succeeds dopts net)).

(** ** Close *)

(** It is [DialContext] that closes, or it has returned. *)
Definition may_close (tid : nat) (w : ClientConn) : Prop := tid = 0%nat \/ exists e, dialled w = Some e.

#[export] Instance stable_dialled tid e : Stable tid (fun w => dialled w = Some e).
Proof. intros w w' Hr _. apply Hr. Qed.
#[export] Instance stable_may_close tid : Stable tid (may_close tid).
Proof. unfold may_close. apply _. Qed.

Definition closing_conn (tid : nat) (w : ClientConn) : Prop := (alone tid [] w /\ (tid ∈ active w)) /\ cc_done w = true.

Lemma cancel_conn_ok tid w :
  may_close tid w -> alone tid [] w -> tid ∈ active w -> wp tid (writes (set_cc_done true)) (fun _ => closing_conn tid) w.
Proof.
  intros Hm Hal Hact. apply (wp_step target dopts net tid _ (fun w => may_close tid w /\ alone tid [] w /\ (tid ∈ active w))); [unfold closing_conn; apply _|done|].
  clear w Hm Hal Hact. intros w1 Hi (Hm & Hal & Hact). eexists. split; [done|]. intros [] w2 [_ ->]%one. split; [|split; [|done]].
  - destruct Hi as [H1 H2 H3 H4 H5 H6 H7 H8]. split; try done. destruct H4 as [D1 D2 D3]. split; [done|by left|done].
  - intros tid' Hne. frame. intros ->. split; [done|]. split; [done|]. split; [|done]. intros Hd. destruct Hm as [|[e He]]; congruence.
Qed.

Definition leaving (tid a : nat) (w : ClientConn) : Prop := exists x, acs w !! a = Some x /\ at_place x = Leaving tid.

#[export] Instance stable_leaving tid a : Stable tid (leaving tid a).
Proof.
  intros w w' Hr _ (x & Hx & Hp). destruct (r_acs _ _ _ _ Hr a x Hx) as (x' & Hx' & Hxx). exists x'. split; [done|]. by eapply ar_leaving.
Qed.

Definition taken_out (tid : nat) (l : list nat) (w : ClientConn) : Prop := forall a, a ∈ l -> leaving tid a w.

#[export] Instance stable_taken_out tid l : Stable tid (taken_out tid l).
Proof. intros w w' Hr Hi Hl a Ha. eapply stable_leaving; [done..|by apply Hl]. Qed.

Definition emptied (tid : nat) (l : option (list nat)) (w : ClientConn) : Prop :=
  conns w = None /\ match l with None => alone tid [] w | Some l => alone tid l w /\ taken_out tid l w end.

#[export] Instance stable_emptied tid l : Stable tid (emptied tid l).
Proof. unfold emptied. destruct l; apply _. Qed.

Lemma close_section_ok tid w : closing_conn tid w -> wp tid close_section (emptied tid) w.
Proof.
  intros HJ. apply (wp_step target dopts net tid _ (closing_conn tid)); [unfold closing_conn; apply _..|done|].
  clear w HJ. intros w1 Hi [[Hal Hact] Hdone]. destruct (conns w1) as [m|] eqn:Hm.
  2: { eexists. split; [done|]. intros l w2 [-> ->]%one. split; [done|]. split; [by intros tid' _|done]. }
  eexists. split; [done|]. intros l w2 [-> ->]%one. set (l := (map_to_list m).*2). pose proof (i_places _ _ _ _ Hi) as Hok.
  change (imap _ (acs w1)) with (taken_by (acs w1) l tid).
  assert (forall a x, acs w1 !! a = Some x -> a ∈ l -> at_place x = Tracked) as Htr.
  { intros a x Hx Hin. eapply listed_tracked; [done|done|]. by apply (elem_of_conns _ _ _ _ _ Hok m a Hm). }
  assert (Forall2 alike (acs w1) (taken_by (acs w1) l tid)) as Halike.
  { apply Forall2_same_length_lookup. split; [by unfold taken_by; rewrite length_imap|]. intros a x x' Hx Hx'.
    rewrite (lookup_taken_by _ _ _ _ _ Hx) in Hx'. injection Hx' as <-. by case_bool_decide. }
  split; [|split; [|split; [done|split; [split|]]]].
  - destruct Hi as [H1 H2 H3 H4 H5 H6 H7 H8]. split; try done; cbn.
    + by eapply places_close.
    + by eapply readies_alike.
    + by eapply transports_alike.
    + intros _ a (m' & ? & _). done.
    + unfold returned in *. cbn. destruct (dialled w1) as [[e|]|]; [|done..]. destruct H8. congruence.
  - intros tid' Hne. frame.
    + intros a x Hx. exists (if bool_decide (a ∈ l) then with_at_place (Leaving tid) x else x). split; [by apply lookup_taken_by|].
      case_bool_decide as Hin; [|apply ac_rely_refl]. specialize (Htr a x Hx Hin). split; cbn; try congruence; auto.
      unfold mine. cbn. intros [|[[[= ->] ?]|]]; [done..|]. right. by right.
    + intros a x' Hx' Hn. apply lookup_taken_by_inv in Hx' as (x & Hx & _). congruence.
    + intros Hs Hl a (m' & ? & _). done.
  - intros a x' Hx' Hmine. apply lookup_taken_by_inv in Hx' as (x & Hx & ->). case_bool_decide as Hin; [done|]. destruct Hal as [Hk _].
    by destruct (not_elem_of_nil a); apply (Hk a x).
  - apply Hal.
  - intros a Hin. pose proof Hin as Hl. apply (elem_of_conns _ _ _ _ _ Hok m a Hm) in Hl as (m' & Hm' & Hl).
    destruct (po_conns _ _ _ _ _ Hok m' _ a Hm' Hl) as (_ & x & Hx & _). exists (with_at_place (Leaving tid) x).
    cbn. rewrite (lookup_taken_by _ _ _ _ _ Hx), bool_decide_eq_true_2 by done. done.
Qed.

Lemma tear_all_ok tid l l' e w :
  alone tid l w -> taken_out tid l' w -> (forall a, a ∈ l -> a ∈ l') -> conns w = None ->
  wp tid (each (fun a => tearDown a e) l) (fun _ w => alone tid [] w /\ conns w = None) w.
Proof.
  revert w. induction l as [|a l IH]; intros w Hal Hl' Hsub Hc; cbn [each]; [by apply wp_mret; [apply _|]|].
  eapply wp_then.
  { apply (tearDown_ok _ _ _ tid a e l (fun w => taken_out tid l' w /\ conns w = None)); [|done|done|].
    - destruct (Hl' a) as (x & Hx & Hp); [apply Hsub; by left|]. exists x. auto.
    - intros w1 w2 x x' Hx Hxs Hp Hcs _ [Ht Hn]. split; [|by rewrite Hcs]. intros b Hb. destruct (Ht b Hb) as (y & Hy & Hpy).
      destruct (decide (a = b)) as [<-|Hne].
      + exists x'. rewrite Hxs, list_lookup_insert_eq by (by eapply lookup_lt_Some). split; [done|]. congruence.
      + exists y. by rewrite Hxs, list_lookup_insert_ne. }
  clear w Hal Hl' Hc. intros [] w _ (Hal & Ht & Hc). apply IH; [done..| |done]. intros b Hb. apply Hsub. by right.
Qed.

Lemma conn_Close_ok tid w :
  may_close tid w -> alone tid [] w -> tid ∈ active w -> wp tid Close (fun _ w => alone tid [] w /\ conns w = None) w.
Proof.
  intros Hm Hal Hact. unfold Close. eapply wp_then; [by apply cancel_conn_ok|]. clear w Hm Hal Hact. intros [] w _ HJ.
  eapply wp_then; [by apply close_section_ok|]. clear w HJ. intros [l|] w _ [Hc HJ]; [|by apply wp_mret; [apply _|]].
  destruct HJ as [Hal Ht]. eapply wp_then; [by apply (tear_all_ok tid l l)|]. clear w Hc Hal Ht. intros [] w _ HJ.
  eapply wp_then.
  { apply (wp_step target dopts net tid _ (fun w => alone tid [] w /\ conns w = None) (fun _ w => alone tid [] w /\ conns w = None)); [done|].
    clear w HJ. intros w1 Hi [Hal Hc]. eexists. split; [done|]. intros [] w2 [_ ->]%one. split; [|split; [|done]].
    - destruct Hi as [H1 H2 H3 H4 H5 H6 H7 H8]. by split.
    - intros tid' Hne. frame. }
  clear w HJ. intros [] w _ HJ. by apply wp_mret; [apply _|].
Qed.

Lemma closer_ok tid w : dialled w = Some None -> idle tid w -> thread_ok tid (once (_ ← enters; _ ← Close; ends)) w.
Proof.
  intros Hd Hid. apply (once_ok inv rely never). eapply wp_then.
  { apply (wp_frame target dopts net tid _ (fun w => dialled w = Some None)); [done| |by apply enters_ok].
    apply preserves_act. by intros w1 l b w2 [= <-] [_ ->]%one. }
  clear w Hd Hid. intros [] w _ [[Hal Hact] Hd]. eapply wp_then; [apply conn_Close_ok; [right; by exists None|done..]|].
  clear w Hal Hact Hd. intros r w _ [Hal _]. apply ends_ok. by left.
Qed.

(** ** DialContext *)

(** Before the goroutine is started, and until the channel is read. *)
Definition before (w : ClientConn) : Prop :=
  (dialled w = None /\ cc_done w = false /\ taken (waitC w) = false) /\
  sender (waitC w) = None /\ (GDial ∉ spawned w) /\ sent (waitC w) = None /\ closed (waitC w) = false.
Definition waiting (w : ClientConn) : Prop := dialled w = None /\ cc_done w = false /\ taken (waitC w) = false.

#[export] Instance stable_waiting : Stable 0 waiting.
Proof. intros w w' Hr _ (H1 & H2 & H3). destruct (r_zero _ _ _ _ Hr eq_refl) as (R1 & R2 & R3 & _). rewrite <- R1, <- R2, <- R3 in * by done. done. Qed.
#[export] Instance stable_before : Stable 0 before.
Proof.
  intros w w' Hr Hi [HJ (H1 & H2 & H3 & H4)]. split; [by eapply stable_waiting|]. destruct (r_zero _ _ _ _ Hr eq_refl) as (_ & _ & _ & R4).
  destruct (R4 H1 H2) as (H5 & H6 & ->). done.
Qed.

(** What is left to [DialContext]. *)
Definition own (w : ClientConn) : Prop := alone 0 [] w /\ (0%nat ∈ active w).

#[export] Instance stable_own : Stable 0 own.
Proof. unfold own. apply _. Qed.

Lemma places_go_dial w :
  inv w -> GDial ∉ spawned w -> places_ok target (acs w) (conns w) (spawned w ++ [GDial]) (active w).
Proof.
  intros Hi Hn. destruct (i_places _ _ _ _ Hi) as [H1 H2 H3 H4 H5].
  assert (forall g, g ∈ spawned w ++ [GDial] -> g <> GDial -> g ∈ spawned w) as Hin.
  { intros g [|Hg%list_elem_of_singleton]%elem_of_app Hne; [done|congruence]. }
  assert (forall a, token (spawned w ++ [GDial]) a -> token (spawned w) a) as Htok by (intros a [|]; [left|right]; by apply Hin).
  split; [|done| | |].
  - intros a x Hx. destruct (H1 a x Hx) as [P1 P2 P3 P4 P5 P6 P7]. split; try done.
    + intros t Hf. destruct (P2 t Hf) as (? & ? & ? & ? & Hno). repeat split; try done; [naive_solver..|]. intros Ht. auto.
    + intros Hf. destruct (P5 Hf) as (? & ? & Hno). repeat split; try done. intros Ht. auto.
    + intros [|]; apply P6; auto.
  - apply NoDup_app. split; [done|]. split; [|apply NoDup_singleton]. by intros g Hg ->%list_elem_of_singleton.
  - intros a Ha. apply H4. by apply Hin.
  - intros a Ha. apply H5. by apply Hin.
Qed.

Lemma go_dial_ok w : before w -> own w -> wp 0 (go GDial) (fun _ w => waiting w /\ own w) w.
Proof.
  intros HJ Ho. apply (wp_sec target dopts net 0 _ (fun w => before w /\ own w)); [apply _..|done|]. clear w HJ Ho.
  intros w1 Hi [[HJ (H1 & H2 & H3 & H4)] Ho]. eexists. split; [done|]. intros [] w2 [_ ->]%one. split; [|split; [|done]].
  - pose proof (places_go_dial w1 Hi H2) as HP. destruct Hi as [I1 I2 I3 [D1 D2 D3] I5 I6 I7 I8]. by split.
  - intros tid' Hne. frame.
Qed.

(** What [DialContext] returns, and why. *)
Definition why (e : option go_error) (w : ClientConn) : Prop :=
  match e with
  | Some e => (exists c, dial_ctx w = Some c /\ e = ctx_Err c) \/ check_security dopts = Some e \/ attempted (attempts w) (fun k => permanent dopts net k e)
  | None => block dopts = true -> attempted_ok w
  end.

#[export] Instance stable_dial_ctx tid e : Stable tid (fun w => dial_ctx w = Some e).
Proof. intros w w' Hr _. apply Hr. Qed.
#[export] Instance stable_why tid e : Stable tid (why e).
Proof. unfold why. destruct e; apply _. Qed.

Lemma why_calm e w w' : calm w w' -> why e w -> why e w'.
Proof.
  intros (_ & Hat & _ & Hc & _). assert (forall P, attempted (attempts w) P -> attempted (attempts w') P) as Hmono.
  { intros P (k & Hk & HP). exists k. split; [lia|done]. }
  destruct e as [e|]; cbn; [rewrite Hc|]; naive_solver.
Qed.

Definition selected (e : option go_error) (w : ClientConn) : Prop := (dialled w = None /\ why e w) /\ own w.

#[export] Instance stable_undialled : Stable 0 (fun w => dialled w = None).
Proof. intros w w' Hr _ Hd. destruct (r_zero _ _ _ _ Hr eq_refl) as (R1 & _). congruence. Qed.
#[export] Instance stable_selected e : Stable 0 (selected e).
Proof. unfold selected. apply _. Qed.

Lemma dial_select_ok w : waiting w -> own w -> wp 0 dial_select selected w.
Proof.
  intros HJ Ho. apply (wp_step target dopts net 0 _ (fun w => waiting w /\ own w)); [apply _..|done|]. clear w HJ Ho.
  intros w1 Hi [(Hd & Hdone & Ht) Ho]. eexists. split; [done|]. cbv zeta. rewrite Ht.
  pose proof (i_dial _ _ _ _ Hi) as [D1 D2 D3]. intros e w2 [Hin|Hin]%elem_of_app.
  - destruct (dial_ctx w1) as [e'|] eqn:Hc; [|by apply not_elem_of_nil in Hin]. apply one in Hin as [-> ->].
    split; [done|]. split; [by intros tid' _|]. split; [|done]. split; [done|]. left. by exists e'.
  - destruct (sent (waitC w1)) as [e'|] eqn:Hs.
    + apply one in Hin as [-> ->]. split; [|split].
      * apply inv_waits; [done| |done]. split; [done| |done]. cbn. intros ? [= <-]. by apply D2.
      * intros tid' Hne. frame.
      * split; [|done]. split; [done|]. destruct (D2 e' eq_refl) as [|[|]]; [congruence|by right; left|by right; right].
    + destruct (closed (waitC w1)) eqn:Hcl; [|by apply not_elem_of_nil in Hin]. apply one in Hin as [-> ->].
      split; [done|]. split; [by intros tid' _|]. split; [|done]. split; [done|]. exact (D3 eq_refl eq_refl).
Qed.

Lemma late_ok e w :
  selected e w -> wp 0 (reads dial_ctx) (fun late => selected (match late with Some c => Some (ctx_Err c) | None => e end)) w.
Proof.
  intros HJ. apply (wp_step target dopts net 0 _ (selected e)); [apply _..|done|]. clear w HJ. intros w1 Hi [[Hd Hw] Ho].
  eexists. split; [done|]. intros late w2 [-> ->]%one. split; [done|]. split; [by intros tid' _|]. split; [|done]. split; [done|].
  destruct (dial_ctx w1) as [e'|] eqn:Hc; [left; by exists e'|done].
Qed.

Lemma calmly_closing : calmly Close.
Proof.
  unfold Close. apply within_bind; [by apply within_act; intros tid w l b w' [= <-] [_ ->]%one|]. intros []. apply within_bind.
  { apply within_act. intros tid w l b w'. destruct (conns w); intros [= <-] [_ ->]%one; done. }
  intros [l|]; [|done]. apply within_bind; [apply within_each; intros a; apply calmly_tearDown|].
  intros []. apply within_bind; [by apply within_act; intros tid w l' b w' [= <-] [_ ->]%one|done].
Qed.

(** The deferred function. *)
Definition settles (e : option go_error) (w : ClientConn) : Prop :=
  (dialled w = None /\ why e w) /\ (e <> None -> conns w = None).

#[export] Instance stable_settles e : Stable 0 (settles e).
Proof. unfold settles. apply _. Qed.

Lemma give_up_ok e w :
  selected e w ->
  wp 0 (match e with Some _ => _ ← Close; mret tt | None => mret tt end) (fun _ w => alone 0 [] w /\ settles e w) w.
Proof.
  intros [[Hd Hw] [Hal Hact]]. destruct e as [e|]; [|by apply wp_mret; [apply _|]].
  eapply wp_then.
  { apply (wp_within target dopts net 0 _ (fun w => dialled w = None /\ why (Some e) w)); [apply calmly_closing|done| |].
    - intros w1 w2 Hc [Hd1 Hw1]. split; [|by eapply why_calm]. destruct Hc as (_ & _ & _ & _ & ->). done.
    - apply (conn_Close_ok 0); [by left|done..]. }
  clear w Hd Hw Hal Hact. intros r w _ [[Hal Hc] HJ]. apply wp_mret; [apply _|]. split; [done|]. by split; [|intros _].
Qed.

Lemma settle_ok e w : settles e w -> wp 0 (writes (set_dialled (Some e))) (fun _ w => exists e, dialled w = Some e) w.
Proof.
  intros HJ. apply (wp_step target dopts net 0 _ (settles e) (fun _ w => exists e, dialled w = Some e)); [done|].
  clear w HJ. intros w1 Hi [[Hd Hw] Hc]. eexists. split; [done|]. intros [] w2 [_ ->]%one. split; [|split; [|by exists e]].
  - destruct Hi as [I1 I2 I3 I4 I5 I6 I7 I8]. split; try done. unfold returned. cbn. destruct e as [e|]; [|done]. split; [by apply Hc|done].
  - intros tid' Hne. frame.
Qed.

Lemma dial_context_ok w : idle 0 w -> before w -> wp 0 dial_context (fun _ w => exists e, dialled w = Some e) w.
Proof.
  intros Hid HJ. unfold dial_context. eapply wp_then.
  { apply (wp_frame target dopts net 0 _ before); [done| |by apply enters_ok]. apply preserves_act. by intros w1 l b w2 [= <-] [_ ->]%one. }
  clear w Hid HJ. intros [] w _ [Ho HJ]. eapply wp_then; [by apply go_dial_ok|]. clear w HJ Ho. intros [] w _ [HJ Ho].
  eapply wp_then; [by apply dial_select_ok|]. clear w HJ Ho. intros e w _ HJ.
  eapply wp_then; [by apply late_ok|]. clear w HJ. intros late w _ HJ. cbv beta in HJ. cbv zeta.
  set (e' := match late with Some c => Some (ctx_Err c) | None => e end) in *. clearbody e'. clear e late.
  eapply wp_then; [by apply give_up_ok|]. clear w HJ. intros [] w _ [Hal HJ].
  eapply wp_then.
  { apply (wp_frame target dopts net 0 _ (settles e')); [done| |apply ends_ok; by left]. apply preserves_act. by intros w1 l b w2 [= <-] [_ ->]%one. }
  clear w Hal HJ. intros [] w _ [_ HJ]. by apply settle_ok.
Qed.

Lemma DialContext_ok w : idle 0 w -> before w -> thread_ok 0 DialContext w.
Proof. intros Hid HJ. apply (once_ok inv rely never). eapply wp_conseq; [|by apply dial_context_ok]. done. Qed.

(** ** getTransport and wait *)

Definition valid_ac (a : nat) (w : ClientConn) : Prop := exists x, acs w !! a = Some x.
Definition sleeping (tid : nat) (w : ClientConn) : Prop := exists s p, asleep w !! tid = Some s /\ readies w !! on s = Some p.

#[export] Instance stable_valid_ac tid a : Stable tid (valid_ac a).
Proof. intros w w' Hr _ (x & Hx). destruct (r_acs _ _ _ _ Hr a x Hx) as (x' & Hx' & _). by exists x'. Qed.
#[export] Instance stable_sleeping tid : Stable tid (sleeping tid).
Proof.
  intros w w' Hr _ (s & [a b] & Hs & Hp). destruct (r_readies _ _ _ _ Hr _ _ _ Hp) as (b' & Hp' & _). exists s, (a, b').
  by rewrite (r_asleep _ _ _ _ Hr).
Qed.

(** A transport or an error. *)
Definition good (r : got) : Prop := r <> (None, None).

Definition waited (tid a : nat) (r : wait_result) (w : ClientConn) : Prop :=
  match r with Gets r => good r | Sleeps => sleeping tid w /\ valid_ac a w end.

#[export] Instance stable_waited tid a r : Stable tid (waited tid a r).
Proof. unfold waited. destruct r; apply _. Qed.

Lemma inv_asleep w sl : inv w -> readies_ok (acs w) (readies w) sl -> inv (set_asleep sl w).
Proof. intros [H1 H2 H3 H4 H5 H6 H7 H8] R. by split. Qed.

Lemma rely_asleep tid' w sl : sl !! tid' = asleep w !! tid' -> rely tid' w (set_asleep sl w).
Proof. intros Hs. frame. Qed.

Lemma make_ready_ok w a x :
  inv w -> acs w !! a = Some x -> ready x = None -> state x <> Ready -> state x <> Shutdown ->
  let c := length (readies w) in
  inv (set_ac a (with_ready (Some c) x) (set_readies (readies w ++ [(a, false)]) w)) /\
  forall tid, rely tid w (set_ac a (with_ready (Some c) x) (set_readies (readies w ++ [(a, false)]) w)).
Proof.
  intros Hi Hx Hr H1 H2 c. split.
  - destruct Hi as [I1 I2 I3 I4 I5 I6 I7 I8]. destruct (to_acs _ _ _ I3 a x Hx) as (T1 & T2 & T3). split; try done; cbn.
    + eapply places_set; [done..| |by left| |].
      * destruct (po_acs _ _ _ _ _ I1 a x Hx) as [P1 P2 P3 P4 P5 P6 P7]. by split.
      * intros Hin. destruct (po_connect _ _ _ _ _ I1 a Hin) as (y & Hy & [C1 C2 C3 C4]). assert (y = x) as -> by congruence. by split.
      * intros Hin. destruct (po_monitor _ _ _ _ _ I1 a Hin) as (y & Hy & [C1 C2 C3 C4]). assert (y = x) as -> by congruence. by split.
    + by apply readies_make.
    + eapply transports_set; [done|done|done|done|done|]. intros Hs. done.
  - intros tid. transitivity (set_readies (readies w ++ [(a, false)]) w).
    + apply rely_set_readies. intros c' a' b Hc. exists b. split; [|done]. rewrite lookup_app_l; [done|]. by eapply lookup_lt_Some.
    + eapply rely_set_ac; [done|]. split; cbn; auto.
Qed.

Lemma wait_section_ok tid a failfast w :
  inv w -> valid_ac a w ->
  exists r w', wait_section tid a failfast w = Some (r, w') /\ inv w' /\ guarantee tid w w' /\ waited tid a r w'.
Proof.
  intros Hi (x & Hx). unfold wait_section. rewrite Hx. cbn [mbind option_bind]. destruct (to_acs _ _ _ (i_transports _ _ _ _ Hi) a x Hx) as (T1 & T2 & _).
  pose proof (i_readies _ _ _ _ Hi) as Hok.
  assert (state x <> Ready -> state x <> Shutdown -> (failfast = true -> early x) ->
    exists r w', (match ready x with
      | Some c => Some (Sleeps, set_asleep (<[tid := mkSleeper a c failfast]> (asleep w)) w)
      | None =>
          let c := length (readies w) in
          let w := set_ac a (with_ready (Some c) x) (set_readies (readies w ++ [(a, false)]) w) in
          Some (Sleeps, set_asleep (<[tid := mkSleeper a c failfast]> (asleep w)) w)
      end) = Some (r, w') /\ inv w' /\ guarantee tid w w' /\ waited tid a r w') as Hsleep.
  { intros H1 H2 Hf. destruct (ready x) as [c|] eqn:Hr.
    - eexists _, _. split; [done|]. destruct (ro_ready _ _ _ Hok a x c Hx Hr) as [Hc _]. split; [|split; [|split]].
      + apply inv_asleep; [done|]. by apply (readies_sleep _ _ _ Hok tid a x).
      + intros tid' Hne. apply rely_asleep. by rewrite lookup_insert_ne.
      + eexists _, _. cbn. rewrite lookup_insert_eq. by split.
      + by exists x.
    - destruct (make_ready_ok w a x Hi Hx Hr H1 H2) as [Hi' Hrely]. eexists _, _. cbv zeta in Hi', Hrely |- *. split; [done|].
      pose proof (lookup_lt_Some _ _ _ Hx) as Hlt.
      split; [|split; [|split]].
      + apply inv_asleep; [done|]. apply (readies_sleep _ _ _ (i_readies _ _ _ _ Hi') tid a (with_ready (Some (length (readies w))) x)); [|done|exact Hf].
        by apply list_lookup_insert_eq.
      + intros tid' Hne. etransitivity; [apply Hrely|]. apply rely_asleep. by rewrite lookup_insert_ne.
      + eexists _, (a, false). cbn. rewrite lookup_insert_eq. split; [done|]. cbn. by rewrite lookup_app_r, Nat.sub_diag by lia.
      + eexists. by apply list_lookup_insert_eq. }
  assert (forall r, good r -> exists r' w', Some (Gets r, w) = Some (r', w') /\ inv w' /\ guarantee tid w w' /\ waited tid a r' w') as Hgets.
  { intros r Hr. eexists _, _. split; [done|]. split; [done|]. split; [by intros tid' _|done]. }
  destruct (state x) eqn:Hs; cbn [bool_decide andb].
  - apply Hsleep; [done..|]. intros _. by left.
  - apply Hsleep; [done..|]. intros _. by right.
  - apply Hgets. destruct (T1 eq_refl) as [i Ht]. by rewrite Ht.
  - destruct failfast; [by apply Hgets|]. by apply Hsleep.
  - apply Hgets. destruct (T2 eq_refl) as [e He]. by rewrite He.
Qed.

Lemma wait_select_ok tid a ctx w : sleeping tid w /\ valid_ac a w -> wp tid (wait_select ctx) (fun _ => valid_ac a) w.
Proof.
  intros HJ. apply (wp_sec target dopts net tid _ (fun w => sleeping tid w /\ valid_ac a w)); [apply _|done|]. clear w HJ.
  intros w1 Hi [(s & [a' b] & Hs & Hp) Hv]. rewrite Hs. cbn [mbind option_bind]. rewrite Hp. cbn [mbind option_bind]. cbv zeta.
  eexists. split; [done|]. intros e w2 Hin.
  assert (w2 = set_asleep (delete tid (asleep w1)) w1) as ->.
  { apply elem_of_app in Hin as [Hin|Hin].
    - destruct (ctxs w1 !! ctx); [by apply one in Hin as [_ ->]|by apply not_elem_of_nil in Hin].
    - destruct b; [by apply one in Hin as [_ ->]|by apply not_elem_of_nil in Hin]. }
  split; [|split; [|done]].
  - apply inv_asleep; [done|]. apply readies_wake, Hi.
  - intros tid' Hne. apply rely_asleep. by rewrite lookup_delete_ne.
Qed.

Definition round_ends (a : nat) (o : option got) (w : ClientConn) : Prop := match o with Some r => good r | None => valid_ac a w end.

#[export] Instance stable_round_ends tid a o : Stable tid (round_ends a o).
Proof. destruct o; [by intros w w' _ _|apply (stable_valid_ac tid a)]. Qed.

Lemma wait_turn_ok tid a ctx failfast w : valid_ac a w -> wp tid (wait_round a ctx failfast) (round_ends a) w.
Proof.
  intros HJ. unfold wait_round. eapply (wp_then _ _ _ _ _ _ (waited tid a)).
  { apply (wp_sec target dopts net tid _ (valid_ac a)); [apply _|done|]. clear w HJ. intros w1 Hi HJ.
    destruct (wait_section_ok tid a failfast w1 Hi HJ) as (r & w' & -> & Hi' & Hg & Hw). eexists. split; [done|].
    by intros r' w2 [-> ->]%one. }
  clear w HJ. intros [r|] w _ HJ; [by apply wp_mret; [apply _|]|].
  eapply wp_then; [by apply wait_select_ok|]. clear w HJ. intros [e|] w _ HJ; apply wp_mret; try apply _; [by destruct e|done].
Qed.

Lemma use_transport_ok tid r w : good r -> wp tid (use_transport r) (fun _ _ => True) w.
Proof. intros Hr. destruct r as [[i|] [e|]]; [by apply wp_mret..|by destruct Hr]. Qed.

Lemma pick_ac_ok tid w : wp tid pick_ac (fun r w => match r with inl e => e <> None | inr a => valid_ac a w end) w.
Proof.
  apply (wp_step target dopts net tid _ (fun _ => True)); [|done|]. { intros [e|a]; apply _. }
  intros w1 Hi _. destruct (conns w1) as [m|] eqn:Hm.
  - destruct (map_to_list m).*2 as [|a l] eqn:Hl; (eexists; split; [done|]).
    + by intros r w2 [-> ->]%one; split; [|split; [intros tid' _|]].
    + intros r w2 (b & [= -> ->] & Hin)%list_elem_of_fmap. split; [done|]. split; [by intros tid' _|].
      rewrite <- Hl in Hin. apply (elem_of_conns _ _ _ _ _ (i_places _ _ _ _ Hi) m b Hm) in Hin as (m' & Hm' & Hb).
      destruct (po_conns _ _ _ _ _ (i_places _ _ _ _ Hi) m' _ b Hm' Hb) as (_ & x & Hx & _). by exists x.
  - eexists. split; [done|]. by intros r w2 [-> ->]%one; split; [|split; [intros tid' _|]].
Qed.

Lemma getTransport_ok tid ctx failfast w : thread_ok tid (getTransport ctx failfast use_transport) w.
Proof.
  exists valid_ac. split.
  - intros a w1 Hi HJ. eapply wp_then; [by apply wait_turn_ok|]. clear w1 Hi HJ. intros [r|] w1 _ HJ.
    + eapply wp_then; [by apply use_transport_ok|]. intros [] w2 _ _. by apply wp_mret.
    + by apply (wp_mret target dopts net tid (Some a) (fun o w => match o with Some a => valid_ac a w | None => True end)).
  - eapply wp_then; [apply pick_ac_ok|]. intros [e|a] w1 _ HJ.
    + eapply wp_then; [apply use_transport_ok; by destruct e|]. intros [] w2 _ _. by apply wp_mret.
    + by apply (wp_mret target dopts net tid (Some a) (fun o w => match o with Some a => valid_ac a w | None => True end)).
Qed.

(** ** What happens outside *)

Context (cancellable deadline : bool).
#[local] Abbreviation outside := (outside dopts cancellable deadline).
#[local] Abbreviation caller := (caller target dopts net).
#[local] Abbreviation conn_step := (conn_step target dopts net cancellable deadline).

Lemma transport_event_ok t t' :
  transport_event t t' ->
  owner t' = owner t /\ (maker t = None -> maker t' = None) /\ (t_state t = closing -> t_state t' = closing) /\
  (alive t' -> alive t /\ maker t' = maker t /\ (t_state t = draining -> t_state t' = draining)).
Proof. unfold alive. intros [u Hu|u|u r Hu Hr]; cbn; naive_solver congruence. Qed.

Lemma outside_ok w w' : inv w -> outside w w' -> inv w' /\ forall tid, rely tid w w'.
Proof.
  intros Hi Hout. revert Hi. destruct Hout as [v i t t' Ht Hev|v Hc Hn|v Hc Hn|v c e Hn]; intros Hi.
  - destruct (transport_event_ok t t' Hev) as (E1 & E2 & E3 & E4). split.
    + eapply inv_transport; [done..|]. eapply transports_change; [apply Hi|done..].
    + intros tid. eapply rely_set_transport; [done|]. split; [done|done| |].
      * intros Hm. destruct (decide (t_state t' = closing)) as [|Hne]; [by right|left]. destruct (E4 Hne) as (_ & Hm' & _). congruence.
      * intros Hm Hal. destruct (E4 Hal) as (Ha & Hm' & _). split; [congruence|done].
  - split; [|intros tid; frame]. destruct Hi as [H1 H2 H3 H4 H5 H6 H7 H8]. split; try done.
    unfold returned in *. cbn. destruct (dialled v) as [[e|]|]; [|done..]. rewrite Hn in H8. naive_solver.
  - split; [|intros tid; frame]. destruct Hi as [H1 H2 H3 H4 H5 H6 H7 H8]. split; try done.
    unfold returned in *. cbn. destruct (dialled v) as [[e|]|]; [|done..]. rewrite Hn in H8. naive_solver.
  - split; [|intros tid; frame]. destruct Hi as [H1 H2 H3 H4 H5 H6 H7 H8]. by split.
Qed.

(** ** All of it *)

Lemma caller_ok w t tid : inv w -> caller w t -> idle tid w -> thread_ok tid t w.
Proof.
  intros _ [v|v a|v a|v Hd|v ctx failfast Hd] Hid.
  - by apply dial_goroutine_ok.
  - by apply connect_ok.
  - by apply monitor_ok.
  - by apply closer_ok.
  - apply getTransport_ok.
Qed.

Lemma idle_rely tid w w' : rely tid w w' -> idle tid w -> idle tid w'.
Proof.
  intros Hr [Hn Hl]. split; [intros Hin; apply Hn; by apply Hr|]. intros a x' Hx'. destruct (acs w !! a) as [x|] eqn:Hx.
  - destruct (r_acs _ _ _ _ Hr a x Hx) as (x2 & Hx2 & Hxx). assert (x2 = x') as -> by congruence. intros Hp. by eapply Hl, ar_place.
  - by apply (r_new_ac _ _ _ _ Hr a x').
Qed.

Lemma inv_start : inv (new_conn dopts).
Proof.
  split; cbn; try done.
  - split; cbn; try done; [|constructor|by intros a Hin%not_elem_of_nil..]. intros m k a [= <-]. by rewrite lookup_empty.
  - intros _ a (m & [= <-] & Hm). by rewrite lookup_empty in Hm.
Qed.

Lemma idle_start tid : idle tid (new_conn dopts).
Proof. split; [apply not_elem_of_empty|done]. Qed.

Lemma start_ok : pool_idle inv rely never idle (dial_start dopts).
Proof.
  split; [apply inv_start|]. split; [|intros tid _; apply idle_start].
  intros tid t Ht. apply list_lookup_singleton_Some in Ht as [-> <-]. apply DialContext_ok; [apply idle_start|].
  split; [done|]. split; [done|]. split; [apply not_elem_of_nil|done].
Qed.

Lemma conn_sound s :
  rtc conn_step (dial_start dopts) s -> inv s.1 /\ ~ goes_wrong Crashes s /\ ~ goes_wrong Diverges s.
Proof.
  intros Hrun. destruct (pool_idle_sound outside caller inv rely never outside_ok idle idle_rely caller_ok _ s start_ok Hrun) as [Hi Hno].
  split; [done|]. split; intros Hw; apply Hno; auto.
Qed.
End sound.
