(* ===== verification/ClientProps.v ===== *)
(** * Client connections: what they do

    For a connection that [Dial] made, whatever the network does and however its goroutines interleave: what [Dial] returns
    and when, what is left when the connection is closed, and that those who wait for a transport are woken.  A connection that
    connects, serves, fails, connects again and is closed shows that the hypotheses can hold.

    Before that, what is left to the context of [DialContext]: no goroutine of the connection touches it, and once it is done, no step
    of [DialContext] waits for anything. *)

From stdpp Require Import base list strings gmap relations.
From Stdlib Require Import ZArith Lia.
From S2P Require Import Prelude GoStrings Wire GrpcStatus GrpcTransport Threads ClientConn ClientInv ClientTear ClientThreads.
Open Scope Z_scope.

(** ** Steps that respect a relation *)

Definition thread_within (R : ClientConn -> ClientConn -> Prop) (t : thread ClientConn) : Prop :=
  match t with Thread body pc => (forall s, within R (body s)) /\ within R pc end.

Lemma within_step (R : ClientConn -> ClientConn -> Prop) {B A} (f : nat -> ClientConn -> result (B * ClientConn)) (k : B -> prog ClientConn A) tid w l b w' :
  PreOrder R -> within R (Do f k) -> f tid w = Goes l -> (b, w') ∈ l -> R w w' /\ within R (k b).
Proof.
  intros HR Hp Hl Hin. split.
  - destruct (Hp tid (R w)) as [Hf _]; [intros u v Huv Hu; by transitivity u|]. by eapply Hf.
  - intros t K HK. destruct (Hp t K HK) as [_ Hk]. apply Hk.
Qed.

Lemma thread_within_step R tid t w t' w' : PreOrder R -> thread_within R t -> thread_step tid t w t' w' -> R w w' /\ thread_within R t'.
Proof.
  intros HR Ht Hstep. revert Ht. destruct Hstep as [St body B f k v l b v' Hf Hin|St body s v]; intros [Hb Hpc].
  - destruct (within_step R f k tid v l b v' HR Hpc Hf Hin). done.
  - split; [by reflexivity|]. by split.
Qed.

Definition same_ctx (w w' : ClientConn) : Prop := dial_ctx w' = dial_ctx w.

#[export] Instance same_ctx_preorder : PreOrder same_ctx.
Proof. split; [by intros w|]. intros u v w. unfold same_ctx. congruence. Qed.

Section ctx.
Context (target : string) (dopts : dialOptions) (net : nat -> attempt).
#[local] Abbreviation steadily := (within same_ctx).

Lemma steadily_calm {A} (p : prog ClientConn A) : within calm p -> steadily p.
Proof. apply within_weaken. by intros w w' (_ & _ & _ & H & _). Qed.

(** A section or a step, by its cases. *)
Ltac section := apply within_sec || apply within_act; intros tid w l b w' H Hin; cases; done.

Lemma steadily_begins g : steadily (begins g).
Proof.
  apply within_act. intros tid w l b w' H Hin. destruct (bool_decide (g ∈ spawned w)); [|cases]. destruct g; cbv zeta in H; cases; done.
Qed.
Lemma steadily_enters : steadily enters.
Proof. section. Qed.
Lemma steadily_ends : steadily ends.
Proof. section. Qed.
Lemma steadily_finish e : steadily (finish_dial e).
Proof. apply within_bind; [destruct e; [section|done]|]. intros []. section. Qed.
Lemma steadily_has_error i : steadily (has_error i).
Proof. section. Qed.
Lemma steadily_adjust a r : steadily (adjustParams a r).
Proof.
  apply within_sec. intros tid w l b w' H Hin. destruct r; cases; try done. by destruct (_ <? _).
Qed.
Lemma steadily_failed a : steadily (monitor_failed a).
Proof. section. Qed.
Lemma steadily_select a i : steadily (monitor_select a i).
Proof.
  apply within_sec. intros tid w l b w' H Hin. destruct (transports w !! i); [|done]. injection H as <-. by apply list_elem_of_fmap in Hin as (m & [= -> ->] & _).
Qed.
Lemma steadily_again a i : steadily (monitor_again a i).
Proof.
  apply within_sec. intros tid w l b w' H Hin. destruct (transports w !! i); [|done]. injection H as <-. by apply list_elem_of_fmap in Hin as (m & [= -> ->] & _).
Qed.

Lemma steadily_anew e : steadily (resetAddrConn_async target dopts e).
Proof.
  apply within_bind; [apply steadily_calm, calmly_reset|]. intros [e'|a]; [done|]. apply within_bind; [apply steadily_calm, calmly_go|done].
Qed.

Create HintDb ctx.
#[local] Hint Resolve within_ret within_bind within_when steadily_ends steadily_finish steadily_has_error steadily_adjust steadily_failed steadily_select
  steadily_again steadily_anew : ctx.
#[local] Hint Extern 1 (steadily (t_Close _)) => apply steadily_calm, calmly_Close : ctx.
#[local] Hint Extern 1 (steadily (go _)) => apply steadily_calm, calmly_go : ctx.
#[local] Hint Extern 1 (steadily (tearDown _ _)) => apply steadily_calm, calmly_tearDown : ctx.
#[local] Hint Extern 1 (steadily (untrack _)) => apply steadily_calm, calmly_untrack : ctx.

Lemma steadily_monitor a : steadily (transportMonitor target dopts a).
Proof.
  unfold transportMonitor. apply within_bind; [section|]. intros [i|]; [|by apply within_act].
  apply within_bind; [auto with ctx|]. intros [|r|]; [auto 10 with ctx..|].
  apply within_bind; [auto with ctx|]. intros [|r|]; auto 10 with ctx.
Qed.

Lemma steadily_after a who r : steadily (after_reset a who r).
Proof. destruct who, r; cbn [after_reset]; try case_bool_decide; auto 10 with ctx. Qed.

Lemma steadily_turn s : steadily (turn target dopts net s).
Proof.
  destruct s as [a close who|a]; cbn [turn].
  - apply within_bind; [apply steadily_calm, calmly_round|]. intros [r|]; [apply steadily_after|done].
  - apply within_bind; [apply steadily_monitor|]. intros []; auto with ctx.
Qed.

Lemma steadily_wait a ctx failfast : steadily (wait_round a ctx failfast).
Proof.
  unfold wait_round. apply within_bind.
  - apply within_sec. intros tid w l b w' H Hin. destruct (wait_section tid a failfast w) as [[r v]|] eqn:Hw; [|done]. injection H as <-.
    apply one in Hin as [-> ->]. unfold wait_section in Hw. destruct (acs w !! a) as [x|]; [|done]. cbn [mbind option_bind] in Hw.
    destruct (state x); cbn [bool_decide andb] in Hw; [| | |destruct failfast|]; cbv zeta in Hw; cases; done.
  - intros [r|]; [done|]. apply within_bind; [|by intros [e|]].
    apply within_sec. intros tid w l b w' H Hin. destruct (asleep w !! tid) as [s|]; [|done]. cbn [mbind option_bind] in H.
    destruct (readies w !! on s) as [[a' c]|]; [|done]. cbn in H. injection H as <-. apply elem_of_app in Hin as [Hin|Hin].
    + destruct (ctxs w !! ctx); cases; done.
    + destruct c; cases; done.
Qed.

Lemma steadily_use r : steadily (use_transport r).
Proof. destruct r as [[i|] [e|]]; done. Qed.

Lemma steadily_caller u t : caller target dopts net u t -> thread_within same_ctx t.
Proof.
  intros [v|v a|v a|v Hd|v ctx failfast Hd]; split.
  - apply steadily_turn.
  - apply within_bind; [apply steadily_begins|]. intros []. apply within_bind; [apply steadily_calm, calmly_reset|]. intros [e|a]; [auto with ctx|].
    destruct (block dopts); auto 10 with ctx.
  - apply steadily_turn.
  - apply within_bind; [apply steadily_begins|]. done.
  - apply steadily_turn.
  - apply within_bind; [apply steadily_begins|]. done.
  - by intros [].
  - apply within_bind; [|done]. apply within_bind; [apply steadily_enters|]. intros []. apply within_bind; [apply steadily_calm, calmly_closing|auto with ctx].
  - intros a. apply within_bind; [apply steadily_wait|]. intros [r|]; [|done]. apply within_bind; [apply steadily_use|done].
  - apply within_bind; [|intros [e|a]; [apply within_bind; [apply steadily_use|done]|done]].
    apply within_act. intros tid w l b w' H Hin. destruct (conns w) as [m|]; [|cases; done]. destruct (map_to_list m).*2 as [|c k]; injection H as <-.
    + cases. done.
    + apply elem_of_cons in Hin as [[= -> ->]|Hin]; [done|]. by apply list_elem_of_fmap in Hin as (c' & [= -> ->] & _).
Qed.

Lemma steadily_DialContext : thread_within same_ctx DialContext.
Proof.
  split; [by intros []|]. apply within_bind; [|done]. apply within_bind; [apply steadily_enters|]. intros []. apply within_bind; [auto with ctx|].
  intros []. apply within_bind.
  { apply within_act. intros tid w l b w' H Hin. injection H as <-. apply elem_of_app in Hin as [Hin|Hin].
    - destruct (dial_ctx w); cases; done.
    - destruct (sent (waitC w)), (taken (waitC w)), (closed (waitC w)); cases; done. }
  intros e. apply within_bind; [section|]. intros late. cbv zeta. apply within_bind.
  { destruct (match late with Some c => Some (ctx_Err c) | None => e end); [|done]. apply within_bind; [apply steadily_calm, calmly_closing|done]. }
  intros []. apply within_bind; [auto with ctx|]. intros []. section.
Qed.

(** ** Steps that do not wait *)

Definition ctx_done (w : ClientConn) : Prop := is_Some (dial_ctx w).

Fixpoint prompt {A} (p : prog ClientConn A) : Prop :=
  match p with
  | Ret _ => True
  | Do f k => (forall w, ctx_done w -> f 0%nat w <> Goes []) /\ forall b, prompt (k b)
  end.

Lemma prompt_bind {A B} (p : prog ClientConn A) (k : A -> prog ClientConn B) : prompt p -> (forall a, prompt (k a)) -> prompt (p ≫= k).
Proof. intros Hp Hk. induction p as [a|C f g IH]; cbn; [apply Hk|]. destruct Hp as [Hf Hg]. split; [done|]. intros b. apply IH, Hg. Qed.
Lemma prompt_act {B} (f : nat -> ClientConn -> result (B * ClientConn)) : (forall w, ctx_done w -> f 0%nat w <> Goes []) -> prompt (act f).
Proof. by split. Qed.
Lemma prompt_sec {B} (f : nat -> ClientConn -> option (list (B * ClientConn))) : (forall w, f 0%nat w <> Some []) -> prompt (sec f).
Proof. intros Hf. split; [|done]. intros w _. specialize (Hf w). destruct (f 0%nat w); [|done]. intros [= ->]. done. Qed.

Lemma shut_down_some a e w : shut_down 0 a e w <> Some [].
Proof.
  intros H. unfold shut_down in H. destruct (acs w !! a) as [x|]; [|done]. cbn [mbind option_bind] in H.
  match type of H with (?o ≫= _) = _ => destruct o as [ws|] eqn:Hws; [|done] end. cbn [mbind option_bind] in H.
  assert (ws <> []) as Hne.
  { destruct (bool_decide (e = errConnDrain)); [|by injection Hws as <-]. destruct (ac_transport x) as [i|]; [|by injection Hws as <-].
    destruct (transports _ !! i) as [t|]; [|done]. injection Hws as <-. destruct (t_state t) eqn:Ht; unfold GracefulClose; by rewrite Ht. }
  destruct (bool_decide (state x = Shutdown)); [by destruct ws|]. destruct ws as [|v ws]; [done|]. apply mapM_Some_1 in H. by inversion H.
Qed.

Lemma prompt_tearDown a e : prompt (tearDown a e).
Proof.
  apply prompt_bind; [|intros []; apply prompt_sec; intros w; apply shut_down_some]. apply prompt_sec. intros w. by destruct (acs w !! a).
Qed.

Lemma prompt_Close : prompt Close.
Proof.
  apply prompt_bind; [by apply prompt_act|]. intros []. apply prompt_bind; [apply prompt_act; intros w _; by destruct (conns w)|].
  intros [l|]; [|done]. apply prompt_bind; [|intros []; by apply prompt_bind; [apply prompt_act|]].
  induction l as [|a l IH]; [done|]. cbn [each]. apply prompt_bind; [apply prompt_tearDown|done].
Qed.

Lemma prompt_DialContext : prompt dial_context.
Proof.
  apply prompt_bind; [by apply prompt_act|]. intros []. apply prompt_bind; [by apply prompt_sec|]. intros []. apply prompt_bind.
  { apply prompt_act. intros w [c Hc]. by rewrite Hc. }
  intros e. apply prompt_bind; [by apply prompt_act|]. intros late. cbv zeta. apply prompt_bind.
  { destruct (match late with Some c => Some (ctx_Err c) | None => e end); [|done]. apply prompt_bind; [apply prompt_Close|done]. }
  intros []. apply prompt_bind; [by apply prompt_act|]. intros []. by apply prompt_act.
Qed.
End ctx.

(** * DialContext among the others

    What holds of [DialContext] and of its context in every state that a connection reaches. *)

Lemma thread_step_inv {W} tid (t : thread W) w t' w' :
  thread_step tid t w t' w' ->
  match t with
  | Thread body pc => exists pc', t' = Thread body pc' /\
      match pc with
      | Do f k => exists l b, f tid w = Goes l /\ (b, w') ∈ l /\ pc' = k b
      | Ret (Some s) => pc' = body s /\ w' = w
      | Ret None => False
      end
  end.
Proof. intros [St body B f k v l b v' Hf Hin|St body s v]; eauto 10. Qed.

Section dial.
Context (target : string) (dopts : dialOptions) (net : nat -> attempt) (cancellable deadline : bool).

#[local] Abbreviation inv := (inv target dopts net).
#[local] Abbreviation rely := (rely target).
#[local] Abbreviation never := (fun _ : ClientConn => False).
#[local] Abbreviation wp := (Threads.wp inv rely never).
#[local] Abbreviation pool_idle := (Threads.pool_idle inv rely never idle).
#[local] Abbreviation conn_step := (conn_step target dopts net cancellable deadline).
#[local] Abbreviation pool := (ClientConn * list (thread ClientConn))%type.

(** The goroutine of [DialContext] has what is left of its program. *)
Definition has_returned (w : ClientConn) : Prop := exists e, dialled w = Some e.
Definition dialling (s : pool) : Prop :=
  exists (body : Empty_set -> prog ClientConn (option Empty_set)) pc, s.2 !! 0%nat = Some (Thread body pc) /\
    wp 0 pc (fun _ => has_returned) s.1 /\ prompt pc /\ within same_ctx pc.

(** The context is done for a reason. *)
Definition ctx_allowed (w : ClientConn) : Prop :=
  match dial_ctx w with
  | Some CtxCanceled => cancellable = true
  | Some CtxDeadlineExceeded => deadline = true \/ 0 < timeout dopts
  | None => True
  end.

Record reached (s : pool) : Prop := {
  re_idle : pool_idle s;
  re_dialling : dialling s;
  re_within : Forall (thread_within same_ctx) s.2;
  re_ctx : ctx_allowed s.1;
}.

Lemma thread_within_at s tid t : reached s -> s.2 !! tid = Some t -> thread_within same_ctx t.
Proof. intros Hs Ht. by eapply Forall_lookup_1; [apply Hs|]. Qed.

Lemma dialling_others s s' :
  dialling s -> rely 0 s.1 s'.1 -> s'.2 !! 0%nat = s.2 !! 0%nat -> dialling s'.
Proof.
  intros (body & pc & Ht & Hw & Hp & Hin) Hr Heq. exists body, pc. rewrite Heq. split; [done|]. split; [|done].
  by eapply wp_stable; [apply _|..].
Qed.

Lemma dialling_own s t t' w' :
  inv s.1 -> dialling s -> s.2 !! 0%nat = Some t -> thread_step 0 t s.1 t' w' -> dialling (w', <[0%nat := t']> s.2).
Proof.
  intros Hi (body & pc & Ht & Hw & Hp & Hin) Ht0 Hstep. assert (t = Thread body pc) as -> by congruence.
  apply thread_step_inv in Hstep as (pc' & -> & Hstep). exists body. destruct pc as [[[]|]|B f k]; [done|].
  destruct Hstep as (l & b & Hl & Hb & ->). exists (k b). split; [apply list_lookup_insert_eq; by eapply lookup_lt_Some|].
  cbn [Threads.wp] in Hw. specialize (Hw s.1 (reflexivity _) Hi). rewrite Hl in Hw. destruct (Hw b w' Hb) as (_ & _ & Hw').
  split; [done|]. split; [apply Hp|]. by destruct (within_step same_ctx f k 0 s.1 l b w' _ Hin Hl Hb).
Qed.

Lemma reached_step s s' : reached s -> conn_step s s' -> reached s'.
Proof.
  intros Hs Hstep. assert (pool_idle s') as Hid'.
  { exact (pool_idle_step (outside dopts cancellable deadline) (caller target dopts net) inv rely never
      (outside_ok target dopts net cancellable deadline) idle (idle_rely target) (caller_ok target dopts net) s s' (re_idle s Hs) Hstep). }
  pose proof (re_idle s Hs) as (Hi & Hok & _). pose proof (re_dialling s Hs) as Hd. pose proof (re_within s Hs) as Hw. pose proof (re_ctx s Hs) as Hc.
  split; [done|..]; clear Hid'; revert Hi Hok Hd Hw Hc; destruct Hstep as [w ts tid t t' w' Ht Hstep|w ts w' Henv|w ts t Hcall];
    cbn [fst snd]; intros Hi Hok Hd Hw Hc.
  - destruct (decide (tid = 0%nat)) as [->|Hne]; [by apply (dialling_own (w, ts) t)|].
    destruct (thread_step_ok inv rely never tid t w t' w' Hi (Hok tid t Ht) Hstep) as (_ & Hg & _).
    apply (dialling_others (w, ts)); [done|by apply Hg|]. cbn. by rewrite list_lookup_insert_ne.
  - apply (dialling_others (w, ts)); [done|by apply (outside_ok target dopts net cancellable deadline w w')|done].
  - apply (dialling_others (w, ts)); [done|apply reflexivity|]. destruct Hd as (body & pc & Ht & _). cbn in *. rewrite lookup_app_l; [done|]. by eapply lookup_lt_Some.
  - apply Forall_insert; [done|]. apply (thread_within_step same_ctx tid t w t' w' _); [|done]. by eapply Forall_lookup_1.
  - done.
  - apply Forall_app. split; [done|]. apply Forall_singleton. by eapply steadily_caller.
  - destruct (thread_within_step same_ctx tid t w t' w' _) as [Heq _]; [by eapply Forall_lookup_1|done|]. unfold ctx_allowed. by rewrite Heq.
  - unfold ctx_allowed in *. destruct Henv; cbn; try done.
  - done.
Qed.

Lemma reached_start : reached (dial_start dopts).
Proof.
  split; [apply start_ok| | |done].
  - exists (fun s : Empty_set => match s with end), (_ ← dial_context; mret None). split; [done|]. split; [|split].
    + eapply ClientInv.wp_then; [apply dial_context_ok; [apply idle_start|]|].
      * split; [done|]. split; [done|]. split; [apply not_elem_of_nil|done].
      * intros [] w _ HQ. by apply (ClientInv.wp_mret target dopts net 0 None (fun _ => has_returned)).
    + apply prompt_bind; [apply prompt_DialContext|done].
    + apply steadily_DialContext.
  - apply Forall_singleton, steadily_DialContext.
Qed.

Lemma conn_reached s : rtc conn_step (dial_start dopts) s -> reached s.
Proof.
  intros Hrun. assert (forall s, reached s -> forall s', rtc conn_step s s' -> reached s') as H; [|by apply (H _ reached_start)].
  clear. intros s Hs s' Hrun. induction Hrun; eauto using reached_step.
Qed.

(** ** DialContext on its own *)

Inductive own_step : pool -> pool -> Prop :=
| own_step_do w ts t t' w' : ts !! 0%nat = Some t -> thread_step 0 t w t' w' -> own_step (w, ts) (w', <[0%nat := t']> ts).

Lemma own_step_conn s s' : own_step s s' -> conn_step s s'.
Proof. intros [w ts t t' w' Ht Hstep]. by eapply pool_thread. Qed.

Lemma runs_to_end (body : Empty_set -> prog ClientConn (option Empty_set)) pc w ts :
  inv w -> ctx_done w -> ts !! 0%nat = Some (Thread body pc) -> wp 0 pc (fun _ => has_returned) w -> prompt pc -> within same_ctx pc ->
  exists s', rtc own_step (w, ts) s' /\ has_returned s'.1.
Proof.
  revert w ts. induction pc as [o|B f k IH]; intros w ts Hi Hc Ht Hw Hp Hin.
  - exists (w, ts). split; [done|]. by apply (Hw w (reflexivity w)).
  - destruct Hp as [Hne Hpk]. specialize (Hw w (reflexivity w) Hi). specialize (Hne w Hc).
    destruct (f 0%nat w) as [| |[|[b w'] l]] eqn:Hl; [done..|]. assert ((b, w') ∈ (b, w') :: l) as Hb by by left.
    destruct (Hw b w' Hb) as (Hi' & _ & Hw'). destruct (within_step same_ctx f k 0 w _ b w' _ Hin Hl Hb) as [Heq Hin'].
    destruct (IH b w' (<[0%nat := Thread body (k b)]> ts)) as (s' & Hrun & HQ); [done| | |done|apply Hpk|done|].
    + unfold ctx_done. by rewrite Heq.
    + apply list_lookup_insert_eq. by eapply lookup_lt_Some.
    + exists s'. split; [|done]. eapply rtc_l; [|exact Hrun]. econstructor; [done|]. by econstructor.
Qed.

Lemma dial_ends s : reached s -> ctx_done s.1 -> exists s', rtc own_step s s' /\ has_returned s'.1.
Proof.
  intros Hs Hc. destruct (re_dialling s Hs) as (body & pc & Ht & Hw & Hp & Hin). pose proof (re_idle s Hs) as (Hi & _).
  destruct s as [w ts]. by eapply runs_to_end.
Qed.
End dial.

(** * The theorems *)
From S2P Require Import Prelude GoStrings Wire GrpcStatus GrpcTransport.
From S2P Require Import Api Plugin.
From S2P Require Import Threads ClientConn ClientInv ClientTear ClientThreads.

Section props.
Context (target : string) (dopts : dialOptions) (net : nat -> attempt) (cancellable deadline : bool).
#[local] Abbreviation conn_step := (conn_step target dopts net cancellable deadline).

(** What happens to a connection from the call of [DialContext] on. *)
Definition connection (s : ClientConn * list (thread ClientConn)) : Prop := rtc conn_step (dial_start dopts) s.

Lemma connection_inv s : connection s -> inv target dopts net s.1.
Proof. intros Hs. by destruct (conn_sound target dopts net cancellable deadline s Hs). Qed.

(** C12: No goroutine of a connection ever panics: no channel is closed twice or used after it was closed, no nil transport is used,
    and a call that waits never gets neither a transport nor an error. *)
Theorem connection_never_panics s : connection s -> ~ goes_wrong Crashes s /\ ~ goes_wrong Diverges s.
Proof. intros Hs. by destruct (conn_sound target dopts net cancellable deadline s Hs) as [_ Hno]. Qed.

(** C22: What [DialContext] returns.  If it is to block, it returns a connection only after an attempt that succeeded in all its
    parts: dialling, the handshake, the preface, the settings.  When it returns an error the connection is closed, and the error is that of
    its context, what is wrong with the options, or one that it does not try again. *)
Theorem DialContext_result s r :
  connection s -> dialled s.1 = Some r ->
  match r with
  | None => block dopts = true -> attempted (attempts s.1) (succeeds dopts net)
  | Some e => conns s.1 = None /\
      ((exists c, dial_ctx s.1 = Some c /\ e = ctx_Err c) \/ check_security dopts = Some e \/
       attempted (attempts s.1) (fun n => permanent dopts net n e))
  end.
Proof. intros Hs Hr. pose proof (i_returned _ _ _ _ (connection_inv s Hs)) as Hret. unfold returned in Hret. rewrite Hr in Hret. by destruct r. Qed.

(** C23: What [Close] leaves.  Once a call of it has returned, a transport that is not closed is in the hands of a goroutine that is
    still at work, which has made it or tears its [addrConn] down, or it drains: its [addrConn] was given up for a GOAWAY. *)
Theorem Close_leaves s i t :
  connection s -> torn s.1 = true -> transports s.1 !! i = Some t -> t_state t <> closing ->
  (exists tid, tid ∈ active s.1 /\
     (maker t = Some tid \/ exists x, acs s.1 !! owner t = Some x /\ ac_transport x = Some i /\ at_place x = Leaving tid)) \/
  t_state t = draining /\ exists x, acs s.1 !! owner t = Some x /\ ac_transport x = Some i /\ tearDownErr x = Some errConnDrain.
Proof.
  intros Hs Htorn Hi Hal. pose proof (connection_inv s Hs) as Hinv. pose proof (i_torn _ _ _ _ Hinv Htorn) as Hc.
  destruct (to_held _ _ _ (i_transports _ _ _ _ Hinv) i t Hi Hal) as [(tid & Hm & Hact)|(Hm & x & Hx & Hxt & Hst)]; [left; eauto|].
  destruct Hst as [Hst|[He Hd]]; [left|right; eauto].
  destruct (po_acs _ _ _ _ _ (i_places _ _ _ _ Hinv) _ x Hx) as [P1 P2 P3 P4 P5 P6 P7]. destruct (at_place x) as [tid| |tid|] eqn:Hp.
  - destruct (P2 tid eq_refl) as (_ & _ & Hn & _). congruence.
  - destruct (P3 eq_refl) as [|(m & Hm' & _)]; congruence.
  - exists tid. destruct (P4 tid eq_refl) as [|Hact]; [done|]. eauto 10.
  - destruct (P5 eq_refl) as (Hn & _). congruence.
Qed.

(** C24: No wakeup is lost.  A goroutine in [wait] sleeps on a channel that is closed, or that is still the one of its
    [addrConn], which is then neither ready nor shut down and, if the call fails fast, has not failed. *)
Theorem no_lost_wakeup s tid sl :
  connection s -> asleep s.1 !! tid = Some sl ->
  readies s.1 !! on sl = Some (waits_for sl, true) \/
  exists x, acs s.1 !! waits_for sl = Some x /\ ready x = Some (on sl) /\ state x <> Ready /\ state x <> Shutdown /\
    (failfast_ sl = true -> state x = Idle \/ state x = Connecting).
Proof.
  intros Hs Hsl. pose proof (i_readies _ _ _ _ (connection_inv s Hs)) as Hok. destruct (ro_asleep _ _ _ Hok tid sl Hsl) as ([] & Hb & Ho); [by left|right].
  destruct (ro_open _ _ _ Hok _ _ Hb) as (x & Hx & Hr). exists x. destruct (ro_ready _ _ _ Hok _ _ _ Hx Hr) as (_ & H1 & H2). repeat split; try done.
  intros Hf. destruct (Ho eq_refl Hf) as (y & Hy & He). congruence.
Qed.
End props.

(** ** The connections of the service *)

(** The options that [connectGrpcServer] gives, with its time-out. *)
Definition service_options (timeout : Z) : list DialOption := [WithInsecure; WithBlock; WithTimeout timeout; WithDialer].

(** C11: What [connectGrpcServer] promises the rest of the service, which only looks at whether there is an error: it returns a connection
    only after an attempt that succeeded; the only error is that of its time-out, whose text is the one that Plugin relies
    on; and once the time-out has passed, it returns whatever else goes on. *)
Theorem connectGrpcServer_promise target net timeout s :
  connection target (configure (service_options timeout)) net false false s ->
  match dialled s.1 with
  | Some None => attempted (attempts s.1) (succeeds (configure (service_options timeout)) net)
  | Some (Some e) => conns s.1 = None /\ 0 < timeout /\ error_string e = error_string errDial
  | None => True
  end /\
  (dial_ctx s.1 <> None -> exists s', rtc own_step s s' /\ has_returned s'.1).
Proof.
  intros Hs. pose proof (conn_reached _ _ _ _ _ s Hs) as Hre. split.
  - destruct (dialled s.1) as [r|] eqn:Hr; [|done]. pose proof (i_returned _ _ _ _ (connection_inv _ _ _ _ _ s Hs)) as Hret. unfold returned in Hret.
    rewrite Hr in Hret. destruct r as [e|]; [|by apply Hret]. destruct Hret as [Hc Hwhy]. split; [done|].
    destruct Hwhy as [(c & Hctx & ->)|[|(n & _ & ne & _ & _ & Hp)]]; [|done|].
    + pose proof (re_ctx _ _ _ _ _ s Hre) as Hal. unfold ctx_allowed in Hal. rewrite Hctx in Hal. destruct c; [done|]. by destruct Hal.
    + destruct Hp as [[? _]|(_ & [? ?] & _)]; done.
  - intros Hc. apply (dial_ends _ _ _ _ _ s Hre). destruct (dial_ctx s.1) eqn:Hd; [by eexists|done].
Qed.

(** ** A connection that runs *)

Inductive move : Type := Run (tid choice : nat) | Start (g : goroutine) | StartClose | StartGet (ctx : nat) (failfast : bool) | Fails (i : nat) | GoesAway (i : nat) (r : GoAwayReason) | Deadline.

Section play.
Context (target : string) (dopts : dialOptions) (net : nat -> attempt).

Definition starts_now (m : move) (w : ClientConn) : option (thread ClientConn) :=
  match m with
  | Start GDial => Some (dial_goroutine target dopts net)
  | Start (GConnect a) => Some (connect_goroutine target dopts net a)
  | Start (GMonitor a) => Some (monitor_goroutine target dopts net a)
  | StartClose => if bool_decide (dialled w = Some None) then Some (once (_ ← enters; _ ← Close; ends)) else None
  | StartGet ctx failfast => if bool_decide (dialled w = Some None) then Some (getTransport ctx failfast use_transport) else None
  | _ => None
  end.

Definition plays (m : move) (s : ClientConn * list (thread ClientConn)) : option (ClientConn * list (thread ClientConn)) :=
  match m with
  | Run tid choice => run_thread tid choice s
  | Fails i =>
      t ← transports s.1 !! i;
      if bool_decide (t_state t = reachable) then Some (set_transport i (with_t_state unreachable t) s.1, s.2) else None
  | GoesAway i r =>
      t ← transports s.1 !! i;
      if bool_decide (t_state t = reachable) && match r with Invalid => false | _ => true end
      then Some (set_transport i (mkTransport (t_state t) true r (owner t) (maker t)) s.1, s.2) else None
  | Deadline =>
      if bool_decide (0 < timeout dopts) && bool_decide (dial_ctx s.1 = None) then Some (set_dial_ctx (Some CtxDeadlineExceeded) s.1, s.2) else None
  | m => t ← starts_now m s.1; Some (s.1, s.2 ++ [t])
  end.

Fixpoint play (l : list move) (s : ClientConn * list (thread ClientConn)) : option (ClientConn * list (thread ClientConn)) :=
  match l with [] => Some s | m :: l => s ← plays m s; play l s end.

Lemma starts_now_caller m w t : starts_now m w = Some t -> caller target dopts net w t.
Proof.
  destruct m as [| [|a|a] | |c f| | |]; cbn; try done; try (intros [= <-]; constructor).
  - case_bool_decide; [|done]. intros [= <-]. by constructor.
  - case_bool_decide; [|done]. intros [= <-]. by constructor.
Qed.

Lemma plays_step m s s' : plays m s = Some s' -> conn_step target dopts net false false s s'.
Proof.
  intros H. assert (forall t, starts_now m s.1 = Some t -> s' = (s.1, s.2 ++ [t]) -> conn_step target dopts net false false s s') as Hstart.
  { intros t Ht ->. destruct s as [w ts]. apply pool_spawn. by eapply starts_now_caller. }
  destruct m as [tid choice|g| |c f|i|i r|]; cbn [plays] in H.
  - by eapply run_thread_step.
  - destruct (starts_now (Start g) s.1) as [t|] eqn:Ht; [|done]. injection H as <-. eauto.
  - destruct (starts_now StartClose s.1) as [t|] eqn:Ht; [|done]. injection H as <-. eauto.
  - destruct (starts_now (StartGet c f) s.1) as [t|] eqn:Ht; [|done]. injection H as <-. eauto.
  - destruct s as [w ts]. cbn [fst snd] in *. destruct (transports w !! i) as [t|] eqn:Ht; [|done]. cbn [mbind option_bind] in H.
    case_bool_decide; [|done]. injection H as <-. apply pool_env. eapply outside_transport; [done|]. by constructor.
  - destruct s as [w ts]. cbn [fst snd] in *. destruct (transports w !! i) as [t|] eqn:Ht; [|done]. cbn [mbind option_bind] in H.
    case_bool_decide; [|done]. destruct r; [done|..]; injection H as <-; apply pool_env; (eapply outside_transport; [done|]); constructor; auto.
  - destruct s as [w ts]. cbn [fst snd] in *. case_bool_decide; [|done]. case_bool_decide; [|done]. injection H as <-. apply pool_env. constructor; auto.
Qed.

(** Where the moves lead. *)
Definition after (l : list move) : ClientConn * list (thread ClientConn) := default (dial_start dopts) (play l (dial_start dopts)).

Lemma after_connection l : connection target dopts net false false (after l).
Proof.
  unfold after. destruct (play l (dial_start dopts)) as [s|] eqn:Hl; [|apply rtc_refl]. cbn [default]. unfold connection.
  revert Hl. generalize (dial_start dopts). induction l as [|m l IH]; intros s0; cbn [play]; [by intros [= <-]|].
  destruct (plays m s0) as [s1|] eqn:Hm; [|done]. intros Hl. eapply rtc_l; [by eapply plays_step|by apply IH].
Qed.
End play.

(** The kubelet's socket: the second attempt to connect is refused. *)
Definition demo_target : string := KubeletSocket.
Definition demo_opts : dialOptions := configure (service_options 5000000000).
Definition demo_net (n : nat) : attempt :=
  mkAttempt (if bool_decide (n = 1%nat) then Some (mkNetError (errorString "connect: connection refused") true) else None) None (24, None) None None.
Definition demo (l : list move) : ClientConn * list (thread ClientConn) := after demo_target demo_opts demo_net l.
Definition runs_of (n tid : nat) : list move := repeat (Run tid 0) n.

(** [Dial] returns a connection; its transport fails, the monitor connects again, and a call waits meanwhile; the attempt
    fails and the monitor tries once more, when the connection is closed. *)
Definition dials : list move := runs_of 2 0 ++ [Start GDial] ++ runs_of 11 1 ++ runs_of 4 0.
Definition reconnects : list move := dials ++ [Start (GMonitor 0)] ++ runs_of 3 2 ++ [Fails 0] ++ runs_of 5 2.
Definition waits : list move := reconnects ++ [StartGet 0 true] ++ runs_of 3 3.
Definition closes_meanwhile : list move := waits ++ runs_of 8 2 ++ [StartClose] ++ runs_of 6 4.
Definition goes_away : list move := dials ++ [Start (GMonitor 0)] ++ runs_of 2 2 ++ [GoesAway 0 NoReason] ++ runs_of 10 2 ++ [StartClose] ++ runs_of 7 3.

Lemma connection_never_panics_witness :
  connection demo_target demo_opts demo_net false false (demo closes_meanwhile) /\ torn (demo closes_meanwhile).1 = true /\
  (~ goes_wrong Crashes (demo closes_meanwhile) /\ ~ goes_wrong Diverges (demo closes_meanwhile)).
Proof.
  split; [apply after_connection|]. split; [by vm_compute|]. apply (connection_never_panics demo_target demo_opts demo_net false false), after_connection.
Defined.

Lemma DialContext_result_witness :
  dialled (demo dials).1 = Some None /\ (block demo_opts = true -> attempted (attempts (demo dials).1) (succeeds demo_opts demo_net)).
Proof.
  assert (dialled (demo dials).1 = Some None) as Hd by by vm_compute. split; [exact Hd|].
  apply (DialContext_result demo_target demo_opts demo_net false false (demo dials) None); [apply after_connection|exact Hd].
Defined.

Lemma connectGrpcServer_promise_witness :
  dialled (demo dials).1 = Some None /\ attempted (attempts (demo dials).1) (succeeds demo_opts demo_net).
Proof.
  assert (dialled (demo dials).1 = Some None) as Hd by by vm_compute. split; [exact Hd|].
  destruct (connectGrpcServer_promise demo_target demo_net 5000000000 (demo dials)) as [Hp _]; [apply after_connection|]. rewrite Hd in Hp. exact Hp.
Defined.

(** The monitor has made a transport when the connection is closed: it has it still. *)
Lemma Close_leaves_witness :
  exists t, transports (demo closes_meanwhile).1 !! 1%nat = Some t /\ torn (demo closes_meanwhile).1 = true /\ t_state t <> closing /\
    ((exists tid, tid ∈ active (demo closes_meanwhile).1 /\
       (maker t = Some tid \/ exists x, acs (demo closes_meanwhile).1 !! owner t = Some x /\ ac_transport x = Some 1%nat /\ at_place x = Leaving tid)) \/
     t_state t = draining /\ exists x, acs (demo closes_meanwhile).1 !! owner t = Some x /\ ac_transport x = Some 1%nat /\ tearDownErr x = Some errConnDrain).
Proof.
  exists (mkTransport reachable false Invalid 0 (Some 2%nat)). assert (transports (demo closes_meanwhile).1 !! 1%nat = Some (mkTransport reachable false Invalid 0 (Some 2%nat))) as Ht by by vm_compute.
  assert (torn (demo closes_meanwhile).1 = true) as Htorn by by vm_compute. split; [exact Ht|]. split; [exact Htorn|]. split; [done|].
  by apply (Close_leaves demo_target demo_opts demo_net false false (demo closes_meanwhile) 1 _ (after_connection _ _ _ _) Htorn Ht).
Defined.

(** A call waits while the monitor connects. *)
Lemma no_lost_wakeup_witness :
  exists sl, asleep (demo waits).1 !! 3%nat = Some sl /\
    (readies (demo waits).1 !! on sl = Some (waits_for sl, true) \/
     exists x, acs (demo waits).1 !! waits_for sl = Some x /\ ready x = Some (on sl) /\ state x <> Ready /\ state x <> Shutdown /\
       (failfast_ sl = true -> state x = Idle \/ state x = Connecting)).
Proof.
  exists (mkSleeper 0 0 true). assert (asleep (demo waits).1 !! 3%nat = Some (mkSleeper 0 0 true)) as Hs by by vm_compute. split; [exact Hs|].
  exact (no_lost_wakeup demo_target demo_opts demo_net false false (demo waits) 3 _ (after_connection _ _ _ _) Hs).
Defined.

(** What the doc of [Close] does not say: the transport of an [addrConn] that was given up for a GOAWAY, which has calls still, stays
    open when the connection is closed and no goroutine of it is at work any more. *)
Lemma Close_leaves_one :
  torn (demo goes_away).1 = true /\ active (demo goes_away).1 = ∅ /\ t_state <$> transports (demo goes_away).1 !! 0%nat = Some draining.
Proof. by vm_compute. Qed.

(** When the time-out passes while there is no listener yet, [Dial] gives up with the connection closed. *)
Definition refused_net (n : nat) : attempt := mkAttempt (Some (mkNetError (errorString "connect: no such file or directory") true)) None (24, None) None None.
Definition times_out : list move := runs_of 2 0 ++ [Start GDial] ++ runs_of 8 1 ++ [Deadline] ++ runs_of 9 0.

Lemma times_out_result :
  let s := after demo_target demo_opts refused_net times_out in
  dialled s.1 = Some (Some ErrDeadlineExceeded) /\ conns s.1 = None /\ transports s.1 = [].
Proof. by vm_compute. Qed.
